(* ===== verification/_CoqProject ===== *)
-Q . S2P
Prelude.v
SbpfTypes.v
Ebpf.v
Tracker.v
MemoryRegion.v
Eytzinger.v
Mapping.v
MappingSafe.v
Verifier.v
Vm.v
Interp.v
InterpSafe.v
Meter.v
Exec.v
Frames.v
Detect.v
GobbleLib.v
TxAccounts.v
TxContext.v
TxSafe.v
InvokeContext.v
InvokeSafe.v
Serialize.v
SerializeSafe.v
SerializeParams.v
RoundTrip.v
Runtime.v
RuntimeSafe.v
Cli.v
CliSafe.v
ExecutionCost.v
SysvarCache.v
Features.v
MemOps.v
MemOpsSafe.v
Syscalls.v
CurveSyscalls.v
SyscallLaws.v
SyscallsTrace.v
SyscallsSafe.v
SyscallSpecs.v
Cpi.v
CpiSteps.v
CpiSafe.v
CpiSync.v
CpiCalls.v
ElfParser.v
Elf.v
ElfSafe.v
ElfLoad.v
SyscallTable.v
SyscallRuns.v
ProgramCache.v
CacheSafe.v
CacheView.v
CacheEvict.v
CacheLoad.v
CacheRuns.v
RollingBitField.v
RollingSafe.v
BankForks.v
ForksSafe.v
ForksRun.v
