(* ===== verification/Prelude.v ===== *)
(** * Gobble: a verification of the sBPF machine and of the forbidden-access detector

    Gobble runs one instruction of a Solana transaction in a fork of the sBPF virtual machine
    and of the Agave runtime, and reports whether the program read bytes of another instruction
    through the instructions sysvar. The repository contains the command line tool ([gobble/]),
    the library that computes the forbidden bytes ([gobble-lib/]), the fork of the machine
    ([sbpf/]) and the fork of the validator ([agave/]).

    ** Parts and files

    The machine:
    - [Prelude]: integers at their width, results and errors, byte lists, shared tactics.
    - [SbpfTypes]: versions, configuration, errors, function registry (sbpf/src/program.rs,
      error.rs, vm.rs).
    - [Ebpf]: opcodes, instructions, encoding (sbpf/src/ebpf.rs).
    - [Tracker]: the access tracker that the fork adds (sbpf/src/memory_region.rs).
    - [MemoryRegion], [Eytzinger], [Mapping]: regions, the search tree over them, the two
      mappings with their cache (sbpf/src/memory_region.rs). [MappingSafe] has their invariant.
    - [Verifier]: the static checks (sbpf/src/verifier.rs).
    - [Vm], [Interp]: the machine and its interpreter (sbpf/src/vm.rs, interpreter.rs, and of
      elf.rs what execution reads).
    - [ElfParser], [Elf]: ELF files, their loading and relocation (sbpf/src/elf_parser/, elf.rs).
      [ElfSafe], [ElfLoad]: what loading guarantees.
    - [InterpSafe], [Meter], [Exec]: verified programs do not panic, metered programs stop,
      and both together for whole executions. [Frames]: calls and returns.
    - [Detect]: watching memory is transparent and exact.

    The detector and the runtime around the machine:
    - [GobbleLib]: where the forbidden bytes lie in the sysvar (gobble-lib/src/lib.rs).
    - [TxAccounts], [TxContext]: accounts of a transaction, instruction trace and stack,
      borrowed accounts (agave/transaction-context/src/). [TxSafe]: what they guarantee.
    - [InvokeContext]: preparation of instructions, privileges, reentrancy, heap allocator
      (agave/program-runtime/src/invoke_context.rs). [InvokeSafe]: what it guarantees.
    - [Serialize]: the parameters of a program in guest memory, and back
      (agave/program-runtime/src/serialization.rs, sbpf/src/aligned_memory.rs).
      [SerializeSafe], [SerializeParams], [RoundTrip]: their layout, and that they come back.
    - [Runtime]: memory pool, memory mapping and execution of a program
      (agave/program-runtime/src/mem_pool.rs, vm.rs). [RuntimeSafe]: where the forbidden bytes
      are watched and what is reported.
    - [MemOps]: guest values and slices, and the memory syscalls (program-runtime/src/memory.rs,
      syscalls/src/mem_ops.rs). [MemOpsSafe]: their safety and effect.
    - [ExecutionCost], [SysvarCache], [Features]: what syscalls cost, the sysvars a bank caches,
      the feature switches (program-runtime/src/execution_budget.rs, sysvar_cache.rs,
      svm-feature-set/src/lib.rs).
    - [Syscalls], [CurveSyscalls]: the bodies of the other syscalls (syscalls/src/lib.rs,
      logging.rs, sysvar.rs). [SyscallLaws]: what they rely on of other crates, as classes, with
      an instance; [SyscallsTrace]: they pay and are tracked; [SyscallsSafe]: they are safe;
      [SyscallSpecs]: what some of them do.
    - [SyscallTable]: which syscalls a program finds under which names, and the configuration of
      its machine (create_program_runtime_environment_v1 and _v2 of syscalls/src/lib.rs).
      [SyscallRuns]: properties of all syscalls, and of programs that call them.
    - [Cpi]: cross-program invocation, from the structures in the memory of the caller to the
      synchronised accounts (program-runtime/src/cpi.rs). [CpiSteps]: it goes by the steps of
      invocations; [CpiSafe]: its memory safety; [CpiSync]: what synchronising writes;
      [CpiCalls]: the properties.
    - [Cli]: the command line tool, from its arguments to the exit code (gobble/src/main.rs).
      [CliSafe]: what it parses, resolves and watches.

    What surrounds a transaction:
    - [ProgramCache]: the cache of loaded programs (agave/program-runtime/src/loaded_programs.rs).
      [CacheSafe]: the order of versions; [CacheView]: what a batch is given, against the
      interface [ForkGraphLaws]; [CacheEvict]: eviction; [CacheLoad]: the threads that load
      cooperatively (replenish_program_cache of svm/src/transaction_processor.rs);
      [CacheRuns]: the properties.
    - [RollingBitField]: the set of ancestors of a bank (agave/accounts-db/src/
      rolling_bit_field.rs, ancestors.rs). [RollingSafe]: where it is a set and where not.
    - [BankForks]: the tree of banks (agave/runtime/src/bank_forks.rs, of bank.rs the parent
      links and ancestors, snapshot_controller.rs). [ForksSafe]: its invariant; [ForksRun]: it
      implements [ForkGraphLaws], and moving the root is not seen by the cache.

    ** How code is modelled

    Integers are [Z] with casts and wrapping written out. A panic, an index out of bounds or
    undefined behaviour is [None] of an [option]; an error of the source is [Err] of [Result].
    Methods that mutate return the new state; where a function threads a state through many
    fallible calls there is a small monad for it ([TxM], [SerM], [CpiM], [SysM]). Loops are
    structural recursion, or have fuel: the verifier loop and [run_interpreter] have a theorem
    that their fuel is enough, and where the length of a list bounds a loop (the walk up the
    parent links, the binary search, the window of the bit field, the rounds of eviction) the
    theorems that the operation returns show it. State that is shared is a store: the memory of
    the process, the counters of cache entries, the banks. Interleavings are step relations
    ([invoke_step], [cache_step], [system_step], [forks_step]). The iteration order of hash maps
    and sets is a parameter that lists each element once. A modelled debug assertion is a panic.
    The log is modelled where a syscall writes to it; other logging, timing and metrics are left
    out. Code that is not in the repository (hash functions, the rent rule, the sysvar serialiser,
    builtins and decoders of other crates) is an argument, with its documented behaviour as
    hypothesis of the theorems that need it and a witness that instantiates it.

    ** What the theorems show

    - Detection: an execution reports a forbidden access exactly when the same execution without
      watching performs a load that touches a watched range; watching changes nothing else; the
      computed offsets select exactly the forbidden bytes of a sysvar of the documented format;
      [execute] watches them where the guest finds the sysvar, and collects every such load.
    - Command line: the grammar of the ranges, the resolution of lookup tables, the bytes that
      end up watched, and that the simulated program sees instruction index 0.
    - Memory syscalls: they return on every input, leave no memory but the guest's, do what
      their names say, and show the tracker what they read.
    - Syscalls: every one of them returns on every input, stays in the memory of the guest, never
      refills the meter, and shows the tracker what it reads, the same whatever is watched;
      return data comes back as it was set; the search for program addresses finds the highest
      bump seed; sysvars are copied exactly; the sibling instruction is the one a reference
      definition lists. The environment of the runtime binds exactly the syscalls of its
      features, and a program that loads into it runs to a result, with every read of a watched
      byte by the program or its syscalls reported. Cross-program invocation is a parameter there
      with laws, since it runs other programs.
    - Loading: no file makes the loader panic; a file that loads and verifies runs to a result;
      the read-only sections are visible at their addresses; relative calls resolve to their
      targets; a strict image is loaded back to the program it was made of.
    - Machine: the verifier terminates and accepts only programs in which every jump, register
      and wide load is valid; a verified, metered program runs to a result without panic and
      without leaving mapped memory, within its budget; calls restore the caller's frame;
      translation is exact, injective and in bounds; the optimised region search agrees with a
      linear search; a load reads what a store wrote; encoder and decoder are inverse.
    - Runtime: lamports and data sizes agree with the books in every reachable context; accounts
      change only as owner and privileges permit; cross-program calls gain no privileges;
      programs are re-entered only directly; the instruction stack is well nested; borrows
      exclude each other; heap allocations are disjoint; pooled memory is fresh; serialising the
      parameters has the documented layout, and deserialising them changes nothing.
    - Cross-program invocation: in every mode it keeps the books and gives the callee no
      privilege that the caller or its derived addresses do not have. Without the stricter rules
      it stays in the memory of the caller whatever it is passed, the callee sees what the caller
      left and the caller what the callee left, and a callee that changes nothing is not seen.
    - Program cache: versions stay in order; a batch is given the newest deployment on its fork;
      what is assigned is found; eviction leaves as many as it should; cooperative loading ends
      with every batch complete.
    - Banks: the bit field is a set as long as slots are inserted upwards; the tree never panics,
      keeps exactly the descendants and confirmed ancestors of a new root, and tells the cache a
      relation that obeys its laws, so that moving the root changes nothing for the banks left.

    ** Not modelled

    The JIT compiler and the encoders of machine code (they need a semantics of the host
    processor), assembler, disassembler, debugger and static analysis, builtin programs except as
    parameters, the arithmetic of curves, fields and hash functions, the decoding of account
    states of other crates, the deployment of programs, and the crates of the validator that the
    detector does not run (ledger, network, consensus, storage). *)

From Stdlib Require Import ZArith Lia Bool.
From stdpp Require Export base tactics list gmap.

#[global] Open Scope Z_scope.

(** ** Machine integers

    Every Rust integer is a [Z]; a cast [x as uN] or [x as iN] is [cast_u N x] or
    [cast_s N x], whatever the type of [x] was (Rust truncates or sign-extends, which
    is the same residue). *)

Definition cast_u (w x : Z) : Z := x mod 2 ^ w.
Definition cast_s (w x : Z) : Z := (x + 2 ^ (w - 1)) mod 2 ^ w - 2 ^ (w - 1).

Abbreviation as_u8 := (cast_u 8).
Abbreviation as_u16 := (cast_u 16).
Abbreviation as_u32 := (cast_u 32).
Abbreviation as_u64 := (cast_u 64).
Abbreviation as_usize := (cast_u 64).
Abbreviation as_i16 := (cast_s 16).
Abbreviation as_i32 := (cast_s 32).
Abbreviation as_i64 := (cast_s 64).

Abbreviation u64_MAX := (18446744073709551615).
Abbreviation u32_MAX := (4294967295).
Abbreviation i64_MIN := (-9223372036854775808).
Abbreviation i64_MAX := (9223372036854775807).
Abbreviation i32_MIN := (-2147483648).

(** The values of a type. *)
Definition is_u (w x : Z) : Prop := 0 <= x < 2 ^ w.
Definition is_s (w x : Z) : Prop := - 2 ^ (w - 1) <= x < 2 ^ (w - 1).
Abbreviation is_u8 := (is_u 8).
Abbreviation is_u32 := (is_u 32).
Abbreviation is_u64 := (is_u 64).
Abbreviation is_i32 := (is_s 32).
Abbreviation is_i64 := (is_s 64).

(** Saturating, checked and wrapping operations of [u64]/[usize] and [i64]. *)
Definition saturating_add (a b : Z) : Z := Z.min (a + b) u64_MAX.
Definition saturating_sub (a b : Z) : Z := Z.max (a - b) 0.
Definition saturating_mul (a b : Z) : Z := Z.min (a * b) u64_MAX.
Definition checked_add (a b : Z) : option Z :=
  if a + b <=? u64_MAX then Some (a + b) else None.
Definition clamp_i64 (x : Z) : Z := Z.max i64_MIN (Z.min x i64_MAX).
Definition saturating_add_i64 (a b : Z) : Z := clamp_i64 (a + b).
Definition saturating_sub_i64 (a b : Z) : Z := clamp_i64 (a - b).
Definition wrapping_add (a b : Z) : Z := as_u64 (a + b).
Definition wrapping_sub (a b : Z) : Z := as_u64 (a - b).
Definition wrapping_mul (a b : Z) : Z := as_u64 (a * b).

(** [x.wrapping_shl(n)] and [x.wrapping_shr(n)] of a [w]-bit integer mask the
    shift amount; the right shift of a signed value is arithmetic, which is
    [Z.shiftr] on the signed representative. *)
Definition wrapping_shl (w x n : Z) : Z := cast_u w (Z.shiftl x (n mod w)).
Definition wrapping_shr (w x n : Z) : Z := Z.shiftr x (n mod w).

(** [x.checked_shr(n).unwrap_or(0)] on [u64] and
    [(-1i64).checked_shl(n).unwrap_or(0) as u64]. *)
Definition checked_shr_or_0 (x n : Z) : Z := if n <? 64 then Z.shiftr x n else 0.
Definition checked_shl_or_0 (x n : Z) : Z := if n <? 64 then as_u64 (Z.shiftl x n) else 0.

(** ** Little-endian bytes *)

Fixpoint le_combine (bs : list Z) : Z :=
  match bs with
  | [] => 0
  | b :: bs' => b + 256 * le_combine bs'
  end.

Fixpoint le_split (n : nat) (x : Z) : list Z :=
  match n with
  | O => []
  | S n' => x mod 256 :: le_split n' (x / 256)
  end.

(** ** Ranges, [std::ops::Range] *)

Record Range := mkRange { r_start : Z; r_end : Z }.

Definition range_is_empty (r : Range) : bool := negb (r_start r <? r_end r).
Definition range_contains (r : Range) (x : Z) : bool :=
  (r_start r <=? x) && (x <? r_end r).

(** ** Results *)

Inductive Result (T E : Type) : Type :=
| Ok (value : T)
| Err (error : E).
Arguments Ok {T E} value.
Arguments Err {T E} error.

Definition is_ok {T E} (r : Result T E) : bool :=
  match r with Ok _ => true | Err _ => false end.
Definition map_err {T E F} (f : E -> F) (r : Result T E) : Result T F :=
  match r with Ok v => Ok v | Err e => Err (f e) end.

Declare Scope gobble_scope.
Delimit Scope gobble_scope with gobble.
#[global] Open Scope gobble_scope.

(** Rust's [?]. *)
Notation "'let?' x := e 'in' k" :=
  (match e with Ok x => k | Err err => Err err end)
  (at level 10, x pattern, e at level 100, k at level 200)
  : gobble_scope.

(** A computation that may panic or have undefined behaviour is an [option],
    [None] being the panic. *)
Notation "'let!' x := e 'in' k" :=
  (match e with Some x => k | None => None end)
  (at level 10, x pattern, e at level 100, k at level 200)
  : gobble_scope.

(** Bitwise or, as the opcode tables write it. *)
Infix ".|" := Z.lor (at level 50, left associativity) : gobble_scope.

(** [v[start..end]]. *)
Definition slice {A} (l : list A) (start stop : Z) : list A :=
  take (Z.to_nat (stop - start)) (drop (Z.to_nat start) l).

(** [v.is_empty()]. *)
Definition is_nil {A} (l : list A) : bool := match l with [] => true | _ :: _ => false end.

(** The length of a slice as a [usize]. *)
Definition len {A} (l : list A) : Z := Z.of_nat (length l).

(** [LittleEndian::read_*(&v[offset..])] of an [n]-byte integer: the [n] bytes at
    the offset, a panic when the slice is too short. *)
Definition read_le (n : nat) (l : list Z) (offset : Z) : option Z :=
  let bs := take n (drop (Z.to_nat offset) l) in
  if (length bs =? n)%nat then Some (le_combine bs) else None.

(** ** Automation *)

Create HintDb gobble.

(** Unfold the integer vocabulary and call [lia]. *)
Ltac unfold_int :=
  unfold is_u, is_s, saturating_add, saturating_sub, saturating_mul,
    checked_add, saturating_add_i64, saturating_sub_i64, clamp_i64, wrapping_add,
    wrapping_sub, wrapping_mul, wrapping_shl, cast_u, cast_s in *.
Ltac int_lia := intros; unfold_int; Z.to_euclidean_division_equations; lia.

(** Decide a closed conjunction of integer facts by evaluation. *)
Ltac eval_int := vm_compute; repeat split; first [reflexivity | discriminate].

(** Reflect boolean tests on integers found in the goal and the context. *)
Ltac bool_to_prop :=
  repeat match goal with
    | H : (_ && _)%bool = true |- _ => apply andb_true_iff in H as [? ?]
    | H : (_ || _)%bool = false |- _ => apply orb_false_iff in H as [? ?]
    | H : negb _ = true |- _ => apply negb_true_iff in H
    | H : negb _ = false |- _ => apply negb_false_iff in H
    | H : (_ <? _)%Z = true |- _ => apply Z.ltb_lt in H
    | H : (_ <? _)%Z = false |- _ => apply Z.ltb_ge in H
    | H : (_ <=? _)%Z = true |- _ => apply Z.leb_le in H
    | H : (_ <=? _)%Z = false |- _ => apply Z.leb_gt in H
    | H : (_ =? _)%Z = true |- _ => apply Z.eqb_eq in H
    | H : (_ =? _)%Z = false |- _ => apply Z.eqb_neq in H
    end.

(** ** Facts on integers *)

Lemma pow2_pos w : 0 <= w -> 0 < 2 ^ w.
Proof. intros. apply Z.pow_pos_nonneg; lia. Qed.

Lemma pow2_half w : 0 < w -> 2 ^ w = 2 * 2 ^ (w - 1).
Proof. intros. replace w with (Z.succ (w - 1)) at 1 by lia. apply Z.pow_succ_r. lia. Qed.

Lemma cast_u_range w x : 0 <= w -> is_u w (cast_u w x).
Proof. intros. apply Z.mod_pos_bound, pow2_pos. done. Qed.

Lemma cast_u_id w x : is_u w x -> cast_u w x = x.
Proof. intros H. apply Z.mod_small, H. Qed.

Lemma cast_s_range w x : 0 < w -> is_s w (cast_s w x).
Proof.
  intros. unfold is_s, cast_s. pose proof (pow2_half w).
  pose proof (Z.mod_pos_bound (x + 2 ^ (w - 1)) (2 ^ w) (pow2_pos w ltac:(lia))). lia.
Qed.

Lemma cast_s_id w x : 0 < w -> is_s w x -> cast_s w x = x.
Proof.
  intros Hw H. unfold is_s, cast_s in *. pose proof (pow2_half w Hw).
  rewrite Z.mod_small; lia.
Qed.

Lemma cast_u_s w x : 0 < w -> cast_u w (cast_s w x) = cast_u w x.
Proof.
  intros. unfold cast_u, cast_s. rewrite Zminus_mod_idemp_l. f_equal. lia.
Qed.

Lemma cast_s_u w x : 0 < w -> cast_s w (cast_u w x) = cast_s w x.
Proof. intros. unfold cast_u, cast_s. by rewrite Zplus_mod_idemp_l. Qed.

Lemma cast_u_0 w x : 0 < w -> is_s w x -> cast_u w x = 0 -> x = 0.
Proof.
  intros Hw H. unfold cast_u, is_s in *. pose proof (pow2_half w Hw).
  pose proof (pow2_pos (w - 1) ltac:(lia)). intros E.
  apply Z.mod_divide in E as [k ->]; [|lia].
  rewrite (pow2_half w Hw) in *. set (P := 2 ^ (w - 1)) in *. clearbody P.
  assert (k < 1) by nia. assert (-1 < k) by nia. replace k with 0 by lia. done.
Qed.

Lemma saturating_add_range a b : is_u64 a -> is_u64 b -> is_u64 (saturating_add a b).
Proof. int_lia. Qed.

Lemma saturating_add_nonneg a b : 0 <= a -> 0 <= b -> 0 <= saturating_add a b.
Proof. unfold saturating_add. lia. Qed.
Lemma saturating_mul_nonneg a b : 0 <= a -> 0 <= b -> 0 <= saturating_mul a b.
Proof. unfold saturating_mul. nia. Qed.
Lemma saturating_sub_nonneg a b : 0 <= saturating_sub a b.
Proof. unfold saturating_sub. lia. Qed.

#[export] Hint Resolve cast_u_range cast_s_range saturating_add_range : gobble.

(** ** Facts on bytes *)

Definition bytes (bs : list Z) : Prop := Forall is_u8 bs.

Lemma le_combine_range bs : bytes bs -> 0 <= le_combine bs < 256 ^ len bs.
Proof.
  unfold len. induction 1 as [|b bs Hb _ IH]; [simpl; lia|].
  cbn [le_combine length]. rewrite Nat2Z.inj_succ, Z.pow_succ_r by lia. int_lia.
Qed.

Lemma le_combine_split n x : le_combine (le_split n x) = x mod 256 ^ Z.of_nat n.
Proof.
  revert x; induction n as [|n IH]; intros x; cbn [le_split le_combine].
  { by rewrite Z.mod_1_r. }
  rewrite IH, Nat2Z.inj_succ, Z.pow_succ_r by lia.
  pose proof (Z.pow_pos_nonneg 256 (Z.of_nat n)).
  rewrite (Z.rem_mul_r x 256) by lia. lia.
Qed.

Lemma le_split_bytes n x : bytes (le_split n x).
Proof.
  revert x; induction n as [|n IH]; intros x; constructor; [|apply IH].
  unfold is_u. apply Z.mod_pos_bound. lia.
Qed.

Lemma le_split_length n x : length (le_split n x) = n.
Proof. revert x; induction n as [|n IH]; intros x; cbn; [done | by rewrite IH]. Qed.

Lemma le_split_combine bs : bytes bs -> le_split (length bs) (le_combine bs) = bs.
Proof.
  induction 1 as [|b bs Hb Hbs IH]; [done|]. cbn [length le_split le_combine].
  rewrite (Z.mul_comm 256), Z.mod_add, Z.div_add by lia.
  unfold is_u in Hb. rewrite Z.mod_small, Z.div_small, Z.add_0_l by lia. by rewrite IH.
Qed.

Lemma bytes_app bs1 bs2 : bytes (bs1 ++ bs2) <-> bytes bs1 /\ bytes bs2.
Proof. apply Forall_app. Qed.

Lemma bytes_take n bs : bytes bs -> bytes (take n bs).
Proof. apply Forall_take. Qed.

Lemma bytes_drop n bs : bytes bs -> bytes (drop n bs).
Proof. apply Forall_drop. Qed.

Lemma bytes_slice a b bs : bytes bs -> bytes (slice bs a b).
Proof. intros. by apply bytes_take, bytes_drop. Qed.

#[export] Hint Resolve le_split_bytes bytes_take bytes_drop bytes_slice : gobble.

(** Rust allocations hold at most [isize::MAX] bytes. *)
Definition rust_len {A} (l : list A) : Prop := len l <= i64_MAX.

Lemma len_nonneg {A} (l : list A) : 0 <= len l.
Proof. unfold len. lia. Qed.

Lemma len_app {A} (l1 l2 : list A) : len (l1 ++ l2) = len l1 + len l2.
Proof. unfold len. rewrite length_app. lia. Qed.

Lemma slice_length {A} (l : list A) a b :
  0 <= a <= b -> b <= len l -> len (slice l a b) = b - a.
Proof. unfold slice, len. rewrite length_take, length_drop. lia. Qed.

Lemma slice_app_r {A} (l1 l2 : list A) a b :
  len l1 <= a -> slice (l1 ++ l2) a b = slice l2 (a - len l1) (b - len l1).
Proof.
  unfold slice, len. intros H. rewrite drop_app_ge by lia.
  f_equal; [lia|]. f_equal; lia.
Qed.

Lemma slice_app_l {A} (l1 l2 : list A) a b :
  0 <= a -> b <= len l1 -> slice (l1 ++ l2) a b = slice l1 a b.
Proof.
  unfold slice, len. intros Ha H.
  destruct (decide (b <= a)) as [|Hlt].
  { replace (Z.to_nat (b - a)) with 0%nat by lia. done. }
  rewrite drop_app_le, take_app_le; rewrite ?length_drop; try lia. done.
Qed.

Lemma read_le_app n l1 bs l2 :
  length bs = n -> read_le n (l1 ++ bs ++ l2) (len l1) = Some (le_combine bs).
Proof.
  intros <-. unfold read_le, len. rewrite Nat2Z.id, drop_app_length, take_app_length.
  by rewrite Nat.eqb_refl.
Qed.

Lemma read_le_Some n l off :
  0 <= off -> off + Z.of_nat n <= len l ->
  exists bs, length bs = n /\ read_le n l off = Some (le_combine bs) /\
    bs = slice l off (off + Z.of_nat n).
Proof.
  intros H0 H. unfold read_le, slice. replace (off + Z.of_nat n - off) with (Z.of_nat n) by lia.
  rewrite Nat2Z.id.
  eexists; split; [|split]; [| |reflexivity].
  - rewrite length_take, length_drop. unfold len in H. lia.
  - rewrite length_take, length_drop. unfold len in H.
    destruct (Nat.eqb_spec (n `min` (length l - Z.to_nat off)) n); [done|lia].
Qed.

Lemma land_ones_mod x w : 0 <= w -> Z.land x (Z.ones w) = x mod 2 ^ w.
Proof. apply Z.land_ones. Qed.

(** Exhaustive check of a boolean predicate over the values of a small type. *)
Lemma forall_u w (P : Z -> bool) x :
  forallb P (seqZ 0 (2 ^ w)) = true -> is_u w x -> P x = true.
Proof.
  intros H Hx. rewrite forallb_forall in H. apply H, list_elem_of_In, elem_of_seqZ.
  unfold is_u in Hx. lia.
Qed.

(** A bitwise or of disjoint fields is a sum. *)
Lemma lor_disjoint a b n :
  0 <= n -> 0 <= a < 2 ^ n -> Z.lor a (Z.shiftl b n) = a + b * 2 ^ n.
Proof.
  intros Hn Ha. pose proof (pow2_pos n Hn).
  assert (Z.lor a (Z.shiftl b n) mod 2 ^ n = a) as Hlow.
  { rewrite <- Z.land_ones, Z.land_lor_distr_l, !Z.land_ones, Z.shiftl_mul_pow2 by done.
    rewrite Z.mod_mul, Z.lor_0_r, Z.mod_small; lia. }
  assert (Z.lor a (Z.shiftl b n) / 2 ^ n = b) as Hhigh.
  { rewrite <- Z.shiftr_div_pow2, Z.shiftr_lor, Z.shiftr_shiftl_l, Z.sub_diag, Z.shiftl_0_r by done.
    rewrite Z.shiftr_div_pow2, Z.div_small; [done..]. }
  rewrite (Z.div_mod (Z.lor a (Z.shiftl b n)) (2 ^ n)), Hlow, Hhigh by lia. lia.
Qed.

(** Splitting depends on the residue only, so a sign-extended value splits the
    same way. *)
Lemma le_split_mod n x y :
  x mod 256 ^ Z.of_nat n = y mod 256 ^ Z.of_nat n -> le_split n x = le_split n y.
Proof.
  intros E. rewrite <- (le_split_combine (le_split n x)), <- (le_split_combine (le_split n y))
    by apply le_split_bytes.
  by rewrite !le_split_length, !le_combine_split, E.
Qed.

Lemma le_split_signed n w x :
  0 < w -> w = 8 * Z.of_nat n -> le_split n (cast_s w x) = le_split n x.
Proof.
  intros Hw E. apply le_split_mod. change 256 with (2 ^ 8).
  rewrite <- Z.pow_mul_r, <- E by lia. apply (cast_u_s w x Hw).
Qed.
