(* ===== verification/SbpfTypes.v ===== *)
(** Shared types of the sBPF virtual machine: the bytecode versions and the
    features each enables (sbpf/src/program.rs), the error types
    (sbpf/src/error.rs, sbpf/src/elf.rs, sbpf/src/verifier.rs), the VM
    configuration (sbpf/src/vm.rs) and the function registries
    (sbpf/src/program.rs). *)

From Stdlib Require Import ZArith Lia Bool.
From stdpp Require Import strings sorting.
From S2P Require Import Prelude.

(** ** SBPFVersion *)

Inductive SBPFVersion := V0 | V1 | V2 | V3 | V4 | Reserved.

#[export] Instance SBPFVersion_eq_dec : EqDecision SBPFVersion.
Proof. solve_decision. Defined.

(** The derived [PartialOrd] compares declaration positions. *)
Definition version_index (v : SBPFVersion) : Z :=
  match v with V0 => 0 | V1 => 1 | V2 => 2 | V3 => 3 | V4 => 4 | Reserved => 5 end.
Definition version_eqb (v w : SBPFVersion) : bool := version_index v =? version_index w.
Definition version_leb (v w : SBPFVersion) : bool := version_index v <=? version_index w.

Definition manual_stack_frame_bump (v : SBPFVersion) : bool :=
  version_eqb v V1 || version_eqb v V2.
Definition stack_frame_gaps (v : SBPFVersion) : bool := version_eqb v V0.
Definition enable_pqr (v : SBPFVersion) : bool := version_eqb v V2.
Definition explicit_sign_extension_of_results (v : SBPFVersion) : bool := version_eqb v V2.
Definition swap_sub_reg_imm_operands (v : SBPFVersion) : bool := version_eqb v V2.
Definition disable_neg (v : SBPFVersion) : bool := version_eqb v V2.
Definition callx_uses_src_reg (v : SBPFVersion) : bool := version_eqb v V2.
Definition disable_lddw (v : SBPFVersion) : bool := version_eqb v V2.
Definition disable_le (v : SBPFVersion) : bool := version_eqb v V2.
Definition move_memory_instruction_classes (v : SBPFVersion) : bool := version_eqb v V2.
Definition static_syscalls (v : SBPFVersion) : bool := version_leb V3 v.
Definition enable_stricter_elf_headers (v : SBPFVersion) : bool := version_leb V3 v.
Definition enable_lower_rodata_vaddr (v : SBPFVersion) : bool := version_leb V3 v.
Definition enable_jmp32 (v : SBPFVersion) : bool := version_leb V3 v.
Definition callx_uses_dst_reg (v : SBPFVersion) : bool := version_leb V3 v.

Definition calculate_call_imm_target_pc (v : SBPFVersion) (pc imm : Z) : Z :=
  if static_syscalls v
  then as_u32 (saturating_add_i64 (saturating_add_i64 (as_i64 pc) imm) 1)
  else as_u32 imm.

(** ** Errors *)

Inductive AccessType := Load | Store.

#[export] Instance AccessType_eq_dec : EqDecision AccessType.
Proof. solve_decision. Defined.

Inductive ElfError :=
| FailedToParse (what : string)
| EntrypointOutOfBounds
| InvalidEntrypoint
| FailedToGetSection (name : string)
| UnresolvedSymbol (name : string) (insn offset : Z)
| SectionNotFound (name : string)
| RelativeJumpOutOfBounds (insn : Z)
| SymbolHashCollision (hash : Z)
| WrongEndianess
| WrongAbi
| WrongMachine
| WrongClass
| NotOneTextSection
| WritableSectionNotSupported (name : string)
| AddressOutsideLoadableSection (addr : Z)
| InvalidVirtualAddress (addr : Z)
| UnknownRelocation (ty : Z)
| FailedToReadRelocationInfo
| WrongType
| UnknownSymbol (index : Z)
| ValueOutOfBounds
| UnsupportedSBPFVersion
| InvalidProgramHeader.

Inductive VerifierError :=
| ProgramLengthNotMultiple
| ProgramTooLarge (n : Z)
| NoProgram
| DivisionByZero (insn : Z)
| UnsupportedLEBEArgument (insn : Z)
| LDDWCannotBeLast
| IncompleteLDDW (insn : Z)
| InfiniteLoop (insn : Z)
| JumpOutOfCode (dst insn : Z)
| JumpToMiddleOfLDDW (dst insn : Z)
| InvalidSourceRegister (insn : Z)
| CannotWriteR10 (insn : Z)
| InvalidDestinationRegister (insn : Z)
| UnknownOpCode (opc insn : Z)
| ShiftWithOverflow (shift bits insn : Z)
| InvalidRegister (insn : Z)
| InvalidFunction (insn : Z)
| InvalidSyscall (code : Z)
| UnalignedImmediate (insn : Z).

(** A boxed [dyn Error] that a syscall returns is either an [EbpfError] again
    (the runtime downcasts to it), an instruction error or another error, the
    last two known by their text only. *)
Inductive EbpfError :=
| ElfErrorE (e : ElfError)
| FunctionAlreadyRegistered (n : Z)
| CallDepthExceeded
| ExitRootCallFrame
| DivideByZero
| DivideOverflow
| ExecutionOverrun
| CallOutsideTextSegment
| ExceededMaxInstructions
| JitNotCompiled
| InvalidMemoryRegion (index : Z)
| AccessViolation (ty : AccessType) (vm_addr len : Z) (region : string)
| StackAccessViolation (ty : AccessType) (vm_addr len frame : Z)
| InvalidInstruction
| UnsupportedInstruction
| ExhaustedTextSegment (pc : Z)
| LibcInvocationFailed (function : string) (args : list string) (code : Z)
| VerifierErrorE (e : VerifierError)
| SyscallError (err : BoxError)
with BoxError :=
| BoxEbpfError (e : EbpfError)
| BoxInstructionError (name : string)
| BoxOther (what : string).

(** [StableResult<u64, EbpfError>]. *)
Abbreviation ProgramResult := (Result Z EbpfError).

(** ** Config *)

Record Config := mkConfig {
  max_call_depth : Z;
  stack_frame_size : Z;
  enable_address_translation : bool;
  enable_stack_frame_gaps : bool;
  instruction_meter_checkpoint_distance : Z;
  enable_instruction_meter : bool;
  enable_register_tracing : bool;
  enable_symbol_and_section_labels : bool;
  reject_broken_elfs : bool;
  noop_instruction_rate : Z;
  sanitize_user_provided_values : bool;
  optimize_rodata : bool;
  allow_memory_region_zero : bool;
  aligned_memory_mapping : bool;
  enabled_sbpf_versions : SBPFVersion * SBPFVersion
}.

Definition stack_size (c : Config) : Z := as_usize (stack_frame_size c * max_call_depth c).

Definition Config_default : Config := {|
  max_call_depth := 64;
  stack_frame_size := 4096;
  enable_address_translation := true;
  enable_stack_frame_gaps := true;
  instruction_meter_checkpoint_distance := 10000;
  enable_instruction_meter := true;
  enable_register_tracing := false;
  enable_symbol_and_section_labels := false;
  reject_broken_elfs := false;
  noop_instruction_rate := 256;
  sanitize_user_provided_values := true;
  optimize_rodata := true;
  allow_memory_region_zero := true;
  aligned_memory_mapping := false;
  enabled_sbpf_versions := (V0, V4)
|}.

(** ** FunctionRegistry

    A [BTreeMap<u32, (Vec<u8>, T)>]: the finite map holds the entries, and the
    operations that iterate sort the keys, which is the order a [BTreeMap]
    iterates in. *)

Record FunctionRegistry (T : Type) := mkRegistry {
  fr_map : gmap Z (list Z * T)
}.
Arguments mkRegistry {T} fr_map.
Arguments fr_map {T} f.

Section registry.
  Context {T : Type} `{EqDecision T}.
  Implicit Types reg : FunctionRegistry T.

Definition registry_default : FunctionRegistry T := mkRegistry ∅.

Definition register_function reg (key : Z) (name : list Z) (value : T)
    : Result (FunctionRegistry T) ElfError :=
  match fr_map reg !! key with
  | None => Ok (mkRegistry (<[key := (name, value)]> (fr_map reg)))
  | Some entry =>
      if decide (entry.2 <> value) then Err (SymbolHashCollision key) else Ok reg
  end.

Definition unregister_function reg (key : Z) : FunctionRegistry T :=
  mkRegistry (delete key (fr_map reg)).

Definition registry_keys reg : list Z := merge_sort Z.le (map fst (map_to_list (fr_map reg))).

Definition registry_iter reg : list (Z * (list Z * T)) :=
  omap (fun key => (fun e => (key, e)) <$> fr_map reg !! key) (registry_keys reg).

Definition lookup_by_key reg (key : Z) : option (list Z * T) := fr_map reg !! key.

Definition lookup_by_name reg (name : list Z) : option (list Z * T) :=
  snd <$> List.find (fun e => bool_decide (e.2.1 = name)) (registry_iter reg).

End registry.

(** ** Properties of the registry *)

Section registry_properties.
  Context {T : Type} `{EqDecision T}.
  Implicit Types reg : FunctionRegistry T.

(** A successful registration makes the key resolve to the value, keeps the
    first name under which the key was registered, and leaves every other key
    alone; a collision is reported exactly when the key is bound to another
    value. *)
Theorem register_function_spec reg key name value :
  match register_function reg key name value with
  | Ok reg' =>
      (exists name', lookup_by_key reg' key = Some (name', value) /\
        (lookup_by_key reg key = None -> name' = name)) /\
      (forall k, k <> key -> lookup_by_key reg' k = lookup_by_key reg k) /\
      (forall k e, lookup_by_key reg k = Some e -> lookup_by_key reg' k = Some e)
  | Err e =>
      e = SymbolHashCollision key /\
      exists name' value', lookup_by_key reg key = Some (name', value') /\ value' <> value
  end.
Proof.
  unfold register_function, lookup_by_key.
  destruct (fr_map reg !! key) as [[name' value']|] eqn:E; cbn.
  - destruct (decide (value' <> value)) as [Hne|Heq].
    + eauto.
    + apply dec_stable in Heq as ->. rewrite E. naive_solver.
  - repeat split.
    + exists name. by rewrite lookup_insert_eq.
    + intros k Hk. by rewrite lookup_insert_ne.
    + intros k e Hk. rewrite lookup_insert_ne; [done | congruence].
Qed.

Lemma registry_keys_spec reg key :
  key ∈ registry_keys reg <-> is_Some (lookup_by_key reg key).
Proof.
  unfold registry_keys, lookup_by_key.
  rewrite merge_sort_Permutation, list_elem_of_fmap. split.
  - intros [[k e] [-> Hin]]. apply elem_of_map_to_list in Hin. by exists e.
  - intros [e He]. exists (key, e). split; [done|]. by apply elem_of_map_to_list.
Qed.

Lemma registry_iter_spec reg key e :
  (key, e) ∈ registry_iter reg <-> lookup_by_key reg key = Some e.
Proof.
  unfold registry_iter. rewrite list_elem_of_omap. split.
  - intros (k & _ & Hk). destruct (fr_map reg !! k) eqn:E; simplify_eq/=. done.
  - intros He. exists key. split; [apply registry_keys_spec; by exists e|].
    unfold lookup_by_key in He. by rewrite He.
Qed.

End registry_properties.
