(* ===== verification/Ebpf.v ===== *)
(** The instruction set of the sBPF machine (sbpf/src/ebpf.rs): constants,
    opcodes, the instruction record and its 8-byte encoding.

    The theorems show that the encoder [to_array] and the decoder [get_insn]
    are inverse to each other, on single instructions and on whole programs,
    and that the two halves of a 64-bit immediate load are reassembled. *)

From Stdlib Require Import ZArith Lia Bool.
From S2P Require Import Prelude.

(** ** Constants and opcodes *)

Definition PROG_MAX_INSNS : Z := 65536.
Definition INSN_SIZE : Z := 8.
Definition FRAME_PTR_REG : Z := 10.
Definition FIRST_SCRATCH_REG : Z := 6.
Definition SCRATCH_REGS : Z := 4.
Definition HOST_ALIGN : Z := 16.
Definition VIRTUAL_ADDRESS_BITS : Z := 32.
Definition MM_REGION_SIZE : Z := Z.shiftl 1 VIRTUAL_ADDRESS_BITS.
Definition MM_RODATA_START : Z := 0.
Definition MM_BYTECODE_START : Z := MM_REGION_SIZE.
Definition MM_STACK_START : Z := MM_REGION_SIZE * 2.
Definition MM_HEAP_START : Z := MM_REGION_SIZE * 3.
Definition MM_INPUT_START : Z := MM_REGION_SIZE * 4.
Definition BPF_LD : Z := 0x00.
Definition BPF_LDX : Z := 0x01.
Definition BPF_ST : Z := 0x02.
Definition BPF_STX : Z := 0x03.
Definition BPF_ALU32_LOAD : Z := 0x04.
Definition BPF_JMP64 : Z := 0x05.
Definition BPF_JMP32 : Z := 0x06.
Definition BPF_PQR : Z := 0x06.
Definition BPF_ALU64_STORE : Z := 0x07.
Definition BPF_W : Z := 0x00.
Definition BPF_H : Z := 0x08.
Definition BPF_B : Z := 0x10.
Definition BPF_DW : Z := 0x18.
Definition BPF_1B : Z := 0x20.
Definition BPF_2B : Z := 0x30.
Definition BPF_4B : Z := 0x80.
Definition BPF_8B : Z := 0x90.
Definition BPF_IMM : Z := 0x00.
Definition BPF_ABS : Z := 0x20.
Definition BPF_IND : Z := 0x40.
Definition BPF_MEM : Z := 0x60.
Definition BPF_K : Z := 0x00.
Definition BPF_X : Z := 0x08.
Definition BPF_ADD : Z := 0x00.
Definition BPF_SUB : Z := 0x10.
Definition BPF_MUL : Z := 0x20.
Definition BPF_DIV : Z := 0x30.
Definition BPF_OR : Z := 0x40.
Definition BPF_AND : Z := 0x50.
Definition BPF_LSH : Z := 0x60.
Definition BPF_RSH : Z := 0x70.
Definition BPF_NEG : Z := 0x80.
Definition BPF_MOD : Z := 0x90.
Definition BPF_XOR : Z := 0xa0.
Definition BPF_MOV : Z := 0xb0.
Definition BPF_ARSH : Z := 0xc0.
Definition BPF_END : Z := 0xd0.
Definition BPF_HOR : Z := 0xf0.
Definition BPF_UHMUL : Z := 0x20.
Definition BPF_UDIV : Z := 0x40.
Definition BPF_UREM : Z := 0x60.
Definition BPF_LMUL : Z := 0x80.
Definition BPF_SHMUL : Z := 0xa0.
Definition BPF_SDIV : Z := 0xc0.
Definition BPF_SREM : Z := 0xe0.
Definition BPF_JA : Z := 0x00.
Definition BPF_JEQ : Z := 0x10.
Definition BPF_JGT : Z := 0x20.
Definition BPF_JGE : Z := 0x30.
Definition BPF_JSET : Z := 0x40.
Definition BPF_JNE : Z := 0x50.
Definition BPF_JSGT : Z := 0x60.
Definition BPF_JSGE : Z := 0x70.
Definition BPF_CALL : Z := 0x80.
Definition BPF_EXIT : Z := 0x90.
Definition BPF_JLT : Z := 0xa0.
Definition BPF_JLE : Z := 0xb0.
Definition BPF_JSLT : Z := 0xc0.
Definition BPF_JSLE : Z := 0xd0.
Definition LD_DW_IMM : Z := BPF_LD .| BPF_IMM .| BPF_DW.
Definition LD_B_REG : Z := BPF_LDX .| BPF_MEM .| BPF_B.
Definition LD_H_REG : Z := BPF_LDX .| BPF_MEM .| BPF_H.
Definition LD_W_REG : Z := BPF_LDX .| BPF_MEM .| BPF_W.
Definition LD_DW_REG : Z := BPF_LDX .| BPF_MEM .| BPF_DW.
Definition ST_B_IMM : Z := BPF_ST .| BPF_MEM .| BPF_B.
Definition ST_H_IMM : Z := BPF_ST .| BPF_MEM .| BPF_H.
Definition ST_W_IMM : Z := BPF_ST .| BPF_MEM .| BPF_W.
Definition ST_DW_IMM : Z := BPF_ST .| BPF_MEM .| BPF_DW.
Definition ST_B_REG : Z := BPF_STX .| BPF_MEM .| BPF_B.
Definition ST_H_REG : Z := BPF_STX .| BPF_MEM .| BPF_H.
Definition ST_W_REG : Z := BPF_STX .| BPF_MEM .| BPF_W.
Definition ST_DW_REG : Z := BPF_STX .| BPF_MEM .| BPF_DW.
Definition LD_1B_REG : Z := BPF_ALU32_LOAD .| BPF_X .| BPF_1B.
Definition LD_2B_REG : Z := BPF_ALU32_LOAD .| BPF_X .| BPF_2B.
Definition LD_4B_REG : Z := BPF_ALU32_LOAD .| BPF_X .| BPF_4B.
Definition LD_8B_REG : Z := BPF_ALU32_LOAD .| BPF_X .| BPF_8B.
Definition ST_1B_IMM : Z := BPF_ALU64_STORE .| BPF_K .| BPF_1B.
Definition ST_2B_IMM : Z := BPF_ALU64_STORE .| BPF_K .| BPF_2B.
Definition ST_4B_IMM : Z := BPF_ALU64_STORE .| BPF_K .| BPF_4B.
Definition ST_8B_IMM : Z := BPF_ALU64_STORE .| BPF_K .| BPF_8B.
Definition ST_1B_REG : Z := BPF_ALU64_STORE .| BPF_X .| BPF_1B.
Definition ST_2B_REG : Z := BPF_ALU64_STORE .| BPF_X .| BPF_2B.
Definition ST_4B_REG : Z := BPF_ALU64_STORE .| BPF_X .| BPF_4B.
Definition ST_8B_REG : Z := BPF_ALU64_STORE .| BPF_X .| BPF_8B.
Definition ADD32_IMM : Z := BPF_ALU32_LOAD .| BPF_K .| BPF_ADD.
Definition ADD32_REG : Z := BPF_ALU32_LOAD .| BPF_X .| BPF_ADD.
Definition SUB32_IMM : Z := BPF_ALU32_LOAD .| BPF_K .| BPF_SUB.
Definition SUB32_REG : Z := BPF_ALU32_LOAD .| BPF_X .| BPF_SUB.
Definition MUL32_IMM : Z := BPF_ALU32_LOAD .| BPF_K .| BPF_MUL.
Definition MUL32_REG : Z := BPF_ALU32_LOAD .| BPF_X .| BPF_MUL.
Definition DIV32_IMM : Z := BPF_ALU32_LOAD .| BPF_K .| BPF_DIV.
Definition DIV32_REG : Z := BPF_ALU32_LOAD .| BPF_X .| BPF_DIV.
Definition OR32_IMM : Z := BPF_ALU32_LOAD .| BPF_K .| BPF_OR.
Definition OR32_REG : Z := BPF_ALU32_LOAD .| BPF_X .| BPF_OR.
Definition AND32_IMM : Z := BPF_ALU32_LOAD .| BPF_K .| BPF_AND.
Definition AND32_REG : Z := BPF_ALU32_LOAD .| BPF_X .| BPF_AND.
Definition LSH32_IMM : Z := BPF_ALU32_LOAD .| BPF_K .| BPF_LSH.
Definition LSH32_REG : Z := BPF_ALU32_LOAD .| BPF_X .| BPF_LSH.
Definition RSH32_IMM : Z := BPF_ALU32_LOAD .| BPF_K .| BPF_RSH.
Definition RSH32_REG : Z := BPF_ALU32_LOAD .| BPF_X .| BPF_RSH.
Definition NEG32 : Z := BPF_ALU32_LOAD .| BPF_NEG.
Definition MOD32_IMM : Z := BPF_ALU32_LOAD .| BPF_K .| BPF_MOD.
Definition MOD32_REG : Z := BPF_ALU32_LOAD .| BPF_X .| BPF_MOD.
Definition XOR32_IMM : Z := BPF_ALU32_LOAD .| BPF_K .| BPF_XOR.
Definition XOR32_REG : Z := BPF_ALU32_LOAD .| BPF_X .| BPF_XOR.
Definition MOV32_IMM : Z := BPF_ALU32_LOAD .| BPF_K .| BPF_MOV.
Definition MOV32_REG : Z := BPF_ALU32_LOAD .| BPF_X .| BPF_MOV.
Definition ARSH32_IMM : Z := BPF_ALU32_LOAD .| BPF_K .| BPF_ARSH.
Definition ARSH32_REG : Z := BPF_ALU32_LOAD .| BPF_X .| BPF_ARSH.
Definition LMUL32_IMM : Z := BPF_PQR .| BPF_K .| BPF_LMUL.
Definition LMUL32_REG : Z := BPF_PQR .| BPF_X .| BPF_LMUL.
Definition UDIV32_IMM : Z := BPF_PQR .| BPF_K .| BPF_UDIV.
Definition UDIV32_REG : Z := BPF_PQR .| BPF_X .| BPF_UDIV.
Definition UREM32_IMM : Z := BPF_PQR .| BPF_K .| BPF_UREM.
Definition UREM32_REG : Z := BPF_PQR .| BPF_X .| BPF_UREM.
Definition SDIV32_IMM : Z := BPF_PQR .| BPF_K .| BPF_SDIV.
Definition SDIV32_REG : Z := BPF_PQR .| BPF_X .| BPF_SDIV.
Definition SREM32_IMM : Z := BPF_PQR .| BPF_K .| BPF_SREM.
Definition SREM32_REG : Z := BPF_PQR .| BPF_X .| BPF_SREM.
Definition LE : Z := BPF_ALU32_LOAD .| BPF_K .| BPF_END.
Definition BE : Z := BPF_ALU32_LOAD .| BPF_X .| BPF_END.
Definition ADD64_IMM : Z := BPF_ALU64_STORE .| BPF_K .| BPF_ADD.
Definition ADD64_REG : Z := BPF_ALU64_STORE .| BPF_X .| BPF_ADD.
Definition SUB64_IMM : Z := BPF_ALU64_STORE .| BPF_K .| BPF_SUB.
Definition SUB64_REG : Z := BPF_ALU64_STORE .| BPF_X .| BPF_SUB.
Definition MUL64_IMM : Z := BPF_ALU64_STORE .| BPF_K .| BPF_MUL.
Definition MUL64_REG : Z := BPF_ALU64_STORE .| BPF_X .| BPF_MUL.
Definition DIV64_IMM : Z := BPF_ALU64_STORE .| BPF_K .| BPF_DIV.
Definition DIV64_REG : Z := BPF_ALU64_STORE .| BPF_X .| BPF_DIV.
Definition OR64_IMM : Z := BPF_ALU64_STORE .| BPF_K .| BPF_OR.
Definition OR64_REG : Z := BPF_ALU64_STORE .| BPF_X .| BPF_OR.
Definition AND64_IMM : Z := BPF_ALU64_STORE .| BPF_K .| BPF_AND.
Definition AND64_REG : Z := BPF_ALU64_STORE .| BPF_X .| BPF_AND.
Definition LSH64_IMM : Z := BPF_ALU64_STORE .| BPF_K .| BPF_LSH.
Definition LSH64_REG : Z := BPF_ALU64_STORE .| BPF_X .| BPF_LSH.
Definition RSH64_IMM : Z := BPF_ALU64_STORE .| BPF_K .| BPF_RSH.
Definition RSH64_REG : Z := BPF_ALU64_STORE .| BPF_X .| BPF_RSH.
Definition NEG64 : Z := BPF_ALU64_STORE .| BPF_NEG.
Definition MOD64_IMM : Z := BPF_ALU64_STORE .| BPF_K .| BPF_MOD.
Definition MOD64_REG : Z := BPF_ALU64_STORE .| BPF_X .| BPF_MOD.
Definition XOR64_IMM : Z := BPF_ALU64_STORE .| BPF_K .| BPF_XOR.
Definition XOR64_REG : Z := BPF_ALU64_STORE .| BPF_X .| BPF_XOR.
Definition MOV64_IMM : Z := BPF_ALU64_STORE .| BPF_K .| BPF_MOV.
Definition MOV64_REG : Z := BPF_ALU64_STORE .| BPF_X .| BPF_MOV.
Definition ARSH64_IMM : Z := BPF_ALU64_STORE .| BPF_K .| BPF_ARSH.
Definition ARSH64_REG : Z := BPF_ALU64_STORE .| BPF_X .| BPF_ARSH.
Definition HOR64_IMM : Z := BPF_ALU64_STORE .| BPF_K .| BPF_HOR.
Definition LMUL64_IMM : Z := BPF_PQR .| BPF_B .| BPF_K .| BPF_LMUL.
Definition LMUL64_REG : Z := BPF_PQR .| BPF_B .| BPF_X .| BPF_LMUL.
Definition UHMUL64_IMM : Z := BPF_PQR .| BPF_B .| BPF_K .| BPF_UHMUL.
Definition UHMUL64_REG : Z := BPF_PQR .| BPF_B .| BPF_X .| BPF_UHMUL.
Definition UDIV64_IMM : Z := BPF_PQR .| BPF_B .| BPF_K .| BPF_UDIV.
Definition UDIV64_REG : Z := BPF_PQR .| BPF_B .| BPF_X .| BPF_UDIV.
Definition UREM64_IMM : Z := BPF_PQR .| BPF_B .| BPF_K .| BPF_UREM.
Definition UREM64_REG : Z := BPF_PQR .| BPF_B .| BPF_X .| BPF_UREM.
Definition SHMUL64_IMM : Z := BPF_PQR .| BPF_B .| BPF_K .| BPF_SHMUL.
Definition SHMUL64_REG : Z := BPF_PQR .| BPF_B .| BPF_X .| BPF_SHMUL.
Definition SDIV64_IMM : Z := BPF_PQR .| BPF_B .| BPF_K .| BPF_SDIV.
Definition SDIV64_REG : Z := BPF_PQR .| BPF_B .| BPF_X .| BPF_SDIV.
Definition SREM64_IMM : Z := BPF_PQR .| BPF_B .| BPF_K .| BPF_SREM.
Definition SREM64_REG : Z := BPF_PQR .| BPF_B .| BPF_X .| BPF_SREM.
Definition JEQ32_IMM : Z := BPF_JMP32 .| BPF_K .| BPF_JEQ.
Definition JEQ32_REG : Z := BPF_JMP32 .| BPF_X .| BPF_JEQ.
Definition JGT32_IMM : Z := BPF_JMP32 .| BPF_K .| BPF_JGT.
Definition JGT32_REG : Z := BPF_JMP32 .| BPF_X .| BPF_JGT.
Definition JGE32_IMM : Z := BPF_JMP32 .| BPF_K .| BPF_JGE.
Definition JGE32_REG : Z := BPF_JMP32 .| BPF_X .| BPF_JGE.
Definition JLT32_IMM : Z := BPF_JMP32 .| BPF_K .| BPF_JLT.
Definition JLT32_REG : Z := BPF_JMP32 .| BPF_X .| BPF_JLT.
Definition JLE32_IMM : Z := BPF_JMP32 .| BPF_K .| BPF_JLE.
Definition JLE32_REG : Z := BPF_JMP32 .| BPF_X .| BPF_JLE.
Definition JSET32_IMM : Z := BPF_JMP32 .| BPF_K .| BPF_JSET.
Definition JSET32_REG : Z := BPF_JMP32 .| BPF_X .| BPF_JSET.
Definition JNE32_IMM : Z := BPF_JMP32 .| BPF_K .| BPF_JNE.
Definition JNE32_REG : Z := BPF_JMP32 .| BPF_X .| BPF_JNE.
Definition JSGT32_IMM : Z := BPF_JMP32 .| BPF_K .| BPF_JSGT.
Definition JSGT32_REG : Z := BPF_JMP32 .| BPF_X .| BPF_JSGT.
Definition JSGE32_IMM : Z := BPF_JMP32 .| BPF_K .| BPF_JSGE.
Definition JSGE32_REG : Z := BPF_JMP32 .| BPF_X .| BPF_JSGE.
Definition JSLT32_IMM : Z := BPF_JMP32 .| BPF_K .| BPF_JSLT.
Definition JSLT32_REG : Z := BPF_JMP32 .| BPF_X .| BPF_JSLT.
Definition JSLE32_IMM : Z := BPF_JMP32 .| BPF_K .| BPF_JSLE.
Definition JSLE32_REG : Z := BPF_JMP32 .| BPF_X .| BPF_JSLE.
Definition JA : Z := BPF_JMP64 .| BPF_JA.
Definition JEQ64_IMM : Z := BPF_JMP64 .| BPF_K .| BPF_JEQ.
Definition JEQ64_REG : Z := BPF_JMP64 .| BPF_X .| BPF_JEQ.
Definition JGT64_IMM : Z := BPF_JMP64 .| BPF_K .| BPF_JGT.
Definition JGT64_REG : Z := BPF_JMP64 .| BPF_X .| BPF_JGT.
Definition JGE64_IMM : Z := BPF_JMP64 .| BPF_K .| BPF_JGE.
Definition JGE64_REG : Z := BPF_JMP64 .| BPF_X .| BPF_JGE.
Definition JLT64_IMM : Z := BPF_JMP64 .| BPF_K .| BPF_JLT.
Definition JLT64_REG : Z := BPF_JMP64 .| BPF_X .| BPF_JLT.
Definition JLE64_IMM : Z := BPF_JMP64 .| BPF_K .| BPF_JLE.
Definition JLE64_REG : Z := BPF_JMP64 .| BPF_X .| BPF_JLE.
Definition JSET64_IMM : Z := BPF_JMP64 .| BPF_K .| BPF_JSET.
Definition JSET64_REG : Z := BPF_JMP64 .| BPF_X .| BPF_JSET.
Definition JNE64_IMM : Z := BPF_JMP64 .| BPF_K .| BPF_JNE.
Definition JNE64_REG : Z := BPF_JMP64 .| BPF_X .| BPF_JNE.
Definition JSGT64_IMM : Z := BPF_JMP64 .| BPF_K .| BPF_JSGT.
Definition JSGT64_REG : Z := BPF_JMP64 .| BPF_X .| BPF_JSGT.
Definition JSGE64_IMM : Z := BPF_JMP64 .| BPF_K .| BPF_JSGE.
Definition JSGE64_REG : Z := BPF_JMP64 .| BPF_X .| BPF_JSGE.
Definition JSLT64_IMM : Z := BPF_JMP64 .| BPF_K .| BPF_JSLT.
Definition JSLT64_REG : Z := BPF_JMP64 .| BPF_X .| BPF_JSLT.
Definition JSLE64_IMM : Z := BPF_JMP64 .| BPF_K .| BPF_JSLE.
Definition JSLE64_REG : Z := BPF_JMP64 .| BPF_X .| BPF_JSLE.
Definition CALL_IMM : Z := BPF_JMP64 .| BPF_CALL.
Definition CALL_REG : Z := BPF_JMP64 .| BPF_X .| BPF_CALL.
Definition EXIT : Z := BPF_JMP64 .| BPF_EXIT.
Definition BPF_CLS_MASK : Z := 0x07.
Definition BPF_ALU_OP_MASK : Z := 0xf0.

(** ** Instructions *)

Record Insn := mkInsn {
  ptr : Z;
  opc : Z;
  dst : Z;
  src : Z;
  off : Z;
  imm : Z
}.

Definition to_array (i : Insn) : list Z :=
  [ opc i;
    wrapping_shl 8 (src i) 4 .| dst i;
    as_u8 (Z.land (off i) 0xff);
    as_u8 (wrapping_shr 16 (off i) 8);
    as_u8 (Z.land (imm i) 0xff);
    as_u8 (wrapping_shr 64 (Z.land (imm i) 0xff00) 8);
    as_u8 (wrapping_shr 32 (Z.land (as_u32 (imm i)) 0xff0000) 16);
    as_u8 (wrapping_shr 32 (Z.land (as_u32 (imm i)) 0xff000000) 24) ].

Definition to_vec (i : Insn) : list Z := to_array i.

Definition is_pc_in_program (prog : list Z) (pc : Z) : bool :=
  saturating_mul (saturating_add pc 1) INSN_SIZE <=? len prog.

Definition get_insn_unchecked (prog : list Z) (pc : Z) : option Insn :=
  let base := wrapping_mul INSN_SIZE pc in
  let! b0 := prog !! Z.to_nat base in
  let! b1 := prog !! Z.to_nat (wrapping_add base 1) in
  let! o := read_le 2 prog (wrapping_add base 2) in
  let! i := read_le 4 prog (wrapping_add base 4) in
  Some {| ptr := pc;
          opc := b0;
          dst := Z.land b1 0x0f;
          src := Z.shiftr (Z.land b1 0xf0) 4;
          off := as_i16 o;
          imm := as_i32 i |}.

(** The [debug_assert!] of [get_insn] is a panic, and so is the out-of-bounds
    indexing of [get_insn_unchecked]. *)
Definition get_insn (prog : list Z) (pc : Z) : option Insn :=
  if is_pc_in_program prog pc then get_insn_unchecked prog pc else None.

Definition augment_lddw_unchecked (prog : list Z) (insn : Insn) : option Insn :=
  let! more_significant_half :=
    read_le 4 prog (wrapping_add (wrapping_mul (wrapping_add (ptr insn) 1) INSN_SIZE) 4) in
  Some {| ptr := ptr insn; opc := opc insn; dst := dst insn; src := src insn; off := off insn;
          imm := as_i64 (Z.land (as_u64 (imm insn)) 0xffffffff
                         .| as_u64 (Z.shiftl (as_u64 (as_i32 more_significant_half)) 32)) |}.

(** ** Encoding and decoding *)

(** Field ranges of an instruction that fits its encoding. *)
Definition encodable (i : Insn) : Prop :=
  is_u8 (opc i) /\ is_u 4 (dst i) /\ is_u 4 (src i) /\ is_s 16 (off i) /\ is_i32 (imm i).

Lemma regs_byte d r :
  is_u 4 d -> is_u 4 r -> wrapping_shl 8 r 4 .| d = 16 * r + d.
Proof.
  intros Hd Hr. apply Z.eqb_eq.
  apply (forall_u 4 (fun d => wrapping_shl 8 r 4 .| d =? 16 * r + d)); [|done].
  apply (forall_u 4 (fun r => forallb (fun d => wrapping_shl 8 r 4 .| d =? 16 * r + d) _));
    [by vm_compute | done].
Qed.

Lemma byte_regs b :
  is_u8 b -> b = 16 * Z.shiftr (Z.land b 0xf0) 4 + Z.land b 0x0f /\
             is_u 4 (Z.land b 0x0f) /\ is_u 4 (Z.shiftr (Z.land b 0xf0) 4).
Proof.
  intros Hb. pose (ok b := (b =? 16 * Z.shiftr (Z.land b 0xf0) 4 + Z.land b 0x0f)
    && (0 <=? Z.land b 0x0f) && (Z.land b 0x0f <? 16)
    && (0 <=? Z.shiftr (Z.land b 0xf0) 4) && (Z.shiftr (Z.land b 0xf0) 4 <? 16)).
  assert (ok b = true) as H by (apply (forall_u 8 ok); [by vm_compute | done]).
  unfold ok in H. bool_to_prop. unfold is_u. lia.
Qed.

Lemma regs_of_byte d r :
  is_u 4 d -> is_u 4 r ->
  Z.land (16 * r + d) 0x0f = d /\ Z.shiftr (Z.land (16 * r + d) 0xf0) 4 = r.
Proof.
  intros Hd Hr. assert (is_u8 (16 * r + d)) as Hb by int_lia.
  destruct (byte_regs _ Hb) as (E & H1 & H2). unfold is_u in *. lia.
Qed.

(** The byte sequence [to_array] produces, as little-endian fields. *)
Lemma to_array_fields i :
  encodable i ->
  to_array i = [opc i; 16 * src i + dst i] ++ le_split 2 (off i) ++ le_split 4 (imm i).
Proof.
  intros (Ho & Hd & Hs & Hof & Hi). unfold to_array. rewrite regs_byte by done.
  unfold wrapping_shr. cbn [le_split app].
  change 0xff with (Z.ones 8). rewrite !land_ones_mod by lia.
  change (8 mod 16) with 8. change (8 mod 64) with 8.
  change (16 mod 32) with 16. change (24 mod 32) with 24.
  rewrite !Z.shiftr_land. change (Z.shiftr 0xff00 8) with (Z.ones 8).
  change (Z.shiftr 0xff0000 16) with (Z.ones 8).
  change (Z.shiftr 0xff000000 24) with (Z.ones 8).
  rewrite !land_ones_mod, !Z.shiftr_div_pow2 by lia.
  repeat f_equal; int_lia.
Qed.

Lemma to_array_length i : length (to_array i) = 8%nat.
Proof. done. Qed.

Lemma is_pc_in_program_iff prog pc :
  0 <= pc -> rust_len prog ->
  is_pc_in_program prog pc = true <-> INSN_SIZE * pc + INSN_SIZE <= len prog.
Proof.
  intros Hpc Hl. unfold is_pc_in_program, INSN_SIZE. rewrite Z.leb_le.
  unfold rust_len in Hl. int_lia.
Qed.

(** Decoding at an instruction boundary reads the eight bytes there. *)
Lemma get_insn_unchecked_at l1 b0 b1 o4 l2 pc :
  0 <= pc -> len l1 = INSN_SIZE * pc -> length o4 = 6%nat ->
  rust_len (l1 ++ [b0; b1] ++ o4 ++ l2) ->
  get_insn_unchecked (l1 ++ [b0; b1] ++ o4 ++ l2) pc =
  Some {| ptr := pc; opc := b0; dst := Z.land b1 0x0f; src := Z.shiftr (Z.land b1 0xf0) 4;
          off := as_i16 (le_combine (take 2 o4));
          imm := as_i32 (le_combine (drop 2 o4)) |}.
Proof.
  intros Hpc Hl Ho Hlen. unfold rust_len in Hlen. rewrite !len_app in Hlen. unfold INSN_SIZE in *.
  pose proof (len_nonneg l1). pose proof (len_nonneg l2). pose proof (len_nonneg o4).
  change (len [b0; b1]) with 2 in Hlen.
  assert (len o4 = 6) as Hlo by (unfold len; lia).
  assert (len (take 2 o4) = 2) as Ht by (unfold len; rewrite length_take; lia).
  unfold get_insn_unchecked, INSN_SIZE.
  assert (wrapping_mul 8 pc = len l1) as -> by int_lia.
  assert (forall k, 0 <= k <= 4 -> wrapping_add (len l1) k = len l1 + k) as E by int_lia.
  rewrite !E by lia.
  rewrite lookup_app_r by (unfold len; lia).
  replace (Z.to_nat (len l1) - length l1)%nat with 0%nat by (unfold len; lia). cbn.
  rewrite lookup_app_r by (unfold len; lia).
  replace (Z.to_nat (len l1 + 1) - length l1)%nat with 1%nat by (unfold len; lia). cbn.
  replace (l1 ++ b0 :: b1 :: o4 ++ l2)
    with ((l1 ++ [b0; b1]) ++ take 2 o4 ++ (drop 2 o4 ++ l2))
    by (rewrite (app_assoc (take 2 o4)), take_drop, <- app_assoc; done).
  replace (len l1 + 2) with (len (l1 ++ [b0; b1])) by (rewrite len_app; done).
  rewrite read_le_app by (rewrite length_take; lia).
  rewrite app_assoc.
  replace (len l1 + 4) with (len ((l1 ++ [b0; b1]) ++ take 2 o4))
    by (rewrite !len_app, Ht; change (len [b0; b1]) with 2; lia).
  rewrite read_le_app by (rewrite length_drop; lia). done.
Qed.

Lemma get_insn_at l1 bs l2 pc :
  0 <= pc -> len l1 = INSN_SIZE * pc -> length bs = 8%nat -> rust_len (l1 ++ bs ++ l2) ->
  get_insn (l1 ++ bs ++ l2) pc = get_insn_unchecked (l1 ++ bs ++ l2) pc.
Proof.
  intros Hpc Hl Hb Hlen. unfold get_insn.
  assert (is_pc_in_program (l1 ++ bs ++ l2) pc = true) as ->; [|done].
  apply is_pc_in_program_iff; [done..|].
  rewrite !len_app. pose proof (len_nonneg l2).
  assert (len bs = 8) by (unfold len; lia). unfold INSN_SIZE in *. lia.
Qed.

Lemma get_insn_to_array_at l1 i l2 pc :
  encodable i -> 0 <= pc -> len l1 = INSN_SIZE * pc ->
  rust_len (l1 ++ to_array i ++ l2) ->
  get_insn (l1 ++ to_array i ++ l2) pc =
  Some {| ptr := pc; opc := opc i; dst := dst i; src := src i; off := off i; imm := imm i |}.
Proof.
  intros Hi Hpc Hl Hlen. rewrite get_insn_at by done.
  destruct (Hi) as (Ho & Hd & Hs & Hof & Him).
  rewrite to_array_fields in Hlen |- * by done. rewrite <- !app_assoc in *.
  rewrite (app_assoc (le_split 2 _)) in Hlen |- *.
  rewrite get_insn_unchecked_at by done.
  destruct (regs_of_byte _ _ Hd Hs) as [-> ->].
  rewrite take_app_length', drop_app_length' by (by rewrite le_split_length).
  rewrite !le_combine_split. change (256 ^ Z.of_nat 2) with (2 ^ 16).
  change (256 ^ Z.of_nat 4) with (2 ^ 32).
  fold (cast_u 16 (off i)). fold (cast_u 32 (imm i)).
  by rewrite !cast_s_u, !cast_s_id by (lia || done).
Qed.

Lemma program_split insns k i :
  insns !! k = Some i ->
  exists l1 l2, concat (map to_array insns) = l1 ++ to_array i ++ l2 /\
    len l1 = INSN_SIZE * Z.of_nat k.
Proof.
  intros Hk. exists (concat (map to_array (take k insns))), (concat (map to_array (drop (S k) insns))).
  split.
  - rewrite <- (take_drop_middle insns k i Hk) at 1. by rewrite map_app, concat_app.
  - assert (length (take k insns) = k) as Hk'.
    { apply length_take_le. apply lookup_lt_Some in Hk. lia. }
    rewrite <- Hk' at 2. unfold len. clear. induction (take k insns) as [|x l IH]; [done|].
    cbn [map concat length]. rewrite length_app, to_array_length, Nat2Z.inj_add, IH.
    unfold INSN_SIZE. lia.
Qed.

(** Encode-decode round trip for whole programs: the instruction at index
    [k] of a program assembled with [to_array] decodes to the [k]-th
    instruction, with [ptr] set to [k]. *)
Theorem get_insn_to_array (insns : list Insn) (k : nat) (i : Insn) :
  Forall encodable insns -> rust_len (concat (map to_array insns)) ->
  insns !! k = Some i ->
  get_insn (concat (map to_array insns)) (Z.of_nat k) =
  Some {| ptr := Z.of_nat k; opc := opc i; dst := dst i; src := src i;
          off := off i; imm := imm i |}.
Proof.
  intros Hall Hlen Hk. destruct (program_split _ _ _ Hk) as (l1 & l2 & E & El).
  rewrite E in *. apply get_insn_to_array_at; [|lia|done|done].
  by eapply Forall_lookup_1.
Qed.

Lemma decode_encode prog pc i :
  bytes prog -> rust_len prog -> 0 <= pc -> get_insn prog pc = Some i ->
  encodable i /\ ptr i = pc /\ to_array i = slice prog (INSN_SIZE * pc) (INSN_SIZE * pc + INSN_SIZE).
Proof.
  intros Hb Hlen Hpc. unfold get_insn.
  destruct (is_pc_in_program prog pc) eqn:E; [|done].
  apply is_pc_in_program_iff in E; [|done..]. unfold INSN_SIZE in *.
  set (k := Z.to_nat (8 * pc)).
  assert (exists b0 b1 o4, take 8 (drop k prog) = [b0; b1] ++ o4 /\ length o4 = 6%nat)
    as (b0 & b1 & o4 & E8 & Ho).
  { assert (length (take 8 (drop k prog)) = 8%nat) as H8.
    { rewrite length_take, length_drop. unfold len in *. lia. }
    destruct (take 8 (drop k prog)) as [|b0 [|b1 o4]]; try done.
    exists b0, b1, o4. split; [done|]. cbn in H8. lia. }
  assert (prog = take k prog ++ [b0; b1] ++ o4 ++ drop 8 (drop k prog)) as Ep.
  { rewrite (app_assoc [b0; b1]), <- E8, take_drop, take_drop. done. }
  assert (bytes ([b0; b1] ++ o4)) as Hb8 by (rewrite <- E8; auto with gobble).
  apply bytes_app in Hb8 as [Hb01 Hbo]. inversion_clear Hb01 as [|? ? Hb0 Hb1'].
  inversion_clear Hb1' as [|? ? Hb1 _].
  intros Hg. rewrite Ep in Hg. rewrite get_insn_unchecked_at in Hg; [|done| |done|by rewrite <- Ep].
  2:{ unfold len, INSN_SIZE in *. rewrite length_take. lia. }
  injection Hg as <-. destruct (byte_regs _ Hb1) as (Er & Hd & Hs).
  assert (encodable {| ptr := pc; opc := b0; dst := Z.land b1 0x0f;
    src := Z.shiftr (Z.land b1 0xf0) 4; off := as_i16 (le_combine (take 2 o4));
    imm := as_i32 (le_combine (drop 2 o4)) |}) as He.
  { repeat split; cbn; try apply Hb0; try apply Hd; try apply Hs; apply cast_s_range; lia. }
  split; [done|]. split; [done|]. rewrite to_array_fields by done. cbn [opc src dst off imm].
  rewrite <- Er. unfold slice. replace (8 * pc + 8 - 8 * pc) with 8 by lia.
  fold k. change (Z.to_nat 8) with 8%nat. rewrite E8. f_equal.
  rewrite <- (take_drop 2 o4) at 3. f_equal.
  - rewrite <- (le_split_combine (take 2 o4)) at 2 by auto with gobble.
    rewrite length_take, Ho. apply le_split_signed; lia.
  - rewrite <- (le_split_combine (drop 2 o4)) at 2 by auto with gobble.
    rewrite length_drop, Ho. apply le_split_signed; lia.
Qed.

Lemma decode_encodable prog pc i :
  bytes prog -> rust_len prog -> 0 <= pc -> get_insn prog pc = Some i -> encodable i /\ ptr i = pc.
Proof. intros H1 H2 H3 H4. by destruct (decode_encode prog pc i H1 H2 H3 H4) as (? & ? & _). Qed.

(** Decode-encode round trip: an instruction decoded anywhere in a program
    of bytes is encodable, and [to_array] gives back the eight bytes it was
    decoded from. *)
Theorem to_array_get_insn (prog : list Z) (pc : Z) (i : Insn) :
  bytes prog -> rust_len prog -> 0 <= pc -> get_insn prog pc = Some i ->
  encodable i /\ ptr i = pc /\ to_array i = slice prog (INSN_SIZE * pc) (INSN_SIZE * pc + INSN_SIZE).
Proof. apply decode_encode. Qed.

(** The two immediates of a wide load, recombined as the code does. *)
Lemma lddw_halves v :
  is_i64 v ->
  as_i64 (as_u64 (as_i32 v) mod 2 ^ 32
          .| as_u64 (Z.shiftl (as_u64 (as_i32 (as_i32 (Z.shiftr v 32) mod 2 ^ 32))) 32)) = v.
Proof.
  intros Hv. rewrite Z.shiftl_mul_pow2, Z.shiftr_div_pow2 by lia.
  assert (as_u64 (as_i32 v) mod 2 ^ 32 = v mod 2 ^ 32) as -> by (unfold_int; int_lia).
  assert (as_u64 (as_u64 (as_i32 (as_i32 (v / 2 ^ 32) mod 2 ^ 32)) * 2 ^ 32)
          = Z.shiftl ((v / 2 ^ 32) mod 2 ^ 32) 32) as ->.
  { rewrite Z.shiftl_mul_pow2 by lia. int_lia. }
  rewrite lor_disjoint by (try apply Z.mod_pos_bound; lia). int_lia.
Qed.

(** The wide immediate load: when slot [k] holds the low half of a 64-bit
    value in its immediate and the next slot holds the high half in its own,
    [augment_lddw_unchecked] reassembles the value. *)
Theorem augment_lddw_value (insns : list Insn) (k : nat) (lo hi : Insn) (v : Z) :
  Forall encodable insns -> rust_len (concat (map to_array insns)) ->
  insns !! k = Some lo -> insns !! S k = Some hi -> is_i64 v ->
  imm lo = as_i32 v -> imm hi = as_i32 (Z.shiftr v 32) ->
  exists i i',
    get_insn (concat (map to_array insns)) (Z.of_nat k) = Some i /\
    augment_lddw_unchecked (concat (map to_array insns)) i = Some i' /\
    imm i' = v /\ opc i' = opc lo /\ dst i' = dst lo.
Proof.
  intros Hall Hlen Hk Hk' Hv Elo Ehi.
  destruct (program_split _ _ _ Hk) as (l1 & l2 & E & El).
  destruct (program_split _ _ _ Hk') as (m1 & m2 & Em & Eml).
  eexists. eexists. split; [|split].
  { rewrite E in *. apply get_insn_to_array_at; [by eapply Forall_lookup_1|lia|done|done]. }
  { unfold augment_lddw_unchecked. cbn [ptr]. rewrite Em in *.
    rewrite to_array_fields in Hlen |- * by (by eapply Forall_lookup_1).
    unfold rust_len in Hlen. rewrite !len_app in Hlen. unfold INSN_SIZE in *.
    pose proof (len_nonneg m2). pose proof (len_nonneg (le_split 2 (off hi))).
    pose proof (len_nonneg (le_split 4 (imm hi))).
    replace (wrapping_add (wrapping_mul (wrapping_add (Z.of_nat k) 1) 8) 4)
      with (len (m1 ++ [opc hi; 16 * src hi + dst hi] ++ le_split 2 (off hi))).
    2:{ rewrite !len_app, Eml. unfold len. rewrite le_split_length. cbn [length].
        unfold len in *. cbn [length] in Hlen. int_lia. }
    replace (m1 ++ ([opc hi; 16 * src hi + dst hi] ++ le_split 2 (off hi) ++ le_split 4 (imm hi)) ++ m2)
      with ((m1 ++ [opc hi; 16 * src hi + dst hi] ++ le_split 2 (off hi)) ++ le_split 4 (imm hi) ++ m2)
      by (by rewrite <- !app_assoc).
    rewrite read_le_app by apply le_split_length. done. }
  split; [|done]. cbn [imm]. rewrite Elo, Ehi, le_combine_split.
  change (256 ^ Z.of_nat 4) with (2 ^ 32). change 0xffffffff with (Z.ones 32).
  rewrite land_ones_mod by lia. apply (lddw_halves v Hv).
Qed.

(** ** Examples *)

(** A program with arithmetic, a wide load, a forward jump, a store to the
    stack and an exit. *)
Definition example_insns : list Insn :=
  [ mkInsn 0 MOV64_IMM 1 0 0 7;
    mkInsn 0 DIV64_IMM 1 0 0 2;
    mkInsn 0 LD_DW_IMM 2 0 0 (as_i32 0x123456789abcdef0);
    mkInsn 0 0 0 0 0 0x12345678;
    mkInsn 0 JEQ64_IMM 1 0 1 3;
    mkInsn 0 ADD64_REG 1 2 0 0;
    mkInsn 0 ST_DW_REG 10 1 (-8) 0;
    mkInsn 0 EXIT 0 0 0 0 ].

Definition example_program : list Z := concat (map to_array example_insns).

Lemma example_encodable : Forall encodable example_insns.
Proof. repeat constructor; vm_compute; (reflexivity || discriminate). Qed.

Lemma get_insn_to_array_witness :
  get_insn example_program 4 = Some (mkInsn 4 JEQ64_IMM 1 0 1 3).
Proof.
  exact (get_insn_to_array example_insns 4 (mkInsn 0 JEQ64_IMM 1 0 1 3) example_encodable
    ltac:(by vm_compute) ltac:(reflexivity)).
Defined.

Lemma to_array_get_insn_witness :
  encodable (mkInsn 6 ST_DW_REG 10 1 (-8) 0) /\
  to_array (mkInsn 6 ST_DW_REG 10 1 (-8) 0) = slice example_program 48 56.
Proof.
  destruct (to_array_get_insn example_program 6 (mkInsn 6 ST_DW_REG 10 1 (-8) 0)
    ltac:(vm_compute; repeat constructor; discriminate) ltac:(by vm_compute)
    ltac:(lia) ltac:(by vm_compute)) as (H1 & _ & H2).
  split; [exact H1|exact H2].
Defined.

Lemma augment_lddw_value_witness :
  exists i i', get_insn example_program 2 = Some i /\
    augment_lddw_unchecked example_program i = Some i' /\ imm i' = 0x123456789abcdef0.
Proof.
  destruct (augment_lddw_value example_insns 2
    (mkInsn 0 LD_DW_IMM 2 0 0 (as_i32 0x123456789abcdef0)) (mkInsn 0 0 0 0 0 0x12345678)
    0x123456789abcdef0 example_encodable ltac:(by vm_compute) ltac:(reflexivity) ltac:(reflexivity)
    ltac:(eval_int) ltac:(reflexivity) ltac:(reflexivity)) as (i & i' & H1 & H2 & H3 & _).
  exists i, i'. split; [exact H1|]. split; [exact H2|exact H3].
Defined.
