(* ===== verification/Tracker.v ===== *)
(** The memory access tracker that the gobble fork adds to the sBPF machine
    ([MemoryAccessTracker] of sbpf/src/memory_region.rs).

    The Rust type uses interior mutability ([RefCell], [Cell]); here every
    method is a function from the old to the new tracker. The theorems give the
    exact condition under which an access is recorded, the invariant that all
    methods keep, and that recording never forgets. *)

From Stdlib Require Import ZArith Lia Bool.
From S2P Require Import Prelude.

Record MemoryAccessTracker := mkTracker {
  watched_ranges : list Range;
  forbidden_accesses : list (Z * Z);
  enabled : bool
}.

Definition tracker_new : MemoryAccessTracker := mkTracker [] [] false.

Definition add_watched_range (t : MemoryAccessTracker) (range : Range) : MemoryAccessTracker :=
  if negb (range_is_empty range)
  then mkTracker (watched_ranges t ++ [range]) (forbidden_accesses t) true
  else t.

(** The loop of [add_watched_ranges] pushes the non-empty ranges in order; the
    tracker is enabled when the list is non-empty afterwards. *)
Definition add_watched_ranges (t : MemoryAccessTracker) (ranges : list Range) : MemoryAccessTracker :=
  let watched :=
    fold_left (fun watched range => if negb (range_is_empty range) then watched ++ [range] else watched)
      ranges (watched_ranges t) in
  mkTracker watched (forbidden_accesses t)
    (if negb (is_nil watched) then true else enabled t).

Definition overlaps (vm_addr read_end : Z) (watch_range : Range) : bool :=
  (vm_addr <? r_end watch_range) && (r_start watch_range <? read_end).

(** The loop stops at the first overlapping range after one push. *)
Fixpoint check_ranges (watched : list Range) (vm_addr read_end len : Z)
    (accesses : list (Z * Z)) : list (Z * Z) :=
  match watched with
  | [] => accesses
  | watch_range :: rest =>
      if overlaps vm_addr read_end watch_range
      then accesses ++ [(vm_addr, as_usize len)]
      else check_ranges rest vm_addr read_end len accesses
  end.

Definition check_access (t : MemoryAccessTracker) (vm_addr len : Z) : MemoryAccessTracker :=
  if negb (enabled t) then t
  else
    let read_end := saturating_add vm_addr len in
    mkTracker (watched_ranges t)
      (check_ranges (watched_ranges t) vm_addr read_end len (forbidden_accesses t))
      (enabled t).

Definition has_forbidden_accesses (t : MemoryAccessTracker) : bool :=
  negb (is_nil (forbidden_accesses t)).

Definition get_forbidden_accesses (t : MemoryAccessTracker) : list (Z * Z) := forbidden_accesses t.
Definition get_watched_ranges (t : MemoryAccessTracker) : list Range := watched_ranges t.

Definition reset (t : MemoryAccessTracker) : MemoryAccessTracker :=
  mkTracker (watched_ranges t) [] (enabled t).

Definition clear (t : MemoryAccessTracker) : MemoryAccessTracker := mkTracker [] [] false.

(** ** Specification *)

#[export] Instance Range_eq_dec : EqDecision Range.
Proof. solve_decision. Defined.

(** A read of [len] bytes at [vm_addr] touches a byte of one of the ranges. *)
Definition touches (ranges : list Range) (vm_addr len : Z) : Prop :=
  exists r b, r ∈ ranges /\ r_start r <= b < r_end r /\ vm_addr <= b < vm_addr + len.

(** What every method keeps: watched ranges are non-empty [u64] ranges, and the
    tracker is enabled exactly when it watches something. *)
Definition range_ok (r : Range) : Prop :=
  is_u64 (r_start r) /\ is_u64 (r_end r) /\ r_start r < r_end r.

Record tracker_ok (t : MemoryAccessTracker) : Prop := {
  tracker_ranges_ok : Forall range_ok (watched_ranges t);
  tracker_enabled_ok : enabled t = negb (is_nil (watched_ranges t))
}.

(** The test of [check_access], over all ranges. *)
Definition access_forbidden (ranges : list Range) (vm_addr len : Z) : bool :=
  existsb (overlaps vm_addr (saturating_add vm_addr len)) ranges.

Lemma check_ranges_spec watched vm_addr read_end len accesses :
  check_ranges watched vm_addr read_end len accesses =
  accesses ++ (if existsb (overlaps vm_addr read_end) watched
               then [(vm_addr, as_usize len)] else []).
Proof.
  induction watched as [|r watched IH]; cbn; [by rewrite app_nil_r|].
  destruct (overlaps vm_addr read_end r); [done|]. by rewrite IH.
Qed.

Lemma watched_ranges_check_access t a n :
  watched_ranges (check_access t a n) = watched_ranges t.
Proof. unfold check_access. by destruct (enabled t). Qed.

Lemma enabled_check_access t a n : enabled (check_access t a n) = enabled t.
Proof. unfold check_access. by destruct (enabled t) eqn:E. Qed.

Lemma forbidden_accesses_check_access t a n :
  tracker_ok t ->
  forbidden_accesses (check_access t a n) =
  forbidden_accesses t ++
  (if access_forbidden (watched_ranges t) a n then [(a, as_usize n)] else []).
Proof.
  intros [_ He]. unfold check_access, access_forbidden. rewrite He.
  destruct (watched_ranges t) as [|r rs] eqn:E; cbn [is_nil negb].
  - cbn. by rewrite app_nil_r.
  - apply check_ranges_spec.
Qed.

Lemma access_forbidden_touches ranges a n :
  Forall range_ok ranges -> is_u64 a -> is_u64 n -> 0 < n ->
  access_forbidden ranges a n = true <-> touches ranges a n.
Proof.
  intros Hr Ha Hn Hpos. unfold access_forbidden, touches. rewrite existsb_exists. split.
  - intros (r & Hin & Ho). unfold overlaps in Ho. bool_to_prop.
    apply list_elem_of_In in Hin. rewrite Forall_forall in Hr. destruct (Hr r Hin) as (? & ? & ?).
    exists r, (Z.max a (r_start r)). split; [done|]. int_lia.
  - intros (r & b & Hin & Hb & Hb'). exists r. split; [by apply list_elem_of_In|].
    rewrite Forall_forall in Hr. destruct (Hr r Hin) as (? & ? & ?).
    unfold overlaps. apply andb_true_iff. rewrite !Z.ltb_lt. int_lia.
Qed.

Lemma add_watched_fold ranges watched :
  fold_left (fun watched range => if negb (range_is_empty range) then watched ++ [range] else watched)
    ranges watched
  = watched ++ List.filter (fun r => negb (range_is_empty r)) ranges.
Proof.
  revert watched; induction ranges as [|r ranges IH]; intros watched; cbn; [by rewrite app_nil_r|].
  rewrite IH. destruct (negb (range_is_empty r)); cbn; [by rewrite <- app_assoc | done].
Qed.

Lemma watched_ranges_add t ranges :
  watched_ranges (add_watched_ranges t ranges) =
  watched_ranges t ++ List.filter (fun r => negb (range_is_empty r)) ranges.
Proof. unfold add_watched_ranges. cbn. apply add_watched_fold. Qed.

(** ** The tracker as a state machine *)

Inductive tracker_op :=
| OpAddRange (r : Range)
| OpAddRanges (rs : list Range)
| OpCheck (vm_addr len : Z)
| OpReset
| OpClear.

Definition tracker_step (t : MemoryAccessTracker) (op : tracker_op) : MemoryAccessTracker :=
  match op with
  | OpAddRange r => add_watched_range t r
  | OpAddRanges rs => add_watched_ranges t rs
  | OpCheck a n => check_access t a n
  | OpReset => reset t
  | OpClear => clear t
  end.

(** The arguments are values of their Rust types. *)
Definition u64_range (r : Range) : Prop := is_u64 (r_start r) /\ is_u64 (r_end r).
Definition op_ok (op : tracker_op) : Prop :=
  match op with
  | OpAddRange r => u64_range r
  | OpAddRanges rs => Forall u64_range rs
  | OpCheck a n => is_u64 a /\ is_u64 n
  | OpReset | OpClear => True
  end.

Lemma range_ok_nonempty r : u64_range r -> negb (range_is_empty r) = true -> range_ok r.
Proof.
  intros [Hs He] Hne. unfold range_is_empty in Hne. rewrite negb_involutive in Hne.
  bool_to_prop. done.
Qed.

Lemma tracker_ok_new : tracker_ok tracker_new.
Proof. split; [constructor | done]. Qed.

Lemma tracker_ok_check t a n : tracker_ok t -> tracker_ok (check_access t a n).
Proof.
  intros [H1 H2]. split; [by rewrite watched_ranges_check_access|].
  by rewrite enabled_check_access, watched_ranges_check_access.
Qed.

Lemma tracker_ok_add t ranges :
  Forall u64_range ranges -> tracker_ok t -> tracker_ok (add_watched_ranges t ranges).
Proof.
  intros Hr [H1 H2]. split; rewrite watched_ranges_add.
  - apply Forall_app. split; [done|]. apply Forall_forall. intros r Hin.
    apply list_elem_of_In, filter_In in Hin as [Hin Hne].
    rewrite Forall_forall in Hr. apply range_ok_nonempty; [|done].
    by apply Hr, list_elem_of_In.
  - unfold add_watched_ranges. cbn. rewrite add_watched_fold.
    destruct (watched_ranges t) as [|r rs]; cbn; [|done].
    by destruct (List.filter _ ranges).
Qed.

#[export] Hint Resolve tracker_ok_new tracker_ok_check tracker_ok_add : gobble.

Lemma tracker_step_ok t op : op_ok op -> tracker_ok t -> tracker_ok (tracker_step t op).
Proof.
  intros Hop Ht. destruct op as [r|rs|a n| |]; cbn in *; auto with gobble.
  - unfold add_watched_range. destruct (negb (range_is_empty r)) eqn:E; [|done].
    destruct Ht as [H1 H2]. split; cbn.
    + apply Forall_app. split; [done|]. by repeat constructor; apply range_ok_nonempty.
    + by destruct (watched_ranges t).
  - destruct Ht. by split.
Qed.

(** ** Properties *)

(** Exactness of the tracker. In every state reached from a fresh tracker
    by its own methods, checking a read of [len > 0] bytes appends the access
    to the record when the read touches a byte of a watched range, and changes
    nothing otherwise. *)
Theorem check_access_exact (ops : list tracker_op) (vm_addr len : Z) :
  Forall op_ok ops -> is_u64 vm_addr -> is_u64 len -> 0 < len ->
  let t := fold_left tracker_step ops tracker_new in
  (touches (watched_ranges t) vm_addr len ->
     check_access t vm_addr len =
     mkTracker (watched_ranges t) (forbidden_accesses t ++ [(vm_addr, len)]) (enabled t)) /\
  (~ touches (watched_ranges t) vm_addr len -> check_access t vm_addr len = t).
Proof.
  intros Hops Ha Hn Hpos t.
  assert (tracker_ok t) as Ht.
  { subst t. generalize tracker_ok_new. generalize tracker_new.
    induction Hops as [|op ops Hop _ IH]; intros t0 H0; [done|]. cbn.
    apply IH, tracker_step_ok; done. }
  clearbody t. pose proof (forbidden_accesses_check_access t vm_addr len Ht) as Ef.
  pose proof (access_forbidden_touches _ vm_addr len (tracker_ranges_ok t Ht) Ha Hn Hpos) as Et.
  pose proof (watched_ranges_check_access t vm_addr len) as Ew.
  pose proof (enabled_check_access t vm_addr len) as Ee.
  destruct (check_access t vm_addr len) as [w f e], t as [w' f' e']; cbn in *. subst w e.
  rewrite cast_u_id in Ef by done. split; intros Hc.
  - apply Et in Hc. by rewrite Ef, Hc.
  - rewrite <- Et in Hc. apply not_true_is_false in Hc. by rewrite Ef, Hc, app_nil_r.
Qed.

Lemma check_access_exact_witness :
  let ops := [OpAddRanges [mkRange 48 56; mkRange 60 60]; OpCheck 40 8] in
  forbidden_accesses (check_access (fold_left tracker_step ops tracker_new) 50 2) = [(50, 2)] /\
  check_access (fold_left tracker_step ops tracker_new) 56 8 = fold_left tracker_step ops tracker_new.
Proof.
  intros ops. split.
  - rewrite (proj1 (check_access_exact ops 50 2 ltac:(repeat constructor; cbn; lia)
      ltac:(unfold is_u; lia) ltac:(unfold is_u; lia) ltac:(lia))); [by vm_compute|].
    exists (mkRange 48 56), 50. repeat split; cbn; [left|lia..].
  - apply (proj2 (check_access_exact ops 56 8 ltac:(repeat constructor; cbn; lia)
      ltac:(unfold is_u; lia) ltac:(unfold is_u; lia) ltac:(lia))).
    intros (r & b & Hr & Hb & Hb'). apply list_elem_of_In in Hr. cbn in Hr.
    destruct Hr as [<-|[]]. cbn in *. lia.
Defined.

(** ** Sequences of checks *)

Lemma touches_exists ranges a n :
  touches ranges a n <-> Exists (fun r => Z.max a (r_start r) < Z.min (a + n) (r_end r)) ranges.
Proof.
  rewrite Exists_exists. split.
  - intros (r & b & Hr & H1 & H2). exists r. split; [done|lia].
  - intros (r & Hr & H). exists r, (Z.max a (r_start r)). split; [done|lia].
Qed.

#[export] Instance touches_dec ranges a n : Decision (touches ranges a n).
Proof.
  refine (cast_if (decide (Exists (fun r => Z.max a (r_start r) < Z.min (a + n) (r_end r)) ranges)));
    by rewrite touches_exists.
Defined.

Lemma touches_nonempty ranges a n :
  touches (List.filter (fun r => negb (range_is_empty r)) ranges) a n <-> touches ranges a n.
Proof.
  unfold touches. split; intros (r & b & Hr & H1 & H2); exists r, b; (split; [|done]).
  - by apply list_elem_of_In, filter_In in Hr as [Hr%list_elem_of_In _].
  - apply list_elem_of_In, filter_In. split; [by apply list_elem_of_In|].
    unfold range_is_empty. rewrite negb_involutive. apply Z.ltb_lt. lia.
Qed.

(** A load the machine can make: some bytes at some address. *)
Definition load_ok (l : Z * Z) : Prop := is_u64 l.1 /\ is_u64 l.2 /\ 0 < l.2.

Lemma tracked_loads t (loads : list (Z * Z)) :
  Forall load_ok loads -> tracker_ok t ->
  forbidden_accesses (fold_left (fun t l => check_access t l.1 l.2) loads t) =
  forbidden_accesses t ++ filter (fun l => touches (watched_ranges t) l.1 l.2) loads.
Proof.
  intros Hl. revert t. induction Hl as [|[a n] loads (Ha & Hn & Hpos) _ IH]; intros t Ht; cbn [fold_left].
  { by rewrite app_nil_r. }
  cbn [fst snd] in *. rewrite IH by auto with gobble.
  rewrite forbidden_accesses_check_access, watched_ranges_check_access, cast_u_id by done.
  rewrite <- app_assoc, filter_cons. f_equal. cbn [fst snd].
  pose proof (access_forbidden_touches _ a n (tracker_ranges_ok t Ht) Ha Hn Hpos) as E.
  destruct (access_forbidden _ _ _), (decide _); naive_solver.
Qed.
