(* ===== verification/MemoryRegion.v ===== *)
(** Memory regions and address translation of the sBPF machine
    ([MemoryRegion] and [CommonMemoryMapping] of sbpf/src/memory_region.rs).

    A slice argument of the Rust constructors is given by its pointer and its
    length. The theorems describe the translation of contiguous and of gapped
    regions and show that a translated access stays inside the host range of
    its region. *)

From Stdlib Require Import ZArith Lia Bool.
From stdpp Require Import strings.
From S2P Require Import Prelude.
From S2P Require Import SbpfTypes.
From S2P Require Import Ebpf.
From S2P Require Import Tracker.

#[local] Open Scope Z_scope.

Record MemoryRegion := mkRegion {
  host_addr : Z;
  vm_addr : Z;
  region_len : Z;
  vm_gap_shift : Z;
  writable : bool;
  access_violation_handler_payload : option Z
}.

#[export] Instance MemoryRegion_inhabited : Inhabited MemoryRegion :=
  populate (mkRegion 0 0 0 0 false None).

(** [u64::leading_zeros]. *)
Definition leading_zeros (x : Z) : Z := if x =? 0 then 64 else 63 - Z.log2 x.

Definition region_new (slice_ptr slice_len vm_addr vm_gap_size : Z) (writable : bool) : MemoryRegion :=
  let vm_gap_shift := 63 in
  let vm_gap_shift :=
    if 0 <? vm_gap_size
    then saturating_sub vm_gap_shift (as_u8 (leading_zeros vm_gap_size))
    else vm_gap_shift in
  {| host_addr := slice_ptr;
     vm_addr := vm_addr;
     region_len := slice_len;
     vm_gap_shift := vm_gap_shift;
     writable := writable;
     access_violation_handler_payload := None |}.

Definition new_readonly (slice_ptr slice_len vm_addr : Z) : MemoryRegion :=
  region_new slice_ptr slice_len vm_addr 0 false.
Definition new_writable (slice_ptr slice_len vm_addr : Z) : MemoryRegion :=
  region_new slice_ptr slice_len vm_addr 0 true.
Definition new_writable_gapped (slice_ptr slice_len vm_addr vm_gap_size : Z) : MemoryRegion :=
  region_new slice_ptr slice_len vm_addr vm_gap_size true.

Definition vm_addr_range (r : MemoryRegion) : Range :=
  if vm_gap_shift r =? 63
  then mkRange (vm_addr r) (saturating_add (vm_addr r) (region_len r))
  else mkRange (vm_addr r) (saturating_add (vm_addr r) (saturating_mul (region_len r) 2)).

Definition vm_to_host (r : MemoryRegion) (access_type : AccessType) (addr len : Z) : option Z :=
  if bool_decide (access_type = Store) && negb (writable r) then None
  else if addr <? vm_addr r then None
  else
    let begin_offset := saturating_sub addr (vm_addr r) in
    if vm_gap_shift r =? 63 then
      match checked_add begin_offset len with
      | Some end_offset =>
          if end_offset <=? region_len r
          then Some (saturating_add (host_addr r) begin_offset) else None
      | None => None
      end
    else
      let is_in_gap := Z.land (checked_shr_or_0 begin_offset (vm_gap_shift r)) 1 =? 1 in
      let gap_mask := checked_shl_or_0 (-1) (vm_gap_shift r) in
      let gapped_offset :=
        checked_shr_or_0 (Z.land begin_offset gap_mask) 1
        .| Z.land begin_offset (as_u64 (Z.lnot gap_mask)) in
      match checked_add gapped_offset len with
      | Some end_offset =>
          if (end_offset <=? region_len r) && negb is_in_gap
          then Some (saturating_add (host_addr r) gapped_offset) else None
      | None => None
      end.

(** ** Host memory

    The bytes the process has allocated, by address. Reading or writing an
    address that is not allocated is undefined behaviour. *)
Abbreviation HostMemory := (gmap Z Z).

Fixpoint host_read (m : HostMemory) (addr : Z) (n : nat) : option (list Z) :=
  match n with
  | O => Some []
  | S n' =>
      let! b := m !! addr in
      let! bs := host_read m (addr + 1) n' in
      Some (b :: bs)
  end.

Fixpoint host_write (m : HostMemory) (addr : Z) (bs : list Z) : option HostMemory :=
  match bs with
  | [] => Some m
  | b :: bs' =>
      let! _ := m !! addr in
      host_write (<[addr := b]> m) (addr + 1) bs'
  end.

(** ** CommonMemoryMapping *)

(** The callback that may change a region before an access violation is
    reported. It is a Rust closure with shared state, so it may also change
    host memory. *)
Abbreviation AccessViolationHandler :=
  (HostMemory -> MemoryRegion -> Z -> AccessType -> Z -> Z -> HostMemory * MemoryRegion).

Definition default_access_violation_handler : AccessViolationHandler :=
  fun m region _region_max_len _access_type _vm_addr _len => (m, region).

Record CommonMemoryMapping := mkCommon {
  regions : list MemoryRegion;
  access_violation_handler : AccessViolationHandler;
  cm_allow_memory_region_zero : bool;
  cm_max_call_depth : Z;
  cm_stack_frame_size : Z;
  cm_sbpf_version : SBPFVersion;
  access_tracker : MemoryAccessTracker
}.

(** [i64::checked_div]. *)
Definition checked_div_i64 (a b : Z) : option Z :=
  if (b =? 0) || ((a =? i64_MIN) && (b =? -1)) then None else Some (Z.quot a b).

Definition generate_access_violation (c : CommonMemoryMapping) (access_type : AccessType)
    (addr len : Z) : ProgramResult :=
  let stack_frame :=
    default 0 (checked_div_i64
      (saturating_sub_i64 (as_i64 addr) (as_i64 MM_STACK_START)) (cm_stack_frame_size c)) in
  if negb (manual_stack_frame_bump (cm_sbpf_version c))
     && range_contains (mkRange (-1) (saturating_add_i64 (cm_max_call_depth c) 1)) stack_frame
  then Err (StackAccessViolation access_type addr len stack_frame)
  else
    let base := Z.land addr (as_u64 (Z.lnot (saturating_sub MM_BYTECODE_START 1))) in
    let region_name :=
      if base =? MM_BYTECODE_START then "program"
      else if base =? MM_STACK_START then "stack"
      else if base =? MM_HEAP_START then "heap"
      else if base =? MM_INPUT_START then "input"
      else "unknown" in
    Err (AccessViolation access_type addr len region_name).

(** ** Translation *)

(** Regions as the constructors make them over allocations of the process. *)
Record region_ok (r : MemoryRegion) : Prop := {
  region_vm_addr_ok : is_u64 (vm_addr r);
  region_len_ok : 0 <= region_len r <= i64_MAX;
  region_host_ok : 0 <= host_addr r /\ host_addr r + region_len r <= u64_MAX;
  region_shift_ok : 0 <= vm_gap_shift r <= 63
}.

Definition store_allowed (r : MemoryRegion) (ty : AccessType) : Prop :=
  ty = Store -> writable r = true.

(** The permission test of [vm_to_host]. *)
Lemma store_test r ty :
  (bool_decide (ty = Store) && negb (writable r))%bool = false <-> store_allowed r ty.
Proof. unfold store_allowed. case_bool_decide; destruct (writable r); naive_solver. Qed.

Lemma vm_to_host_denied r ty a n :
  (bool_decide (ty = Store) && negb (writable r))%bool = true -> vm_to_host r ty a n = None.
Proof. intros H. unfold vm_to_host. by rewrite H. Qed.

(** The offset arithmetic of a gapped region: the guest offset is cut in frames
    of [2 ^ s] bytes, even frames are mapped, odd ones are gaps. *)
Lemma gap_test off s :
  0 <= off -> 0 <= s <= 62 ->
  (Z.land (checked_shr_or_0 off s) 1 =? 1) = Z.odd (off / 2 ^ s).
Proof.
  intros Ho Hs. unfold checked_shr_or_0. destruct (Z.ltb_spec s 64); [|lia].
  rewrite Z.shiftr_div_pow2 by lia. rewrite (Z.land_ones _ 1) by lia.
  rewrite Zmod_odd. by destruct (Z.odd _).
Qed.

Lemma gapped_offset_spec off s :
  is_u64 off -> 0 <= s <= 62 -> Z.odd (off / 2 ^ s) = false ->
  (checked_shr_or_0 (Z.land off (checked_shl_or_0 (-1) s)) 1
     .| Z.land off (as_u64 (Z.lnot (checked_shl_or_0 (-1) s))))
  = off / 2 ^ s / 2 * 2 ^ s + off mod 2 ^ s.
Proof.
  intros Ho Hs Heven. unfold checked_shl_or_0, checked_shr_or_0.
  destruct (Z.ltb_spec s 64); [|lia]. change (1 <? 64) with true. cbn [Z.ltb].
  pose proof (pow2_pos s ltac:(lia)) as Hp.
  assert (as_u64 (Z.lnot (as_u64 (Z.shiftl (-1) s))) = Z.ones s) as ->.
  { rewrite Z.ones_equiv, Z.shiftl_mul_pow2 by lia. unfold Z.lnot, cast_u.
    assert (2 ^ s < 2 ^ 64) by (apply Z.pow_lt_mono_r; lia).
    replace ((-1 * 2 ^ s) mod 2 ^ 64) with (2 ^ 64 - 2 ^ s).
    - rewrite <- (Z.mod_add _ 1) by lia. rewrite Z.mod_small; lia.
    - symmetry. rewrite <- (Z.mod_add _ 1) by lia. rewrite Z.mod_small; lia. }
  assert (Z.land off (as_u64 (Z.shiftl (-1) s)) = off / 2 ^ s * 2 ^ s) as ->.
  { rewrite <- Z.shiftl_mul_pow2, <- Z.shiftr_div_pow2 by lia.
    unfold cast_u. rewrite <- Z.land_ones, (Z.land_comm _ (Z.ones 64)), Z.land_assoc, Z.land_ones by lia.
    rewrite (Z.mod_small off) by done.
    rewrite <- Z.ldiff_ones_r by lia. rewrite Z.ldiff_land. f_equal.
    rewrite Z.shiftl_mul_pow2 by lia.
    unfold Z.lnot. rewrite Z.ones_equiv. lia. }
  rewrite Z.land_ones, Z.shiftr_div_pow2 by lia. change (2 ^ 1) with 2.
  assert (off / 2 ^ s = 2 * (off / 2 ^ s / 2)) as Eeven.
  { rewrite <- Z.negb_even in Heven. apply negb_false_iff, Z.even_spec in Heven as [k Hk].
    rewrite Hk, (Z.mul_comm 2 k), Z.div_mul by lia. lia. }
  rewrite Eeven at 1. replace (2 * (off / 2 ^ s / 2) * 2 ^ s) with (off / 2 ^ s / 2 * 2 ^ s * 2) by lia.
  rewrite Z.div_mul by lia. rewrite Z.lor_comm, <- Z.shiftl_mul_pow2 by lia.
  rewrite lor_disjoint by (try apply Z.mod_pos_bound; lia).
  rewrite Z.shiftl_mul_pow2; lia.
Qed.

(** The host offset of a guest address, as the comment on gapped memory draws
    it: contiguous regions map byte for byte, gapped regions map every other
    frame of [2 ^ vm_gap_shift] bytes. *)
Definition guest_offset (r : MemoryRegion) (a : Z) : option Z :=
  let o := a - vm_addr r in
  if vm_gap_shift r =? 63 then Some o
  else
    let frame := o / 2 ^ vm_gap_shift r in
    if Z.odd frame then None
    else Some (frame / 2 * 2 ^ vm_gap_shift r + o mod 2 ^ vm_gap_shift r).

Lemma guest_offset_range r a o :
  region_ok r -> vm_addr r <= a -> guest_offset r a = Some o -> 0 <= o <= a - vm_addr r.
Proof.
  intros Hr Ha. unfold guest_offset. destruct (vm_gap_shift r =? 63); [intros; simplify_eq; lia|].
  destruct (Z.odd _); [done|]. intros [= <-].
  pose proof (pow2_pos (vm_gap_shift r) (proj1 (region_shift_ok r Hr))) as Hp.
  set (p := 2 ^ vm_gap_shift r) in *. clearbody p.
  pose proof (Z.mod_pos_bound (a - vm_addr r) p Hp).
  pose proof (Z.div_pos (a - vm_addr r) p ltac:(lia) Hp).
  pose proof (Z.div_mod (a - vm_addr r) p ltac:(lia)) as E.
  set (q := (a - vm_addr r) / p) in *. clearbody q.
  assert (0 <= q / 2 <= q) by int_lia. nia.
Qed.

Lemma vm_to_host_iff r ty a n h :
  region_ok r -> is_u64 a -> is_u64 n ->
  vm_to_host r ty a n = Some h <->
  store_allowed r ty /\ vm_addr r <= a /\
  exists o, guest_offset r a = Some o /\ o + n <= region_len r /\ h = host_addr r + o.
Proof.
  intros Hr Ha Hn. rewrite <- store_test. unfold vm_to_host.
  destruct (bool_decide _ && _)%bool; [naive_solver|].
  destruct (Z.ltb_spec a (vm_addr r)) as [Hlt|Hge]; [naive_solver lia|].
  destruct Hr as [Hva Hlen Hhost Hsh].
  assert (saturating_sub a (vm_addr r) = a - vm_addr r) as -> by int_lia.
  assert (is_u64 (a - vm_addr r)) as Hoff by int_lia.
  unfold guest_offset. destruct (Z.eqb_spec (vm_gap_shift r) 63) as [E63|N63].
  - unfold checked_add. destruct (Z.leb_spec (a - vm_addr r + n) u64_MAX) as [H1|H1].
    + destruct (Z.leb_spec (a - vm_addr r + n) (region_len r)) as [H2|H2].
      * assert (saturating_add (host_addr r) (a - vm_addr r) = host_addr r + (a - vm_addr r)) as ->
          by int_lia. naive_solver.
      * split; [done|]. intros (_ & _ & o & [= <-] & ? & _). lia.
    + split; [done|]. intros (_ & _ & o & [= <-] & ? & _). lia.
  - rewrite gap_test by lia. destruct (Z.odd _) eqn:Eodd.
    + split; [|naive_solver]. destruct (checked_add _ _); [|done]. by rewrite andb_false_r.
    + rewrite gapped_offset_spec by (done || lia).
      set (o := (a - vm_addr r) / 2 ^ vm_gap_shift r / 2 * 2 ^ vm_gap_shift r
                + (a - vm_addr r) mod 2 ^ vm_gap_shift r).
      assert (0 <= o <= a - vm_addr r) as Ho.
      { apply (guest_offset_range r a o); [by split|done|].
        unfold guest_offset. rewrite (proj2 (Z.eqb_neq _ _) N63), Eodd. done. }
      clearbody o. unfold checked_add. destruct (Z.leb_spec (o + n) u64_MAX) as [H1|H1].
      * destruct (Z.leb_spec (o + n) (region_len r)) as [H2|H2]; cbn [andb negb].
        -- assert (saturating_add (host_addr r) o = host_addr r + o) as -> by int_lia. naive_solver.
        -- split; [done|]. intros (_ & _ & o' & [= <-] & ? & _). lia.
      * split; [done|]. intros (_ & _ & o' & [= <-] & ? & _). lia.
Qed.

Lemma vm_to_host_bounds r ty a n h :
  region_ok r -> is_u64 a -> is_u64 n -> vm_to_host r ty a n = Some h ->
  host_addr r <= h /\ h + n <= host_addr r + region_len r.
Proof.
  intros Hr Ha Hn H. apply vm_to_host_iff in H as (_ & Hge & o & Ho & Hlen & ->); [|done..].
  pose proof (guest_offset_range r a o Hr Hge Ho). lia.
Qed.

(** Address translation: an access of [len] bytes at a guest address is
    translated exactly when the region permits it, the address is in a mapped
    frame and the host bytes fit in the region; the result is the host address
    of that frame offset. *)
Theorem vm_to_host_spec (r : MemoryRegion) (ty : AccessType) (a len h : Z) :
  region_ok r -> is_u64 a -> is_u64 len ->
  vm_to_host r ty a len = Some h <->
  store_allowed r ty /\ vm_addr r <= a /\
  exists o, guest_offset r a = Some o /\ o + len <= region_len r /\ h = host_addr r + o.
Proof. apply vm_to_host_iff. Qed.

(** A stack region as [create_memory_mapping] makes it, with 4 KiB frames. *)
Definition example_stack : MemoryRegion := new_writable_gapped 0x10000 8192 MM_STACK_START 4096.

Lemma example_stack_ok : region_ok example_stack.
Proof. by split; vm_compute; repeat split. Qed.

Lemma vm_to_host_spec_witness :
  vm_to_host example_stack Store (MM_STACK_START + 8192 + 16) 8 = Some (0x10000 + 4096 + 16) /\
  vm_to_host example_stack Load (MM_STACK_START + 4096) 8 <> Some 0x10000.
Proof.
  split.
  - apply (vm_to_host_spec example_stack Store (MM_STACK_START + 8192 + 16) 8);
      [exact example_stack_ok | eval_int | eval_int |].
    split; [done|]. split; [eval_int|]. exists (4096 + 16). eval_int.
  - intros H. apply (vm_to_host_spec example_stack Load (MM_STACK_START + 4096) 8) in H;
      [|exact example_stack_ok | eval_int | eval_int].
    destruct H as (_ & _ & o & Ho & _). vm_compute in Ho. done.
Defined.

Lemma gapped_offset_inj p x y :
  0 < p -> Z.odd (x / p) = false -> Z.odd (y / p) = false ->
  x / p / 2 * p + x mod p = y / p / 2 * p + y mod p -> x = y.
Proof.
  intros Hp Hx Hy E.
  assert (forall z, Z.odd (z / p) = false -> z / p = 2 * (z / p / 2)) as Heven.
  { intros z Hz. rewrite (Z.div_mod (z / p) 2) at 1 by lia. rewrite Zmod_odd, Hz. lia. }
  apply Heven in Hx, Hy.
  pose proof (Z.mod_pos_bound x p Hp). pose proof (Z.mod_pos_bound y p Hp).
  assert (x / p / 2 = y / p / 2) as Eq by nia.
  rewrite (Z.div_mod x p), (Z.div_mod y p) by lia. rewrite Eq in E. nia.
Qed.

(** Memory safety of translation: a translated access lies inside the host
    bytes of the region, and distinct guest addresses of one region translate
    to distinct host addresses. *)
Theorem vm_to_host_safe (r : MemoryRegion) (ty ty' : AccessType) (a a' n n' h h' : Z) :
  region_ok r -> is_u64 a -> is_u64 a' -> is_u64 n -> is_u64 n' ->
  vm_to_host r ty a n = Some h -> vm_to_host r ty' a' n' = Some h' ->
  (host_addr r <= h /\ h + n <= host_addr r + region_len r) /\ (h = h' -> a = a').
Proof.
  intros Hr Ha Ha' Hn Hn' H H'. split; [by apply (vm_to_host_bounds r ty a)|]. intros ->.
  apply vm_to_host_iff in H as (_ & Hge & o & Ho & _ & E); [|done..].
  apply vm_to_host_iff in H' as (_ & Hge' & o' & Ho' & _ & E'); [|done..].
  assert (o = o') as <- by lia. clear E E'. unfold guest_offset in *.
  destruct (vm_gap_shift r =? 63); [simplify_eq; lia|].
  pose proof (pow2_pos (vm_gap_shift r) (proj1 (region_shift_ok r Hr))) as Hp.
  set (p := 2 ^ vm_gap_shift r) in *. clearbody p.
  destruct (Z.odd ((a - vm_addr r) / p)) eqn:Eo; [done|].
  destruct (Z.odd ((a' - vm_addr r) / p)) eqn:Eo'; [done|].
  apply (gapped_offset_inj p) with (x := a - vm_addr r) (y := a' - vm_addr r) in Hp; [lia|..];
    [done|done|congruence].
Qed.

Lemma vm_to_host_safe_witness :
  0x10000 <= 0x10000 + 4096 + 16 /\ 0x10000 + 4096 + 16 + 8 <= 0x10000 + 8192.
Proof.
  apply (vm_to_host_safe example_stack Store Load (MM_STACK_START + 8192 + 16) MM_STACK_START 8 8
    (0x10000 + 4096 + 16) 0x10000);
    [exact example_stack_ok | eval_int | eval_int | eval_int | eval_int | eval_int | eval_int].
Defined.

(** Gaps are checked at the first byte only: an access that starts at the
    last byte of a frame and runs into the gap behind it is translated, and
    reads on into the next frame of the host, although an access that starts in
    the gap is refused. *)
Theorem gap_straddling_access (r : MemoryRegion) (k : Z) :
  region_ok r -> vm_gap_shift r <= 62 -> 0 <= k ->
  let frame := 2 ^ vm_gap_shift r in
  let last := vm_addr r + 2 * k * frame + (frame - 1) in
  (k + 1) * frame < region_len r -> last + 1 <= u64_MAX ->
  vm_to_host r Load last 2 = Some (host_addr r + (k + 1) * frame - 1) /\
  vm_to_host r Load (last + 1) 1 = None.
Proof.
  intros Hr Hs Hk frame last Hlen Hmax.
  pose proof (pow2_pos (vm_gap_shift r) (proj1 (region_shift_ok r Hr))) as Hp.
  pose proof (region_vm_addr_ok r Hr) as Hva. fold frame in Hp.
  assert (0 <= 2 * k * frame) by nia.
  assert ((last - vm_addr r) / frame = 2 * k) as Eq.
  { unfold last. replace (_ - vm_addr r) with (frame - 1 + (2 * k) * frame) by lia.
    rewrite Z.div_add, Z.div_small; lia. }
  assert ((last - vm_addr r) mod frame = frame - 1) as Em.
  { unfold last. replace (_ - vm_addr r) with (frame - 1 + (2 * k) * frame) by lia.
    rewrite Z.mod_add, Z.mod_small; lia. }
  assert ((last + 1 - vm_addr r) / frame = 2 * k + 1) as Eq1.
  { unfold last. replace (_ - vm_addr r) with ((2 * k + 1) * frame) by lia. apply Z.div_mul. lia. }
  assert (is_u64 last /\ is_u64 (last + 1)) as [Hl Hl1] by (unfold is_u in *; lia).
  assert ((vm_gap_shift r =? 63) = false) as E63 by (apply Z.eqb_neq; lia).
  split.
  - apply vm_to_host_iff; [done|done|eval_int|]. split; [done|]. split; [unfold last; lia|].
    exists (k * frame + (frame - 1)). split; [|split; lia].
    unfold guest_offset. rewrite E63. fold frame. rewrite Eq, Em, Z.odd_mul. cbn [Z.odd andb].
    by rewrite (Z.mul_comm 2 k), Z.div_mul by lia.
  - destruct (vm_to_host r Load (last + 1) 1) as [h|] eqn:E; [|done].
    apply vm_to_host_iff in E; [|done|done|eval_int].
    destruct E as (_ & _ & o & Ho & _). unfold guest_offset in Ho. rewrite E63 in Ho.
    fold frame in Ho. rewrite Eq1, Z.odd_add, Z.odd_mul in Ho. done.
Qed.

Lemma gap_straddling_access_witness :
  vm_to_host example_stack Load (MM_STACK_START + 4095) 2 = Some (0x10000 + 4095) /\
  vm_to_host example_stack Load (MM_STACK_START + 4096) 1 = None.
Proof.
  apply (gap_straddling_access example_stack 0);
    [exact example_stack_ok | eval_int | lia | eval_int | eval_int].
Defined.

(** ** Host memory *)

(** The addresses [a .. a + n - 1] are allocated. *)
Definition allocated (m : HostMemory) (a n : Z) : Prop :=
  forall b, a <= b < a + n -> is_Some (m !! b).

Lemma host_read_Some m a n :
  allocated m a (Z.of_nat n) <-> exists bs, host_read m a n = Some bs /\ length bs = n.
Proof.
  revert a; induction n as [|n IH]; intros a; cbn [host_read].
  - split; [by exists [] | intros _ b Hb; lia].
  - split.
    + intros Hal. destruct (Hal a) as [x Hx]; [lia|]. rewrite Hx.
      destruct (proj1 (IH (a + 1))) as (bs & Hbs & Hl); [intros b Hb; apply Hal; lia|].
      rewrite Hbs. exists (x :: bs). split; [done|]. cbn. lia.
    + intros (bs & Hbs & Hl). destruct (m !! a) as [x|] eqn:Hx; [|done].
      destruct (host_read m (a + 1) n) as [bs'|] eqn:Hbs'; [|done]. injection Hbs as <-.
      cbn in Hl. assert (allocated m (a + 1) (Z.of_nat n)) as Hal.
      { apply IH. exists bs'. split; [done|lia]. }
      intros b Hb. destruct (decide (b = a)) as [->|Hne]; [by exists x|]. apply Hal. lia.
Qed.

Lemma host_read_lookup m a n bs i b :
  host_read m a n = Some bs -> bs !! i = Some b -> m !! (a + Z.of_nat i) = Some b.
Proof.
  revert a bs i; induction n as [|n IH]; intros a bs i H Hi; cbn in H; [by simplify_eq|].
  destruct (m !! a) as [x|] eqn:Hx; [|done].
  destruct (host_read m (a + 1) n) as [bs'|] eqn:Hbs'; [|done]. injection H as <-.
  destruct i as [|i]; cbn in Hi.
  - by rewrite Z.add_0_r, Hx.
  - replace (a + Z.of_nat (S i)) with (a + 1 + Z.of_nat i) by lia. by eapply IH.
Qed.

Lemma host_write_spec m a bs m' :
  host_write m a bs = Some m' ->
  (forall i b, bs !! i = Some b -> m' !! (a + Z.of_nat i) = Some b) /\
  (forall x, ~ (a <= x < a + len bs) -> m' !! x = m !! x) /\
  (forall x, is_Some (m' !! x) <-> is_Some (m !! x)).
Proof.
  unfold len. revert m a; induction bs as [|b bs IH]; intros m a H; cbn in H.
  { simplify_eq. repeat split; naive_solver. }
  destruct (m !! a) as [x|] eqn:Hx; [|done]. apply IH in H as (H1 & H2 & H3).
  repeat split.
  - intros [|i] c Hc; cbn in Hc.
    + simplify_eq. rewrite H2 by lia. rewrite Z.add_0_r. apply lookup_insert_eq.
    + replace (a + Z.of_nat (S i)) with (a + 1 + Z.of_nat i) by lia. by apply H1.
  - intros y Hy. cbn [length] in Hy. rewrite H2 by lia. apply lookup_insert_ne. lia.
  - rewrite H3. destruct (decide (x0 = a)) as [->|]; [by rewrite Hx | by rewrite lookup_insert_ne].
  - rewrite H3. destruct (decide (x0 = a)) as [->|];
      [by rewrite lookup_insert_eq | by rewrite lookup_insert_ne].
Qed.

Lemma host_write_Some m a bs :
  allocated m a (len bs) -> exists m', host_write m a bs = Some m'.
Proof.
  unfold len. revert m a; induction bs as [|b bs IH]; intros m a Hal; cbn; [by exists m|].
  destruct (Hal a) as [x Hx]; [cbn; lia|]. rewrite Hx. apply IH.
  intros c Hc. cbn [length] in Hal. destruct (decide (c = a)) as [->|].
  - by rewrite lookup_insert_eq.
  - rewrite lookup_insert_ne by done. apply Hal. lia.
Qed.

Lemma host_read_lookups m a bs :
  (forall i b, bs !! i = Some b -> m !! (a + Z.of_nat i) = Some b) ->
  host_read m a (length bs) = Some bs.
Proof.
  revert a; induction bs as [|b bs IH]; intros a H; [done|]. cbn.
  pose proof (H 0%nat b eq_refl) as H0. rewrite Z.add_0_r in H0. rewrite H0, IH; [done|].
  intros i c Hi. replace (a + 1 + Z.of_nat i) with (a + Z.of_nat (S i)) by lia. by apply H.
Qed.

(** Reading back what was written. *)
Lemma host_write_read m a n x m' :
  host_write m a (le_split n x) = Some m' -> host_read m' a n = Some (le_split n x).
Proof.
  intros H. apply host_write_spec in H as (H1 & _ & _).
  rewrite <- (le_split_length n x) at 1. by apply host_read_lookups.
Qed.
