(* ===== verification/Eytzinger.v ===== *)
(** The Eytzinger layout that [UnalignedMemoryMapping] searches
    (sbpf/src/memory_region.rs, [construct_eytzinger_order] and the search loop
    of [find_region]): a binary search tree stored in breadth-first order, the
    children of slot [o] at [2 o + 1] and [2 o + 2].

    Region indices and array indices are [nat]: they are bounded by the number
    of regions, so the saturation of the Rust index arithmetic is unreachable.
    An unchecked array access is the total lookup [!!!]; the lemmas show that
    every such index is in range. *)

From Stdlib Require Import ZArith Lia Bool.
From S2P Require Import Prelude.
From S2P Require Import SbpfTypes.
From S2P Require Import MemoryRegion.

#[local] Open Scope Z_scope.

(** [construct_eytzinger_order], the state being [region_addresses] and
    [region_index_lookup]. The output index grows along every recursive call,
    so a fuel of one more than the number of regions is never exhausted. *)
Fixpoint construct_eytzinger_order (fuel : nat) (regions : list MemoryRegion)
    (st : list Z * list nat) (in_index out_index : nat) : (list Z * list nat) * nat :=
  match fuel with
  | O => (st, in_index)
  | S fuel =>
      if (length regions <=? out_index)%nat then (st, in_index)
      else
        let '(st, in_index) :=
          construct_eytzinger_order fuel regions st in_index (out_index * 2 + 1) in
        let st := (<[out_index := vm_addr (regions !!! in_index)]> st.1,
                   <[out_index := in_index]> st.2) in
        construct_eytzinger_order fuel regions st (in_index + 1) (out_index * 2 + 2)
  end.

(** [usize::trailing_zeros]. *)
Fixpoint pos_trailing_zeros (p : positive) : Z :=
  match p with xO p' => 1 + pos_trailing_zeros p' | _ => 0 end.
Definition trailing_zeros (x : Z) : Z :=
  match x with Zpos p => pos_trailing_zeros p | _ => 64 end.

(** The loop [while index <= region_addresses.len()]. The index at least
    doubles, so a fuel of the number of regions is enough. *)
Fixpoint eytzinger_search (fuel : nat) (region_addresses : list Z) (addr index : Z) : Z :=
  match fuel with
  | O => index
  | S fuel =>
      if index <=? len region_addresses
      then eytzinger_search fuel region_addresses addr
             (Z.shiftl index 1
              + Z.b2z ((region_addresses !!! Z.to_nat (index - 1)) <=? addr))
      else index
  end.

(** The shift after the loop. *)
Definition eytzinger_result (index : Z) : Z := Z.shiftr index (trailing_zeros index + 1).

(** ** The tree *)

(** The slots of the subtree at [o], in order. *)
Fixpoint inorder (fuel n o : nat) : list nat :=
  match fuel with
  | O => []
  | S fuel =>
      if (n <=? o)%nat then []
      else inorder fuel n (o * 2 + 1) ++ [o] ++ inorder fuel n (o * 2 + 2)
  end.

(** [x] is [o] or below it. *)
Definition below (o x : nat) : Prop :=
  exists d b, (x + 1 = (o + 1) * 2 ^ d + b /\ b < 2 ^ d)%nat.

Lemma nat_pow2_pos d : (0 < 2 ^ d)%nat.
Proof. pose proof (Nat.pow_nonzero 2 d). lia. Qed.

Lemma below_cases o x :
  below o x <-> x = o \/ below (o * 2 + 1) x \/ below (o * 2 + 2) x.
Proof.
  split.
  - intros ([|d] & b & E & Hb).
    + left. cbn in *. lia.
    + rewrite Nat.pow_succ_r' in *. right.
      destruct (decide (b < 2 ^ d)%nat).
      * left. exists d, b. nia.
      * right. exists d, (b - 2 ^ d)%nat. nia.
  - intros [->|[(d & b & E & Hb)|(d & b & E & Hb)]].
    + exists 0%nat, 0%nat. cbn. lia.
    + exists (S d), b. rewrite Nat.pow_succ_r'. nia.
    + exists (S d), (b + 2 ^ d)%nat. rewrite Nat.pow_succ_r'. nia.
Qed.

Lemma below_ge o x : below o x -> (o <= x)%nat.
Proof. intros (d & b & E & _). pose proof (nat_pow2_pos d). nia. Qed.

Lemma below_disjoint o x : below (o * 2 + 1) x -> below (o * 2 + 2) x -> False.
Proof.
  intros (d & b & E & Hb) (e & c & E' & Hc).
  destruct (lt_eq_lt_dec d e) as [[Hlt| ->]|Hgt].
  - assert (2 * 2 ^ d <= 2 ^ e)%nat; [|nia].
    rewrite <- Nat.pow_succ_r'. apply Nat.pow_le_mono_r; lia.
  - nia.
  - assert (2 * 2 ^ e <= 2 ^ d)%nat; [|nia].
    rewrite <- Nat.pow_succ_r'. apply Nat.pow_le_mono_r; lia.
Qed.

Lemma below_root x : below 0 x.
Proof.
  exists (Nat.log2 (x + 1)), (x + 1 - 2 ^ Nat.log2 (x + 1))%nat.
  pose proof (Nat.log2_spec (x + 1) ltac:(lia)) as H. rewrite Nat.pow_succ_r' in H. lia.
Qed.

Lemma inorder_elem fuel n o x :
  (n - o < fuel)%nat -> x ∈ inorder fuel n o <-> (x < n)%nat /\ below o x.
Proof.
  revert o; induction fuel as [|fuel IH]; intros o Hf; [lia|]. cbn [inorder].
  destruct (Nat.leb_spec n o) as [Hle|Hlt].
  - split; [by intros ?%not_elem_of_nil|]. intros [Hx Hb%below_ge]. lia.
  - rewrite !elem_of_app, list_elem_of_singleton, !IH by lia.
    rewrite (below_cases o x). naive_solver.
Qed.

Lemma inorder_NoDup fuel n o : (n - o < fuel)%nat -> NoDup (inorder fuel n o).
Proof.
  revert o; induction fuel as [|fuel IH]; intros o Hf; [lia|]. cbn [inorder].
  destruct (Nat.leb_spec n o) as [Hle|Hlt]; [constructor|].
  apply NoDup_app. split; [apply IH; lia|]. split.
  - intros x [Hx Hb]%inorder_elem; [|lia].
    rewrite elem_of_app, list_elem_of_singleton, inorder_elem by lia.
    intros [->|[_ Hb']]; [apply below_ge in Hb; lia | by eapply below_disjoint].
  - apply NoDup_app. split; [apply NoDup_singleton|]. split; [|apply IH; lia].
    intros x ->%list_elem_of_singleton [_ Hb%below_ge]%inorder_elem; lia.
Qed.

Lemma inorder_length n : length (inorder (S n) n 0) = n.
Proof.
  transitivity (length (seq 0 n)); [|apply length_seq].
  apply Permutation_length, NoDup_Permutation.
  - apply inorder_NoDup. lia.
  - apply NoDup_seq.
  - intros x. rewrite inorder_elem, elem_of_seq by lia.
    pose proof (below_root x). naive_solver lia.
Qed.

(** ** Construction *)

(** What the arrays hold for the slots of a subtree whose first region is
    [base]. *)
Definition layout_at (rs : list MemoryRegion) (st : list Z * list nat) (fuel o base : nat) : Prop :=
  forall j x, inorder fuel (length rs) o !! j = Some x ->
    st.2 !! x = Some (base + j)%nat /\ st.1 !! x = Some (vm_addr (rs !!! (base + j)%nat)).

Lemma construct_spec fuel rs st base o :
  (length rs - o < fuel)%nat -> length st.1 = length rs -> length st.2 = length rs ->
  let res := construct_eytzinger_order fuel rs st base o in
  res.2 = (base + length (inorder fuel (length rs) o))%nat /\
  layout_at rs res.1 fuel o base /\
  (forall x, x ∉ inorder fuel (length rs) o ->
     res.1.1 !! x = st.1 !! x /\ res.1.2 !! x = st.2 !! x) /\
  length res.1.1 = length rs /\ length res.1.2 = length rs.
Proof.
  revert st base o; induction fuel as [|fuel IH]; intros st base o Hf L1 L2; [lia|].
  cbn [construct_eytzinger_order]. unfold layout_at. cbn [inorder].
  destruct (Nat.leb_spec (length rs) o) as [Hle|Hlt].
  { cbn. split; [lia|]. split; [by intros j x|]. naive_solver. }
  pose proof (IH st base (o * 2 + 1)%nat ltac:(lia) L1 L2) as HL.
  destruct (construct_eytzinger_order fuel rs st base (o * 2 + 1)) as [st1 in1].
  cbn in HL. destruct HL as (-> & Lay1 & Fr1 & L11 & L12).
  set (left := inorder fuel (length rs) (o * 2 + 1)) in *.
  set (right := inorder fuel (length rs) (o * 2 + 2)) in *.
  set (st2 := (<[o := vm_addr (rs !!! (base + length left)%nat)]> st1.1,
               <[o := (base + length left)%nat]> st1.2)).
  pose proof (IH st2 (base + length left + 1)%nat (o * 2 + 2)%nat ltac:(lia)) as HR.
  destruct (construct_eytzinger_order fuel rs st2 (base + length left + 1) (o * 2 + 2)) as [st3 in3].
  cbn in HR. rewrite !length_insert in HR. destruct (HR L11 L12) as (-> & Lay3 & Fr3 & L31 & L32).
  fold right in Lay3, Fr3. clear HR IH.
  pose proof (inorder_NoDup (S fuel) (length rs) o Hf) as ND. cbn [inorder] in ND.
  destruct (Nat.leb_spec (length rs) o); [lia|]. fold left right in ND.
  apply NoDup_app in ND as (_ & NDl & ND). apply NoDup_app in ND as (_ & NDo & _).
  cbn [fst snd] in *. split; [|split; [|split]]; [..|done].
  - rewrite !length_app. cbn. fold right. lia.
  - intros j x Hj. apply lookup_app_Some in Hj as [Hj|[Hge Hj]].
    + pose proof (list_elem_of_lookup_2 _ _ _ Hj) as Hin. specialize (NDl x Hin).
      rewrite not_elem_of_app, list_elem_of_singleton in NDl. destruct NDl as [Ho Hr].
      destruct (Fr3 x Hr) as [-> ->]. cbn. rewrite !list_lookup_insert_ne by done. by apply Lay1.
    + cbn in Hj. destruct (j - length left)%nat as [|j'] eqn:Ej; cbn in Hj.
      * injection Hj as <-. destruct (Fr3 o) as [-> ->]; [by apply NDo, list_elem_of_singleton|].
        cbn. rewrite !list_lookup_insert_eq by lia. by replace (base + length left)%nat with (base + j)%nat by lia.
      * apply Lay3 in Hj. replace (base + j)%nat with (base + length left + 1 + j')%nat by lia. done.
  - intros x Hx. rewrite !not_elem_of_app, list_elem_of_singleton in Hx.
    destruct Hx as (Hl & Ho & Hr). destruct (Fr3 x Hr) as [-> ->]. cbn.
    rewrite !list_lookup_insert_ne by done. by apply Fr1.
Qed.

(** ** Search *)

Lemma eytzinger_result_even x : 0 < x -> eytzinger_result (2 * x) = eytzinger_result x.
Proof.
  intros Hx. destruct x as [|p|]; [lia| |lia]. unfold eytzinger_result.
  change (2 * Zpos p) with (Zpos p~0). cbn [trailing_zeros pos_trailing_zeros].
  assert (0 <= pos_trailing_zeros p) by (clear; induction p; cbn; lia).
  rewrite !Z.shiftr_div_pow2 by lia.
  replace (1 + pos_trailing_zeros p + 1) with (Z.succ (pos_trailing_zeros p + 1)) by lia.
  rewrite Z.pow_succ_r by lia. change (Zpos p~0) with (2 * Zpos p).
  apply Z.div_mul_cancel_l; [|lia]. pose proof (pow2_pos (pos_trailing_zeros p + 1)). lia.
Qed.

Lemma eytzinger_result_odd x : 0 < x -> eytzinger_result (2 * x + 1) = x.
Proof.
  intros Hx. destruct x as [|p|]; [lia| |lia]. unfold eytzinger_result.
  change (2 * Zpos p + 1) with (Zpos p~1). cbn [trailing_zeros pos_trailing_zeros].
  rewrite Z.shiftr_div_pow2 by lia. change (Zpos p~1) with (2 * Zpos p + 1). int_lia.
Qed.

(** The regions up to [c] start at or below the address, the others above. *)
Definition split_at (rs : list MemoryRegion) (addr : Z) (c : nat) : Prop :=
  forall k r, rs !! k = Some r -> vm_addr r <= addr <-> (k < c)%nat.

Lemma layout_split rs st fuel o base :
  (o < length rs)%nat -> layout_at rs st (S fuel) o base ->
  let nl := length (inorder fuel (length rs) (o * 2 + 1)) in
  layout_at rs st fuel (o * 2 + 1) base /\
  st.1 !! o = Some (vm_addr (rs !!! (base + nl)%nat)) /\
  layout_at rs st fuel (o * 2 + 2) (base + nl + 1).
Proof.
  intros Hlt Lay nl. unfold layout_at in Lay. cbn [inorder] in Lay.
  destruct (Nat.leb_spec (length rs) o) as [|_]; [lia|]. repeat split.
  1,2: apply (Lay j x); by rewrite lookup_app_l by (by eapply lookup_lt_Some).
  - apply (Lay nl o). unfold nl. rewrite lookup_app_r, Nat.sub_diag by lia. done.
  - rewrite <- !Nat.add_assoc. apply (Lay (nl + (1 + j))%nat x).
    unfold nl. rewrite lookup_app_r by lia. by rewrite Nat.add_comm, Nat.add_sub.
  - rewrite <- !Nat.add_assoc. apply (Lay (nl + (1 + j))%nat x).
    unfold nl. rewrite lookup_app_r by lia. by rewrite Nat.add_comm, Nat.add_sub.
Qed.

(** In a subtree whose regions start at index [base], the search ends, after
    the shift, at the slot of the last region at or below the address, or where
    it entered if there is none. *)
Lemma search_spec rs st addr c fuel fuel' o base :
  (length rs - o < fuel)%nat -> (length rs - o <= fuel')%nat ->
  length st.1 = length rs -> layout_at rs st fuel o base ->
  split_at rs addr c ->
  (base + length (inorder fuel (length rs) o) <= length rs)%nat ->
  (base <= c <= base + length (inorder fuel (length rs) o))%nat ->
  let res := eytzinger_result (eytzinger_search fuel' st.1 addr (Z.of_nat o + 1)) in
  if decide (c = base) then res = eytzinger_result (Z.of_nat o + 1)
  else exists x, inorder fuel (length rs) o !! (c - 1 - base)%nat = Some x /\ res = Z.of_nat x + 1.
Proof.
  intros Hf Hf' L1 Lay Hc. revert fuel' o base Hf Hf' Lay.
  induction fuel as [|fuel IH]; intros fuel' o base Hf Hf' Lay Hn Hb; [lia|].
  destruct (decide (length rs <= o)%nat) as [Hle|Hlt].
  { cbn [inorder] in Hb. rewrite (proj2 (Nat.leb_le _ _) Hle) in Hb. cbn in Hb.
    rewrite decide_True by lia. destruct fuel'; [done|]. cbn [eytzinger_search]. unfold len.
    rewrite L1. by rewrite (proj2 (Z.leb_gt _ _)) by lia. }
  apply layout_split in Lay as (Layl & Eo & Layr); [|lia].
  destruct fuel' as [|fuel']; [lia|]. cbn [inorder eytzinger_search] in *. unfold len.
  rewrite (proj2 (Nat.leb_gt _ _)) in * by lia.
  rewrite L1, (proj2 (Z.leb_le _ _)) by lia.
  set (left := inorder fuel (length rs) (o * 2 + 1)) in *.
  rewrite !length_app in *. cbn [length] in *.
  replace (Z.to_nat (Z.of_nat o + 1 - 1)) with o by lia.
  destruct (lookup_lt_is_Some_2 rs (base + length left)) as [r Er]; [lia|].
  rewrite (list_lookup_total_correct _ _ _ Eo), (list_lookup_total_correct _ _ _ Er).
  pose proof (Hc _ _ Er) as Hr. rewrite Z.shiftl_mul_pow2 by lia. change (2 ^ 1) with 2.
  destruct (Z.leb_spec (vm_addr r) addr) as [Hra|Hra]; cbn [Z.b2z].
  - apply Hr in Hra. rewrite decide_False by lia.
    replace ((Z.of_nat o + 1) * 2 + 1) with (Z.of_nat (o * 2 + 2) + 1) by lia.
    specialize (IH fuel' (o * 2 + 2)%nat (base + length left + 1)%nat
      ltac:(lia) ltac:(lia) Layr ltac:(lia) ltac:(lia)). cbn zeta in IH.
    destruct (decide (c = (base + length left + 1)%nat)) as [Ec|Nc].
    + exists o. rewrite IH, lookup_app_r by lia.
      replace (Z.of_nat (o * 2 + 2) + 1) with (2 * (Z.of_nat o + 1) + 1) by lia.
      rewrite eytzinger_result_odd by lia.
      by replace (c - 1 - base - length left)%nat with 0%nat by lia.
    + destruct IH as (x & Hx & ->). exists x. rewrite lookup_app_r by lia.
      by replace (c - 1 - base - length left)%nat with (S (c - 1 - (base + length left + 1))) by lia.
  - assert (c <= base + length left)%nat as Hlc by (apply Nat.nlt_ge; intros ?%Hr; lia).
    replace ((Z.of_nat o + 1) * 2 + 0) with (Z.of_nat (o * 2 + 1) + 1) by lia.
    specialize (IH fuel' (o * 2 + 1)%nat base ltac:(lia) ltac:(lia) Layl ltac:(fold left; lia) ltac:(fold left; lia)).
    cbn zeta in IH. destruct (decide (c = base)) as [Ec|Nc].
    + rewrite IH. replace (Z.of_nat (o * 2 + 1) + 1) with (2 * (Z.of_nat o + 1)) by lia.
      apply eytzinger_result_even. lia.
    + destruct IH as (x & Hx & ->). exists x. by rewrite lookup_app_l by (by eapply lookup_lt_Some).
Qed.
