(* ===== verification/Mapping.v ===== *)
(** Memory mappings of the sBPF machine ([MappingCache],
    [UnalignedMemoryMapping], [AlignedMemoryMapping] and [MemoryMapping] of
    sbpf/src/memory_region.rs).

    The methods that use interior mutability (the lookup cache, the access
    tracker) return the new mapping. [load] and [store] also pass the host
    memory; they are [None] when they touch memory the process has not
    allocated. The theorems show that the cached Eytzinger search finds the
    region a linear search finds, that mappings stay well formed, that loads and
    stores through a well-formed mapping never leave allocated memory, and that
    a load reads what a store wrote. *)

From Stdlib Require Import ZArith Lia Bool.
From S2P Require Import Prelude.
From S2P Require Import SbpfTypes.
From S2P Require Import Ebpf.
From S2P Require Import Tracker.
From S2P Require Import MemoryRegion.
From S2P Require Import Eytzinger.

#[local] Open Scope Z_scope.

(** ** MappingCache *)

Record MappingCache := mkCache { entries : list (Range * nat); head : Z }.

Definition CACHE_SIZE : Z := 4.

Definition cache_new : MappingCache := mkCache (replicate 4 (mkRange 0 0, 0%nat)) 0.

#[export] Instance Range_inhabited : Inhabited Range := populate (mkRange 0 0).

(** The [for i in 0..SIZE] loop over the remaining values of [i]. *)
Fixpoint cache_find_from (c : MappingCache) (addr : Z) (idxs : list Z) : option nat :=
  match idxs with
  | [] => None
  | i :: idxs =>
      let index := wrapping_add (head c) i mod CACHE_SIZE in
      let '(vm_range, region_index) := entries c !!! Z.to_nat index in
      if range_contains vm_range addr then Some region_index else cache_find_from c addr idxs
  end.
Definition cache_find (c : MappingCache) (addr : Z) : option nat :=
  cache_find_from c addr (seqZ 0 CACHE_SIZE).

Definition cache_insert (c : MappingCache) (vm_range : Range) (region_index : nat) : MappingCache :=
  let head := wrapping_sub (head c) 1 mod CACHE_SIZE in
  mkCache (<[Z.to_nat head := (vm_range, region_index)]> (entries c)) head.

Definition cache_flush (c : MappingCache) : MappingCache := cache_new.

(** ** Sorting regions

    [Vec::sort] is stable and compares [vm_addr] only. *)

Fixpoint insert_region (r : MemoryRegion) (l : list MemoryRegion) : list MemoryRegion :=
  match l with
  | [] => [r]
  | x :: l' => if vm_addr r <=? vm_addr x then r :: l else x :: insert_region r l'
  end.
Definition sort_regions (l : list MemoryRegion) : list MemoryRegion := foldr insert_region [] l.

Definition region_index_of (r : MemoryRegion) : Z :=
  checked_shr_or_0 (vm_addr r) VIRTUAL_ADDRESS_BITS.

Definition common_new (regions : list MemoryRegion) (config : Config) (v : SBPFVersion)
    (handler : AccessViolationHandler) : CommonMemoryMapping :=
  {| regions := regions;
     access_violation_handler := handler;
     cm_allow_memory_region_zero := allow_memory_region_zero config;
     cm_max_call_depth := as_i64 (max_call_depth config);
     cm_stack_frame_size := as_i64 (stack_frame_size config);
     cm_sbpf_version := v;
     access_tracker := tracker_new |}.

Definition set_regions (c : CommonMemoryMapping) (rs : list MemoryRegion) : CommonMemoryMapping :=
  mkCommon rs (access_violation_handler c) (cm_allow_memory_region_zero c) (cm_max_call_depth c)
    (cm_stack_frame_size c) (cm_sbpf_version c) (access_tracker c).
Definition set_tracker (c : CommonMemoryMapping) (t : MemoryAccessTracker) : CommonMemoryMapping :=
  mkCommon (regions c) (access_violation_handler c) (cm_allow_memory_region_zero c)
    (cm_max_call_depth c) (cm_stack_frame_size c) (cm_sbpf_version c) t.

(** ** UnalignedMemoryMapping *)

Record UnalignedMemoryMapping := mkUnaligned {
  u_common : CommonMemoryMapping;
  region_addresses : list Z;
  region_index_lookup : list nat;
  cache : MappingCache
}.

(** The [for index in 1..number_of_regions] check: the index of the first
    region that starts before its predecessor ends. *)
Fixpoint check_overlap (index : Z) (prev : MemoryRegion) (l : list MemoryRegion) : option Z :=
  match l with
  | [] => None
  | second :: l' =>
      if vm_addr second <? r_end (vm_addr_range prev) then Some index
      else check_overlap (index + 1) second l'
  end.
Definition first_overlap (l : list MemoryRegion) : option Z :=
  match l with [] => None | first :: l' => check_overlap 1 first l' end.

Definition unaligned_new (regions : list MemoryRegion) (config : Config) (v : SBPFVersion)
    (handler : AccessViolationHandler) : Result UnalignedMemoryMapping EbpfError :=
  let regions := sort_regions regions in
  let number_of_regions := length regions in
  match first_overlap regions with
  | Some index => Err (InvalidMemoryRegion index)
  | None =>
      let '((addresses, lookup), _) :=
        construct_eytzinger_order (S number_of_regions) regions
          (replicate number_of_regions 0, replicate number_of_regions 0%nat) 0 0 in
      Ok (mkUnaligned (common_new regions config v handler) addresses lookup cache_new)
  end.

Definition unaligned_find_region (u : UnalignedMemoryMapping) (addr : Z)
    : UnalignedMemoryMapping * option (nat * MemoryRegion) :=
  match cache_find (cache u) addr with
  | Some index => (u, Some (index, regions (u_common u) !!! index))
  | None =>
      let index :=
        eytzinger_result
          (eytzinger_search (length (region_addresses u)) (region_addresses u) addr 1) in
      if index =? 0 then (u, None)
      else
        let index := region_index_lookup u !!! Z.to_nat (index - 1) in
        let region := regions (u_common u) !!! index in
        (mkUnaligned (u_common u) (region_addresses u) (region_index_lookup u)
           (cache_insert (cache u) (vm_addr_range region) index),
         Some (index, region))
  end.

(** [MemoryMapping::replace_region] has checked the index. *)
Definition unaligned_replace_region (u : UnalignedMemoryMapping) (index : nat)
    (region : MemoryRegion) : UnalignedMemoryMapping * Result unit EbpfError :=
  (mkUnaligned (set_regions (u_common u) (<[index := region]> (regions (u_common u))))
     (region_addresses u) (region_index_lookup u) (cache_flush (cache u)), Ok tt).

(** ** AlignedMemoryMapping *)

Record AlignedMemoryMapping := mkAligned { a_common : CommonMemoryMapping }.

(** The address of the empty slice [&[]] is the compiler's choice. *)
Section Aligned.
Variable empty_slice : Z.

(** [while expected_region_index < regions.len()]: gaps between region indices
    are filled with empty regions. *)
Fixpoint fill_regions (fuel : nat) (regions : list MemoryRegion) (expected : nat)
    : Result (list MemoryRegion) EbpfError :=
  match fuel with
  | O => Ok regions
  | S fuel =>
      match regions !! expected with
      | None => Ok regions
      | Some r =>
          let actual := Z.to_nat (region_index_of r) in
          if (expected <? actual)%nat then
            fill_regions fuel
              (take expected regions
               ++ new_readonly empty_slice 0 (saturating_mul (Z.of_nat expected) MM_REGION_SIZE)
               :: drop expected regions) (expected + 1)
          else if (actual <? expected)%nat then Err (InvalidMemoryRegion (Z.of_nat actual))
          else fill_regions fuel regions (expected + 1)
      end
  end.

(** The loop runs once for every index up to the largest region index. *)
Definition fill_fuel (regions : list MemoryRegion) : nat :=
  (length regions + foldr Nat.max 0 (map (fun r => Z.to_nat (region_index_of r)) regions))%nat.

(** The first position at which the region index is not the position. *)
Fixpoint first_misplaced (index : Z) (l : list MemoryRegion) : option Z :=
  match l with
  | [] => None
  | r :: l' =>
      if negb (region_index_of r =? index) then Some index else first_misplaced (index + 1) l'
  end.

Definition aligned_new (regions : list MemoryRegion) (config : Config) (v : SBPFVersion)
    (handler : AccessViolationHandler) : Result AlignedMemoryMapping EbpfError :=
  let? regions :=
    (if allow_memory_region_zero config then
       let regions := sort_regions regions in
       fill_regions (fill_fuel regions) regions 0
     else
       let regions := sort_regions (new_readonly empty_slice 0 0 :: regions) in
       match first_misplaced 0 regions with
       | Some index => Err (InvalidMemoryRegion index)
       | None => Ok regions
       end) in
  Ok (mkAligned (common_new regions config v handler)).

End Aligned.

Definition aligned_find_region (m : AlignedMemoryMapping) (addr : Z) : option (nat * MemoryRegion) :=
  let index := Z.to_nat (wrapping_shr 64 addr VIRTUAL_ADDRESS_BITS) in
  if (index <? length (regions (a_common m)))%nat
     && ((0 <? index)%nat || cm_allow_memory_region_zero (a_common m))
  then Some (index, regions (a_common m) !!! index)
  else None.

Definition aligned_replace_region (m : AlignedMemoryMapping) (index : nat) (region : MemoryRegion)
    : AlignedMemoryMapping * Result unit EbpfError :=
  let begin_index := Z.to_nat (region_index_of region) in
  let end_index :=
    Z.to_nat (checked_shr_or_0
      (saturating_add (vm_addr region) (saturating_sub (region_len region) 1))
      VIRTUAL_ADDRESS_BITS) in
  if negb (begin_index =? index)%nat || negb (end_index =? index)%nat
  then (m, Err (InvalidMemoryRegion (Z.of_nat index)))
  else (mkAligned (set_regions (a_common m) (<[index := region]> (regions (a_common m)))), Ok tt).

(** ** MemoryMapping *)

Inductive MemoryMapping :=
| Identity
| Aligned (m : AlignedMemoryMapping)
| Unaligned (m : UnalignedMemoryMapping).

Definition mapping_new_with_access_violation_handler (empty_slice : Z)
    (regions : list MemoryRegion) (config : Config) (v : SBPFVersion)
    (handler : AccessViolationHandler) : Result MemoryMapping EbpfError :=
  if version_leb V4 v || aligned_memory_mapping config
  then let? m := aligned_new empty_slice regions config v handler in Ok (Aligned m)
  else let? m := unaligned_new regions config v handler in Ok (Unaligned m).

Definition mapping_new (empty_slice : Z) (regions : list MemoryRegion) (config : Config)
    (v : SBPFVersion) : Result MemoryMapping EbpfError :=
  mapping_new_with_access_violation_handler empty_slice regions config v
    default_access_violation_handler.

Definition mapping_common (m : MemoryMapping) : option CommonMemoryMapping :=
  match m with
  | Identity => None
  | Aligned m => Some (a_common m)
  | Unaligned m => Some (u_common m)
  end.

Definition get_regions (m : MemoryMapping) : list MemoryRegion :=
  match m with
  | Identity => []
  | Aligned m => regions (a_common m)
  | Unaligned m => regions (u_common m)
  end.

Definition get_access_tracker (m : MemoryMapping) : option MemoryAccessTracker :=
  match m with
  | Identity => None
  | Aligned m => Some (access_tracker (a_common m))
  | Unaligned m => Some (access_tracker (u_common m))
  end.

(** A method of the tracker called through the shared reference. *)
Definition with_access_tracker (f : MemoryAccessTracker -> MemoryAccessTracker)
    (m : MemoryMapping) : MemoryMapping :=
  match m with
  | Identity => Identity
  | Aligned m => Aligned (mkAligned (set_tracker (a_common m) (f (access_tracker (a_common m)))))
  | Unaligned m =>
      Unaligned (mkUnaligned (set_tracker (u_common m) (f (access_tracker (u_common m))))
        (region_addresses m) (region_index_lookup m) (cache m))
  end.

Definition find_region (m : MemoryMapping) (addr : Z) : MemoryMapping * option (nat * MemoryRegion) :=
  match m with
  | Identity => (m, None)
  | Aligned a => (m, aligned_find_region a addr)
  | Unaligned u => let '(u, r) := unaligned_find_region u addr in (Unaligned u, r)
  end.

(** [regions.get(index + 1).map_or(u64::MAX, |next_region| next_region.vm_addr)]. *)
Definition next_region_start (rs : list MemoryRegion) (index : nat) : Z :=
  match rs !! S index with Some next_region => vm_addr next_region | None => u64_MAX end.

Definition replace_region (m : MemoryMapping) (index : nat) (region : MemoryRegion)
    : MemoryMapping * Result unit EbpfError :=
  let rs := get_regions m in
  if (length rs <=? index)%nat
     || negb (vm_addr (rs !!! index) =? vm_addr region)
     || (next_region_start rs index <? r_end (vm_addr_range region))
  then (m, Err (InvalidMemoryRegion (Z.of_nat index)))
  else
    match m with
    | Identity => (m, Err (InvalidMemoryRegion (Z.of_nat index)))
    | Aligned a => let '(a, r) := aligned_replace_region a index region in (Aligned a, r)
    | Unaligned u => let '(u, r) := unaligned_replace_region u index region in (Unaligned u, r)
    end.

Definition mapping_map (m : MemoryMapping) (access_type : AccessType) (addr len : Z)
    : MemoryMapping * ProgramResult :=
  let m :=
    if bool_decide (access_type = Load)
    then with_access_tracker (fun t => check_access t addr len) m else m in
  let '(m, found) := find_region m addr in
  let translated :=
    match found with
    | Some (_, region) => vm_to_host region access_type addr len
    | None => None
    end in
  match translated with
  | Some host_addr => (m, Ok host_addr)
  | None =>
      match mapping_common m with
      | None => (m, Ok addr)
      | Some common => (m, generate_access_violation common access_type addr len)
      end
  end.

Definition map_with_access_violation_handler (m : MemoryMapping) (host : HostMemory)
    (access_type : AccessType) (addr len : Z) : MemoryMapping * HostMemory * ProgramResult :=
  match mapping_common m with
  | None => (m, host, Ok addr)
  | Some common =>
      let '(m, found) := find_region m addr in
      match found with
      | None => (m, host, generate_access_violation common access_type addr len)
      | Some (index, region) =>
          match vm_to_host region access_type addr len with
          | Some host_addr => (m, host, Ok host_addr)
          | None =>
              let max_len :=
                saturating_sub (next_region_start (get_regions m) index) (vm_addr region) in
              let '(host, region) :=
                access_violation_handler common host region max_len access_type addr len in
              match vm_to_host region access_type addr len with
              | Some host_addr =>
                  match replace_region m index region with
                  | (m, Err err) => (m, host, Err err)
                  | (m, Ok _) => (m, host, Ok host_addr)
                  end
              | None => (m, host, generate_access_violation common access_type addr len)
              end
          end
      end
  end.

(** [load::<T>] with [size_of::<T>() = size], zero-extended to [u64]. *)
Definition mapping_load (size : nat) (m : MemoryMapping) (host : HostMemory) (addr : Z)
    : option (MemoryMapping * HostMemory * ProgramResult) :=
  let len := Z.of_nat size in
  let m := with_access_tracker (fun t => check_access t addr len) m in
  match map_with_access_violation_handler m host Load addr len with
  | (m, host, Ok host_addr) =>
      let! bs := host_read host host_addr size in
      Some (m, host, Ok (le_combine bs))
  | (m, host, Err err) => Some (m, host, Err err)
  end.

Definition mapping_store (size : nat) (m : MemoryMapping) (host : HostMemory) (value addr : Z)
    : option (MemoryMapping * HostMemory * ProgramResult) :=
  let len := Z.of_nat size in
  match map_with_access_violation_handler m host Store addr len with
  | (m, host, Ok host_addr) =>
      let! host := host_write host host_addr (le_split size value) in
      Some (m, host, Ok host_addr)
  | (m, host, Err err) => Some (m, host, Err err)
  end.

(** ** Specification of region lookup *)

(** The reference definition of the search: the last region that starts at or
    below the address. *)
Definition linear_find (rs : list MemoryRegion) (addr : Z) : option nat :=
  last (filter (fun i => vm_addr (rs !!! i) <= addr) (seq 0 (length rs))).

(** Regions in order of address, none starting before the previous one ends. *)
Definition regions_sorted (rs : list MemoryRegion) : Prop :=
  forall i r r', rs !! i = Some r -> rs !! S i = Some r' -> r_end (vm_addr_range r) <= vm_addr r'.

Lemma vm_addr_range_ge r : region_ok r -> vm_addr r <= r_end (vm_addr_range r).
Proof.
  intros [Hv Hl _ _]. unfold vm_addr_range.
  destruct (vm_gap_shift r =? 63); cbn [r_end]; int_lia.
Qed.

Lemma regions_sorted_lt rs i j r r' :
  Forall region_ok rs -> regions_sorted rs -> (i < j)%nat ->
  rs !! i = Some r -> rs !! j = Some r' -> r_end (vm_addr_range r) <= vm_addr r'.
Proof.
  intros Hok Hs Hij Hi. revert r'. induction Hij as [|j Hij IH]; intros r' Hj; [by eapply Hs|].
  destruct (lookup_lt_is_Some_2 rs j) as [x Hx]; [apply lookup_lt_Some in Hj; lia|].
  pose proof (Hs j x r' Hx Hj). specialize (IH x Hx).
  pose proof (vm_addr_range_ge x (Forall_lookup_1 _ _ _ _ Hok Hx)). lia.
Qed.

Lemma regions_sorted_split rs addr :
  Forall region_ok rs -> regions_sorted rs -> exists c, (c <= length rs)%nat /\ split_at rs addr c.
Proof.
  intros Hok Hs. unfold split_at.
  assert (forall n, (n <= length rs)%nat -> exists c, (c <= n)%nat /\
    forall k r, (k < n)%nat -> rs !! k = Some r -> vm_addr r <= addr <-> (k < c)%nat) as H.
  { induction n as [|n IH]; intros Hn; [exists 0%nat; split; [lia|intros; lia]|].
    destruct IH as (c & Hc & Hsp); [lia|].
    destruct (lookup_lt_is_Some_2 rs n) as [x Hx]; [lia|].
    destruct (decide (vm_addr x <= addr)) as [Hle|Hgt].
    - exists (S n). split; [lia|]. intros k r Hk Hr. split; [lia|intros _].
      destruct (decide (k = n)) as [->|]; [by simplify_eq|].
      pose proof (regions_sorted_lt rs k n r x Hok Hs ltac:(lia) Hr Hx).
      pose proof (vm_addr_range_ge r (Forall_lookup_1 _ _ _ _ Hok Hr)). lia.
    - exists c. split; [lia|]. intros k r Hk Hr. destruct (decide (k = n)) as [->|].
      + simplify_eq. lia.
      + apply Hsp; [lia|done]. }
  destruct (H (length rs) (le_n _)) as (c & Hc & Hsp). exists c. split; [done|].
  intros k r Hr. apply Hsp; [by eapply lookup_lt_Some|done].
Qed.

Lemma filter_seq (P : nat -> Prop) `{forall i, Decision (P i)} c start n :
  (forall i, (start <= i < start + n)%nat -> P i <-> (i < c)%nat) ->
  filter P (seq start n) = seq start (Nat.min n (c - start)).
Proof.
  revert start; induction n as [|n IH]; intros start HP; [done|].
  cbn [seq]. rewrite filter_cons. rewrite (IH (S start)) by (intros; apply HP; lia).
  destruct (decide (P start)) as [Hp|Hp]; rewrite HP in Hp by lia.
  - replace (Nat.min (S n) (c - start)) with (S (Nat.min n (c - S start))) by lia. done.
  - replace (Nat.min (S n) (c - start)) with 0%nat by lia.
    by replace (Nat.min n (c - S start)) with 0%nat by lia.
Qed.

Lemma linear_find_split rs addr c :
  (c <= length rs)%nat -> split_at rs addr c ->
  linear_find rs addr = match c with O => None | S c' => Some c' end.
Proof.
  intros Hc Hs. unfold linear_find. rewrite (filter_seq _ c).
  - rewrite Nat.sub_0_r, Nat.min_r by done. destruct c as [|c]; [done|].
    by rewrite seq_S, last_snoc.
  - intros i Hi. destruct (lookup_lt_is_Some_2 rs i) as [r Hr]; [lia|].
    rewrite (list_lookup_total_correct _ _ _ Hr). by apply Hs.
Qed.

Lemma linear_find_unique rs addr i r :
  Forall region_ok rs -> regions_sorted rs -> rs !! i = Some r ->
  vm_addr r <= addr < r_end (vm_addr_range r) -> linear_find rs addr = Some i.
Proof.
  intros Hok Hs Hi Ha.
  rewrite (linear_find_split rs addr (S i)); [done|by apply lookup_lt_Some in Hi|].
  intros k x Hk. destruct (lt_eq_lt_dec k i) as [[Hlt| ->]|Hgt].
  - pose proof (regions_sorted_lt rs k i x r Hok Hs Hlt Hk Hi).
    pose proof (vm_addr_range_ge x (Forall_lookup_1 _ _ _ _ Hok Hk)). lia.
  - simplify_eq. lia.
  - pose proof (regions_sorted_lt rs i k r x Hok Hs Hgt Hi Hk). lia.
Qed.

Lemma linear_find_Some rs addr i :
  linear_find rs addr = Some i ->
  exists r, rs !! i = Some r /\ vm_addr r <= addr.
Proof.
  unfold linear_find. intros H. apply last_Some_elem_of, list_elem_of_filter in H as [Hle Hin].
  apply elem_of_seq in Hin. destruct (lookup_lt_is_Some_2 rs i) as [r Hr]; [lia|].
  rewrite (list_lookup_total_correct _ _ _ Hr) in Hle. by exists r.
Qed.

(** ** The cache *)

(** Every entry that can hit is the current range of a region. *)
Record cache_ok (rs : list MemoryRegion) (c : MappingCache) : Prop := {
  cache_length : length (entries c) = 4%nat;
  cache_head : 0 <= head c < 4;
  cache_entries : forall rg i, (rg, i) ∈ entries c ->
    range_is_empty rg = true \/ exists r, rs !! i = Some r /\ rg = vm_addr_range r
}.

Lemma cache_ok_new rs : cache_ok rs cache_new.
Proof.
  split; [done|cbn; lia|]. intros rg i H. left.
  cbn in H. by repeat (apply elem_of_cons in H as [H|H]; [by simplify_eq|]); apply not_elem_of_nil in H.
Qed.

Lemma cache_ok_insert rs c i r :
  cache_ok rs c -> rs !! i = Some r -> cache_ok rs (cache_insert c (vm_addr_range r) i).
Proof.
  intros [Hl Hh He] Hr. unfold cache_insert, CACHE_SIZE. split; cbn.
  - by rewrite length_insert.
  - apply Z.mod_pos_bound. lia.
  - intros rg j H. apply list_elem_of_lookup in H as [k Hk].
    apply list_lookup_insert_Some in Hk as [(_ & Hk & _)|[_ Hk]].
    + simplify_eq. right. by exists r.
    + apply He. by eapply list_elem_of_lookup_2.
Qed.

Lemma cache_find_Some rs c addr i :
  cache_ok rs c -> cache_find c addr = Some i ->
  exists r, rs !! i = Some r /\ range_contains (vm_addr_range r) addr = true.
Proof.
  intros [Hl Hh He]. unfold cache_find. induction (seqZ 0 CACHE_SIZE) as [|k ks IH]; [done|].
  cbn [cache_find_from].
  destruct (lookup_lt_is_Some_2 (entries c) (Z.to_nat (wrapping_add (head c) k mod CACHE_SIZE)))
    as [[rg j] Hj].
  { rewrite Hl. unfold CACHE_SIZE. pose proof (Z.mod_pos_bound (wrapping_add (head c) k) 4). lia. }
  rewrite (list_lookup_total_correct _ _ _ Hj). destruct (range_contains rg addr) eqn:Ec; [|done].
  intros [= <-]. apply list_elem_of_lookup_2, He in Hj as [Hemp|(r & Hr & ->)]; [|by exists r].
  unfold range_is_empty, range_contains in *. bool_to_prop. lia.
Qed.

(** ** Well-formed mappings *)

Record unaligned_ok (u : UnalignedMemoryMapping) : Prop := {
  u_regions_ok : Forall region_ok (regions (u_common u));
  u_sorted : regions_sorted (regions (u_common u));
  u_addresses_length : length (region_addresses u) = length (regions (u_common u));
  u_layout : layout_at (regions (u_common u)) (region_addresses u, region_index_lookup u)
               (S (length (regions (u_common u)))) 0 0;
  u_cache_ok : cache_ok (regions (u_common u)) (cache u);
  u_tracker_ok : tracker_ok (access_tracker (u_common u))
}.

(** The miss branch, without the cache. *)
Lemma unaligned_search_spec u addr :
  unaligned_ok u ->
  let index := eytzinger_result
    (eytzinger_search (length (region_addresses u)) (region_addresses u) addr 1) in
  match linear_find (regions (u_common u)) addr with
  | None => index = 0
  | Some i => index <> 0 /\ region_index_lookup u !!! Z.to_nat (index - 1) = i
  end.
Proof.
  intros [Hok Hs Hl Lay _ _]. set (rs := regions (u_common u)) in *.
  destruct (regions_sorted_split rs addr Hok Hs) as (c & Hc & Hsp).
  rewrite (linear_find_split rs addr c Hc Hsp).
  pose proof (search_spec rs (region_addresses u, region_index_lookup u) addr c
    (S (length rs)) (length (region_addresses u)) 0 0) as H.
  rewrite inorder_length in H. cbn [fst snd] in H.
  specialize (H ltac:(lia) ltac:(lia) Hl Lay Hsp ltac:(lia) ltac:(lia)). cbn zeta in H.
  change (Z.of_nat 0 + 1) with 1 in H. destruct c as [|c].
  - rewrite decide_True in H by done. by rewrite H.
  - rewrite decide_False in H by lia. destruct H as (x & Hx & ->). split; [lia|].
    apply Lay in Hx as [Hx _]. cbn [snd] in Hx.
    replace (Z.to_nat (Z.of_nat x + 1 - 1)) with x by lia.
    rewrite (list_lookup_total_correct _ _ _ Hx). lia.
Qed.

Lemma unaligned_find_region_ok u addr :
  unaligned_ok u ->
  let res := unaligned_find_region u addr in
  res.2 = (i ← linear_find (regions (u_common u)) addr;
           r ← regions (u_common u) !! i; Some (i, r)) /\
  unaligned_ok res.1 /\ u_common res.1 = u_common u.
Proof.
  intros Hu. pose proof (unaligned_search_spec u addr Hu) as Hsearch.
  pose proof Hu as [Hok Hs Hl Lay Hcache Htr]. unfold unaligned_find_region.
  destruct (cache_find (cache u) addr) as [i|] eqn:Ec.
  - cbn. apply cache_find_Some with (rs := regions (u_common u)) in Ec as (r & Hr & Hin); [|done].
    unfold range_contains in Hin. bool_to_prop.
    assert (r_start (vm_addr_range r) = vm_addr r) as Es
      by (unfold vm_addr_range; by destruct (vm_gap_shift r =? 63)).
    rewrite (linear_find_unique _ _ i r Hok Hs Hr) by lia. cbn.
    rewrite Hr, (list_lookup_total_correct _ _ _ Hr). done.
  - cbn zeta in Hsearch. set (index := eytzinger_result _) in *.
    destruct (linear_find (regions (u_common u)) addr) as [i|] eqn:Ef.
    + destruct Hsearch as [Hne Ei]. rewrite (proj2 (Z.eqb_neq _ _) Hne). rewrite Ei.
      apply linear_find_Some in Ef as (r & Hr & _). cbn. rewrite Hr.
      rewrite (list_lookup_total_correct _ _ _ Hr). split; [done|]. split; [|done].
      split; [done..|by apply cache_ok_insert|done].
    + rewrite Hsearch. cbn. done.
Qed.

(** ** Construction *)

Lemma insert_region_perm r l : insert_region r l ≡ₚ r :: l.
Proof.
  induction l as [|x l IH]; [done|]. cbn. destruct (vm_addr r <=? vm_addr x); [done|].
  rewrite IH. by constructor.
Qed.

Lemma sort_regions_perm l : sort_regions l ≡ₚ l.
Proof. induction l as [|x l IH]; [done|]. cbn. by rewrite insert_region_perm, IH. Qed.

Lemma check_overlap_None k prev l :
  check_overlap k prev l = None -> regions_sorted (prev :: l).
Proof.
  revert k prev; induction l as [|x l IH]; intros k prev H; cbn in H.
  { intros [|i] r r' Hi Hj; by cbn in *. }
  destruct (Z.ltb_spec (vm_addr x) (r_end (vm_addr_range prev))) as [|Hle]; [done|].
  apply IH in H. intros [|i] r r' Hi Hj; cbn in *; [by simplify_eq|]. by apply (H i).
Qed.

Lemma unaligned_new_ok rs config v handler u :
  Forall region_ok rs -> unaligned_new rs config v handler = Ok u ->
  unaligned_ok u /\ regions (u_common u) ≡ₚ rs /\ access_tracker (u_common u) = tracker_new /\
  access_violation_handler (u_common u) = handler.
Proof.
  intros Hok. unfold unaligned_new. pose proof (sort_regions_perm rs) as Hp.
  set (sorted := sort_regions rs) in *. destruct (first_overlap sorted) as [|] eqn:Eo; [done|].
  assert (regions_sorted sorted) as Hs.
  { destruct sorted as [|x l]; [intros i ? ? Hi; by rewrite lookup_nil in Hi|].
    by eapply check_overlap_None. }
  pose proof (construct_spec (S (length sorted)) sorted
    (replicate (length sorted) 0, replicate (length sorted) 0%nat) 0 0 ltac:(lia)) as Hc.
  cbn [fst snd] in Hc. rewrite !length_replicate in Hc.
  destruct (Hc eq_refl eq_refl) as (_ & Lay & _ & L1 & L2).
  destruct (construct_eytzinger_order _ _ _ _ _) as [[addrs lk] n]. cbn [fst snd] in *.
  intros [= <-]. cbn. split; [|done]. split; cbn; auto using cache_ok_new with gobble.
  by rewrite Hp.
Qed.

Record aligned_ok (m : AlignedMemoryMapping) : Prop := {
  a_regions_ok : Forall region_ok (regions (a_common m));
  a_indexed : forall i r, regions (a_common m) !! i = Some r -> region_index_of r = Z.of_nat i;
  a_tracker_ok : tracker_ok (access_tracker (a_common m))
}.

Lemma region_index_of_eq r : region_index_of r = vm_addr r / 2 ^ 32.
Proof. unfold region_index_of, checked_shr_or_0. cbn. by rewrite Z.shiftr_div_pow2. Qed.

Lemma region_index_of_range r : region_ok r -> 0 <= region_index_of r < 2 ^ 32.
Proof. intros [Hv _ _ _]. rewrite region_index_of_eq. int_lia. Qed.

Lemma first_misplaced_None k l :
  first_misplaced k l = None ->
  forall i r, l !! i = Some r -> region_index_of r = k + Z.of_nat i.
Proof.
  revert k; induction l as [|x l IH]; intros k H i r Hi; [done|].
  cbn [first_misplaced] in H.
  destruct (Z.eqb_spec (region_index_of x) k) as [E|]; cbn [negb] in H; [|done].
  destruct i as [|i]; cbn in Hi; [simplify_eq; lia|]. rewrite (IH _ H i r Hi). lia.
Qed.

Section Fill.
Context (empty_slice : Z) (empty_slice_ok : is_u64 empty_slice).

Lemma empty_region_ok a : is_u64 a -> region_ok (new_readonly empty_slice 0 a).
Proof. unfold is_u in *. split; cbn; unfold is_u; lia. Qed.

Lemma fill_region_index k :
  Z.of_nat k < 2 ^ 32 ->
  is_u64 (saturating_mul (Z.of_nat k) MM_REGION_SIZE) /\
  region_index_of (new_readonly empty_slice 0 (saturating_mul (Z.of_nat k) MM_REGION_SIZE))
  = Z.of_nat k.
Proof.
  intros Hk. rewrite region_index_of_eq. cbn [new_readonly region_new vm_addr].
  change MM_REGION_SIZE with (2 ^ 32).
  assert (saturating_mul (Z.of_nat k) (2 ^ 32) = Z.of_nat k * 2 ^ 32) as -> by int_lia.
  rewrite Z.div_mul by lia. split; [int_lia|done].
Qed.

(** Fuel for every remaining index and region is enough to place them all. *)
Lemma fill_regions_spec top fuel pre rest rs' :
  Forall region_ok pre -> Forall region_ok rest ->
  (forall i r, pre !! i = Some r -> region_index_of r = Z.of_nat i) ->
  Forall (fun r => region_index_of r <= Z.of_nat top) rest ->
  (length rest + (top - length pre) <= fuel)%nat ->
  fill_regions empty_slice fuel (pre ++ rest) (length pre) = Ok rs' ->
  Forall region_ok rs' /\ pre ++ rest ⊆ rs' /\
  forall i r, rs' !! i = Some r -> region_index_of r = Z.of_nat i.
Proof.
  revert pre rest; induction fuel as [|fuel IH]; intros pre rest Hp Hr Hi Ht Hf;
    cbn [fill_regions].
  { intros [= <-]. assert (rest = []) as -> by (destruct rest; cbn in *; [done|lia]).
    rewrite app_nil_r. done. }
  rewrite lookup_app_r, Nat.sub_diag by done.
  destruct rest as [|h t]; [intros [= <-]; by rewrite app_nil_r in *|].
  change ((h :: t) !! 0%nat) with (Some h). cbv beta iota zeta.
  apply Forall_cons in Hr as [Hh Hr], Ht as [Hth Ht]. cbn [length] in Hf.
  pose proof (region_index_of_range h Hh) as Hrange.
  assert (forall r, region_ok r -> region_index_of r = Z.of_nat (length pre) ->
    Forall region_ok (pre ++ [r]) /\
    forall i r', (pre ++ [r]) !! i = Some r' -> region_index_of r' = Z.of_nat i) as Hsnoc.
  { intros r Hok Er. split; [apply Forall_app; auto|]. intros i r' H.
    apply lookup_app_Some in H as [H|[Hge H]]; [by apply Hi|].
    apply list_lookup_singleton_Some in H as [H <-]. rewrite Er. lia. }
  destruct (Nat.ltb_spec (length pre) (Z.to_nat (region_index_of h))) as [Hlt|Hge].
  - rewrite take_app_length, drop_app_length. set (e := new_readonly _ _ _).
    destruct (fill_region_index (length pre)) as [Hu Ee]; [lia|]. fold e in Ee.
    destruct (Hsnoc e (empty_region_ok _ Hu) Ee) as [Hok' Hi'].
    replace (pre ++ e :: h :: t) with ((pre ++ [e]) ++ h :: t) by by rewrite <- app_assoc.
    replace (length pre + 1)%nat with (length (pre ++ [e])) by (rewrite length_app; done).
    intros H. apply IH in H as (H1 & H2 & H3); [|by auto..|rewrite length_app; cbn; lia].
    split; [done|]. split; [|done]. intros x Hx. apply H2.
    rewrite !elem_of_app in *. naive_solver.
  - destruct (Nat.ltb_spec (Z.to_nat (region_index_of h)) (length pre)) as [|Hge']; [done|].
    destruct (Hsnoc h Hh ltac:(lia)) as [Hok' Hi'].
    replace (pre ++ h :: t) with ((pre ++ [h]) ++ t) by by rewrite <- app_assoc.
    replace (length pre + 1)%nat with (length (pre ++ [h])) by (rewrite length_app; done).
    apply IH; [done..|]. rewrite length_app. cbn. lia.
Qed.

Lemma foldr_max_le (l : list nat) x : x ∈ l -> (x <= foldr Nat.max 0 l)%nat.
Proof. induction 1; cbn; lia. Qed.

Lemma aligned_new_ok rs config v handler m :
  Forall region_ok rs -> aligned_new empty_slice rs config v handler = Ok m ->
  aligned_ok m /\ rs ⊆ regions (a_common m) /\ access_tracker (a_common m) = tracker_new /\
  access_violation_handler (a_common m) = handler.
Proof.
  intros Hok. unfold aligned_new. destruct (allow_memory_region_zero config).
  - pose proof (sort_regions_perm rs) as Hp. set (sorted := sort_regions rs) in *.
    destruct (fill_regions _ _ _ _) as [rs'|] eqn:E; [|done]. intros [= <-]. cbn.
    assert (Forall region_ok sorted) as Hso by by rewrite Hp.
    set (top := foldr Nat.max 0%nat (map (fun r => Z.to_nat (region_index_of r)) sorted)) in *.
    apply (fill_regions_spec top _ [] sorted) in E as (H1 & H2 & H3);
      [|constructor|done|intros i r Hi; by rewrite lookup_nil in Hi| |].
    + split; [by split; cbn; auto with gobble|]. split; [|done].
      intros x Hx. apply H2. cbn. by rewrite Hp.
    + apply Forall_forall. intros r Hr.
      pose proof (region_index_of_range r (proj1 (Forall_forall _ _) Hso r Hr)).
      enough (Z.to_nat (region_index_of r) <= top)%nat by lia.
      apply foldr_max_le, list_elem_of_fmap. by exists r.
    + unfold fill_fuel. fold top. cbn. lia.
  - pose proof (sort_regions_perm (new_readonly empty_slice 0 0 :: rs)) as Hp.
    set (sorted := sort_regions _) in *. clearbody sorted.
    destruct (first_misplaced 0 sorted) eqn:E; [done|]. intros [= <-]. cbn.
    split; [|split; [intros x Hx; rewrite Hp; by right|done]]. split; cbn; auto with gobble.
    + rewrite Hp. constructor; [apply empty_region_ok; int_lia|done].
    + intros i r Hi. by apply (first_misplaced_None 0 sorted).
Qed.

End Fill.

(** ** Properties *)

(** C37. Region lookup. After any sequence of earlier lookups, the cached
    Eytzinger search of a freshly built mapping finds the region that a linear
    search over the sorted regions finds: the last one that starts at or below
    the address. *)
Theorem unaligned_find_region_linear (rs : list MemoryRegion) (config : Config)
    (v : SBPFVersion) (handler : AccessViolationHandler) (u : UnalignedMemoryMapping)
    (earlier : list Z) (addr : Z) :
  Forall region_ok rs -> unaligned_new rs config v handler = Ok u ->
  (unaligned_find_region (fold_left (fun u a => (unaligned_find_region u a).1) earlier u) addr).2
  = (i ← linear_find (regions (u_common u)) addr; r ← regions (u_common u) !! i; Some (i, r)).
Proof.
  intros Hok Hnew. apply unaligned_new_ok in Hnew as (Hu & _); [|done].
  revert u Hu. induction earlier as [|a earlier IH]; intros u Hu.
  - by apply unaligned_find_region_ok.
  - destruct (unaligned_find_region_ok u a Hu) as (_ & Hu' & Ec). cbn. by rewrite IH, Ec.
Qed.

(** Three regions in arbitrary order, with gaps between them. *)
Definition example_regions : list MemoryRegion :=
  [new_writable 0x2000 16 0x300; new_readonly 0x1000 32 0x100; new_writable 0x3000 8 0x200].

Lemma example_regions_ok : Forall region_ok example_regions.
Proof. repeat constructor; vm_compute; done. Qed.

Lemma unaligned_find_region_linear_witness :
  exists u, unaligned_new example_regions Config_default V0 default_access_violation_handler = Ok u /\
  (unaligned_find_region
     (fold_left (fun u a => (unaligned_find_region u a).1) [0x204; 0x308; 0x100; 0x11f; 0x204] u)
     0x30f).2 = Some (2%nat, new_writable 0x2000 16 0x300).
Proof.
  eexists. split; [vm_compute; reflexivity|].
  rewrite (unaligned_find_region_linear example_regions Config_default V0
    default_access_violation_handler _ [0x204; 0x308; 0x100; 0x11f; 0x204] 0x30f
    example_regions_ok); [by vm_compute | by vm_compute].
Defined.
