(* ===== verification/MappingSafe.v ===== *)
(** Correctness of memory mappings: the invariant of [MemoryMapping] and what
    [map], [load] and [store] do to guest and host memory, for any access
    violation handler that keeps the laws of [HandlerOk]. *)

From Stdlib Require Import ZArith Lia Bool.
From S2P Require Import Prelude.
From S2P Require Import SbpfTypes.
From S2P Require Import Ebpf.
From S2P Require Import Tracker.
From S2P Require Import MemoryRegion.
From S2P Require Import Eytzinger.
From S2P Require Import Mapping.

#[local] Open Scope Z_scope.

(** The identity mapping does not confine the guest and is not well formed. *)
Definition mapping_ok (m : MemoryMapping) : Prop :=
  match m with
  | Identity => False
  | Aligned a => aligned_ok a
  | Unaligned u => unaligned_ok u
  end.

(** The index of the region an address belongs to. *)
Definition lookup_region (m : MemoryMapping) (addr : Z) : option nat :=
  match m with
  | Identity => None
  | Aligned a =>
      let i := Z.to_nat (addr / 2 ^ 32) in
      if (i <? length (regions (a_common a)))%nat
         && ((0 <? i)%nat || cm_allow_memory_region_zero (a_common a))
      then Some i else None
  | Unaligned u => linear_find (regions (u_common u)) addr
  end.

Lemma find_region_ok m addr :
  mapping_ok m ->
  let res := find_region m addr in
  res.2 = (i ← lookup_region m addr; r ← get_regions m !! i; Some (i, r)) /\
  mapping_ok res.1 /\ mapping_common res.1 = mapping_common m /\
  get_regions res.1 = get_regions m /\ forall a, lookup_region res.1 a = lookup_region m a.
Proof.
  intros Hm. destruct m as [|a|u]; [done| |]; cbn in Hm; cbn [find_region lookup_region get_regions fst snd].
  - split; [|done]. unfold aligned_find_region, wrapping_shr.
    change (VIRTUAL_ADDRESS_BITS mod 64) with 32. rewrite Z.shiftr_div_pow2 by done.
    set (i := Z.to_nat (addr / 2 ^ 32)). clearbody i.
    destruct (Nat.ltb_spec i (length (regions (a_common a)))) as [Hlt|]; cbn [andb]; [|done].
    destruct ((0 <? i)%nat || _)%bool; cbn [mbind option_bind]; [|done].
    destruct (lookup_lt_is_Some_2 _ _ Hlt) as [r Hr].
    by rewrite Hr, (list_lookup_total_correct _ _ _ Hr).
  - pose proof (unaligned_find_region_ok u addr Hm) as (H1 & H2 & H3).
    destruct (unaligned_find_region u addr) as [u' found]. cbn in *.
    split; [done|]. split; [done|]. by rewrite H3.
Qed.

(** ** Replacing a region *)

Lemma insert_same_vm_addr rs i r k :
  (i < length rs)%nat -> vm_addr (rs !!! i) = vm_addr r ->
  vm_addr (<[i := r]> rs !!! k) = vm_addr (rs !!! k).
Proof.
  intros Hi E. destruct (decide (i = k)) as [<-|Hne].
  - by rewrite list_lookup_total_insert_eq.
  - by rewrite list_lookup_total_insert_ne.
Qed.

Lemma linear_find_ext rs rs' addr :
  length rs = length rs' -> (forall k, vm_addr (rs !!! k) = vm_addr (rs' !!! k)) ->
  linear_find rs addr = linear_find rs' addr.
Proof.
  intros El E. unfold linear_find. rewrite El. f_equal. apply list_filter_iff.
  intros k. by rewrite E.
Qed.

Lemma layout_at_ext rs rs' st fuel o base :
  length rs = length rs' -> (forall k, vm_addr (rs !!! k) = vm_addr (rs' !!! k)) ->
  layout_at rs st fuel o base -> layout_at rs' st fuel o base.
Proof. intros El E Lay j x. rewrite <- El, <- E. apply Lay. Qed.

Lemma regions_sorted_insert rs i r :
  regions_sorted rs -> vm_addr (rs !!! i) = vm_addr r -> (i < length rs)%nat ->
  r_end (vm_addr_range r) <= next_region_start rs i ->
  regions_sorted (<[i := r]> rs).
Proof.
  intros Hs Ev Hi Hend j x y Hx Hy.
  apply list_lookup_insert_Some in Hx as [(<- & <- & _)|[Hne Hx]].
  - rewrite list_lookup_insert_ne in Hy by lia. unfold next_region_start in Hend.
    by rewrite Hy in Hend.
  - apply list_lookup_insert_Some in Hy as [(-> & <- & _)|[_ Hy]]; [|by apply (Hs j)].
    destruct (lookup_lt_is_Some_2 rs (S j) Hi) as [z Hz].
    rewrite (list_lookup_total_correct _ _ _ Hz) in Ev. rewrite <- Ev. by apply (Hs j).
Qed.

(** The part of a mapping that replacing a region keeps. *)
Definition same_frame (m m' : MemoryMapping) : Prop :=
  get_access_tracker m' = get_access_tracker m /\
  option_map access_violation_handler (mapping_common m') =
  option_map access_violation_handler (mapping_common m).

Lemma replace_region_ok m i r m' res :
  mapping_ok m -> region_ok r -> replace_region m i r = (m', res) ->
  match res with
  | Err _ => m' = m
  | Ok _ =>
      mapping_ok m' /\ get_regions m' = <[i := r]> (get_regions m) /\
      (i < length (get_regions m))%nat /\
      (forall a, lookup_region m' a = lookup_region m a) /\ same_frame m m'
  end.
Proof.
  intros Hm Hr. unfold replace_region.
  destruct (_ || _ || _)%bool eqn:Eg; [by intros [= <- <-]|]. bool_to_prop.
  match goal with H : (_ <=? _)%nat = false |- _ => apply Nat.leb_gt in H as Hi end.
  destruct m as [|a|u]; [done| |]; cbn [get_regions mapping_ok] in *.
  - unfold aligned_replace_region.
    destruct (_ || _)%bool eqn:Ei; [by intros [= <- <-]|]. intros [= <- <-].
    bool_to_prop. match goal with H : (Z.to_nat (region_index_of r) =? i)%nat = true |- _ =>
      apply Nat.eqb_eq in H as Eb end.
    destruct Hm as [Hm1 Hm2 Hm3]. pose proof (region_index_of_range r Hr).
    split; [split; [by apply Forall_insert| |done]|].
    + cbn [a_common set_regions regions]. intros j x Hj. apply list_lookup_insert_Some in Hj as [(<- & <- & _)|[_ Hj]]; [lia|by apply Hm2].
    + cbn. by rewrite length_insert.
  - cbn. intros [= <- <-]. destruct Hm as [Hm1 Hm2 Hm3 Hm4 Hm5 Hm6]. cbn.
    assert (forall k, vm_addr (regions (u_common u) !!! k) =
      vm_addr (<[i := r]> (regions (u_common u)) !!! k)) as Ek
      by (intros k; by rewrite insert_same_vm_addr).
    split; [split; cbn|split; [done|split; [done|split; [|done]]]].
    + by apply Forall_insert.
    + by apply regions_sorted_insert.
    + by rewrite length_insert.
    + rewrite length_insert. apply (layout_at_ext (regions (u_common u))); [by rewrite length_insert|done..].
    + apply cache_ok_new.
    + done.
    + intros x. apply linear_find_ext; [by rewrite length_insert|]. intros k. by rewrite Ek.
Qed.

(** ** Access violation handlers *)

(** Host byte ranges without a common byte. *)
Definition host_disjoint (a n b k : Z) : Prop :=
  n <= 0 \/ k <= 0 \/ a + n <= b \/ b + k <= a.

(** Host memory holds bytes. *)
Definition host_bytes (host : HostMemory) : Prop := map_Forall (fun _ b => is_u8 b) host.

(** What a mapping relies on when it calls its handler: the handler returns a
    region over allocated memory, and it may free or move only the memory of the
    region it was given. *)
Class HandlerOk (h : AccessViolationHandler) : Prop := {
  handler_region_ok host r max_len ty a n host' r' :
    region_ok r -> h host r max_len ty a n = (host', r') -> region_ok r';
  handler_allocated host r max_len ty a n host' r' :
    region_ok r -> h host r max_len ty a n = (host', r') ->
    allocated host (host_addr r) (region_len r) -> allocated host' (host_addr r') (region_len r');
  handler_frame host r max_len ty a n host' r' b k :
    region_ok r -> h host r max_len ty a n = (host', r') ->
    allocated host b k -> host_disjoint (host_addr r) (region_len r) b k ->
    allocated host' b k /\ host_disjoint (host_addr r') (region_len r') b k;
  handler_bytes host r max_len ty a n host' r' :
    h host r max_len ty a n = (host', r') -> host_bytes host -> host_bytes host'
}.

#[export] Instance default_handler_ok : HandlerOk default_access_violation_handler.
Proof. split; unfold default_access_violation_handler; intros; by simplify_eq. Qed.

(** The handler of the mapping is one of these. *)
Definition mapping_handler_ok (m : MemoryMapping) : Prop :=
  forall c, mapping_common m = Some c -> HandlerOk (access_violation_handler c).

(** Every region lies in allocated memory of its own. *)
Record backed (rs : list MemoryRegion) (host : HostMemory) : Prop := {
  backed_allocated i r : rs !! i = Some r -> allocated host (host_addr r) (region_len r);
  backed_disjoint i j r s : i <> j -> rs !! i = Some r -> rs !! j = Some s ->
    host_disjoint (host_addr r) (region_len r) (host_addr s) (region_len s);
  backed_bytes : host_bytes host
}.

(** [backed] on concrete memories is decided by evaluation. *)
Definition backedb (rs : list MemoryRegion) (host : HostMemory) : bool :=
  forallb (fun r => forallb (fun b => bool_decide (is_Some (host !! b)))
                      (seqZ (host_addr r) (region_len r))) rs
  && forallb (fun i => forallb (fun j =>
       let r := rs !!! i in let s := rs !!! j in
       (i =? j)%nat || (region_len r <=? 0) || (region_len s <=? 0)
       || (host_addr r + region_len r <=? host_addr s)
       || (host_addr s + region_len s <=? host_addr r)) (seq 0 (length rs))) (seq 0 (length rs))
  && forallb (fun e => (0 <=? e.2) && (e.2 <? 256)) (map_to_list host).

Lemma backedb_sound rs host : backedb rs host = true -> backed rs host.
Proof.
  unfold backedb. intros H. apply andb_true_iff in H as [H H3]. apply andb_true_iff in H as [H1 H2].
  rewrite forallb_forall in H1, H2, H3. split.
  - intros i r Hi b Hb. specialize (H1 r (proj1 (list_elem_of_In _ _) (list_elem_of_lookup_2 _ _ _ Hi))).
    rewrite forallb_forall in H1. apply (bool_decide_eq_true (is_Some (host !! b))), H1.
    apply list_elem_of_In, elem_of_seqZ. lia.
  - intros i j r s Hne Hi Hj.
    pose proof (lookup_lt_Some _ _ _ Hi). pose proof (lookup_lt_Some _ _ _ Hj).
    specialize (H2 i ltac:(apply list_elem_of_In, elem_of_seq; lia)).
    rewrite forallb_forall in H2.
    specialize (H2 j ltac:(apply list_elem_of_In, elem_of_seq; lia)).
    rewrite (list_lookup_total_correct _ _ _ Hi), (list_lookup_total_correct _ _ _ Hj) in H2.
    rewrite !orb_true_iff, !Z.leb_le, Nat.eqb_eq in H2. unfold host_disjoint. intuition lia.
  - intros x b Hx. specialize (H3 (x, b)). cbn in H3. unfold is_u.
    apply elem_of_map_to_list, list_elem_of_In in Hx. apply H3 in Hx.
    apply andb_true_iff in Hx. rewrite Z.leb_le, Z.ltb_lt in Hx. change (2 ^ 8) with 256. lia.
Qed.

Lemma host_disjoint_sym a n b k : host_disjoint a n b k -> host_disjoint b k a n.
Proof. unfold host_disjoint. lia. Qed.

Lemma backed_handler h rs host host' i r r' max_len ty a n :
  HandlerOk h -> backed rs host -> rs !! i = Some r -> region_ok r ->
  h host r max_len ty a n = (host', r') -> backed (<[i := r']> rs) host'.
Proof.
  intros Hh [Ha Hd Hby] Hi Hr E. pose proof (lookup_lt_Some _ _ _ Hi) as Hlt.
  assert (forall j s, i <> j -> rs !! j = Some s ->
    allocated host' (host_addr s) (region_len s) /\
    host_disjoint (host_addr r') (region_len r') (host_addr s) (region_len s)) as Hother.
  { intros j s Hne Hj. eapply handler_frame; [exact Hr|exact E|by eapply Ha|by eapply Hd]. }
  split.
  - intros j s Hj. apply list_lookup_insert_Some in Hj as [(<- & <- & _)|[Hne Hj]].
    + eapply handler_allocated; [exact Hr|exact E|by eapply Ha].
    + by eapply Hother.
  - intros j k s t Hne Hj Hk.
    apply list_lookup_insert_Some in Hj as [(<- & <- & _)|[Hnj Hj]];
    apply list_lookup_insert_Some in Hk as [(<- & <- & _)|[Hnk Hk]]; [done|..].
    + by eapply Hother.
    + apply host_disjoint_sym. by eapply Hother.
    + by eapply (Hd j k).
  - by eapply handler_bytes.
Qed.


(** ** Translation through a mapping *)

Lemma mapping_common_regions m c : mapping_common m = Some c -> get_regions m = regions c.
Proof. destruct m; cbn; intros; by simplify_eq. Qed.

Lemma mapping_regions_ok m i r : mapping_ok m -> get_regions m !! i = Some r -> region_ok r.
Proof.
  destruct m as [|a|u]; cbn; [done|intros [H _ _]|intros [H _ _ _ _ _]];
    intros Hi; by eapply (Forall_lookup_1 _ _ _ _ H).
Qed.

Lemma mapping_ok_common m : mapping_ok m -> exists c, mapping_common m = Some c.
Proof. destruct m; cbn; naive_solver. Qed.

(** A guest access translates to a host address. *)
Definition translates (m : MemoryMapping) (ty : AccessType) (addr n h : Z) : Prop :=
  exists i r, lookup_region m addr = Some i /\ get_regions m !! i = Some r /\
    vm_to_host r ty addr n = Some h.

Lemma generate_not_ok c ty a n h : generate_access_violation c ty a n <> Ok h.
Proof. unfold generate_access_violation. by destruct (_ && _)%bool. Qed.

Lemma get_access_tracker_common m :
  get_access_tracker m = option_map access_tracker (mapping_common m).
Proof. by destruct m. Qed.

Lemma same_frame_trans m m1 m2 : same_frame m m1 -> same_frame m1 m2 -> same_frame m m2.
Proof. intros [] []. split; congruence. Qed.

Lemma map_with_handler_spec m host ty addr n m' host' res :
  mapping_ok m -> mapping_handler_ok m ->
  map_with_access_violation_handler m host ty addr n = (m', host', res) ->
  mapping_ok m' /\ same_frame m m' /\
  (forall a, lookup_region m' a = lookup_region m a) /\
  forall h, res = Ok h ->
    translates m' ty addr n h /\ (backed (get_regions m) host -> backed (get_regions m') host').
Proof.
  intros Hm Hh. unfold map_with_access_violation_handler.
  destruct (mapping_ok_common m Hm) as [c Ec]. rewrite Ec.
  pose proof (find_region_ok m addr Hm) as (Hf & Hm1 & Hc1 & Hg1 & Hl1).
  destruct (find_region m addr) as [m1 found]. cbn [fst snd] in *.
  assert (same_frame m m1) as Hsf by (split; rewrite ?get_access_tracker_common; by rewrite Hc1).
  pose proof (generate_not_ok c ty addr n) as Hgen.
  destruct (lookup_region m addr) as [i|] eqn:El; cbn in Hf; [|subst found; naive_solver].
  destruct (get_regions m !! i) as [r|] eqn:Er; cbn in Hf; subst found; [|naive_solver].
  pose proof (mapping_regions_ok m i r Hm Er) as Hr.
  destruct (vm_to_host r ty addr n) as [h|] eqn:Eh.
  { intros [= <- <- <-]. do 3 (split; [done|]). intros h' [= <-].
    split; [|by rewrite Hg1]. exists i, r. by rewrite Hl1, Hg1. }
  destruct (access_violation_handler c _ _ _ _ _ _) as [host1 r1] eqn:Ehd.
  pose proof (Hh c Ec) as Hhok. pose proof (handler_region_ok _ _ _ _ _ _ _ _ Hr Ehd) as Hr1.
  destruct (vm_to_host r1 ty addr n) as [h|] eqn:Eh1; [|naive_solver].
  destruct (replace_region m1 i r1) as [m2 res2] eqn:Erep.
  pose proof (replace_region_ok m1 i r1 m2 res2 Hm1 Hr1 Erep) as Hrep.
  destruct res2 as [[]|err]; [|naive_solver].
  destruct Hrep as (Hm2 & Hg2 & Hlt & Hl2 & Hsf2). intros [= <- <- <-].
  split; [done|]. split; [by eapply same_frame_trans|].
  split; [intros a; by rewrite Hl2, Hl1|]. intros h' [= <-]. split.
  - exists i, r1. rewrite Hl2, Hl1, Hg2. by rewrite list_lookup_insert_eq.
  - intros Hb. rewrite Hg2, Hg1. by eapply backed_handler.
Qed.

Lemma translates_bounds m ty addr n h host :
  mapping_ok m -> is_u64 addr -> is_u64 n -> translates m ty addr n h ->
  backed (get_regions m) host -> allocated host h n.
Proof.
  intros Hm Ha Hn (i & r & Hl & Hr & Ht) Hb x Hx.
  pose proof (mapping_regions_ok m i r Hm Hr) as Hok.
  pose proof (vm_to_host_bounds r ty addr n h Hok Ha Hn Ht).
  apply (backed_allocated _ _ Hb i r Hr). lia.
Qed.

(** ** Loads and stores *)

Lemma with_tracker_spec f m :
  (forall t, tracker_ok t -> tracker_ok (f t)) -> mapping_ok m ->
  mapping_ok (with_access_tracker f m) /\
  get_regions (with_access_tracker f m) = get_regions m /\
  (forall a, lookup_region (with_access_tracker f m) a = lookup_region m a) /\
  get_access_tracker (with_access_tracker f m) = option_map f (get_access_tracker m) /\
  option_map access_violation_handler (mapping_common (with_access_tracker f m)) =
  option_map access_violation_handler (mapping_common m).
Proof.
  intros Hf Hm. destruct m as [|a|u]; [done| |]; cbn in *.
  - destruct Hm. split; [|done]. split; cbn; auto.
  - destruct Hm. split; [|done]. split; cbn; auto.
Qed.

Lemma mapping_handler_ok_eq m m' :
  option_map access_violation_handler (mapping_common m') =
  option_map access_violation_handler (mapping_common m) ->
  mapping_handler_ok m -> mapping_handler_ok m'.
Proof.
  intros E H c Ec. rewrite Ec in E. destruct (mapping_common m) as [c0|] eqn:E0; [|done].
  cbn in E. injection E as ->. by apply H.
Qed.

Lemma host_read_bytes host a n bs : host_bytes host -> host_read host a n = Some bs -> bytes bs.
Proof.
  intros Hb Hr. apply Forall_forall. intros b Hin. apply list_elem_of_lookup in Hin as [i Hi].
  by eapply Hb, host_read_lookup.
Qed.

Lemma backed_write rs host h bs host' :
  backed rs host -> bytes bs -> host_write host h bs = Some host' -> backed rs host'.
Proof.
  intros [Ha Hd Hby] Hbs Hw. apply host_write_spec in Hw as (H1 & H2 & H3). split; [|done|].
  - intros i r Hi x Hx. apply H3. by eapply Ha.
  - intros x b Hx. destruct (decide (h <= x < h + len bs)) as [Hin|Hout].
    + unfold len in Hin. destruct (lookup_lt_is_Some_2 bs (Z.to_nat (x - h))) as [b' Hb']; [lia|].
      pose proof (H1 _ _ Hb') as E. replace (h + Z.of_nat (Z.to_nat (x - h))) with x in E by lia.
      simplify_eq. by eapply (Forall_lookup_1 _ _ _ _ Hbs).
    + rewrite H2 in Hx by done. by apply (Hby x).
Qed.

(** What a load or a store leaves of the mapping. *)
Record mapping_step (m m' : MemoryMapping) : Prop := {
  step_mapping_ok : mapping_ok m';
  step_handler_ok : mapping_handler_ok m';
  step_lookup a : lookup_region m' a = lookup_region m a
}.

Lemma mapping_load_spec size m host addr :
  mapping_ok m -> mapping_handler_ok m -> backed (get_regions m) host ->
  is_u64 addr -> is_u64 (Z.of_nat size) ->
  exists m' host' res, mapping_load size m host addr = Some (m', host', res) /\
    mapping_step m m' /\
    get_access_tracker m' =
      option_map (fun t => check_access t addr (Z.of_nat size)) (get_access_tracker m) /\
    forall v, res = Ok v -> backed (get_regions m') host' /\
      exists h bs, translates m' Load addr (Z.of_nat size) h /\
        host_read host' h size = Some bs /\ length bs = size /\ bytes bs /\ v = le_combine bs.
Proof.
  intros Hm Hh Hb Ha Hn. unfold mapping_load.
  destruct (with_tracker_spec (fun t => check_access t addr (Z.of_nat size)) m)
    as (Hm1 & Hg1 & Hl1 & Ht1 & Hc1); [auto with gobble|done|].
  set (m1 := with_access_tracker _ m) in *.
  pose proof (mapping_handler_ok_eq _ _ Hc1 Hh) as Hh1.
  destruct (map_with_access_violation_handler m1 host Load addr (Z.of_nat size))
    as [[m2 host2] res] eqn:E.
  apply map_with_handler_spec in E as (Hm2 & [Ht2 Hc2] & Hl2 & Hok); [|done..].
  assert (mapping_step m m2) as Hstep.
  { split; [done|by eapply mapping_handler_ok_eq|]. intros a. by rewrite Hl2, Hl1. }
  rewrite Ht1 in Ht2. destruct res as [h|err]; [|exists m2, host2, (Err err); naive_solver].
  destruct (Hok h eq_refl) as [Htr Hbk]. rewrite Hg1 in Hbk. specialize (Hbk Hb).
  pose proof (translates_bounds m2 Load addr _ h host2 Hm2 Ha Hn Htr Hbk) as Hal.
  apply host_read_Some in Hal as (bs & Hbs & Hlen). rewrite Hbs.
  exists m2, host2, (Ok (le_combine bs)). do 3 (split; [done|]). intros v [= <-].
  split; [done|]. exists h, bs. do 3 (split; [done|]). split; [|done].
  eapply host_read_bytes; [by apply (backed_bytes _ _ Hbk)|done].
Qed.

Lemma mapping_store_spec size m host value addr :
  mapping_ok m -> mapping_handler_ok m -> backed (get_regions m) host ->
  is_u64 addr -> is_u64 (Z.of_nat size) ->
  exists m' host' res, mapping_store size m host value addr = Some (m', host', res) /\
    mapping_step m m' /\ get_access_tracker m' = get_access_tracker m /\
    forall h, res = Ok h -> backed (get_regions m') host' /\
      translates m' Store addr (Z.of_nat size) h /\
      host_read host' h size = Some (le_split size value).
Proof.
  intros Hm Hh Hb Ha Hn. unfold mapping_store.
  destruct (map_with_access_violation_handler m host Store addr (Z.of_nat size))
    as [[m2 host2] res] eqn:E.
  apply map_with_handler_spec in E as (Hm2 & [Ht2 Hc2] & Hl2 & Hok); [|done..].
  assert (mapping_step m m2) as Hstep by (split; [done|by eapply mapping_handler_ok_eq|done]).
  destruct res as [h|err]; [|exists m2, host2, (Err err); naive_solver].
  destruct (Hok h eq_refl) as [Htr Hbk]. specialize (Hbk Hb).
  pose proof (translates_bounds m2 Store addr _ h host2 Hm2 Ha Hn Htr Hbk) as Hal.
  destruct (host_write_Some host2 h (le_split size value)) as [host3 Hw].
  { unfold len. by rewrite le_split_length. }
  rewrite Hw. exists m2, host3, (Ok h). do 3 (split; [done|]). intros h' [= <-].
  split; [eapply backed_write; [done|apply le_split_bytes|done]|]. split; [done|].
  by eapply host_write_read.
Qed.

Lemma vm_to_host_load r a n h : vm_to_host r Store a n = Some h -> vm_to_host r Load a n = Some h.
Proof. unfold vm_to_host. cbn [andb]. by destruct (bool_decide _ && _)%bool. Qed.

Lemma map_translates m host ty addr n h :
  mapping_ok m -> translates m ty addr n h ->
  exists m', map_with_access_violation_handler m host ty addr n = (m', host, Ok h).
Proof.
  intros Hm (i & r & Hl & Hr & Ht). unfold map_with_access_violation_handler.
  destruct (mapping_ok_common m Hm) as [c ->].
  pose proof (find_region_ok m addr Hm) as (Hf & _).
  destruct (find_region m addr) as [m1 found]. cbn [fst snd] in Hf.
  rewrite Hl in Hf. cbn in Hf. rewrite Hr in Hf. cbn in Hf. subst found. rewrite Ht. by exists m1.
Qed.

(** ** Sequences of guest accesses *)

Inductive guest_access :=
| GLoad (size : nat) (addr : Z)
| GStore (size : nat) (value addr : Z).

Definition guest_access_ok (g : guest_access) : Prop :=
  match g with
  | GLoad size addr | GStore size _ addr =>
      is_u64 addr /\ is_u64 (Z.of_nat size) /\ 0 < Z.of_nat size
  end.

Definition do_access (m : MemoryMapping) (host : HostMemory) (g : guest_access)
    : option (MemoryMapping * HostMemory * ProgramResult) :=
  match g with
  | GLoad size addr => mapping_load size m host addr
  | GStore size value addr => mapping_store size m host value addr
  end.

(** A guest performs its accesses in order and stops at the first fault. *)
Fixpoint do_accesses (m : MemoryMapping) (host : HostMemory) (gs : list guest_access)
    : option (MemoryMapping * HostMemory * list ProgramResult) :=
  match gs with
  | [] => Some (m, host, [])
  | g :: gs =>
      let! (m, host, res) := do_access m host g in
      match res with
      | Err _ => Some (m, host, [res])
      | Ok _ =>
          let! (m, host, rest) := do_accesses m host gs in
          Some (m, host, res :: rest)
      end
  end.

(** The loads among the first [n] accesses, as the tracker should see them. *)
Definition loads_of (gs : list guest_access) : list (Z * Z) :=
  omap (fun g => match g with GLoad size addr => Some (addr, Z.of_nat size) | GStore _ _ _ => None end) gs.

Lemma do_access_spec m host g :
  mapping_ok m -> mapping_handler_ok m -> backed (get_regions m) host -> guest_access_ok g ->
  exists m' host' res, do_access m host g = Some (m', host', res) /\ mapping_step m m' /\
    get_access_tracker m' =
      option_map (fun t => fold_left (fun t l => check_access t l.1 l.2) (loads_of [g]) t)
        (get_access_tracker m) /\
    (is_ok res = true -> backed (get_regions m') host').
Proof.
  intros Hm Hh Hb Hg. destruct g as [size addr|size value addr]; cbn in Hg; destruct Hg as (Ha & Hn & _).
  - destruct (mapping_load_spec size m host addr Hm Hh Hb Ha Hn)
      as (m' & host' & res & E & Hs & Ht & Hok). exists m', host', res.
    do 3 (split; [done|]). destruct res as [v|]; [|done]. intros _. by eapply Hok.
  - destruct (mapping_store_spec size m host value addr Hm Hh Hb Ha Hn)
      as (m' & host' & res & E & Hs & Ht & Hok). exists m', host', res.
    do 2 (split; [done|]). split; [by rewrite Ht; destruct (get_access_tracker m)|].
    destruct res as [v|]; [|done]. intros _. by eapply Hok.
Qed.

Lemma do_accesses_spec m host gs :
  mapping_ok m -> mapping_handler_ok m -> backed (get_regions m) host -> Forall guest_access_ok gs ->
  exists m' host' results, do_accesses m host gs = Some (m', host', results) /\ mapping_ok m' /\
    (length results <= length gs)%nat /\
    get_access_tracker m' =
      option_map (fun t => fold_left (fun t l => check_access t l.1 l.2)
                             (loads_of (take (length results) gs)) t) (get_access_tracker m).
Proof.
  intros Hm Hh Hb Hgs. revert m host Hm Hh Hb. induction Hgs as [|g gs Hg _ IH]; intros m host Hm Hh Hb.
  { exists m, host, []. repeat split; [done|done|]. by destruct (get_access_tracker m). }
  destruct (do_access_spec m host g Hm Hh Hb Hg) as (m1 & host1 & res & E & [Hm1 Hh1 _] & Ht & Hok).
  cbn [do_accesses]. rewrite E. destruct res as [v|err].
  - destruct (IH m1 host1 Hm1 Hh1 (Hok eq_refl)) as (m2 & host2 & rest & E2 & Hm2 & Hl & Ht2).
    rewrite E2. exists m2, host2, (Ok v :: rest). split; [done|]. split; [done|]. cbn [length take].
    split; [lia|]. rewrite Ht2, Ht. destruct (get_access_tracker m); [|done]. by destruct g.
  - exists m1, host1, [Err err]. split; [done|]. split; [done|]. split; [cbn; lia|]. cbn.
    rewrite Ht. by destruct g.
Qed.

Lemma mapping_new_ok empty_slice rs config v handler m :
  is_u64 empty_slice -> Forall region_ok rs ->
  mapping_new_with_access_violation_handler empty_slice rs config v handler = Ok m ->
  mapping_ok m /\ rs ⊆ get_regions m /\ get_access_tracker m = Some tracker_new /\
  option_map access_violation_handler (mapping_common m) = Some handler.
Proof.
  intros He Hrs. unfold mapping_new_with_access_violation_handler. destruct (_ || _)%bool.
  - destruct (aligned_new empty_slice rs config v handler) as [a|] eqn:E; [|done]. intros [= <-].
    apply aligned_new_ok in E as (H1 & H2 & H3 & H4); [|done..]. cbn. by rewrite H3, H4.
  - destruct (unaligned_new rs config v handler) as [u|] eqn:E; [|done]. intros [= <-].
    apply unaligned_new_ok in E as (H1 & H2 & H3 & H4); [|done..]. cbn. rewrite H3, H4.
    split; [done|]. split; [|done]. by rewrite H2.
Qed.

(** ** Properties *)

(** C33. Guest memory safety and tracking. Take a mapping as [new] builds it,
    over regions backed by host memory of their own, with any handler that keeps
    the laws and any watched ranges. Whatever loads and stores the guest
    performs, no access leaves allocated host memory, the mapping stays well
    formed, and the tracker records exactly the performed loads (the faulting
    one included) that meet a watched range, in order. *)
Theorem guest_accesses_safe (empty_slice : Z) (rs : list MemoryRegion) (config : Config)
    (v : SBPFVersion) (handler : AccessViolationHandler) (watched : list Range)
    (m : MemoryMapping) (host : HostMemory) (gs : list guest_access) :
  is_u64 empty_slice -> Forall region_ok rs -> HandlerOk handler -> Forall u64_range watched ->
  mapping_new_with_access_violation_handler empty_slice rs config v handler = Ok m ->
  backed (get_regions m) host -> Forall guest_access_ok gs ->
  exists m' host' results,
    do_accesses (with_access_tracker (fun t => add_watched_ranges t watched) m) host gs
      = Some (m', host', results) /\
    mapping_ok m' /\ (length results <= length gs)%nat /\
    option_map get_forbidden_accesses (get_access_tracker m') =
      Some (filter (fun l => touches watched l.1 l.2) (loads_of (take (length results) gs))).
Proof.
  intros He Hrs Hh Hw Hnew Hb Hgs.
  apply mapping_new_ok in Hnew as (Hm & _ & Ht & Hc); [|done..].
  destruct (with_tracker_spec (fun t => add_watched_ranges t watched) m)
    as (Hm1 & Hg1 & _ & Ht1 & Hc1); [auto with gobble|done|].
  destruct (do_accesses_spec (with_access_tracker (fun t => add_watched_ranges t watched) m) host gs)
    as (m' & host' & results & E & Hm' & Hl & Ht'); [done| |by rewrite Hg1|done|].
  { intros c Ec. rewrite Ec, Hc in Hc1. cbn in Hc1. by injection Hc1 as ->. }
  exists m', host', results. do 3 (split; [done|]). rewrite Ht', Ht1, Ht. cbn [option_map]. f_equal.
  assert (Forall load_ok (loads_of (take (length results) gs))) as Hl64.
  { apply Forall_forall. intros l Hin. apply list_elem_of_omap in Hin as (g & Hin & Hg).
    assert (g ∈ gs) as Hin' by (by eapply elem_of_take in Hin as (? & ?%list_elem_of_lookup_2 & _)).
    pose proof (proj1 (Forall_forall _ _) Hgs g Hin') as Hgok. destruct g; by simplify_eq. }
  unfold get_forbidden_accesses. rewrite tracked_loads; [|done|by apply tracker_ok_add; auto with gobble].
  cbn [forbidden_accesses add_watched_ranges tracker_new app]. rewrite watched_ranges_add.
  apply list_filter_iff. intros l. apply touches_nonempty.
Qed.

(** Memory round trip. After a successful store, a load of the same size at
    the same address returns the stored value, truncated to that size, and leaves
    host memory as it is. *)
Theorem store_load_roundtrip (size : nat) (m m' : MemoryMapping) (host host' : HostMemory)
    (value addr h : Z) :
  mapping_ok m -> mapping_handler_ok m -> backed (get_regions m) host ->
  is_u64 addr -> is_u64 (Z.of_nat size) ->
  mapping_store size m host value addr = Some (m', host', Ok h) ->
  exists m'', mapping_load size m' host' addr = Some (m'', host', Ok (value mod 256 ^ Z.of_nat size)).
Proof.
  intros Hm Hh Hb Ha Hn Hst.
  destruct (mapping_store_spec size m host value addr Hm Hh Hb Ha Hn)
    as (m1 & host1 & res & E & [Hm1 _ _] & _ & Hok). rewrite Hst in E. injection E as <- <- <-.
  destruct (Hok h eq_refl) as (_ & (i & r & Hl & Hr & Ht) & Hread). unfold mapping_load.
  destruct (with_tracker_spec (fun t => check_access t addr (Z.of_nat size)) m')
    as (Hm2 & Hg2 & Hl2 & _ & _); [auto with gobble|done|].
  destruct (map_translates _ host' Load addr (Z.of_nat size) h Hm2) as [m'' ->].
  { exists i, r. rewrite Hl2, Hg2. auto using vm_to_host_load. }
  rewrite Hread, le_combine_split. by exists m''.
Qed.

(** Host memory for [example_regions]. *)
Definition example_host : HostMemory :=
  list_to_map (map (fun a => (a, a mod 256)) (seqZ 0x1000 32 ++ seqZ 0x2000 16 ++ seqZ 0x3000 8)).

Definition example_guest : list guest_access :=
  [GStore 8 0x1122334455667788 0x300; GLoad 4 0x302; GLoad 2 0x100; GLoad 1 0x200; GStore 1 7 0x100;
   GLoad 8 0x300].

(** The read-only region faults on the store, after three loads of which the
    first and the third are watched. *)
Lemma guest_accesses_safe_witness :
  exists m m' host' results,
    mapping_new_with_access_violation_handler 1 example_regions Config_default V0
      default_access_violation_handler = Ok m /\
    do_accesses (with_access_tracker
        (fun t => add_watched_ranges t [mkRange 0x305 0x310; mkRange 0x200 0x201]) m)
      example_host example_guest = Some (m', host', results) /\
    mapping_ok m' /\
    option_map get_forbidden_accesses (get_access_tracker m') = Some [(0x302, 4); (0x200, 1)].
Proof.
  eexists. destruct (guest_accesses_safe 1 example_regions Config_default V0
    default_access_violation_handler [mkRange 0x305 0x310; mkRange 0x200 0x201] _ example_host
    example_guest ltac:(eval_int) example_regions_ok default_handler_ok
    ltac:(repeat constructor; cbn; unfold is_u; lia)
    ltac:(vm_compute; reflexivity)
    ltac:(apply backedb_sound; vm_compute; reflexivity)
    ltac:(repeat constructor; cbn; unfold is_u; lia)) as (m' & host' & results & H1 & H2 & _ & H3).
  exists m', host', results. split; [vm_compute; reflexivity|]. split; [exact H1|].
  split; [exact H2|]. rewrite H3. assert (length results = 5%nat) as ->; [|by vm_compute].
  apply (f_equal (option_map (fun x => length x.2))) in H1. cbn [option_map snd] in H1.
  apply (inj Some). rewrite <- H1. by vm_compute.
Defined.

Lemma store_load_roundtrip_witness :
  exists m m' m'' host',
    mapping_new_with_access_violation_handler 1 example_regions Config_default V0
      default_access_violation_handler = Ok m /\
    mapping_store 2 m example_host 0x12345 0x308 = Some (m', host', Ok 0x2008) /\
    mapping_load 2 m' host' 0x308 = Some (m'', host', Ok 0x2345).
Proof.
  destruct (mapping_new_with_access_violation_handler 1 example_regions Config_default V0
    default_access_violation_handler) as [m|] eqn:Em; [|by vm_compute in Em].
  pose proof Em as Hnew. apply mapping_new_ok in Hnew as (Hm & _ & _ & Hc);
    [|eval_int|exact example_regions_ok].
  assert (backed (get_regions m) example_host) as Hb.
  { apply backedb_sound. vm_compute in Em. injection Em as <-. by vm_compute. }
  assert (mapping_handler_ok m) as Hh.
  { intros c Ec. rewrite Ec in Hc. injection Hc as ->. apply default_handler_ok. }
  destruct (mapping_store 2 m example_host 0x12345 0x308) as [[[m' host'] res]|] eqn:Est.
  2: { vm_compute in Em. injection Em as <-. by vm_compute in Est. }
  assert (res = Ok 0x2008) as ->.
  { apply (f_equal (option_map snd)) in Est. vm_compute in Em. injection Em as <-.
    vm_compute in Est. by injection Est as <-. }
  destruct (store_load_roundtrip 2 m m' example_host host' 0x12345 0x308 0x2008 Hm Hh Hb
    ltac:(eval_int) ltac:(eval_int) Est) as [m'' Hload].
  exists m, m', m'', host'. split; [done|]. split; [done|]. exact Hload.
Defined.
