(* ===== verification/Verifier.v ===== *)
(** The bytecode verifier (sbpf/src/verifier.rs).

    The [match] of [RequisiteVerifier::verify] is a table of arms in source
    order, each with its opcode, its guard and its body; the first arm whose
    opcode and guard match is taken. A panic of the instruction decoder is
    [None]; the theorems show that there is none, that the loop terminates
    within its fuel, and what an accepted program satisfies at every
    instruction. *)

From Stdlib Require Import ZArith Lia Bool.
From S2P Require Import Prelude.
From S2P Require Import SbpfTypes.
From S2P Require Import Ebpf.

#[local] Open Scope Z_scope.

Abbreviation Checked T := (option (Result T VerifierError)).

Definition check_prog_len (prog : list Z) : Result unit VerifierError :=
  if negb (len prog mod INSN_SIZE =? 0) then Err ProgramLengthNotMultiple
  else if is_nil prog then Err NoProgram
  else Ok tt.

Definition check_imm_nonzero (insn : Insn) (insn_ptr : Z) : Result unit VerifierError :=
  if imm insn =? 0 then Err (DivisionByZero insn_ptr) else Ok tt.

Definition check_imm_endian (insn : Insn) (insn_ptr : Z) : Result unit VerifierError :=
  if (imm insn =? 16) || (imm insn =? 32) || (imm insn =? 64) then Ok tt
  else Err (UnsupportedLEBEArgument insn_ptr).

Definition check_imm_aligned (insn : Insn) (insn_ptr alignment : Z) : Result unit VerifierError :=
  if Z.land (imm insn) (alignment - 1) =? 0 then Ok tt else Err (UnalignedImmediate insn_ptr).

Definition check_load_dw (prog : list Z) (insn_ptr : Z) : Checked unit :=
  if len prog <=? (insn_ptr + 1) * INSN_SIZE then Some (Err LDDWCannotBeLast)
  else
    let! next_insn := get_insn prog (insn_ptr + 1) in
    if negb (opc next_insn =? 0) then Some (Err (IncompleteLDDW insn_ptr)) else Some (Ok tt).

Definition check_jmp_offset (prog : list Z) (insn_ptr : Z) (program_range : Range) : Checked unit :=
  let! insn := get_insn prog insn_ptr in
  let dst_insn_ptr := insn_ptr + 1 + off insn in
  if (dst_insn_ptr <? 0) || negb (range_contains program_range (as_usize dst_insn_ptr))
  then Some (Err (JumpOutOfCode (as_usize dst_insn_ptr) insn_ptr))
  else
    let! dst_insn := get_insn prog (as_usize dst_insn_ptr) in
    if opc dst_insn =? 0
    then Some (Err (JumpToMiddleOfLDDW (as_usize dst_insn_ptr) insn_ptr)) else Some (Ok tt).

Definition check_registers (insn : Insn) (store : bool) (insn_ptr : Z) (v : SBPFVersion)
    : Result unit VerifierError :=
  if 10 <? src insn then Err (InvalidSourceRegister insn_ptr)
  else if (0 <=? dst insn) && (dst insn <=? 9) || (dst insn =? 10) && store then Ok tt
  else if (dst insn =? 10) && (manual_stack_frame_bump v && (opc insn =? ADD64_IMM)) then Ok tt
  else if dst insn =? 10 then Err (CannotWriteR10 insn_ptr)
  else Err (InvalidDestinationRegister insn_ptr).

Definition check_imm_shift (insn : Insn) (insn_ptr imm_bits : Z) : Result unit VerifierError :=
  let shift_by := as_u64 (imm insn) in
  if (imm insn <? 0) || (imm_bits <=? shift_by)
  then Err (ShiftWithOverflow shift_by imm_bits insn_ptr) else Ok tt.

Definition check_callx_register (insn : Insn) (insn_ptr : Z) (v : SBPFVersion)
    : Result unit VerifierError :=
  let reg :=
    if callx_uses_src_reg v then src insn
    else if callx_uses_dst_reg v then dst insn
    else imm insn in
  if negb (range_contains (mkRange 0 10) reg) then Err (InvalidRegister insn_ptr) else Ok tt.

(** ** The opcode table *)

(** The bodies of the arms; the empty body, [store = true] and the checks. *)
Inductive Body :=
| Nothing
| SetStore
| LoadDw
| ImmNonzero
| ImmShift (bits : Z)
| ImmEndian
| ImmAligned (alignment : Z)
| JmpOffset
| CallxRegister.

#[export] Instance Body_eq_dec : EqDecision Body.
Proof. solve_decision. Defined.

Definition arms_memory (v : SBPFVersion) : list (Z * bool * Body) :=
  let old := negb (move_memory_instruction_classes v) in
  [ (LD_DW_IMM, negb (disable_lddw v), LoadDw);
    (LD_B_REG, old, Nothing); (LD_H_REG, old, Nothing);
    (LD_W_REG, old, Nothing); (LD_DW_REG, old, Nothing);
    (ST_B_IMM, old, SetStore); (ST_H_IMM, old, SetStore);
    (ST_W_IMM, old, SetStore); (ST_DW_IMM, old, SetStore);
    (ST_B_REG, old, SetStore); (ST_H_REG, old, SetStore);
    (ST_W_REG, old, SetStore); (ST_DW_REG, old, SetStore) ].

Definition arms_alu32 (v : SBPFVersion) : list (Z * bool * Body) :=
  let new := move_memory_instruction_classes v in
  let no_pqr := negb (enable_pqr v) in
  [ (ADD32_IMM, true, Nothing); (ADD32_REG, true, Nothing);
    (SUB32_IMM, true, Nothing); (SUB32_REG, true, Nothing);
    (MUL32_IMM, no_pqr, Nothing); (MUL32_REG, no_pqr, Nothing);
    (LD_1B_REG, new, Nothing);
    (DIV32_IMM, no_pqr, ImmNonzero); (DIV32_REG, no_pqr, Nothing);
    (LD_2B_REG, new, Nothing);
    (OR32_IMM, true, Nothing); (OR32_REG, true, Nothing);
    (AND32_IMM, true, Nothing); (AND32_REG, true, Nothing);
    (LSH32_IMM, true, ImmShift 32); (LSH32_REG, true, Nothing);
    (RSH32_IMM, true, ImmShift 32); (RSH32_REG, true, Nothing);
    (NEG32, negb (disable_neg v), Nothing);
    (LD_4B_REG, new, Nothing);
    (MOD32_IMM, no_pqr, ImmNonzero); (MOD32_REG, no_pqr, Nothing);
    (LD_8B_REG, new, Nothing);
    (XOR32_IMM, true, Nothing); (XOR32_REG, true, Nothing);
    (MOV32_IMM, true, Nothing); (MOV32_REG, true, Nothing);
    (ARSH32_IMM, true, ImmShift 32); (ARSH32_REG, true, Nothing);
    (LE, negb (disable_le v), ImmEndian); (BE, true, ImmEndian) ].

Definition arms_alu64 (v : SBPFVersion) (insn : Insn) : list (Z * bool * Body) :=
  let new := move_memory_instruction_classes v in
  let no_pqr := negb (enable_pqr v) in
  [ (ADD64_IMM, (dst insn =? FRAME_PTR_REG) && manual_stack_frame_bump v, ImmAligned 64);
    (ADD64_IMM, true, Nothing); (ADD64_REG, true, Nothing);
    (SUB64_IMM, true, Nothing); (SUB64_REG, true, Nothing);
    (MUL64_IMM, no_pqr, Nothing); (ST_1B_IMM, new, SetStore);
    (MUL64_REG, no_pqr, Nothing); (ST_1B_REG, new, SetStore);
    (DIV64_IMM, no_pqr, ImmNonzero); (ST_2B_IMM, new, SetStore);
    (DIV64_REG, no_pqr, Nothing); (ST_2B_REG, new, SetStore);
    (OR64_IMM, true, Nothing); (OR64_REG, true, Nothing);
    (AND64_IMM, true, Nothing); (AND64_REG, true, Nothing);
    (LSH64_IMM, true, ImmShift 64); (LSH64_REG, true, Nothing);
    (RSH64_IMM, true, ImmShift 64); (RSH64_REG, true, Nothing);
    (ST_4B_IMM, new, SetStore); (NEG64, negb (disable_neg v), Nothing);
    (ST_4B_REG, new, SetStore);
    (MOD64_IMM, no_pqr, ImmNonzero); (ST_8B_IMM, new, SetStore);
    (MOD64_REG, no_pqr, Nothing); (ST_8B_REG, new, SetStore);
    (XOR64_IMM, true, Nothing); (XOR64_REG, true, Nothing);
    (MOV64_IMM, true, Nothing); (MOV64_REG, true, Nothing);
    (ARSH64_IMM, true, ImmShift 64); (ARSH64_REG, true, Nothing);
    (HOR64_IMM, disable_lddw v, Nothing) ].

Definition arms_pqr (v : SBPFVersion) : list (Z * bool * Body) :=
  let pqr := enable_pqr v in
  [ (LMUL32_IMM, pqr, Nothing); (LMUL32_REG, pqr, Nothing);
    (LMUL64_IMM, pqr, Nothing); (LMUL64_REG, pqr, Nothing);
    (UHMUL64_IMM, pqr, Nothing); (UHMUL64_REG, pqr, Nothing);
    (SHMUL64_IMM, pqr, Nothing); (SHMUL64_REG, pqr, Nothing);
    (UDIV32_IMM, pqr, ImmNonzero); (UDIV32_REG, pqr, Nothing);
    (UDIV64_IMM, pqr, ImmNonzero); (UDIV64_REG, pqr, Nothing);
    (UREM32_IMM, pqr, ImmNonzero); (UREM32_REG, pqr, Nothing);
    (UREM64_IMM, pqr, ImmNonzero); (UREM64_REG, pqr, Nothing);
    (SDIV32_IMM, pqr, ImmNonzero); (SDIV32_REG, pqr, Nothing);
    (SDIV64_IMM, pqr, ImmNonzero); (SDIV64_REG, pqr, Nothing);
    (SREM32_IMM, pqr, ImmNonzero); (SREM32_REG, pqr, Nothing);
    (SREM64_IMM, pqr, ImmNonzero); (SREM64_REG, pqr, Nothing) ].

Definition arms_jmp32 (v : SBPFVersion) : list (Z * bool * Body) :=
  map (fun o => (o, enable_jmp32 v, JmpOffset))
    [ JEQ32_IMM; JEQ32_REG; JGT32_IMM; JGT32_REG; JGE32_IMM; JGE32_REG; JLT32_IMM; JLT32_REG;
      JLE32_IMM; JLE32_REG; JSET32_IMM; JSET32_REG; JNE32_IMM; JNE32_REG; JSGT32_IMM; JSGT32_REG;
      JSGE32_IMM; JSGE32_REG; JSLT32_IMM; JSLT32_REG; JSLE32_IMM; JSLE32_REG ].

Definition arms_jmp64 : list (Z * bool * Body) :=
  map (fun o => (o, true, JmpOffset))
    [ JA; JEQ64_IMM; JEQ64_REG; JGT64_IMM; JGT64_REG; JGE64_IMM; JGE64_REG; JLT64_IMM; JLT64_REG;
      JLE64_IMM; JLE64_REG; JSET64_IMM; JSET64_REG; JNE64_IMM; JNE64_REG; JSGT64_IMM; JSGT64_REG;
      JSGE64_IMM; JSGE64_REG; JSLT64_IMM; JSLT64_REG; JSLE64_IMM; JSLE64_REG ]
  ++ [ (CALL_IMM, true, Nothing); (CALL_REG, true, CallxRegister); (EXIT, true, Nothing) ].

Definition arms (v : SBPFVersion) (insn : Insn) : list (Z * bool * Body) :=
  arms_memory v ++ arms_alu32 v ++ arms_alu64 v insn ++ arms_pqr v ++ arms_jmp32 v ++ arms_jmp64.

(** Rust takes the first arm whose pattern and guard match. *)
Definition select_arm (v : SBPFVersion) (insn : Insn) : option Body :=
  snd <$> List.find (fun a => (opc insn =? a.1.1) && a.1.2) (arms v insn).

(** The body of an arm: the new values of [store] and [insn_ptr]. *)
Definition run_body (prog : list Z) (v : SBPFVersion) (program_range : Range)
    (insn : Insn) (insn_ptr : Z) (body : Body) : Checked (bool * Z) :=
  match body with
  | Nothing => Some (Ok (false, insn_ptr))
  | SetStore => Some (Ok (true, insn_ptr))
  | LoadDw =>
      let! r := check_load_dw prog insn_ptr in
      Some (let? _ := r in Ok (false, insn_ptr + 1))
  | ImmNonzero => Some (let? _ := check_imm_nonzero insn insn_ptr in Ok (false, insn_ptr))
  | ImmShift bits => Some (let? _ := check_imm_shift insn insn_ptr bits in Ok (false, insn_ptr))
  | ImmEndian => Some (let? _ := check_imm_endian insn insn_ptr in Ok (false, insn_ptr))
  | ImmAligned a => Some (let? _ := check_imm_aligned insn insn_ptr a in Ok (false, insn_ptr))
  | JmpOffset =>
      let! r := check_jmp_offset prog insn_ptr program_range in
      Some (let? _ := r in Ok (false, insn_ptr))
  | CallxRegister =>
      Some (let? _ := check_callx_register insn insn_ptr v in Ok (false, insn_ptr))
  end.

(** One iteration of the loop: the next [insn_ptr]. *)
Definition verify_insn (prog : list Z) (v : SBPFVersion) (program_range : Range) (insn_ptr : Z)
    : Checked Z :=
  let! insn := get_insn prog insn_ptr in
  match select_arm v insn with
  | None => Some (Err (UnknownOpCode (opc insn) insn_ptr))
  | Some body =>
      let! r := run_body prog v program_range insn insn_ptr body in
      Some (let? (store, insn_ptr) := r in
            let? _ := check_registers insn store insn_ptr v in
            Ok (insn_ptr + 1))
  end.

(** [while (insn_ptr + 1) * INSN_SIZE <= prog.len()]. Running out of fuel is
    [None], like a panic. *)
Fixpoint verify_loop (fuel : nat) (prog : list Z) (v : SBPFVersion) (program_range : Range)
    (insn_ptr : Z) : Checked Z :=
  if (insn_ptr + 1) * INSN_SIZE <=? len prog then
    match fuel with
    | O => None
    | S fuel =>
        let! r := verify_insn prog v program_range insn_ptr in
        match r with
        | Ok insn_ptr => verify_loop fuel prog v program_range insn_ptr
        | Err e => Some (Err e)
        end
    end
  else Some (Ok insn_ptr).

Definition verify (prog : list Z) (v : SBPFVersion) : Checked unit :=
  match check_prog_len prog with
  | Err e => Some (Err e)
  | Ok _ =>
      let program_range := mkRange 0 (len prog / INSN_SIZE) in
      let! r := verify_loop (Z.to_nat (len prog / INSN_SIZE)) prog v program_range 0 in
      Some (let? insn_ptr := r in
            if negb (insn_ptr =? len prog / INSN_SIZE)
            then Err (JumpOutOfCode insn_ptr insn_ptr) else Ok tt)
  end.

(** ** What acceptance means *)

Definition program_range (prog : list Z) : Range := mkRange 0 (len prog / INSN_SIZE).
Definition num_insns (prog : list Z) : Z := len prog / INSN_SIZE.

(** The instruction passed the checks of its arm. *)
Definition accepted (prog : list Z) (v : SBPFVersion) (pc : Z) (insn : Insn) : Prop :=
  exists body store next, select_arm v insn = Some body /\
    run_body prog v (program_range prog) insn pc body = Some (Ok (store, next)) /\
    check_registers insn store next v = Ok tt.

(** The second slot of a wide load. *)
Definition wide_tail (prog : list Z) (v : SBPFVersion) (pc : Z) (insn : Insn) : Prop :=
  opc insn = 0 /\ disable_lddw v = false /\
  exists prev, get_insn prog (pc - 1) = Some prev /\ opc prev = LD_DW_IMM.

Definition slot_ok (prog : list Z) (v : SBPFVersion) (pc : Z) : Prop :=
  exists insn, get_insn prog pc = Some insn /\ (accepted prog v pc insn \/ wide_tail prog v pc insn).

Lemma get_insn_total prog pc :
  rust_len prog -> 0 <= pc -> (pc + 1) * INSN_SIZE <= len prog -> is_Some (get_insn prog pc).
Proof.
  intros Hl Hpc Hle. unfold get_insn.
  rewrite (proj2 (is_pc_in_program_iff prog pc Hpc Hl)) by (unfold INSN_SIZE in *; lia).
  unfold get_insn_unchecked, INSN_SIZE, rust_len in *.
  assert (wrapping_mul 8 pc = 8 * pc) as -> by int_lia.
  assert (forall k, 0 <= k <= 4 -> wrapping_add (8 * pc) k = 8 * pc + k) as E by int_lia.
  rewrite !E by lia.
  destruct (lookup_lt_is_Some_2 prog (Z.to_nat (8 * pc))) as [b0 ->]; [unfold len in *; lia|].
  destruct (lookup_lt_is_Some_2 prog (Z.to_nat (8 * pc + 1))) as [b1 ->]; [unfold len in *; lia|].
  destruct (read_le_Some 2 prog (8 * pc + 2)) as (? & _ & -> & _); [lia..|].
  destruct (read_le_Some 4 prog (8 * pc + 4)) as (? & _ & -> & _); [lia..|]. by eexists.
Qed.

Lemma get_insn_range prog pc insn :
  rust_len prog -> 0 <= pc -> get_insn prog pc = Some insn -> (pc + 1) * INSN_SIZE <= len prog.
Proof.
  intros Hl Hpc. unfold get_insn. destruct (is_pc_in_program prog pc) eqn:E; [|done]. intros _.
  apply is_pc_in_program_iff in E; [|done..]. unfold INSN_SIZE in *. lia.
Qed.

Lemma get_insn_off prog pc insn : get_insn prog pc = Some insn -> is_s 16 (off insn).
Proof.
  unfold get_insn, get_insn_unchecked. intros H. repeat case_match; simplify_eq.
  apply cast_s_range. lia.
Qed.

Lemma get_insn_num_insns prog pc :
  rust_len prog -> 0 <= pc < num_insns prog -> is_Some (get_insn prog pc).
Proof.
  intros Hl Hpc. apply get_insn_total; [done|lia|]. unfold num_insns, INSN_SIZE in *. int_lia.
Qed.

(** Only the wide load moves past its own slot. *)
Lemma select_LoadDw v insn :
  select_arm v insn = Some LoadDw -> opc insn = LD_DW_IMM /\ disable_lddw v = false.
Proof.
  unfold select_arm. destruct (List.find _ _) as [[[o g] b]|] eqn:E; cbn; [|done]. intros [= ->].
  apply List.find_some in E as [Hin Hm]. cbn in Hm. bool_to_prop.
  match goal with H : opc insn = o |- _ => rewrite H end. subst g.
  clear -Hin. apply list_elem_of_In in Hin.
  unfold arms in Hin. cbn in Hin.
  repeat (apply elem_of_cons in Hin as [Hin|Hin];
    [simplify_eq; try done; by destruct (disable_lddw v)|]).
  by apply not_elem_of_nil in Hin.
Qed.

Lemma run_body_next prog v rg insn pc body store next :
  run_body prog v rg insn pc body = Some (Ok (store, next)) ->
  next = (if decide (body = LoadDw) then pc + 1 else pc) /\
  (body = LoadDw -> check_load_dw prog pc = Some (Ok tt)).
Proof.
  destruct (decide (body = LoadDw)) as [->|Hne]; cbn.
  - destruct (check_load_dw prog pc) as [[[]|]|]; [|done..]. by intros [= <- <-].
  - intros H. split; [|done]. destruct body; cbn in H; repeat case_match; by simplify_eq.
Qed.

Lemma verify_insn_ok prog v pc next :
  rust_len prog -> 0 <= pc ->
  verify_insn prog v (program_range prog) pc = Some (Ok next) ->
  (next = pc + 1 \/ next = pc + 2) /\ next <= num_insns prog /\
  forall k, pc <= k < next -> slot_ok prog v k.
Proof.
  intros Hl Hpc. unfold verify_insn. destruct (get_insn prog pc) as [insn|] eqn:Ei; [|done].
  pose proof (get_insn_range prog pc insn Hl Hpc Ei) as Hr.
  destruct (select_arm v insn) as [body|] eqn:Es; [|done].
  destruct (run_body _ _ _ _ _ _) as [[[store p]|]|] eqn:Er; try done.
  destruct (check_registers insn store p v) as [[]|] eqn:Ec; [|done]. intros [= <-].
  assert (slot_ok prog v pc) as Hpcok by (exists insn; split; [done|left; by exists body, store, p]).
  apply run_body_next in Er as [-> Hdw]. unfold num_insns, INSN_SIZE in *.
  destruct (decide (body = LoadDw)) as [->|Hne].
  - specialize (Hdw eq_refl). unfold check_load_dw, INSN_SIZE in Hdw.
    destruct (Z.leb_spec (len prog) ((pc + 1) * 8)) as [|Hlt]; [done|].
    destruct (get_insn prog (pc + 1)) as [tail|] eqn:Et; [|done].
    destruct (Z.eqb_spec (opc tail) 0) as [Eo|]; [|done].
    pose proof (get_insn_range prog (pc + 1) tail Hl ltac:(lia) Et). unfold INSN_SIZE in *.
    destruct (select_LoadDw v insn Es) as [Eopc Edis].
    split; [lia|]. split; [int_lia|]. intros k Hk.
    destruct (decide (k = pc)) as [->|]; [done|]. replace k with (pc + 1) by lia.
    exists tail. split; [done|]. right. split; [done|]. split; [done|]. exists insn.
    split; [|done]. by replace (pc + 1 - 1) with pc by lia.
  - split; [lia|]. split; [int_lia|]. intros k Hk. by replace k with pc by lia.
Qed.

Lemma verify_loop_ok fuel prog v pc final :
  rust_len prog -> 0 <= pc <= num_insns prog ->
  verify_loop fuel prog v (program_range prog) pc = Some (Ok final) ->
  final = num_insns prog /\ forall k, pc <= k < num_insns prog -> slot_ok prog v k.
Proof.
  intros Hl. revert pc; induction fuel as [|fuel IH]; intros pc Hpc; cbn [verify_loop];
    destruct (Z.leb_spec ((pc + 1) * INSN_SIZE) (len prog)) as [Hle|Hgt]; try done.
  1,3: intros [= <-]; unfold num_insns, INSN_SIZE in *;
    assert (pc = len prog / 8) by int_lia; split; [done|intros; lia].
  destruct (verify_insn _ _ _ _) as [[next|]|] eqn:E; try done. intros H.
  apply verify_insn_ok in E as (Hnext & Hmax & Hslots); [|done|lia].
  apply IH in H as [-> Hrest]; [|lia]. split; [done|]. intros k Hk.
  destruct (decide (k < next)); [apply Hslots; lia|apply Hrest; lia].
Qed.

Lemma verify_slots prog v :
  rust_len prog -> verify prog v = Some (Ok tt) ->
  len prog = num_insns prog * INSN_SIZE /\ 0 < num_insns prog /\
  forall pc, 0 <= pc < num_insns prog -> slot_ok prog v pc.
Proof.
  intros Hl. unfold verify, check_prog_len.
  destruct (Z.eqb_spec (len prog mod INSN_SIZE) 0) as [Em|]; [|done]. cbn [negb].
  destruct prog as [|b prog']; [done|]. cbn [is_nil]. set (prog := b :: prog') in *.
  fold (program_range prog).
  destruct (verify_loop _ _ _ _ _) as [[final|]|] eqn:E; try done. intros _.
  assert (0 < len prog) by (unfold len, prog; cbn [length]; lia). unfold num_insns, INSN_SIZE in *.
  apply verify_loop_ok in E as [_ Hs]; [|done|unfold num_insns, INSN_SIZE; int_lia].
  split; [int_lia|]. split; [int_lia|]. exact Hs.
Qed.

(** ** Totality *)

Lemma run_body_total prog v insn pc body :
  rust_len prog -> len prog = num_insns prog * INSN_SIZE -> 0 <= pc ->
  get_insn prog pc = Some insn -> is_Some (run_body prog v (program_range prog) insn pc body).
Proof.
  intros Hl Hm Hpc Ei. pose proof (get_insn_range prog pc insn Hl Hpc Ei) as Hr.
  unfold INSN_SIZE in *. destruct body; cbn; try by eexists.
  - unfold check_load_dw, INSN_SIZE.
    destruct (Z.leb_spec (len prog) ((pc + 1) * 8)) as [|Hlt]; [by eexists|].
    destruct (get_insn_total prog (pc + 1) Hl) as [x ->]; [lia|unfold INSN_SIZE; lia|].
    destruct (negb _); by eexists.
  - unfold check_jmp_offset. rewrite Ei. destruct (Z.ltb_spec (pc + 1 + off insn) 0) as [|Hge];
      cbn [orb]; [by eexists|].
    destruct (range_contains _ _) eqn:Ec; cbn [negb]; [|by eexists].
    unfold range_contains in Ec. cbn in Ec. bool_to_prop.
    destruct (get_insn_num_insns prog (as_usize (pc + 1 + off insn)) Hl) as [x ->];
      [unfold num_insns; lia|]. destruct (_ =? _); by eexists.
Qed.

Lemma verify_loop_total fuel prog v pc :
  rust_len prog -> len prog = num_insns prog * INSN_SIZE -> 0 <= pc <= num_insns prog ->
  num_insns prog - pc <= Z.of_nat fuel ->
  is_Some (verify_loop fuel prog v (program_range prog) pc).
Proof.
  intros Hl Hm. revert pc; induction fuel as [|fuel IH]; intros pc Hpc Hf; cbn [verify_loop];
    (destruct (Z.leb_spec ((pc + 1) * INSN_SIZE) (len prog)) as [Hle|Hgt]; [|by eexists]);
    unfold INSN_SIZE in *; [lia|].
  destruct (verify_insn prog v (program_range prog) pc) as [[next|]|] eqn:E.
  - apply verify_insn_ok in E as (Hnext & Hmax & _); [|done|lia]. apply IH; lia.
  - by eexists.
  - exfalso. unfold verify_insn in E.
    destruct (get_insn_total prog pc Hl) as [insn Ei]; [lia|unfold INSN_SIZE; lia|]. rewrite Ei in E.
    destruct (select_arm v insn) as [body|]; [|done].
    destruct (run_body_total prog v insn pc body Hl Hm ltac:(lia) Ei) as [r Er]. by rewrite Er in E.
Qed.

(** ** Properties *)

(** The opcodes whose immediate is a divisor. *)
Definition div_imm_opcodes (v : SBPFVersion) : list Z :=
  if enable_pqr v
  then [UDIV32_IMM; UDIV64_IMM; UREM32_IMM; UREM64_IMM; SDIV32_IMM; SDIV64_IMM; SREM32_IMM; SREM64_IMM]
  else [DIV32_IMM; MOD32_IMM; DIV64_IMM; MOD64_IMM].

(** The opcodes that jump by their offset. *)
Definition jump_opcodes (v : SBPFVersion) : list Z :=
  (if enable_jmp32 v then map (fun a => a.1.1) (arms_jmp32 v) else [])
  ++ [ JA; JEQ64_IMM; JEQ64_REG; JGT64_IMM; JGT64_REG; JGE64_IMM; JGE64_REG; JLT64_IMM; JLT64_REG;
       JLE64_IMM; JLE64_REG; JSET64_IMM; JSET64_REG; JNE64_IMM; JNE64_REG; JSGT64_IMM; JSGT64_REG;
       JSGE64_IMM; JSGE64_REG; JSLT64_IMM; JSLT64_REG; JSLE64_IMM; JSLE64_REG ].

(** Evaluate the table at a known opcode. *)
Ltac select_eval E := unfold select_arm; rewrite E; vm_compute; reflexivity.

Lemma select_div v insn : opc insn ∈ div_imm_opcodes v -> select_arm v insn = Some ImmNonzero.
Proof.
  destruct v; cbn; intros H;
    repeat (apply elem_of_cons in H as [H|H]; [select_eval H|]); by apply not_elem_of_nil in H.
Qed.

Lemma select_jump v insn : opc insn ∈ jump_opcodes v -> select_arm v insn = Some JmpOffset.
Proof.
  destruct v; cbn; intros H;
    repeat (apply elem_of_cons in H as [H|H]; [select_eval H|]); by apply not_elem_of_nil in H.
Qed.

Lemma accepted_registers prog v pc insn :
  accepted prog v pc insn -> src insn <= 10 /\ 0 <= dst insn <= 10.
Proof.
  intros (body & store & next & _ & _ & H). unfold check_registers in H.
  destruct (Z.ltb_spec 10 (src insn)); [done|]. split; [done|].
  destruct (Z.leb_spec 0 (dst insn)), (Z.leb_spec (dst insn) 9), (Z.eqb_spec (dst insn) 10);
    cbn in H; try done; lia.
Qed.

Lemma accepted_body prog v pc insn body :
  accepted prog v pc insn -> select_arm v insn = Some body ->
  exists store next, run_body prog v (program_range prog) insn pc body = Some (Ok (store, next)).
Proof. intros (b & store & next & Hs & Hr & _) E. rewrite E in Hs. injection Hs as <-. eauto. Qed.

Lemma accepted_nonzero prog v pc insn :
  accepted prog v pc insn -> select_arm v insn = Some ImmNonzero -> imm insn <> 0.
Proof.
  intros Ha Hs. destruct (accepted_body _ _ _ _ _ Ha Hs) as (store & next & H). cbn [run_body] in H.
  unfold check_imm_nonzero in H. by destruct (Z.eqb_spec (imm insn) 0).
Qed.

Lemma accepted_jump prog v pc insn :
  rust_len prog -> 0 <= pc -> get_insn prog pc = Some insn ->
  accepted prog v pc insn -> select_arm v insn = Some JmpOffset ->
  0 <= pc + 1 + off insn < num_insns prog /\
  exists target, get_insn prog (pc + 1 + off insn) = Some target /\ opc target <> 0.
Proof.
  intros Hl Hpc Ei Ha Hs. destruct (accepted_body _ _ _ _ _ Ha Hs) as (store & next & H). cbn [run_body] in H.
  unfold check_jmp_offset in H. rewrite Ei in H.
  destruct (Z.ltb_spec (pc + 1 + off insn) 0) as [|Hge]; cbn [orb] in H; [done|].
  destruct (range_contains _ _) eqn:Ec; cbn [negb] in H; [|done].
  unfold range_contains in Ec. cbn [program_range r_start r_end] in Ec. bool_to_prop.
  destruct (get_insn prog (as_usize _)) as [target|] eqn:Et; [|done].
  destruct (Z.eqb_spec (opc target) 0) as [|Hne]; [done|].
  pose proof (get_insn_range prog pc insn Hl Hpc Ei) as Hr.
  pose proof (get_insn_off prog pc insn Ei) as Hoff.
  assert (as_usize (pc + 1 + off insn) = pc + 1 + off insn) as E
    by (unfold rust_len, INSN_SIZE in *; int_lia).
  rewrite E in *. split; [unfold num_insns; lia|]. by exists target.
Qed.

Lemma accepted_callx prog v pc insn :
  accepted prog v pc insn -> select_arm v insn = Some CallxRegister ->
  let reg := if callx_uses_src_reg v then src insn
             else if callx_uses_dst_reg v then dst insn else imm insn in
  0 <= reg < 10.
Proof.
  intros Ha Hs. destruct (accepted_body _ _ _ _ _ Ha Hs) as (store & next & H). cbn [run_body] in H.
  unfold check_callx_register, range_contains in H. cbn [r_start r_end] in H.
  set (reg := if callx_uses_src_reg v then _ else _) in *. clearbody reg.
  destruct (Z.leb_spec 0 reg), (Z.ltb_spec reg 10); cbn in H; (done || lia).
Qed.

Lemma accepted_wide prog v pc insn :
  accepted prog v pc insn -> opc insn = LD_DW_IMM ->
  disable_lddw v = false /\ exists tail, get_insn prog (pc + 1) = Some tail /\ opc tail = 0.
Proof.
  intros Ha Ho. assert (disable_lddw v = false) as Hd.
  { destruct Ha as (b & ? & ? & Hs & _). unfold select_arm in Hs. rewrite Ho in Hs.
    by destruct v; try done; vm_compute in Hs. }
  assert (select_arm v insn = Some LoadDw) as Hs by (destruct v; try done; select_eval Ho).
  split; [done|]. destruct (accepted_body _ _ _ _ _ Ha Hs) as (store & next & H).
  apply run_body_next in H as [_ H]. specialize (H eq_refl). unfold check_load_dw in H.
  destruct (_ <=? _); [done|]. destruct (get_insn prog (pc + 1)) as [tail|]; [|done].
  exists tail. split; [done|]. by destruct (Z.eqb_spec (opc tail) 0).
Qed.

Lemma verify_total prog v : rust_len prog -> is_Some (verify prog v).
Proof.
  intros Hl. unfold verify, check_prog_len.
  destruct (Z.eqb_spec (len prog mod INSN_SIZE) 0) as [Em|]; cbn [negb]; [|by eexists].
  destruct (is_nil prog); [by eexists|]. fold (program_range prog).
  pose proof (len_nonneg prog). unfold INSN_SIZE in *.
  destruct (verify_loop_total (Z.to_nat (len prog / 8)) prog v 0 Hl) as [r Hr];
    unfold num_insns, INSN_SIZE; [int_lia..|]. rewrite Hr. by eexists.
Qed.

(** C34. The verifier terminates without a panic, and accepting a program has
    the meaning the interpreter relies on. Every slot holds an instruction that
    either is the tail of a wide load or satisfies: registers are in range; an
    immediate divisor is not zero; a jump lands inside the program on an
    instruction that is not the tail of a wide load; a wide load is followed by
    its tail; an indirect call names one of the ten general registers. *)
Theorem verify_total_sound (prog : list Z) (v : SBPFVersion) :
  rust_len prog ->
  is_Some (verify prog v) /\
  (verify prog v = Some (Ok tt) ->
   len prog = num_insns prog * INSN_SIZE /\ 0 < num_insns prog /\
   forall pc, 0 <= pc < num_insns prog ->
   exists insn, get_insn prog pc = Some insn /\
   (wide_tail prog v pc insn \/
    src insn <= 10 /\ 0 <= dst insn <= 10 /\
    (opc insn ∈ div_imm_opcodes v -> imm insn <> 0) /\
    (opc insn ∈ jump_opcodes v ->
       0 <= pc + 1 + off insn < num_insns prog /\
       exists target, get_insn prog (pc + 1 + off insn) = Some target /\ opc target <> 0) /\
    (opc insn = LD_DW_IMM ->
       exists tail, get_insn prog (pc + 1) = Some tail /\ opc tail = 0) /\
    (opc insn = CALL_REG ->
       let reg := if callx_uses_src_reg v then src insn
                  else if callx_uses_dst_reg v then dst insn else imm insn in
       0 <= reg < 10))).
Proof.
  intros Hl. split; [by apply verify_total|].
  intros Hv. destruct (verify_slots prog v Hl Hv) as (Hm & Hn & Hs). do 2 (split; [done|]).
  intros pc Hpc. destruct (Hs pc Hpc) as (insn & Ei & [Ha|Ht]); exists insn; (split; [done|]);
    [right|by left].
  destruct (accepted_registers _ _ _ _ Ha) as [Hsrc Hdst]. do 2 (split; [done|]). split; [|split; [|split]].
  - intros Hd. eapply accepted_nonzero; [done|by apply select_div].
  - intros Hj. eapply accepted_jump; [done|lia|done|done|by apply select_jump].
  - intros Ho. by apply (accepted_wide prog v pc insn).
  - intros Ho. eapply accepted_callx; [done|]. destruct v; select_eval Ho.
Qed.

Lemma verify_total_sound_witness :
  verify example_program V0 = Some (Ok tt) /\ num_insns example_program = 8 /\
  exists insn, get_insn example_program 4 = Some insn /\
    0 <= 4 + 1 + off insn < num_insns example_program.
Proof.
  destruct (verify_total_sound example_program V0 ltac:(by vm_compute)) as [_ H].
  destruct (H ltac:(by vm_compute)) as (_ & _ & Hs). split; [by vm_compute|]. split; [by vm_compute|].
  destruct (Hs 4 ltac:(by vm_compute)) as (insn & Ei & [(Ht & _)|(_ & _ & _ & Hj & _)]).
  - exfalso. vm_compute in Ei. injection Ei as <-. by vm_compute in Ht.
  - exists insn. split; [exact Ei|]. apply Hj. vm_compute in Ei. injection Ei as <-.
    apply list_elem_of_In. vm_compute. tauto.
Defined.
