(* ===== verification/Vm.v ===== *)
(** The virtual machine around the interpreter: [ContextObject], [CallFrame] and
    [EbpfVm] (sbpf/src/vm.rs), [BuiltinProgram] and the adapter that
    [declare_builtin_function] generates (sbpf/src/program.rs), and the parts of
    [Executable] that execution uses (sbpf/src/elf.rs).

    Left out of [EbpfVm]: the host stack pointer, the stop watch and the
    debugger fields, which the interpreter does not use, and the loader, which
    is reached through the executable (the code asserts that it is the same
    one). The host memory that the mapping translates into is part of the
    state. *)

From Stdlib Require Import ZArith Lia Bool.
From stdpp Require Import strings.
From S2P Require Import Prelude.
From S2P Require Import SbpfTypes.
From S2P Require Import Ebpf.
From S2P Require Import Tracker.
From S2P Require Import MemoryRegion.
From S2P Require Import Mapping.

#[local] Open Scope Z_scope.

(** The runtime context: the instruction meter. *)
Class ContextObject (C : Type) := {
  consume : C -> Z -> C;
  get_remaining : C -> Z
}.

Record CallFrame := mkFrame {
  caller_saved_registers : list Z;
  frame_pointer : Z;
  target_pc : Z
}.

Definition CallFrame_default : CallFrame := mkFrame [0; 0; 0; 0] 0 0.

Record EbpfVm (C : Type) := mkVm {
  call_depth : Z;
  context_object_pointer : C;
  previous_instruction_meter : Z;
  due_insn_count : Z;
  registers : list Z;
  program_result : ProgramResult;
  memory_mapping : MemoryMapping;
  call_frames : list CallFrame;
  register_trace : list (list Z);
  host_memory : HostMemory
}.
Arguments mkVm {C}.
Arguments call_depth {C}.
Arguments context_object_pointer {C}.
Arguments previous_instruction_meter {C}.
Arguments due_insn_count {C}.
Arguments registers {C}.
Arguments program_result {C}.
Arguments memory_mapping {C}.
Arguments call_frames {C}.
Arguments register_trace {C}.
Arguments host_memory {C}.

(** Field updates. *)
Section setters.
Context {C : Type}.
Implicit Types vm : EbpfVm C.

Definition set_call_depth (x : Z) vm : EbpfVm C :=
  mkVm x (context_object_pointer vm) (previous_instruction_meter vm) (due_insn_count vm)
    (registers vm) (program_result vm) (memory_mapping vm) (call_frames vm)
    (register_trace vm) (host_memory vm).
Definition set_context (x : C) vm : EbpfVm C :=
  mkVm (call_depth vm) x (previous_instruction_meter vm) (due_insn_count vm)
    (registers vm) (program_result vm) (memory_mapping vm) (call_frames vm)
    (register_trace vm) (host_memory vm).
Definition set_previous_instruction_meter (x : Z) vm : EbpfVm C :=
  mkVm (call_depth vm) (context_object_pointer vm) x (due_insn_count vm)
    (registers vm) (program_result vm) (memory_mapping vm) (call_frames vm)
    (register_trace vm) (host_memory vm).
Definition set_due_insn_count (x : Z) vm : EbpfVm C :=
  mkVm (call_depth vm) (context_object_pointer vm) (previous_instruction_meter vm) x
    (registers vm) (program_result vm) (memory_mapping vm) (call_frames vm)
    (register_trace vm) (host_memory vm).
Definition set_registers (x : list Z) vm : EbpfVm C :=
  mkVm (call_depth vm) (context_object_pointer vm) (previous_instruction_meter vm)
    (due_insn_count vm) x (program_result vm) (memory_mapping vm) (call_frames vm)
    (register_trace vm) (host_memory vm).
Definition set_program_result (x : ProgramResult) vm : EbpfVm C :=
  mkVm (call_depth vm) (context_object_pointer vm) (previous_instruction_meter vm)
    (due_insn_count vm) (registers vm) x (memory_mapping vm) (call_frames vm)
    (register_trace vm) (host_memory vm).
Definition set_memory (m : MemoryMapping) (host : HostMemory) vm : EbpfVm C :=
  mkVm (call_depth vm) (context_object_pointer vm) (previous_instruction_meter vm)
    (due_insn_count vm) (registers vm) (program_result vm) m (call_frames vm)
    (register_trace vm) host.
Definition set_call_frames (x : list CallFrame) vm : EbpfVm C :=
  mkVm (call_depth vm) (context_object_pointer vm) (previous_instruction_meter vm)
    (due_insn_count vm) (registers vm) (program_result vm) (memory_mapping vm) x
    (register_trace vm) (host_memory vm).
Definition set_register_trace (x : list (list Z)) vm : EbpfVm C :=
  mkVm (call_depth vm) (context_object_pointer vm) (previous_instruction_meter vm)
    (due_insn_count vm) (registers vm) (program_result vm) (memory_mapping vm) (call_frames vm)
    x (host_memory vm).

End setters.

(** ** Builtin functions and programs *)

(** A function the guest can call, given the machine and five arguments. *)
Abbreviation BuiltinFunction C := (EbpfVm C -> Z -> Z -> Z -> Z -> Z -> EbpfVm C).

Record BuiltinProgram (C : Type) := mkBuiltinProgram {
  bp_config : option Config;
  sparse_registry : FunctionRegistry (BuiltinFunction C)
}.
Arguments mkBuiltinProgram {C}.
Arguments bp_config {C}.
Arguments sparse_registry {C}.

Definition new_loader {C} (config : Config) : BuiltinProgram C :=
  mkBuiltinProgram (Some config) registry_default.

(** The Rust half of a builtin: the body of [fn rust] in
    [declare_builtin_function], a parameter of the model. *)
Abbreviation RustBuiltin C :=
  (C -> Z -> Z -> Z -> Z -> Z -> MemoryMapping -> HostMemory ->
   C * MemoryMapping * HostMemory * Result Z BoxError).

(** The VM half that the macro generates. *)
Definition builtin_vm {C} `{ContextObject C} (config : Config) (rust : RustBuiltin C)
    : BuiltinFunction C :=
  fun vm arg_a arg_b arg_c arg_d arg_e =>
    let vm :=
      if enable_instruction_meter config
      then set_context
             (consume (context_object_pointer vm)
                (wrapping_sub (previous_instruction_meter vm) (due_insn_count vm))) vm
      else vm in
    let '(ctx, m, host, result) :=
      rust (context_object_pointer vm) arg_a arg_b arg_c arg_d arg_e
        (memory_mapping vm) (host_memory vm) in
    let vm := set_memory m host (set_context ctx vm) in
    let vm := set_program_result (map_err SyscallError result) vm in
    if enable_instruction_meter config
    then set_previous_instruction_meter (get_remaining (context_object_pointer vm)) vm
    else vm.

(** ** Executable *)

Inductive Section_ :=
| Owned (offset : Z) (data : list Z)
| Borrowed (offset : Z) (byte_range : Range).

Record Executable (C : Type) := mkExecutable {
  elf_bytes : list Z;
  sbpf_version : SBPFVersion;
  ro_section : Section_;
  text_section_vaddr : Z;
  text_section_range : Range;
  entry_pc : Z;
  function_registry : FunctionRegistry Z;
  loader : BuiltinProgram C
}.
Arguments mkExecutable {C}.
Arguments elf_bytes {C}.
Arguments sbpf_version {C}.
Arguments ro_section {C}.
Arguments text_section_vaddr {C}.
Arguments text_section_range {C}.
Arguments entry_pc {C}.
Arguments function_registry {C}.
Arguments loader {C}.

(** [self.loader.get_config()] unwraps the option. *)
Definition get_config {C} (ex : Executable C) : option Config := bp_config (loader ex).

(** [get_text_bytes().1]. *)
Definition text_bytes {C} (ex : Executable C) : list Z :=
  slice (elf_bytes ex) (r_start (text_section_range ex)) (r_end (text_section_range ex)).

Definition get_ro_section {C} (ex : Executable C) : list Z :=
  match ro_section ex with
  | Owned _ data => data
  | Borrowed _ byte_range => slice (elf_bytes ex) (r_start byte_range) (r_end byte_range)
  end.

(** ** EbpfVm *)

Definition vm_new {C} (config : Config) (v : SBPFVersion) (context_object : C)
    (m : MemoryMapping) (host : HostMemory) (stack_len : Z) : EbpfVm C :=
  let registers := replicate 12 0 in
  let registers :=
    <[Z.to_nat FRAME_PTR_REG :=
        saturating_add MM_STACK_START
          (if negb (manual_stack_frame_bump v) then stack_frame_size config else stack_len)]>
      registers in
  let m := if negb (enable_address_translation config) then Identity else m in
  {| call_depth := 0;
     context_object_pointer := context_object;
     previous_instruction_meter := 0;
     due_insn_count := 0;
     registers := registers;
     program_result := Ok 0;
     memory_mapping := m;
     call_frames := replicate (Z.to_nat (max_call_depth config)) CallFrame_default;
     register_trace := [];
     host_memory := host |}.

(** [invoke_function]: the function is called with the machine and the five
    argument registers. *)
Definition invoke_function {C} (vm : EbpfVm C) (function : BuiltinFunction C) : EbpfVm C :=
  function vm (registers vm !!! 1%nat) (registers vm !!! 2%nat) (registers vm !!! 3%nat)
    (registers vm !!! 4%nat) (registers vm !!! 5%nat).

Section tracker_access.
Context {C : Type}.
Implicit Types vm : EbpfVm C.

Definition on_access_tracker (f : MemoryAccessTracker -> MemoryAccessTracker) vm : EbpfVm C :=
  set_memory (with_access_tracker f (memory_mapping vm)) (host_memory vm) vm.

Definition add_watched_memory_range vm (range : Range) : EbpfVm C :=
  on_access_tracker (fun t => add_watched_range t range) vm.
Definition add_watched_memory_ranges vm (ranges : list Range) : EbpfVm C :=
  on_access_tracker (fun t => add_watched_ranges t ranges) vm.
Definition has_forbidden_memory_accesses vm : bool :=
  match get_access_tracker (memory_mapping vm) with
  | Some t => has_forbidden_accesses t
  | None => false
  end.
Definition get_forbidden_memory_accesses vm : list (Z * Z) :=
  match get_access_tracker (memory_mapping vm) with
  | Some t => get_forbidden_accesses t
  | None => []
  end.
Definition get_watched_memory_ranges vm : list Range :=
  match get_access_tracker (memory_mapping vm) with
  | Some t => get_watched_ranges t
  | None => []
  end.
Definition reset_access_tracker vm : EbpfVm C := on_access_tracker reset vm.
Definition clear_access_tracker vm : EbpfVm C := on_access_tracker clear vm.

End tracker_access.
