(* ===== verification/Interp.v ===== *)
(** The interpreter (sbpf/src/interpreter.rs).

    The arms of the [match insn.opc] of [Interpreter::step] are functions of the
    registers and the instruction; an arm that only computes denotes an [Action]
    (the assignment, memory access, jump or error it ends with), which [perform]
    carries out on the machine. Calls and exits act on the machine directly. An
    index out of bounds, a division that panics, and a memory access outside
    allocated memory are [None]. Integer arithmetic wraps, as in a release
    build. *)

From Stdlib Require Import ZArith Lia Bool.
From stdpp Require Import strings.
From S2P Require Import Prelude.
From S2P Require Import SbpfTypes.
From S2P Require Import Ebpf.
From S2P Require Import Tracker.
From S2P Require Import MemoryRegion.
From S2P Require Import Mapping.
From S2P Require Import Vm.

#[local] Open Scope Z_scope.

(** What an arm does. *)
Inductive Action :=
| SetDst (value : Z)                      (* [self.reg[dst] = value] *)
| SetDstWide (value : Z)                  (* the same, and skip the second slot *)
| LoadDst (size : nat) (vm_addr : Z)      (* [self.reg[dst] = load(vm_addr)] *)
| StoreTo (size : nat) (value vm_addr : Z)
| JumpIf (condition : bool)
| Throw (err : EbpfError).

(** The result of trying the arms of one instruction class. *)
Inductive Arm :=
| NoArm
| ArmDo (a : option Action).

(** Division as Rust has it: by zero it panics, and so does the signed overflow. *)
Definition div_u (a b : Z) : option Z := if b =? 0 then None else Some (a / b).
Definition rem_u (a b : Z) : option Z := if b =? 0 then None else Some (a mod b).
Definition div_s (w a b : Z) : option Z :=
  if (b =? 0) || ((a =? - 2 ^ (w - 1)) && (b =? -1)) then None else Some (Z.quot a b).
Definition rem_s (w a b : Z) : option Z :=
  if (b =? 0) || ((a =? - 2 ^ (w - 1)) && (b =? -1)) then None else Some (Z.rem a b).

(** [to_be] on a little-endian host: the [n] bytes of the value, reversed. *)
Definition to_be (n : nat) (x : Z) : Z := le_combine (rev (le_split n x)).

Definition sign_extension (v : SBPFVersion) (value : Z) : Z :=
  if explicit_sign_extension_of_results v then as_u64 (as_u32 value) else as_u64 (as_i64 value).

Section arms.
Context (program : list Z) (v : SBPFVersion) (reg : list Z) (insn : Insn).

Local Notation "'on' o 'do' a 'orelse' k" :=
  (if opc insn =? o then ArmDo a else k) (at level 200, o at level 0, a at level 100, k at level 200).
Local Notation "'on' o 'when' g 'do' a 'orelse' k" :=
  (if (opc insn =? o) && g then ArmDo a else k)
  (at level 200, o at level 0, g at level 100, a at level 100, k at level 200).

(** [self.reg[dst]] and [self.reg[src]]. *)
Definition reg_dst : option Z := reg !! Z.to_nat (dst insn).
Definition reg_src : option Z := reg !! Z.to_nat (src insn).

(** [(r as i64).wrapping_add(insn.off as i64) as u64]. *)
Definition vm_addr_at (r : Z) : Z := as_u64 (as_i64 (as_i64 r + off insn)).

Definition load_arm (size : nat) : option Action :=
  let! s := reg_src in Some (LoadDst size (vm_addr_at s)).
Definition store_imm_arm (size : nat) : option Action :=
  let! d := reg_dst in Some (StoreTo size (imm insn) (vm_addr_at d)).
Definition store_reg_arm (size : nat) : option Action :=
  let! d := reg_dst in let! s := reg_src in Some (StoreTo size s (vm_addr_at d)).

Definition alu (f : Z -> Z) : option Action :=
  let! d := reg_dst in Some (SetDst (f d)).
Definition alu_reg (f : Z -> Z -> Z) : option Action :=
  let! d := reg_dst in let! s := reg_src in Some (SetDst (f d s)).
(** An operation that may panic. *)
Definition alu_div (f : Z -> option Z) : option Action :=
  let! d := reg_dst in let! x := f d in Some (SetDst x).
(** The [throw_error!(DivideByZero; ...)] test on the source register, read at
    type [ty], before the operation. *)
Definition nonzero_src (ty : Z -> Z) (k : Z -> option Action) : option Action :=
  let! s := reg_src in if ty s =? 0 then Some (Throw DivideByZero) else k s.
(** The [throw_error!(DivideOverflow; ...)] test. *)
Definition no_overflow (w : Z) (divisor : Z) (k : option Action) : option Action :=
  let! d := reg_dst in
  if (cast_s w d =? - 2 ^ (w - 1)) && (cast_s w divisor =? -1)
  then Some (Throw DivideOverflow) else k.

Definition arms_ldst : Arm :=
  on LD_DW_IMM when negb (disable_lddw v) do
    (let! wide := augment_lddw_unchecked program insn in
     Some (SetDstWide (as_u64 (imm wide)))) orelse
  on LD_B_REG when negb (move_memory_instruction_classes v) do load_arm 1 orelse
  on LD_H_REG when negb (move_memory_instruction_classes v) do load_arm 2 orelse
  on LD_W_REG when negb (move_memory_instruction_classes v) do load_arm 4 orelse
  on LD_DW_REG when negb (move_memory_instruction_classes v) do load_arm 8 orelse
  on ST_B_IMM when negb (move_memory_instruction_classes v) do store_imm_arm 1 orelse
  on ST_H_IMM when negb (move_memory_instruction_classes v) do store_imm_arm 2 orelse
  on ST_W_IMM when negb (move_memory_instruction_classes v) do store_imm_arm 4 orelse
  on ST_DW_IMM when negb (move_memory_instruction_classes v) do store_imm_arm 8 orelse
  on ST_B_REG when negb (move_memory_instruction_classes v) do store_reg_arm 1 orelse
  on ST_H_REG when negb (move_memory_instruction_classes v) do store_reg_arm 2 orelse
  on ST_W_REG when negb (move_memory_instruction_classes v) do store_reg_arm 4 orelse
  on ST_DW_REG when negb (move_memory_instruction_classes v) do store_reg_arm 8 orelse
  NoArm.

Definition arms_alu32 : Arm :=
  on ADD32_IMM do alu (fun d => sign_extension v (as_i32 (as_i32 d + as_i32 (imm insn)))) orelse
  on ADD32_REG do alu_reg (fun d s => sign_extension v (as_i32 (as_i32 d + as_i32 s))) orelse
  on SUB32_IMM do
    (if swap_sub_reg_imm_operands v
     then alu (fun d => sign_extension v (as_i32 (as_i32 (imm insn) - as_i32 d)))
     else alu (fun d => sign_extension v (as_i32 (as_i32 d - as_i32 (imm insn))))) orelse
  on SUB32_REG do alu_reg (fun d s => sign_extension v (as_i32 (as_i32 d - as_i32 s))) orelse
  on MUL32_IMM when negb (enable_pqr v) do
    alu (fun d => sign_extension v (as_i32 (as_i32 d * as_i32 (imm insn)))) orelse
  on MUL32_REG when negb (enable_pqr v) do
    alu_reg (fun d s => sign_extension v (as_i32 (as_i32 d * as_i32 s))) orelse
  on LD_1B_REG when move_memory_instruction_classes v do load_arm 1 orelse
  on DIV32_IMM when negb (enable_pqr v) do alu_div (fun d => div_u (as_u32 d) (as_u32 (imm insn))) orelse
  on DIV32_REG when negb (enable_pqr v) do
    nonzero_src as_u32 (fun s => alu_div (fun d => div_u (as_u32 d) (as_u32 s))) orelse
  on LD_2B_REG when move_memory_instruction_classes v do load_arm 2 orelse
  on OR32_IMM do alu (fun d => Z.lor (as_u32 d) (as_u32 (imm insn))) orelse
  on OR32_REG do alu_reg (fun d s => Z.lor (as_u32 d) (as_u32 s)) orelse
  on AND32_IMM do alu (fun d => Z.land (as_u32 d) (as_u32 (imm insn))) orelse
  on AND32_REG do alu_reg (fun d s => Z.land (as_u32 d) (as_u32 s)) orelse
  on LSH32_IMM do alu (fun d => wrapping_shl 32 (as_u32 d) (as_u32 (imm insn))) orelse
  on LSH32_REG do alu_reg (fun d s => wrapping_shl 32 (as_u32 d) (as_u32 s)) orelse
  on RSH32_IMM do alu (fun d => wrapping_shr 32 (as_u32 d) (as_u32 (imm insn))) orelse
  on RSH32_REG do alu_reg (fun d s => wrapping_shr 32 (as_u32 d) (as_u32 s)) orelse
  on NEG32 when negb (disable_neg v) do
    alu (fun d => Z.land (as_u64 (as_i32 (- as_i32 d))) u32_MAX) orelse
  on LD_4B_REG when move_memory_instruction_classes v do load_arm 4 orelse
  on MOD32_IMM when negb (enable_pqr v) do alu_div (fun d => rem_u (as_u32 d) (as_u32 (imm insn))) orelse
  on MOD32_REG when negb (enable_pqr v) do
    nonzero_src as_u32 (fun s => alu_div (fun d => rem_u (as_u32 d) (as_u32 s))) orelse
  on LD_8B_REG when move_memory_instruction_classes v do load_arm 8 orelse
  on XOR32_IMM do alu (fun d => Z.lxor (as_u32 d) (as_u32 (imm insn))) orelse
  on XOR32_REG do alu_reg (fun d s => Z.lxor (as_u32 d) (as_u32 s)) orelse
  on MOV32_IMM do alu (fun _ => as_u64 (as_u32 (imm insn))) orelse
  on MOV32_REG do
    alu_reg (fun _ s => if explicit_sign_extension_of_results v
                        then as_u64 (as_i64 (as_i32 s)) else as_u64 (as_u32 s)) orelse
  on ARSH32_IMM do
    alu (fun d => as_u64 (as_u32 (wrapping_shr 32 (as_i32 d) (as_u32 (imm insn))))) orelse
  on ARSH32_REG do
    alu_reg (fun d s => as_u64 (as_u32 (wrapping_shr 32 (as_i32 d) (as_u32 s)))) orelse
  on LE when negb (disable_le v) do
    (if imm insn =? 16 then alu (fun d => as_u64 (as_u16 d))
     else if imm insn =? 32 then alu (fun d => as_u64 (as_u32 d))
     else if imm insn =? 64 then alu (fun d => d)
     else Some (Throw InvalidInstruction)) orelse
  on BE do
    (if imm insn =? 16 then alu (fun d => to_be 2 (as_u16 d))
     else if imm insn =? 32 then alu (fun d => to_be 4 (as_u32 d))
     else if imm insn =? 64 then alu (fun d => to_be 8 d)
     else Some (Throw InvalidInstruction)) orelse
  NoArm.

Definition arms_alu64 : Arm :=
  on ADD64_IMM do alu (fun d => wrapping_add d (as_u64 (imm insn))) orelse
  on ADD64_REG do alu_reg (fun d s => wrapping_add d s) orelse
  on SUB64_IMM do
    (if swap_sub_reg_imm_operands v
     then alu (fun d => wrapping_sub (as_u64 (imm insn)) d)
     else alu (fun d => wrapping_sub d (as_u64 (imm insn)))) orelse
  on SUB64_REG do alu_reg (fun d s => wrapping_sub d s) orelse
  on MUL64_IMM when negb (enable_pqr v) do alu (fun d => wrapping_mul d (as_u64 (imm insn))) orelse
  on ST_1B_IMM when move_memory_instruction_classes v do store_imm_arm 1 orelse
  on MUL64_REG when negb (enable_pqr v) do alu_reg (fun d s => wrapping_mul d s) orelse
  on ST_1B_REG when move_memory_instruction_classes v do store_reg_arm 1 orelse
  on DIV64_IMM when negb (enable_pqr v) do alu_div (fun d => div_u d (as_u64 (imm insn))) orelse
  on ST_2B_IMM when move_memory_instruction_classes v do store_imm_arm 2 orelse
  on DIV64_REG when negb (enable_pqr v) do
    nonzero_src as_u64 (fun s => alu_div (fun d => div_u d s)) orelse
  on ST_2B_REG when move_memory_instruction_classes v do store_reg_arm 2 orelse
  on OR64_IMM do alu (fun d => Z.lor d (as_u64 (imm insn))) orelse
  on OR64_REG do alu_reg (fun d s => Z.lor d s) orelse
  on AND64_IMM do alu (fun d => Z.land d (as_u64 (imm insn))) orelse
  on AND64_REG do alu_reg (fun d s => Z.land d s) orelse
  on LSH64_IMM do alu (fun d => wrapping_shl 64 d (as_u32 (imm insn))) orelse
  on LSH64_REG do alu_reg (fun d s => wrapping_shl 64 d (as_u32 s)) orelse
  on RSH64_IMM do alu (fun d => wrapping_shr 64 d (as_u32 (imm insn))) orelse
  on RSH64_REG do alu_reg (fun d s => wrapping_shr 64 d (as_u32 s)) orelse
  on ST_4B_IMM when move_memory_instruction_classes v do store_imm_arm 4 orelse
  on NEG64 when negb (disable_neg v) do alu (fun d => as_u64 (as_i64 (- as_i64 d))) orelse
  on ST_4B_REG when move_memory_instruction_classes v do store_reg_arm 4 orelse
  on MOD64_IMM when negb (enable_pqr v) do alu_div (fun d => rem_u d (as_u64 (imm insn))) orelse
  on ST_8B_IMM when move_memory_instruction_classes v do store_imm_arm 8 orelse
  on MOD64_REG when negb (enable_pqr v) do
    nonzero_src as_u64 (fun s => alu_div (fun d => rem_u d s)) orelse
  on ST_8B_REG when move_memory_instruction_classes v do store_reg_arm 8 orelse
  on XOR64_IMM do alu (fun d => Z.lxor d (as_u64 (imm insn))) orelse
  on XOR64_REG do alu_reg (fun d s => Z.lxor d s) orelse
  on MOV64_IMM do alu (fun _ => as_u64 (imm insn)) orelse
  on MOV64_REG do alu_reg (fun _ s => s) orelse
  on ARSH64_IMM do alu (fun d => as_u64 (wrapping_shr 64 (as_i64 d) (as_u32 (imm insn)))) orelse
  on ARSH64_REG do alu_reg (fun d s => as_u64 (wrapping_shr 64 (as_i64 d) (as_u32 s))) orelse
  on HOR64_IMM when disable_lddw v do
    alu (fun d => Z.lor d (wrapping_shl 64 (as_u64 (imm insn)) 32)) orelse
  NoArm.

Definition arms_pqr : Arm :=
  if negb (enable_pqr v) then NoArm else
  on LMUL32_IMM do alu (fun d => as_u64 (as_u32 (as_u32 d * as_u32 (imm insn)))) orelse
  on LMUL32_REG do alu_reg (fun d s => as_u64 (as_u32 (as_u32 d * as_u32 s))) orelse
  on LMUL64_IMM do alu (fun d => wrapping_mul d (as_u64 (imm insn))) orelse
  on LMUL64_REG do alu_reg (fun d s => wrapping_mul d s) orelse
  on UHMUL64_IMM do
    alu (fun d => as_u64 (wrapping_shr 128 (cast_u 128 (d * as_u32 (imm insn))) 64)) orelse
  on UHMUL64_REG do alu_reg (fun d s => as_u64 (wrapping_shr 128 (cast_u 128 (d * s)) 64)) orelse
  on SHMUL64_IMM do
    alu (fun d => as_u64 (wrapping_shr 128 (cast_s 128 (as_i64 d * imm insn)) 64)) orelse
  on SHMUL64_REG do
    alu_reg (fun d s => as_u64 (wrapping_shr 128 (cast_s 128 (as_i64 d * as_i64 s)) 64)) orelse
  on UDIV32_IMM do alu_div (fun d => div_u (as_u32 d) (as_u32 (imm insn))) orelse
  on UDIV32_REG do
    nonzero_src as_u32 (fun s => alu_div (fun d => div_u (as_u32 d) (as_u32 s))) orelse
  on UDIV64_IMM do alu_div (fun d => div_u d (as_u64 (as_u32 (imm insn)))) orelse
  on UDIV64_REG do nonzero_src as_u64 (fun s => alu_div (fun d => div_u d s)) orelse
  on UREM32_IMM do alu_div (fun d => rem_u (as_u32 d) (as_u32 (imm insn))) orelse
  on UREM32_REG do
    nonzero_src as_u32 (fun s => alu_div (fun d => rem_u (as_u32 d) (as_u32 s))) orelse
  on UREM64_IMM do alu_div (fun d => rem_u d (as_u64 (as_u32 (imm insn)))) orelse
  on UREM64_REG do nonzero_src as_u64 (fun s => alu_div (fun d => rem_u d s)) orelse
  on SDIV32_IMM do
    no_overflow 32 (imm insn)
      (alu_div (fun d => let! q := div_s 32 (as_i32 d) (as_i32 (imm insn)) in Some (as_u64 (as_u32 q)))) orelse
  on SDIV32_REG do
    nonzero_src as_i32 (fun s => no_overflow 32 s
      (alu_div (fun d => let! q := div_s 32 (as_i32 d) (as_i32 s) in Some (as_u64 (as_u32 q))))) orelse
  on SDIV64_IMM do
    no_overflow 64 (imm insn)
      (alu_div (fun d => let! q := div_s 64 (as_i64 d) (imm insn) in Some (as_u64 q))) orelse
  on SDIV64_REG do
    nonzero_src as_i64 (fun s => no_overflow 64 s
      (alu_div (fun d => let! q := div_s 64 (as_i64 d) (as_i64 s) in Some (as_u64 q)))) orelse
  on SREM32_IMM do
    no_overflow 32 (imm insn)
      (alu_div (fun d => let! q := rem_s 32 (as_i32 d) (as_i32 (imm insn)) in Some (as_u64 (as_u32 q)))) orelse
  on SREM32_REG do
    nonzero_src as_i32 (fun s => no_overflow 32 s
      (alu_div (fun d => let! q := rem_s 32 (as_i32 d) (as_i32 s) in Some (as_u64 (as_u32 q))))) orelse
  on SREM64_IMM do
    no_overflow 64 (imm insn)
      (alu_div (fun d => let! q := rem_s 64 (as_i64 d) (imm insn) in Some (as_u64 q))) orelse
  on SREM64_REG do
    nonzero_src as_i64 (fun s => no_overflow 64 s
      (alu_div (fun d => let! q := rem_s 64 (as_i64 d) (as_i64 s) in Some (as_u64 q)))) orelse
  NoArm.

(** Conditional jumps: the comparison on the destination register and the
    immediate or the source register, both read at the type [ty]. *)
Definition jmp_imm (ty : Z -> Z) (cmp : Z -> Z -> bool) : option Action :=
  let! d := reg_dst in Some (JumpIf (cmp (ty d) (ty (imm insn)))).
Definition jmp_reg (ty : Z -> Z) (cmp : Z -> Z -> bool) : option Action :=
  let! d := reg_dst in let! s := reg_src in Some (JumpIf (cmp (ty d) (ty s))).

Definition gtb (a b : Z) : bool := b <? a.
Definition geb (a b : Z) : bool := b <=? a.
Definition neb (a b : Z) : bool := negb (a =? b).
Definition setb (a b : Z) : bool := negb (Z.land a b =? 0).

Definition arms_jmp32 : Arm :=
  if negb (enable_jmp32 v) then NoArm else
  on JEQ32_IMM do jmp_imm as_u32 Z.eqb orelse
  on JEQ32_REG do jmp_reg as_u32 Z.eqb orelse
  on JGT32_IMM do jmp_imm as_u32 gtb orelse
  on JGT32_REG do jmp_reg as_u32 gtb orelse
  on JGE32_IMM do jmp_imm as_u32 geb orelse
  on JGE32_REG do jmp_reg as_u32 geb orelse
  on JLT32_IMM do jmp_imm as_u32 Z.ltb orelse
  on JLT32_REG do jmp_reg as_u32 Z.ltb orelse
  on JLE32_IMM do jmp_imm as_u32 Z.leb orelse
  on JLE32_REG do jmp_reg as_u32 Z.leb orelse
  on JSET32_IMM do jmp_imm as_u32 setb orelse
  on JSET32_REG do jmp_reg as_u32 setb orelse
  on JNE32_IMM do jmp_imm as_u32 neb orelse
  on JNE32_REG do jmp_reg as_u32 neb orelse
  on JSGT32_IMM do jmp_imm as_i32 gtb orelse
  on JSGT32_REG do jmp_reg as_i32 gtb orelse
  on JSGE32_IMM do jmp_imm as_i32 geb orelse
  on JSGE32_REG do jmp_reg as_i32 geb orelse
  on JSLT32_IMM do jmp_imm as_i32 Z.ltb orelse
  on JSLT32_REG do jmp_reg as_i32 Z.ltb orelse
  on JSLE32_IMM do jmp_imm as_i32 Z.leb orelse
  on JSLE32_REG do jmp_reg as_i32 Z.leb orelse
  NoArm.

(** Registers are [u64] already, and [insn.imm] is [i64]: [as_u64] on the former
    and [as_i64] on the latter change nothing. *)
Definition arms_jmp64 : Arm :=
  on JA do Some (JumpIf true) orelse
  on JEQ64_IMM do jmp_imm as_u64 Z.eqb orelse
  on JEQ64_REG do jmp_reg as_u64 Z.eqb orelse
  on JGT64_IMM do jmp_imm as_u64 gtb orelse
  on JGT64_REG do jmp_reg as_u64 gtb orelse
  on JGE64_IMM do jmp_imm as_u64 geb orelse
  on JGE64_REG do jmp_reg as_u64 geb orelse
  on JLT64_IMM do jmp_imm as_u64 Z.ltb orelse
  on JLT64_REG do jmp_reg as_u64 Z.ltb orelse
  on JLE64_IMM do jmp_imm as_u64 Z.leb orelse
  on JLE64_REG do jmp_reg as_u64 Z.leb orelse
  on JSET64_IMM do jmp_imm as_u64 setb orelse
  on JSET64_REG do jmp_reg as_u64 setb orelse
  on JNE64_IMM do jmp_imm as_u64 neb orelse
  on JNE64_REG do jmp_reg as_u64 neb orelse
  on JSGT64_IMM do jmp_imm as_i64 gtb orelse
  on JSGT64_REG do jmp_reg as_i64 gtb orelse
  on JSGE64_IMM do jmp_imm as_i64 geb orelse
  on JSGE64_REG do jmp_reg as_i64 geb orelse
  on JSLT64_IMM do jmp_imm as_i64 Z.ltb orelse
  on JSLT64_REG do jmp_reg as_i64 Z.ltb orelse
  on JSLE64_IMM do jmp_imm as_i64 Z.leb orelse
  on JSLE64_REG do jmp_reg as_i64 Z.leb orelse
  NoArm.

End arms.

(** ** The machine *)

(** [Interpreter]: the machine it borrows and the registers; the executable, the
    program and its address are read-only and stay arguments. *)
Record Interpreter (C : Type) := mkInterpreter {
  vm : EbpfVm C;
  reg : list Z
}.
Arguments mkInterpreter {C}.
Arguments vm {C}.
Arguments reg {C}.

(** How an arm leaves the [match]: on to the next instruction, or out of [step]. *)
Inductive Flow (C : Type) :=
| Next (i : Interpreter C) (next_pc : Z)
| Stop (i : Interpreter C).
Arguments Next {C}.
Arguments Stop {C}.

Section step.
Context {C : Type}.
Implicit Types ex : Executable C.

Definition set_vm (f : EbpfVm C -> EbpfVm C) (i : Interpreter C) : Interpreter C := mkInterpreter (f (vm i)) (reg i).

(** [self.reg[k] = value], a panic when out of bounds. *)
Definition set_reg (k value : Z) (i : Interpreter C) : option (Interpreter C) :=
  if (0 <=? k) && (k <? len (reg i))
  then Some (mkInterpreter (vm i) (<[Z.to_nat k := value]> (reg i))) else None.

Definition throw_error (i : Interpreter C) (err : EbpfError) : option (Flow C) :=
  let! pc := reg i !! 11%nat in
  if len (registers (vm i)) <=? 11 then None
  else Some (Stop (set_vm (fun vm =>
    set_program_result (Err err) (set_registers (<[11%nat := pc]> (registers vm)) vm)) i)).

Definition check_pc (program : list Z) (i : Interpreter C) (target_pc : Z) : option (Flow C) :=
  if is_pc_in_program program target_pc then Some (Next i target_pc)
  else throw_error i CallOutsideTextSegment.

(** Carry out what an arm denotes. *)
Definition perform (insn : Insn) (next_pc : Z) (i : Interpreter C) (a : Action) : option (Flow C) :=
  match a with
  | SetDst value => let! i := set_reg (dst insn) value i in Some (Next i next_pc)
  | SetDstWide value =>
      let! i := set_reg (dst insn) value i in
      let! pc := reg i !! 11%nat in
      let! i := set_reg 11 (wrapping_add pc 1) i in
      Some (Next i (wrapping_add next_pc 1))
  | LoadDst size vm_addr =>
      let! (m, host, result) :=
        mapping_load size (memory_mapping (vm i)) (host_memory (vm i)) vm_addr in
      let i := set_vm (set_memory m host) i in
      match result with
      | Ok value => let! i := set_reg (dst insn) value i in Some (Next i next_pc)
      | Err err => throw_error i err
      end
  | StoreTo size value vm_addr =>
      let! (m, host, result) :=
        mapping_store size (memory_mapping (vm i)) (host_memory (vm i)) value vm_addr in
      let i := set_vm (set_memory m host) i in
      match result with
      | Ok _ => Some (Next i next_pc)
      | Err err => throw_error i err
      end
  | JumpIf condition =>
      Some (Next i (if condition then as_u64 (as_i64 (as_i64 next_pc + off insn)) else next_pc))
  | Throw err => throw_error i err
  end.

(** [push_frame]: the call frame is written before the depth is checked. *)
Definition push_frame ex (config : Config) (i : Interpreter C) : option (bool * Interpreter C) :=
  let depth := call_depth (vm i) in
  let! _ := call_frames (vm i) !! Z.to_nat depth in
  let! fp := reg i !! Z.to_nat FRAME_PTR_REG in
  let! pc := reg i !! 11%nat in
  let frame := mkFrame (slice (reg i) FIRST_SCRATCH_REG (FIRST_SCRATCH_REG + SCRATCH_REGS)) fp
                 (wrapping_add pc 1) in
  let i := set_vm (fun vm =>
    set_call_depth (wrapping_add depth 1)
      (set_call_frames (<[Z.to_nat depth := frame]> (call_frames vm)) vm)) i in
  if call_depth (vm i) =? max_call_depth config then
    let! r := throw_error i CallDepthExceeded in
    match r with Next i _ | Stop i => Some (false, i) end
  else if negb (manual_stack_frame_bump (sbpf_version ex)) then
    let num_frames :=
      if stack_frame_gaps (sbpf_version ex) && enable_stack_frame_gaps config then 2 else 1 in
    let! i := set_reg FRAME_PTR_REG
                (wrapping_add fp (as_usize (stack_frame_size config * num_frames))) i in
    Some (true, i)
  else Some (true, i).

Definition call_reg_arm ex (config : Config) (insn : Insn) (i : Interpreter C) : option (Flow C) :=
  let! target_pc :=
    (if callx_uses_src_reg (sbpf_version ex) then reg_src (reg i) insn
     else if callx_uses_dst_reg (sbpf_version ex) then reg_dst (reg i) insn
     else reg i !! Z.to_nat (as_usize (imm insn))) in
  let! (pushed, i) := push_frame ex config i in
  if negb pushed then Some (Stop i)
  else check_pc (text_bytes ex) i
         (wrapping_sub target_pc (text_section_vaddr ex) / INSN_SIZE).

Definition dispatch_syscall (i : Interpreter C) (function : BuiltinFunction C) : Interpreter C :=
  let i := set_vm (fun vm =>
    set_due_insn_count (wrapping_sub (previous_instruction_meter vm) (due_insn_count vm)) vm) i in
  let i := set_vm (fun vm =>
    set_registers (take 6 (reg i) ++ drop 6 (registers vm)) vm) i in
  let i := set_vm (fun vm => invoke_function vm function) i in
  set_vm (set_due_insn_count 0) i.

(** The external half of [CALL_IMM]: the new state and [resolved], or an early
    return. *)
Definition call_imm_external ex (insn : Insn) (i : Interpreter C) : option (Interpreter C * bool) + Interpreter C :=
  if negb (static_syscalls (sbpf_version ex)) || (src insn =? 0) then
    match lookup_by_key (sparse_registry (loader ex)) (as_u32 (imm insn)) with
    | Some (_, function) =>
        let i := dispatch_syscall i function in
        match program_result (vm i) with
        | Ok value => inl (let! i := set_reg 0 value i in Some (i, true))
        | Err _ => inr i
        end
    | None => inl (Some (i, false))
    end
  else inl (Some (i, false)).

Definition call_imm_internal ex (config : Config) (insn : Insn) (next_pc : Z) (resolved : bool) (i : Interpreter C)
    : option (Flow C) :=
  let unresolved :=
    if resolved then Some (Next i next_pc) else throw_error i UnsupportedInstruction in
  if static_syscalls (sbpf_version ex) then
    let target_pc := saturating_add_i64 (as_i64 next_pc) (imm insn) in
    if is_pc_in_program (text_bytes ex) (as_usize target_pc) && (src insn =? 1) then
      let! (pushed, i) := push_frame ex config i in
      if negb pushed then Some (Stop i) else Some (Next i (as_u64 target_pc))
    else unresolved
  else
    match lookup_by_key (function_registry ex) (as_u32 (imm insn)) with
    | Some (_, target_pc) =>
        let! (pushed, i) := push_frame ex config i in
        if negb pushed then Some (Stop i) else check_pc (text_bytes ex) i target_pc
    | None => unresolved
    end.

Definition call_imm_arm ex (config : Config) (insn : Insn) (next_pc : Z) (i : Interpreter C) : option (Flow C) :=
  match call_imm_external ex insn i with
  | inr i => Some (Stop i)
  | inl r =>
      let! (i, resolved) := r in
      call_imm_internal ex config insn next_pc resolved i
  end.

Definition exit_arm ex (config : Config) (i : Interpreter C) : option (Flow C) :=
  if call_depth (vm i) =? 0 then
    if enable_instruction_meter config
       && (previous_instruction_meter (vm i) <? due_insn_count (vm i))
    then throw_error i ExceededMaxInstructions
    else
      let! r0 := reg i !! 0%nat in
      Some (Stop (set_vm (set_program_result (Ok r0)) i))
  else
    let i := set_vm (set_call_depth (wrapping_sub (call_depth (vm i)) 1)) i in
    let! frame := call_frames (vm i) !! Z.to_nat (call_depth (vm i)) in
    let! i := set_reg FRAME_PTR_REG (frame_pointer frame) i in
    let reg :=
      take (Z.to_nat FIRST_SCRATCH_REG) (reg i) ++ caller_saved_registers frame
      ++ drop (Z.to_nat (FIRST_SCRATCH_REG + SCRATCH_REGS)) (reg i) in
    check_pc (text_bytes ex) (mkInterpreter (vm i) reg) (target_pc frame).

(** The arms that denote actions, class by class in source order. *)
Definition step_arms ex (reg : list Z) (insn : Insn) : Arm :=
  let v := sbpf_version ex in
  match arms_ldst (text_bytes ex) v reg insn with ArmDo a => ArmDo a | NoArm =>
  match arms_alu32 v reg insn with ArmDo a => ArmDo a | NoArm =>
  match arms_alu64 v reg insn with ArmDo a => ArmDo a | NoArm =>
  match arms_pqr v reg insn with ArmDo a => ArmDo a | NoArm =>
  match arms_jmp32 v reg insn with ArmDo a => ArmDo a | NoArm =>
  arms_jmp64 reg insn end end end end end.

(** The [match insn.opc]. *)
Definition step_insn ex (config : Config) (insn : Insn) (next_pc : Z) (i : Interpreter C)
    : option (Flow C) :=
  match step_arms ex (reg i) insn with
  | ArmDo a => let! a := a in perform insn next_pc i a
  | NoArm =>
      if opc insn =? CALL_REG then call_reg_arm ex config insn i
      else if opc insn =? CALL_IMM then call_imm_arm ex config insn next_pc i
      else if opc insn =? EXIT then exit_arm ex config i
      else throw_error i UnsupportedInstruction
  end.

(** [step]: whether to go on, and the new state. *)
Definition step ex (i : Interpreter C) : option (bool * Interpreter C) :=
  let finish (r : option (Flow C)) :=
    let! r := r in
    match r with
    | Stop i => Some (false, i)
    | Next i next_pc => let! i := set_reg 11 next_pc i in Some (true, i)
    end in
  let! config := get_config ex in
  if enable_instruction_meter config
     && (previous_instruction_meter (vm i) <=? due_insn_count (vm i))
  then finish (throw_error i ExceededMaxInstructions)
  else
    let i := set_vm (fun vm => set_due_insn_count (wrapping_add (due_insn_count vm) 1) vm) i in
    let! pc := reg i !! 11%nat in
    if len (text_bytes ex) <=? wrapping_mul pc INSN_SIZE
    then finish (throw_error i ExecutionOverrun)
    else
      let next_pc := wrapping_add pc 1 in
      let! insn := get_insn_unchecked (text_bytes ex) pc in
      let i :=
        if enable_register_tracing config
        then set_vm (fun vm => set_register_trace (register_trace vm ++ [reg i]) vm) i
        else i in
      finish (step_insn ex config insn next_pc i).

(** [while interpreter.step() {}]: [None] when the interpreter panics, and
    [Some None] when the fuel runs out before the program stops. *)
Fixpoint run_interpreter (fuel : nat) ex (i : Interpreter C) : option (option (Interpreter C)) :=
  match fuel with
  | O => Some None
  | S fuel =>
      let! (continue, i) := step ex i in
      if (continue : bool) then run_interpreter fuel ex i else Some (Some i)
  end.

(** The prologue of [execute_program] and [Interpreter::new]. *)
Definition enter_program `{ContextObject C} ex (machine : EbpfVm C) : Interpreter C :=
  let machine := set_registers (<[11%nat := entry_pc ex]> (registers machine)) machine in
  let initial_insn_count := get_remaining (context_object_pointer machine) in
  let machine :=
    set_program_result (Ok 0)
      (set_due_insn_count 0 (set_previous_instruction_meter initial_insn_count machine)) in
  mkInterpreter machine (registers machine).

(** [execute_program] with [interpreted = true]: the instruction count, the
    result and the machine. *)
Definition execute_program `{ContextObject C} (fuel : nat) ex (machine : EbpfVm C)
    : option (option (Z * ProgramResult * EbpfVm C)) :=
  let! config := get_config ex in
  let initial_insn_count := get_remaining (context_object_pointer machine) in
  let! r := run_interpreter fuel ex (enter_program ex machine) in
  match r with
  | None => Some None
  | Some i =>
      let machine := vm i in
      let machine :=
        if enable_instruction_meter config
        then set_context (consume (context_object_pointer machine) (due_insn_count machine)) machine
        else machine in
      let instruction_count :=
        if enable_instruction_meter config
        then saturating_sub initial_insn_count (get_remaining (context_object_pointer machine))
        else 0 in
      Some (Some (instruction_count, program_result machine, set_program_result (Ok 0) machine))
  end.

End step.
