(* ===== verification/InterpSafe.v ===== *)
(** Safety of the interpreter: a program the verifier accepts never makes
    [Interpreter::step] panic or touch unallocated memory, whatever its inputs,
    provided the builtins it calls keep the machine well formed. *)

From Stdlib Require Import ZArith Lia Bool.
From stdpp Require Import strings.
From S2P Require Import Prelude.
From S2P Require Import SbpfTypes.
From S2P Require Import Ebpf.
From S2P Require Import Tracker.
From S2P Require Import MemoryRegion.
From S2P Require Import Mapping.
From S2P Require Import MappingSafe.
From S2P Require Import Verifier.
From S2P Require Import Vm.
From S2P Require Import Interp.

#[local] Open Scope Z_scope.

(** ** Ranges of machine values *)

Lemma is_u_of_cast w x : 0 <= w -> cast_u w x = x -> is_u w x.
Proof. intros Hw <-. by apply cast_u_range. Qed.

Lemma u_lor w a b : 0 <= w -> is_u w a -> is_u w b -> is_u w (Z.lor a b).
Proof.
  intros Hw Ha Hb. apply is_u_of_cast; [done|]. unfold cast_u.
  rewrite <- !Z.land_ones, Z.land_lor_distr_l, !Z.land_ones by done.
  by rewrite !Z.mod_small by done.
Qed.

Lemma u_land w a b : 0 <= w -> is_u w a -> is_u w b -> is_u w (Z.land a b).
Proof.
  intros Hw Ha Hb. apply is_u_of_cast; [done|]. unfold cast_u.
  rewrite <- !Z.land_ones, <- Z.land_assoc, (Z.land_ones b) by done.
  by rewrite Z.mod_small by done.
Qed.

Lemma u_lxor w a b : 0 <= w -> is_u w a -> is_u w b -> is_u w (Z.lxor a b).
Proof.
  intros Hw Ha Hb. apply is_u_of_cast; [done|]. unfold cast_u. apply Z.bits_inj'. intros n Hn.
  rewrite <- (Z.mod_small a (2 ^ w)), <- (Z.mod_small b (2 ^ w)) by done.
  destruct (decide (n < w)).
  - rewrite Z.mod_pow2_bits_low by lia. done.
  - rewrite Z.mod_pow2_bits_high, Z.lxor_spec, !Z.mod_pow2_bits_high by lia. done.
Qed.

Lemma u_shr w a n : 0 < w -> is_u w a -> is_u w (wrapping_shr w a n).
Proof.
  intros Hw Ha. unfold wrapping_shr, is_u in *.
  pose proof (Z.mod_pos_bound n w Hw). rewrite Z.shiftr_div_pow2 by lia.
  pose proof (pow2_pos (n mod w) ltac:(lia)). split; [apply Z.div_pos; lia|].
  apply (Z.le_lt_trans _ a); [|lia]. apply Z.div_le_upper_bound; nia.
Qed.

Lemma u_mono w w' x : 0 <= w <= w' -> is_u w x -> is_u w' x.
Proof. intros Hw [H0 H1]. split; [done|]. pose proof (Z.pow_le_mono_r 2 w w'). lia. Qed.

Lemma u_div a b : is_u64 a -> 0 <= b -> is_u64 (a / b).
Proof.
  intros Ha Hb. destruct (decide (b = 0)) as [->|]; [by rewrite Z.div_0_r; int_lia|].
  unfold is_u in *. split; [apply Z.div_pos; lia|].
  apply (Z.le_lt_trans _ a); [|lia]. apply Z.div_le_upper_bound; nia.
Qed.

Lemma u_mod a b : is_u64 a -> 0 < b -> is_u64 (a mod b).
Proof.
  intros Ha Hb. unfold is_u in *. pose proof (Z.mod_pos_bound a b Hb).
  pose proof (Z.mod_le a b). lia.
Qed.

Lemma u_to_be n x : (n <= 8)%nat -> is_u64 (to_be n x).
Proof.
  intros Hn. unfold to_be.
  pose proof (le_combine_range (rev (le_split n x)) (List.Forall_rev (le_split_bytes n x))) as H.
  unfold len in H. rewrite length_rev, le_split_length in H.
  split; [apply H|]. apply (Z.lt_le_trans _ (256 ^ Z.of_nat n)); [apply H|].
  change 256 with (2 ^ 8). rewrite <- Z.pow_mul_r by lia. apply Z.pow_le_mono_r; lia.
Qed.

Lemma u_cast_any w x : 0 <= w <= 64 -> is_u64 (cast_u w x).
Proof. intros. apply (u_mono w); [done|]. apply cast_u_range. lia. Qed.

(** Prove that a machine expression is a [u64]. *)
Ltac solve_u64 :=
  repeat first
    [ assumption
    | apply u_cast_any; lia
    | apply u_lor; [lia| |]
    | apply u_land; [lia| |]
    | apply u_lxor; [lia| |]
    | apply u_shr; [lia|]
    | apply u_to_be; lia
    | match goal with
      | |- is_u64 (wrapping_shr 32 _ _) => apply (u_mono 32); [lia|apply u_shr; [lia|apply cast_u_range; lia]]
      | |- is_u64 (wrapping_shl _ _ _) => apply u_cast_any; lia
      | |- is_u64 (wrapping_add _ _) => apply u_cast_any; lia
      | |- is_u64 (wrapping_sub _ _) => apply u_cast_any; lia
      | |- is_u64 (wrapping_mul _ _) => apply u_cast_any; lia
      | |- is_u64 (sign_extension _ _) => unfold sign_extension
      | |- is_u64 (if ?b then _ else _) => destruct b
      | |- is_u64 u32_MAX => unfold is_u; lia
      | |- is_u64 (_ / _) => apply u_div; [|]
      end ].

(** ** Arms of accepted instructions *)

(** What the verifier guarantees about an instruction, as the arms use it. *)
Record insn_ok (prog : list Z) (v : SBPFVersion) (pc : Z) (insn : Insn) : Prop := {
  insn_ptr_ok : ptr insn = pc;
  insn_dst : 0 <= dst insn <= 10;
  insn_src : 0 <= src insn <= 10;
  insn_off : is_s 16 (off insn);
  insn_imm : is_i32 (imm insn);
  insn_div : opc insn ∈ div_imm_opcodes v -> imm insn <> 0;
  insn_jump : opc insn ∈ jump_opcodes v -> 0 <= pc + 1 + off insn < num_insns prog;
  insn_wide : opc insn = LD_DW_IMM -> pc + 2 <= num_insns prog;
  insn_callx : opc insn = CALL_REG ->
    0 <= (if callx_uses_src_reg v then src insn
          else if callx_uses_dst_reg v then dst insn else imm insn) < 10
}.

Lemma accepted_insn_ok prog v pc insn :
  rust_len prog -> bytes prog -> 0 <= pc -> get_insn prog pc = Some insn ->
  accepted prog v pc insn -> insn_ok prog v pc insn.
Proof.
  intros Hl Hb Hpc Ei Ha. destruct (decode_encodable prog pc insn Hb Hl Hpc Ei)
    as [(_ & Hd & Hs & Ho & Hi) Hp]. destruct (accepted_registers _ _ _ _ Ha) as [H1 H2].
  unfold is_u in Hs. split; [done|done|lia|done|done|..].
  - intros H. eapply accepted_nonzero; [done|by apply select_div].
  - intros H. eapply accepted_jump; [done..|by apply select_jump].
  - intros H. destruct (accepted_wide _ _ _ _ Ha H) as (_ & tail & Et & _).
    apply get_insn_range in Et; [|done|lia]. unfold num_insns, INSN_SIZE in *. int_lia.
  - intros H. apply (accepted_callx prog v pc insn Ha). destruct v; select_eval H.
Qed.

(** Registers: eleven of them and the program counter, all [u64]. *)
Definition regs_ok (reg : list Z) : Prop := length reg = 12%nat /\ Forall is_u64 reg.

Lemma regs_lookup reg k : regs_ok reg -> 0 <= k <= 11 ->
  exists x, reg !! Z.to_nat k = Some x /\ is_u64 x.
Proof.
  intros [Hl Hu] Hk. destruct (lookup_lt_is_Some_2 reg (Z.to_nat k)) as [x Hx]; [lia|].
  exists x. split; [done|]. by eapply (Forall_lookup_1 _ _ _ _ Hu).
Qed.

Definition action_ok (prog : list Z) (pc : Z) (insn : Insn) (a : Action) : Prop :=
  match a with
  | SetDst x => is_u64 x
  | SetDstWide x => is_u64 x /\ pc + 2 <= num_insns prog
  | LoadDst size addr => is_u64 addr /\ (0 < size <= 8)%nat
  | StoreTo size _ addr => is_u64 addr /\ (0 < size <= 8)%nat
  | JumpIf _ => 0 <= pc + 1 + off insn < num_insns prog
  | Throw _ => True
  end.

(** An arm of an accepted instruction does not panic and denotes a sound action. *)
Definition arm_ok (prog : list Z) (pc : Z) (insn : Insn) (a : Arm) : Prop :=
  match a with
  | NoArm => True
  | ArmDo a => exists act, a = Some act /\ action_ok prog pc insn act
  end.

Ltac arm_done := eexists; split; [reflexivity|]; cbn; auto.

Section arms_ok.
Context (prog : list Z) (v : SBPFVersion) (pc : Z) (insn : Insn) (reg : list Z).
Context (Hinsn : insn_ok prog v pc insn) (Hreg : regs_ok reg).

Lemma reg_dst_ok : exists d, reg_dst reg insn = Some d /\ is_u64 d.
Proof. apply regs_lookup; [done|]. pose proof (insn_dst _ _ _ _ Hinsn). lia. Qed.

Lemma reg_src_ok : exists s, reg_src reg insn = Some s /\ is_u64 s.
Proof. apply regs_lookup; [done|]. pose proof (insn_src _ _ _ _ Hinsn). lia. Qed.

Lemma imm_u_nonzero w : 32 <= w -> opc insn ∈ div_imm_opcodes v -> 0 < cast_u w (imm insn).
Proof.
  intros Hw Hd. pose proof (insn_div _ _ _ _ Hinsn Hd) as Hne.
  pose proof (insn_imm _ _ _ _ Hinsn) as Hi.
  pose proof (cast_u_range w (imm insn) ltac:(lia)) as Hr. unfold is_u in Hr.
  assert (cast_u w (imm insn) <> 0); [|lia].
  intros E. apply Hne, (cast_u_0 w); [lia| |done].
  unfold is_s in *. pose proof (Z.pow_le_mono_r 2 (32 - 1) (w - 1)). lia.
Qed.

Lemma alu_ok f :
  (forall d, is_u64 d -> is_u64 (f d)) -> arm_ok prog pc insn (ArmDo (alu reg insn f)).
Proof. intros Hf. destruct reg_dst_ok as (d & E & Hd). unfold alu. rewrite E. arm_done. Qed.

Lemma alu_reg_ok f :
  (forall d s, is_u64 d -> is_u64 s -> is_u64 (f d s)) ->
  arm_ok prog pc insn (ArmDo (alu_reg reg insn f)).
Proof.
  intros Hf. destruct reg_dst_ok as (d & E & Hd), reg_src_ok as (s & E' & Hs).
  unfold alu_reg. rewrite E, E'. arm_done.
Qed.

Lemma alu_div_ok f :
  (forall d, is_u64 d -> exists x, f d = Some x /\ is_u64 x) ->
  arm_ok prog pc insn (ArmDo (alu_div reg insn f)).
Proof.
  intros Hf. destruct reg_dst_ok as (d & E & Hd). unfold alu_div. rewrite E.
  destruct (Hf d Hd) as (x & -> & Hx). arm_done.
Qed.

Lemma nonzero_src_ok ty k :
  (forall s, is_u64 s -> ty s <> 0 -> arm_ok prog pc insn (ArmDo (k s))) ->
  arm_ok prog pc insn (ArmDo (nonzero_src reg insn ty k)).
Proof.
  intros Hk. destruct reg_src_ok as (s & E & Hs). unfold nonzero_src. rewrite E.
  destruct (Z.eqb_spec (ty s) 0) as [|Hne]; [arm_done|]. by apply Hk.
Qed.

Lemma no_overflow_ok w divisor k :
  (forall d, reg_dst reg insn = Some d ->
     ~ (cast_s w d = - 2 ^ (w - 1) /\ cast_s w divisor = -1) -> arm_ok prog pc insn (ArmDo k)) ->
  arm_ok prog pc insn (ArmDo (no_overflow reg insn w divisor k)).
Proof.
  intros Hk. destruct reg_dst_ok as (d & E & Hd). unfold no_overflow. rewrite E.
  destruct (Z.eqb_spec (cast_s w d) (- 2 ^ (w - 1))) as [|Hne]; cbn [andb].
  - destruct (Z.eqb_spec (cast_s w divisor) (-1)); [arm_done|]. eapply Hk; [done|]. naive_solver.
  - eapply Hk; [done|]. naive_solver.
Qed.

Lemma load_arm_ok n : (0 < n <= 8)%nat -> arm_ok prog pc insn (ArmDo (load_arm reg insn n)).
Proof.
  intros Hn. destruct reg_src_ok as (s & E & Hs). unfold load_arm. rewrite E. cbn.
  eexists. split; [done|]. split; [|done]. unfold vm_addr_at. solve_u64.
Qed.

Lemma store_imm_arm_ok n : (0 < n <= 8)%nat -> arm_ok prog pc insn (ArmDo (store_imm_arm reg insn n)).
Proof.
  intros Hn. destruct reg_dst_ok as (s & E & Hs). unfold store_imm_arm. rewrite E. cbn.
  eexists. split; [done|]. split; [|done]. unfold vm_addr_at. solve_u64.
Qed.

Lemma store_reg_arm_ok n : (0 < n <= 8)%nat -> arm_ok prog pc insn (ArmDo (store_reg_arm reg insn n)).
Proof.
  intros Hn. destruct reg_dst_ok as (d & E & Hd), reg_src_ok as (s & E' & Hs).
  unfold store_reg_arm. rewrite E, E'. cbn.
  eexists. split; [done|]. split; [|done]. unfold vm_addr_at. solve_u64.
Qed.

Lemma jmp_imm_ok ty cmp :
  opc insn ∈ jump_opcodes v -> arm_ok prog pc insn (ArmDo (jmp_imm reg insn ty cmp)).
Proof.
  intros Hj. destruct reg_dst_ok as (d & E & Hd). unfold jmp_imm. rewrite E. cbn.
  eexists. split; [done|]. by apply (insn_jump _ _ _ _ Hinsn).
Qed.

Lemma jmp_reg_ok ty cmp :
  opc insn ∈ jump_opcodes v -> arm_ok prog pc insn (ArmDo (jmp_reg reg insn ty cmp)).
Proof.
  intros Hj. destruct reg_dst_ok as (d & E & Hd), reg_src_ok as (s & E' & Hs).
  unfold jmp_reg. rewrite E, E'. cbn. eexists. split; [done|]. by apply (insn_jump _ _ _ _ Hinsn).
Qed.

Lemma div_u_ok a b : is_u64 a -> 0 < b -> exists x, div_u a b = Some x /\ is_u64 x.
Proof.
  intros Ha Hb. unfold div_u. destruct (Z.eqb_spec b 0); [lia|]. eexists. split; [done|].
  apply u_div; [done|lia].
Qed.

Lemma rem_u_ok a b : is_u64 a -> 0 < b -> exists x, rem_u a b = Some x /\ is_u64 x.
Proof.
  intros Ha Hb. unfold rem_u. destruct (Z.eqb_spec b 0); [lia|]. eexists. split; [done|].
  by apply u_mod.
Qed.

Lemma div_s_ok w a b : b <> 0 -> ~ (a = - 2 ^ (w - 1) /\ b = -1) -> is_Some (div_s w a b).
Proof.
  intros Hb Ho. unfold div_s. destruct (Z.eqb_spec b 0); [done|]. cbn [orb].
  destruct (Z.eqb_spec a (- 2 ^ (w - 1))), (Z.eqb_spec b (-1)); cbn; eauto. naive_solver.
Qed.

Lemma rem_s_ok w a b : b <> 0 -> ~ (a = - 2 ^ (w - 1) /\ b = -1) -> is_Some (rem_s w a b).
Proof.
  intros Hb Ho. unfold rem_s. destruct (Z.eqb_spec b 0); [done|]. cbn [orb].
  destruct (Z.eqb_spec a (- 2 ^ (w - 1))), (Z.eqb_spec b (-1)); cbn; eauto. naive_solver.
Qed.

(** Walk the arms of a class: one goal per arm, with its opcode and guard. *)
Ltac walk_arms :=
  repeat match goal with
    | |- arm_ok _ _ _ (if ?c then _ else _) =>
        let E := fresh "Harm" in destruct c eqn:E; [bool_to_prop|clear E]
    | |- arm_ok _ _ _ NoArm => exact I
    end.

(** The opcode at hand is a member of one of the lists of the verifier. *)
Ltac in_opcodes :=
  match goal with H : opc insn = _ |- _ => rewrite H end;
  unfold div_imm_opcodes, jump_opcodes;
  repeat match goal with H : _ v = _ |- _ => rewrite H end;
  apply list_elem_of_In; cbn; tauto.

Ltac solve_pos :=
  match goal with
  | |- 0 < cast_u 64 (cast_u 32 ?x) =>
      rewrite (cast_u_id 64 (cast_u 32 x)) by (apply u_cast_any; lia);
      apply imm_u_nonzero; [lia|in_opcodes]
  | |- 0 < cast_u ?w (imm insn) => apply imm_u_nonzero; [lia|in_opcodes]
  | H : cast_u ?w ?s <> 0 |- 0 < cast_u ?w ?s =>
      pose proof (cast_u_range w s ltac:(lia)); unfold is_u in *; lia
  | H : cast_u 64 ?s <> 0, Hs : is_u64 ?s |- 0 < ?s =>
      rewrite (cast_u_id 64 s Hs) in H; unfold is_u in Hs; lia
  end.

(** The common arms. *)
Ltac arm_auto :=
  match goal with
  | |- arm_ok _ _ _ (ArmDo (alu _ _ _)) => apply alu_ok; intros; solve_u64
  | |- arm_ok _ _ _ (ArmDo (alu_reg _ _ _)) => apply alu_reg_ok; intros; solve_u64
  | |- arm_ok _ _ _ (ArmDo (load_arm _ _ _)) => apply load_arm_ok; lia
  | |- arm_ok _ _ _ (ArmDo (store_imm_arm _ _ _)) => apply store_imm_arm_ok; lia
  | |- arm_ok _ _ _ (ArmDo (store_reg_arm _ _ _)) => apply store_reg_arm_ok; lia
  | |- arm_ok _ _ _ (ArmDo (jmp_imm _ _ _ _)) => apply jmp_imm_ok; in_opcodes
  | |- arm_ok _ _ _ (ArmDo (jmp_reg _ _ _ _)) => apply jmp_reg_ok; in_opcodes
  | |- arm_ok _ _ _ (ArmDo (nonzero_src _ _ _ _)) => apply nonzero_src_ok; intros; arm_auto
  | |- arm_ok _ _ _ (ArmDo (alu_div _ _ (fun _ => div_u _ _))) =>
      apply alu_div_ok; intros; apply div_u_ok; [solve_u64|solve_pos]
  | |- arm_ok _ _ _ (ArmDo (alu_div _ _ (fun _ => rem_u _ _))) =>
      apply alu_div_ok; intros; apply rem_u_ok; [solve_u64|solve_pos]
  | |- arm_ok _ _ _ (ArmDo (if ?b then _ else _)) => destruct b; arm_auto
  | |- arm_ok _ _ _ (ArmDo (Some (Throw _))) => arm_done
  end.

Lemma arms_alu32_ok : arm_ok prog pc insn (arms_alu32 v reg insn).
Proof. unfold arms_alu32. walk_arms; arm_auto. Qed.

Lemma arms_alu64_ok : arm_ok prog pc insn (arms_alu64 v reg insn).
Proof. unfold arms_alu64. walk_arms; arm_auto. Qed.

Lemma arms_jmp32_ok : arm_ok prog pc insn (arms_jmp32 v reg insn).
Proof.
  unfold arms_jmp32. destruct (enable_jmp32 v) eqn:Ev; cbn [negb]; [|done]. walk_arms; arm_auto.
Qed.

Lemma arms_jmp64_ok : arm_ok prog pc insn (arms_jmp64 reg insn).
Proof.
  unfold arms_jmp64. destruct (enable_jmp32 v) eqn:Ev; walk_arms; try arm_auto.
  all: eexists; split; [done|]; apply (insn_jump _ _ _ _ Hinsn); in_opcodes.
Qed.

Lemma arms_ldst_ok :
  0 <= pc < num_insns prog -> rust_len prog -> get_insn prog pc = Some insn ->
  arm_ok prog pc insn (arms_ldst prog v reg insn).
Proof.
  intros Hpc Hl Ei. unfold arms_ldst. walk_arms; try arm_auto.
  match goal with H : opc insn = LD_DW_IMM |- _ => pose proof (insn_wide _ _ _ _ Hinsn H) as Hw end.
  unfold augment_lddw_unchecked. rewrite (insn_ptr_ok _ _ _ _ Hinsn).
  unfold rust_len, num_insns, INSN_SIZE in *.
  assert (wrapping_add (wrapping_mul (wrapping_add pc 1) 8) 4 = (pc + 1) * 8 + 4) as -> by int_lia.
  destruct (read_le_Some 4 prog ((pc + 1) * 8 + 4)) as (bs & _ & -> & _); [lia|int_lia|].
  eexists. split; [done|]. cbn. split; [solve_u64|done].
Qed.

Lemma signed_ok (f : Z -> Z -> Z -> option Z) w x y post :
  (forall a, y <> 0 -> ~ (a = - 2 ^ (w - 1) /\ y = -1) -> is_Some (f w a y)) ->
  y = cast_s w x -> y <> 0 -> (forall q, is_u64 (post q)) ->
  arm_ok prog pc insn (ArmDo (no_overflow reg insn w x
    (alu_div reg insn (fun d => let! q := f w (cast_s w d) y in Some (post q))))).
Proof.
  intros Hf Ey Hy Hp. apply no_overflow_ok. intros d Hd Hno. unfold alu_div. rewrite Hd.
  destruct (Hf (cast_s w d) Hy) as [q ->]; [by rewrite Ey|]. arm_done.
Qed.

Lemma imm_s_nonzero w :
  32 <= w -> opc insn ∈ div_imm_opcodes v -> cast_s w (imm insn) = imm insn /\ imm insn <> 0.
Proof.
  intros Hw Hd. pose proof (insn_div _ _ _ _ Hinsn Hd) as Hne.
  pose proof (insn_imm _ _ _ _ Hinsn) as Hi. split; [|done]. apply cast_s_id; [lia|].
  unfold is_s in *. pose proof (Z.pow_le_mono_r 2 (32 - 1) (w - 1)). lia.
Qed.

Ltac signed_arm :=
  first
    [ apply nonzero_src_ok; intros; apply signed_ok; [|done|done|]
    | apply signed_ok;
        [| |match goal with |- context [cast_s ?w _] =>
              rewrite (proj1 (imm_s_nonzero w ltac:(lia) ltac:(in_opcodes))) | _ => idtac end;
            apply (imm_s_nonzero 64); [lia|in_opcodes]|];
        [|first [done | symmetry; apply imm_s_nonzero; [lia|in_opcodes]]|] ];
  [ intros; (by apply div_s_ok) || (by apply rem_s_ok) | intros; solve_u64 ].

Lemma arms_pqr_ok : arm_ok prog pc insn (arms_pqr v reg insn).
Proof.
  unfold arms_pqr. destruct (enable_pqr v) eqn:Ev; cbn [negb]; [|done].
  walk_arms; try arm_auto; signed_arm.
Qed.

End arms_ok.

(** ** The invariant of the machine *)

Record frame_ok (f : CallFrame) : Prop := {
  frame_saved_length : length (caller_saved_registers f) = 4%nat;
  frame_saved : Forall is_u64 (caller_saved_registers f);
  frame_fp : is_u64 (frame_pointer f);
  frame_pc : is_u64 (target_pc f)
}.

(** What the runtime keeps true of its context object while programs run. *)
Class ContextInvariant (C : Type) : Type := context_inv : C -> Prop.

Record vm_ok {C} `{ContextInvariant C} (config : Config) (m : EbpfVm C) : Prop := {
  vm_registers : regs_ok (registers m);
  vm_depth : 0 <= call_depth m < max_call_depth config;
  vm_frames_length : Z.of_nat (length (call_frames m)) = max_call_depth config;
  vm_frames : Forall frame_ok (call_frames m);
  vm_mapping : mapping_ok (memory_mapping m);
  vm_handler : mapping_handler_ok (memory_mapping m);
  vm_backed : backed (get_regions (memory_mapping m)) (host_memory m);
  vm_context : context_inv (context_object_pointer m)
}.

(** What a builtin owes the machine: when it reports success, a [u64] result
    and a well-formed machine. *)
Definition BuiltinOk {C} `{ContextInvariant C} (config : Config) (f : BuiltinFunction C) : Prop :=
  forall m a b c d e, vm_ok config m ->
    forall x, program_result (f m a b c d e) = Ok x -> is_u64 x /\ vm_ok config (f m a b c d e).

(** An executable that can be run: configured, with verified text, sensible
    tables and well-behaved builtins. *)
Record executable_ok {C} `{ContextInvariant C} (ex : Executable C) (config : Config) : Prop := {
  ex_config : get_config ex = Some config;
  ex_depth : 1 <= max_call_depth config < 2 ^ 63;
  ex_bytes : bytes (text_bytes ex);
  ex_len : rust_len (text_bytes ex);
  ex_verified : verify (text_bytes ex) (sbpf_version ex) = Some (Ok tt);
  ex_functions key name pc :
    lookup_by_key (function_registry ex) key = Some (name, pc) -> is_u64 pc;
  ex_builtins key name f :
    lookup_by_key (sparse_registry (loader ex)) key = Some (name, f) -> BuiltinOk config f
}.

Section safety.
Context {C : Type} `{Inv : ContextInvariant C} (ex : Executable C) (config : Config) (Hex : executable_ok ex config).

Abbreviation prog := (text_bytes ex).
Abbreviation v := (sbpf_version ex).

Record state_ok (i : Interpreter C) : Prop := {
  state_regs : regs_ok (reg i);
  state_vm : vm_ok config (vm i)
}.

Definition interp_ok (i : Interpreter C) : Prop :=
  state_ok i /\ exists pc, reg i !! 11%nat = Some pc /\ 0 <= pc <= num_insns prog.

(** A result of an arm: no panic, and when execution goes on, a good state and
    a program counter in range. *)
Definition flow_ok (r : option (Flow C)) : Prop :=
  match r with
  | None => False
  | Some (Stop _) => True
  | Some (Next i next_pc) => state_ok i /\ 0 <= next_pc <= num_insns prog
  end.

Lemma num_insns_bound : num_insns prog < 2 ^ 60 /\ num_insns prog * 8 = len prog.
Proof.
  destruct (verify_slots prog v (ex_len _ _ Hex) (ex_verified _ _ Hex)) as (H & _).
  pose proof (ex_len _ _ Hex) as Hl. unfold rust_len, INSN_SIZE in *. split; lia.
Qed.

Lemma regs_insert r k x : regs_ok r -> is_u64 x -> regs_ok (<[k := x]> r).
Proof. intros [Hl Hu] Hx. split; [by rewrite length_insert|]. by apply Forall_insert. Qed.

Lemma throw_registers_ok (i : Interpreter C) err :
  regs_ok (reg i) -> regs_ok (registers (vm i)) -> exists i', throw_error i err = Some (Stop i').
Proof.
  intros Hr [Hl _]. unfold throw_error.
  destruct (regs_lookup (reg i) 11 Hr ltac:(lia)) as (pc & E & _).
  change (Z.to_nat 11) with 11%nat in E. rewrite E.
  destruct (Z.leb_spec (len (registers (vm i))) 11); [unfold len in *; lia|]. by eexists.
Qed.

Lemma throw_flow_ok (i : Interpreter C) err : state_ok i -> flow_ok (throw_error i err).
Proof.
  intros [Hr Hv]. destruct (throw_registers_ok i err Hr (vm_registers _ _ Hv)) as [i' ->]. done.
Qed.

Lemma set_reg_ok (i : Interpreter C) k x :
  state_ok i -> 0 <= k <= 11 -> is_u64 x ->
  exists i', set_reg k x i = Some i' /\ state_ok i' /\ vm i' = vm i /\ reg i' = <[Z.to_nat k := x]> (reg i).
Proof.
  intros [[Hl Hu] Hv] Hk Hx. unfold set_reg.
  destruct (Z.leb_spec 0 k); [|lia]. destruct (Z.ltb_spec k (len (reg i))); [|unfold len in *; lia].
  cbn [andb]. eexists. split; [done|]. split; [|done]. split; [|done]. by apply regs_insert.
Qed.

Lemma check_pc_ok (i : Interpreter C) t : state_ok i -> is_u64 t -> flow_ok (check_pc prog i t).
Proof.
  intros Hi Ht. unfold check_pc. destruct (is_pc_in_program prog t) eqn:E; [|by apply throw_flow_ok].
  apply is_pc_in_program_iff in E; [|unfold is_u in Ht; lia|apply (ex_len _ _ Hex)].
  split; [done|]. pose proof num_insns_bound. unfold is_u, INSN_SIZE in *. lia.
Qed.

Lemma set_vm_ok f (i : Interpreter C) : (vm_ok config (vm i) -> vm_ok config (f (vm i))) -> state_ok i -> state_ok (set_vm f i).
Proof. intros Hf [Hr Hv]. split; cbn; auto. Qed.

(** A machine that differs from a good one only in its meters, its trace or its
    result is good. *)
Lemma vm_ok_ext (m m' : EbpfVm C) :
  registers m' = registers m -> call_depth m' = call_depth m -> call_frames m' = call_frames m ->
  memory_mapping m' = memory_mapping m -> host_memory m' = host_memory m ->
  context_object_pointer m' = context_object_pointer m -> vm_ok config m -> vm_ok config m'.
Proof. intros E1 E2 E3 E4 E5 E6 []. split; rewrite ?E1, ?E2, ?E3, ?E4, ?E5, ?E6; done. Qed.

Lemma set_memory_ok (i : Interpreter C) m host :
  mapping_step (memory_mapping (vm i)) m -> backed (get_regions m) host ->
  state_ok i -> state_ok (set_vm (set_memory m host) i).
Proof.
  intros [Hm Hh _] Hb Hi. apply set_vm_ok; [|done]. intros []. by split.
Qed.

Lemma perform_ok insn pc (i : Interpreter C) a :
  insn_ok prog v pc insn -> 0 <= pc < num_insns prog -> state_ok i ->
  reg i !! 11%nat = Some pc -> action_ok prog pc insn a ->
  flow_ok (perform insn (wrapping_add pc 1) i a).
Proof.
  intros Hinsn Hpc Hi Epc Ha. pose proof num_insns_bound as [Hn _].
  pose proof (insn_dst _ _ _ _ Hinsn) as Hd. pose proof (insn_off _ _ _ _ Hinsn) as Ho.
  assert (wrapping_add pc 1 = pc + 1) as E1 by int_lia. rewrite E1.
  destruct a as [x|x|size addr|size x addr|c|err]; cbn [perform action_ok] in *.
  - destruct (set_reg_ok i (dst insn) x Hi) as (i' & -> & Hi' & _); [lia|done|]. split; [done|lia].
  - destruct Ha as [Hx Hw]. destruct (set_reg_ok i (dst insn) x Hi) as (i1 & -> & Hi1 & _ & Er); [lia|done|].
    assert (reg i1 !! 11%nat = Some pc) as ->.
    { rewrite Er, list_lookup_insert_ne by lia. done. }
    destruct (set_reg_ok i1 11 (wrapping_add pc 1) Hi1) as (i2 & -> & Hi2 & _); [lia|rewrite E1; int_lia|].
    split; [done|]. int_lia.
  - destruct Ha as [Haddr Hs]. pose proof (state_vm _ Hi) as Hv.
    destruct (mapping_load_spec size (memory_mapping (vm i)) (host_memory (vm i)) addr
      (vm_mapping _ _ Hv) (vm_handler _ _ Hv) (vm_backed _ _ Hv) Haddr ltac:(int_lia))
      as (m' & host' & res & -> & Hstep & _ & Hok). destruct res as [x|err].
    + destruct (Hok x eq_refl) as (Hb & h & bs & _ & _ & Hlen & Hbs & ->).
      destruct (set_reg_ok (set_vm (set_memory m' host') i) (dst insn) (le_combine bs))
        as (i' & -> & Hi' & _); [by apply set_memory_ok|lia| |split; [done|lia]].
      pose proof (le_combine_range bs Hbs) as Hr. unfold len in Hr. rewrite Hlen in Hr.
      split; [lia|]. apply (Z.lt_le_trans _ (256 ^ Z.of_nat size)); [lia|].
      change 256 with (2 ^ 8). rewrite <- Z.pow_mul_r by lia. apply Z.pow_le_mono_r; lia.
    + destruct (throw_registers_ok (set_vm (set_memory m' host') i) err) as [i' ->]; [apply Hi|apply Hv|done].
  - destruct Ha as [Haddr Hs]. pose proof (state_vm _ Hi) as Hv.
    destruct (mapping_store_spec size (memory_mapping (vm i)) (host_memory (vm i)) x addr
      (vm_mapping _ _ Hv) (vm_handler _ _ Hv) (vm_backed _ _ Hv) Haddr ltac:(int_lia))
      as (m' & host' & res & -> & Hstep & _ & Hok). destruct res as [h|err].
    + destruct (Hok h eq_refl) as (Hb & _). split; [by apply set_memory_ok|lia].
    + destruct (throw_registers_ok (set_vm (set_memory m' host') i) err) as [i' ->]; [apply Hi|apply Hv|done].
  - split; [done|]. destruct c; [|lia].
    assert (as_u64 (as_i64 (as_i64 (pc + 1) + off insn)) = pc + 1 + off insn) as ->; [|lia].
    unfold is_s in Ho. int_lia.
  - by apply throw_flow_ok.
Qed.

Lemma push_frame_ok (i : Interpreter C) pc :
  state_ok i -> reg i !! 11%nat = Some pc ->
  exists b i', push_frame ex config i = Some (b, i') /\ (b = true -> state_ok i').
Proof.
  intros [Hr Hv] Epc. pose proof Hv as [Hreg Hd Hfl Hf Hm Hh Hb]. pose proof (ex_depth _ _ Hex) as Hmax.
  unfold push_frame.
  destruct (lookup_lt_is_Some_2 (call_frames (vm i)) (Z.to_nat (call_depth (vm i)))) as [f0 ->]; [lia|].
  destruct (regs_lookup (reg i) FRAME_PTR_REG Hr ltac:(unfold FRAME_PTR_REG; lia)) as (fp & -> & Hfp).
  rewrite Epc. set (frame := mkFrame _ _ _).
  assert (frame_ok frame) as Hframe.
  { destruct Hr as [Hl Hu]. split; cbn.
    - unfold slice, FIRST_SCRATCH_REG, SCRATCH_REGS. rewrite length_take, length_drop. lia.
    - by apply Forall_take, Forall_drop.
    - done.
    - apply u_cast_any. lia. }
  set (i1 := set_vm _ i). assert (call_depth (vm i1) = call_depth (vm i) + 1) as Ed.
  { cbn. unfold wrapping_add. apply cast_u_id. int_lia. }
  destruct (Z.eqb_spec (call_depth (vm i1)) (max_call_depth config)) as [_|Hne].
  { destruct (throw_registers_ok i1 CallDepthExceeded) as [i2 ->]; [done|done|]. by exists false, i2. }
  assert (state_ok i1) as Hi1.
  { split; [done|]. split; [done| | | |done|done|done|done].
    - rewrite Ed. lia.
    - cbn. by rewrite length_insert.
    - by apply Forall_insert. }
  destruct (negb _); [|by exists true, i1].
  destruct (set_reg_ok i1 FRAME_PTR_REG (wrapping_add fp (as_usize (stack_frame_size config *
    (if stack_frame_gaps v && enable_stack_frame_gaps config then 2 else 1)))) Hi1)
    as (i2 & -> & Hi2 & _); [unfold FRAME_PTR_REG; lia|apply u_cast_any; lia|].
  by exists true, i2.
Qed.

Lemma call_reg_arm_ok insn pc (i : Interpreter C) :
  insn_ok prog v pc insn -> opc insn = CALL_REG -> state_ok i -> reg i !! 11%nat = Some pc ->
  flow_ok (call_reg_arm ex config insn i).
Proof.
  intros Hinsn Ho Hi Epc. pose proof (insn_callx _ _ _ _ Hinsn Ho) as Hc. unfold call_reg_arm.
  assert (exists t, (if callx_uses_src_reg v then reg_src (reg i) insn
    else if callx_uses_dst_reg v then reg_dst (reg i) insn
    else reg i !! Z.to_nat (as_usize (imm insn))) = Some t /\ is_u64 t) as (t & -> & Ht).
  { destruct (callx_uses_src_reg v); [|destruct (callx_uses_dst_reg v)];
      [..|rewrite cast_u_id by int_lia]; apply regs_lookup; (apply Hi || lia). }
  destruct (push_frame_ok i pc Hi Epc) as (b & i' & -> & Hok).
  destruct b; cbn [negb]; [|done]. apply check_pc_ok; [by apply Hok|].
  unfold INSN_SIZE. apply u_div; [apply u_cast_any; lia|lia].
Qed.

Lemma exit_arm_ok (i : Interpreter C) : state_ok i -> flow_ok (exit_arm ex config i).
Proof.
  intros Hi. pose proof Hi as [Hr Hv]. pose proof Hv as [Hreg Hd Hfl Hf Hm Hh Hb].
  pose proof (ex_depth _ _ Hex) as Hmax. unfold exit_arm.
  destruct (Z.eqb_spec (call_depth (vm i)) 0) as [|Hne].
  { destruct (_ && _); [by apply throw_flow_ok|].
    destruct (regs_lookup (reg i) 0 Hr ltac:(lia)) as (r0 & E & _).
    change (Z.to_nat 0) with 0%nat in E. by rewrite E. }
  set (i1 := set_vm _ i). assert (call_depth (vm i1) = call_depth (vm i) - 1) as Ed.
  { cbn. unfold wrapping_sub. apply cast_u_id. int_lia. }
  assert (state_ok i1) as Hi1.
  { split; [done|]. split; [done| |done..]. rewrite Ed. lia. }
  destruct (lookup_lt_is_Some_2 (call_frames (vm i1)) (Z.to_nat (call_depth (vm i1)))) as [f Ef];
    [cbn [i1 set_vm vm set_call_depth call_frames] in *; lia|]. rewrite Ef.
  assert (frame_ok f) as [F1 F2 F3 F4] by (by eapply (Forall_lookup_1 _ _ _ _ Hf)).
  destruct (set_reg_ok i1 FRAME_PTR_REG (frame_pointer f) Hi1) as (i2 & -> & Hi2 & _);
    [unfold FRAME_PTR_REG; lia|done|].
  apply check_pc_ok; [|done]. destruct Hi2 as [[Hl2 Hu2] Hv2]. split; [|done]. cbn. split.
  - rewrite !length_app, length_take, length_drop, F1, Hl2. done.
  - rewrite !Forall_app. auto using Forall_take, Forall_drop.
Qed.

Lemma dispatch_syscall_ok (i : Interpreter C) f :
  state_ok i -> BuiltinOk config f ->
  reg (dispatch_syscall i f) = reg i /\
  forall x, program_result (vm (dispatch_syscall i f)) = Ok x ->
    is_u64 x /\ vm_ok config (vm (dispatch_syscall i f)).
Proof.
  intros [Hr Hv] Hf. split; [done|]. unfold dispatch_syscall. cbn. set (m1 := set_registers _ _).
  assert (vm_ok config m1) as Hm1.
  { destruct Hr as [Hl Hu], Hv as [[Hl' Hu'] Hd Hfl Hfr Hm Hh Hb Hc]. split; cbn; try done. split.
    - rewrite length_app, length_take, length_drop, Hl, Hl'. done.
    - rewrite Forall_app. auto using Forall_take, Forall_drop. }
  intros x Hx. unfold invoke_function in *. destruct (Hf m1 _ _ _ _ _ Hm1 x Hx) as [Hux Hvx].
  split; [done|]. by eapply vm_ok_ext; [..|exact Hvx].
Qed.

Lemma call_imm_internal_ok insn pc (i : Interpreter C) resolved :
  insn_ok prog v pc insn -> 0 <= pc < num_insns prog -> state_ok i -> reg i !! 11%nat = Some pc ->
  flow_ok (call_imm_internal ex config insn (pc + 1) resolved i).
Proof.
  intros Hinsn Hpc Hi Epc. pose proof num_insns_bound as [Hn Hlen]. unfold call_imm_internal.
  assert (flow_ok (if resolved then Some (Next i (pc + 1)) else throw_error i UnsupportedInstruction))
    as Hun by (destruct resolved; [split; [done|lia]|by apply throw_flow_ok]).
  destruct (push_frame_ok i pc Hi Epc) as (b & i' & Ep & Hok).
  destruct (static_syscalls v).
  - destruct (is_pc_in_program prog _) eqn:E; cbn [andb]; [|done]. destruct (src insn =? 1); [|done].
    rewrite Ep. destruct b; cbn [negb]; [|done]. split; [by apply Hok|].
    apply is_pc_in_program_iff in E; [|apply (cast_u_range 64); lia|apply (ex_len _ _ Hex)].
    pose proof (cast_u_range 64 (saturating_add_i64 (as_i64 (pc + 1)) (imm insn)) ltac:(lia)).
    unfold is_u, INSN_SIZE in *. lia.
  - destruct (lookup_by_key _ _) as [[name t]|] eqn:El; [|done]. rewrite Ep.
    destruct b; cbn [negb]; [|done]. apply check_pc_ok; [by apply Hok|].
    by apply (ex_functions _ _ Hex) in El.
Qed.

Lemma call_imm_arm_ok insn pc (i : Interpreter C) :
  insn_ok prog v pc insn -> 0 <= pc < num_insns prog -> state_ok i -> reg i !! 11%nat = Some pc ->
  flow_ok (call_imm_arm ex config insn (pc + 1) i).
Proof.
  intros Hinsn Hpc Hi Epc. unfold call_imm_arm, call_imm_external.
  destruct (_ || _); [|by apply call_imm_internal_ok].
  destruct (lookup_by_key _ _) as [[name f]|] eqn:El; [|by apply call_imm_internal_ok].
  apply (ex_builtins _ _ Hex) in El. destruct (dispatch_syscall_ok i f Hi El) as [Er Hok].
  destruct (program_result _) as [x|] eqn:Ex; [|done]. destruct (Hok x eq_refl) as [Hx Hvx].
  destruct (set_reg_ok (dispatch_syscall i f) 0 x) as (i' & -> & Hi' & _ & Er'); [|lia|done|].
  { split; [rewrite Er; apply Hi|done]. }
  apply call_imm_internal_ok; [done..|]. rewrite Er', Er, list_lookup_insert_ne by done. done.
Qed.

(** The second slot of a wide load is not an instruction. *)
Lemma step_insn_tail insn next_pc (i : Interpreter C) :
  opc insn = 0 -> step_insn ex config insn next_pc i = throw_error i UnsupportedInstruction.
Proof.
  intros Ho. unfold step_insn, step_arms, arms_ldst, arms_alu32, arms_alu64, arms_pqr, arms_jmp32, arms_jmp64.
  rewrite Ho. by destruct (negb (enable_pqr v)), (negb (enable_jmp32 v)).
Qed.

Lemma step_insn_ok insn pc (i : Interpreter C) :
  get_insn prog pc = Some insn -> 0 <= pc < num_insns prog -> state_ok i ->
  reg i !! 11%nat = Some pc -> flow_ok (step_insn ex config insn (wrapping_add pc 1) i).
Proof.
  intros Ei Hpc Hi Epc. pose proof num_insns_bound as [Hn _].
  assert (wrapping_add pc 1 = pc + 1) as E1 by int_lia.
  pose proof (ex_len _ _ Hex) as Hl. pose proof (ex_bytes _ _ Hex) as Hb.
  destruct (verify_slots prog v Hl (ex_verified _ _ Hex)) as (_ & _ & Hs).
  destruct (Hs pc Hpc) as (insn' & Ei' & Hslot). rewrite Ei in Ei'. injection Ei' as <-.
  destruct Hslot as [Ha|[Ht _]]; [|by rewrite step_insn_tail; [apply throw_flow_ok|]].
  apply accepted_insn_ok in Ha as Hinsn; [|done|done|lia|done].
  pose proof (state_regs _ Hi) as Hr.
  assert (arm_ok prog pc insn (step_arms ex (reg i) insn)) as Harm.
  { assert (forall a b, arm_ok prog pc insn a -> arm_ok prog pc insn b ->
      arm_ok prog pc insn (match a with ArmDo a => ArmDo a | NoArm => b end)) as Hor by by intros [].
    unfold step_arms. apply Hor; [by apply arms_ldst_ok|]. apply Hor; [by apply arms_alu32_ok|].
    apply Hor; [by apply arms_alu64_ok|]. apply Hor; [by apply arms_pqr_ok|].
    apply Hor; [by apply arms_jmp32_ok|]. by apply (arms_jmp64_ok prog v). }
  unfold step_insn. destruct (step_arms ex (reg i) insn) as [|a].
  2: { destruct Harm as (act & -> & Hact). by apply perform_ok. }
  destruct (Z.eqb_spec (opc insn) CALL_REG); [by apply (call_reg_arm_ok insn pc)|].
  destruct (opc insn =? CALL_IMM); [rewrite E1; by apply call_imm_arm_ok|].
  destruct (opc insn =? EXIT); [by apply exit_arm_ok|]. by apply throw_flow_ok.
Qed.

Lemma step_ok (i : Interpreter C) :
  interp_ok i -> exists b i', step ex i = Some (b, i') /\ (b = true -> interp_ok i').
Proof.
  intros [Hi (pc & Epc & Hpc)]. pose proof num_insns_bound as [Hn Hlen].
  pose proof (ex_depth _ _ Hex). unfold step. rewrite (ex_config _ _ Hex).
  assert (forall r, flow_ok r -> exists b i', (let! r := r in match r with
      | Stop i => Some (false, i)
      | Next i next_pc => let! i := set_reg 11 next_pc i in Some (true, i) end) = Some (b, i') /\
      (b = true -> interp_ok i')) as Hfin.
  { intros [[i1 npc|i1]|] Hr; [|by exists false, i1|done]. destruct Hr as [Hi1 Hnpc].
    destruct (set_reg_ok i1 11 npc Hi1) as (i2 & -> & Hi2 & _ & Er); [lia|int_lia|].
    exists true, i2. split; [done|]. intros _. split; [done|]. exists npc. split; [|done].
    rewrite Er. apply list_lookup_insert_eq. destruct (state_regs _ Hi1) as [-> _]. lia. }
  destruct (_ && _); [by apply Hfin, throw_flow_ok|].
  set (i1 := set_vm _ i). assert (state_ok i1) as Hi1.
  { apply set_vm_ok; [|done]. by apply vm_ok_ext. }
  change (reg i1) with (reg i). rewrite Epc. unfold INSN_SIZE.
  assert (wrapping_mul pc 8 = pc * 8) as -> by int_lia.
  destruct (Z.leb_spec (len prog) (pc * 8)); [by apply Hfin, throw_flow_ok|].
  destruct (get_insn_num_insns prog pc (ex_len _ _ Hex)) as [insn Ei]; [lia|].
  assert (get_insn_unchecked prog pc = Some insn) as ->.
  { unfold get_insn in Ei. by destruct (is_pc_in_program prog pc). }
  apply Hfin, step_insn_ok; [done|lia|..].
  - destruct (enable_register_tracing config); [|done]. apply set_vm_ok; [|done]. by apply vm_ok_ext.
  - by destruct (enable_register_tracing config).
Qed.

Lemma run_interpreter_ok fuel (i : Interpreter C) : interp_ok i -> exists r, run_interpreter fuel ex i = Some r.
Proof.
  revert i; induction fuel as [|fuel IH]; intros i Hi; cbn; [by eexists|].
  destruct (step_ok i Hi) as (b & i' & -> & Hok). destruct b; [by apply IH, Hok|by eexists].
Qed.

End safety.
