(* ===== verification/Meter.v ===== *)
(** Termination of execution: with the instruction meter enabled, every run of
    the interpreter stops within the budget of the context object, whatever the
    program bytes are, provided builtins do not refill the meter. *)

From Stdlib Require Import ZArith Lia Bool.
From stdpp Require Import strings.
From S2P Require Import Prelude.
From S2P Require Import SbpfTypes.
From S2P Require Import Ebpf.
From S2P Require Import Tracker.
From S2P Require Import MemoryRegion.
From S2P Require Import Mapping.
From S2P Require Import MappingSafe.
From S2P Require Import Verifier.
From S2P Require Import Vm.
From S2P Require Import Interp.
From S2P Require Import InterpSafe.

#[local] Open Scope Z_scope.

(** Documented behaviour of the runtime context: the meter is a [u64], and
    consuming takes the amount off it, down to zero, and nothing else. *)
Class ContextLaws (C : Type) `{ContextObject C} `{ContextInvariant C} : Prop := {
  remaining_u64 (c : C) : is_u64 (get_remaining c);
  consume_remaining (c : C) n : is_u64 n ->
    get_remaining (consume c n) = saturating_sub (get_remaining c) n;
  consume_inv (c : C) n : context_inv c -> context_inv (consume c n)
}.

(** The Rust half of a builtin may spend budget but not refill it. *)
Definition RustMetered {C} `{ContextObject C} (rust : RustBuiltin C) : Prop :=
  forall c a1 a2 a3 a4 a5 m host,
    get_remaining (rust c a1 a2 a3 a4 a5 m host).1.1.1 <= get_remaining c.

Section meter.
Context {C : Type} `{HO : ContextObject C, Inv : ContextInvariant C, Laws : !ContextLaws C}.

(** The meter of the machine agrees with the context object, and what is due
    can be paid. *)
Record meter_ok (m : EbpfVm C) : Prop := {
  meter_remaining : get_remaining (context_object_pointer m) = previous_instruction_meter m;
  meter_due : 0 <= due_insn_count m <= previous_instruction_meter m
}.

(** What the adapter of a builtin guarantees: called with the unspent budget in
    [due_insn_count], it leaves at most that much on the meter. *)
Definition BuiltinMetered (f : BuiltinFunction C) : Prop :=
  forall m a b c d e, meter_ok m ->
    get_remaining (context_object_pointer (f m a b c d e)) = previous_instruction_meter (f m a b c d e) /\
    previous_instruction_meter (f m a b c d e) <= due_insn_count m.

Lemma previous_u64 m : meter_ok m -> is_u64 (previous_instruction_meter m).
Proof. intros [<- _]. apply remaining_u64. Qed.

Lemma builtin_vm_metered config rust :
  enable_instruction_meter config = true -> RustMetered rust -> BuiltinMetered (builtin_vm config rust).
Proof.
  intros Hc Hr m a b c d e Hm. pose proof (previous_u64 m Hm) as Hp. pose proof Hm as [Er Hd].
  unfold builtin_vm. rewrite Hc.
  set (spent := wrapping_sub (previous_instruction_meter m) (due_insn_count m)).
  assert (spent = previous_instruction_meter m - due_insn_count m) as Es by (unfold spent; int_lia).
  set (m1 := set_context _ m).
  pose proof (Hr (context_object_pointer m1) a b c d e (memory_mapping m1) (host_memory m1)) as Hle.
  destruct (rust _ _ _ _ _ _ _ _) as [[[ctx mm] host] res]. cbn in Hle |- *.
  split; [done|]. rewrite consume_remaining in Hle; [|fold spent; int_lia]. fold spent in Hle.
  rewrite Er in Hle. int_lia.
Qed.

Context (ex : Executable C) (config : Config).
Context (Hconfig : get_config ex = Some config) (Hmeter : enable_instruction_meter config = true).
Context (Hbuiltins : forall key name f,
  lookup_by_key (sparse_registry (loader ex)) key = Some (name, f) -> BuiltinMetered f).

(** Machines with the same context and the same meters. *)
Definition same_meter (m m' : EbpfVm C) : Prop :=
  context_object_pointer m' = context_object_pointer m /\
  previous_instruction_meter m' = previous_instruction_meter m /\
  due_insn_count m' = due_insn_count m.

(** When execution goes on after the arm, the budget has not grown. *)
Definition budget (m : EbpfVm C) : Z := previous_instruction_meter m - due_insn_count m.
Definition flow_meter (m : EbpfVm C) (r : option (Flow C)) : Prop :=
  match r with
  | Some (Next i _) => meter_ok (vm i) /\ budget (vm i) <= budget m
  | _ => True
  end.

Lemma same_meter_ok m m' : same_meter m m' -> meter_ok m -> meter_ok m' /\ budget m' <= budget m.
Proof.
  intros (E1 & E2 & E3) [H1 H2]. unfold budget. rewrite E2, E3. split; [|lia].
  by split; rewrite ?E1, ?E2, ?E3.
Qed.

Lemma set_reg_vm k x (i i' : Interpreter C) : set_reg k x i = Some i' -> vm i' = vm i.
Proof. unfold set_reg. destruct (_ && _); [|done]. by intros [= <-]. Qed.

Lemma throw_flow_meter m (i : Interpreter C) err : flow_meter m (throw_error i err).
Proof. unfold throw_error. destruct (_ !! _); [|done]. by destruct (_ <=? _). Qed.

Lemma check_pc_meter m program (i : Interpreter C) t :
  meter_ok (vm i) -> budget (vm i) <= budget m -> flow_meter m (check_pc program i t).
Proof.
  intros Hi Hb. unfold check_pc. destruct (is_pc_in_program program t); [done|apply throw_flow_meter].
Qed.

Lemma perform_meter insn next_pc (i : Interpreter C) a :
  meter_ok (vm i) -> flow_meter (vm i) (perform insn next_pc i a).
Proof.
  intros Hi. destruct a; cbn [perform].
  - destruct (set_reg _ _ i) as [i'|] eqn:E; [|done]. apply set_reg_vm in E. cbn. by rewrite E.
  - destruct (set_reg _ _ i) as [i1|] eqn:E1; [|done]. destruct (reg i1 !! 11%nat); [|done].
    destruct (set_reg 11 _ i1) as [i2|] eqn:E2; [|done]. apply set_reg_vm in E1, E2.
    cbn. by rewrite E2, E1.
  - destruct (mapping_load _ _ _ _) as [[[m host] [x|err]]|]; [|apply throw_flow_meter|done].
    destruct (set_reg _ _ _) as [i'|] eqn:E; [|done]. apply set_reg_vm in E. cbn. rewrite E. cbn.
    by apply same_meter_ok.
  - destruct (mapping_store _ _ _ _ _) as [[[m host] [x|err]]|]; [|apply throw_flow_meter|done].
    cbn. by apply same_meter_ok.
  - done.
  - apply throw_flow_meter.
Qed.

Lemma push_frame_meter (i i' : Interpreter C) :
  push_frame ex config i = Some (true, i') -> same_meter (vm i) (vm i').
Proof.
  unfold push_frame. destruct (call_frames _ !! _); [|done]. destruct (reg i !! _); [|done].
  destruct (reg i !! 11%nat); [|done]. destruct (_ =? _).
  { destruct (throw_error _ _) as [[]|]; done. }
  destruct (negb _); [|by intros [= <-]].
  destruct (set_reg _ _ _) as [i2|] eqn:E; [|done]. intros [= <-]. apply set_reg_vm in E.
  by rewrite E.
Qed.

Lemma call_reg_arm_meter insn (i : Interpreter C) :
  meter_ok (vm i) -> flow_meter (vm i) (call_reg_arm ex config insn i).
Proof.
  intros Hi. unfold call_reg_arm.
  destruct (if callx_uses_src_reg (sbpf_version ex) then _ else _); [|done].
  destruct (push_frame ex config i) as [[[] i']|] eqn:E; [|done..]. cbn [negb].
  apply push_frame_meter in E. apply same_meter_ok in E as [H1 H2]; [|done]. by apply check_pc_meter.
Qed.

Lemma exit_arm_meter (i : Interpreter C) :
  meter_ok (vm i) -> flow_meter (vm i) (exit_arm ex config i).
Proof.
  intros Hi. unfold exit_arm. destruct (_ =? 0).
  { destruct (_ && _); [apply throw_flow_meter|]. by destruct (reg i !! 0%nat). }
  destruct (call_frames _ !! _) as [frame|]; [|done].
  destruct (set_reg _ _ _) as [i'|] eqn:E; [|done]. apply set_reg_vm in E.
  assert (same_meter (vm i) (vm i')) as Hs by (by rewrite E).
  apply same_meter_ok in Hs as [H1 H2]; [|done]. by apply check_pc_meter.
Qed.

Lemma dispatch_syscall_meter (i : Interpreter C) f :
  meter_ok (vm i) -> BuiltinMetered f ->
  meter_ok (vm (dispatch_syscall i f)) /\ budget (vm (dispatch_syscall i f)) <= budget (vm i).
Proof.
  intros Hi Hf. pose proof (previous_u64 _ Hi) as Hp. pose proof Hi as [H1 H2].
  unfold dispatch_syscall, budget. cbn. set (m1 := set_registers _ _).
  assert (due_insn_count m1 = previous_instruction_meter (vm i) - due_insn_count (vm i)) as Ed.
  { cbn. int_lia. }
  assert (meter_ok m1) as Hm1.
  { split; [done|]. rewrite Ed.
    change (previous_instruction_meter m1) with (previous_instruction_meter (vm i)). lia. }
  unfold invoke_function. specialize (Hf m1 (registers m1 !!! 1%nat) (registers m1 !!! 2%nat)
    (registers m1 !!! 3%nat) (registers m1 !!! 4%nat) (registers m1 !!! 5%nat) Hm1).
  set (m2 := f m1 _ _ _ _ _) in *. clearbody m2. destruct Hf as [Hf1 Hf2].
  pose proof (remaining_u64 (context_object_pointer m2)) as Hu. rewrite Hf1 in Hu. unfold is_u in Hu.
  split; [split; cbn; [done|lia]|lia].
Qed.

Lemma call_imm_internal_meter m insn next_pc resolved (i : Interpreter C) :
  meter_ok (vm i) -> budget (vm i) <= budget m ->
  flow_meter m (call_imm_internal ex config insn next_pc resolved i).
Proof.
  intros Hi Hb. unfold call_imm_internal.
  assert (flow_meter m (if resolved then Some (Next i next_pc) else throw_error i UnsupportedInstruction))
    as Hun by (destruct resolved; [done|apply throw_flow_meter]).
  assert (forall i', push_frame ex config i = Some (true, i') ->
    meter_ok (vm i') /\ budget (vm i') <= budget m) as Hpush.
  { intros i' E. apply push_frame_meter in E. apply same_meter_ok in E as [? ?]; [|done]. split; [done|lia]. }
  destruct (static_syscalls _).
  - destruct (_ && _); [|done].
    destruct (push_frame ex config i) as [[[] i']|]; [|done..]. cbn. by apply Hpush.
  - destruct (lookup_by_key _ _) as [[name t]|]; [|done].
    destruct (push_frame ex config i) as [[[] i']|]; [|done..]. cbn [negb].
    apply check_pc_meter; by apply Hpush.
Qed.

Lemma call_imm_arm_meter insn next_pc (i : Interpreter C) :
  meter_ok (vm i) -> flow_meter (vm i) (call_imm_arm ex config insn next_pc i).
Proof.
  intros Hi. unfold call_imm_arm, call_imm_external.
  destruct (_ || _); [|by apply call_imm_internal_meter].
  destruct (lookup_by_key _ _) as [[name f]|] eqn:El; [|by apply call_imm_internal_meter].
  apply Hbuiltins in El. destruct (dispatch_syscall_meter i f Hi El) as [H1 H2].
  destruct (program_result _); [|done]. destruct (set_reg _ _ _) as [i'|] eqn:E; [|done].
  apply set_reg_vm in E. apply call_imm_internal_meter; by rewrite E.
Qed.

Lemma step_insn_meter insn next_pc (i : Interpreter C) :
  meter_ok (vm i) -> flow_meter (vm i) (step_insn ex config insn next_pc i).
Proof.
  intros Hi. unfold step_insn. destruct (step_arms ex (reg i) insn) as [|[a|]];
    [|by apply perform_meter|done].
  destruct (_ =? _); [by apply call_reg_arm_meter|]. destruct (_ =? _); [by apply call_imm_arm_meter|].
  destruct (_ =? _); [by apply exit_arm_meter|]. apply throw_flow_meter.
Qed.

(** A step that does not stop spends at least one unit of the budget. *)
Lemma step_meter (i i' : Interpreter C) :
  meter_ok (vm i) -> step ex i = Some (true, i') ->
  meter_ok (vm i') /\ 0 <= budget (vm i') < budget (vm i).
Proof.
  intros Hi. pose proof (previous_u64 _ Hi) as Hp. unfold step. rewrite Hconfig, Hmeter. cbn [andb].
  assert (forall m r, flow_meter m r -> (let! r := r in match r with
      | Stop i => Some (false, i)
      | Next i next_pc => let! i := set_reg 11 next_pc i in Some (true, i) end) = Some (true, i') ->
      meter_ok (vm i') /\ 0 <= budget (vm i') <= budget m) as Hfin.
  { intros m [[i1 npc|i1]|] Hr; [|done..]. destruct (set_reg 11 npc i1) as [i2|] eqn:E; [|done].
    intros [= <-]. apply set_reg_vm in E. cbn in Hr. rewrite <- E in Hr. destruct Hr as [Hr1 Hr2].
    split; [done|]. split; [|done]. destruct Hr1. unfold budget. lia. }
  destruct (Z.leb_spec (previous_instruction_meter (vm i)) (due_insn_count (vm i))) as [|Hlt].
  { unfold throw_error. destruct (_ !! _); [|done]. by destruct (_ <=? _). }
  set (i1 := set_vm _ i). assert (meter_ok (vm i1) /\ budget (vm i1) = budget (vm i) - 1) as [Hi1 Hb1].
  { destruct Hi as [H1 H2]. assert (due_insn_count (vm i1) = due_insn_count (vm i) + 1) as E
      by (cbn; int_lia). unfold budget. rewrite E.
    change (previous_instruction_meter (vm i1)) with (previous_instruction_meter (vm i)).
    split; [|lia]. split; [done|]. rewrite E.
    change (previous_instruction_meter (vm i1)) with (previous_instruction_meter (vm i)). lia. }
  destruct (reg i1 !! 11%nat); [|done]. destruct (_ <=? _).
  { unfold throw_error. destruct (_ !! _); [|done]. by destruct (_ <=? _). }
  destruct (get_insn_unchecked _ _) as [insn|]; [|done]. set (i2 := if enable_register_tracing config then _ else i1).
  assert (meter_ok (vm i2) /\ budget (vm i2) = budget (vm i1)) as [Hi2 Hb2].
  { unfold i2. destruct (enable_register_tracing config); [|done]. split; [|done].
    destruct Hi1. by split. }
  intros E. apply (Hfin (vm i2)) in E as [H1' H2']; [|by apply step_insn_meter]. split; [done|lia].
Qed.

Lemma run_interpreter_terminates fuel (i : Interpreter C) :
  meter_ok (vm i) -> budget (vm i) < Z.of_nat fuel -> run_interpreter fuel ex i <> Some None.
Proof.
  revert i; induction fuel as [|fuel IH]; intros i Hi Hf; cbn.
  { destruct Hi as [_ H2]. unfold budget in Hf. lia. }
  destruct (step ex i) as [[[] i']|] eqn:E; [|done..].
  apply step_meter in E as [Hi' Hb]; [|done]. apply IH; [done|lia].
Qed.

End meter.
