(* ===== verification/Exec.v ===== *)
(** Whole executions: [EbpfVm::new], [execute_program] and the adapters of
    builtins keep the invariants of the interpreter, so a verified program runs
    to a result within its budget. *)

From Stdlib Require Import ZArith Lia Bool.
From stdpp Require Import strings.
From S2P Require Import Prelude.
From S2P Require Import SbpfTypes.
From S2P Require Import Ebpf.
From S2P Require Import Tracker.
From S2P Require Import MemoryRegion.
From S2P Require Import Mapping.
From S2P Require Import MappingSafe.
From S2P Require Import Verifier.
From S2P Require Import Vm.
From S2P Require Import Interp.
From S2P Require Import InterpSafe.
From S2P Require Import Meter.

#[local] Open Scope Z_scope.

(** What the Rust half of a builtin owes: on success, a [u64], and the memory
    mapping and the context in good order. *)
Definition RustOk {C} `{ContextInvariant C} (rust : RustBuiltin C) : Prop :=
  forall c a1 a2 a3 a4 a5 m host c' m' host' x, context_inv c ->
    mapping_ok m -> mapping_handler_ok m -> backed (get_regions m) host ->
    rust c a1 a2 a3 a4 a5 m host = (c', m', host', Ok x) ->
    is_u64 x /\ mapping_ok m' /\ mapping_handler_ok m' /\ backed (get_regions m') host' /\ context_inv c'.

Section exec.
Context {C : Type} `{HO : ContextObject C, Inv : ContextInvariant C, Laws : !ContextLaws C}.

Lemma builtin_vm_ok (config : Config) (rust : RustBuiltin C) :
  RustOk rust -> BuiltinOk config (builtin_vm config rust).
Proof.
  intros Hr m a b c d e Hm x. pose proof Hm as [H1 H2 H3 H4 H5 H6 H7 H8]. unfold builtin_vm.
  set (m1 := if enable_instruction_meter config then _ else m).
  assert (memory_mapping m1 = memory_mapping m /\ host_memory m1 = host_memory m /\
    registers m1 = registers m /\ call_depth m1 = call_depth m /\ call_frames m1 = call_frames m)
    as (E1 & E2 & E3 & E4 & E5) by (unfold m1; by destruct (enable_instruction_meter config)).
  assert (context_inv (context_object_pointer m1)) as Hc
    by (unfold m1; destruct (enable_instruction_meter config); [by apply consume_inv|done]).
  destruct (rust _ _ _ _ _ _ _ _) as [[[c' m'] host'] res] eqn:Er.
  rewrite E1, E2 in Er. set (m2 := set_program_result _ _).
  assert (forall y, res = Ok y -> is_u64 y /\ vm_ok config m2) as Hok.
  { intros y ->. destruct (Hr _ _ _ _ _ _ _ _ _ _ _ _ Hc H5 H6 H7 Er) as (Hy & Hm' & Hh' & Hb' & Hc').
    split; [done|]. split; cbn; rewrite ?E3, ?E4, ?E5; done. }
  assert (program_result m2 = Ok x -> is_u64 x /\ vm_ok config m2) as Hok'.
  { cbn. intros E. destruct res as [y|]; [|done]. cbn in E. injection E as ->. by apply Hok. }
  clearbody m2. destruct (enable_instruction_meter config); [|done].
  cbn. intros E. destruct (Hok' E) as [Hx Hm2]. split; [done|]. by eapply vm_ok_ext; [..|exact Hm2].
Qed.

Lemma vm_new_ok config v (context_object : C) m host stack_len :
  1 <= max_call_depth config -> enable_address_translation config = true ->
  is_u64 (stack_frame_size config) -> is_u64 stack_len ->
  mapping_ok m -> mapping_handler_ok m -> backed (get_regions m) host -> context_inv context_object ->
  vm_ok config (vm_new config v context_object m host stack_len).
Proof.
  intros Hd Ht Hs Hl Hm Hh Hb Hc. split; cbn; rewrite ?Ht; try done.
  - apply regs_insert; [by split; [|repeat constructor]|].
    apply saturating_add_range; [by vm_compute|]. by destruct (negb _).
  - lia.
  - rewrite length_replicate. lia.
  - apply Forall_replicate. split; [done|by repeat constructor|done|done].
Qed.

Lemma enter_program_ok (ex : Executable C) (config : Config) (machine : EbpfVm C) :
  executable_ok ex config -> vm_ok config machine -> 0 <= entry_pc ex <= num_insns (text_bytes ex) ->
  interp_ok ex config (enter_program ex machine).
Proof.
  intros Hex Hvm Hentry.
  assert (regs_ok (<[11%nat := entry_pc ex]> (registers machine))) as Hregs.
  { apply regs_insert; [apply (vm_registers _ _ Hvm)|].
    pose proof (num_insns_bound ex config Hex). int_lia. }
  split; [split; [done|]|].
  - destruct Hvm. by split.
  - exists (entry_pc ex). split; [|done]. cbn. apply list_lookup_insert_eq.
    destruct (vm_registers _ _ Hvm) as [-> _]. lia.
Qed.

Lemma execute_total (ex : Executable C) (config : Config) (machine : EbpfVm C)
    (fuel : nat) :
  executable_ok ex config -> enable_instruction_meter config = true ->
  (forall key name f, lookup_by_key (sparse_registry (loader ex)) key = Some (name, f) ->
     BuiltinMetered f) ->
  vm_ok config machine -> 0 <= entry_pc ex <= num_insns (text_bytes ex) ->
  get_remaining (context_object_pointer machine) < Z.of_nat fuel ->
  exists count result machine',
    execute_program fuel ex machine = Some (Some (count, result, machine')) /\
    0 <= count <= get_remaining (context_object_pointer machine).
Proof.
  intros Hex Hmeter Hbuiltins Hvm Hentry Hfuel. unfold execute_program.
  rewrite (ex_config _ _ Hex), Hmeter. cbv zeta.
  pose proof (remaining_u64 (context_object_pointer machine)) as Hu.
  pose proof (enter_program_ok ex config machine Hex Hvm Hentry) as Hi.
  destruct (run_interpreter_ok ex config Hex fuel _ Hi) as [r Er].
  assert (r <> None) as Hr.
  { intros ->. revert Er. apply (run_interpreter_terminates ex config (ex_config _ _ Hex) Hmeter Hbuiltins).
    - split; cbn; [done|]. unfold is_u in Hu. lia.
    - unfold budget. cbn. lia. }
  rewrite Er. destruct r as [i|]; [|done]. eexists _, _, _. split; [done|]. cbn.
  pose proof (remaining_u64 (consume (context_object_pointer (vm i)) (due_insn_count (vm i)))) as Hu'.
  unfold is_u in Hu, Hu'. unfold saturating_sub. lia.
Qed.

(** C3. A verified program always runs to a result. For every executable whose
    text the verifier accepts, with builtins that keep memory well formed and do
    not refill the meter, and every well-formed machine, executing with the
    meter enabled neither panics nor touches memory outside the regions, stops
    within the budget of the context object, and reports at most that many
    instructions. *)
Theorem verified_execution_total (ex : Executable C) (config : Config) (machine : EbpfVm C)
    (fuel : nat) :
  executable_ok ex config -> enable_instruction_meter config = true ->
  (forall key name f, lookup_by_key (sparse_registry (loader ex)) key = Some (name, f) ->
     BuiltinMetered f) ->
  vm_ok config machine -> 0 <= entry_pc ex <= num_insns (text_bytes ex) ->
  get_remaining (context_object_pointer machine) < Z.of_nat fuel ->
  exists count result machine',
    execute_program fuel ex machine = Some (Some (count, result, machine')) /\
    0 <= count <= get_remaining (context_object_pointer machine).
Proof. apply execute_total. Qed.

End exec.

(** ** Example *)

(** A context object that is just the meter. *)
#[export] Instance Z_ContextObject : ContextObject Z := {|
  consume c n := saturating_sub (as_u64 c) n;
  get_remaining c := as_u64 c
|}.

#[export] Instance Z_ContextInvariant : ContextInvariant Z := fun _ => True.

#[export] Instance Z_ContextLaws : ContextLaws Z.
Proof.
  split; cbn.
  - intros c. apply cast_u_range. lia.
  - intros c n Hn. pose proof (cast_u_range 64 c ltac:(lia)).
    rewrite cast_u_id; [done|]. int_lia.
  - done.
Qed.

(** Small frames and a shallow stack. *)
Definition example_config : Config := {|
  max_call_depth := 4; stack_frame_size := 64; enable_address_translation := true;
  enable_stack_frame_gaps := true; instruction_meter_checkpoint_distance := 10000;
  enable_instruction_meter := true; enable_register_tracing := false;
  enable_symbol_and_section_labels := false; reject_broken_elfs := false;
  noop_instruction_rate := 256; sanitize_user_provided_values := true; optimize_rodata := true;
  allow_memory_region_zero := false; aligned_memory_mapping := true;
  enabled_sbpf_versions := (V0, V4) |}.

(** A builtin that spends ten units and returns its first argument plus one. *)
Definition example_rust : RustBuiltin Z :=
  fun c a1 _ _ _ _ m host => (saturating_sub (as_u64 c) 10, m, host, Ok (wrapping_add a1 1)).

Lemma example_rust_ok : RustOk example_rust.
Proof. intros c a1 a2 a3 a4 a5 m host c' m' host' x Hc Hm Hh Hb [= <- <- <- <-]. split; [apply u_cast_any; lia|done]. Qed.

Lemma example_rust_metered : RustMetered example_rust.
Proof.
  intros c a1 a2 a3 a4 a5 m host. cbn. pose proof (cast_u_range 64 c ltac:(lia)).
  rewrite (cast_u_id 64 (saturating_sub _ _)); int_lia.
Qed.

(** Loads from the input region, a builtin call, and a store to the stack. *)
Definition example_exec_insns : list Insn :=
  [ mkInsn 0 LD_W_REG 2 1 4 0;
    mkInsn 0 ST_DW_REG 10 2 (-8) 0;
    mkInsn 0 LD_DW_REG 1 10 (-8) 0;
    mkInsn 0 CALL_IMM 0 0 0 7;
    mkInsn 0 EXIT 0 0 0 0 ].

Definition example_loader : BuiltinProgram Z :=
  mkBuiltinProgram (Some example_config)
    (mkRegistry {[ 7 := ([115], builtin_vm example_config example_rust) ]}).

Definition example_executable : Executable Z :=
  let bytes := concat (map to_array example_exec_insns) in
  mkExecutable bytes V0 (Borrowed MM_BYTECODE_START (mkRange 0 (len bytes))) MM_BYTECODE_START
    (mkRange 0 (len bytes)) 0 registry_default example_loader.

(** Program text, stack, heap and input regions, over disjoint host memory. *)
Definition example_vm_regions : list MemoryRegion :=
  [ new_readonly 0x1000 40 MM_BYTECODE_START; new_writable 0x2000 64 MM_STACK_START;
    new_writable 0x3000 16 MM_HEAP_START; new_readonly 0x4000 16 MM_INPUT_START ].

Definition example_vm_host : HostMemory :=
  list_to_map (map (fun a => (a, a mod 256))
    (seqZ 0x1000 40 ++ seqZ 0x2000 64 ++ seqZ 0x3000 16 ++ seqZ 0x4000 16)).

Definition example_mapping : MemoryMapping :=
  match mapping_new 1 example_vm_regions example_config V0 with Ok m => m | Err _ => Identity end.

Lemma example_vm_regions_ok : Forall region_ok example_vm_regions.
Proof. repeat constructor; vm_compute; done. Qed.

Lemma example_mapping_ok :
  mapping_ok example_mapping /\ mapping_handler_ok example_mapping /\
  backed (get_regions example_mapping) example_vm_host.
Proof.
  assert (mapping_new 1 example_vm_regions example_config V0 = Ok example_mapping) as E
    by by vm_compute.
  apply mapping_new_ok in E as (Hm & _ & _ & Hc); [|by vm_compute|exact example_vm_regions_ok].
  split; [done|]. split.
  - intros c Ec. rewrite Ec in Hc. injection Hc as ->. apply default_handler_ok.
  - apply backedb_sound. by vm_compute.
Qed.

Definition example_machine : EbpfVm Z :=
  let m := vm_new example_config V0 100 example_mapping example_vm_host 256 in
  set_registers (<[1%nat := MM_INPUT_START]> (registers m)) m.

Lemma example_machine_ok : vm_ok example_config example_machine.
Proof.
  destruct example_mapping_ok as (H1 & H2 & H3).
  pose proof (vm_new_ok example_config V0 100 example_mapping example_vm_host 256
    ltac:(by vm_compute) eq_refl ltac:(by vm_compute) ltac:(by vm_compute) H1 H2 H3 I) as [Hr Hd Hfl Hf Hm Hh Hb Hc].
  split; try done. apply regs_insert; [done|by vm_compute].
Qed.

Lemma example_registry key name f :
  lookup_by_key (sparse_registry (loader example_executable)) key = Some (name, f) ->
  f = builtin_vm example_config example_rust.
Proof.
  unfold lookup_by_key. cbn [example_executable loader example_loader sparse_registry fr_map].
  intros Hk. apply lookup_singleton_Some in Hk as [_ Hk]. by injection Hk.
Qed.

Lemma example_executable_ok : executable_ok example_executable example_config.
Proof.
  split.
  - done.
  - by vm_compute.
  - apply bytes_slice. vm_compute. repeat constructor; discriminate.
  - by vm_compute.
  - by vm_compute.
  - intros key name pc Hk. unfold lookup_by_key in Hk. cbn in Hk. by rewrite lookup_empty in Hk.
  - intros key name f Hf. apply example_registry in Hf as ->. apply builtin_vm_ok, example_rust_ok.
Qed.

Lemma verified_execution_total_witness :
  exists count result machine',
    execute_program 101 example_executable example_machine = Some (Some (count, result, machine')) /\
    0 <= count <= 100 /\ (count, result) = (15, Ok 0x07060505).
Proof.
  destruct (verified_execution_total example_executable example_config example_machine 101
    example_executable_ok eq_refl
    ltac:(intros key name f Hf; apply example_registry in Hf as ->;
          apply builtin_vm_metered; [reflexivity|exact example_rust_metered])
    example_machine_ok ltac:(by vm_compute) ltac:(by vm_compute)) as (count & result & m' & E & Hc).
  exists count, result, m'. split; [exact E|]. split; [exact Hc|].
  apply (f_equal (option_map (option_map fst))) in E. cbn [option_map fst] in E.
  apply (inj Some), (inj Some). rewrite <- E. by vm_compute.
Defined.
