(* ===== verification/Frames.v ===== *)
(** The calling convention of the interpreter: what a call saves, a return
    restores. [push_frame] and the exit arm of sbpf/src/interpreter.rs keep the
    frames of [EbpfVm] as a stack, whatever runs in between. *)

From Stdlib Require Import ZArith Lia Bool.
From stdpp Require Import strings.
From S2P Require Import Prelude.
From S2P Require Import SbpfTypes.
From S2P Require Import Ebpf.
From S2P Require Import Mapping.
From S2P Require Import MappingSafe.
From S2P Require Import Verifier.
From S2P Require Import Vm.
From S2P Require Import Interp.
From S2P Require Import InterpSafe.
From S2P Require Import Exec.

#[local] Open Scope Z_scope.

(** What a builtin owes the caller: the call stack is not its business. *)
Definition BuiltinFrames {C} (f : BuiltinFunction C) : Prop :=
  forall m a b c d e, call_depth (f m a b c d e) = call_depth m /\
    call_frames (f m a b c d e) = call_frames m.

(** The generated adapter owes it for every Rust function. *)
Lemma builtin_vm_frames {C} `{ContextObject C} config (rust : RustBuiltin C) :
  BuiltinFrames (builtin_vm config rust).
Proof.
  intros m a b c d e. unfold builtin_vm.
  destruct (enable_instruction_meter config), (rust _ _ _ _ _ _ _ _) as [[[? ?] ?] ?]; done.
Qed.

Section frames.
Context {C : Type} `{Inv : ContextInvariant C} (ex : Executable C) (config : Config) (Hex : executable_ok ex config).
Hypothesis Hbuiltins : forall key name f,
  lookup_by_key (sparse_registry (loader ex)) key = Some (name, f) -> BuiltinFrames f.

(** The frame a call in this state saves. *)
Definition saved_frame (r : list Z) : CallFrame :=
  mkFrame (slice r 6 10) (r !!! 10%nat) (wrapping_add (r !!! 11%nat) 1).

(** The three things an instruction can do to the call stack. *)
Inductive frames_effect (i i' : Interpreter C) (next_pc : Z) : Prop :=
| EffectNone :
    call_depth (vm i') = call_depth (vm i) -> call_frames (vm i') = call_frames (vm i) ->
    frames_effect i i' next_pc
| EffectCall :
    call_depth (vm i') = call_depth (vm i) + 1 ->
    call_frames (vm i') =
      <[Z.to_nat (call_depth (vm i)) := saved_frame (reg i)]> (call_frames (vm i)) ->
    frames_effect i i' next_pc
| EffectReturn (frame : CallFrame) :
    call_depth (vm i') = call_depth (vm i) - 1 -> call_frames (vm i') = call_frames (vm i) ->
    call_frames (vm i) !! Z.to_nat (call_depth (vm i) - 1) = Some frame ->
    slice (reg i') 6 10 = caller_saved_registers frame -> reg i' !! 10%nat = Some (frame_pointer frame) ->
    take 6 (reg i') = take 6 (reg i) -> next_pc = target_pc frame ->
    frames_effect i i' next_pc.

Definition flow_frames (i : Interpreter C) (r : option (Flow C)) : Prop :=
  match r with Some (Next i' next_pc) => frames_effect i i' next_pc | _ => True end.

Lemma throw_frames i j err : flow_frames i (throw_error j err).
Proof. unfold throw_error. destruct (reg j !! 11%nat); [|done]. by destruct (_ <=? _). Qed.

Lemma set_reg_frames k x (i i' : Interpreter C) :
  set_reg k x i = Some i' -> vm i' = vm i /\ reg i' = <[Z.to_nat k := x]> (reg i).
Proof. unfold set_reg. destruct (_ && _); [|done]. by intros [= <-]. Qed.

Lemma perform_frames insn next_pc i a : flow_frames i (perform insn next_pc i a).
Proof.
  assert (forall j k x pc, call_depth (vm j) = call_depth (vm i) ->
    call_frames (vm j) = call_frames (vm i) ->
    flow_frames i (let! j' := set_reg k x j in Some (Next j' pc))) as Hset.
  { intros j k x pc Hd Hf. destruct (set_reg k x j) as [j'|] eqn:E; [|done].
    apply set_reg_frames in E as [Ev _]. apply EffectNone; by rewrite Ev. }
  destruct a as [x|x|size a|size x a|b|err]; cbn [perform].
  - by apply (Hset i).
  - destruct (set_reg _ x i) as [j|] eqn:E; [|done]. apply set_reg_frames in E as [Ev _].
    destruct (reg j !! 11%nat); [|done]. apply (Hset j); by rewrite ?Ev.
  - destruct (mapping_load _ _ _ _) as [[[m h] []]|]; [|apply throw_frames|done].
    by apply (Hset (set_vm (set_memory m h) i)).
  - destruct (mapping_store _ _ _ _ _) as [[[m h] []]|]; [|apply throw_frames|done].
    by apply EffectNone.
  - by apply EffectNone.
  - apply throw_frames.
Qed.

(** A successful [push_frame] saves the caller's registers. *)
Lemma push_frame_frames i i' :
  state_ok config i -> push_frame ex config i = Some (true, i') ->
  call_depth (vm i') = call_depth (vm i) + 1 /\
  call_frames (vm i') =
    <[Z.to_nat (call_depth (vm i)) := saved_frame (reg i)]> (call_frames (vm i)).
Proof.
  intros [[Hl _] Hv] H. pose proof (vm_depth _ _ Hv). pose proof (ex_depth _ _ Hex).
  unfold push_frame in H. destruct (call_frames _ !! _); [|done].
  destruct (reg i !! Z.to_nat FRAME_PTR_REG) as [fp|] eqn:Efp; [|done].
  destruct (reg i !! 11%nat) as [pc|] eqn:Epc; [|done].
  set (i1 := set_vm _ i) in H. assert (call_depth (vm i1) = call_depth (vm i) + 1) as Ed.
  { cbn. unfold wrapping_add. apply cast_u_id. int_lia. }
  assert (call_frames (vm i1) =
    <[Z.to_nat (call_depth (vm i)) := saved_frame (reg i)]> (call_frames (vm i))) as Ef.
  { cbn. unfold saved_frame. change (Z.to_nat FRAME_PTR_REG) with 10%nat in Efp.
    by rewrite (list_lookup_total_correct _ _ _ Efp), (list_lookup_total_correct _ _ _ Epc). }
  clearbody i1. destruct (_ =? _).
  { destruct (throw_error _ _) as [[]|]; done. }
  destruct (negb _); [|by injection H as <-].
  destruct (set_reg _ _ i1) as [i2|] eqn:E; [|done]. injection H as <-.
  apply set_reg_frames in E as [Ev _]. by rewrite Ev.
Qed.

Lemma check_pc_frames i i' pc :
  (forall next_pc, next_pc = pc -> frames_effect i i' next_pc) ->
  flow_frames i (check_pc (text_bytes ex) i' pc).
Proof. intros H. unfold check_pc. destruct (is_pc_in_program _ _); [by apply H|apply throw_frames]. Qed.

Lemma call_reg_arm_frames insn i :
  state_ok config i -> flow_frames i (call_reg_arm ex config insn i).
Proof.
  intros Hi. unfold call_reg_arm.
  destruct (if callx_uses_src_reg (sbpf_version ex) then _ else _); [|done].
  destruct (push_frame ex config i) as [[[] i']|] eqn:E; [|done..]. cbn [negb].
  apply check_pc_frames. intros next_pc _. apply push_frame_frames in E as [? ?]; [|done]. by apply EffectCall.
Qed.

Lemma exit_arm_frames i : state_ok config i -> flow_frames i (exit_arm ex config i).
Proof.
  intros [[Hl _] Hv]. pose proof (vm_depth _ _ Hv). pose proof (ex_depth _ _ Hex). unfold exit_arm.
  destruct (Z.eqb_spec (call_depth (vm i)) 0) as [|Hne].
  { destruct (_ && _); [apply throw_frames|]. by destruct (reg i !! 0%nat). }
  set (i1 := set_vm _ i). assert (call_depth (vm i1) = call_depth (vm i) - 1) as Ed.
  { cbn. unfold wrapping_sub. apply cast_u_id. int_lia. }
  assert (call_frames (vm i1) = call_frames (vm i)) as Ef by done.
  assert (reg i1 = reg i) as Er by done. clearbody i1. rewrite Ed, Ef.
  destruct (call_frames (vm i) !! _) as [frame|] eqn:Eframe; [|done].
  assert (length (caller_saved_registers frame) = 4%nat) as H4.
  { by apply frame_saved_length, (Forall_lookup_1 _ _ _ _ (vm_frames _ _ Hv) Eframe). }
  destruct (set_reg _ _ i1) as [i2|] eqn:E; [|done]. apply set_reg_frames in E as [Ev2 Er2].
  rewrite Er in Er2. change (Z.to_nat FRAME_PTR_REG) with 10%nat in Er2.
  change (Z.to_nat FIRST_SCRATCH_REG) with 6%nat.
  change (Z.to_nat (FIRST_SCRATCH_REG + SCRATCH_REGS)) with 10%nat.
  assert (length (take 6 (reg i2)) = 6%nat) as H6 by (rewrite length_take, Er2, length_insert, Hl; done).
  apply check_pc_frames. intros next_pc ->. apply (EffectReturn _ _ _ frame); cbn [vm reg].
  - by rewrite Ev2.
  - by rewrite Ev2.
  - done.
  - unfold slice. change (Z.to_nat (10 - 6)) with 4%nat. change (Z.to_nat 6) with 6%nat.
    rewrite <- H6 at 1. rewrite drop_app_length, <- H4. apply take_app_length.
  - rewrite app_assoc, lookup_app_r; rewrite length_app, H6, H4; [|done].
    cbn [Nat.sub Nat.add]. rewrite lookup_drop, Er2. apply list_lookup_insert_eq. rewrite Hl. lia.
  - rewrite take_app_le by lia. rewrite take_take, Er2, take_insert_ge by lia. done.
  - done.
Qed.

Lemma dispatch_syscall_frames (i : Interpreter C) f :
  BuiltinFrames f ->
  call_depth (vm (dispatch_syscall i f)) = call_depth (vm i) /\
  call_frames (vm (dispatch_syscall i f)) = call_frames (vm i) /\ reg (dispatch_syscall i f) = reg i.
Proof.
  intros Hf. unfold dispatch_syscall. cbn. set (m := set_registers _ _). unfold invoke_function.
  by destruct (Hf m (registers m !!! 1%nat) (registers m !!! 2%nat) (registers m !!! 3%nat)
    (registers m !!! 4%nat) (registers m !!! 5%nat)) as [-> ->].
Qed.

Lemma call_imm_internal_frames insn next_pc resolved (i j : Interpreter C) :
  state_ok config j -> call_depth (vm j) = call_depth (vm i) ->
  call_frames (vm j) = call_frames (vm i) -> saved_frame (reg j) = saved_frame (reg i) ->
  flow_frames i (call_imm_internal ex config insn next_pc resolved j).
Proof.
  intros Hj Ed Ef Es. unfold call_imm_internal.
  assert (flow_frames i (if resolved then Some (Next j next_pc) else throw_error j UnsupportedInstruction))
    as Hun by (destruct resolved; [by apply EffectNone|apply throw_frames]).
  assert (forall j' pc, push_frame ex config j = Some (true, j') -> frames_effect i j' pc) as Hpush.
  { intros j' pc E. apply (push_frame_frames j j' Hj) in E as [E1 E2].
    apply EffectCall; congruence. }
  destruct (static_syscalls _).
  - destruct (_ && _); [|done]. destruct (push_frame ex config j) as [[[] j']|] eqn:E; [|done..].
    by apply Hpush.
  - destruct (lookup_by_key _ _) as [[name t]|]; [|done].
    destruct (push_frame ex config j) as [[[] j']|] eqn:E; [|done..]. cbn [negb].
    apply check_pc_frames. intros. by apply Hpush.
Qed.

Lemma call_imm_arm_frames insn next_pc i :
  state_ok config i -> flow_frames i (call_imm_arm ex config insn next_pc i).
Proof.
  intros Hi. unfold call_imm_arm, call_imm_external.
  destruct (_ || _); [|by apply call_imm_internal_frames].
  destruct (lookup_by_key _ _) as [[name f]|] eqn:El; [|by apply call_imm_internal_frames].
  pose proof (ex_builtins _ _ Hex _ _ _ El) as Hok. apply Hbuiltins in El.
  destruct (dispatch_syscall_frames i f El) as (E1 & E2 & E3).
  destruct (program_result _) as [x|] eqn:Ex; [|done].
  destruct (set_reg _ _ _) as [i'|] eqn:E; [|done]. apply set_reg_frames in E as [Ev Er].
  destruct (dispatch_syscall_ok config i f Hi Hok) as [_ Hd]. destruct (Hd x Ex) as [Hx Hv].
  apply call_imm_internal_frames; rewrite ?Ev; [|done|done|].
  - split; [rewrite Er, E3; by apply regs_insert; [apply Hi|]|by rewrite Ev].
  - rewrite Er, E3. unfold saved_frame. change (Z.to_nat 0) with 0%nat.
    rewrite !list_lookup_total_insert_ne by lia. unfold slice. by rewrite drop_insert_lt by lia.
Qed.

Lemma step_insn_frames insn next_pc i :
  state_ok config i -> flow_frames i (step_insn ex config insn next_pc i).
Proof.
  intros Hi. unfold step_insn. destruct (step_arms _ _ _) as [|[a|]]; [|apply perform_frames|done].
  destruct (_ =? CALL_REG); [by apply call_reg_arm_frames|].
  destruct (_ =? CALL_IMM); [by apply call_imm_arm_frames|].
  destruct (_ =? EXIT); [by apply exit_arm_frames|apply throw_frames].
Qed.

(** The effect of a whole step; the program counter is register 11. *)
Lemma step_frames i i' :
  interp_ok ex config i -> step ex i = Some (true, i') ->
  exists next_pc, reg i' !! 11%nat = Some next_pc /\ frames_effect i i' next_pc.
Proof.
  intros [Hi _] H. unfold step in H. rewrite (ex_config _ _ Hex) in H.
  assert (forall j r, call_depth (vm j) = call_depth (vm i) -> call_frames (vm j) = call_frames (vm i) ->
    reg j = reg i -> flow_frames j r ->
    (let! r := r in match r with Stop i => Some (false, i)
      | Next i next_pc => let! i := set_reg 11 next_pc i in Some (true, i) end) = Some (true, i') ->
    exists next_pc, reg i' !! 11%nat = Some next_pc /\ frames_effect i i' next_pc) as Hfin.
  { clear H. intros j [[k pc|k]|] Ed Ef Er Hr H; [|done..].
    unfold set_reg in H. destruct (_ && _) eqn:Eb; [|done]. injection H as <-. bool_to_prop.
    exists pc. cbn [reg]. change (Z.to_nat 11) with 11%nat.
    split; [apply list_lookup_insert_eq; unfold len in *; lia|].
    destruct Hr as [E1 E2|E1 E2|frame E1 E2 E3 E4 E5 E6 E7].
    - apply EffectNone; cbn; congruence.
    - apply EffectCall; cbn; congruence.
    - apply (EffectReturn _ _ _ frame); cbn [vm reg]; try congruence.
      + unfold slice in *. rewrite <- E4. rewrite drop_insert_ge, take_insert_ge by (cbn; lia). done.
      + by rewrite list_lookup_insert_ne by lia.
      + rewrite take_insert_ge by lia. congruence. }
  destruct (_ && _); [by eapply (Hfin i); [..|apply throw_frames|exact H]|].
  set (i1 := set_vm _ i) in H. destruct (reg i1 !! 11%nat); [|done].
  destruct (_ <=? _); [by eapply (Hfin i1); [..|apply throw_frames|exact H]|].
  destruct (get_insn_unchecked _ _) as [insn|]; [|done].
  assert (state_ok config i1) as Hi1 by (apply set_vm_ok; [by apply vm_ok_ext|done]).
  destruct (enable_register_tracing config).
  - eapply (Hfin (set_vm _ i1)); [..|apply step_insn_frames|exact H]; [done..|].
    apply set_vm_ok; [by apply vm_ok_ext|done].
  - by eapply (Hfin i1); [..|apply step_insn_frames|exact H].
Qed.

(** Steps of the interpreter during which the call depth stays above [d]. *)
Inductive runs_above (d : Z) : Interpreter C -> Interpreter C -> Prop :=
| above_refl i : d < call_depth (vm i) -> runs_above d i i
| above_step i i' i'' :
    d < call_depth (vm i) -> step ex i = Some (true, i') -> runs_above d i' i'' ->
    runs_above d i i''.

Lemma runs_above_frame d i i' :
  0 <= d -> interp_ok ex config i -> runs_above d i i' ->
  interp_ok ex config i' /\ d < call_depth (vm i') /\
  call_frames (vm i') !! Z.to_nat d = call_frames (vm i) !! Z.to_nat d.
Proof.
  intros Hd0 Hi Hrun. induction Hrun as [i Hd|i i' i'' Hd Hs _ IH]; [done|].
  destruct (step_ok ex config Hex i Hi) as (b & i0 & E & Hok). rewrite Hs in E. injection E as <- <-.
  destruct (IH (Hok eq_refl)) as (H1 & H2 & H3). split; [done|]. split; [done|]. rewrite H3.
  destruct (step_frames i i' Hi Hs) as (pc & _ & [E1 E2|E1 E2|frame E1 E2 _ _ _ _ _]); rewrite E2; try done.
  apply list_lookup_insert_ne. lia.
Qed.

(** C38. Calls return. When an instruction calls (the depth grows by one), the
    callee and everything it calls run above that depth, and then an instruction
    returns to it, execution goes on behind the call with the scratch registers
    r6 to r9 and the frame pointer r10 as they were at the call, and with the
    registers r0 to r5 as the callee left them. *)
Theorem call_return (i i1 i2 i3 : Interpreter C) (pc : Z) :
  interp_ok ex config i -> reg i !! 11%nat = Some pc ->
  step ex i = Some (true, i1) -> call_depth (vm i1) = call_depth (vm i) + 1 ->
  runs_above (call_depth (vm i)) i1 i2 ->
  step ex i2 = Some (true, i3) -> call_depth (vm i3) = call_depth (vm i) ->
  slice (reg i3) 6 10 = slice (reg i) 6 10 /\ reg i3 !! 10%nat = reg i !! 10%nat /\
  reg i3 !! 11%nat = Some (pc + 1) /\ take 6 (reg i3) = take 6 (reg i2).
Proof.
  intros Hi Epc Hs1 Hd1 Hrun Hs3 Hd3. pose proof Hi as [[[Hl _] Hv] (pc' & Epc' & Hpc)].
  rewrite Epc in Epc'. injection Epc' as <-. pose proof (vm_depth _ _ Hv) as Hd.
  destruct (step_ok ex config Hex i Hi) as (b & i0 & E & Hok). rewrite Hs1 in E. injection E as <- <-.
  destruct (runs_above_frame _ _ _ (proj1 Hd) (Hok eq_refl) Hrun) as (Hi2 & Hd2 & Eframe).
  destruct (step_frames i i1 Hi Hs1) as (_ & _ & [E1 _|_ E1|frame E1 _ _ _ _ _ _]); [lia| |lia].
  destruct (step_frames i2 i3 Hi2 Hs3) as (pc3 & Epc3 & [E2 _|E2 _|frame E2 _ E3 E4 E5 E6 E7]); [lia..|].
  replace (call_depth (vm i2) - 1) with (call_depth (vm i)) in E3 by lia.
  rewrite Eframe, E1 in E3. rewrite list_lookup_insert_eq in E3
    by (pose proof (vm_frames_length _ _ Hv); lia).
  injection E3 as <-. cbn in E4, E5, E7. split; [done|].
  destruct (lookup_lt_is_Some_2 (reg i) 10) as [fp Efp]; [lia|].
  rewrite (list_lookup_total_correct _ _ _ Efp) in E5. rewrite (list_lookup_total_correct _ _ _ Epc) in E7.
  split; [congruence|]. split; [|done]. rewrite Epc3, E7. f_equal.
  pose proof (num_insns_bound ex config Hex). int_lia.
Qed.

End frames.

(** ** Example *)

(** A program whose first instruction calls a function that overwrites r6. *)
Definition call_insns : list Insn :=
  [ mkInsn 0 CALL_IMM 0 0 0 1;
    mkInsn 0 EXIT 0 0 0 0;
    mkInsn 0 MOV64_IMM 6 0 0 9;
    mkInsn 0 EXIT 0 0 0 0 ].

Definition call_executable : Executable Z :=
  let bytes := concat (map to_array call_insns) in
  mkExecutable bytes V0 (Borrowed MM_BYTECODE_START (mkRange 0 (len bytes))) MM_BYTECODE_START
    (mkRange 0 (len bytes)) 0 (mkRegistry {[ 1 := ([102], 2) ]}) example_loader.

Lemma call_executable_ok : executable_ok call_executable example_config.
Proof.
  split.
  - done.
  - by vm_compute.
  - apply bytes_slice. vm_compute. repeat constructor; discriminate.
  - by vm_compute.
  - by vm_compute.
  - intros key name pc Hk. unfold lookup_by_key in Hk.
    cbn [call_executable function_registry fr_map] in Hk.
    apply lookup_singleton_Some in Hk as [_ Hk]. injection Hk as _ <-. by vm_compute.
  - apply (ex_builtins _ _ example_executable_ok).
Qed.

(** The state after [n] steps. *)
Fixpoint steps_from (n : nat) (i : Interpreter Z) : Interpreter Z :=
  match n with
  | O => i
  | S n =>
      match step call_executable i with
      | Some (true, i') => steps_from n i'
      | _ => i
      end
  end.

Definition call_start : Interpreter Z := enter_program call_executable example_machine.

Lemma call_return_witness :
  reg (steps_from 2 call_start) !! 6%nat = Some 9 /\
  slice (reg (steps_from 3 call_start)) 6 10 = [0; 0; 0; 0] /\
  reg (steps_from 3 call_start) !! 11%nat = Some 1.
Proof.
  destruct (call_return call_executable example_config call_executable_ok
    ltac:(intros key name f Hf; apply example_registry in Hf as ->; apply builtin_vm_frames)
    call_start (steps_from 1 call_start) (steps_from 2 call_start) (steps_from 3 call_start) 0)
    as (H1 & _ & H3 & _).
  - apply enter_program_ok; [exact call_executable_ok|exact example_machine_ok|by vm_compute].
  - by vm_compute.
  - vm_compute. reflexivity.
  - by vm_compute.
  - apply (above_step _ _ _ (steps_from 2 call_start));
      [by vm_compute|vm_compute; reflexivity|apply above_refl; by vm_compute].
  - vm_compute. reflexivity.
  - by vm_compute.
  - split; [by vm_compute|]. split; [|exact H3]. rewrite H1. by vm_compute.
Defined.
