(* ===== verification/Detect.v ===== *)
(** What the access tracker sees of an execution.

    Erasing the tracker commutes with every step of the machine, so watching
    memory does not change what a program computes; and the accesses recorded by
    the end of a run are exactly the loads of the run that touch a watched
    range. *)

From Stdlib Require Import ZArith Lia Bool.
From stdpp Require Import strings.
From S2P Require Import Prelude.
From S2P Require Import SbpfTypes.
From S2P Require Import Ebpf.
From S2P Require Import Tracker.
From S2P Require Import MemoryRegion.
From S2P Require Import Mapping.
From S2P Require Import MappingSafe.
From S2P Require Import Verifier.
From S2P Require Import Vm.
From S2P Require Import Interp.
From S2P Require Import InterpSafe.
From S2P Require Import Meter.
From S2P Require Import Exec.

#[local] Open Scope Z_scope.

(** ** Erasing the tracker *)

Definition erase (m : MemoryMapping) : MemoryMapping := with_access_tracker (fun _ => tracker_new) m.

Lemma erase_with f m : erase (with_access_tracker f m) = erase m.
Proof. by destruct m. Qed.

Lemma get_tracker_with f m :
  get_access_tracker (with_access_tracker f m) = option_map f (get_access_tracker m).
Proof. by destruct m. Qed.

Lemma with_check_erase a n m :
  with_access_tracker (fun t => check_access t a n) (erase m) = erase m.
Proof. by destruct m. Qed.

Lemma find_region_erase m a :
  find_region (erase m) a = (erase (find_region m a).1, (find_region m a).2).
Proof.
  destruct m as [| |u]; [done|done|]. cbn. unfold unaligned_find_region. cbn.
  destruct (cache_find (cache u) a); [done|]. by destruct (_ =? 0).
Qed.

Lemma replace_region_erase m i r :
  replace_region (erase m) i r = (erase (replace_region m i r).1, (replace_region m i r).2).
Proof.
  unfold replace_region. destruct m as [|a|u]; cbn; [done| |].
  - destruct (_ || _ || _); [done|]. unfold aligned_replace_region. cbn. by destruct (_ || _).
  - by destruct (_ || _ || _).
Qed.

Lemma get_regions_erase m : get_regions (erase m) = get_regions m.
Proof. by destruct m. Qed.

Lemma mapping_common_erase m :
  mapping_common (erase m) = option_map (fun c => set_tracker c tracker_new) (mapping_common m).
Proof. by destruct m. Qed.

Lemma map_erase m host ty a n :
  map_with_access_violation_handler (erase m) host ty a n =
  let '(m', host', res) := map_with_access_violation_handler m host ty a n in (erase m', host', res).
Proof.
  unfold map_with_access_violation_handler. rewrite mapping_common_erase, find_region_erase.
  destruct (mapping_common m) as [c|]; [|done]. cbn [option_map].
  destruct (find_region m a) as [m1 [[i r]|]]; [|done]. cbn [fst snd].
  destruct (vm_to_host r ty a n); [done|]. rewrite get_regions_erase.
  change (access_violation_handler (set_tracker c tracker_new)) with (access_violation_handler c).
  destruct (access_violation_handler c _ _ _ _ _ _) as [host1 r1].
  destruct (vm_to_host r1 ty a n); [|done]. rewrite replace_region_erase.
  destruct (replace_region m1 i r1) as [m2 [[]|]]; done.
Qed.

Definition erase_result (r : MemoryMapping * HostMemory * ProgramResult) :=
  let '(m, host, res) := r in (erase m, host, res).

Lemma mapping_load_erase size m host a :
  mapping_load size (erase m) host a = option_map erase_result (mapping_load size m host a).
Proof.
  unfold mapping_load. rewrite with_check_erase.
  rewrite <- (erase_with (fun t => check_access t a (Z.of_nat size)) m), map_erase.
  destruct (map_with_access_violation_handler _ _ _ _ _) as [[m1 host1] [h|]]; [|done].
  by destruct (host_read _ _ _).
Qed.

Lemma mapping_store_erase size m host x a :
  mapping_store size (erase m) host x a = option_map erase_result (mapping_store size m host x a).
Proof.
  unfold mapping_store. rewrite map_erase.
  destruct (map_with_access_violation_handler _ _ _ _ _) as [[m1 host1] [h|]]; [|done].
  by destruct (host_write _ _ _).
Qed.

Section erase.
Context {C : Type}.

Definition erase_vm (m : EbpfVm C) : EbpfVm C :=
  set_memory (erase (memory_mapping m)) (host_memory m) m.
Definition erase_interp (i : Interpreter C) : Interpreter C := set_vm erase_vm i.
Definition erase_flow (r : Flow C) : Flow C :=
  match r with Next i pc => Next (erase_interp i) pc | Stop i => Stop (erase_interp i) end.

(** The behaviour of a builtin does not depend on what is being watched. *)
Definition BuiltinTransparent (f : BuiltinFunction C) : Prop :=
  forall m a b c d e, f (erase_vm m) a b c d e = erase_vm (f m a b c d e).

Context (ex : Executable C).
Context (Hbuiltins : forall key name f,
  lookup_by_key (sparse_registry (loader ex)) key = Some (name, f) -> BuiltinTransparent f).

Lemma set_reg_erase k x i : set_reg k x (erase_interp i) = option_map erase_interp (set_reg k x i).
Proof. unfold set_reg. cbn. by destruct (_ && _). Qed.

Lemma throw_error_erase i err : throw_error (erase_interp i) err = option_map erase_flow (throw_error i err).
Proof. unfold throw_error. cbn. destruct (reg i !! 11%nat); [|done]. by destruct (_ <=? _). Qed.

Lemma check_pc_erase program i t :
  check_pc program (erase_interp i) t = option_map erase_flow (check_pc program i t).
Proof. unfold check_pc. destruct (is_pc_in_program program t); [done|apply throw_error_erase]. Qed.

(** Erasing and then updating a part that is not the tracker. *)
Lemma set_memory_erase m host i :
  set_vm (set_memory (erase m) host) (erase_interp i) = erase_interp (set_vm (set_memory m host) i).
Proof. done. Qed.

Lemma perform_erase insn next_pc i a :
  perform insn next_pc (erase_interp i) a = option_map erase_flow (perform insn next_pc i a).
Proof.
  destruct a; cbn [perform].
  - rewrite set_reg_erase. by destruct (set_reg _ _ i).
  - rewrite set_reg_erase. destruct (set_reg _ _ i) as [i1|]; [|done]. cbn [option_map].
    change (reg (erase_interp i1)) with (reg i1). destruct (reg i1 !! 11%nat); [|done].
    rewrite set_reg_erase. by destruct (set_reg 11 _ i1).
  - change (memory_mapping (vm (erase_interp i))) with (erase (memory_mapping (vm i))).
    change (host_memory (vm (erase_interp i))) with (host_memory (vm i)).
    rewrite mapping_load_erase.
    destruct (mapping_load _ _ _ _) as [[[m host] [x|err]]|]; [..|done]; cbn [option_map erase_result];
      rewrite set_memory_erase; [|apply throw_error_erase].
    rewrite set_reg_erase. by destruct (set_reg _ _ _).
  - change (memory_mapping (vm (erase_interp i))) with (erase (memory_mapping (vm i))).
    change (host_memory (vm (erase_interp i))) with (host_memory (vm i)).
    rewrite mapping_store_erase.
    destruct (mapping_store _ _ _ _ _) as [[[m host] [x|err]]|]; [..|done]; cbn [option_map erase_result];
      rewrite set_memory_erase; [done|apply throw_error_erase].
  - done.
  - apply throw_error_erase.
Qed.

Definition erase_pair (r : bool * Interpreter C) : bool * Interpreter C := (r.1, erase_interp r.2).

Lemma push_frame_erase config i :
  push_frame ex config (erase_interp i) = option_map erase_pair (push_frame ex config i).
Proof.
  unfold push_frame. change (call_frames (vm (erase_interp i))) with (call_frames (vm i)).
  change (call_depth (vm (erase_interp i))) with (call_depth (vm i)).
  change (reg (erase_interp i)) with (reg i).
  destruct (call_frames _ !! _); [|done]. destruct (reg i !! Z.to_nat FRAME_PTR_REG) as [fp|]; [|done].
  destruct (reg i !! 11%nat) as [pc|]; [|done].
  set (i1 := set_vm _ i). change (set_vm _ (erase_interp i)) with (erase_interp i1).
  change (call_depth (vm (erase_interp i1))) with (call_depth (vm i1)). destruct (_ =? _).
  - rewrite throw_error_erase. by destruct (throw_error i1 CallDepthExceeded) as [[]|].
  - destruct (negb _); [|done]. rewrite set_reg_erase. by destruct (set_reg _ _ i1).
Qed.

Lemma call_reg_arm_erase config insn i :
  call_reg_arm ex config insn (erase_interp i) = option_map erase_flow (call_reg_arm ex config insn i).
Proof.
  unfold call_reg_arm. change (reg (erase_interp i)) with (reg i).
  destruct (if callx_uses_src_reg (sbpf_version ex) then _ else _) as [t|]; [|done].
  rewrite push_frame_erase. destruct (push_frame ex config i) as [[[] i1]|]; [|done..].
  cbn [option_map erase_pair fst snd negb]. apply check_pc_erase.
Qed.

Lemma exit_arm_erase config i :
  exit_arm ex config (erase_interp i) = option_map erase_flow (exit_arm ex config i).
Proof.
  unfold exit_arm. change (call_depth (vm (erase_interp i))) with (call_depth (vm i)). destruct (_ =? 0).
  { change (previous_instruction_meter (vm (erase_interp i))) with (previous_instruction_meter (vm i)).
    change (due_insn_count (vm (erase_interp i))) with (due_insn_count (vm i)).
    destruct (_ && _); [apply throw_error_erase|].
    change (reg (erase_interp i)) with (reg i). by destruct (reg i !! 0%nat). }
  set (i1 := set_vm _ i). change (set_vm _ (erase_interp i)) with (erase_interp i1).
  change (call_frames (vm (erase_interp i1))) with (call_frames (vm i1)).
  change (call_depth (vm (erase_interp i1))) with (call_depth (vm i1)).
  destruct (call_frames (vm i1) !! _) as [frame|]; [|done]. rewrite set_reg_erase.
  destruct (set_reg _ _ i1) as [i2|]; [|done]. cbn [option_map].
  apply (check_pc_erase _ (mkInterpreter (vm i2) _)).
Qed.

Lemma dispatch_syscall_erase i f :
  BuiltinTransparent f -> dispatch_syscall (erase_interp i) f = erase_interp (dispatch_syscall i f).
Proof.
  intros Hf. unfold dispatch_syscall. set (i2 := set_vm _ (set_vm _ i)).
  change (set_vm (fun vm => set_registers _ vm) (set_vm _ (erase_interp i))) with (erase_interp i2).
  unfold erase_interp, set_vm. cbn [vm reg]. f_equal. unfold invoke_function.
  change (registers (erase_vm (vm i2))) with (registers (vm i2)). by rewrite Hf.
Qed.

Lemma call_imm_internal_erase config insn next_pc resolved i :
  call_imm_internal ex config insn next_pc resolved (erase_interp i) =
  option_map erase_flow (call_imm_internal ex config insn next_pc resolved i).
Proof.
  unfold call_imm_internal.
  assert ((if resolved then Some (Next (erase_interp i) next_pc)
           else throw_error (erase_interp i) UnsupportedInstruction) =
    option_map erase_flow (if resolved then Some (Next i next_pc)
                           else throw_error i UnsupportedInstruction)) as Hun
    by (destruct resolved; [done|apply throw_error_erase]).
  destruct (static_syscalls _).
  - destruct (_ && _); [|done]. rewrite push_frame_erase.
    by destruct (push_frame ex config i) as [[[] i1]|].
  - destruct (lookup_by_key _ _) as [[name t]|]; [|done]. rewrite push_frame_erase.
    destruct (push_frame ex config i) as [[[] i1]|]; [|done..].
    cbn [option_map erase_pair fst snd negb]. apply check_pc_erase.
Qed.

Lemma call_imm_arm_erase config insn next_pc i :
  call_imm_arm ex config insn next_pc (erase_interp i) =
  option_map erase_flow (call_imm_arm ex config insn next_pc i).
Proof.
  unfold call_imm_arm, call_imm_external. destruct (_ || _); [|apply call_imm_internal_erase].
  destruct (lookup_by_key _ _) as [[name f]|] eqn:El; [|apply call_imm_internal_erase].
  rewrite dispatch_syscall_erase by (by eapply Hbuiltins).
  change (program_result (vm (erase_interp (dispatch_syscall i f))))
    with (program_result (vm (dispatch_syscall i f))).
  destruct (program_result _) as [x|]; [|done]. rewrite set_reg_erase.
  destruct (set_reg 0 x _) as [i1|]; [|done]. apply call_imm_internal_erase.
Qed.

Lemma step_insn_erase config insn next_pc i :
  step_insn ex config insn next_pc (erase_interp i) =
  option_map erase_flow (step_insn ex config insn next_pc i).
Proof.
  unfold step_insn. change (reg (erase_interp i)) with (reg i).
  destruct (step_arms ex (reg i) insn) as [|[a|]]; [|apply perform_erase|done].
  destruct (_ =? _); [apply call_reg_arm_erase|]. destruct (_ =? _); [apply call_imm_arm_erase|].
  destruct (_ =? _); [apply exit_arm_erase|apply throw_error_erase].
Qed.

(** A step of the erased machine is the erased step of the machine. *)
Lemma step_erase i : step ex (erase_interp i) = option_map erase_pair (step ex i).
Proof.
  unfold step. destruct (get_config ex) as [config|]; [|done].
  assert (forall r, (let! r := option_map erase_flow r in match r with
      | Stop i => Some (false, i)
      | Next i next_pc => let! i := set_reg 11 next_pc i in Some (true, i) end) =
    option_map erase_pair (let! r := r in match r with
      | Stop i => Some (false, i)
      | Next i next_pc => let! i := set_reg 11 next_pc i in Some (true, i) end)) as Hfin.
  { intros [[i1 npc|i1]|]; [|done..]. cbn [option_map erase_flow]. rewrite set_reg_erase.
    by destruct (set_reg 11 npc i1). }
  change (previous_instruction_meter (vm (erase_interp i))) with (previous_instruction_meter (vm i)).
  change (due_insn_count (vm (erase_interp i))) with (due_insn_count (vm i)).
  destruct (_ && _); [rewrite throw_error_erase; apply Hfin|].
  set (i1 := set_vm _ i). change (set_vm _ (erase_interp i)) with (erase_interp i1).
  change (reg (erase_interp i1)) with (reg i1). destruct (reg i1 !! 11%nat) as [pc|]; [|done].
  destruct (_ <=? _); [rewrite throw_error_erase; apply Hfin|].
  destruct (get_insn_unchecked _ _) as [insn|]; [|done].
  destruct (enable_register_tracing config); [|rewrite step_insn_erase; apply Hfin].
  set (i2 := set_vm _ i1). change (set_vm _ (erase_interp i1)) with (erase_interp i2).
  rewrite step_insn_erase. apply Hfin.
Qed.

Lemma run_interpreter_erase fuel i :
  run_interpreter fuel ex (erase_interp i) =
  option_map (option_map erase_interp) (run_interpreter fuel ex i).
Proof.
  revert i; induction fuel as [|fuel IH]; intros i; [done|]. cbn [run_interpreter].
  rewrite step_erase. destruct (step ex i) as [[[] i1]|]; [apply IH|done..].
Qed.

(** The outcome of an execution, up to the tracker. *)
Definition erase_outcome (r : Z * ProgramResult * EbpfVm C) : Z * ProgramResult * EbpfVm C :=
  (r.1, erase_vm r.2).

Lemma execute_program_erase `{ContextObject C} fuel (machine : EbpfVm C) :
  execute_program fuel ex (erase_vm machine) =
  option_map (option_map erase_outcome) (execute_program fuel ex machine).
Proof.
  unfold execute_program. destruct (get_config ex) as [config|]; [|done]. cbv zeta.
  change (enter_program ex (erase_vm machine)) with (erase_interp (enter_program ex machine)).
  rewrite run_interpreter_erase. destruct (run_interpreter _ _ _) as [[i|]|]; [|done..].
  cbn [option_map]. by destruct (enable_instruction_meter config).
Qed.

End erase.

(** ** Loads *)

(** How a builtin reads guest memory: the loads it reports to the tracker, in
    order. They depend on the machine and the arguments, not on what is
    watched. *)
Record BuiltinLoads {C} (f : BuiltinFunction C) (loads : EbpfVm C -> list (Z * Z)) : Prop := {
  loads_transparent : BuiltinTransparent f;
  loads_erase m : loads (erase_vm m) = loads m;
  loads_load_ok m : Forall load_ok (loads m);
  loads_tracked m :
    get_access_tracker (memory_mapping (invoke_function m f)) =
    option_map (fold_left (fun t l => check_access t l.1 l.2) (loads m))
      (get_access_tracker (memory_mapping m))
}.

Lemma find_region_tracker m a : get_access_tracker (find_region m a).1 = get_access_tracker m.
Proof.
  destruct m as [| |u]; [done|done|]. cbn. unfold unaligned_find_region.
  destruct (cache_find (cache u) a); [done|]. by destruct (_ =? 0).
Qed.

Lemma replace_region_tracker m i r : get_access_tracker (replace_region m i r).1 = get_access_tracker m.
Proof.
  unfold replace_region. destruct (_ || _ || _); [done|]. destruct m as [|a|u]; [done| |done].
  unfold aligned_replace_region. by destruct (_ || _).
Qed.

Lemma map_tracker m host ty a n :
  get_access_tracker (map_with_access_violation_handler m host ty a n).1.1 = get_access_tracker m.
Proof.
  unfold map_with_access_violation_handler. destruct (mapping_common m) as [c|]; [|done].
  pose proof (find_region_tracker m a) as Hf. destruct (find_region m a) as [m1 [[i r]|]]; [|done].
  cbn in Hf. destruct (vm_to_host r ty a n); [done|].
  destruct (access_violation_handler c _ _ _ _ _ _) as [host1 r1].
  destruct (vm_to_host r1 ty a n); [|done]. pose proof (replace_region_tracker m1 i r1) as Hr.
  destruct (replace_region m1 i r1) as [m2 [[]|]]; cbn in *; congruence.
Qed.

Lemma mapping_load_tracker size m host a m' host' res :
  mapping_load size m host a = Some (m', host', res) ->
  get_access_tracker m' =
  option_map (fun t => check_access t a (Z.of_nat size)) (get_access_tracker m).
Proof.
  unfold mapping_load. set (m1 := with_access_tracker _ m).
  assert (get_access_tracker m1 =
    option_map (fun t => check_access t a (Z.of_nat size)) (get_access_tracker m)) as E1 by by destruct m.
  pose proof (map_tracker m1 host Load a (Z.of_nat size)) as E2.
  destruct (map_with_access_violation_handler _ _ _ _ _) as [[m2 host2] [h|]]; cbn in E2.
  - destruct (host_read _ _ _); [|done]. intros [= <- <- <-]. congruence.
  - intros [= <- <- <-]. congruence.
Qed.

Lemma mapping_store_tracker size m host x a m' host' res :
  mapping_store size m host x a = Some (m', host', res) -> get_access_tracker m' = get_access_tracker m.
Proof.
  unfold mapping_store. pose proof (map_tracker m host Store a (Z.of_nat size)) as E2.
  destruct (map_with_access_violation_handler _ _ _ _ _) as [[m2 host2] [h|]]; cbn in E2.
  - destruct (host_write _ _ _); [|done]. intros [= <- <- <-]. done.
  - by intros [= <- <- <-].
Qed.

Section loads.
Context {C : Type} (ex : Executable C).

(** The loads of each builtin. *)
Context (builtin_loads : BuiltinFunction C -> EbpfVm C -> list (Z * Z)).
Context (Hbuiltins : forall key name f,
  lookup_by_key (sparse_registry (loader ex)) key = Some (name, f) ->
  BuiltinLoads f (builtin_loads f)).

(** The machine as [dispatch_syscall] hands it to a builtin. *)
Definition at_syscall (i : Interpreter C) : EbpfVm C :=
  let m := set_due_insn_count
             (wrapping_sub (previous_instruction_meter (vm i)) (due_insn_count (vm i))) (vm i) in
  set_registers (take 6 (reg i) ++ drop 6 (registers m)) m.

(** The loads of one instruction. *)
Definition insn_loads (insn : Insn) (i : Interpreter C) : list (Z * Z) :=
  match step_arms ex (reg i) insn with
  | ArmDo (Some (LoadDst size addr)) => [(addr, Z.of_nat size)]
  | ArmDo _ => []
  | NoArm =>
      if (opc insn =? CALL_IMM)
         && (negb (static_syscalls (sbpf_version ex)) || (src insn =? 0))
      then match lookup_by_key (sparse_registry (loader ex)) (as_u32 (imm insn)) with
           | Some (_, f) => builtin_loads f (at_syscall i)
           | None => []
           end
      else []
  end.

(** The loads of one step: none when the meter or the program is exhausted. *)
Definition step_loads (i : Interpreter C) : list (Z * Z) :=
  match get_config ex, reg i !! 11%nat with
  | Some config, Some pc =>
      if (enable_instruction_meter config
          && (previous_instruction_meter (vm i) <=? due_insn_count (vm i)))
         || (len (text_bytes ex) <=? wrapping_mul pc INSN_SIZE)
      then []
      else
        match get_insn_unchecked (text_bytes ex) pc with
        | Some insn =>
            insn_loads insn
              (let i := set_vm (fun vm => set_due_insn_count (wrapping_add (due_insn_count vm) 1) vm) i in
               if enable_register_tracing config
               then set_vm (fun vm => set_register_trace (register_trace vm ++ [reg i]) vm) i
               else i)
        | None => []
        end
  | _, _ => []
  end.

(** The loads of a run, in order. *)
Fixpoint run_loads (fuel : nat) (i : Interpreter C) : list (Z * Z) :=
  match fuel with
  | O => []
  | S fuel =>
      match step ex i with
      | Some (true, i') => step_loads i ++ run_loads fuel i'
      | Some (false, _) => step_loads i
      | None => []
      end
  end.

(** The loads of [execute_program]. *)
Definition execution_loads `{ContextObject C} (fuel : nat) (machine : EbpfVm C) : list (Z * Z) :=
  run_loads fuel (enter_program ex machine).

(** *** Loads do not depend on the tracker *)

Lemma Htransparent key name f :
  lookup_by_key (sparse_registry (loader ex)) key = Some (name, f) -> BuiltinTransparent f.
Proof. intros Hl. by apply Hbuiltins in Hl as []. Qed.

Lemma insn_loads_erase insn i : insn_loads insn (erase_interp i) = insn_loads insn i.
Proof.
  unfold insn_loads. change (reg (erase_interp i)) with (reg i).
  destruct (step_arms ex (reg i) insn) as [|a]; [|done]. destruct (_ && _); [|done].
  destruct (lookup_by_key _ _) as [[name f]|] eqn:El; [|done].
  change (at_syscall (erase_interp i)) with (erase_vm (at_syscall i)).
  apply (loads_erase _ _ (Hbuiltins _ _ _ El)).
Qed.

Lemma step_loads_erase i : step_loads (erase_interp i) = step_loads i.
Proof.
  unfold step_loads. change (reg (erase_interp i)) with (reg i).
  destruct (get_config ex) as [config|]; [|done]. destruct (reg i !! 11%nat); [|done].
  change (previous_instruction_meter (vm (erase_interp i))) with (previous_instruction_meter (vm i)).
  change (due_insn_count (vm (erase_interp i))) with (due_insn_count (vm i)).
  destruct (_ || _); [done|]. destruct (get_insn_unchecked _ _); [|done]. cbv zeta.
  destruct (enable_register_tracing config); (etransitivity; [|apply insn_loads_erase]); done.
Qed.

Lemma run_loads_erase fuel i : run_loads fuel (erase_interp i) = run_loads fuel i.
Proof.
  revert i; induction fuel as [|fuel IH]; intros i; [done|]. cbn [run_loads].
  rewrite (step_erase ex Htransparent), step_loads_erase.
  destruct (step ex i) as [[[] i1]|]; [|done..]. cbn [option_map erase_pair fst snd]. by rewrite IH.
Qed.

(** *** The tracker follows the loads *)

Definition tracker_of (i : Interpreter C) : option MemoryAccessTracker :=
  get_access_tracker (memory_mapping (vm i)).
Definition track (loads : list (Z * Z)) : option MemoryAccessTracker -> option MemoryAccessTracker :=
  option_map (fold_left (fun t l => check_access t l.1 l.2) loads).

Lemma track_nil t : track [] t = t.
Proof. by destruct t. Qed.

Lemma track_app l1 l2 t : track (l1 ++ l2) t = track l2 (track l1 t).
Proof. destruct t; [|done]. cbn. by rewrite fold_left_app. Qed.

(** An arm ends in a state whose tracker has seen the given loads. *)
Definition flow_tracked (i : Interpreter C) (loads : list (Z * Z)) (r : option (Flow C)) : Prop :=
  match r with
  | Some (Next i' _) | Some (Stop i') => tracker_of i' = track loads (tracker_of i)
  | None => True
  end.

Lemma set_reg_tracker k x i i' : set_reg k x i = Some i' -> tracker_of i' = tracker_of i.
Proof. intros E. apply set_reg_vm in E. unfold tracker_of. by rewrite E. Qed.

Lemma throw_tracked i i0 loads err :
  tracker_of i = track loads (tracker_of i0) -> flow_tracked i0 loads (throw_error i err).
Proof. intros E. unfold throw_error. destruct (_ !! _); [|done]. by destruct (_ <=? _). Qed.

Lemma check_pc_tracked program i i0 loads t :
  tracker_of i = track loads (tracker_of i0) -> flow_tracked i0 loads (check_pc program i t).
Proof. intros E. unfold check_pc. destruct (is_pc_in_program program t); [done|by apply throw_tracked]. Qed.

Lemma perform_tracked insn next_pc i a :
  flow_tracked i (match a with LoadDst size addr => [(addr, Z.of_nat size)] | _ => [] end)
    (perform insn next_pc i a).
Proof.
  pose proof (track_nil (tracker_of i)) as Hnil. destruct a; cbn [perform].
  - destruct (set_reg _ _ i) as [i'|] eqn:E; [|done]. apply set_reg_tracker in E. cbn. by rewrite Hnil.
  - destruct (set_reg _ _ i) as [i1|] eqn:E1; [|done]. destruct (reg i1 !! 11%nat); [|done].
    destruct (set_reg 11 _ i1) as [i2|] eqn:E2; [|done]. apply set_reg_tracker in E1, E2. cbn.
    by rewrite Hnil, E2.
  - destruct (mapping_load _ _ _ _) as [[[m host] [x|err]]|] eqn:El; [..|done];
      apply mapping_load_tracker in El; [|by apply throw_tracked].
    destruct (set_reg _ _ _) as [i'|] eqn:E; [|done]. apply set_reg_tracker in E. cbn. by rewrite E.
  - destruct (mapping_store _ _ _ _ _) as [[[m host] [x|err]]|] eqn:El; [..|done];
      apply mapping_store_tracker in El; [cbn; rewrite Hnil; done|].
    apply throw_tracked. by rewrite Hnil.
  - cbn. by rewrite Hnil.
  - apply throw_tracked. by rewrite Hnil.
Qed.

Lemma push_frame_tracker config i b i' :
  push_frame ex config i = Some (b, i') -> tracker_of i' = tracker_of i.
Proof.
  unfold push_frame. destruct (call_frames _ !! _); [|done]. destruct (reg i !! _); [|done].
  destruct (reg i !! 11%nat); [|done]. set (i1 := set_vm _ i). destruct (_ =? _).
  { pose proof (throw_tracked i1 i [] CallDepthExceeded) as Ht. rewrite track_nil in Ht.
    specialize (Ht eq_refl). destruct (throw_error i1 _) as [[]|]; [..|done]; cbn in Ht;
      rewrite track_nil in Ht; by intros [= <- <-]. }
  destruct (negb _); [|by intros [= <- <-]].
  destruct (set_reg _ _ i1) as [i2|] eqn:E; [|done]. intros [= <- <-]. by apply set_reg_tracker in E.
Qed.

Lemma call_reg_arm_tracked config insn i : flow_tracked i [] (call_reg_arm ex config insn i).
Proof.
  unfold call_reg_arm. destruct (if callx_uses_src_reg (sbpf_version ex) then _ else _); [|done].
  destruct (push_frame ex config i) as [[b i1]|] eqn:E; [|done]. apply push_frame_tracker in E.
  rewrite <- (track_nil (tracker_of i)) in E. destruct b; cbn [negb]; [by apply check_pc_tracked|done].
Qed.

Lemma exit_arm_tracked config i : flow_tracked i [] (exit_arm ex config i).
Proof.
  unfold exit_arm. pose proof (track_nil (tracker_of i)) as Hnil. destruct (_ =? 0).
  { destruct (_ && _); [by apply throw_tracked|]. destruct (reg i !! 0%nat); [|done]. cbn. by rewrite Hnil. }
  destruct (call_frames _ !! _) as [frame|]; [|done]. destruct (set_reg _ _ _) as [i2|] eqn:E; [|done].
  apply set_reg_tracker in E. apply check_pc_tracked. rewrite Hnil.
  change (tracker_of (mkInterpreter (vm i2) _)) with (tracker_of i2). by rewrite E.
Qed.

Lemma call_imm_internal_tracked config insn next_pc resolved i i0 loads :
  tracker_of i = track loads (tracker_of i0) ->
  flow_tracked i0 loads (call_imm_internal ex config insn next_pc resolved i).
Proof.
  intros Ei. unfold call_imm_internal.
  assert (flow_tracked i0 loads (if resolved then Some (Next i next_pc)
    else throw_error i UnsupportedInstruction)) as Hun by (destruct resolved; [done|by apply throw_tracked]).
  destruct (static_syscalls _).
  - destruct (_ && _); [|done]. destruct (push_frame ex config i) as [[b i1]|] eqn:E; [|done].
    apply push_frame_tracker in E. destruct b; cbn; congruence.
  - destruct (lookup_by_key _ _) as [[name t]|]; [|done].
    destruct (push_frame ex config i) as [[b i1]|] eqn:E; [|done].
    apply push_frame_tracker in E. destruct b; cbn [negb]; [apply check_pc_tracked|cbn]; congruence.
Qed.

Lemma call_imm_arm_tracked config insn next_pc i :
  opc insn = CALL_IMM -> step_arms ex (reg i) insn = NoArm ->
  flow_tracked i (insn_loads insn i) (call_imm_arm ex config insn next_pc i).
Proof.
  intros Ho Hn. unfold insn_loads. rewrite Hn, Ho, Z.eqb_refl. cbn [andb].
  pose proof (track_nil (tracker_of i)) as Hnil. unfold call_imm_arm, call_imm_external.
  destruct (_ || _); [|by apply call_imm_internal_tracked].
  destruct (lookup_by_key _ _) as [[name f]|] eqn:El; [|by apply call_imm_internal_tracked].
  apply Hbuiltins in El.
  assert (tracker_of (dispatch_syscall i f) = track (builtin_loads f (at_syscall i)) (tracker_of i)) as E
    by apply (loads_tracked _ _ El (at_syscall i)).
  destruct (program_result _) as [x|]; [|done].
  destruct (set_reg 0 x _) as [i1|] eqn:E1; [|done]. apply set_reg_tracker in E1.
  apply call_imm_internal_tracked. congruence.
Qed.

Lemma step_insn_tracked config insn next_pc i :
  flow_tracked i (insn_loads insn i) (step_insn ex config insn next_pc i).
Proof.
  unfold step_insn. destruct (step_arms ex (reg i) insn) as [|[a|]] eqn:Ea.
  - destruct (Z.eqb_spec (opc insn) CALL_REG) as [Eo|N1].
    { unfold insn_loads. rewrite Ea, Eo. apply call_reg_arm_tracked. }
    destruct (Z.eqb_spec (opc insn) CALL_IMM) as [Eo|N2]; [by apply call_imm_arm_tracked|].
    assert (insn_loads insn i = []) as ->.
    { unfold insn_loads. by rewrite Ea, (proj2 (Z.eqb_neq _ _) N2). }
    destruct (_ =? _); [apply exit_arm_tracked|]. apply throw_tracked. by rewrite track_nil.
  - pose proof (perform_tracked insn next_pc i a) as Hp. unfold insn_loads. rewrite Ea. by destruct a.
  - done.
Qed.

Lemma step_tracked i b i' :
  step ex i = Some (b, i') -> tracker_of i' = track (step_loads i) (tracker_of i).
Proof.
  unfold step, step_loads. destruct (get_config ex) as [config|]; [|done].
  assert (forall r loads, flow_tracked i loads r -> (let! r := r in match r with
      | Stop i => Some (false, i)
      | Next i next_pc => let! i := set_reg 11 next_pc i in Some (true, i) end) = Some (b, i') ->
      tracker_of i' = track loads (tracker_of i)) as Hfin.
  { intros [[i1 npc|i1]|] loads Hr; [|by intros [= <- <-]|done].
    destruct (set_reg 11 npc i1) as [i2|] eqn:E; [|done]. intros [= <- <-].
    apply set_reg_tracker in E. cbn in Hr. congruence. }
  pose proof (track_nil (tracker_of i)) as Hnil.
  destruct (reg i !! 11%nat) as [pc|] eqn:Epc.
  2: { destruct (_ && _); [|cbn; by rewrite Epc]. unfold throw_error. by rewrite Epc. }
  destruct (_ && _); cbn [orb]; [by apply Hfin, throw_tracked|].
  set (i1 := set_vm _ i). change (reg i1) with (reg i). rewrite Epc.
  destruct (_ <=? _); [by apply Hfin, throw_tracked|].
  destruct (get_insn_unchecked _ _) as [insn|]; [|done]. set (i2 := if enable_register_tracing config then _ else i1).
  assert (tracker_of i2 = tracker_of i) as E2 by (unfold i2; by destruct (enable_register_tracing config)).
  apply Hfin. pose proof (step_insn_tracked config insn (wrapping_add pc 1) i2) as Hs.
  unfold flow_tracked in *. rewrite E2 in Hs. exact Hs.
Qed.

Lemma run_tracked fuel i i' :
  run_interpreter fuel ex i = Some (Some i') -> tracker_of i' = track (run_loads fuel i) (tracker_of i).
Proof.
  revert i; induction fuel as [|fuel IH]; intros i; [done|]. cbn.
  destruct (step ex i) as [[[] i1]|] eqn:E; [| |done].
  - intros Hr. apply IH in Hr. apply step_tracked in E. by rewrite track_app, <- E.
  - intros [= <-]. by apply step_tracked in E.
Qed.

End loads.

(** Loads of the machine have a [u64] address and between one and eight bytes. *)
Definition arm_load_ok (a : Arm) : Prop :=
  forall size addr, a = ArmDo (Some (LoadDst size addr)) -> load_ok (addr, Z.of_nat size).

Lemma load_arm_load_ok reg insn n : (0 < n <= 8)%nat -> arm_load_ok (ArmDo (load_arm reg insn n)).
Proof.
  intros Hn size addr. unfold load_arm. destruct (reg_src reg insn); [|done]. intros [= <- <-].
  split; [apply u_cast_any; lia|]. unfold is_u. cbn. lia.
Qed.

(** Walk a class of arms; an arm that is not a load denotes another action. *)
Ltac walk_loads :=
  repeat match goal with
    | |- arm_load_ok (if ?c then _ else _) => destruct c
    | |- arm_load_ok NoArm => intros ? ? [=]
    | |- arm_load_ok (ArmDo (load_arm _ _ _)) => apply load_arm_load_ok; lia
    end;
  intros size addr; unfold alu, alu_reg, alu_div, nonzero_src, no_overflow, store_imm_arm,
    store_reg_arm, jmp_imm, jmp_reg; intros E; repeat case_match; simplify_eq.

Lemma step_arms_load_ok {C} (ex : Executable C) reg insn : arm_load_ok (step_arms ex reg insn).
Proof.
  assert (forall a b, arm_load_ok a -> arm_load_ok b ->
    arm_load_ok (match a with ArmDo a => ArmDo a | NoArm => b end)) as Hor by by intros [].
  unfold step_arms. apply Hor; [unfold arms_ldst; walk_loads|].
  apply Hor; [unfold arms_alu32; walk_loads|]. apply Hor; [unfold arms_alu64; walk_loads|].
  apply Hor; [unfold arms_pqr; walk_loads|]. apply Hor; [unfold arms_jmp32; walk_loads|].
  unfold arms_jmp64; walk_loads.
Qed.

Section properties.
Context {C : Type} `{ContextObject C}.

Lemma insn_loads_ok (ex : Executable C) builtin_loads insn i :
  (forall key name f, lookup_by_key (sparse_registry (loader ex)) key = Some (name, f) ->
     BuiltinLoads f (builtin_loads f)) ->
  Forall load_ok (insn_loads ex builtin_loads insn i).
Proof.
  intros Hb. unfold insn_loads. pose proof (step_arms_load_ok ex (reg i) insn) as Hs.
  destruct (step_arms ex (reg i) insn) as [|[[]|]]; try constructor; [| |constructor].
  - destruct (_ && _); [|constructor]. destruct (lookup_by_key _ _) as [[name f]|] eqn:El; [|constructor].
    apply (loads_load_ok _ _ (Hb _ _ _ El)).
  - by apply Hs.
Qed.

Lemma run_loads_ok (ex : Executable C) builtin_loads fuel i :
  (forall key name f, lookup_by_key (sparse_registry (loader ex)) key = Some (name, f) ->
     BuiltinLoads f (builtin_loads f)) ->
  Forall load_ok (run_loads ex builtin_loads fuel i).
Proof.
  intros Hb. assert (forall i, Forall load_ok (step_loads ex builtin_loads i)) as Hs.
  { intros i0. unfold step_loads. destruct (get_config ex); [|constructor].
    destruct (_ !! _); [|constructor]. destruct (_ || _); [constructor|].
    destruct (get_insn_unchecked _ _); [|constructor]. by apply insn_loads_ok. }
  revert i; induction fuel as [|fuel IH]; intros i; cbn; [constructor|].
  destruct (step ex i) as [[[] i1]|]; [|done|constructor]. apply Forall_app. auto.
Qed.

Lemma execute_erased (ex : Executable C) (machine : EbpfVm C) (ranges : list Range) (fuel : nat) :
  (forall key name f, lookup_by_key (sparse_registry (loader ex)) key = Some (name, f) ->
     BuiltinTransparent f) ->
  option_map (option_map erase_outcome)
    (execute_program fuel ex (add_watched_memory_ranges machine ranges)) =
  option_map (option_map erase_outcome) (execute_program fuel ex machine).
Proof.
  intros Hb. rewrite <- !(execute_program_erase ex Hb). f_equal. unfold add_watched_memory_ranges,
    on_access_tracker, erase_vm. cbn. by rewrite erase_with.
Qed.

(** C2. Watching does not disturb: an execution with watched ranges has the
    same instruction count and result, and leaves the same machine up to the
    tracker, as the execution without, when the builtins do not look at the
    tracker. *)
Theorem tracking_transparent (ex : Executable C) (machine : EbpfVm C) (ranges : list Range)
    (fuel : nat) :
  (forall key name f, lookup_by_key (sparse_registry (loader ex)) key = Some (name, f) ->
     BuiltinTransparent f) ->
  option_map (option_map erase_outcome)
    (execute_program fuel ex (add_watched_memory_ranges machine ranges)) =
  option_map (option_map erase_outcome) (execute_program fuel ex machine).
Proof. apply execute_erased. Qed.

(** A watched execution goes as the one without. *)
Lemma execute_same (ex : Executable C) (machine : EbpfVm C) (ranges : list Range) fuel count result machine' :
  (forall key name f, lookup_by_key (sparse_registry (loader ex)) key = Some (name, f) ->
     BuiltinTransparent f) ->
  execute_program fuel ex (add_watched_memory_ranges machine ranges) = Some (Some (count, result, machine')) ->
  exists machine'', execute_program fuel ex machine = Some (Some (count, result, machine'')) /\
    context_object_pointer machine' = context_object_pointer machine''.
Proof.
  intros Hb E. apply (execute_erased ex machine ranges fuel) in Hb. rewrite E in Hb.
  destruct (execute_program fuel ex machine) as [[[[c r] m]|]|]; [|done..].
  unfold erase_outcome in Hb. cbn [option_map] in Hb. injection Hb as <- <- _ Hm. exists m. done.
Qed.

(** The tracker at the end of an execution has checked the loads of the execution without it. *)
Lemma execute_tracker (ex : Executable C) builtin_loads (machine machine' : EbpfVm C) (t : MemoryAccessTracker)
    (fuel : nat) (count : Z) (result : ProgramResult) (original : EbpfVm C) :
  (forall key name f, lookup_by_key (sparse_registry (loader ex)) key = Some (name, f) ->
     BuiltinLoads f (builtin_loads f)) ->
  erase_vm machine = erase_vm original -> get_access_tracker (memory_mapping machine) = Some t ->
  execute_program fuel ex machine = Some (Some (count, result, machine')) ->
  get_access_tracker (memory_mapping machine') =
    Some (fold_left (fun t l => check_access t l.1 l.2) (execution_loads ex builtin_loads fuel original) t).
Proof.
  intros Hb Heq Ht. unfold execute_program. destruct (get_config ex) as [config|]; [|done]. cbv zeta.
  destruct (run_interpreter fuel ex (enter_program ex machine)) as [[i|]|] eqn:Er; [|done..].
  intros [= _ _ <-]. apply (run_tracked ex builtin_loads Hb) in Er.
  assert (run_loads ex builtin_loads fuel (enter_program ex machine) =
    execution_loads ex builtin_loads fuel original) as El.
  { unfold execution_loads. rewrite <- (run_loads_erase ex builtin_loads Hb fuel (enter_program ex machine)).
    rewrite <- (run_loads_erase ex builtin_loads Hb fuel (enter_program ex original)). f_equal.
    change (erase_interp (enter_program ex ?m)) with (enter_program ex (erase_vm m)). by rewrite Heq. }
  rewrite El in Er. assert (tracker_of (enter_program ex machine) = Some t) as Ew by exact Ht.
  rewrite Ew in Er. cbn [track option_map] in Er. unfold tracker_of in Er. by destruct (enable_instruction_meter config).
Qed.

(** The recorded accesses of a watched execution. *)
Lemma execute_watched (ex : Executable C) builtin_loads (machine machine' : EbpfVm C) (ranges : list Range)
    (fuel : nat) (count : Z) (result : ProgramResult) :
  (forall key name f, lookup_by_key (sparse_registry (loader ex)) key = Some (name, f) ->
     BuiltinLoads f (builtin_loads f)) ->
  Forall u64_range ranges ->
  get_access_tracker (memory_mapping machine) = Some tracker_new ->
  execute_program fuel ex (add_watched_memory_ranges machine ranges)
    = Some (Some (count, result, machine')) ->
  exists t, get_access_tracker (memory_mapping machine') = Some t /\
    forbidden_accesses t =
      filter (fun l => touches ranges l.1 l.2) (execution_loads ex builtin_loads fuel machine).
Proof.
  intros Hb Hr Ht E.
  eapply (execute_tracker ex builtin_loads _ _ (add_watched_ranges tracker_new ranges) fuel _ _ machine) in E; [|done| |].
  - eexists. split; [exact E|].
    rewrite tracked_loads; [|by apply run_loads_ok|by apply tracker_ok_add; auto with gobble].
    cbn [add_watched_ranges tracker_new forbidden_accesses app]. rewrite watched_ranges_add.
    apply list_filter_iff. intros l. apply touches_nonempty.
  - unfold erase_vm. cbn. by rewrite erase_with.
  - etransitivity; [apply (get_tracker_with (fun t => add_watched_ranges t ranges))|]. by rewrite Ht.
Qed.

(** C1. Exact detection. Let a machine with a fresh tracker watch some ranges
    and execute a program to its end. The recorded accesses are exactly those
    loads of the unwatched execution that touch a watched range, in order; in
    particular an access is reported if and only if there is one. *)
Theorem detection_exact (ex : Executable C)
    (builtin_loads : BuiltinFunction C -> EbpfVm C -> list (Z * Z))
    (machine machine' : EbpfVm C) (ranges : list Range) (fuel : nat) (count : Z)
    (result : ProgramResult) :
  (forall key name f, lookup_by_key (sparse_registry (loader ex)) key = Some (name, f) ->
     BuiltinLoads f (builtin_loads f)) ->
  Forall u64_range ranges ->
  get_access_tracker (memory_mapping machine) = Some tracker_new ->
  execute_program fuel ex (add_watched_memory_ranges machine ranges)
    = Some (Some (count, result, machine')) ->
  let loads := execution_loads ex builtin_loads fuel machine in
  get_forbidden_memory_accesses machine' = filter (fun l => touches ranges l.1 l.2) loads /\
  (has_forbidden_memory_accesses machine' = true <-> Exists (fun l => touches ranges l.1 l.2) loads).
Proof.
  intros Hb Hr Ht E. apply (execute_watched ex builtin_loads) in E as (t & E & Ef); [|done..].
  set (loads := execution_loads ex builtin_loads fuel machine) in *. cbv zeta.
  unfold get_forbidden_memory_accesses, has_forbidden_memory_accesses, get_forbidden_accesses, has_forbidden_accesses.
  rewrite E, Ef. split; [done|]. rewrite Exists_exists. split.
  - destruct (filter _ loads) as [|l rest] eqn:E'; [done|]. intros _.
    assert (l ∈ filter (fun l => touches ranges l.1 l.2) loads) as Hin by (rewrite E'; left).
    apply list_elem_of_filter in Hin as [H1 H2]. by exists l.
  - intros (l & Hin & Htl). destruct (filter _ loads) as [|l' rest] eqn:E'; [|done].
    assert (l ∈ filter (fun l => touches ranges l.1 l.2) loads) as Hin' by by apply list_elem_of_filter.
    rewrite E' in Hin'. by apply not_elem_of_nil in Hin'.
Qed.

End properties.

(** ** Example *)

Lemma example_rust_loads :
  BuiltinLoads (builtin_vm example_config example_rust) (fun _ => []).
Proof.
  split; [done|done|constructor|]. intros m. cbn. by destruct (get_access_tracker (memory_mapping m)).
Qed.

Definition example_watched : list Range :=
  [mkRange (MM_INPUT_START + 6) (MM_INPUT_START + 8); mkRange MM_HEAP_START (MM_HEAP_START + 8)].

Lemma tracking_transparent_witness :
  option_map (option_map (fun r => r.1))
    (execute_program 101 example_executable (add_watched_memory_ranges example_machine example_watched))
  = Some (Some (15, Ok 0x07060505)).
Proof.
  pose proof (tracking_transparent example_executable example_machine example_watched 101
    ltac:(intros key name f Hf; apply example_registry in Hf as ->;
          exact (loads_transparent _ _ example_rust_loads))) as E.
  apply (f_equal (option_map (option_map (fun r => r.1)))) in E.
  etransitivity; [|etransitivity; [exact E|by vm_compute]].
  destruct (execute_program _ _ (add_watched_memory_ranges _ _)) as [[[[]]|]|]; reflexivity.
Defined.

Lemma detection_exact_witness :
  exists machine',
    execute_program 101 example_executable
      (add_watched_memory_ranges example_machine example_watched)
      = Some (Some (15, Ok 0x07060505, machine')) /\
    get_forbidden_memory_accesses machine' = [(MM_INPUT_START + 4, 4)].
Proof.
  destruct (execute_program 101 example_executable
    (add_watched_memory_ranges example_machine example_watched)) as [[[[c r] m']|]|] eqn:E.
  - assert ((c, r) = (15, Ok 0x07060505)) as [= -> ->].
    { apply (f_equal (option_map (option_map fst))) in E. cbn [option_map fst] in E.
      apply (inj Some), (inj Some). rewrite <- E. by vm_compute. }
    exists m'. split; [reflexivity|].
    rewrite (proj1 (detection_exact example_executable (fun _ _ => []) example_machine m'
      example_watched 101 15 (Ok 0x07060505)
      ltac:(intros key name f Hf; apply example_registry in Hf as ->; exact example_rust_loads)
      ltac:(repeat constructor; vm_compute; discriminate) ltac:(by vm_compute) E)). by vm_compute.
  - exfalso. apply (f_equal (option_map (option_map (fun r => r.1)))) in E. by vm_compute in E.
  - exfalso. apply (f_equal (option_map (option_map (fun r => r.1)))) in E. by vm_compute in E.
Defined.
