(* ===== verification/GobbleLib.v ===== *)
(** The detector library (gobble-lib/src/lib.rs): the configuration of a
    detection and the computation of where the forbidden instruction bytes lie
    in the instructions sysvar.

    [usize] arithmetic wraps, as in a release build. The serialisation of the
    sysvar is the code of another crate; it is a parameter here, with the format
    that the documentation of the library states as its law. *)

From Stdlib Require Import ZArith Lia Bool.
From S2P Require Import Prelude.
From S2P Require Import Ebpf.

#[local] Open Scope Z_scope.

Record DetectionConfig := mkDetectionConfig {
  instruction_index : Z;
  forbidden_ranges : list Range
}.

Definition DetectionConfig_default : DetectionConfig := mkDetectionConfig 0 [mkRange 8 16].
Definition DetectionConfig_new (index forbidden_start forbidden_end : Z) : DetectionConfig :=
  mkDetectionConfig index [mkRange forbidden_start forbidden_end].
Definition with_ranges (index : Z) (ranges : list Range) : DetectionConfig :=
  mkDetectionConfig index ranges.

Record GobbleDetector := mkDetector { detector_config : DetectionConfig }.

Record InstructionInfo := mkInstructionInfo { num_accounts : Z; data_len : Z }.

(** The two ways the computation fails. *)
Inductive DetectorError :=
| InvalidInstructionIndex (index len : Z)
| RangeExceedsData (range : Range) (len : Z).

(** The offset of the data within one serialised instruction. *)
Definition add_header (offset : Z) (instr : InstructionInfo) : Z :=
  let offset := wrapping_add offset 2 in
  let offset := wrapping_add offset (wrapping_mul (num_accounts instr) 33) in
  let offset := wrapping_add offset 32 in
  wrapping_add offset 2.

(** The loop over the instructions before the target; it stops when it has
    reached the target index. *)
Fixpoint skip_instructions (idx target : Z) (instructions : list InstructionInfo) (offset : Z) : Z :=
  match instructions with
  | [] => offset
  | instr :: rest =>
      if idx =? target then offset
      else skip_instructions (idx + 1) target rest
             (wrapping_add (add_header offset instr) (data_len instr))
  end.

(** The loop over the forbidden ranges. *)
Fixpoint sysvar_offsets (target : InstructionInfo) (offset : Z) (ranges : list Range)
    : Result (list Range) DetectorError :=
  match ranges with
  | [] => Ok []
  | r :: rest =>
      if data_len target <? r_end r then Err (RangeExceedsData r (data_len target))
      else
        let? rest := sysvar_offsets target offset rest in
        Ok (mkRange (wrapping_add offset (r_start r)) (wrapping_add offset (r_end r)) :: rest)
  end.

Definition calculate_forbidden_sysvar_offsets (d : GobbleDetector)
    (instructions : list InstructionInfo) : Result (list Range) DetectorError :=
  let config := detector_config d in
  if len instructions <=? instruction_index config
  then Err (InvalidInstructionIndex (instruction_index config) (len instructions))
  else
    match instructions !! Z.to_nat (instruction_index config) with
    | None => Err (InvalidInstructionIndex (instruction_index config) (len instructions))
    | Some target_instruction =>
        let offset := 2 in
        let offset := wrapping_add offset (wrapping_mul 2 (len instructions)) in
        let offset := skip_instructions 0 (instruction_index config) instructions offset in
        let offset := add_header offset target_instruction in
        sysvar_offsets target_instruction offset (forbidden_ranges config)
    end.

Definition calculate_forbidden_vm_ranges (d : GobbleDetector)
    (instructions : list InstructionInfo) : Result (list Range) DetectorError :=
  let? offsets := calculate_forbidden_sysvar_offsets d instructions in
  Ok (map (fun r => mkRange (wrapping_add MM_INPUT_START (r_start r))
                            (wrapping_add MM_INPUT_START (r_end r))) offsets).

(** ** The instructions sysvar *)

(** An instruction as it is serialised: 33 bytes per account (flags and key),
    the 32 bytes of the program id, and the data. *)
Record SysvarInstruction := mkSysvarInstruction {
  si_accounts : list (list Z);
  si_program_id : list Z;
  si_data : list Z
}.

Record sysvar_instruction_ok (i : SysvarInstruction) : Prop := {
  si_account_bytes : Forall (fun a => length a = 33%nat) (si_accounts i);
  si_program_id_bytes : length (si_program_id i) = 32%nat
}.

Definition info_of (i : SysvarInstruction) : InstructionInfo :=
  mkInstructionInfo (len (si_accounts i)) (len (si_data i)).

(** The documented format of one instruction: account count, accounts, program
    id, data length, data. *)
Definition instruction_layout (i : SysvarInstruction) : list Z :=
  le_split 2 (len (si_accounts i)) ++ concat (si_accounts i) ++ si_program_id i
  ++ le_split 2 (len (si_data i)) ++ si_data i.

(** The law of the serialiser, as the library documents it: the number of
    instructions, a table of one [u16] offset per instruction, the serialised
    instructions one after the other, and possibly more. *)
Definition SysvarFormat (construct : list SysvarInstruction -> list Z) : Prop :=
  forall instrs, exists table rest, length table = (2 * length instrs)%nat /\
    construct instrs =
      le_split 2 (len instrs) ++ table ++ concat (map instruction_layout instrs) ++ rest.

(** The size of the serialised instructions. *)
Definition layout_size (instrs : list SysvarInstruction) : Z :=
  2 + 2 * len instrs + len (concat (map instruction_layout instrs)).

Lemma len_concat_accounts (l : list (list Z)) :
  Forall (fun a => length a = 33%nat) l -> len (concat l) = 33 * len l.
Proof.
  unfold len. induction 1 as [|a l Ha _ IH]; [done|]. cbn [concat length].
  rewrite length_app, Ha, !Nat2Z.inj_add, IH. lia.
Qed.

Lemma layout_prefix i :
  sysvar_instruction_ok i ->
  exists pre, instruction_layout i = pre ++ si_data i /\ len pre = 36 + 33 * len (si_accounts i).
Proof.
  intros [Ha Hp]. exists (le_split 2 (len (si_accounts i)) ++ concat (si_accounts i) ++ si_program_id i
    ++ le_split 2 (len (si_data i))). split; [unfold instruction_layout; by rewrite <- !app_assoc|].
  rewrite !len_app, len_concat_accounts by done. unfold len. rewrite !le_split_length, Hp. lia.
Qed.

Lemma layout_len i :
  sysvar_instruction_ok i ->
  len (instruction_layout i) = 36 + 33 * len (si_accounts i) + len (si_data i).
Proof. intros Hi. destruct (layout_prefix i Hi) as (pre & -> & E). rewrite len_app. lia. Qed.

Lemma add_header_spec offset i :
  0 <= offset -> offset + 36 + 33 * len (si_accounts i) < 2 ^ 63 ->
  add_header offset (info_of i) = offset + 36 + 33 * len (si_accounts i).
Proof.
  intros Ho Hb. unfold add_header. cbn [info_of num_accounts]. pose proof (len_nonneg (si_accounts i)).
  int_lia.
Qed.

Lemma concat_layout_cons i instrs :
  len (concat (map instruction_layout (i :: instrs))) =
  len (instruction_layout i) + len (concat (map instruction_layout instrs)).
Proof. cbn [map concat]. apply len_app. Qed.

(** Skipping the instructions before the target lands at its serialisation. *)
Lemma skip_instructions_spec k idx instrs offset :
  Forall sysvar_instruction_ok instrs -> (k <= length instrs)%nat -> 0 <= offset ->
  offset + len (concat (map instruction_layout (take k instrs))) < 2 ^ 63 ->
  skip_instructions idx (idx + Z.of_nat k) (map info_of instrs) offset =
  offset + len (concat (map instruction_layout (take k instrs))).
Proof.
  revert k idx offset; induction instrs as [|i instrs IH]; intros k idx offset Hok Hk Ho Hb.
  { rewrite take_nil in *. cbn. unfold len. cbn. lia. }
  apply Forall_cons in Hok as [Hi Hok]. 
  change (map info_of (i :: instrs)) with (info_of i :: map info_of instrs).
  destruct k as [|k]; cbn [skip_instructions take].
  { rewrite (proj2 (Z.eqb_eq _ _)) by lia. unfold len. cbn. lia. }
  rewrite (proj2 (Z.eqb_neq _ _)) by lia. cbn [take] in Hb. rewrite concat_layout_cons in *.
  pose proof (layout_len i Hi) as El. pose proof (len_nonneg (si_accounts i)).
  pose proof (len_nonneg (si_data i)).
  pose proof (len_nonneg (concat (map instruction_layout (take k instrs)))).
  assert (wrapping_add (add_header offset (info_of i)) (data_len (info_of i)) =
    offset + len (instruction_layout i)) as ->.
  { rewrite add_header_spec by lia. cbn [info_of data_len]. int_lia. }
  replace (idx + Z.of_nat (S k)) with (idx + 1 + Z.of_nat k) by lia.
  rewrite IH; [lia|done|cbn in Hk; lia|lia|lia].
Qed.

Lemma sysvar_offsets_spec target offset ranges offs :
  0 <= offset -> Forall (fun r => 0 <= r_start r <= r_end r) ranges ->
  offset + data_len target < 2 ^ 63 -> sysvar_offsets target offset ranges = Ok offs ->
  offs = map (fun r => mkRange (offset + r_start r) (offset + r_end r)) ranges /\
  Forall (fun r => r_end r <= data_len target) ranges.
Proof.
  intros Ho Hr Hb. revert offs.
  induction Hr as [|r ranges Hr1 _ IH]; intros offs E; cbn [sysvar_offsets] in E; [by simplify_eq|].
  destruct (Z.ltb_spec (data_len target) (r_end r)); [done|].
  destruct (sysvar_offsets target offset ranges) as [offs'|]; [|done]. injection E as <-.
  destruct (IH offs' eq_refl) as [-> Hf]. split; [|by constructor]. cbn [map]. f_equal.
  assert (wrapping_add offset (r_start r) = offset + r_start r) as -> by int_lia.
  assert (wrapping_add offset (r_end r) = offset + r_end r) as -> by int_lia. done.
Qed.

(** Where the data of the target lies in the serialised sysvar. *)
Lemma layout_target k instrs target :
  Forall sysvar_instruction_ok instrs -> instrs !! k = Some target ->
  exists pre post, concat (map instruction_layout instrs) = pre ++ si_data target ++ post /\
    len pre = len (concat (map instruction_layout (take k instrs))) + 36 + 33 * len (si_accounts target).
Proof.
  intros Hok Hk. pose proof (Forall_lookup_1 _ _ _ _ Hok Hk) as Ht.
  destruct (layout_prefix target Ht) as (pre & E & El).
  exists (concat (map instruction_layout (take k instrs)) ++ pre),
         (concat (map instruction_layout (drop (S k) instrs))). split.
  - rewrite <- (take_drop_middle instrs k target Hk) at 1. rewrite map_app, concat_app.
    cbn [map concat]. rewrite E. by rewrite <- !app_assoc.
  - rewrite len_app, El. lia.
Qed.

(** Bytes in the format of the sysvar. *)
Definition sysvar_bytes (instrs : list SysvarInstruction) (bytes : list Z) : Prop :=
  exists table rest, length table = (2 * length instrs)%nat /\
    bytes = le_split 2 (len instrs) ++ table ++ concat (map instruction_layout instrs) ++ rest.

Lemma offsets_located (bytes : list Z) (d : GobbleDetector) (instrs : list SysvarInstruction) (offs : list Range) :
  sysvar_bytes instrs bytes -> Forall sysvar_instruction_ok instrs -> layout_size instrs < 2 ^ 63 ->
  0 <= instruction_index (detector_config d) ->
  Forall (fun r => 0 <= r_start r <= r_end r) (forbidden_ranges (detector_config d)) ->
  calculate_forbidden_sysvar_offsets d (map info_of instrs) = Ok offs ->
  exists target, instrs !! Z.to_nat (instruction_index (detector_config d)) = Some target /\
    Forall2 (fun off r =>
        slice bytes (r_start off) (r_end off) = slice (si_data target) (r_start r) (r_end r)
        /\ r_end off - r_start off = r_end r - r_start r)
      offs (forbidden_ranges (detector_config d)).
Proof.
  intros (table & rest & Etab & Econs) Hok Hsize Hidx Hranges. unfold calculate_forbidden_sysvar_offsets.
  set (k := Z.to_nat (instruction_index (detector_config d))).
  destruct (_ <=? _); [done|]. rewrite (list_lookup_fmap info_of).
  destruct (instrs !! k) as [target|] eqn:Ek; [|done]. cbn [fmap option_fmap option_map].
  intros Hoffs. exists target. split; [done|].
  destruct (layout_target k instrs target Hok Ek) as (pre & post & Ec & Epre).
  pose proof (len_nonneg instrs). pose proof (len_nonneg (si_data target)).
  pose proof (len_nonneg (si_accounts target)). pose proof (len_nonneg post).
  pose proof (len_nonneg (concat (map instruction_layout (take k instrs)))).
  unfold layout_size in Hsize. rewrite Ec, !len_app in Hsize.
  assert (len (map info_of instrs) = len instrs) as El by (unfold len; by rewrite length_map).
  rewrite El in Hoffs.
  assert (wrapping_add 2 (wrapping_mul 2 (len instrs)) = 2 + 2 * len instrs) as E2 by int_lia.
  rewrite E2 in Hoffs.
  replace (instruction_index (detector_config d)) with (0 + Z.of_nat k) in Hoffs at 1 by lia.
  rewrite skip_instructions_spec in Hoffs;
    [|done|apply lookup_lt_Some in Ek; lia|lia|lia].
  rewrite add_header_spec in Hoffs by lia.
  set (base := 2 + 2 * len instrs + _ + 36 + _) in Hoffs.
  apply sysvar_offsets_spec in Hoffs as [-> Hends]; cbn [info_of data_len] in *;
    [|unfold base; lia|done|unfold base; lia].
  assert (bytes = (le_split 2 (len instrs) ++ table ++ pre) ++ si_data target ++ post ++ rest) as ->.
  { rewrite Econs, Ec. by rewrite <- !app_assoc. }
  set (front := le_split 2 (len instrs) ++ table ++ pre).
  assert (len front = base) as Ebase.
  { assert (len table = 2 * len instrs) as Et by (unfold len; lia).
    assert (len (le_split 2 (len instrs)) = 2) as E16 by (unfold len at 1; by rewrite le_split_length).
    unfold front. rewrite !len_app, Epre, Et, E16. unfold base. lia. }
  clearbody front. clear -Hranges Hends Ebase.
  induction Hranges as [|r ranges Hr _ IH]; [constructor|].
  apply Forall_cons in Hends as [He Hends]. cbn [map]. constructor; [|by apply IH].
  cbn [r_start r_end]. split; [|lia]. rewrite slice_app_r by lia.
  replace (base + r_start r - len front) with (r_start r) by lia.
  replace (base + r_end r - len front) with (r_end r) by lia.
  rewrite slice_app_l; [done|lia|lia].
Qed.

(** ** Properties *)

(** C15. The forbidden ranges are located exactly. For every serialiser with the
    documented format, every list of instructions and every configuration that
    the computation accepts, the [j]-th computed offset range selects from the
    serialised sysvar the bytes that the [j]-th configured range selects from
    the data of the watched instruction. *)
Theorem sysvar_offsets_select (construct : list SysvarInstruction -> list Z)
    (d : GobbleDetector) (instrs : list SysvarInstruction) (offs : list Range) :
  SysvarFormat construct -> Forall sysvar_instruction_ok instrs -> layout_size instrs < 2 ^ 63 ->
  0 <= instruction_index (detector_config d) ->
  Forall (fun r => 0 <= r_start r <= r_end r) (forbidden_ranges (detector_config d)) ->
  calculate_forbidden_sysvar_offsets d (map info_of instrs) = Ok offs ->
  exists target, instrs !! Z.to_nat (instruction_index (detector_config d)) = Some target /\
    Forall2 (fun off r =>
        slice (construct instrs) (r_start off) (r_end off) = slice (si_data target) (r_start r) (r_end r)
        /\ r_end off - r_start off = r_end r - r_start r)
      offs (forbidden_ranges (detector_config d)).
Proof. intros Hf. apply offsets_located, Hf. Qed.

(** A serialiser with the documented format: the table holds the offsets, and
    two bytes for the current index follow the instructions. *)
Definition example_construct (instrs : list SysvarInstruction) : list Z :=
  let start := 2 + 2 * len instrs in
  let table := concat (map (fun k => le_split 2 (start + len (concat (map instruction_layout (take k instrs)))))
                 (seq 0 (length instrs))) in
  le_split 2 (len instrs) ++ table ++ concat (map instruction_layout instrs) ++ [0; 0].

Lemma example_construct_format : SysvarFormat example_construct.
Proof.
  intros instrs. eexists _, [0; 0]. split; [|reflexivity].
  rewrite <- (length_seq (length instrs) 0) at 2.
  induction (seq 0 (length instrs)) as [|k l IH]; [done|].
  cbn [map concat length]. rewrite length_app, IH, le_split_length. lia.
Qed.

(** Two instructions, the second with two accounts and twelve bytes of data. *)
Definition example_sysvar : list SysvarInstruction :=
  [ mkSysvarInstruction [replicate 33 1] (replicate 32 2) (seqZ 10 5);
    mkSysvarInstruction [replicate 33 3; replicate 33 4] (replicate 32 5) (seqZ 100 12) ].

Lemma sysvar_offsets_select_witness :
  exists offs target,
    calculate_forbidden_sysvar_offsets (mkDetector (with_ranges 1 [mkRange 4 8; mkRange 0 2]))
      (map info_of example_sysvar) = Ok offs /\
    example_sysvar !! 1%nat = Some target /\
    map (fun o => slice (example_construct example_sysvar) (r_start o) (r_end o)) offs
      = [[104; 105; 106; 107]; [100; 101]].
Proof.
  eexists. edestruct (sysvar_offsets_select example_construct
    (mkDetector (with_ranges 1 [mkRange 4 8; mkRange 0 2])) example_sysvar) as (target & Ht & Hs).
  - exact example_construct_format.
  - by repeat constructor.
  - by vm_compute.
  - by vm_compute.
  - by repeat constructor.
  - vm_compute. reflexivity.
  - exists target. split; [vm_compute; reflexivity|]. split; [exact Ht|].
    vm_compute in Ht. injection Ht as <-.
    inversion_clear Hs as [|? ? ? ? [E1 _] Hs']. inversion_clear Hs' as [|? ? ? ? [E2 _] _].
    cbn [map]. rewrite E1, E2. by vm_compute.
Defined.
