(* ===== verification/TxAccounts.v ===== *)
(** The accounts of a transaction (agave/transaction-context/src/transaction_accounts.rs,
    vm_slice.rs, vm_addresses.rs and the limits of lib.rs): the fields of an account that
    are shared with programs and those that are not, views on an account, the borrow
    counters, and the books that are kept on touched accounts, on growth and on lamports.

    The reference count of a payload ([Arc<Vec<u8>>]) is modelled by whether the payload is
    shared with an owner outside of the transaction. *)

From Stdlib Require Import ZArith Lia Bool.
From S2P Require Import Prelude.

#[local] Open Scope Z_scope.

(** ** Limits (lib.rs) *)

Definition MAX_ACCOUNTS_PER_TRANSACTION : Z := 256.
Definition MAX_ACCOUNTS_PER_INSTRUCTION : Z := 255.
Definition MAX_INSTRUCTION_DATA_LEN : Z := 10 * 1024.
Definition MAX_ACCOUNT_DATA_LEN : Z := 10 * 1024 * 1024.
Definition MAX_ACCOUNT_DATA_GROWTH_PER_TRANSACTION : Z := MAX_ACCOUNT_DATA_LEN * 2.
Definition MAX_ACCOUNT_DATA_GROWTH_PER_INSTRUCTION : Z := 10 * 1024.
Definition MAX_INSTRUCTION_TRACE_LENGTH : Z := 64.

Definition GUEST_REGION_SIZE : Z := 2 ^ 32.
Definition RETURN_DATA_SCRATCHPAD : Z := 7 * GUEST_REGION_SIZE.
Definition GUEST_ACCOUNT_PAYLOAD_BASE_ADDRESS : Z := 8 * GUEST_REGION_SIZE.
Definition GUEST_INSTRUCTION_DATA_BASE_ADDRESS : Z := 264 * GUEST_REGION_SIZE.
Definition GUEST_INSTRUCTION_ACCOUNT_BASE_ADDRESS : Z := 328 * GUEST_REGION_SIZE.

(** A public key is 32 bytes; keys are compared as byte strings. *)
Abbreviation Pubkey := (list Z).

(** The errors that the runtime reports, by their names in the instruction crate. *)
Inductive InstructionError :=
| GenericError | InvalidArgument | AccountDataTooSmall | MissingAccount | ModifiedProgramId
| ExternalAccountLamportSpend | ExternalAccountDataModified | ReadonlyLamportChange
| ReadonlyDataModified | ExecutableModified | AccountBorrowFailed | AccountBorrowOutstanding
| AccountDataSizeChanged | CallDepth | ReentrancyNotAllowed | MaxAccountsExceeded
| InvalidRealloc | ComputationalBudgetExceeded | PrivilegeEscalation
| ProgramEnvironmentSetupFailure | ProgramFailedToComplete | UnsupportedProgramId
| InvalidAccountOwner | ArithmeticOverflow | MaxAccountsDataAllocationsExceeded
| MaxInstructionTraceLengthExceeded | UnbalancedInstruction | ExecutableAccountNotRentExempt
| BuiltinProgramsMustConsumeComputeUnits | MaxSeedLengthExceeded | UnsupportedSysvar | Custom (code : Z).

#[export] Instance InstructionError_eq_dec : EqDecision InstructionError.
Proof. solve_decision. Defined.

(** ** VmSlice *)

Record VmSlice := mkVmSlice { vs_ptr : Z; vs_len : Z }.

Definition vs_is_empty (s : VmSlice) : bool := vs_len s =? 0.
(** [size] is the size of the element type. *)
Definition vs_end (size : Z) (s : VmSlice) : Z :=
  saturating_add (vs_ptr s) (saturating_mul (vs_len s) size).
Definition vs_set_len (s : VmSlice) (new_len : Z) : VmSlice := mkVmSlice (vs_ptr s) new_len.

(** ** Accounts *)

Record AccountSharedFields := mkAccountSharedFields {
  account_key_ : Pubkey;
  account_owner : Pubkey;
  account_lamports : Z;
  account_payload : VmSlice
}.

Record AccountPrivateFields := mkAccountPrivateFields {
  rent_epoch : Z;
  executable : bool;
  payload : list Z;
  payload_shared : bool
}.

#[export] Instance AccountSharedFields_inhabited : Inhabited AccountSharedFields :=
  populate (mkAccountSharedFields [] [] 0 (mkVmSlice 0 0)).
#[export] Instance AccountPrivateFields_inhabited : Inhabited AccountPrivateFields :=
  populate (mkAccountPrivateFields 0 false [] false).

(** An account that is loaded into a transaction ([AccountSharedData]): its data may be
    shared with the accounts database. *)
Record AccountSharedData := mkAccountSharedData {
  sd_lamports : Z;
  sd_data : list Z;
  sd_owner : Pubkey;
  sd_executable : bool;
  sd_rent_epoch : Z;
  sd_shared : bool
}.

(** [TransactionAccountView] and [TransactionAccountViewMut]. *)
Record AccountView := mkAccountView {
  abi_account : AccountSharedFields;
  private_fields : AccountPrivateFields
}.

Section view.
Implicit Types v : AccountView.

Definition view_lamports v : Z := account_lamports (abi_account v).
Definition view_data v : list Z := payload (private_fields v).
Definition view_owner v : Pubkey := account_owner (abi_account v).
Definition view_executable v : bool := executable (private_fields v).
Definition view_rent_epoch v : Z := rent_epoch (private_fields v).
Definition view_is_shared v : bool := payload_shared (private_fields v).

(** The payload, by [Arc::make_mut] or after a copy: its bytes and no other owner. *)
Definition with_payload (bs : list Z) v : AccountView :=
  mkAccountView (abi_account v)
    (mkAccountPrivateFields (rent_epoch (private_fields v)) (executable (private_fields v)) bs false).

(** [self.abi_account.payload.set_len(..)]. *)
Definition with_payload_len (n : Z) v : AccountView :=
  let a := abi_account v in
  mkAccountView (mkAccountSharedFields (account_key_ a) (account_owner a) (account_lamports a)
                   (vs_set_len (account_payload a) n)) (private_fields v).

(** [Vec::resize]. *)
Definition vec_resize (bs : list Z) (new_len value : Z) : list Z :=
  take (Z.to_nat new_len) bs ++ replicate (Z.to_nat new_len - length bs) value.

Definition view_resize (new_len value : Z) v : AccountView :=
  with_payload_len new_len (with_payload (vec_resize (view_data v) new_len value) v).

(** Whether the buffer is reused or replaced, its content is the new data. *)
Definition view_set_data_from_slice (new_data : list Z) v : AccountView :=
  with_payload_len (len new_data) (with_payload new_data v).

Definition view_extend_from_slice (data : list Z) v : AccountView :=
  let v := with_payload (view_data v ++ data) v in
  with_payload_len (len (view_data v)) v.

(** Reserving keeps the bytes and, for a shared payload, makes a copy. *)
Definition view_reserve v : AccountView := with_payload (view_data v) v.

Definition view_set_lamports (n : Z) v : AccountView :=
  let a := abi_account v in
  mkAccountView (mkAccountSharedFields (account_key_ a) (account_owner a) n (account_payload a))
    (private_fields v).

(** [data_as_mut_slice] followed by writes through the slice. *)
Definition view_write_data (bs : list Z) v : AccountView := with_payload bs v.

Definition view_copy_into_owner (owner : Pubkey) v : AccountView :=
  let a := abi_account v in
  mkAccountView (mkAccountSharedFields (account_key_ a) owner (account_lamports a) (account_payload a))
    (private_fields v).

Definition view_set_executable (b : bool) v : AccountView :=
  let p := private_fields v in
  mkAccountView (abi_account v) (mkAccountPrivateFields (rent_epoch p) b (payload p) (payload_shared p)).

End view.

(** ** Borrow counters *)

(** The operations of [BorrowCounter] on its [i8]. *)
Definition is_writing (counter : Z) : bool := counter <? 0.
Definition is_reading (counter : Z) : bool := 0 <? counter.

Definition clamp_i8 (x : Z) : Z := Z.max (-128) (Z.min x 127).

Definition counter_try_borrow (counter : Z) : Result Z InstructionError :=
  if is_writing counter then Err AccountBorrowFailed
  else if counter + 1 <=? 127 then Ok (counter + 1)
  else Err AccountBorrowFailed.

Definition counter_try_borrow_mut (counter : Z) : Result Z InstructionError :=
  if is_writing counter || is_reading counter then Err AccountBorrowFailed
  else Ok (clamp_i8 (counter - 1)).

Definition counter_release_borrow (counter : Z) : Z := clamp_i8 (counter - 1).
Definition counter_release_borrow_mut (counter : Z) : Z := clamp_i8 (counter + 1).

(** ** TransactionAccounts *)

Record TransactionAccounts := mkTransactionAccounts {
  shared_account_fields : list AccountSharedFields;
  private_account_fields : list AccountPrivateFields;
  borrow_counters : list Z;
  touched_flags : list bool;
  resize_delta : Z;
  lamports_delta : Z
}.

Definition accounts_new (l : list (Pubkey * AccountSharedData)) : TransactionAccounts :=
  {| shared_account_fields :=
       imap (fun idx item =>
         mkAccountSharedFields item.1 (sd_owner item.2) (sd_lamports item.2)
           (mkVmSlice (saturating_add GUEST_ACCOUNT_PAYLOAD_BASE_ADDRESS
                         (saturating_mul GUEST_REGION_SIZE (Z.of_nat idx))) (len (sd_data item.2)))) l;
     private_account_fields :=
       map (fun item =>
         mkAccountPrivateFields (sd_rent_epoch item.2) (sd_executable item.2) (sd_data item.2)
           (sd_shared item.2)) l;
     borrow_counters := replicate (length l) 0;
     touched_flags := replicate (length l) false;
     resize_delta := 0;
     lamports_delta := 0 |}.

Section accounts.
Implicit Types a : TransactionAccounts.

Definition accounts_len a : Z := len (shared_account_fields a).

Definition set_shared_fields (x : list AccountSharedFields) a : TransactionAccounts :=
  mkTransactionAccounts x (private_account_fields a) (borrow_counters a) (touched_flags a)
    (resize_delta a) (lamports_delta a).
Definition set_borrow_counters (x : list Z) a : TransactionAccounts :=
  mkTransactionAccounts (shared_account_fields a) (private_account_fields a) x (touched_flags a)
    (resize_delta a) (lamports_delta a).
Definition set_touched_flags (x : list bool) a : TransactionAccounts :=
  mkTransactionAccounts (shared_account_fields a) (private_account_fields a) (borrow_counters a) x
    (resize_delta a) (lamports_delta a).
Definition set_resize_delta (x : Z) a : TransactionAccounts :=
  mkTransactionAccounts (shared_account_fields a) (private_account_fields a) (borrow_counters a)
    (touched_flags a) x (lamports_delta a).
Definition set_lamports_delta (x : Z) a : TransactionAccounts :=
  mkTransactionAccounts (shared_account_fields a) (private_account_fields a) (borrow_counters a)
    (touched_flags a) (resize_delta a) x.

(** The view of an account, of which the source unwraps the parts, and its update. *)
Definition get_view a (index : Z) : AccountView :=
  mkAccountView (shared_account_fields a !!! Z.to_nat index)
    (private_account_fields a !!! Z.to_nat index).
Definition put_view (index : Z) (v : AccountView) a : TransactionAccounts :=
  mkTransactionAccounts (<[Z.to_nat index := abi_account v]> (shared_account_fields a))
    (<[Z.to_nat index := private_fields v]> (private_account_fields a)) (borrow_counters a)
    (touched_flags a) (resize_delta a) (lamports_delta a).

Definition touch a (index : Z) : TransactionAccounts * Result unit InstructionError :=
  match touched_flags a !! Z.to_nat index with
  | None => (a, Err MissingAccount)
  | Some _ => (set_touched_flags (<[Z.to_nat index := true]> (touched_flags a)) a, Ok tt)
  end.

Definition accounts_update_resize_delta a (old_len new_len : Z)
    : TransactionAccounts * Result unit InstructionError :=
  (set_resize_delta
     (saturating_add_i64 (resize_delta a) (saturating_sub_i64 (as_i64 new_len) (as_i64 old_len))) a,
   Ok tt).

Definition accounts_can_data_be_resized a (old_len new_len : Z) : Result unit InstructionError :=
  if MAX_ACCOUNT_DATA_LEN <? new_len then Err InvalidRealloc
  else
    let length_delta := saturating_sub_i64 (as_i64 new_len) (as_i64 old_len) in
    if MAX_ACCOUNT_DATA_GROWTH_PER_TRANSACTION <? saturating_add_i64 (resize_delta a) length_delta
    then Err MaxAccountsDataAllocationsExceeded
    else Ok tt.

(** Borrowing returns the view; the borrow lasts until the reference is dropped. *)
Definition accounts_try_borrow_mut a (index : Z)
    : TransactionAccounts * Result AccountView InstructionError :=
  match borrow_counters a !! Z.to_nat index with
  | None => (a, Err MissingAccount)
  | Some counter =>
      match counter_try_borrow_mut counter with
      | Err e => (a, Err e)
      | Ok counter =>
          (set_borrow_counters (<[Z.to_nat index := counter]> (borrow_counters a)) a,
           Ok (get_view a index))
      end
  end.

Definition accounts_try_borrow a (index : Z)
    : TransactionAccounts * Result AccountView InstructionError :=
  match borrow_counters a !! Z.to_nat index with
  | None => (a, Err MissingAccount)
  | Some counter =>
      match counter_try_borrow counter with
      | Err e => (a, Err e)
      | Ok counter =>
          (set_borrow_counters (<[Z.to_nat index := counter]> (borrow_counters a)) a,
           Ok (get_view a index))
      end
  end.

(** [Drop for AccountRef]. *)
Definition drop_ref a (index : Z) : TransactionAccounts :=
  set_borrow_counters (alter counter_release_borrow (Z.to_nat index) (borrow_counters a)) a.

(** [Drop for AccountRefMut]: the length in the shared fields is brought up to date. *)
Definition drop_ref_mut a (index : Z) : TransactionAccounts :=
  let v := get_view a index in
  let a := put_view index (with_payload_len (len (view_data v)) v) a in
  set_borrow_counters (alter counter_release_borrow_mut (Z.to_nat index) (borrow_counters a)) a.

(** [i128] arithmetic. *)
Definition clamp_i128 (x : Z) : Z := Z.max (- 2 ^ 127) (Z.min x (2 ^ 127 - 1)).
Definition checked_add_i128 (x y : Z) : option Z :=
  if (- 2 ^ 127 <=? x + y) && (x + y <? 2 ^ 127) then Some (x + y) else None.

Definition add_lamports_delta a (balance : Z) : TransactionAccounts * Result unit InstructionError :=
  match checked_add_i128 (lamports_delta a) balance with
  | None => (a, Err ArithmeticOverflow)
  | Some delta => (set_lamports_delta delta a, Ok tt)
  end.

Definition account_key a (index : Z) : option Pubkey :=
  option_map account_key_ (shared_account_fields a !! Z.to_nat index).

Definition account_keys a : list Pubkey := map account_key_ (shared_account_fields a).

Definition deconstruct_into_keyed_account_shared_data a : list (Pubkey * AccountSharedData) :=
  zip_with (fun s p =>
    (account_key_ s, mkAccountSharedData (account_lamports s) (payload p) (account_owner s)
                       (executable p) (rent_epoch p) (payload_shared p)))
    (shared_account_fields a) (private_account_fields a).

End accounts.
