(* ===== verification/TxContext.v ===== *)
(** The transaction context (agave/transaction-context/src/transaction.rs, instruction.rs
    and instruction_accounts.rs): the trace and the stack of instructions, views on
    instructions, and the operations that a program may perform on the accounts of its
    instruction. The reserved field of [InstructionFrame] is left out.

    Code of other crates is a parameter: the rent rule [is_exempt], and
    [store_current_index_checked], which writes the index of the running instruction into
    the data of the instructions sysvar. *)

From Stdlib Require Import ZArith Lia Bool.
From S2P Require Import Prelude.
From S2P Require Import TxAccounts.

#[local] Open Scope Z_scope.

(** ** Instructions *)

Record InstructionAccount := mkInstructionAccount {
  index_in_transaction : Z;
  ia_is_signer : Z;
  ia_is_writable : Z
}.

Definition InstructionAccount_new (index : Z) (is_signer is_writable : bool) : InstructionAccount :=
  mkInstructionAccount index (Z.b2z is_signer) (Z.b2z is_writable).
Definition is_signer (ia : InstructionAccount) : bool := negb (ia_is_signer ia =? 0).
Definition is_writable (ia : InstructionAccount) : bool := negb (ia_is_writable ia =? 0).
Definition set_is_signer (ia : InstructionAccount) (value : bool) : InstructionAccount :=
  mkInstructionAccount (index_in_transaction ia) (Z.b2z value) (ia_is_writable ia).
Definition set_is_writable (ia : InstructionAccount) (value : bool) : InstructionAccount :=
  mkInstructionAccount (index_in_transaction ia) (ia_is_signer ia) (Z.b2z value).

Definition u16_MAX : Z := 65535.

Record InstructionFrame := mkInstructionFrame {
  program_account_index_in_tx : Z;
  nesting_level : Z;
  index_of_caller_instruction : Z;
  frame_accounts : VmSlice;
  frame_data : VmSlice
}.

Definition InstructionFrame_default : InstructionFrame :=
  mkInstructionFrame 0 0 u16_MAX (mkVmSlice 0 0) (mkVmSlice 0 0).

Definition configure_vm_slices (f : InstructionFrame)
    (instruction_index instruction_accounts_len instruction_data_len : Z) : InstructionFrame :=
  let common_offset := saturating_mul GUEST_REGION_SIZE instruction_index in
  mkInstructionFrame (program_account_index_in_tx f) (nesting_level f) (index_of_caller_instruction f)
    (mkVmSlice (saturating_add GUEST_INSTRUCTION_ACCOUNT_BASE_ADDRESS common_offset)
       instruction_accounts_len)
    (mkVmSlice (saturating_add GUEST_INSTRUCTION_DATA_BASE_ADDRESS common_offset)
       instruction_data_len).

(** ** The context *)

Record TransactionFrame := mkTransactionFrame {
  return_data_pubkey : Pubkey;
  return_data_scratchpad : VmSlice;
  cpi_scratchpad : VmSlice;
  current_executing_instruction : Z;
  number_of_instructions : Z;
  number_of_executed_cpis : Z;
  number_of_transaction_accounts : Z
}.

Record TransactionContext := mkTransactionContext {
  accounts : TransactionAccounts;
  instruction_stack_capacity : Z;
  instruction_trace_capacity : Z;
  instruction_stack : list Z;
  instruction_trace : list InstructionFrame;
  transaction_frame : TransactionFrame;
  return_data_bytes : list Z;
  top_level_instruction_index : Z;
  deduplication_maps : list (list Z);
  instruction_accounts : list (list InstructionAccount);
  instruction_data : list (list Z)
}.

(** [InstructionContext]; the transaction context it refers to stays an argument. *)
Record InstructionContext := mkInstructionContext {
  ic_index_in_trace : Z;
  ic_nesting_level : Z;
  ic_program_account_index_in_tx : Z;
  ic_instruction_accounts : list InstructionAccount;
  ic_dedup_map : list Z;
  ic_instruction_data : list Z
}.

Definition Pubkey_default : Pubkey := replicate 32 0.

Definition context_new (transaction_accounts : list (Pubkey * AccountSharedData))
    (stack_capacity trace_capacity number_of_top_level_instructions : Z) : TransactionContext :=
  {| accounts := accounts_new transaction_accounts;
     instruction_stack_capacity := stack_capacity;
     instruction_trace_capacity := trace_capacity;
     instruction_stack := [];
     instruction_trace := [InstructionFrame_default];
     transaction_frame :=
       {| return_data_pubkey := Pubkey_default;
          return_data_scratchpad := mkVmSlice RETURN_DATA_SCRATCHPAD 0;
          cpi_scratchpad :=
            mkVmSlice (saturating_add GUEST_INSTRUCTION_DATA_BASE_ADDRESS
                         (saturating_mul GUEST_REGION_SIZE number_of_top_level_instructions)) 0;
          current_executing_instruction := 0;
          number_of_instructions := as_u16 number_of_top_level_instructions;
          number_of_executed_cpis := 0;
          number_of_transaction_accounts := as_u16 (len transaction_accounts) |};
     return_data_bytes := [];
     top_level_instruction_index := 0;
     deduplication_maps := [];
     instruction_accounts := [];
     instruction_data := [] |}.

(** Field updates. *)
Section setters.
Implicit Types c : TransactionContext.

Definition set_accounts (x : TransactionAccounts) c : TransactionContext :=
  mkTransactionContext x (instruction_stack_capacity c) (instruction_trace_capacity c)
    (instruction_stack c) (instruction_trace c) (transaction_frame c) (return_data_bytes c)
    (top_level_instruction_index c) (deduplication_maps c) (instruction_accounts c)
    (instruction_data c).
Definition set_stack (x : list Z) c : TransactionContext :=
  mkTransactionContext (accounts c) (instruction_stack_capacity c) (instruction_trace_capacity c)
    x (instruction_trace c) (transaction_frame c) (return_data_bytes c)
    (top_level_instruction_index c) (deduplication_maps c) (instruction_accounts c)
    (instruction_data c).
Definition set_trace (x : list InstructionFrame) c : TransactionContext :=
  mkTransactionContext (accounts c) (instruction_stack_capacity c) (instruction_trace_capacity c)
    (instruction_stack c) x (transaction_frame c) (return_data_bytes c)
    (top_level_instruction_index c) (deduplication_maps c) (instruction_accounts c)
    (instruction_data c).
Definition set_frame (x : TransactionFrame) c : TransactionContext :=
  mkTransactionContext (accounts c) (instruction_stack_capacity c) (instruction_trace_capacity c)
    (instruction_stack c) (instruction_trace c) x (return_data_bytes c)
    (top_level_instruction_index c) (deduplication_maps c) (instruction_accounts c)
    (instruction_data c).
Definition set_return_data_bytes (x : list Z) c : TransactionContext :=
  mkTransactionContext (accounts c) (instruction_stack_capacity c) (instruction_trace_capacity c)
    (instruction_stack c) (instruction_trace c) (transaction_frame c) x
    (top_level_instruction_index c) (deduplication_maps c) (instruction_accounts c)
    (instruction_data c).
Definition set_top_level_index (x : Z) c : TransactionContext :=
  mkTransactionContext (accounts c) (instruction_stack_capacity c) (instruction_trace_capacity c)
    (instruction_stack c) (instruction_trace c) (transaction_frame c) (return_data_bytes c)
    x (deduplication_maps c) (instruction_accounts c) (instruction_data c).
Definition set_configured (maps : list (list Z)) (ias : list (list InstructionAccount))
    (data : list (list Z)) c : TransactionContext :=
  mkTransactionContext (accounts c) (instruction_stack_capacity c) (instruction_trace_capacity c)
    (instruction_stack c) (instruction_trace c) (transaction_frame c) (return_data_bytes c)
    (top_level_instruction_index c) maps ias data.

End setters.

(** [u16::saturating_add]. *)
Definition saturating_add_u16 (a b : Z) : Z := Z.min (a + b) u16_MAX.

(** A computation that changes the context and may fail; what it did before it failed
    stays done. *)
Definition TxM (A : Type) : Type := TransactionContext -> TransactionContext * Result A InstructionError.

Definition tx_ret {A} (x : A) : TxM A := fun c => (c, Ok x).
Definition tx_throw {A} (e : InstructionError) : TxM A := fun c => (c, Err e).
Definition tx_lift {A} (f : TransactionContext -> Result A InstructionError) : TxM A := fun c => (c, f c).
Definition tx_modify (f : TransactionContext -> TransactionContext) : TxM unit := fun c => (f c, Ok tt).
Definition tx_get {A} (f : TransactionContext -> A) : TxM A := fun c => (c, Ok (f c)).
Definition tx_bind {A B} (m : TxM A) (k : A -> TxM B) : TxM B := fun c =>
  match m c with
  | (c, Ok x) => k x c
  | (c, Err e) => (c, Err e)
  end.
(** An operation on the accounts. *)
Definition on_accounts {A} (f : TransactionAccounts -> TransactionAccounts * Result A InstructionError)
    : TxM A := fun c => let '(a, r) := f (accounts c) in (set_accounts a c, r).

Notation "'do!' x := m 'in' k" := (tx_bind m (fun x => k))
  (at level 10, x pattern, m at level 100, k at level 200) : gobble_scope.

Section context.
Implicit Types c : TransactionContext.

Definition get_number_of_accounts c : Z := as_u16 (accounts_len (accounts c)).

Definition get_key_of_account_at_index c (index : Z) : Result Pubkey InstructionError :=
  match account_key (accounts c) index with Some k => Ok k | None => Err MissingAccount end.

(** [position]: the index of the first key that is equal. *)
Fixpoint position (pubkey : Pubkey) (l : list Pubkey) (index : Z) : option Z :=
  match l with
  | [] => None
  | k :: l => if bool_decide (k = pubkey) then Some index else position pubkey l (index + 1)
  end.

Definition find_index_of_account c (pubkey : Pubkey) : option Z :=
  option_map as_u16 (position pubkey (account_keys (accounts c)) 0).

Definition get_instruction_trace_length c : Z := saturating_sub (len (instruction_trace c)) 1.

Definition get_instruction_context_at_index_in_trace c (index_in_trace : Z)
    : Result InstructionContext InstructionError :=
  match instruction_trace c !! Z.to_nat index_in_trace with
  | None => Err CallDepth
  | Some instruction =>
      Ok {| ic_index_in_trace := index_in_trace;
            ic_nesting_level := nesting_level instruction;
            ic_program_account_index_in_tx := program_account_index_in_tx instruction;
            ic_instruction_accounts :=
              default [] (instruction_accounts c !! Z.to_nat index_in_trace);
            ic_dedup_map := default [] (deduplication_maps c !! Z.to_nat index_in_trace);
            ic_instruction_data := default [] (instruction_data c !! Z.to_nat index_in_trace) |}
  end.

Definition get_instruction_context_at_nesting_level c (level : Z)
    : Result InstructionContext InstructionError :=
  match instruction_stack c !! Z.to_nat level with
  | None => Err CallDepth
  | Some index_in_trace => get_instruction_context_at_index_in_trace c index_in_trace
  end.

Definition get_instruction_stack_height c : Z := len (instruction_stack c).

Definition get_current_instruction_index c : Result Z InstructionError :=
  match last (instruction_stack c) with Some i => Ok i | None => Err CallDepth end.

Definition get_current_instruction_context c : Result InstructionContext InstructionError :=
  let? index_in_trace := get_current_instruction_index c in
  get_instruction_context_at_index_in_trace c index_in_trace.

Definition get_next_instruction_context c : Result InstructionContext InstructionError :=
  if len (instruction_trace c) =? 0 then Err CallDepth
  else get_instruction_context_at_index_in_trace c (len (instruction_trace c) - 1).

(** ** Views on instructions *)

Definition get_number_of_instruction_accounts (ic : InstructionContext) : Z :=
  as_u16 (len (ic_instruction_accounts ic)).

Definition check_number_of_instruction_accounts (ic : InstructionContext) (expected_at_least : Z)
    : Result unit InstructionError :=
  if get_number_of_instruction_accounts ic <? expected_at_least then Err MissingAccount else Ok tt.

Definition get_index_of_program_account_in_transaction (ic : InstructionContext)
    : Result Z InstructionError :=
  if ic_program_account_index_in_tx ic =? u16_MAX then Err MissingAccount
  else Ok (ic_program_account_index_in_tx ic).

Definition get_instruction_account (ic : InstructionContext) (index : Z)
    : Result InstructionAccount InstructionError :=
  match ic_instruction_accounts ic !! Z.to_nat index with
  | Some ia => Ok ia
  | None => Err MissingAccount
  end.

Definition get_index_of_instruction_account_in_transaction (ic : InstructionContext) (index : Z)
    : Result Z InstructionError :=
  let? ia := get_instruction_account ic index in Ok (index_in_transaction ia).

Definition get_index_of_account_in_instruction (ic : InstructionContext) (index : Z)
    : Result Z InstructionError :=
  match ic_dedup_map ic !! Z.to_nat index with
  | None => Err MissingAccount
  | Some idx => if len (ic_instruction_accounts ic) <=? idx then Err MissingAccount else Ok idx
  end.

Definition is_instruction_account_duplicate (ic : InstructionContext) (index : Z)
    : Result (option Z) InstructionError :=
  let? in_transaction := get_index_of_instruction_account_in_transaction ic index in
  let? first := get_index_of_account_in_instruction ic in_transaction in
  Ok (if first =? index then None else Some first).

Definition get_program_key c (ic : InstructionContext) : Result Pubkey InstructionError :=
  let? index := get_index_of_program_account_in_transaction ic in
  get_key_of_account_at_index c index.

(** The borrow of the program account ends with the call. *)
Definition get_program_owner c (ic : InstructionContext) : Result Pubkey InstructionError :=
  let? index := get_index_of_program_account_in_transaction ic in
  let? v := (accounts_try_borrow (accounts c) index).2 in
  Ok (view_owner v).

Definition is_instruction_account_signer (ic : InstructionContext) (index : Z)
    : Result bool InstructionError :=
  let? ia := get_instruction_account ic index in Ok (is_signer ia).
Definition is_instruction_account_writable (ic : InstructionContext) (index : Z)
    : Result bool InstructionError :=
  let? ia := get_instruction_account ic index in Ok (is_writable ia).

(** The keys of the signers, each once. *)
Fixpoint get_signers_of c (ias : list InstructionAccount) (result : gset Pubkey)
    : Result (gset Pubkey) InstructionError :=
  match ias with
  | [] => Ok result
  | ia :: ias =>
      if is_signer ia then
        let? k := get_key_of_account_at_index c (index_in_transaction ia) in
        get_signers_of c ias (result ∪ {[k]})
      else get_signers_of c ias result
  end.
Definition get_signers c (ic : InstructionContext) : Result (gset Pubkey) InstructionError :=
  get_signers_of c (ic_instruction_accounts ic) ∅.

Definition get_key_of_instruction_account c (ic : InstructionContext) (index : Z)
    : Result Pubkey InstructionError :=
  let? idx := get_index_of_instruction_account_in_transaction ic index in
  get_key_of_account_at_index c idx.

End context.

(** ** Stack discipline *)

(** [last_mut]: update the last element, or fail. *)
Definition on_last_frame (f : InstructionFrame -> InstructionFrame) : TxM unit := fun c =>
  match last (instruction_trace c) with
  | None => (c, Err CallDepth)
  | Some frame =>
      (set_trace (removelast (instruction_trace c) ++ [f frame]) c, Ok tt)
  end.

Definition configure_next_instruction (program_index : Z) (ias : list InstructionAccount)
    (deduplication_map : list Z) (data : list Z) (caller_index : option Z) : TxM unit := fun c =>
  let instruction_index := saturating_sub (len (instruction_trace c)) 1 in
  match last (instruction_trace c) with
  | None => (c, Err CallDepth)
  | Some frame =>
      let tf := transaction_frame c in
      let number :=
        match caller_index with
        | Some _ => saturating_add_u16 (number_of_instructions tf) 1
        | None => number_of_instructions tf
        end in
      let caller :=
        match caller_index with Some i => i | None => index_of_caller_instruction frame end in
      let scratchpad :=
        mkVmSlice (saturating_add GUEST_INSTRUCTION_DATA_BASE_ADDRESS
                     (saturating_mul GUEST_REGION_SIZE number)) 0 in
      let tf := mkTransactionFrame (return_data_pubkey tf) (return_data_scratchpad tf) scratchpad
                  (current_executing_instruction tf) number (number_of_executed_cpis tf)
                  (number_of_transaction_accounts tf) in
      let frame := mkInstructionFrame program_index (nesting_level frame) caller
                     (frame_accounts frame) (frame_data frame) in
      let frame := configure_vm_slices frame instruction_index (len ias) (len data) in
      (set_configured (deduplication_maps c ++ [deduplication_map]) (instruction_accounts c ++ [ias])
         (instruction_data c ++ [data])
         (set_frame tf (set_trace (removelast (instruction_trace c) ++ [frame]) c)), Ok tt)
  end.

Definition set_current_executing (i : Z) (tf : TransactionFrame) : TransactionFrame :=
  mkTransactionFrame (return_data_pubkey tf) (return_data_scratchpad tf) (cpi_scratchpad tf)
    i (number_of_instructions tf) (number_of_executed_cpis tf) (number_of_transaction_accounts tf).
Definition bump_executed_cpis (tf : TransactionFrame) : TransactionFrame :=
  mkTransactionFrame (return_data_pubkey tf) (return_data_scratchpad tf) (cpi_scratchpad tf)
    (current_executing_instruction tf) (number_of_instructions tf)
    (saturating_add_u16 (number_of_executed_cpis tf) 1) (number_of_transaction_accounts tf).

Section sysvar.
(** [solana_instructions_sysvar]: its key, the owner of sysvars, and the function that stores
    the index of the current instruction in the data of the account. *)
Variables (instructions_id sysvar_id : Pubkey).
Variable store_current_index_checked : list Z -> Z -> Result (list Z) InstructionError.

(** The update of the instructions sysvar at the end of [push]. *)
Definition store_current_index : TxM unit := fun c =>
  match find_index_of_account c instructions_id with
  | None => (c, Ok tt)
  | Some index =>
      let '(a, r) := accounts_try_borrow_mut (accounts c) index in
      match r with
      | Err e => (set_accounts a c, Err e)
      | Ok v =>
          if negb (bool_decide (view_owner v = sysvar_id))
          then (set_accounts (drop_ref_mut a index) c, Err InvalidAccountOwner)
          else
            let v := view_write_data (view_data v) v in
            match store_current_index_checked (view_data v) (as_u16 (top_level_instruction_index c)) with
            | Err e => (set_accounts (drop_ref_mut (put_view index v a) index) c, Err e)
            | Ok bs =>
                (set_accounts (drop_ref_mut (put_view index (view_write_data bs v) a) index) c, Ok tt)
            end
      end
  end.

Definition tx_push : TxM unit := fun c =>
  let level := get_instruction_stack_height c in
  if negb (is_nil (instruction_stack c)) && negb (lamports_delta (accounts c) =? 0)
  then (c, Err UnbalancedInstruction)
  else
    (do! _ := on_last_frame (fun f =>
       mkInstructionFrame (program_account_index_in_tx f) (as_u16 level)
         (index_of_caller_instruction f) (frame_accounts f) (frame_data f)) in
     do! index_in_trace := tx_get get_instruction_trace_length in
     do! capacity := tx_get instruction_trace_capacity in
     if capacity <=? index_in_trace then tx_throw MaxInstructionTraceLengthExceeded
     else
       do! _ := tx_modify (fun c => set_trace (instruction_trace c ++ [InstructionFrame_default]) c) in
       do! stack_capacity := tx_get instruction_stack_capacity in
       if stack_capacity <=? level then tx_throw CallDepth
       else
         do! _ := tx_modify (fun c =>
           set_stack (instruction_stack c ++ [index_in_trace])
             (set_frame (set_current_executing (as_u16 index_in_trace) (transaction_frame c)) c)) in
         store_current_index) c.

(** The check before the pop: whether the lamports are unbalanced. The program account is
    borrowed, to see that nobody else holds it, and given back. *)
Definition pop_check : TxM bool :=
  do! ic := tx_lift get_current_instruction_context in
  do! index := tx_lift (fun _ => get_index_of_program_account_in_transaction ic) in
  do! _ := (fun c =>
      let '(a, r) := accounts_try_borrow_mut (accounts c) index in
      match r with
      | Ok _ => (set_accounts (drop_ref_mut a index) c, Ok tt)
      | Err err =>
          (c, Err (if bool_decide (err = AccountBorrowFailed) then AccountBorrowOutstanding else err))
      end) in
  tx_get (fun c => negb (lamports_delta (accounts c) =? 0)).

Definition tx_pop : TxM unit := fun c =>
  if is_nil (instruction_stack c) then (c, Err CallDepth)
  else
    let '(c, detected) := pop_check c in
    let c := set_stack (removelast (instruction_stack c)) c in
    let c :=
      match last (instruction_stack c) with
      | Some instr_idx =>
          set_frame (set_current_executing (as_u16 instr_idx)
                       (bump_executed_cpis (transaction_frame c))) c
      | None => set_top_level_index (saturating_add (top_level_instruction_index c) 1) c
      end in
    match detected with
    | Err e => (c, Err e)
    | Ok true => (c, Err UnbalancedInstruction)
    | Ok false => (c, Ok tt)
    end.

End sysvar.

Definition get_return_data (c : TransactionContext) : Pubkey * list Z :=
  (return_data_pubkey (transaction_frame c), return_data_bytes c).

Definition set_return_data (program_id : Pubkey) (data : list Z) : TxM unit := fun c =>
  let tf := transaction_frame c in
  let tf := mkTransactionFrame program_id (vs_set_len (return_data_scratchpad tf) (len data))
              (cpi_scratchpad tf) (current_executing_instruction tf) (number_of_instructions tf)
              (number_of_executed_cpis tf) (number_of_transaction_accounts tf) in
  (set_return_data_bytes data (set_frame tf c), Ok tt).

(** ** Borrowed accounts *)

(** [BorrowedInstructionAccount]: the account is borrowed from the context, so that its fields
    are those of the context. *)
Record BorrowedInstructionAccount := mkBorrowed {
  instruction_account : InstructionAccount;
  index_in_transaction_of_instruction_program : Z
}.

Definition try_borrow_instruction_account (ic : InstructionContext) (index_in_instruction : Z)
    : TxM BorrowedInstructionAccount :=
  do! ia := tx_lift (fun _ => get_instruction_account ic index_in_instruction) in
  do! _ := on_accounts (fun a => accounts_try_borrow_mut a (index_in_transaction ia)) in
  tx_ret (mkBorrowed ia (ic_program_account_index_in_tx ic)).

Section borrowed.
Variable is_exempt : Z -> Z -> bool.
Implicit Types (b : BorrowedInstructionAccount) (c : TransactionContext).

Definition get_index_in_transaction b : Z := index_in_transaction (instruction_account b).

Definition drop_borrowed b c : TransactionContext :=
  set_accounts (drop_ref_mut (accounts c) (get_index_in_transaction b)) c.

Definition account_view b c : AccountView := get_view (accounts c) (get_index_in_transaction b).
Definition update_view b (f : AccountView -> AccountView) : TxM unit :=
  tx_modify (fun c =>
    set_accounts (put_view (get_index_in_transaction b) (f (account_view b c)) (accounts c)) c).

Definition get_key b c : Result Pubkey InstructionError :=
  get_key_of_account_at_index c (get_index_in_transaction b).
Definition get_owner b c : Pubkey := view_owner (account_view b c).
Definition get_lamports b c : Z := view_lamports (account_view b c).
Definition get_data b c : list Z := view_data (account_view b c).
Definition is_shared b c : bool := view_is_shared (account_view b c).
Definition is_executable b c : bool := view_executable (account_view b c).
Definition is_rent_exempt_at_data_length b c (data_length : Z) : bool :=
  is_exempt (get_lamports b c) data_length.

Definition is_owned_by_current_program b c : bool :=
  match get_key_of_account_at_index c (index_in_transaction_of_instruction_program b) with
  | Ok program_key => bool_decide (program_key = get_owner b c)
  | Err _ => false
  end.

Definition can_data_be_changed b c : Result unit InstructionError :=
  if negb (is_writable (instruction_account b)) then Err ReadonlyDataModified
  else if negb (is_owned_by_current_program b c) then Err ExternalAccountDataModified
  else Ok tt.

Definition can_data_be_resized b (new_len : Z) c : Result unit InstructionError :=
  let old_len := len (get_data b c) in
  if negb (new_len =? old_len) && negb (is_owned_by_current_program b c)
  then Err AccountDataSizeChanged
  else
    let? _ := accounts_can_data_be_resized (accounts c) old_len new_len in
    can_data_be_changed b c.

Definition b_touch b : TxM unit := on_accounts (fun a => touch a (get_index_in_transaction b)).

Definition update_accounts_resize_delta b (new_len : Z) : TxM unit := fun c =>
  on_accounts (fun a => accounts_update_resize_delta a (len (get_data b c)) new_len) c.

Definition make_data_mut b : TxM unit :=
  do! shared := tx_get (is_shared b) in
  if shared then update_view b view_reserve else tx_ret tt.

(** [is_zeroed]: whole chunks of 1024 bytes first, then the rest. *)
Definition ZEROS_LEN : nat := 1024.
Fixpoint is_zeroed_chunks (fuel : nat) (buf : list Z) : bool :=
  match fuel with
  | O => bool_decide (buf = replicate (length buf) 0)
  | S fuel =>
      if (length buf <? ZEROS_LEN)%nat then bool_decide (buf = replicate (length buf) 0)
      else bool_decide (take ZEROS_LEN buf = replicate ZEROS_LEN 0)
           && is_zeroed_chunks fuel (drop ZEROS_LEN buf)
  end.
Definition is_zeroed (buf : list Z) : bool := is_zeroed_chunks (length buf) buf.

Definition set_owner b (pubkey : Pubkey) : TxM unit :=
  do! owned := tx_get (is_owned_by_current_program b) in
  if negb owned then tx_throw ModifiedProgramId
  else if negb (is_writable (instruction_account b)) then tx_throw ModifiedProgramId
  else
    do! data := tx_get (get_data b) in
    if negb (is_zeroed data) then tx_throw ModifiedProgramId
    else
      do! owner := tx_get (get_owner b) in
      if bool_decide (owner = pubkey) then tx_ret tt
      else
        do! _ := b_touch b in
        update_view b (view_copy_into_owner pubkey).

Definition set_lamports b (lamports : Z) : TxM unit :=
  do! owned := tx_get (is_owned_by_current_program b) in
  do! old_lamports := tx_get (get_lamports b) in
  if negb owned && (lamports <? old_lamports) then tx_throw ExternalAccountLamportSpend
  else if negb (is_writable (instruction_account b)) then tx_throw ReadonlyLamportChange
  else if old_lamports =? lamports then tx_ret tt
  else
    let lamports_balance := clamp_i128 (lamports - old_lamports) in
    do! _ := on_accounts (fun a => add_lamports_delta a lamports_balance) in
    do! _ := b_touch b in
    update_view b (view_set_lamports lamports).

Definition checked_add_lamports b (lamports : Z) : TxM unit :=
  do! old_lamports := tx_get (get_lamports b) in
  match checked_add old_lamports lamports with
  | Some n => set_lamports b n
  | None => tx_throw ArithmeticOverflow
  end.

Definition checked_sub_lamports b (lamports : Z) : TxM unit :=
  do! old_lamports := tx_get (get_lamports b) in
  if old_lamports <? lamports then tx_throw ArithmeticOverflow
  else set_lamports b (old_lamports - lamports).

(** [get_data_mut], up to the slice it returns. *)
Definition get_data_mut b : TxM unit :=
  do! _ := tx_lift (can_data_be_changed b) in
  do! _ := b_touch b in
  do! _ := make_data_mut b in
  update_view b (fun v => view_write_data (view_data v) v).

(** A write through the slice: the length of the data stays. *)
Definition write_data b (bs : list Z) : TxM unit :=
  do! _ := get_data_mut b in
  update_view b (fun v =>
    if (length bs =? length (view_data v))%nat then view_write_data bs v else v).

Definition set_data_from_slice b (data : list Z) : TxM unit :=
  do! _ := tx_lift (can_data_be_resized b (len data)) in
  do! _ := b_touch b in
  do! _ := update_accounts_resize_delta b (len data) in
  update_view b (view_set_data_from_slice data).

Definition set_data_length b (new_length : Z) : TxM unit :=
  do! _ := tx_lift (can_data_be_resized b new_length) in
  do! data := tx_get (get_data b) in
  if len data =? new_length then tx_ret tt
  else
    do! _ := b_touch b in
    do! _ := update_accounts_resize_delta b new_length in
    update_view b (view_resize new_length 0).

Definition extend_from_slice b (data : list Z) : TxM unit :=
  do! old := tx_get (get_data b) in
  let new_len := saturating_add (len old) (len data) in
  do! _ := tx_lift (can_data_be_resized b new_len) in
  if is_nil data then tx_ret tt
  else
    do! _ := b_touch b in
    do! _ := update_accounts_resize_delta b new_len in
    do! _ := make_data_mut b in
    update_view b (view_extend_from_slice data).

Definition set_executable b (value : bool) : TxM unit :=
  do! exempt := tx_get (fun c => is_exempt (get_lamports b c) (len (get_data b c))) in
  if negb exempt then tx_throw ExecutableAccountNotRentExempt
  else
    do! owned := tx_get (is_owned_by_current_program b) in
    if negb owned then tx_throw ExecutableModified
    else if negb (is_writable (instruction_account b)) then tx_throw ExecutableModified
    else
      do! current := tx_get (is_executable b) in
      if Bool.eqb current value then tx_ret tt
      else
        do! _ := b_touch b in
        update_view b (view_set_executable value).

End borrowed.
