(* ===== verification/TxSafe.v ===== *)
(** What the transaction context guarantees: the books on lamports and on account growth are
    right, accounts are protected from programs that do not own them, the instruction stack is
    well nested, and borrows exclude each other. *)

From Stdlib Require Import ZArith Lia Bool.
From S2P Require Import Prelude.
From S2P Require Import TxAccounts.
From S2P Require Import TxContext.

#[local] Open Scope Z_scope.

(** ** Borrow counters *)

(** What is done to the counter of an account, with the references that are out. *)
Inductive BorrowEvent := BorrowShared | BorrowMut | ReleaseShared | ReleaseMut.

Record Borrows := mkBorrows { counter : Z; readers : Z; writers : Z }.

(** A release happens when a reference that is out is dropped. *)
Definition borrow_step (s : Borrows) (e : BorrowEvent) : Borrows :=
  match e with
  | BorrowShared =>
      match counter_try_borrow (counter s) with
      | Ok n => mkBorrows n (readers s + 1) (writers s)
      | Err _ => s
      end
  | BorrowMut =>
      match counter_try_borrow_mut (counter s) with
      | Ok n => mkBorrows n (readers s) (writers s + 1)
      | Err _ => s
      end
  | ReleaseShared =>
      if 0 <? readers s
      then mkBorrows (counter_release_borrow (counter s)) (readers s - 1) (writers s) else s
  | ReleaseMut =>
      if 0 <? writers s
      then mkBorrows (counter_release_borrow_mut (counter s)) (readers s) (writers s - 1) else s
  end.

Lemma borrow_step_inv s e :
  let ok s := (writers s = 0 /\ counter s = readers s /\ 0 <= readers s <= 127) \/
              (writers s = 1 /\ counter s = -1 /\ readers s = 0) in
  ok s -> ok (borrow_step s e).
Proof.
  intros ok Hs. unfold ok in *. clear ok. destruct s as [n r w]. cbn [counter readers writers] in Hs.
  destruct e; cbn [borrow_step counter readers writers];
    unfold counter_try_borrow, counter_try_borrow_mut, counter_release_borrow,
      counter_release_borrow_mut, is_writing, is_reading, clamp_i8;
    repeat match goal with |- context [if ?b then _ else _] => destruct b eqn:? end;
    cbn [counter readers writers]; try lia.
  all: rewrite ?orb_true_iff, ?orb_false_iff in *; lia.
Qed.

(** Borrows exclude each other. However references to an account are taken and dropped,
    there is never more than one mutable reference, never a mutable one next to shared ones,
    and the counter says which are out. *)
Theorem borrows_exclusive (events : list BorrowEvent) :
  let s := foldl borrow_step (mkBorrows 0 0 0) events in
  (writers s = 0 /\ counter s = readers s /\ 0 <= readers s <= 127) \/
  (writers s = 1 /\ counter s = -1 /\ readers s = 0).
Proof.
  intros s. unfold s. clear s.
  assert (forall s, (writers s = 0 /\ counter s = readers s /\ 0 <= readers s <= 127) \/
    (writers s = 1 /\ counter s = -1 /\ readers s = 0) ->
    let s' := foldl borrow_step s events in
    (writers s' = 0 /\ counter s' = readers s' /\ 0 <= readers s' <= 127) \/
    (writers s' = 1 /\ counter s' = -1 /\ readers s' = 0)) as H.
  { induction events as [|e events IH]; intros s Hs; cbn [foldl]; [exact Hs|].
    apply IH. by apply borrow_step_inv. }
  apply H. cbn. lia.
Qed.

(** ** Sums over the accounts *)

Definition zsum (l : list Z) : Z := foldr Z.add 0 l.

Lemma zsum_insert {A} (f : A -> Z) (l : list A) i x y :
  l !! i = Some x -> zsum (map f (<[i := y]> l)) = zsum (map f l) - f x + f y.
Proof.
  unfold zsum. revert i; induction l as [|z l IH]; intros [|i] H; try done.
  - injection H as ->. cbn. lia.
  - change (<[S i := y]> (z :: l)) with (z :: <[i := y]> l). cbn [map foldr].
    rewrite (IH i H). lia.
Qed.

Lemma zsum_bound {A} (f : A -> Z) (l : list A) m :
  Forall (fun x => 0 <= f x <= m) l -> 0 <= zsum (map f l) <= m * len l.
Proof.
  unfold len, zsum. induction 1 as [|x l Hx _ IH]; cbn [map foldr length]; [lia|].
  rewrite Nat2Z.inj_succ, Z.mul_succ_r. lia.
Qed.

Definition total_lamports (a : TransactionAccounts) : Z :=
  zsum (map account_lamports (shared_account_fields a)).
Definition total_data (a : TransactionAccounts) : Z :=
  zsum (map (fun p => len (payload p)) (private_account_fields a)).

(** The invariant of the accounts, for the lamports and the data they started with. *)
Record accounts_ok (lamports0 data0 : Z) (a : TransactionAccounts) : Prop := {
  ok_private : length (private_account_fields a) = length (shared_account_fields a);
  ok_counters : length (borrow_counters a) = length (shared_account_fields a);
  ok_touched : length (touched_flags a) = length (shared_account_fields a);
  ok_number : len (shared_account_fields a) <= MAX_ACCOUNTS_PER_TRANSACTION;
  ok_lamports : Forall (fun s => is_u64 (account_lamports s)) (shared_account_fields a);
  ok_data : Forall (fun p => 0 <= len (payload p) <= MAX_ACCOUNT_DATA_LEN) (private_account_fields a);
  ok_payload : Forall2 (fun s p => vs_len (account_payload s) = len (payload p))
    (shared_account_fields a) (private_account_fields a);
  ok_total_lamports : total_lamports a = lamports0 + lamports_delta a;
  ok_total_data : total_data a = data0 + resize_delta a;
  ok_data0 : 0 <= data0 <= MAX_ACCOUNT_DATA_LEN * MAX_ACCOUNTS_PER_TRANSACTION;
  ok_growth : resize_delta a <= MAX_ACCOUNT_DATA_GROWTH_PER_TRANSACTION
}.

Lemma resize_delta_bounds lamports0 data0 a :
  accounts_ok lamports0 data0 a -> - 2 ^ 40 <= resize_delta a <= 2 ^ 40.
Proof.
  intros H. pose proof (ok_total_data _ _ _ H). pose proof (ok_data0 _ _ _ H).
  pose proof (ok_growth _ _ _ H). pose proof (ok_private _ _ _ H). pose proof (ok_number _ _ _ H) as Hn.
  pose proof (zsum_bound (fun p => len (payload p)) _ _ (ok_data _ _ _ H)) as Hb.
  fold (total_data a) in Hb. unfold len in Hn, Hb.
  unfold MAX_ACCOUNT_DATA_GROWTH_PER_TRANSACTION, MAX_ACCOUNTS_PER_TRANSACTION, MAX_ACCOUNT_DATA_LEN in *.
  lia.
Qed.

(** ** The effect of an operation on a borrowed account *)

(** A change of an account from [v] to [v'], with the entries in the books. *)
Record change_ok (b : BorrowedInstructionAccount) (c : TransactionContext) (v v' : AccountView)
    (lamports_diff data_diff : Z) : Prop := {
  change_key : account_key_ (abi_account v') = account_key_ (abi_account v);
  change_writable : is_writable (instruction_account b) = true;
  change_owned : is_owned_by_current_program b c = true \/
    (view_data v' = view_data v /\ view_owner v' = view_owner v /\
     view_executable v' = view_executable v /\ view_lamports v <= view_lamports v');
  change_lamports : view_lamports v' = view_lamports v + lamports_diff;
  change_lamports_u64 : is_u64 (view_lamports v) -> is_u64 (view_lamports v');
  change_data : len (view_data v') = len (view_data v) + data_diff;
  change_len : data_diff = 0 \/
    (len (view_data v') <= MAX_ACCOUNT_DATA_LEN /\
     resize_delta (accounts c) + data_diff <= MAX_ACCOUNT_DATA_GROWTH_PER_TRANSACTION);
  change_payload : vs_len (account_payload (abi_account v)) = len (view_data v) ->
    vs_len (account_payload (abi_account v')) = len (view_data v')
}.

(** The context after such a change. *)
Definition changed (b : BorrowedInstructionAccount) (c : TransactionContext) (v' : AccountView)
    (lamports_diff data_diff : Z) : TransactionContext :=
  let a := accounts c in
  let i := get_index_in_transaction b in
  set_accounts (put_view i v'
    (set_lamports_delta (lamports_delta a + lamports_diff)
      (set_resize_delta (resize_delta a + data_diff)
        (set_touched_flags (<[Z.to_nat i := true]> (touched_flags a)) a)))) c.

Inductive op_effect (b : BorrowedInstructionAccount) (c : TransactionContext) : TransactionContext -> Prop :=
| effect_none : op_effect b c c
| effect_change v' lamports_diff data_diff :
    change_ok b c (account_view b c) v' lamports_diff data_diff ->
    op_effect b c (changed b c v' lamports_diff data_diff).

(** The operations of [BorrowedInstructionAccount] that change something. *)
Inductive AccountOp :=
| OpSetOwner (pubkey : Pubkey)
| OpSetLamports (lamports : Z)
| OpAddLamports (lamports : Z)
| OpSubLamports (lamports : Z)
| OpWriteData (bs : list Z)
| OpSetData (bs : list Z)
| OpSetDataLength (new_length : Z)
| OpExtend (bs : list Z)
| OpSetExecutable (value : bool).

(** Arguments of the types that the operations take. *)
Definition op_ok (op : AccountOp) : Prop :=
  match op with
  | OpSetLamports n | OpAddLamports n | OpSubLamports n | OpSetDataLength n => is_u64 n
  | OpSetData bs | OpExtend bs | OpWriteData bs => rust_len bs
  | _ => True
  end.

Definition run_op (is_exempt : Z -> Z -> bool) (b : BorrowedInstructionAccount) (op : AccountOp)
    : TxM unit :=
  match op with
  | OpSetOwner pubkey => set_owner b pubkey
  | OpSetLamports n => set_lamports b n
  | OpAddLamports n => checked_add_lamports b n
  | OpSubLamports n => checked_sub_lamports b n
  | OpWriteData bs => write_data b bs
  | OpSetData bs => set_data_from_slice b bs
  | OpSetDataLength n => set_data_length b n
  | OpExtend bs => extend_from_slice b bs
  | OpSetExecutable value => set_executable is_exempt b value
  end.

(** The account is in the transaction. *)
Definition in_range (b : BorrowedInstructionAccount) (c : TransactionContext) : Prop :=
  (Z.to_nat (get_index_in_transaction b) < length (shared_account_fields (accounts c)))%nat.

Section effect.
Context (is_exempt : Z -> Z -> bool) (lamports0 data0 : Z).
Implicit Types (b : BorrowedInstructionAccount) (c : TransactionContext).

Lemma touch_effect b c :
  accounts_ok lamports0 data0 (accounts c) -> in_range b c ->
  b_touch b c = (set_accounts (set_touched_flags
    (<[Z.to_nat (get_index_in_transaction b) := true]> (touched_flags (accounts c))) (accounts c)) c, Ok tt).
Proof.
  intros H Hr. unfold b_touch, on_accounts, touch.
  destruct (lookup_lt_is_Some_2 (touched_flags (accounts c)) (Z.to_nat (get_index_in_transaction b)))
    as [x ->]; [|done]. rewrite (ok_touched _ _ _ H). exact Hr.
Qed.

Lemma set_touched_id a : set_lamports_delta (lamports_delta a + 0)
  (set_resize_delta (resize_delta a + 0) a) = a.
Proof. destruct a. unfold set_lamports_delta, set_resize_delta. cbn. by rewrite !Z.add_0_r. Qed.

(** Touching and updating is a change without entries in the books. *)
Lemma touch_update_effect b c f c' r :
  accounts_ok lamports0 data0 (accounts c) -> in_range b c ->
  (do! _ := b_touch b in update_view b f) c = (c', r) ->
  c' = changed b c (f (account_view b c)) 0 0.
Proof.
  intros H Hr E. unfold tx_bind in E. rewrite touch_effect in E by done.
  unfold update_view, tx_modify in E. injection E as <- _.
  unfold changed, account_view. destruct c as [[] ? ? ? ? ? ? ? ? ? ?]. cbn. by rewrite !Z.add_0_r.
Qed.

Lemma set_owner_effect b k c c' r :
  accounts_ok lamports0 data0 (accounts c) -> in_range b c ->
  set_owner b k c = (c', r) -> op_effect b c c'.
Proof.
  intros H Hr E. unfold set_owner in E. unfold tx_bind at 1, tx_get at 1 in E.
  destruct (is_owned_by_current_program b c) eqn:Eo; cbn [negb] in E; [|injection E as <- _; constructor].
  destruct (is_writable _) eqn:Ew; cbn [negb] in E; [|injection E as <- _; constructor].
  unfold tx_bind at 1, tx_get at 1 in E.
  destruct (negb (is_zeroed _)); [injection E as <- _; constructor|].
  unfold tx_bind at 1, tx_get at 1 in E.
  case_bool_decide; [injection E as <- _; constructor|].
  apply touch_update_effect in E as ->; [|done..]. apply effect_change.
  split; [done|done|by left|symmetry; apply Z.add_0_r|done|symmetry; apply Z.add_0_r|by left|done].
Qed.

Lemma set_executable_effect b x c c' r :
  accounts_ok lamports0 data0 (accounts c) -> in_range b c ->
  set_executable is_exempt b x c = (c', r) -> op_effect b c c'.
Proof.
  intros H Hr E. unfold set_executable in E. unfold tx_bind at 1, tx_get at 1 in E.
  destruct (negb (is_exempt _ _)); [injection E as <- _; constructor|].
  unfold tx_bind at 1, tx_get at 1 in E.
  destruct (is_owned_by_current_program b c) eqn:Eo; cbn [negb] in E; [|injection E as <- _; constructor].
  destruct (is_writable _) eqn:Ew; cbn [negb] in E; [|injection E as <- _; constructor].
  unfold tx_bind at 1, tx_get at 1 in E.
  destruct (Bool.eqb _ _); [injection E as <- _; constructor|].
  apply touch_update_effect in E as ->; [|done..]. apply effect_change.
  split; [done|done|by left|symmetry; apply Z.add_0_r|done|symmetry; apply Z.add_0_r|by left|done].
Qed.

Lemma get_lamports_u64 b c :
  accounts_ok lamports0 data0 (accounts c) -> in_range b c -> is_u64 (get_lamports b c).
Proof.
  intros H Hr. destruct (lookup_lt_is_Some_2 _ _ Hr) as [s Es].
  change (is_u64 (account_lamports
    (shared_account_fields (accounts c) !!! Z.to_nat (get_index_in_transaction b)))).
  rewrite (list_lookup_total_correct _ _ _ Es).
  exact (Forall_lookup_1 _ _ _ _ (ok_lamports _ _ _ H) Es).
Qed.

Lemma set_lamports_effect b n c c' r :
  accounts_ok lamports0 data0 (accounts c) -> in_range b c -> is_u64 n ->
  set_lamports b n c = (c', r) -> op_effect b c c'.
Proof.
  intros H Hr Hn E. unfold set_lamports in E. unfold tx_bind at 1, tx_get at 1 in E.
  unfold tx_bind at 1, tx_get at 1 in E.
  destruct (negb (is_owned_by_current_program b c) && (n <? get_lamports b c)) eqn:Eo;
    [injection E as <- _; constructor|].
  destruct (is_writable _) eqn:Ew; cbn [negb] in E; [|injection E as <- _; constructor].
  destruct (get_lamports b c =? n) eqn:En; [injection E as <- _; constructor|].
  pose proof (get_lamports_u64 b c H Hr) as Hold.
  assert (clamp_i128 (n - get_lamports b c) = n - get_lamports b c) as Ed.
  { unfold clamp_i128. int_lia. }
  cbv zeta in E. rewrite Ed in E. set (d := n - get_lamports b c) in *.
  unfold tx_bind at 1, on_accounts at 1, add_lamports_delta, checked_add_i128 in E.
  destruct ((- 2 ^ 127 <=? lamports_delta (accounts c) + d) && _);
    [|injection E as <- _; destruct c; constructor].
  set (c1 := set_accounts _ c) in E.
  assert (b_touch b c1 = (set_accounts (set_touched_flags
    (<[Z.to_nat (get_index_in_transaction b) := true]> (touched_flags (accounts c1))) (accounts c1)) c1,
    Ok tt)) as Et.
  { unfold b_touch, on_accounts, touch. cbn [c1 set_accounts accounts set_lamports_delta touched_flags].
    destruct (lookup_lt_is_Some_2 (touched_flags (accounts c)) (Z.to_nat (get_index_in_transaction b)))
      as [x ->]; [|done]. rewrite (ok_touched _ _ _ H). exact Hr. }
  unfold tx_bind in E. rewrite Et in E. unfold update_view, tx_modify in E. injection E as <- _.
  replace (set_accounts _ _) with (changed b c (view_set_lamports n (account_view b c)) d 0).
  2: { unfold c1, changed, account_view. destruct c as [[] ? ? ? ? ? ? ? ? ? ?]. cbn. by rewrite Z.add_0_r. }
  apply effect_change. split;
    [done|done| |unfold d, get_lamports; cbn [view_set_lamports view_lamports abi_account account_lamports]; lia
    |done|symmetry; apply Z.add_0_r|by left|done].
  destruct (is_owned_by_current_program b c); [by left|]. right. cbn [negb andb] in Eo. bool_to_prop.
  by cbn.
Qed.

Lemma checked_add_effect b n c c' r :
  accounts_ok lamports0 data0 (accounts c) -> in_range b c -> is_u64 n ->
  checked_add_lamports b n c = (c', r) -> op_effect b c c'.
Proof.
  intros H Hr Hn E. unfold checked_add_lamports in E. unfold tx_bind at 1, tx_get at 1 in E.
  unfold checked_add in E. destruct (Z.leb_spec (get_lamports b c + n) u64_MAX) as [Hle|];
    [|injection E as <- _; constructor].
  apply (set_lamports_effect b (get_lamports b c + n) c c' r); try done.
  pose proof (get_lamports_u64 b c H Hr). int_lia.
Qed.

Lemma checked_sub_effect b n c c' r :
  accounts_ok lamports0 data0 (accounts c) -> in_range b c -> is_u64 n ->
  checked_sub_lamports b n c = (c', r) -> op_effect b c c'.
Proof.
  intros H Hr Hn E. unfold checked_sub_lamports in E. unfold tx_bind at 1, tx_get at 1 in E.
  destruct (Z.ltb_spec (get_lamports b c) n) as [|Hle]; [injection E as <- _; constructor|].
  apply (set_lamports_effect b (get_lamports b c - n) c c' r); try done.
  pose proof (get_lamports_u64 b c H Hr). int_lia.
Qed.

Lemma data_len_bounds b c :
  accounts_ok lamports0 data0 (accounts c) -> in_range b c ->
  0 <= len (get_data b c) <= MAX_ACCOUNT_DATA_LEN.
Proof.
  intros H Hr. unfold in_range in Hr. rewrite <- (ok_private _ _ _ H) in Hr.
  destruct (lookup_lt_is_Some_2 _ _ Hr) as [p Ep].
  change (0 <= len (payload
    (private_account_fields (accounts c) !!! Z.to_nat (get_index_in_transaction b))) <= MAX_ACCOUNT_DATA_LEN).
  rewrite (list_lookup_total_correct _ _ _ Ep).
  exact (Forall_lookup_1 _ _ _ _ (ok_data _ _ _ H) Ep).
Qed.

(** What a successful check for a resize establishes. *)
Lemma can_data_be_resized_ok b n c :
  accounts_ok lamports0 data0 (accounts c) -> in_range b c -> 0 <= n ->
  can_data_be_resized b n c = Ok tt ->
  is_writable (instruction_account b) = true /\ is_owned_by_current_program b c = true /\
  n <= MAX_ACCOUNT_DATA_LEN /\
  resize_delta (accounts c) + (n - len (get_data b c)) <= MAX_ACCOUNT_DATA_GROWTH_PER_TRANSACTION.
Proof.
  intros H Hr Hn. unfold can_data_be_resized. destruct (negb _ && _); [done|].
  unfold accounts_can_data_be_resized, can_data_be_changed.
  destruct (Z.ltb_spec MAX_ACCOUNT_DATA_LEN n) as [|Hmax]; [done|].
  destruct (Z.ltb_spec MAX_ACCOUNT_DATA_GROWTH_PER_TRANSACTION
    (saturating_add_i64 (resize_delta (accounts c))
      (saturating_sub_i64 (as_i64 n) (as_i64 (len (get_data b c)))))) as [|Hg]; [done|].
  destruct (is_writable _); [|done]. destruct (is_owned_by_current_program b c); [|done].
  intros _. split; [done|]. split; [done|]. split; [done|].
  pose proof (resize_delta_bounds _ _ _ H). pose proof (data_len_bounds b c H Hr) as Hd.
  revert Hg. unfold MAX_ACCOUNT_DATA_GROWTH_PER_TRANSACTION, MAX_ACCOUNT_DATA_LEN in *.
  rewrite !cast_s_id by (unfold is_s; lia). unfold saturating_add_i64, saturating_sub_i64, clamp_i64. lia.
Qed.

Lemma update_resize_effect b n c :
  accounts_ok lamports0 data0 (accounts c) -> in_range b c -> 0 <= n <= MAX_ACCOUNT_DATA_LEN ->
  (do! _ := b_touch b in update_accounts_resize_delta b n) c =
  (set_accounts (set_resize_delta (resize_delta (accounts c) + (n - len (get_data b c)))
    (set_touched_flags (<[Z.to_nat (get_index_in_transaction b) := true]> (touched_flags (accounts c)))
      (accounts c))) c, Ok tt).
Proof.
  intros H Hr Hn. unfold tx_bind. rewrite touch_effect by done.
  unfold update_accounts_resize_delta, on_accounts, accounts_update_resize_delta.
  pose proof (resize_delta_bounds _ _ _ H). pose proof (data_len_bounds b c H Hr) as Hd.
  set (c1 := set_accounts _ c). change (get_data b c1) with (get_data b c).
  unfold MAX_ACCOUNT_DATA_LEN in *. rewrite !cast_s_id by (unfold is_s; lia).
  replace (saturating_add_i64 _ _) with (resize_delta (accounts c) + (n - len (get_data b c))).
  - by unfold c1; destruct c.
  - unfold saturating_add_i64, saturating_sub_i64, clamp_i64. cbn [c1 set_accounts accounts set_touched_flags resize_delta]. lia.
Qed.

(** Unsharing the payload first makes no difference to an update that replaces it. *)
Lemma make_data_mut_update b f c :
  length (private_account_fields (accounts c)) = length (shared_account_fields (accounts c)) ->
  in_range b c -> (forall v, f (view_reserve v) = f v) ->
  (do! _ := make_data_mut b in update_view b f) c = update_view b f c.
Proof.
  intros Hp Hr Hf. unfold make_data_mut, tx_bind, tx_get. destruct (is_shared b c); [|done].
  unfold update_view, tx_modify. f_equal. unfold account_view. destruct c as [[] ? ? ? ? ? ? ? ? ? ?].
  unfold in_range in Hr. unfold set_accounts, put_view, get_view in *. cbn in *.
  rewrite !list_insert_insert_eq, !list_lookup_total_insert_eq by lia.
  match goal with |- context [mkAccountView (?s !!! ?i) (?p !!! ?i)] =>
    specialize (Hf (mkAccountView (s !!! i) (p !!! i))) end.
  unfold view_reserve, with_payload in Hf. cbn in Hf. by rewrite Hf.
Qed.

Lemma set_data_from_slice_effect b bs c c' r :
  accounts_ok lamports0 data0 (accounts c) -> in_range b c ->
  set_data_from_slice b bs c = (c', r) -> op_effect b c c'.
Proof.
  intros H Hr E. unfold set_data_from_slice in E. unfold tx_bind at 1, tx_lift at 1 in E.
  destruct (can_data_be_resized b (len bs) c) as [[]|] eqn:Er; [|injection E as <- _; constructor].
  apply can_data_be_resized_ok in Er as (Hw & Ho & Hmax & Hg); [|done|done|apply len_nonneg].
  pose proof (update_resize_effect b (len bs) c H Hr ltac:(pose proof (len_nonneg bs); lia)) as Eu.
  unfold tx_bind in E, Eu. rewrite touch_effect in E, Eu by done. rewrite Eu in E.
  unfold update_view, tx_modify in E. injection E as <- _.
  replace (set_accounts _ _) with
    (changed b c (view_set_data_from_slice bs (account_view b c)) 0 (len bs - len (get_data b c))).
  2: { unfold changed, account_view. destruct c as [[] ? ? ? ? ? ? ? ? ? ?]. cbn. by rewrite Z.add_0_r. }
  apply effect_change. split; [done|done|by left|symmetry; apply Z.add_0_r|done| |by right|done].
  change (len bs = len (get_data b c) + (len bs - len (get_data b c))). lia.
Qed.

Lemma vec_resize_len bs n : 0 <= n -> len (vec_resize bs n 0) = n.
Proof. intros Hn. unfold vec_resize, len. rewrite length_app, length_take, length_replicate. lia. Qed.

Lemma set_data_length_effect b n c c' r :
  accounts_ok lamports0 data0 (accounts c) -> in_range b c -> 0 <= n ->
  set_data_length b n c = (c', r) -> op_effect b c c'.
Proof.
  intros H Hr Hn E. unfold set_data_length in E. unfold tx_bind at 1, tx_lift at 1 in E.
  destruct (can_data_be_resized b n c) as [[]|] eqn:Er; [|injection E as <- _; constructor].
  apply can_data_be_resized_ok in Er as (Hw & Ho & Hmax & Hg); [|done..].
  unfold tx_bind at 1, tx_get at 1 in E. destruct (_ =? n); [injection E as <- _; constructor|].
  pose proof (update_resize_effect b n c H Hr (conj Hn Hmax)) as Eu.
  unfold tx_bind in E, Eu. rewrite touch_effect in E, Eu by done. rewrite Eu in E.
  unfold update_view, tx_modify in E. injection E as <- _.
  replace (set_accounts _ _) with
    (changed b c (view_resize n 0 (account_view b c)) 0 (n - len (get_data b c))).
  2: { unfold changed, account_view. destruct c as [[] ? ? ? ? ? ? ? ? ? ?]. cbn. by rewrite Z.add_0_r. }
  assert (len (view_data (view_resize n 0 (account_view b c))) = n) as El by by apply vec_resize_len.
  apply effect_change. split; [done|done|by left|symmetry; apply Z.add_0_r|done| | |].
  - rewrite El. unfold get_data. lia.
  - right. by rewrite El.
  - by rewrite El.
Qed.

Lemma extend_from_slice_effect b bs c c' r :
  accounts_ok lamports0 data0 (accounts c) -> in_range b c -> rust_len bs ->
  extend_from_slice b bs c = (c', r) -> op_effect b c c'.
Proof.
  intros H Hr Hb E. unfold extend_from_slice in E. unfold tx_bind at 1, tx_get at 1 in E.
  pose proof (data_len_bounds b c H Hr) as Hd. pose proof (len_nonneg bs).
  assert (saturating_add (len (get_data b c)) (len bs) = len (get_data b c ++ bs)) as En.
  { rewrite len_app. unfold rust_len, MAX_ACCOUNT_DATA_LEN, saturating_add in *. lia. }
  cbv zeta in E. rewrite En in E. unfold tx_bind at 1, tx_lift at 1 in E.
  destruct (can_data_be_resized b _ c) as [[]|] eqn:Er; [|injection E as <- _; constructor].
  apply can_data_be_resized_ok in Er as (Hw & Ho & Hmax & Hg); [|done..|apply len_nonneg].
  destruct (is_nil bs); [injection E as <- _; constructor|].
  pose proof (update_resize_effect b _ c H Hr (conj (len_nonneg _) Hmax)) as Eu.
  unfold tx_bind at 1 in E. unfold tx_bind at 1 in E. unfold tx_bind in Eu.
  rewrite touch_effect in E, Eu by done. rewrite Eu in E.
  set (c1 := set_accounts _ _) in E.
  rewrite make_data_mut_update in E; [|apply (ok_private _ _ _ H)|exact Hr|done].
  unfold update_view, tx_modify in E. injection E as <- _.
  replace (set_accounts _ _) with (changed b c (view_extend_from_slice bs (account_view b c)) 0
    (len (get_data b c ++ bs) - len (get_data b c))).
  2: { unfold c1, changed, account_view. destruct c as [[] ? ? ? ? ? ? ? ? ? ?]. cbn. by rewrite Z.add_0_r. }
  apply effect_change. split; [done|done|by left|symmetry; apply Z.add_0_r|done| |by right|done].
  change (len (get_data b c ++ bs) = len (get_data b c) + (len (get_data b c ++ bs) - len (get_data b c))).
  lia.
Qed.

Lemma write_data_effect b bs c c' r :
  accounts_ok lamports0 data0 (accounts c) -> in_range b c ->
  write_data b bs c = (c', r) -> op_effect b c c'.
Proof.
  intros H Hr E. unfold write_data, get_data_mut in E. unfold tx_bind at 2, tx_lift in E.
  unfold tx_bind at 1, can_data_be_changed in E.
  destruct (is_writable _) eqn:Ew; cbn [negb] in E; [|injection E as <- _; constructor].
  destruct (is_owned_by_current_program b c) eqn:Eo; cbn [negb] in E; [|injection E as <- _; constructor].
  unfold tx_bind at 1 in E. rewrite touch_effect in E by done. set (c1 := set_accounts _ c) in E.
  rewrite make_data_mut_update in E; [|apply (ok_private _ _ _ H)|exact Hr|done].
  unfold update_view, tx_modify in E. injection E as <- _.
  set (f v := if (length bs =? length (view_data v))%nat then view_write_data bs v
    else view_write_data (view_data v) v).
  replace (set_accounts _ _) with (changed b c (f (account_view b c)) 0 0).
  2: { unfold c1, changed, account_view, f. pose proof (ok_private _ _ _ H) as Hp. unfold in_range in Hr.
       destruct c as [[] ? ? ? ? ? ? ? ? ? ?]. unfold set_accounts, put_view, get_view in *. cbn in *.
       rewrite !Z.add_0_r, !list_insert_insert_eq, !list_lookup_total_insert_eq by lia.
       cbn. by destruct (_ =? _)%nat. }
  apply effect_change. unfold f. destruct (Nat.eqb_spec (length bs) (length (view_data (account_view b c)))) as [El|].
  - split; [done|done|by left|symmetry; apply Z.add_0_r|done| |by left|].
    + change (len bs = len (view_data (account_view b c)) + 0). unfold len. lia.
    + intros Hv. change (vs_len (account_payload (abi_account (account_view b c))) = len bs).
      rewrite Hv. unfold len. lia.
  - split; [done|done|by left|symmetry; apply Z.add_0_r|done|symmetry; apply Z.add_0_r|by left|done].
Qed.

Lemma run_op_effect b op c c' r :
  accounts_ok lamports0 data0 (accounts c) -> in_range b c -> op_ok op ->
  run_op is_exempt b op c = (c', r) -> op_effect b c c'.
Proof.
  intros H Hr Hop E. destruct op; cbn [run_op op_ok] in *.
  - by eapply set_owner_effect.
  - by eapply set_lamports_effect.
  - by eapply checked_add_effect.
  - by eapply checked_sub_effect.
  - by eapply write_data_effect.
  - by eapply set_data_from_slice_effect.
  - eapply set_data_length_effect; [done..|apply Hop|exact E].
  - by eapply extend_from_slice_effect.
  - by eapply set_executable_effect.
Qed.

End effect.

(** ** The books are kept *)

Section books.
Context (lamports0 data0 : Z).
Implicit Types (a : TransactionAccounts) (c : TransactionContext).

Abbreviation ok := (accounts_ok lamports0 data0).

(** Replacing one account, with the entries in the books that this calls for. *)
Lemma replace_account_ok a index v' counters touched lamports_diff data_diff :
  let i := Z.to_nat index in
  let v := get_view a index in
  ok a -> (i < length (shared_account_fields a))%nat ->
  length counters = length (borrow_counters a) -> length touched = length (touched_flags a) ->
  view_lamports v' = view_lamports v + lamports_diff -> is_u64 (view_lamports v') ->
  len (view_data v') = len (view_data v) + data_diff ->
  (data_diff = 0 \/ (len (view_data v') <= MAX_ACCOUNT_DATA_LEN /\
     resize_delta a + data_diff <= MAX_ACCOUNT_DATA_GROWTH_PER_TRANSACTION)) ->
  vs_len (account_payload (abi_account v')) = len (view_data v') ->
  ok (mkTransactionAccounts (<[i := abi_account v']> (shared_account_fields a))
        (<[i := private_fields v']> (private_account_fields a)) counters touched
        (resize_delta a + data_diff) (lamports_delta a + lamports_diff)).
Proof.
  intros i v H Hi Hc Ht El Hu Ed Hd Hv.
  pose proof (data_len_ok := ok_data _ _ _ H).
  destruct (lookup_lt_is_Some_2 _ _ Hi) as [s Es].
  destruct (lookup_lt_is_Some_2 (private_account_fields a) i) as [p Ep];
    [rewrite (ok_private _ _ _ H); exact Hi|].
  assert (v = mkAccountView s p) as Ev.
  { unfold v, get_view. fold i.
    by rewrite (list_lookup_total_correct _ _ _ Es), (list_lookup_total_correct _ _ _ Ep). }
  rewrite Ev in El, Ed. clear Ev v.
  pose proof (Forall_lookup_1 _ _ _ _ data_len_ok Ep) as Hp. cbn beta in Hp.
  unfold view_data, view_lamports in *. cbn [abi_account private_fields] in *.
  pose proof (len_nonneg (payload (private_fields v'))). destruct H as [H1 H2 H3 H4 H5 H6 H7 H8 H9 H10 H11].
  split; cbn; rewrite ?length_insert; try congruence.
  - unfold len in *. by rewrite length_insert.
  - by apply Forall_insert.
  - apply Forall_insert; [done|]. lia.
  - by apply Forall2_insert.
  - unfold total_lamports. cbn. rewrite (zsum_insert _ _ _ _ _ Es).
    fold (total_lamports a). lia.
  - unfold total_data. cbn. rewrite (zsum_insert _ _ _ _ _ Ep).
    fold (total_data a). lia.
  - lia.
Qed.

Lemma get_view_payload a index :
  ok a -> (Z.to_nat index < length (shared_account_fields a))%nat ->
  vs_len (account_payload (abi_account (get_view a index))) = len (view_data (get_view a index)) /\
  is_u64 (view_lamports (get_view a index)).
Proof.
  intros H Hi. destruct (lookup_lt_is_Some_2 _ _ Hi) as [s Es].
  destruct (lookup_lt_is_Some_2 (private_account_fields a) (Z.to_nat index)) as [p Ep];
    [rewrite (ok_private _ _ _ H); exact Hi|].
  unfold get_view, view_data, view_lamports. cbn.
  rewrite (list_lookup_total_correct _ _ _ Es), (list_lookup_total_correct _ _ _ Ep). split.
  - exact (Forall2_lookup_lr _ _ _ _ _ _ (ok_payload _ _ _ H) Es Ep).
  - exact (Forall_lookup_1 _ _ _ _ (ok_lamports _ _ _ H) Es).
Qed.

Lemma op_effect_ok b c c' :
  ok (accounts c) -> in_range b c -> op_effect b c c' -> ok (accounts c').
Proof.
  intros H Hr [|v' dl dd [_ _ _ El Hu Ed Hd Hv]]; [done|].
  destruct (get_view_payload (accounts c) (get_index_in_transaction b) H Hr) as [Hp Hu0].
  apply (replace_account_ok (accounts c) (get_index_in_transaction b) v' (borrow_counters (accounts c))
    (<[Z.to_nat (get_index_in_transaction b) := true]> (touched_flags (accounts c))) dl dd); auto.
  apply length_insert.
Qed.

(** Changing the counters only. *)
Lemma counters_ok a l :
  ok a -> length l = length (borrow_counters a) -> ok (set_borrow_counters l a).
Proof. intros [] Hl. split; cbn; try done. by rewrite Hl. Qed.

Lemma try_borrow_mut_ok a index : ok a -> ok (accounts_try_borrow_mut a index).1.
Proof.
  intros H. unfold accounts_try_borrow_mut. destruct (_ !! _); [|done].
  destruct (counter_try_borrow_mut _); [|done]. apply counters_ok; [done|]. apply length_insert.
Qed.

Lemma try_borrow_mut_range a index v :
  ok a -> (accounts_try_borrow_mut a index).2 = Ok v ->
  (Z.to_nat index < length (shared_account_fields a))%nat /\ v = get_view a index.
Proof.
  intros H. unfold accounts_try_borrow_mut. destruct (_ !! _) eqn:E; [|done].
  destruct (counter_try_borrow_mut _); [|done]. intros [= <-].
  apply lookup_lt_Some in E. rewrite (ok_counters _ _ _ H) in E. done.
Qed.

Lemma put_view_ok a index v' :
  ok a -> (Z.to_nat index < length (shared_account_fields a))%nat ->
  view_lamports v' = view_lamports (get_view a index) ->
  len (view_data v') = len (view_data (get_view a index)) ->
  vs_len (account_payload (abi_account v')) = len (view_data v') ->
  ok (put_view index v' a).
Proof.
  intros H Hi El Ed Hv. destruct (get_view_payload a index H Hi) as [_ Hu].
  pose proof (replace_account_ok a index v' (borrow_counters a) (touched_flags a) 0 0 H Hi
    eq_refl eq_refl) as Hr.
  rewrite !Z.add_0_r in Hr. apply Hr; try done; [by rewrite El|by left].
Qed.

Lemma drop_ref_mut_ok a index :
  ok a -> (Z.to_nat index < length (shared_account_fields a))%nat -> ok (drop_ref_mut a index).
Proof.
  intros H Hi. unfold drop_ref_mut. apply counters_ok; [|apply length_alter].
  by apply put_view_ok.
Qed.

End books.

(** ** The life of a context *)

(** What the code relies on in [store_current_index_checked]: it writes into the data of the
    account and does not change its length. *)
Class StoreIndexLaw (store : list Z -> Z -> Result (list Z) InstructionError) : Prop :=
  store_index_length data index bs : store data index = Ok bs -> length bs = length data.

(** The account of the handle is mutably borrowed. *)
Definition held (b : BorrowedInstructionAccount) (c : TransactionContext) : Prop :=
  borrow_counters (accounts c) !! Z.to_nat (get_index_in_transaction b) = Some (-1).

Section life.
Context (is_exempt : Z -> Z -> bool) (instructions_id sysvar_id : Pubkey).
Context (store : list Z -> Z -> Result (list Z) InstructionError).
Context `{!StoreIndexLaw store}.

(** What can happen to the accounts while an instruction runs: they are borrowed and given
    back, and operations run on borrowed accounts, whether they succeed or fail. *)
Inductive account_step : TransactionContext -> TransactionContext -> Prop :=
| step_borrow ic k c c' r : try_borrow_instruction_account ic k c = (c', r) -> account_step c c'
| step_op b op c c' r :
    held b c -> op_ok op -> run_op is_exempt b op c = (c', r) -> account_step c c'
| step_drop b c : held b c -> account_step c (drop_borrowed b c)
| step_return_data key data c c' r : set_return_data key data c = (c', r) -> account_step c c'.

(** What can happen to a context: instructions are configured, pushed and popped, and run. *)
Inductive tx_step : TransactionContext -> TransactionContext -> Prop :=
| step_configure program ias map data caller c c' r :
    configure_next_instruction program ias map data caller c = (c', r) -> tx_step c c'
| step_push c c' r : tx_push instructions_id sysvar_id store c = (c', r) -> tx_step c c'
| step_pop c c' r : tx_pop c = (c', r) -> tx_step c c'
| step_account c c' : account_step c c' -> tx_step c c'.

(** The instructions on the stack, by their depth: each has a configured frame in the trace
    with its depth as nesting level. *)
Definition stack_ok (c : TransactionContext) : Prop :=
  forall i index, instruction_stack c !! i = Some index ->
    0 <= index /\ index + 1 < len (instruction_trace c) /\
    exists f, instruction_trace c !! Z.to_nat index = Some f /\ nesting_level f = Z.of_nat i.

Record context_ok (lamports0 data0 : Z) (c : TransactionContext) : Prop := {
  ctx_accounts : accounts_ok lamports0 data0 (accounts c);
  ctx_stack : stack_ok c;
  ctx_height : len (instruction_stack c) <= instruction_stack_capacity c;
  ctx_trace : 1 <= len (instruction_trace c) <= instruction_trace_capacity c + 1;
  ctx_capacity : instruction_stack_capacity c <= u16_MAX
}.

(** The parts of a context that the account operations leave alone. *)
Definition same_stack (c c' : TransactionContext) : Prop :=
  instruction_stack c' = instruction_stack c /\ instruction_trace c' = instruction_trace c /\
  instruction_stack_capacity c' = instruction_stack_capacity c /\
  instruction_trace_capacity c' = instruction_trace_capacity c.

Lemma context_ok_accounts l0 d0 c c' :
  context_ok l0 d0 c -> same_stack c c' -> accounts_ok l0 d0 (accounts c') -> context_ok l0 d0 c'.
Proof.
  intros [H1 H2 H3 H4 H5] (E1 & E2 & E3 & E4) Ha.
  split; [done|unfold stack_ok in *; rewrite E1, E2; done|..]; rewrite ?E1, ?E2, ?E3, ?E4; done.
Qed.

(** An update of the last frame does not touch the frames on the stack. *)
Lemma stack_ok_last c c' f extra :
  stack_ok c -> instruction_stack c' = instruction_stack c ->
  instruction_trace c' = removelast (instruction_trace c) ++ f :: extra ->
  len (instruction_trace c) <= len (instruction_trace c') -> stack_ok c'.
Proof.
  intros H E1 E2 Hl i index Hi. rewrite E1 in Hi. destruct (H i index Hi) as (H1 & H2 & g & Hg & Hn).
  split; [done|]. split; [lia|]. exists g. split; [|done]. rewrite E2.
  destruct (instruction_trace c) as [|x l] eqn:Et using rev_ind; [done|]. clear IHl.
  rewrite removelast_last. unfold len in H2. rewrite length_app in H2. cbn in H2.
  rewrite lookup_app_l in Hg by lia. by rewrite lookup_app_l by lia.
Qed.

Lemma removelast_length {A} (l : list A) x y extra :
  last l = Some x -> len (removelast l ++ y :: extra) = len l + len extra.
Proof.
  destruct l as [|z l _] using rev_ind; [done|]. intros _. rewrite removelast_last.
  unfold len. rewrite !length_app. cbn. lia.
Qed.

Lemma store_current_index_ok l0 d0 c :
  accounts_ok l0 d0 (accounts c) ->
  accounts_ok l0 d0 (accounts (store_current_index instructions_id sysvar_id store c).1) /\
  same_stack c (store_current_index instructions_id sysvar_id store c).1.
Proof.
  intros H. unfold store_current_index. destruct (find_index_of_account _ _) as [index|]; [|done].
  pose proof (try_borrow_mut_ok l0 d0 (accounts c) index H) as Hb.
  pose proof (fun v => try_borrow_mut_range l0 d0 (accounts c) index v H) as Hv.
  assert (shared_account_fields (accounts_try_borrow_mut (accounts c) index).1 =
      shared_account_fields (accounts c) /\
    get_view (accounts_try_borrow_mut (accounts c) index).1 index = get_view (accounts c) index) as [Es Eg].
  { unfold accounts_try_borrow_mut. destruct (_ !! _); [|done]. by destruct (counter_try_borrow_mut _). }
  destruct (accounts_try_borrow_mut (accounts c) index) as [a [v|e]]; cbn in Hb, Hv, Es, Eg; [|done].
  destruct (Hv v eq_refl) as [Hi ->]. rewrite <- Es in Hi. rewrite <- Eg in *.
  destruct (get_view_payload l0 d0 a index Hb Hi) as [Hp _].
  destruct (negb _); [by split; [apply drop_ref_mut_ok|]|].
  assert (forall bs, length bs = length (view_data (get_view a index)) ->
    accounts_ok l0 d0 (drop_ref_mut (put_view index
      (view_write_data bs (get_view a index)) a) index)) as Hw.
  { intros bs El. apply drop_ref_mut_ok.
    - apply put_view_ok; [done|done|done| |]; cbn; unfold len; [by rewrite El|].
      rewrite El. exact Hp.
    - cbn. by rewrite length_insert. }
  destruct (store _ _) as [bs|e] eqn:Est.
  - split; [|done]. cbn [fst accounts set_accounts]. apply (Hw bs).
    by apply store_index_length in Est.
  - split; [|done]. by apply (Hw (view_data (get_view a index))).
Qed.

Lemma configure_ok l0 d0 program ias map data caller c :
  context_ok l0 d0 c ->
  context_ok l0 d0 (configure_next_instruction program ias map data caller c).1.
Proof.
  intros [H1 H2 H3 H4 H5]. unfold configure_next_instruction.
  destruct (last (instruction_trace c)) as [f|] eqn:El; [|done]. cbn [fst].
  match goal with |- context_ok _ _ (set_configured _ _ _ (set_frame ?tf (set_trace (_ ++ [?g]) c))) =>
    pose proof (removelast_length _ _ g [] El) as Hl end.
  change (len []) with 0 in Hl. rewrite Z.add_0_r in Hl.
  split; [exact H1| |exact H3| |exact H5].
  - eapply (stack_ok_last c); [exact H2|done|done|]. cbn. rewrite Hl. lia.
  - cbn. rewrite Hl. exact H4.
Qed.

Lemma push_ok l0 d0 c :
  context_ok l0 d0 c -> context_ok l0 d0 (tx_push instructions_id sysvar_id store c).1.
Proof.
  intros H. pose proof H as [H1 H2 H3 H4 H5]. unfold tx_push. destruct (_ && _); [done|].
  unfold tx_bind at 1, on_last_frame. destruct (last (instruction_trace c)) as [f|] eqn:El; [|done].
  set (g := mkInstructionFrame _ _ _ _ _). set (c1 := set_trace _ c).
  assert (len (instruction_trace c1) = len (instruction_trace c)) as Hl1.
  { pose proof (removelast_length _ _ g [] El) as Hl. change (len []) with 0 in Hl.
    rewrite Z.add_0_r in Hl. exact Hl. }
  assert (context_ok l0 d0 c1) as Hc1.
  { split; [exact H1| |exact H3|by rewrite Hl1|exact H5].
    eapply (stack_ok_last c); [exact H2|done|done|]. rewrite Hl1. lia. }
  unfold tx_bind at 1, tx_get at 1. unfold tx_bind at 1, tx_get at 1.
  destruct (Z.leb_spec (instruction_trace_capacity c1) (get_instruction_trace_length c1)) as [|Hcap]; [done|].
  unfold tx_bind at 1, tx_modify at 1. set (c2 := set_trace _ c1).
  assert (len (instruction_trace c2) = len (instruction_trace c) + 1) as Hl2.
  { cbn. rewrite len_app. cbn in Hl1. rewrite Hl1. done. }
  assert (get_instruction_trace_length c1 = len (instruction_trace c) - 1) as Eidx.
  { unfold get_instruction_trace_length. rewrite Hl1. unfold saturating_sub. lia. }
  rewrite Eidx in *. change (instruction_trace_capacity c1) with (instruction_trace_capacity c) in Hcap.
  assert (instruction_trace c2 = removelast (instruction_trace c) ++ g :: [InstructionFrame_default]) as Et2.
  { cbn. by rewrite <- app_assoc. }
  assert (stack_ok c2) as Hs2.
  { eapply (stack_ok_last c); [exact H2|done|exact Et2|lia]. }
  assert (context_ok l0 d0 c2) as Hc2.
  { split; [exact H1|done|exact H3|rewrite Hl2; cbn; lia|exact H5]. }
  unfold tx_bind at 1, tx_get at 1.
  destruct (Z.leb_spec (instruction_stack_capacity c2) (get_instruction_stack_height c)) as [|Hscap]; [done|].
  unfold tx_bind at 1, tx_modify at 1. set (c3 := set_stack _ _).
  assert (context_ok l0 d0 c3) as Hc3.
  { split; [exact H1| | |cbn in *; rewrite Hl2; lia|exact H5].
    - intros i index Hi. cbn in Hi. apply lookup_app_Some in Hi as [Hi|[Hge Hi]].
      { exact (Hs2 i index Hi). }
      apply list_lookup_singleton_Some in Hi as [Hz <-].
      assert (i = length (instruction_stack c)) as -> by lia.
      change (instruction_trace c3) with (instruction_trace c2). split; [lia|]. split; [lia|]. exists g.
      split.
      + rewrite Et2. destruct (instruction_trace c) as [|x l] eqn:Et using rev_ind; [done|].
        rewrite removelast_last. unfold len. rewrite length_app. cbn [length].
        replace (Z.to_nat _) with (length l) by lia. by rewrite lookup_app_r, Nat.sub_diag by lia.
      + cbn. unfold get_instruction_stack_height, len. rewrite cast_u_id; [done|].
        change (instruction_stack_capacity c2) with (instruction_stack_capacity c) in Hscap.
        unfold get_instruction_stack_height, len, u16_MAX, is_u in *. lia.
    - cbn. rewrite len_app. unfold get_instruction_stack_height in Hscap. cbn in Hscap. cbn. unfold len in *. cbn. lia. }
  destruct (store_current_index_ok l0 d0 c3 (ctx_accounts _ _ _ Hc3)) as [Ha Hs].
  by eapply context_ok_accounts.
Qed.

Lemma pop_check_ok l0 d0 c :
  accounts_ok l0 d0 (accounts c) ->
  accounts_ok l0 d0 (accounts (pop_check c).1) /\ same_stack c (pop_check c).1.
Proof.
  intros H. unfold pop_check, tx_bind, tx_lift.
  destruct (get_current_instruction_context c) as [ic|]; [|done].
  destruct (get_index_of_program_account_in_transaction ic) as [index|]; [|done].
  pose proof (try_borrow_mut_ok l0 d0 (accounts c) index H) as Hb.
  pose proof (fun v => try_borrow_mut_range l0 d0 (accounts c) index v H) as Hv.
  assert (shared_account_fields (accounts_try_borrow_mut (accounts c) index).1 =
      shared_account_fields (accounts c)) as Es.
  { unfold accounts_try_borrow_mut. destruct (_ !! _); [|done]. by destruct (counter_try_borrow_mut _). }
  destruct (accounts_try_borrow_mut (accounts c) index) as [a [v|e]]; cbn in Hb, Hv, Es; [|done].
  destruct (Hv v eq_refl) as [Hi _]. split; [|done]. cbn. apply drop_ref_mut_ok; [done|]. by rewrite Es.
Qed.

Lemma pop_ok l0 d0 c : context_ok l0 d0 c -> context_ok l0 d0 (tx_pop c).1.
Proof.
  intros H. unfold tx_pop. destruct (is_nil (instruction_stack c)); [done|].
  destruct (pop_check_ok l0 d0 c (ctx_accounts _ _ _ H)) as [Ha Hs].
  assert (context_ok l0 d0 (pop_check c).1) as H1 by by eapply context_ok_accounts.
  destruct (pop_check c) as [c1 detected]. cbn in H1. clear H Ha Hs.
  set (c2 := set_stack _ c1). assert (context_ok l0 d0 c2) as H2.
  { destruct H1 as [A1 A2 A3 A4 A5]. split; [exact A1| | |exact A4|exact A5].
    - intros i index Hi. apply (A2 i index). cbn in Hi.
      destruct (instruction_stack c1) as [|x l] using rev_ind; [done|]. rewrite removelast_last in Hi.
      apply lookup_lt_Some in Hi as Hlt. by rewrite lookup_app_l by lia.
    - cbn. destruct (instruction_stack c1) as [|x l] using rev_ind; [done|].
      rewrite removelast_last. rewrite len_app in A3. cbn in A3. pose proof (len_nonneg [x]). lia. }
  assert (forall c3, accounts c3 = accounts c2 -> same_stack c2 c3 -> context_ok l0 d0 c3) as H3.
  { intros c3 E Hs. eapply context_ok_accounts; [exact H2|done|rewrite E; apply H2]. }
  destruct (last (instruction_stack c2)); destruct detected as [[]|]; by apply H3.
Qed.

Lemma held_range l0 d0 b c : accounts_ok l0 d0 (accounts c) -> held b c -> in_range b c.
Proof.
  intros H Hh. apply lookup_lt_Some in Hh. unfold in_range. by rewrite <- (ok_counters _ _ _ H).
Qed.

(** The steps of a running instruction leave the stack alone. *)
Lemma account_step_ok l0 d0 c c' :
  accounts_ok l0 d0 (accounts c) -> account_step c c' ->
  accounts_ok l0 d0 (accounts c') /\ same_stack c c'.
Proof.
  intros Ha Hs. destruct Hs as [ic k c c' r E|b op c c' r Hh Hop E|b c Hh|key data c c' r E].
  - unfold try_borrow_instruction_account, tx_bind, tx_lift, on_accounts in E.
    destruct (get_instruction_account ic k) as [ia|]; [|by injection E as <- _].
    pose proof (try_borrow_mut_ok l0 d0 (accounts c) (index_in_transaction ia) Ha) as Hb.
    destruct (accounts_try_borrow_mut _ _) as [a r']; cbn in Hb.
    assert (c' = set_accounts a c) as -> by (destruct r'; by injection E as <- _). done.
  - pose proof (held_range _ _ b c Ha Hh) as Hr.
    pose proof (run_op_effect is_exempt l0 d0 b op c c' r Ha Hr Hop E) as He.
    split; [by eapply op_effect_ok|]. by destruct He.
  - split; [|done]. cbn. apply drop_ref_mut_ok; [done|]. exact (held_range _ _ b c Ha Hh).
  - by injection E as <- _.
Qed.

Lemma step_ok_tx l0 d0 c c' : context_ok l0 d0 c -> tx_step c c' -> context_ok l0 d0 c'.
Proof.
  intros H Hs. destruct Hs as [program ias map data caller c c' r E|c c' r E|c c' r E|c c' Hs].
  - replace c' with (configure_next_instruction program ias map data caller c).1 by by rewrite E.
    by apply configure_ok.
  - replace c' with (tx_push instructions_id sysvar_id store c).1 by by rewrite E. by apply push_ok.
  - replace c' with (tx_pop c).1 by by rewrite E. by apply pop_ok.
  - destruct (account_step_ok l0 d0 c c' (ctx_accounts _ _ _ H) Hs). by eapply context_ok_accounts.
Qed.

(** An account as it may be loaded. *)
Definition loaded_ok (item : Pubkey * AccountSharedData) : Prop :=
  is_u64 (sd_lamports item.2) /\ len (sd_data item.2) <= MAX_ACCOUNT_DATA_LEN.

Definition initial_lamports (l : list (Pubkey * AccountSharedData)) : Z :=
  zsum (map (fun item => sd_lamports item.2) l).
Definition initial_data (l : list (Pubkey * AccountSharedData)) : Z :=
  zsum (map (fun item => len (sd_data item.2)) l).

Lemma map_imap_const {A B C} (f : B -> C) (g : nat -> A -> B) (h : A -> C) (l : list A) :
  (forall n x, f (g n x) = h x) -> map f (imap g l) = map h l.
Proof.
  intros E. change (f <$> imap g l = h <$> l). rewrite fmap_imap, <- imap_const. apply imap_ext.
  intros n x _. apply E.
Qed.

Lemma context_new_ok l sc tc n :
  Forall loaded_ok l -> len l <= MAX_ACCOUNTS_PER_TRANSACTION -> 0 <= sc <= u16_MAX -> 0 <= tc ->
  context_ok (initial_lamports l) (initial_data l) (context_new l sc tc n).
Proof.
  intros Hl Hn Hsc Htc.
  assert (length (imap (fun idx item => mkAccountSharedFields item.1 (sd_owner item.2) (sd_lamports item.2)
    (mkVmSlice (saturating_add GUEST_ACCOUNT_PAYLOAD_BASE_ADDRESS
      (saturating_mul GUEST_REGION_SIZE (Z.of_nat idx))) (len (sd_data item.2)))) l) = length l) as Ei
    by apply length_imap.
  split; [| |cbn; unfold len; cbn; lia|cbn; unfold len; cbn; lia|cbn; lia].
  2: { intros i index Hi. done. }
  split; cbn [context_new accounts accounts_new shared_account_fields private_account_fields
    borrow_counters touched_flags resize_delta lamports_delta].
  - by rewrite length_map, Ei.
  - by rewrite length_replicate, Ei.
  - by rewrite length_replicate, Ei.
  - unfold len in *. by rewrite Ei.
  - apply Forall_lookup. intros i s Hs. apply list_lookup_imap_Some in Hs as (x & Hx & ->).
    apply (Forall_lookup_1 _ _ _ _ Hl Hx).
  - apply Forall_map. eapply Forall_impl; [exact Hl|]. intros x [_ Hx]. split; [apply len_nonneg|done].
  - apply Forall2_same_length_lookup. split; [by rewrite length_map, Ei|].
    intros i s p Hs Hp. apply list_lookup_imap_Some in Hs as (x & Hx & ->).
    change (map ?f l) with (f <$> l) in Hp. rewrite list_lookup_fmap, Hx in Hp. by injection Hp as <-.
  - unfold total_lamports, initial_lamports. cbn. rewrite Z.add_0_r. f_equal. by apply map_imap_const.
  - unfold total_data, initial_data. cbn. rewrite Z.add_0_r, map_map. done.
  - pose proof (zsum_bound (fun item => len (sd_data item.2)) l MAX_ACCOUNT_DATA_LEN) as Hb.
    fold (initial_data l) in Hb. destruct Hb as [Hb1 Hb2].
    { eapply Forall_impl; [exact Hl|]. intros x [_ Hx]. split; [apply len_nonneg|done]. }
    split; [done|]. unfold MAX_ACCOUNT_DATA_LEN, MAX_ACCOUNTS_PER_TRANSACTION in *. lia.
  - done.
Qed.

Lemma reachable_ok l sc tc n c :
  Forall loaded_ok l -> len l <= MAX_ACCOUNTS_PER_TRANSACTION -> 0 <= sc <= u16_MAX -> 0 <= tc ->
  rtc tx_step (context_new l sc tc n) c ->
  context_ok (initial_lamports l) (initial_data l) c.
Proof.
  intros Hl Hn Hsc Htc Hr. pose proof (context_new_ok l sc tc n Hl Hn Hsc Htc) as H.
  induction Hr as [|c1 c2 c3 Hs _ IH]; [done|]. apply IH. by eapply step_ok_tx.
Qed.

(** A successful pop found the books balanced. *)
Lemma pop_balanced l0 d0 c c' :
  context_ok l0 d0 c -> tx_pop c = (c', Ok tt) -> total_lamports (accounts c') = l0.
Proof.
  intros H E. pose proof (pop_ok l0 d0 c H) as H'. rewrite E in H'. cbn in H'.
  rewrite (ok_total_lamports _ _ _ (ctx_accounts _ _ _ H')).
  unfold tx_pop in E. destruct (is_nil (instruction_stack c)); [done|].
  destruct (pop_check c) as [c1 detected] eqn:Ep. set (c2 := set_stack _ c1) in E.
  assert (detected = Ok false) as ->.
  { destruct (last (instruction_stack c2)), detected as [[]|]; by injection E. }
  assert (accounts c' = accounts c1) as ->.
  { destruct (last (instruction_stack c2)); by injection E as <-. }
  unfold pop_check, tx_bind, tx_lift, tx_get in Ep.
  destruct (get_current_instruction_context c) as [ic|]; [|done].
  destruct (get_index_of_program_account_in_transaction ic) as [index|]; [|done].
  destruct (accounts_try_borrow_mut (accounts c) index) as [a [v|e]]; [|done].
  injection Ep as <- Ed. bool_to_prop. cbn. lia.
Qed.


(** The instruction stack is well nested. In every context that can arise, the stack and
    the trace are within their capacities, and every level of the stack has an instruction
    whose nesting level is that level, as the code asserts when it looks one up. *)
Theorem instruction_stack_nested (l : list (Pubkey * AccountSharedData)) (sc tc n : Z)
    (c : TransactionContext) :
  Forall loaded_ok l -> len l <= MAX_ACCOUNTS_PER_TRANSACTION -> 0 <= sc <= u16_MAX -> 0 <= tc ->
  rtc tx_step (context_new l sc tc n) c ->
  get_instruction_stack_height c <= instruction_stack_capacity c /\
  get_instruction_trace_length c <= instruction_trace_capacity c /\
  forall level, 0 <= level < get_instruction_stack_height c ->
    exists ic, get_instruction_context_at_nesting_level c level = Ok ic /\ ic_nesting_level ic = level.
Proof.
  intros Hl Hn Hsc Htc Hr. destruct (reachable_ok l sc tc n c Hl Hn Hsc Htc Hr) as [_ H2 H3 H4 _].
  split; [exact H3|]. split; [unfold get_instruction_trace_length, saturating_sub; lia|].
  intros level Hlevel. unfold get_instruction_stack_height, len in Hlevel.
  destruct (lookup_lt_is_Some_2 (instruction_stack c) (Z.to_nat level)) as [index Ei]; [lia|].
  destruct (H2 _ _ Ei) as (_ & _ & f & Ef & Enest).
  unfold get_instruction_context_at_nesting_level, get_instruction_context_at_index_in_trace.
  rewrite Ei, Ef. eexists. split; [reflexivity|]. cbn. rewrite Enest. lia.
Qed.

(** Operations one after the other, whether they succeed or fail. *)
Definition run_ops (c : TransactionContext) (l : list (BorrowedInstructionAccount * AccountOp))
    : TransactionContext := foldl (fun c '(b, op) => (run_op is_exempt b op c).1) c l.

(** Operations that a program performs on accounts of its instruction. *)
Definition op_by (program : Z) (number : nat) (o : BorrowedInstructionAccount * AccountOp) : Prop :=
  op_ok o.2 /\ index_in_transaction_of_instruction_program o.1 = program /\
  0 <= get_index_in_transaction o.1 /\ (Z.to_nat (get_index_in_transaction o.1) < number)%nat.

Lemma get_view_put_ne a i j v : i <> j -> 0 <= i -> 0 <= j -> get_view (put_view i v a) j = get_view a j.
Proof.
  intros Hne Hi Hj. unfold get_view, put_view. cbn.
  rewrite !list_lookup_total_insert_ne by lia. done.
Qed.

Lemma get_view_put_eq a i v :
  (Z.to_nat i < length (shared_account_fields a))%nat ->
  length (private_account_fields a) = length (shared_account_fields a) ->
  get_view (put_view i v a) i = v.
Proof.
  intros Hi Hp. unfold get_view, put_view. cbn.
  rewrite !list_lookup_total_insert_eq by lia. by destruct v.
Qed.

(** One operation, as another account and the account itself see it. *)
Lemma op_effect_view l0 d0 b c c' j :
  accounts_ok l0 d0 (accounts c) -> in_range b c -> 0 <= get_index_in_transaction b -> 0 <= j ->
  op_effect b c c' ->
  let v := get_view (accounts c) j in
  let v' := get_view (accounts c') j in
  (v' = v \/ (get_index_in_transaction b = j /\ is_writable (instruction_account b) = true /\
    (is_owned_by_current_program b c = true \/
     (view_data v' = view_data v /\ view_owner v' = view_owner v /\
      view_executable v' = view_executable v /\ view_lamports v <= view_lamports v')))) /\
  (forall k, account_key (accounts c') k = account_key (accounts c) k) /\
  length (shared_account_fields (accounts c')) = length (shared_account_fields (accounts c)).
Proof.
  intros H Hr Hi Hj He. destruct He as [|v' dl dd [Ek Hw Ho _ _ _ _ _]]; [by split; [left|]|].
  cbn zeta. split; [|split].
  - destruct (decide (get_index_in_transaction b = j)) as [<-|Hne].
    + right. split; [done|]. split; [done|].
      change (get_view (accounts (changed b c v' dl dd)) (get_index_in_transaction b)) with
        (get_view (put_view (get_index_in_transaction b) v' (accounts c)) (get_index_in_transaction b)).
      rewrite get_view_put_eq; [exact Ho|exact Hr|apply (ok_private _ _ _ H)].
    + left. change (get_view (put_view (get_index_in_transaction b) v' (accounts c)) j =
        get_view (accounts c) j). by apply get_view_put_ne.
  - intros k. unfold account_key. cbn. destruct (decide (Z.to_nat (get_index_in_transaction b) = Z.to_nat k)) as [<-|Hne].
    + rewrite list_lookup_insert_eq by exact Hr. destruct (lookup_lt_is_Some_2 _ _ Hr) as [s Es].
      rewrite Es. cbn. rewrite Ek. unfold account_view, get_view. cbn.
      by rewrite (list_lookup_total_correct _ _ _ Es).
    + by rewrite list_lookup_insert_ne.
  - cbn. apply length_insert.
Qed.

(** C32. Accounts are protected. Whatever sequence of operations a program performs on the
    accounts of its instruction, an account that it holds only as read-only does not change at
    all, and of an account that it does not own neither the data nor the owner nor the
    executable flag change, and the lamports do not decrease. *)
Theorem accounts_protected (lamports0 data0 : Z) (c : TransactionContext)
    (ops : list (BorrowedInstructionAccount * AccountOp)) (program j : Z) (program_key : Pubkey) :
  accounts_ok lamports0 data0 (accounts c) -> 0 <= j ->
  Forall (op_by program (length (shared_account_fields (accounts c)))) ops ->
  get_key_of_account_at_index c program = Ok program_key ->
  let v := get_view (accounts c) j in
  let v' := get_view (accounts (run_ops c ops)) j in
  (Forall (fun o => get_index_in_transaction o.1 = j -> is_writable (instruction_account o.1) = false) ops ->
   v' = v) /\
  (view_owner v <> program_key ->
   view_data v' = view_data v /\ view_owner v' = view_owner v /\
   view_executable v' = view_executable v /\ view_lamports v <= view_lamports v').
Proof.
  revert c. induction ops as [|[b op] ops IH]; intros c Ha Hj Hops Hk.
  { cbn. split; [done|]. intros _. repeat split. lia. }
  apply Forall_cons in Hops as [(Hop & Hp & Hi0 & Hi) Hops]. cbn [fst snd] in *.
  destruct (run_op is_exempt b op c) as [c1 r] eqn:E.
  assert (run_ops c ((b, op) :: ops) = run_ops c1 ops) as Er.
  { unfold run_ops. cbn [foldl]. by rewrite E. }
  pose proof (run_op_effect is_exempt _ _ b op c c1 r Ha Hi Hop E) as He.
  destruct (op_effect_view _ _ b c c1 j Ha Hi Hi0 Hj He) as (Hv & Hkeys & Hlen).
  pose proof (op_effect_ok _ _ b c c1 Ha Hi He) as Ha1.
  assert (get_key_of_account_at_index c1 program = Ok program_key) as Hk1.
  { unfold get_key_of_account_at_index in *. by rewrite Hkeys. }
  rewrite <- Hlen in Hops. specialize (IH c1 Ha1 Hj Hops Hk1) as [IH1 IH2]. rewrite Er. cbn zeta. split.
  - intros Hro. apply Forall_cons in Hro as [Hro1 Hro]. rewrite (IH1 Hro).
    destruct Hv as [Hv|(Ej & Hw & _)]; [exact Hv|]. cbn in Hro1. rewrite (Hro1 Ej) in Hw. done.
  - intros Hne. destruct Hv as [Hv|(Ej & _ & [Ho|(E1 & E2 & E3 & E4)])].
    + rewrite Hv in IH2. by apply IH2.
    + exfalso. apply Hne. unfold is_owned_by_current_program in Ho. rewrite Hp, Hk in Ho.
      apply bool_decide_eq_true in Ho. rewrite Ho. unfold get_owner, account_view. by rewrite Ej.
    + rewrite E2 in IH2. destruct (IH2 Hne) as (F1 & F2 & F3 & F4). repeat split; try congruence. lia.
Qed.

End life.

(** ** Example *)

Definition key_of (n : Z) : Pubkey := replicate 32 n.

(** A program, an account that it owns, and an account that it does not own. *)
Definition example_accounts : list (Pubkey * AccountSharedData) :=
  [ (key_of 1, mkAccountSharedData 1 [] (key_of 9) true 0 true);
    (key_of 2, mkAccountSharedData 100 [1; 2; 3] (key_of 1) false 0 true);
    (key_of 3, mkAccountSharedData 7 [4] (key_of 8) false 0 true) ].

(** Writes the index into the last two bytes. *)
Definition example_store (data : list Z) (index : Z) : Result (list Z) InstructionError :=
  if len data <? 2 then Err AccountDataTooSmall
  else Ok (take (length data - 2) data ++ le_split 2 index).

#[export] Instance example_store_law : StoreIndexLaw example_store.
Proof.
  intros data index bs. unfold example_store. destruct (Z.ltb_spec (len data) 2); [done|].
  intros [= <-]. rewrite length_app, length_take. cbn. unfold len in *. lia.
Qed.

Definition example_exempt (_ _ : Z) : bool := true.

Definition example_new : TransactionContext := context_new example_accounts 5 64 1.
Definition example_configured : TransactionContext :=
  (configure_next_instruction 0 [InstructionAccount_new 1 false true; InstructionAccount_new 2 false true]
     [u16_MAX; 0; 1] [7] None example_new).1.
Definition example_pushed : TransactionContext :=
  (tx_push (key_of 70) (key_of 71) example_store example_configured).1.

Definition example_owned : BorrowedInstructionAccount := mkBorrowed (InstructionAccount_new 1 false true) 0.
Definition example_other : BorrowedInstructionAccount := mkBorrowed (InstructionAccount_new 2 false true) 0.

Definition example_ic : InstructionContext :=
  match get_current_instruction_context example_pushed with
  | Ok ic => ic
  | Err _ => mkInstructionContext 0 0 0 [] [] []
  end.

(** The program moves thirty lamports from its account to the other one. *)
Definition example_borrowed : TransactionContext :=
  (try_borrow_instruction_account example_ic 1 (try_borrow_instruction_account example_ic 0 example_pushed).1).1.
Definition example_moved : TransactionContext :=
  (run_op example_exempt example_other (OpAddLamports 30)
     (run_op example_exempt example_owned (OpSubLamports 30) example_borrowed).1).1.
Definition example_dropped : TransactionContext :=
  drop_borrowed example_other (drop_borrowed example_owned example_moved).

Abbreviation example_step := (tx_step example_exempt (key_of 70) (key_of 71) example_store).

Lemma example_loaded : Forall loaded_ok example_accounts.
Proof. repeat constructor; vm_compute; discriminate. Qed.

Lemma example_reaches_pushed : rtc example_step example_new example_pushed.
Proof.
  eapply rtc_l; [apply (step_configure _ _ _ _ 0 [InstructionAccount_new 1 false true;
    InstructionAccount_new 2 false true] [u16_MAX; 0; 1] [7] None _ example_configured (Ok tt)); reflexivity|].
  eapply rtc_l; [apply (step_push _ _ _ _ _ example_pushed (Ok tt)); reflexivity|]. constructor.
Qed.

Lemma example_reaches_dropped : rtc example_step example_new example_dropped.
Proof.
  etrans; [apply example_reaches_pushed|].
  eapply rtc_l; [eapply step_account, (step_borrow _ example_ic 0); apply surjective_pairing|].
  eapply rtc_l; [eapply step_account, (step_borrow _ example_ic 1); apply surjective_pairing|].
  eapply rtc_l; [eapply step_account, (step_op _ example_owned (OpSubLamports 30));
    [by vm_compute|by vm_compute|apply surjective_pairing]|].
  eapply rtc_l; [eapply step_account, (step_op _ example_other (OpAddLamports 30));
    [by vm_compute|by vm_compute|apply surjective_pairing]|].
  eapply rtc_l; [apply step_account, (step_drop _ example_owned); by vm_compute|].
  eapply rtc_l; [apply step_account, (step_drop _ example_other); by vm_compute|].
  unfold example_dropped, example_moved, example_borrowed. apply rtc_refl.
Qed.

Lemma result_pair {A B} (p : A * B) (y : B) : p.2 = y -> p = (p.1, y).
Proof. destruct p. cbn. by intros ->. Qed.


Lemma instruction_stack_nested_witness :
  exists ic, get_instruction_context_at_nesting_level example_pushed 0 = Ok ic /\ ic_nesting_level ic = 0.
Proof.
  destruct (instruction_stack_nested example_exempt (key_of 70) (key_of 71) example_store example_accounts
    5 64 1 example_pushed example_loaded ltac:(by vm_compute) ltac:(by vm_compute) ltac:(by vm_compute)
    example_reaches_pushed) as (_ & _ & H).
  apply H. by vm_compute.
Defined.

(** The program tries to take from an account it does not own, to write its data, and to pay it. *)
Lemma accounts_protected_witness :
  let c := run_ops example_exempt example_pushed
    [(example_other, OpSubLamports 3); (example_other, OpWriteData [9]); (example_other, OpAddLamports 2)] in
  view_data (get_view (accounts c) 2) = [4] /\ view_lamports (get_view (accounts c) 2) = 9.
Proof.
  intros c. pose proof (reachable_ok example_exempt (key_of 70) (key_of 71) example_store example_accounts
    5 64 1 example_pushed example_loaded ltac:(by vm_compute) ltac:(by vm_compute) ltac:(by vm_compute)
    example_reaches_pushed) as Hok.
  destruct (accounts_protected example_exempt _ _ example_pushed
    [(example_other, OpSubLamports 3); (example_other, OpWriteData [9]); (example_other, OpAddLamports 2)]
    0 2 (key_of 1) (ctx_accounts _ _ _ Hok)) as [_ H].
  - by vm_compute.
  - repeat constructor; vm_compute; try discriminate; lia.
  - by vm_compute.
  - destruct H as (H1 & _ & _ & _); [by vm_compute|]. unfold c. rewrite H1. by vm_compute.
Defined.
