(* ===== verification/InvokeContext.v ===== *)
(** The invoke context (agave/program-runtime/src/invoke_context.rs): the compute meter, the
    heap allocator, the preparation of top-level and of cross-program instructions with their
    privilege checks, the stack of invocations, and the forbidden ranges and accesses that the
    detector adds.

    The parts of [InvokeContext] that only measure or log are left out. The limits and features
    of the environment are arguments of the functions that read them. *)

From Stdlib Require Import ZArith Lia Bool.
From S2P Require Import Prelude.
From S2P Require Import Ebpf.
From S2P Require Import Vm.
From S2P Require Import TxAccounts.
From S2P Require Import TxContext.

#[local] Open Scope Z_scope.

(** ** The heap allocator *)

Record BpfAllocator := mkAllocator { alloc_len : Z; alloc_pos : Z }.

Definition BpfAllocator_new (len : Z) : BpfAllocator := mkAllocator len 0.

(** [(p as *const u8).align_offset(align)] for a power of two. *)
Definition align_offset (p align : Z) : Z := (- p) mod align.

Definition alloc (a : BpfAllocator) (size align : Z) : BpfAllocator * option Z :=
  let bytes_to_align := align_offset (alloc_pos a) align in
  if saturating_add (saturating_add (alloc_pos a) bytes_to_align) size <=? alloc_len a then
    let pos := saturating_add (alloc_pos a) bytes_to_align in
    let addr := saturating_add MM_HEAP_START pos in
    (mkAllocator (alloc_len a) (saturating_add pos size), Some addr)
  else (a, None).

(** ** The context *)

Record SerializedAccountMetadata := mkAccountMetadata {
  original_data_len : Z;
  vm_data_addr : Z;
  vm_key_addr : Z;
  vm_lamports_addr : Z;
  vm_owner_addr : Z
}.

Record SyscallContext := mkSyscallContext {
  allocator : BpfAllocator;
  accounts_metadata : list SerializedAccountMetadata
}.

Record InvokeContext := mkInvokeContext {
  transaction_context : TransactionContext;
  compute_units : Z;
  syscall_context : list (option SyscallContext);
  register_traces : list (Z * list (list Z));
  forbidden_sysvar_data_ranges : list Range;
  forbidden_memory_accesses : list (Z * Z)
}.

(** The meter is a [u64]. *)
Definition compute_meter (ic : InvokeContext) : Z := as_u64 (compute_units ic).

Definition invoke_context_new (tx : TransactionContext) (compute_unit_limit : Z) : InvokeContext :=
  mkInvokeContext tx compute_unit_limit [] [] [] [].

Section setters.
Implicit Types ic : InvokeContext.

Definition set_transaction_context (x : TransactionContext) ic : InvokeContext :=
  mkInvokeContext x (compute_units ic) (syscall_context ic) (register_traces ic)
    (forbidden_sysvar_data_ranges ic) (forbidden_memory_accesses ic).
Definition set_compute_meter (x : Z) ic : InvokeContext :=
  mkInvokeContext (transaction_context ic) x (syscall_context ic) (register_traces ic)
    (forbidden_sysvar_data_ranges ic) (forbidden_memory_accesses ic).
Definition set_syscall_contexts (x : list (option SyscallContext)) ic : InvokeContext :=
  mkInvokeContext (transaction_context ic) (compute_units ic) x (register_traces ic)
    (forbidden_sysvar_data_ranges ic) (forbidden_memory_accesses ic).
Definition set_register_traces (x : list (Z * list (list Z))) ic : InvokeContext :=
  mkInvokeContext (transaction_context ic) (compute_units ic) (syscall_context ic) x
    (forbidden_sysvar_data_ranges ic) (forbidden_memory_accesses ic).
Definition set_forbidden_sysvar_data_ranges (x : list Range) ic : InvokeContext :=
  mkInvokeContext (transaction_context ic) (compute_units ic) (syscall_context ic) (register_traces ic)
    x (forbidden_memory_accesses ic).
Definition set_forbidden_memory_accesses (x : list (Z * Z)) ic : InvokeContext :=
  mkInvokeContext (transaction_context ic) (compute_units ic) (syscall_context ic) (register_traces ic)
    (forbidden_sysvar_data_ranges ic) x.

End setters.

(** [impl ContextObject for InvokeContext]. *)
#[export] Instance InvokeContext_ContextObject : ContextObject InvokeContext := {|
  consume ic amount := set_compute_meter (saturating_sub (compute_meter ic) amount) ic;
  get_remaining ic := compute_meter ic
|}.

Definition consume_checked (ic : InvokeContext) (amount : Z)
    : InvokeContext * Result unit InstructionError :=
  let exceeded := compute_meter ic <? amount in
  (set_compute_meter (saturating_sub (compute_meter ic) amount) ic,
   if exceeded then Err ComputationalBudgetExceeded else Ok tt).

Definition set_syscall_context (ic : InvokeContext) (x : SyscallContext)
    : InvokeContext * Result unit InstructionError :=
  match last (syscall_context ic) with
  | None => (ic, Err CallDepth)
  | Some _ => (set_syscall_contexts (removelast (syscall_context ic) ++ [Some x]) ic, Ok tt)
  end.

Definition get_syscall_context (ic : InvokeContext) : Result SyscallContext InstructionError :=
  match last (syscall_context ic) with
  | Some (Some x) => Ok x
  | _ => Err CallDepth
  end.

Definition insert_register_trace (ic : InvokeContext) (trace : list (list Z)) : InvokeContext :=
  if is_nil trace then ic
  else
    match get_current_instruction_context (transaction_context ic) with
    | Err _ => ic
    | Ok instruction_context =>
        set_register_traces
          (register_traces ic ++ [(ic_index_in_trace instruction_context, trace)]) ic
    end.

(** ** Preparing instructions *)

Record AccountMeta := mkAccountMeta {
  meta_pubkey : Pubkey;
  meta_is_signer : bool;
  meta_is_writable : bool
}.

Record Instruction := mkInstruction {
  program_id : Pubkey;
  instruction_metas : list AccountMeta;
  instruction_bytes : list Z
}.

Definition empty_callee_map : list Z := replicate (Z.to_nat MAX_ACCOUNTS_PER_TRANSACTION) u16_MAX.

(** The loop over the account metas of [prepare_next_instruction]: the callee map and the
    instruction accounts so far. A callee map without an entry for an account is a panic. *)
Fixpoint collect_accounts (c : TransactionContext) (metas : list AccountMeta)
    (callee_map : list Z) (ias : list InstructionAccount)
    : option (Result (list Z * list InstructionAccount) InstructionError) :=
  match metas with
  | [] => Some (Ok (callee_map, ias))
  | meta :: metas =>
      match find_index_of_account c (meta_pubkey meta) with
      | None => Some (Err MissingAccount)
      | Some index =>
          let! index_in_callee := callee_map !! Z.to_nat index in
          if index_in_callee <? len ias then
            match ias !! Z.to_nat index_in_callee with
            | None => Some (Err MissingAccount)
            | Some ia =>
                let ia := set_is_signer ia (is_signer ia || meta_is_signer meta) in
                let ia := set_is_writable ia (is_writable ia || meta_is_writable meta) in
                collect_accounts c metas callee_map (<[Z.to_nat index_in_callee := ia]> ias ++ [ia])
            end
          else
            collect_accounts c metas (<[Z.to_nat index := as_u16 (len ias)]> callee_map)
              (ias ++ [InstructionAccount_new index (meta_is_signer meta) (meta_is_writable meta)])
      end
  end.

(** The loop that completes the flags of repeated accounts and checks the privileges of the
    others against the caller, for the indexes that are left. *)
Fixpoint check_accounts (caller : InstructionContext) (metas : list AccountMeta) (signers : list Pubkey)
    (callee_map : list Z) (indexes : list nat) (ias : list InstructionAccount)
    : option (Result (list InstructionAccount) InstructionError) :=
  match indexes with
  | [] => Some (Ok ias)
  | current_index :: indexes =>
      let! ia := ias !! current_index in
      let! index_in_callee := callee_map !! Z.to_nat (index_in_transaction ia) in
      if negb (Z.of_nat current_index =? index_in_callee) then
        match ias !! Z.to_nat index_in_callee with
        | None => Some (Err MissingAccount)
        | Some reference =>
            let ia := set_is_signer ia (is_signer ia || is_signer reference) in
            let ia := set_is_writable ia (is_writable ia || is_writable reference) in
            check_accounts caller metas signers callee_map indexes (<[current_index := ia]> ias)
        end
      else
        match get_index_of_account_in_instruction caller (index_in_transaction ia) with
        | Err e => Some (Err e)
        | Ok index_in_caller =>
            let! meta := metas !! current_index in
            let! caller_account := ic_instruction_accounts caller !! Z.to_nat index_in_caller in
            if is_writable ia && negb (is_writable caller_account) then Some (Err PrivilegeEscalation)
            else if is_signer ia
                    && negb (is_signer caller_account || bool_decide (meta_pubkey meta ∈ signers))
            then Some (Err PrivilegeEscalation)
            else check_accounts caller metas signers callee_map indexes ias
        end
  end.

(** The program of the callee has to be an account of the caller's instruction. *)
Definition find_program (c : TransactionContext) (caller : InstructionContext) (callee : Pubkey)
    : Result Z InstructionError :=
  match find_index_of_account c callee with
  | None => Err MissingAccount
  | Some index =>
      match get_index_of_account_in_instruction caller index with
      | Ok _ => Ok index
      | Err _ => Err MissingAccount
      end
  end.

(** The instruction accounts, the callee map and the program index of a cross-program
    invocation. *)
Definition callee_accounts (c : TransactionContext) (caller : InstructionContext)
    (instruction : Instruction) (signers : list Pubkey)
    : option (Result (list InstructionAccount * list Z * Z) InstructionError) :=
  let! collected := collect_accounts c (instruction_metas instruction) empty_callee_map [] in
  match collected with
  | Err e => Some (Err e)
  | Ok (callee_map, ias) =>
      let! checked := check_accounts caller (instruction_metas instruction) signers callee_map
                        (seq 0 (length ias)) ias in
      match checked with
      | Err e => Some (Err e)
      | Ok ias =>
          Some (let? program := find_program c caller (program_id instruction) in
                Ok (ias, callee_map, program))
      end
  end.

Definition prepare_next_instruction (ic : InvokeContext) (instruction : Instruction)
    (signers : list Pubkey) : option (InvokeContext * Result unit InstructionError) :=
  let c := transaction_context ic in
  match get_current_instruction_context c with
  | Err e => Some (ic, Err e)
  | Ok caller =>
      let! prepared := callee_accounts c caller instruction signers in
      match prepared with
      | Err e => Some (ic, Err e)
      | Ok (ias, callee_map, program) =>
          match get_current_instruction_index c with
          | Err e => Some (ic, Err e)
          | Ok caller_index =>
              let '(c, r) := configure_next_instruction program ias callee_map
                               (instruction_bytes instruction) (Some (as_u16 caller_index)) c in
              Some (set_transaction_context c ic, r)
          end
      end
  end.

(** The loop of [prepare_next_top_level_instruction] over the account indexes of the compiled
    instruction; the flags are those of the message. *)
Fixpoint top_level_accounts (message_is_signer message_is_writable : Z -> bool) (indexes : list Z)
    (callee_map : list Z) (ias : list InstructionAccount)
    : option (list Z * list InstructionAccount) :=
  match indexes with
  | [] => Some (callee_map, ias)
  | index :: indexes =>
      let! index_in_callee := callee_map !! Z.to_nat index in
      let callee_map :=
        if len ias <? index_in_callee
        then <[Z.to_nat index := as_u16 (len ias)]> callee_map else callee_map in
      top_level_accounts message_is_signer message_is_writable indexes callee_map
        (ias ++ [InstructionAccount_new index (message_is_signer index) (message_is_writable index)])
  end.

Definition prepare_next_top_level_instruction (ic : InvokeContext)
    (message_is_signer message_is_writable : Z -> bool) (indexes : list Z)
    (program_account_index : Z) (data : list Z)
    : option (InvokeContext * Result unit InstructionError) :=
  let! (callee_map, ias) :=
    top_level_accounts message_is_signer message_is_writable indexes empty_callee_map [] in
  let '(c, r) := configure_next_instruction program_account_index ias callee_map data None
                   (transaction_context ic) in
  Some (set_transaction_context c ic, r).

(** ** Invocations *)

Section invocations.
Variables (instructions_id sysvar_id : Pubkey).
Variable store_current_index_checked : list Z -> Z -> Result (list Z) InstructionError.

(** The program of the instruction at a level of the stack is this one. *)
Definition is_program_at_level (c : TransactionContext) (key : Pubkey) (level : Z) : bool :=
  match get_instruction_context_at_nesting_level c level with
  | Ok instruction_context =>
      match get_program_key c instruction_context with
      | Ok k => bool_decide (k = key)
      | Err _ => false
      end
  | Err _ => false
  end.

Definition is_current_program (c : TransactionContext) (key : Pubkey) : bool :=
  match get_current_instruction_context c with
  | Ok instruction_context =>
      match get_program_key c instruction_context with
      | Ok k => bool_decide (k = key)
      | Err _ => false
      end
  | Err _ => false
  end.

Definition invoke_push (ic : InvokeContext) : InvokeContext * Result unit InstructionError :=
  let c := transaction_context ic in
  match get_instruction_context_at_index_in_trace c (get_instruction_trace_length c) with
  | Err e => (ic, Err e)
  | Ok instruction_context =>
      match get_program_key c instruction_context with
      | Err _ => (ic, Err UnsupportedProgramId)
      | Ok key =>
          let height := get_instruction_stack_height c in
          let contains := existsb (is_program_at_level c key) (seqZ 0 height) in
          let is_last := is_current_program c key in
          if negb (height =? 0) && (contains && negb is_last)
          then (ic, Err ReentrancyNotAllowed)
          else
            let ic := set_syscall_contexts (syscall_context ic ++ [None]) ic in
            let '(c, r) := tx_push instructions_id sysvar_id store_current_index_checked c in
            (set_transaction_context c ic, r)
      end
  end.

Definition invoke_pop (ic : InvokeContext) : InvokeContext * Result unit InstructionError :=
  let ic := set_syscall_contexts (removelast (syscall_context ic)) ic in
  let '(c, r) := tx_pop (transaction_context ic) in
  (set_transaction_context c ic, r).

(** [process_instruction]: the pop happens whenever the push succeeded; an error of the
    program wins over an error of the pop. *)
Definition process_instruction
    (process_executable_chain : InvokeContext -> InvokeContext * Result unit InstructionError)
    (ic : InvokeContext) : InvokeContext * Result unit InstructionError :=
  let '(ic, r) := invoke_push ic in
  match r with
  | Err e => (ic, Err e)
  | Ok _ =>
      let '(ic, result) := process_executable_chain ic in
      let '(ic, popped) := invoke_pop ic in
      (ic, match result with Ok _ => popped | Err e => Err e end)
  end.

End invocations.
