(* ===== verification/InvokeSafe.v ===== *)
(** What the invoke context guarantees: cross-program invocations cannot gain privileges,
    repeated accounts are recognised, programs are re-entered only by themselves, and the heap
    allocator hands out disjoint memory. *)

From Stdlib Require Import ZArith Lia Bool Sorted.
From S2P Require Import Prelude.
From S2P Require Import Ebpf.
From S2P Require Import TxAccounts.
From S2P Require Import TxContext.
From S2P Require Import TxSafe.
From S2P Require Import InvokeContext.

#[local] Open Scope Z_scope.

(** ** Deduplication maps *)

(** The entry of a deduplication map for an account: where the account occurs first among the
    instruction accounts, given by their indexes in the transaction. *)
Definition entry_ok (l : list Z) (index entry : Z) : Prop :=
  (entry = u16_MAX /\ index ∉ l) \/
  (exists k, entry = Z.of_nat k /\ l !! k = Some index /\ index ∉ take k l).

Record dedup_ok (l : list Z) (callee_map : list Z) : Prop := {
  dedup_length : length callee_map = Z.to_nat MAX_ACCOUNTS_PER_TRANSACTION;
  dedup_entry index entry :
    0 <= index -> callee_map !! Z.to_nat index = Some entry -> entry_ok l index entry
}.

Definition account_indexes (ias : list InstructionAccount) : list Z := map index_in_transaction ias.

Lemma dedup_empty : dedup_ok [] empty_callee_map.
Proof.
  split; [done|]. intros index entry _ H. left.
  apply lookup_replicate in H as [-> _]. split; [done|]. apply not_elem_of_nil.
Qed.

Lemma dedup_lookup l m index :
  dedup_ok l m -> 0 <= index < MAX_ACCOUNTS_PER_TRANSACTION ->
  exists entry, m !! Z.to_nat index = Some entry /\ entry_ok l index entry.
Proof.
  intros H Hi. destruct (lookup_lt_is_Some_2 m (Z.to_nat index)) as [e He].
  { rewrite (dedup_length _ _ H). lia. }
  exists e. split; [done|]. apply (dedup_entry _ _ H); [lia|done].
Qed.

(** One more occurrence of an account that is there already. *)
Lemma dedup_append_old l m index :
  dedup_ok l m -> index ∈ l -> dedup_ok (l ++ [index]) m.
Proof.
  intros [Hl H] Hin. split; [done|]. intros j e Hj Hlook.
  destruct (H j e Hj Hlook) as [[-> Hno]|(k & -> & Hk & Hno)].
  - left. split; [done|]. intros Hin'. apply elem_of_app in Hin' as [|Hin']; [done|].
    apply list_elem_of_singleton in Hin' as ->. done.
  - right. exists k. split; [done|]. apply lookup_lt_Some in Hk as Hlt.
    split; [by rewrite lookup_app_l|]. by rewrite take_app_le by lia.
Qed.

(** The first occurrence of an account. *)
Lemma dedup_append_new l m index :
  dedup_ok l m -> index ∉ l -> 0 <= index ->
  dedup_ok (l ++ [index]) (<[Z.to_nat index := len l]> m).
Proof.
  intros [Hl H] Hno Hi. split; [by rewrite length_insert|]. intros j e Hj Hlook.
  apply list_lookup_insert_Some in Hlook as [(E & <- & _)|[Hne Hlook]].
  - assert (j = index) as -> by lia. right. exists (length l). split; [done|].
    split; [by rewrite lookup_app_r, Nat.sub_diag by lia|]. by rewrite take_app_length.
  - destruct (H j e Hj Hlook) as [[-> Hno']|(k & -> & Hk & Hno')].
    + left. split; [done|]. intros Hin. apply elem_of_app in Hin as [|Hin]; [done|].
      apply list_elem_of_singleton in Hin as ->. done.
    + right. exists k. split; [done|]. apply lookup_lt_Some in Hk as Hlt.
      split; [by rewrite lookup_app_l|]. by rewrite take_app_le by lia.
Qed.

(** An entry below the number of accounts is a first occurrence. *)
Lemma entry_below l index entry :
  entry_ok l index entry -> len l <= u16_MAX ->
  (entry < len l <-> index ∈ l) /\ (index ∈ l -> 0 <= entry /\ l !! Z.to_nat entry = Some index).
Proof.
  intros [[-> Hno]|(k & -> & Hk & _)] Hl.
  - split; [|done]. split; [lia|done].
  - apply lookup_lt_Some in Hk as Hlt. unfold len.
    split; [split; [|lia]|]; [intros _; by eapply list_elem_of_lookup_2|].
    intros _. rewrite Nat2Z.id. split; [lia|done].
Qed.

(** ** Top-level instructions *)

Lemma top_level_accounts_ok signer writable indexes m ias :
  dedup_ok (account_indexes ias) m ->
  Forall (fun i => 0 <= i < MAX_ACCOUNTS_PER_TRANSACTION) indexes ->
  len ias + len indexes < u16_MAX ->
  exists m' ias', top_level_accounts signer writable indexes m ias = Some (m', ias') /\
    dedup_ok (account_indexes ias') m' /\ account_indexes ias' = account_indexes ias ++ indexes.
Proof.
  revert m ias; induction indexes as [|i indexes IH]; intros m ias Hd Hi Hl; cbn [top_level_accounts].
  { exists m, ias. by rewrite app_nil_r. }
  apply Forall_cons in Hi as [Hi His]. destruct (dedup_lookup _ _ i Hd Hi) as (e & -> & He).
  assert (len (account_indexes ias) = len ias) as El by (unfold len, account_indexes; by rewrite length_map).
  assert (0 <= len ias /\ len (i :: indexes) = len indexes + 1 /\ 0 <= len indexes) as (H0 & H1 & H2).
  { unfold len. cbn [length]. lia. }
  destruct (entry_below _ _ _ He) as [Hb Hb']; [lia|].
  set (ia := InstructionAccount_new i (signer i) (writable i)).
  assert (account_indexes (ias ++ [ia]) = account_indexes ias ++ [i]) as Ea.
  { unfold account_indexes. by rewrite map_app. }
  edestruct (IH (if len ias <? e then <[Z.to_nat i := as_u16 (len ias)]> m else m) (ias ++ [ia]))
    as (m' & ias' & -> & Hd' & E').
  - rewrite Ea. rewrite El in Hb. destruct (Z.ltb_spec (len ias) e) as [Hlt|Hge].
    + rewrite cast_u_id by (unfold is_u, u16_MAX in *; lia). rewrite <- El.
      apply dedup_append_new; [done| |lia]. intros Hin. apply Hb in Hin. lia.
    + apply dedup_append_old; [done|]. apply Hb.
      destruct (decide (i ∈ account_indexes ias)) as [Hin|Hno]; [by apply Hb|].
      destruct He as [[-> _]|(k & -> & Hk & _)]; [lia|].
      exfalso. apply Hno. by eapply list_elem_of_lookup_2.
  - done.
  - rewrite len_app. change (len [ia]) with 1. lia.
  - exists m', ias'. split; [done|]. split; [done|]. rewrite E', Ea, <- app_assoc. done.
Qed.

(** What a deduplication map tells about a repeated account. *)
Lemma is_duplicate_ok ic k index :
  dedup_ok (account_indexes (ic_instruction_accounts ic)) (ic_dedup_map ic) ->
  len (ic_instruction_accounts ic) <= u16_MAX ->
  account_indexes (ic_instruction_accounts ic) !! k = Some index ->
  0 <= index < MAX_ACCOUNTS_PER_TRANSACTION ->
  exists first, account_indexes (ic_instruction_accounts ic) !! first = Some index /\
    index ∉ take first (account_indexes (ic_instruction_accounts ic)) /\ (first <= k)%nat /\
    is_instruction_account_duplicate ic (Z.of_nat k) =
      Ok (if (first =? k)%nat then None else Some (Z.of_nat first)).
Proof.
  intros Hd Hl Hk Hi. destruct (dedup_lookup _ _ index Hd Hi) as (e & Em & He).
  unfold is_instruction_account_duplicate, get_index_of_instruction_account_in_transaction,
    get_instruction_account, get_index_of_account_in_instruction.
  set (ias := ic_instruction_accounts ic) in *.
  destruct He as [[_ Hno]|(first & -> & Hf & Hno)].
  { exfalso. apply Hno. by eapply list_elem_of_lookup_2. }
  exists first. split; [done|]. split; [done|].
  assert (first <= k)%nat as Hle.
  { destruct (decide (first <= k)%nat) as [|Hgt]; [done|]. exfalso. apply Hno.
    apply (list_elem_of_lookup_2 _ k). rewrite lookup_take_lt by lia. done. }
  split; [done|].
  assert (exists ia, ias !! k = Some ia /\ index_in_transaction ia = index) as (ia & Eia & Eidx).
  { unfold account_indexes in Hk. change (map ?f ias) with (f <$> ias) in Hk.
    rewrite list_lookup_fmap in Hk. destruct (ias !! k) as [ia|]; [|done]. exists ia. by injection Hk. }
  rewrite Nat2Z.id, Eia, Eidx, Em. apply lookup_lt_Some in Hf.
  unfold account_indexes in Hf. rewrite length_map in Hf.
  destruct (Z.leb_spec (len ias) (Z.of_nat first)); [unfold len in *; lia|].
  destruct (Nat.eqb_spec first k) as [->|Hne]; [by rewrite Z.eqb_refl|].
  rewrite (proj2 (Z.eqb_neq _ _)) by lia. done.
Qed.

(** Repeated accounts are recognised. Preparing a top-level instruction does not panic,
    keeps the accounts in order, and gives an instruction in which an account is reported as a
    duplicate exactly when it occurred before, with the position of its first occurrence. *)
Theorem top_level_duplicates (signer writable : Z -> bool) (indexes : list Z) :
  Forall (fun i => 0 <= i < MAX_ACCOUNTS_PER_TRANSACTION) indexes -> len indexes < u16_MAX ->
  exists m ias, top_level_accounts signer writable indexes empty_callee_map [] = Some (m, ias) /\
    account_indexes ias = indexes /\
    forall ic k index, ic_instruction_accounts ic = ias -> ic_dedup_map ic = m ->
      indexes !! k = Some index ->
      exists first, indexes !! first = Some index /\ index ∉ take first indexes /\ (first <= k)%nat /\
        is_instruction_account_duplicate ic (Z.of_nat k) =
          Ok (if (first =? k)%nat then None else Some (Z.of_nat first)).
Proof.
  intros Hi Hl.
  destruct (top_level_accounts_ok signer writable indexes empty_callee_map [] dedup_empty Hi)
    as (m & ias & E & Hd & Ea); [unfold len in *; cbn; lia|].
  cbn in Ea. exists m, ias. split; [done|]. split; [done|]. intros ic k index <- <- Hk.
  rewrite <- Ea in *. apply is_duplicate_ok; [done| |done|].
  - unfold len, account_indexes in *. rewrite length_map in Hl. lia.
  - by apply (Forall_lookup_1 _ _ _ _ Hi Hk).
Qed.

Lemma top_level_duplicates_witness :
  exists m ias, top_level_accounts (fun _ => false) (fun _ => true) [5; 3; 5] empty_callee_map [] = Some (m, ias) /\
    is_instruction_account_duplicate (mkInstructionContext 0 0 0 ias m []) 2 = Ok (Some 0).
Proof.
  destruct (top_level_duplicates (fun _ => false) (fun _ => true) [5; 3; 5]) as (m & ias & E & _ & H).
  - repeat constructor; vm_compute; discriminate.
  - by vm_compute.
  - exists m, ias. split; [exact E|].
    destruct (H (mkInstructionContext 0 0 0 ias m []) 2%nat 5 eq_refl eq_refl eq_refl)
      as (first & Hf & Hno & Hle & E2).
    change 2 with (Z.of_nat 2) at 1. rewrite E2. clear -Hf Hno Hle.
    destruct first as [|[|[|first]]]; [done|by vm_compute in Hf| |lia].
    exfalso. apply Hno. by vm_compute; constructor.
Defined.

(** ** Cross-program invocations *)

(** One account has no more privileges than another. *)
Definition flags_le (ia ia' : InstructionAccount) : Prop :=
  (is_writable ia = true -> is_writable ia' = true) /\ (is_signer ia = true -> is_signer ia' = true).

Lemma set_flags ia s w :
  let ia' := set_is_writable (set_is_signer ia s) w in
  is_signer ia' = s /\ is_writable ia' = w /\ index_in_transaction ia' = index_in_transaction ia.
Proof. cbn. by destruct s, w. Qed.

Lemma new_flags index s w :
  is_signer (InstructionAccount_new index s w) = s /\ is_writable (InstructionAccount_new index s w) = w.
Proof. by destruct s, w. Qed.

Section invocation.
Context (c : TransactionContext) (Hnumber : accounts_len (accounts c) <= MAX_ACCOUNTS_PER_TRANSACTION).

Lemma position_ok key l i j :
  position key l i = Some j -> i <= j /\ l !! Z.to_nat (j - i) = Some key.
Proof.
  revert i; induction l as [|k l IH]; intros i E; cbn in E; [done|]. case_bool_decide as Ek.
  - injection E as <-. subst k. rewrite Z.sub_diag. done.
  - apply IH in E as [Hle E]. split; [lia|].
    replace (Z.to_nat (j - i)) with (S (Z.to_nat (j - (i + 1)))) by lia. done.
Qed.

Lemma find_index_ok key index :
  find_index_of_account c key = Some index ->
  0 <= index < MAX_ACCOUNTS_PER_TRANSACTION /\ account_key (accounts c) index = Some key.
Proof.
  unfold find_index_of_account. destruct (position _ _ _) as [j|] eqn:E; [|done]. intros [= <-].
  apply position_ok in E as [Hj E]. rewrite Z.sub_0_r in E. apply lookup_lt_Some in E as Hlt.
  unfold account_keys, accounts_len, len in *. rewrite length_map in Hlt.
  unfold MAX_ACCOUNTS_PER_TRANSACTION in *.
  rewrite cast_u_id by (unfold is_u; lia). split; [lia|]. unfold account_key.
  change (map account_key_ ?l) with (account_key_ <$> l) in E. by rewrite list_lookup_fmap in E.
Qed.

(** The instruction account that was made for a meta. *)
Record for_meta (meta : AccountMeta) (ia : InstructionAccount) : Prop := {
  for_key : account_key (accounts c) (index_in_transaction ia) = Some (meta_pubkey meta);
  for_range : 0 <= index_in_transaction ia < MAX_ACCOUNTS_PER_TRANSACTION;
  for_writable : meta_is_writable meta = true -> is_writable ia = true;
  for_signer : meta_is_signer meta = true -> is_signer ia = true
}.

Lemma for_meta_le meta ia ia' :
  for_meta meta ia -> index_in_transaction ia' = index_in_transaction ia -> flags_le ia ia' ->
  for_meta meta ia'.
Proof. intros [] E [Hw Hs]. split; rewrite ?E; auto. Qed.

(** The account at the first occurrence has the most privileges. *)
Definition first_has_most (ias : list InstructionAccount) : Prop :=
  forall k ia first ia', ias !! k = Some ia -> ias !! first = Some ia' ->
    index_in_transaction ia' = index_in_transaction ia ->
    index_in_transaction ia ∉ take first (account_indexes ias) -> flags_le ia ia'.

Record collected (metas : list AccountMeta) (callee_map : list Z) (ias : list InstructionAccount) : Prop := {
  coll_dedup : dedup_ok (account_indexes ias) callee_map;
  coll_metas : Forall2 for_meta metas ias;
  coll_first : first_has_most ias
}.

Lemma account_indexes_lookup ias k ia :
  ias !! k = Some ia -> account_indexes ias !! k = Some (index_in_transaction ia).
Proof.
  intros H. unfold account_indexes. change (map ?f ias) with (f <$> ias).
  by rewrite list_lookup_fmap, H.
Qed.

Lemma account_indexes_insert ias k ia ia' :
  ias !! k = Some ia -> index_in_transaction ia' = index_in_transaction ia ->
  account_indexes (<[k := ia']> ias) = account_indexes ias.
Proof.
  intros H E. unfold account_indexes. change (map ?f ?l) with (f <$> l).
  rewrite list_fmap_insert, E. apply list_insert_id. by rewrite list_lookup_fmap, H.
Qed.

(** First occurrences are unique. *)
Lemma first_unique (l : list Z) x i j :
  l !! i = Some x -> x ∉ take i l -> l !! j = Some x -> x ∉ take j l -> i = j.
Proof.
  intros Hi Hni Hj Hnj. destruct (lt_eq_lt_dec i j) as [[Hlt|]|Hlt]; [|done|]; exfalso.
  - apply Hnj, (list_elem_of_lookup_2 _ i). by rewrite lookup_take_lt.
  - apply Hni, (list_elem_of_lookup_2 _ j). by rewrite lookup_take_lt.
Qed.

(** A repeated account: the first occurrence takes the union of the flags, and the new one is a
    copy of it. *)
Lemma collect_repeated metas m ias meta index e ia ia' :
  collected metas m ias -> len ias < u16_MAX ->
  account_key (accounts c) index = Some (meta_pubkey meta) -> 0 <= index < MAX_ACCOUNTS_PER_TRANSACTION ->
  entry_ok (account_indexes ias) index e -> e < len ias -> ias !! Z.to_nat e = Some ia ->
  ia' = set_is_writable (set_is_signer ia (is_signer ia || meta_is_signer meta))
          (is_writable ia || meta_is_writable meta) ->
  collected (metas ++ [meta]) m (<[Z.to_nat e := ia']> ias ++ [ia']).
Proof.
  intros [H1 H2 H3] Hl Hk Hi He Hlt Eia Eia'.
  assert (len (account_indexes ias) = len ias) as El by (unfold len, account_indexes; by rewrite length_map).
  destruct He as [[-> Hno]|(k & -> & Ek & Hno)]; [lia|]. rewrite Nat2Z.id in *.
  pose proof (account_indexes_lookup _ _ _ Eia) as Eidx. rewrite Ek in Eidx. injection Eidx as Eidx.
  destruct (set_flags ia (is_signer ia || meta_is_signer meta) (is_writable ia || meta_is_writable meta))
    as (Fs & Fw & Fi). rewrite <- Eia' in Fs, Fw, Fi. clear Eia'.
  assert (flags_le ia ia') as Hle.
  { split; [rewrite Fw|rewrite Fs]; intros ->; done. }
  assert (account_indexes (<[k := ia']> ias ++ [ia']) = account_indexes ias ++ [index]) as Ea.
  { unfold account_indexes at 1. rewrite map_app. fold (account_indexes (<[k := ia']> ias)).
    rewrite (account_indexes_insert _ _ _ _ Eia Fi). cbn. by rewrite Fi, <- Eidx. }
  split.
  - rewrite Ea. apply dedup_append_old; [done|]. by eapply list_elem_of_lookup_2.
  - apply Forall2_app.
    + apply Forall2_same_length_lookup. pose proof (Forall2_length _ _ _ H2).
      split; [by rewrite length_insert|]. intros j mt x Hm Hx.
      apply list_lookup_insert_Some in Hx as [(<- & <- & _)|[Hne Hx]].
      * eapply for_meta_le; [exact (Forall2_lookup_lr _ _ _ _ _ _ H2 Hm Eia)|done|done].
      * exact (Forall2_lookup_lr _ _ _ _ _ _ H2 Hm Hx).
    + repeat constructor; rewrite ?Fi, <- ?Eidx; [done|lia|lia| |].
      * rewrite Fw. intros ->. apply orb_true_r.
      * rewrite Fs. intros ->. apply orb_true_r.
  - intros i x first y Hx Hy Exy Hno'. rewrite Ea in Hno'.
    assert (forall j z, (<[k := ia']> ias ++ [ia']) !! j = Some z ->
      index_in_transaction z = index -> index ∉ take j (account_indexes ias ++ [index]) -> z = ia') as Hfirst.
    { intros j z Hz Ez Hnoz. assert (j = k) as ->.
      { apply (first_unique (account_indexes ias ++ [index]) index).
        - rewrite <- Ea. rewrite <- Ez. by apply account_indexes_lookup.
        - done.
        - rewrite lookup_app_l by (by eapply lookup_lt_Some). done.
        - rewrite take_app_le by (apply lookup_lt_Some in Ek; lia). done. }
      rewrite lookup_app_l in Hz by (rewrite length_insert; by eapply lookup_lt_Some).
      rewrite list_lookup_insert_eq in Hz by (by eapply lookup_lt_Some). by injection Hz. }
    destruct (decide (index_in_transaction x = index)) as [Ex|Nx].
    + rewrite Ex in Hno'. rewrite (Hfirst first y Hy ltac:(congruence) Hno').
      apply lookup_app_Some in Hx as [Hx|[Hge Hx]].
      * apply list_lookup_insert_Some in Hx as [(_ & <- & _)|[Hne Hx]]; [by split|].
        destruct (H3 i x k ia Hx Eia ltac:(congruence) ltac:(rewrite Ex; done)) as [Lw Ls].
        destruct Hle as [Mw Ms]. split; auto.
      * apply list_lookup_singleton_Some in Hx as [_ <-]. by split.
    + assert (ias !! i = Some x /\ ias !! first = Some y) as [Hx' Hy'].
      { split.
        - apply lookup_app_Some in Hx as [Hx|[_ Hx]].
          + apply list_lookup_insert_Some in Hx as [(_ & <- & _)|[_ Hx]]; [congruence|done].
          + apply list_lookup_singleton_Some in Hx as [_ <-]. congruence.
        - apply lookup_app_Some in Hy as [Hy|[_ Hy]].
          + apply list_lookup_insert_Some in Hy as [(_ & <- & _)|[_ Hy]]; [congruence|done].
          + apply list_lookup_singleton_Some in Hy as [_ <-]. congruence. }
      apply (H3 i x first y Hx' Hy' Exy). apply lookup_lt_Some in Hy'.
      rewrite take_app_le in Hno' by (unfold account_indexes; rewrite length_map; lia). done.
Qed.

(** The first occurrence of an account. *)
Lemma collect_new metas m ias meta index ia :
  collected metas m ias -> len ias < u16_MAX ->
  account_key (accounts c) index = Some (meta_pubkey meta) -> 0 <= index < MAX_ACCOUNTS_PER_TRANSACTION ->
  index ∉ account_indexes ias ->
  ia = InstructionAccount_new index (meta_is_signer meta) (meta_is_writable meta) ->
  collected (metas ++ [meta]) (<[Z.to_nat index := as_u16 (len ias)]> m) (ias ++ [ia]).
Proof.
  intros [H1 H2 H3] Hl Hk Hi Hno Eia.
  destruct (new_flags index (meta_is_signer meta) (meta_is_writable meta)) as [Fs Fw].
  assert (index_in_transaction ia = index) as Fi by by rewrite Eia.
  rewrite <- Eia in Fs, Fw. clear Eia.
  assert (account_indexes (ias ++ [ia]) = account_indexes ias ++ [index]) as Ea.
  { unfold account_indexes. rewrite map_app. cbn. by rewrite Fi. }
  split.
  - rewrite Ea. rewrite cast_u_id by (pose proof (len_nonneg ias); unfold is_u, u16_MAX in *; lia).
    replace (len ias) with (len (account_indexes ias)) by (unfold len, account_indexes; by rewrite length_map).
    apply dedup_append_new; [done|done|lia].
  - apply Forall2_app; [done|]. repeat constructor; rewrite ?Fi; [done|lia|lia|by rewrite Fw|by rewrite Fs].
  - assert (forall j z, ias !! j = Some z -> index_in_transaction z <> index) as Hold.
    { intros j z Hz <-. apply Hno. eapply list_elem_of_lookup_2. by apply account_indexes_lookup. }
    intros i x first y Hx Hy Exy Hno'. rewrite Ea in Hno'.
    apply lookup_app_Some in Hx as [Hx|[_ Hx]]; apply lookup_app_Some in Hy as [Hy|[_ Hy]].
    + apply (H3 i x first y Hx Hy Exy). apply lookup_lt_Some in Hy.
      rewrite take_app_le in Hno' by (unfold account_indexes; rewrite length_map; lia). done.
    + apply list_lookup_singleton_Some in Hy as [_ <-]. exfalso. apply (Hold i x Hx). congruence.
    + apply list_lookup_singleton_Some in Hx as [_ <-]. exfalso. apply (Hold first y Hy). congruence.
    + apply list_lookup_singleton_Some in Hx as [_ <-]. apply list_lookup_singleton_Some in Hy as [_ <-].
      by split.
Qed.

Lemma collect_accounts_ok metas metas0 m ias :
  collected metas0 m ias -> len metas0 + len metas < u16_MAX ->
  exists r, collect_accounts c metas m ias = Some r /\
    forall m' ias', r = Ok (m', ias') -> collected (metas0 ++ metas) m' ias'.
Proof.
  revert metas0 m ias; induction metas as [|meta metas IH]; intros metas0 m ias Hc Hl;
    cbn [collect_accounts].
  { eexists. split; [done|]. intros m' ias' [= <- <-]. by rewrite app_nil_r. }
  destruct (find_index_of_account c (meta_pubkey meta)) as [index|] eqn:Ei; [|by eexists].
  apply find_index_ok in Ei as [Hi Hk].
  destruct (dedup_lookup _ _ index (coll_dedup _ _ _ Hc) Hi) as (e & -> & He).
  pose proof (Forall2_length _ _ _ (coll_metas _ _ _ Hc)) as Elen.
  assert (len ias = len metas0 /\ len (meta :: metas) = len metas + 1 /\ 0 <= len metas) as (L1 & L2 & L3).
  { unfold len. cbn [length]. lia. }
  destruct (entry_below _ _ _ He) as [Hb Hb'].
  { unfold len, account_indexes in *. rewrite length_map. lia. }
  assert (len (account_indexes ias) = len ias) as El by (unfold len, account_indexes; by rewrite length_map).
  rewrite El in Hb. rewrite (cons_middle meta metas0 metas), app_assoc.
  assert (len (metas0 ++ [meta]) + len metas < u16_MAX) as Hl'.
  { rewrite len_app. change (len [meta]) with 1. lia. }
  destruct (Z.ltb_spec e (len ias)) as [Hlt|Hge].
  - destruct (Hb' (proj1 Hb Hlt)) as [He0 Elook].
    destruct (ias !! Z.to_nat e) as [ia|] eqn:Eia; [|by eexists].
    apply IH; [|exact Hl']. eapply collect_repeated; try done. lia.
  - apply IH; [|exact Hl']. eapply collect_new; try done; [lia|].
    intros Hin. apply Hb in Hin. lia.
Qed.

(** The caller grants what the callee account has. *)
Definition approved (caller : InstructionContext) (signers : list Pubkey) (meta : AccountMeta)
    (ia : InstructionAccount) : Prop :=
  exists ca, ca ∈ ic_instruction_accounts caller /\ index_in_transaction ca = index_in_transaction ia /\
    (is_writable ia = true -> is_writable ca = true) /\
    (is_signer ia = true -> is_signer ca = true \/ meta_pubkey meta ∈ signers).

Section check.
Context (caller : InstructionContext) (signers : list Pubkey) (metas : list AccountMeta).
Context (m : list Z) (ias0 : list InstructionAccount).
Context (Hcaller : dedup_ok (account_indexes (ic_instruction_accounts caller)) (ic_dedup_map caller)).
Context (Hcoll : collected metas m ias0) (Hlen : len ias0 < u16_MAX).

(** The state of the loop when the accounts before [i] have been handled. *)
Record checked (i : nat) (ias : list InstructionAccount) : Prop := {
  chk_indexes : account_indexes ias = account_indexes ias0;
  chk_flags k x x0 : ias !! k = Some x -> ias0 !! k = Some x0 -> flags_le x0 x;
  chk_first k x first r : ias !! k = Some x -> ias0 !! first = Some r ->
    index_in_transaction r = index_in_transaction x ->
    index_in_transaction x ∉ take first (account_indexes ias0) ->
    flags_le x r /\ (k = first -> x = r);
  chk_approved k x meta : (k < i)%nat -> ias !! k = Some x -> metas !! k = Some meta ->
    approved caller signers meta x
}.

Lemma checked_start : checked 0 ias0.
Proof.
  split; [done| | |].
  - intros k x x0 Hx Hx0. rewrite Hx in Hx0. by injection Hx0 as <-.
  - intros k x first r Hx Hr E Hno. split; [by eapply (coll_first _ _ _ Hcoll)|].
    intros ->. rewrite Hx in Hr. by injection Hr.
  - intros k x meta Hk. lia.
Qed.

(** The first occurrence of the account at a position, and what the callee map says of it. *)
Lemma first_of ias i x :
  checked i ias -> ias !! i = Some x ->
  exists first r, m !! Z.to_nat (index_in_transaction x) = Some (Z.of_nat first) /\
    ias0 !! first = Some r /\ ias !! first = Some r /\ index_in_transaction r = index_in_transaction x /\
    index_in_transaction x ∉ take first (account_indexes ias0) /\ (first <= i)%nat.
Proof.
  intros Hc Hx. pose proof (account_indexes_lookup _ _ _ Hx) as Ei. rewrite (chk_indexes _ _ Hc) in Ei.
  assert (exists x0, ias0 !! i = Some x0 /\ index_in_transaction x0 = index_in_transaction x) as (x0 & Ex0 & Eidx).
  { unfold account_indexes in Ei. change (map ?f ias0) with (f <$> ias0) in Ei.
    rewrite list_lookup_fmap in Ei. destruct (ias0 !! i) as [x0|]; [|done]. exists x0. by injection Ei. }
  assert (length metas = length ias0) as Elen by exact (Forall2_length _ _ _ (coll_metas _ _ _ Hcoll)).
  destruct (lookup_lt_is_Some_2 metas i) as [meta Em]; [apply lookup_lt_Some in Ex0; lia|].
  pose proof (for_range _ _ (Forall2_lookup_lr _ _ _ _ _ _ (coll_metas _ _ _ Hcoll) Em Ex0)) as Hr.
  rewrite Eidx in Hr. destruct (dedup_lookup _ _ _ (coll_dedup _ _ _ Hcoll) Hr) as (e & Ee & He).
  destruct He as [[_ Hno]|(first & -> & Hf & Hno)].
  { exfalso. apply Hno. by eapply list_elem_of_lookup_2. }
  assert (exists r, ias !! first = Some r /\ index_in_transaction r = index_in_transaction x) as (r & Er & Eri).
  { rewrite <- (chk_indexes _ _ Hc) in Hf. unfold account_indexes in Hf.
    change (map ?f ias) with (f <$> ias) in Hf. rewrite list_lookup_fmap in Hf.
    destruct (ias !! first) as [r|]; [|done]. exists r. by injection Hf. }
  destruct (lookup_lt_is_Some_2 ias0 first) as [r0 Er0].
  { apply lookup_lt_Some in Hf. unfold account_indexes in Hf. by rewrite length_map in Hf. }
  assert (index_in_transaction r0 = index_in_transaction x) as Er0i.
  { pose proof (account_indexes_lookup _ _ _ Er0) as H0. congruence. }
  destruct (chk_first _ _ Hc first r first r0 Er Er0 ltac:(congruence) ltac:(rewrite Eri; done)) as [_ Heq].
  specialize (Heq eq_refl) as ->.
  exists first, r0. repeat split; try done.
  destruct (decide (first <= i)%nat) as [|Hgt]; [done|]. exfalso. apply Hno.
  apply (list_elem_of_lookup_2 _ i). by rewrite lookup_take_lt by lia.
Qed.

Lemma approved_le meta meta' x r :
  approved caller signers meta r -> flags_le x r -> index_in_transaction x = index_in_transaction r ->
  meta_pubkey meta' = meta_pubkey meta -> approved caller signers meta' x.
Proof.
  intros (ca & Hin & E & Hw & Hs) [Lw Ls] Ex Ek. exists ca. rewrite Ex, Ek. repeat split; auto.
Qed.

(** Handling a repeated account: it gets the flags of the first occurrence. *)
Lemma checked_repeated i ias x first ref x' :
  checked i ias -> ias !! i = Some x -> ias0 !! first = Some ref -> ias !! first = Some ref ->
  index_in_transaction ref = index_in_transaction x ->
  index_in_transaction x ∉ take first (account_indexes ias0) -> (first < i)%nat ->
  x' = set_is_writable (set_is_signer x (is_signer x || is_signer ref)) (is_writable x || is_writable ref) ->
  checked (S i) (<[i := x']> ias).
Proof.
  intros Hc Hx Hr0 Hr Ei Hno Hlt Ex'.
  destruct (set_flags x (is_signer x || is_signer ref) (is_writable x || is_writable ref)) as (Fs & Fw & Fi).
  rewrite <- Ex' in Fs, Fw, Fi. clear Ex'.
  destruct (chk_first _ _ Hc i x first ref Hx Hr0 Ei Hno) as [[Lw Ls] _].
  assert (flags_le x x') as Hup by (split; [rewrite Fw|rewrite Fs]; intros ->; done).
  assert (flags_le x' ref) as Hdown.
  { split; [rewrite Fw|rewrite Fs]; intros Hor; apply orb_true_iff in Hor as [|]; auto. }
  split.
  - by rewrite (account_indexes_insert _ _ _ _ Hx Fi), (chk_indexes _ _ Hc).
  - intros k y y0 Hy Hy0. apply list_lookup_insert_Some in Hy as [(<- & <- & _)|[_ Hy]].
    + destruct (chk_flags _ _ Hc i x y0 Hx Hy0), Hup. split; auto.
    + by eapply (chk_flags _ _ Hc k).
  - intros k y f r Hy Hfr Er Hnof. apply list_lookup_insert_Some in Hy as [(<- & <- & _)|[Hne Hy]].
    + rewrite Fi in Er, Hnof.
      assert (f = first) as ->.
      { apply (first_unique (account_indexes ias0) (index_in_transaction x)); [|done| |done].
        - rewrite <- Er. by apply account_indexes_lookup.
        - rewrite <- Ei. by apply account_indexes_lookup. }
      rewrite Hr0 in Hfr. injection Hfr as <-. split; [done|lia].
    + by apply (chk_first _ _ Hc k).
  - intros k y meta Hk Hy Hm. apply list_lookup_insert_Some in Hy as [(<- & <- & _)|[Hne Hy]].
    + assert (length metas = length ias0) as Elen by exact (Forall2_length _ _ _ (coll_metas _ _ _ Hcoll)).
      destruct (lookup_lt_is_Some_2 metas first) as [mf Emf]; [apply lookup_lt_Some in Hr0; lia|].
      eapply approved_le; [exact (chk_approved _ _ Hc first ref mf Hlt Hr Emf)|done|congruence|].
      destruct (lookup_lt_is_Some_2 ias0 i) as [x0 Hx0].
      { apply lookup_lt_Some in Hm. lia. }
      pose proof (for_key _ _ (Forall2_lookup_lr _ _ _ _ _ _ (coll_metas _ _ _ Hcoll) Hm Hx0)) as K1.
      pose proof (for_key _ _ (Forall2_lookup_lr _ _ _ _ _ _ (coll_metas _ _ _ Hcoll) Emf Hr0)) as K2.
      pose proof (account_indexes_lookup _ _ _ Hx) as I1. pose proof (account_indexes_lookup _ _ _ Hx0) as I2.
      rewrite (chk_indexes _ _ Hc), I2 in I1. injection I1 as I1. rewrite I1, <- Ei, K2 in K1. by injection K1.
    + apply (chk_approved _ _ Hc k); [lia|done|done].
Qed.

(** Handling a first occurrence: the caller has to grant its flags. *)
Lemma checked_first i ias x meta ca :
  checked i ias -> ias !! i = Some x -> metas !! i = Some meta ->
  ca ∈ ic_instruction_accounts caller -> index_in_transaction ca = index_in_transaction x ->
  is_writable x && negb (is_writable ca) = false ->
  is_signer x && negb (is_signer ca || bool_decide (meta_pubkey meta ∈ signers)) = false ->
  checked (S i) ias.
Proof.
  intros Hc Hx Hm Hca Ei Hw Hs. split; [apply Hc|apply Hc|apply Hc|].
  intros k y meta' Hk Hy Hm'. destruct (decide (k = i)) as [->|Hne].
  - rewrite Hx in Hy. injection Hy as <-. rewrite Hm in Hm'. injection Hm' as <-.
    exists ca. split; [done|]. split; [done|]. split.
    + intros E. rewrite E in Hw. by destruct (is_writable ca).
    + intros E. rewrite E in Hs. destruct (is_signer ca); [by left|].
      case_bool_decide; [by right|done].
  - apply (chk_approved _ _ Hc k); [lia|done|done].
Qed.

Lemma check_accounts_ok n i ias :
  checked i ias -> (i + n = length ias)%nat -> length ias = length ias0 ->
  len (ic_instruction_accounts caller) <= u16_MAX ->
  exists r, check_accounts caller metas signers m (seq i n) ias = Some r /\
    forall ias', r = Ok ias' -> checked (length ias0) ias'.
Proof.
  revert i ias; induction n as [|n IH]; intros i ias Hc Hn El Hcl; cbn [seq check_accounts].
  { eexists. split; [done|]. intros ias' [= <-]. by replace (length ias0) with i by lia. }
  destruct (lookup_lt_is_Some_2 ias i) as [x Hx]; [lia|]. rewrite Hx.
  destruct (first_of ias i x Hc Hx) as (first & ref & -> & Hr0 & Hr & Ei & Hno & Hle).
  assert (length metas = length ias0) as Elen by exact (Forall2_length _ _ _ (coll_metas _ _ _ Hcoll)).
  destruct (lookup_lt_is_Some_2 metas i) as [meta Hm]; [lia|].
  destruct (Z.eqb_spec (Z.of_nat i) (Z.of_nat first)) as [E|Hne]; cbn [negb].
  - destruct (get_index_of_account_in_instruction caller (index_in_transaction x)) as [ci|] eqn:Eci;
      [|by eexists].
    rewrite Hm. unfold get_index_of_account_in_instruction in Eci.
    destruct (ic_dedup_map caller !! _) as [e|] eqn:Ee; [|done].
    destruct (Z.leb_spec (len (ic_instruction_accounts caller)) e) as [|Hlt]; [done|]. injection Eci as ->.
    assert (0 <= index_in_transaction x) as Hpos.
    { destruct (lookup_lt_is_Some_2 metas first) as [mf Emf]; [apply lookup_lt_Some in Hr0; lia|].
      pose proof (for_range _ _ (Forall2_lookup_lr _ _ _ _ _ _ (coll_metas _ _ _ Hcoll) Emf Hr0)). lia. }
    destruct (entry_below _ _ _ (dedup_entry _ _ Hcaller _ _ Hpos Ee)) as [Hb Hb'].
    { unfold len, account_indexes in *. rewrite length_map. lia. }
    assert (len (account_indexes (ic_instruction_accounts caller)) = len (ic_instruction_accounts caller))
      as Ell by (unfold len, account_indexes; by rewrite length_map).
    rewrite Ell in Hb. destruct (Hb' (proj1 Hb Hlt)) as [He0 Elook].
    unfold account_indexes in Elook. change (map ?f ?l) with (f <$> l) in Elook.
    rewrite list_lookup_fmap in Elook.
    destruct (ic_instruction_accounts caller !! Z.to_nat ci) as [ca|] eqn:Eca; [|done].
    injection Elook as Eca'.
    destruct (is_writable x && _) eqn:Ew; [by eexists|].
    destruct (is_signer x && _) eqn:Es; [by eexists|].
    apply IH; [|lia|done|done]. eapply checked_first; try done. by eapply list_elem_of_lookup_2.
  - rewrite Nat2Z.id, Hr. apply IH; [|rewrite length_insert; lia|by rewrite length_insert|done].
    eapply checked_repeated; try done. lia.
Qed.

End check.

Lemma callee_accounts_ok caller instruction signers :
  dedup_ok (account_indexes (ic_instruction_accounts caller)) (ic_dedup_map caller) ->
  len (ic_instruction_accounts caller) <= u16_MAX -> len (instruction_metas instruction) < u16_MAX ->
  exists r, callee_accounts c caller instruction signers = Some r /\
    forall ias m program, r = Ok (ias, m, program) ->
      dedup_ok (account_indexes ias) m /\
      Forall2 (fun meta ia => for_meta meta ia /\ approved caller signers meta ia)
        (instruction_metas instruction) ias.
Proof.
  intros Hd Hcl Hml. unfold callee_accounts.
  destruct (collect_accounts_ok (instruction_metas instruction) [] empty_callee_map [])
    as (r1 & -> & H1); [|done|].
  { split; [apply dedup_empty|constructor|]. intros k ia first ia' Hk. done. }
  destruct r1 as [[m ias]|e]; [|by eexists]. specialize (H1 m ias eq_refl). cbn [app] in H1.
  pose proof (Forall2_length _ _ _ (coll_metas _ _ _ H1)) as Elen.
  assert (len ias < u16_MAX) as Hil by (unfold len in *; lia).
  destruct (check_accounts_ok caller signers (instruction_metas instruction) m ias Hd H1 (length ias) 0 ias)
    as (r2 & -> & H2); [by apply (checked_start caller signers (instruction_metas instruction) m)|lia|done|done|].
  destruct r2 as [ias'|e]; [|by eexists]. specialize (H2 ias' eq_refl).
  eexists. split; [done|]. intros ias1 m1 program E.
  destruct (find_program c caller (program_id instruction)); [|done]. injection E as <- <- _.
  split; [rewrite (chk_indexes _ _ _ _ _ _ H2); apply H1|].
  assert (length ias' = length ias) as El.
  { pose proof (f_equal length (chk_indexes _ _ _ _ _ _ H2)) as Eq. unfold account_indexes in Eq.
    by rewrite !length_map in Eq. }
  apply Forall2_same_length_lookup. split; [lia|]. intros k meta ia Hm Hia.
  destruct (lookup_lt_is_Some_2 ias k) as [ia0 Hia0]; [apply lookup_lt_Some in Hia; lia|]. split.
  - eapply for_meta_le; [exact (Forall2_lookup_lr _ _ _ _ _ _ (coll_metas _ _ _ H1) Hm Hia0)| |].
    + pose proof (account_indexes_lookup _ _ _ Hia) as I1. pose proof (account_indexes_lookup _ _ _ Hia0) as I2.
      rewrite (chk_indexes _ _ _ _ _ _ H2), I2 in I1. by injection I1.
    + by eapply (chk_flags _ _ _ _ _ _ H2).
  - eapply (chk_approved _ _ _ _ _ _ H2); [|done|done]. apply lookup_lt_Some in Hia0. done.
Qed.

End invocation.

(** Cross-program invocations cannot gain privileges. Preparing one does not panic; when it
    succeeds, every account of the callee is the one its meta names, has the privileges that
    were asked for, and each privilege is granted by an account of the caller's instruction or,
    for signatures, by the signers of the program. The prepared accounts are deduplicated
    exactly. *)
Theorem no_privilege_escalation (c : TransactionContext) (caller : InstructionContext)
    (instruction : Instruction) (signers : list Pubkey) :
  accounts_len (accounts c) <= MAX_ACCOUNTS_PER_TRANSACTION ->
  dedup_ok (account_indexes (ic_instruction_accounts caller)) (ic_dedup_map caller) ->
  len (ic_instruction_accounts caller) <= u16_MAX -> len (instruction_metas instruction) < u16_MAX ->
  exists r, callee_accounts c caller instruction signers = Some r /\
    forall ias m program, r = Ok (ias, m, program) ->
      dedup_ok (account_indexes ias) m /\
      Forall2 (fun meta ia =>
          account_key (accounts c) (index_in_transaction ia) = Some (meta_pubkey meta) /\
          (meta_is_writable meta = true -> is_writable ia = true) /\
          (meta_is_signer meta = true -> is_signer ia = true) /\
          exists ca, ca ∈ ic_instruction_accounts caller /\
            index_in_transaction ca = index_in_transaction ia /\
            (is_writable ia = true -> is_writable ca = true) /\
            (is_signer ia = true -> is_signer ca = true \/ meta_pubkey meta ∈ signers))
        (instruction_metas instruction) ias.
Proof.
  intros Hn Hd Hcl Hml.
  destruct (callee_accounts_ok c Hn caller instruction signers Hd Hcl Hml) as (r & E & H).
  exists r. split; [done|]. intros ias m program Er. destruct (H ias m program Er) as [H1 H2].
  split; [done|]. eapply Forall2_impl; [exact H2|]. intros meta ia [[] Ha]. auto.
Qed.

(** A caller with a program and two accounts, prepared as a top-level instruction. *)
Definition example_caller : InstructionContext :=
  match top_level_accounts (fun _ => false) (fun i => i =? 1) [1; 2; 0] empty_callee_map [] with
  | Some (m, ias) => mkInstructionContext 0 0 0 ias m []
  | None => mkInstructionContext 0 0 0 [] [] []
  end.

Lemma example_caller_dedup :
  dedup_ok (account_indexes (ic_instruction_accounts example_caller)) (ic_dedup_map example_caller).
Proof.
  destruct (top_level_accounts_ok (fun _ => false) (fun i => i =? 1) [1; 2; 0] empty_callee_map []
    dedup_empty) as (m & ias & E & H & _).
  - repeat constructor; vm_compute; discriminate.
  - by vm_compute.
  - unfold example_caller. rewrite E. exact H.
Qed.

(** The callee asks for its account twice, once writable; both occurrences become writable. *)
Definition example_instruction : Instruction :=
  mkInstruction (key_of 1) [mkAccountMeta (key_of 2) false false; mkAccountMeta (key_of 2) false true] [].

Lemma no_privilege_escalation_witness :
  exists r, callee_accounts example_pushed example_caller example_instruction [] = Some r /\
    match r with
    | Ok (ias, m, program) => dedup_ok (account_indexes ias) m /\ map is_writable ias = [true; true]
    | Err _ => False
    end.
Proof.
  destruct (no_privilege_escalation example_pushed example_caller example_instruction [])
    as (r & E & H).
  - by vm_compute.
  - exact example_caller_dedup.
  - by vm_compute.
  - by vm_compute.
  - exists r. split; [exact E|].
    assert (match r with Ok (ias, _, _) => map is_writable ias = [true; true] | Err _ => False end) as Hr.
    { clear H. vm_compute in E. by injection E as <-. }
    destruct r as [[[ias m] program]|e]; [|done]. split; [|exact Hr]. by apply (H ias m program).
Defined.

(** ** Reentrancy *)

(** The program of the instruction at a level of the stack. *)
Definition level_program (c : TransactionContext) (level : nat) : option Pubkey :=
  match get_instruction_context_at_nesting_level c (Z.of_nat level) with
  | Ok ic => match get_program_key c ic with Ok k => Some k | Err _ => None end
  | Err _ => None
  end.

(** A program that occurs twice on the stack occurs everywhere in between. *)
Definition reentry_ok (c : TransactionContext) : Prop :=
  forall i j l key, (i <= l <= j)%nat ->
    level_program c i = Some key -> level_program c j = Some key -> level_program c l = Some key.

Lemma level_program_frame c level index f :
  instruction_stack c !! level = Some index -> instruction_trace c !! Z.to_nat index = Some f ->
  level_program c level =
    (if program_account_index_in_tx f =? u16_MAX then None
     else account_key (accounts c) (program_account_index_in_tx f)).
Proof.
  intros Es Ef. unfold level_program, get_instruction_context_at_nesting_level,
    get_instruction_context_at_index_in_trace. rewrite Nat2Z.id, Es, Ef.
  unfold get_program_key, get_index_of_program_account_in_transaction, get_key_of_account_at_index. cbn.
  destruct (_ =? u16_MAX); [done|]. by destruct (account_key _ _).
Qed.

Lemma level_program_none c level :
  (length (instruction_stack c) <= level)%nat -> level_program c level = None.
Proof.
  intros H. unfold level_program, get_instruction_context_at_nesting_level. rewrite Nat2Z.id.
  by rewrite (lookup_ge_None_2 _ _ H).
Qed.

(** Same keys, and the frames that both stacks share are the same. *)
Definition keeps_programs (c c' : TransactionContext) : Prop :=
  (forall k, account_key (accounts c') k = account_key (accounts c) k) /\
  forall level index, (level < length (instruction_stack c))%nat ->
    instruction_stack c' !! level = Some index ->
    instruction_stack c !! level = Some index /\
    instruction_trace c' !! Z.to_nat index = instruction_trace c !! Z.to_nat index.

Lemma keeps_refl c : keeps_programs c c.
Proof. split; [done|]. intros level index _ H. done. Qed.

Lemma keeps_level c c' level :
  stack_ok c -> keeps_programs c c' -> (level < length (instruction_stack c))%nat ->
  (level < length (instruction_stack c'))%nat -> level_program c' level = level_program c level.
Proof.
  intros Hs [Hk Hf] Hl Hl'. destruct (lookup_lt_is_Some_2 _ _ Hl') as [index Ei].
  destruct (Hf level index Hl Ei) as [Ei0 Et]. destruct (Hs level index Ei0) as (_ & _ & f & Ef & _).
  rewrite Ef in Et. rewrite (level_program_frame c' _ _ _ Ei Et), (level_program_frame c _ _ _ Ei0 Ef).
  by rewrite Hk.
Qed.

(** A step that does not push keeps the discipline. *)
Lemma keeps_reentry c c' :
  stack_ok c -> reentry_ok c -> keeps_programs c c' ->
  (length (instruction_stack c') <= length (instruction_stack c))%nat -> reentry_ok c'.
Proof.
  intros Hs Hr Hk Hl i j l key Hijl Hi Hj.
  assert (j < length (instruction_stack c'))%nat as Hj'.
  { destruct (decide (j < length (instruction_stack c'))%nat) as [|Hge]; [done|].
    rewrite level_program_none in Hj by lia. done. }
  rewrite (keeps_level c c' i) in Hi by (done || lia). rewrite (keeps_level c c' j) in Hj by (done || lia).
  rewrite (keeps_level c c' l) by (done || lia). by apply (Hr i j l).
Qed.

Lemma put_view_keys a index v k :
  account_key_ (abi_account v) = account_key_ (abi_account (get_view a index)) ->
  account_key (put_view index v a) k = account_key a k.
Proof.
  intros E. unfold account_key, put_view. cbn.
  destruct (decide (Z.to_nat index = Z.to_nat k)) as [<-|Hne]; [|by rewrite list_lookup_insert_ne].
  destruct (shared_account_fields a !! Z.to_nat index) as [s|] eqn:Es.
  - rewrite list_lookup_insert_eq by (by eapply lookup_lt_Some). cbn. f_equal. rewrite E.
    unfold get_view. cbn. by rewrite (list_lookup_total_correct _ _ _ Es).
  - rewrite list_insert_ge by (by apply lookup_ge_None_1). by rewrite Es.
Qed.

Lemma drop_ref_mut_keys a index k : account_key (drop_ref_mut a index) k = account_key a k.
Proof. unfold drop_ref_mut. by apply (put_view_keys a index). Qed.

Lemma try_borrow_mut_keys a index k :
  account_key (accounts_try_borrow_mut a index).1 k = account_key a k.
Proof.
  unfold accounts_try_borrow_mut. destruct (_ !! _); [|done]. by destruct (counter_try_borrow_mut _).
Qed.

Section reentrancy.
Context (is_exempt : Z -> Z -> bool) (instructions_id sysvar_id : Pubkey).
Context (store : list Z -> Z -> Result (list Z) InstructionError).
Context `{!StoreIndexLaw store}.

(** What can happen to an invoke context. *)
Inductive invoke_step : InvokeContext -> InvokeContext -> Prop :=
| invoke_step_prepare ic ic' instruction signers r :
    prepare_next_instruction ic instruction signers = Some (ic', r) -> invoke_step ic ic'
| invoke_step_top_level ic ic' signer writable indexes program data r :
    prepare_next_top_level_instruction ic signer writable indexes program data = Some (ic', r) ->
    invoke_step ic ic'
| invoke_step_push ic ic' r :
    invoke_push instructions_id sysvar_id store ic = (ic', r) -> invoke_step ic ic'
| invoke_step_pop ic ic' r : invoke_pop ic = (ic', r) -> invoke_step ic ic'
| invoke_step_account ic c' :
    account_step is_exempt (transaction_context ic) c' ->
    invoke_step ic (set_transaction_context c' ic)
| invoke_step_meter ic ic' amount r : consume_checked ic amount = (ic', r) -> invoke_step ic ic'
| invoke_step_syscall ic ic' x r : set_syscall_context ic x = (ic', r) -> invoke_step ic ic'.

Lemma configure_keeps program ias map data caller c :
  stack_ok c -> let c' := (configure_next_instruction program ias map data caller c).1 in
  keeps_programs c c' /\ instruction_stack c' = instruction_stack c.
Proof.
  intros Hs c'. unfold c', configure_next_instruction.
  destruct (last (instruction_trace c)) as [f|] eqn:El; [|done]. split; [|done]. split; [done|].
  intros level index Hl Ei. cbn in Ei. split; [done|]. destruct (Hs level index Ei) as (H0 & H1 & _).
  cbn. destruct (instruction_trace c) as [|x l] using rev_ind; [done|].
  rewrite removelast_last. rewrite len_app in H1. change (len [x]) with 1 in H1. unfold len in H1.
  by rewrite !lookup_app_l by lia.
Qed.

Lemma account_step_keeps l0 d0 c c' :
  accounts_ok l0 d0 (accounts c) -> account_step is_exempt c c' -> keeps_programs c c'.
Proof.
  intros Ha Hs. destruct (account_step_ok is_exempt l0 d0 c c' Ha Hs) as [_ (E1 & E2 & _ & _)].
  split; [|intros level index _ Hi; rewrite E1 in Hi; by rewrite E2].
  intros k. destruct Hs as [ic i c c' r E|b op c c' r Hh Hop E|b c Hh|key data c c' r E].
  - unfold try_borrow_instruction_account, tx_bind, tx_lift, on_accounts in E.
    destruct (get_instruction_account ic i) as [ia|]; [|by injection E as <- _].
    pose proof (try_borrow_mut_keys (accounts c) (index_in_transaction ia) k) as Hk.
    destruct (accounts_try_borrow_mut _ _) as [a r']; cbn in Hk.
    assert (c' = set_accounts a c) as -> by (destruct r'; by injection E as <- _). exact Hk.
  - pose proof (held_range _ _ b c Ha Hh) as Hr.
    pose proof (run_op_effect is_exempt l0 d0 b op c c' r Ha Hr Hop E) as He.
    destruct He as [|v' dl dd [Ek _ _ _ _ _ _ _]]; [done|]. by apply (put_view_keys (accounts c)).
  - apply drop_ref_mut_keys.
  - by injection E as <- _.
Qed.

Lemma pop_keeps c :
  stack_ok c -> keeps_programs c (tx_pop c).1 /\
  (length (instruction_stack (tx_pop c).1) <= length (instruction_stack c))%nat.
Proof.
  intros Hs. unfold tx_pop. destruct (is_nil (instruction_stack c)); [done|].
  destruct (pop_check c) as [c1 detected] eqn:Ep.
  assert ((forall k, account_key (accounts c1) k = account_key (accounts c) k) /\
    instruction_stack c1 = instruction_stack c /\ instruction_trace c1 = instruction_trace c) as (K & S1 & T1).
  { unfold pop_check, tx_bind, tx_lift, tx_get in Ep.
    destruct (get_current_instruction_context c) as [ic|]; [|by injection Ep as <- _].
    destruct (get_index_of_program_account_in_transaction ic) as [index|]; [|by injection Ep as <- _].
    pose proof (try_borrow_mut_keys (accounts c) index) as Hk.
    destruct (accounts_try_borrow_mut (accounts c) index) as [a [v|e]]; [|by injection Ep as <- _].
    injection Ep as <- _. split; [|done]. intros k. cbn. rewrite drop_ref_mut_keys. apply Hk. }
  set (c2 := set_stack _ c1).
  assert (forall c3, accounts c3 = accounts c2 -> instruction_stack c3 = instruction_stack c2 ->
    instruction_trace c3 = instruction_trace c2 ->
    keeps_programs c c3 /\ (length (instruction_stack c3) <= length (instruction_stack c))%nat) as H.
  { intros c3 A3 S3 T3. rewrite S3. cbn [c2 set_stack instruction_stack].
    rewrite S1. split; [split|].
    - intros k. rewrite A3. apply K.
    - intros level index Hl Hi. rewrite S3 in Hi. cbn in Hi. rewrite S1 in Hi. rewrite T3. cbn. rewrite T1.
      split; [|done]. destruct (instruction_stack c) as [|x l] using rev_ind; [done|].
      rewrite removelast_last in Hi. rewrite lookup_app_l by (by eapply lookup_lt_Some). done.
    - destruct (instruction_stack c) as [|x l] using rev_ind; [done|].
      rewrite removelast_last, length_app. lia. }
  destruct (last (instruction_stack c2)); destruct detected as [[]|]; by apply H.
Qed.

Lemma store_current_index_keys c k :
  account_key (accounts (store_current_index instructions_id sysvar_id store c).1) k =
  account_key (accounts c) k.
Proof.
  unfold store_current_index. destruct (find_index_of_account _ _) as [index|]; [|done].
  pose proof (try_borrow_mut_keys (accounts c) index k) as Hk.
  assert (forall v, (accounts_try_borrow_mut (accounts c) index).2 = Ok v ->
    v = get_view (accounts_try_borrow_mut (accounts c) index).1 index) as Hv.
  { intros v. unfold accounts_try_borrow_mut. destruct (_ !! _); [|done].
    destruct (counter_try_borrow_mut _); [|done]. by intros [= <-]. }
  destruct (accounts_try_borrow_mut (accounts c) index) as [a [v|e]]; cbn in Hk, Hv; [|exact Hk].
  rewrite (Hv v eq_refl) in *. destruct (negb _); cbn [fst accounts set_accounts].
  { by rewrite drop_ref_mut_keys. }
  destruct (store _ _); cbn [fst accounts set_accounts]; rewrite drop_ref_mut_keys.
  - by rewrite put_view_keys.
  - by rewrite put_view_keys.
Qed.

(** A push keeps the programs below, and puts the prepared instruction on top. *)
Lemma push_keeps l0 d0 c :
  context_ok l0 d0 c ->
  let c' := (tx_push instructions_id sysvar_id store c).1 in
  keeps_programs c c' /\
  (instruction_stack c' = instruction_stack c \/
   exists f f', instruction_stack c' = instruction_stack c ++ [get_instruction_trace_length c] /\
     instruction_trace c !! Z.to_nat (get_instruction_trace_length c) = Some f /\
     instruction_trace c' !! Z.to_nat (get_instruction_trace_length c) = Some f' /\
     program_account_index_in_tx f' = program_account_index_in_tx f).
Proof.
  intros [_ H2 _ H4 _] c'. assert (c' = (tx_push instructions_id sysvar_id store c).1) as E by done.
  clearbody c'. unfold tx_push in E. destruct (_ && _); [subst c'; split; [apply keeps_refl|by left]|].
  unfold tx_bind at 1, on_last_frame in E.
  destruct (last (instruction_trace c)) as [f|] eqn:El; [|subst c'; split; [apply keeps_refl|by left]].
  set (g := mkInstructionFrame _ _ _ _ _) in E. set (c1 := set_trace _ c) in E.
  destruct (instruction_trace c) as [|x pre _] eqn:Et using rev_ind; [done|].
  rewrite last_snoc in El. injection El as ->.
  assert (instruction_trace c1 = pre ++ [g]) as T1 by (cbn; by rewrite removelast_last).
  assert (forall i, get_instruction_trace_length (set_trace (pre ++ [i]) c) = Z.of_nat (length pre)) as Hlen.
  { intros i. unfold get_instruction_trace_length. cbn. rewrite len_app. change (len [i]) with 1.
    unfold len, saturating_sub. lia. }
  assert (get_instruction_trace_length c = Z.of_nat (length pre)) as Elen.
  { unfold get_instruction_trace_length. rewrite Et, len_app. change (len [f]) with 1.
    unfold len, saturating_sub. lia. }
  assert (get_instruction_trace_length c1 = Z.of_nat (length pre)) as Elen1.
  { unfold get_instruction_trace_length. rewrite T1, len_app. change (len [g]) with 1.
    unfold len, saturating_sub. lia. }
  assert (forall d extra, (forall k, account_key (accounts d) k = account_key (accounts c) k) ->
    instruction_trace d = pre ++ g :: extra ->
    (instruction_stack d = instruction_stack c \/
     instruction_stack d = instruction_stack c ++ [Z.of_nat (length pre)]) -> keeps_programs c d) as Hkeep.
  { intros d extra Kd Td Sd. split; [done|]. intros level index Hl Hi.
    assert (instruction_stack c !! level = Some index) as Hi'.
    { destruct Sd as [Sd|Sd]; rewrite Sd in Hi; [done|]. by rewrite lookup_app_l in Hi. }
    split; [done|]. destruct (H2 level index Hi') as (H0 & H1 & _). rewrite Et, len_app in H1.
    change (len [f]) with 1 in H1. unfold len in H1. rewrite Td, Et, !lookup_app_l by lia. done. }
  unfold tx_bind at 1, tx_get at 1 in E. unfold tx_bind at 1, tx_get at 1 in E. rewrite Elen1 in E.
  destruct (_ <=? _); [subst c'; split; [by apply (Hkeep c1 []); [|exact T1|left]|by left]|].
  unfold tx_bind at 1, tx_modify at 1 in E. set (c2 := set_trace _ c1) in E.
  assert (instruction_trace c2 = pre ++ g :: [InstructionFrame_default]) as T2.
  { cbn. by rewrite removelast_last, <- app_assoc. }
  unfold tx_bind at 1, tx_get at 1 in E.
  destruct (_ <=? _);
    [subst c'; split; [by apply (Hkeep c2 [InstructionFrame_default]); [|exact T2|left]|by left]|].
  unfold tx_bind at 1, tx_modify at 1 in E. set (c3 := set_stack _ _) in E.
  pose proof (store_current_index_keys c3) as K4.
  assert (instruction_stack (store_current_index instructions_id sysvar_id store c3).1 = instruction_stack c3 /\
    instruction_trace (store_current_index instructions_id sysvar_id store c3).1 = instruction_trace c3) as [S4 T4].
  { unfold store_current_index. destruct (find_index_of_account _ _); [|done].
    destruct (accounts_try_borrow_mut _ _) as [a [v|e]]; [|done]. destruct (negb _); [done|].
    by destruct (store _ _). }
  rewrite <- E in K4, S4, T4.
  split.
  - apply (Hkeep _ [InstructionFrame_default]); [exact K4|by rewrite T4|by right; rewrite S4].
  - right. exists f, g. rewrite Elen, Nat2Z.id, S4, T4. split; [done|].
    split; [by rewrite lookup_app_r, Nat.sub_diag by lia|].
    split; [|done]. change (instruction_trace c3) with (instruction_trace c2). rewrite T2.
    by rewrite lookup_app_r, Nat.sub_diag by lia.
Qed.

Lemma is_program_at_level_true c key level :
  0 <= level -> is_program_at_level c key level = true <-> level_program c (Z.to_nat level) = Some key.
Proof.
  intros Hl. unfold is_program_at_level, level_program. rewrite Z2Nat.id by done.
  destruct (get_instruction_context_at_nesting_level c level); [|done].
  destruct (get_program_key c _) as [k|]; [|done].
  rewrite bool_decide_eq_true. split; [by intros ->|by intros [= ->]].
Qed.

Lemma is_current_program_true c key :
  is_current_program c key = true ->
  level_program c (length (instruction_stack c) - 1) = Some key /\ instruction_stack c <> [].
Proof.
  unfold is_current_program, get_current_instruction_context, get_current_instruction_index, level_program,
    get_instruction_context_at_nesting_level. rewrite Nat2Z.id.
  rewrite last_lookup. rewrite Nat.sub_1_r. destruct (instruction_stack c) as [|x l]; [done|].
  destruct ((x :: l) !! _) as [index|]; [|done].
  destruct (get_instruction_context_at_index_in_trace c index) as [ic|]; [|done].
  destruct (get_program_key c ic); [|done]. intros H. apply bool_decide_eq_true in H as ->. done.
Qed.

Lemma push_reentry l0 d0 ic :
  context_ok l0 d0 (transaction_context ic) -> reentry_ok (transaction_context ic) ->
  reentry_ok (transaction_context (invoke_push instructions_id sysvar_id store ic).1).
Proof.
  intros Hc Hr. unfold invoke_push. set (c := transaction_context ic) in *.
  unfold get_instruction_context_at_index_in_trace.
  destruct (instruction_trace c !! _) as [f|] eqn:Ef; [|done].
  set (icx := {| ic_index_in_trace := _ |}). destruct (get_program_key c icx) as [key|] eqn:Ek; [|done].
  destruct (negb _ && _) eqn:Eb; [done|].
  destruct (push_keeps l0 d0 c Hc) as [Hk Hs].
  destruct (tx_push instructions_id sysvar_id store c) as [c' r] eqn:Ep. cbn [fst] in Hk, Hs.
  cbn [fst transaction_context set_transaction_context].
  destruct Hs as [Hs|(f0 & f' & Hs & Ef0 & Ef' & Epf)].
  { apply (keeps_reentry c); [apply Hc|done|done|]. rewrite Hs. done. }
  rewrite Ef in Ef0. injection Ef0 as <-.
  assert (level_program c' (length (instruction_stack c)) = Some key) as Htop.
  { rewrite (level_program_frame c' _ (get_instruction_trace_length c) f'); [|by rewrite Hs, lookup_app_r, Nat.sub_diag by lia|done].
    rewrite Epf. unfold get_program_key, get_index_of_program_account_in_transaction in Ek. cbn in Ek.
    destruct (_ =? u16_MAX); [done|]. unfold get_key_of_account_at_index in Ek.
    rewrite (proj1 Hk). by destruct (account_key _ _); [injection Ek as ->|]. }
  set (h := length (instruction_stack c)) in *.
  assert (length (instruction_stack c') = S h) as Hl' by (rewrite Hs, length_app; cbn; lia).
  intros i j l k Hijl Hi Hj.
  assert (j < S h)%nat as Hjlt.
  { destruct (decide (j < S h)%nat) as [|Hge]; [done|]. rewrite level_program_none in Hj by lia. done. }
  destruct (decide (j = h)) as [->|Hjh].
  - rewrite Htop in Hj. injection Hj as <-. destruct (decide (l = h)) as [->|Hlh]; [done|].
    rewrite (keeps_level c c' i) in Hi by (apply Hc || done || lia).
    rewrite (keeps_level c c' l) by (apply Hc || done || lia).
    assert (is_current_program c key = true) as Hcur.
    { apply andb_false_iff in Eb as [Eb|Eb].
      - apply negb_false_iff, Z.eqb_eq in Eb. unfold get_instruction_stack_height, len in Eb. lia.
      - apply andb_false_iff in Eb as [Eb|Eb]; [|by apply negb_false_iff in Eb].
        rewrite <- not_true_iff_false, existsb_exists in Eb. exfalso. apply Eb.
        exists (Z.of_nat i). split.
        + apply list_elem_of_In, elem_of_seqZ. unfold get_instruction_stack_height, len. lia.
        + apply is_program_at_level_true; [lia|]. by rewrite Nat2Z.id. }
    apply is_current_program_true in Hcur as [Hcur _]. fold h in Hcur.
    apply (Hr i (h - 1)%nat l); [lia|done|done].
  - rewrite (keeps_level c c' i) in Hi by (apply Hc || done || lia).
    rewrite (keeps_level c c' j) in Hj by (apply Hc || done || lia).
    rewrite (keeps_level c c' l) by (apply Hc || done || lia). by apply (Hr i j l).
Qed.

Lemma configure_step l0 d0 program ias map data caller c c' r :
  context_ok l0 d0 c -> reentry_ok c ->
  configure_next_instruction program ias map data caller c = (c', r) ->
  context_ok l0 d0 c' /\ reentry_ok c'.
Proof.
  intros Hc Hr E.
  replace c' with (configure_next_instruction program ias map data caller c).1 by by rewrite E.
  destruct (configure_keeps program ias map data caller c (ctx_stack _ _ _ Hc)) as [Hk Hs].
  split; [by apply configure_ok|]. apply (keeps_reentry c); [apply Hc|done|done|]. by rewrite Hs.
Qed.

Lemma invoke_step_ok l0 d0 ic ic' :
  context_ok l0 d0 (transaction_context ic) -> reentry_ok (transaction_context ic) ->
  invoke_step ic ic' ->
  context_ok l0 d0 (transaction_context ic') /\ reentry_ok (transaction_context ic').
Proof.
  intros Hc Hr Hs. destruct Hs as [ic ic' i s r E|ic ic' s w idx p d r E|ic ic' r E|ic ic' r E|ic c' Hs
                                  |ic ic' n r E|ic ic' x r E].
  - unfold prepare_next_instruction in E. destruct (get_current_instruction_context _); [|by injection E as <- _].
    destruct (callee_accounts _ _ _ _) as [[[[ias m] p]|e]|]; [|by injection E as <- _|done].
    destruct (get_current_instruction_index _); [|by injection E as <- _].
    destruct (configure_next_instruction _ _ _ _ _ _) as [c' r'] eqn:Ec. injection E as <- _.
    by eapply configure_step.
  - unfold prepare_next_top_level_instruction in E. destruct (top_level_accounts _ _ _ _ _) as [[m ias]|]; [|done].
    destruct (configure_next_instruction _ _ _ _ _ _) as [c' r'] eqn:Ec. injection E as <- _.
    by eapply configure_step.
  - replace ic' with (invoke_push instructions_id sysvar_id store ic).1 by by rewrite E.
    split; [|by eapply push_reentry]. unfold invoke_push.
    destruct (get_instruction_context_at_index_in_trace _ _); [|done].
    destruct (get_program_key _ _); [|done]. destruct (_ && _); [done|].
    pose proof (push_ok instructions_id sysvar_id store l0 d0 _ Hc) as Hp.
    by destruct (tx_push _ _ _ _).
  - unfold invoke_pop in E. cbn [transaction_context set_syscall_contexts] in E.
    pose proof (pop_ok l0 d0 _ Hc) as Hp. destruct (pop_keeps _ (ctx_stack _ _ _ Hc)) as [Hk Hl].
    destruct (tx_pop (transaction_context ic)) as [c' r']. injection E as <- _.
    split; [exact Hp|]. by eapply keeps_reentry; [apply Hc|..].
  - destruct (account_step_ok is_exempt l0 d0 _ c' (ctx_accounts _ _ _ Hc) Hs) as [Ha Hss].
    split; [by eapply context_ok_accounts|]. apply (keeps_reentry (transaction_context ic)); [apply Hc|done| |].
    + by eapply account_step_keeps; [apply Hc|].
    + cbn. by rewrite (proj1 Hss).
  - by injection E as <- _.
  - unfold set_syscall_context in E. by destruct (last _); injection E as <- _.
Qed.

(** Programs are re-entered only by themselves. In every invoke context that can arise, a
    program that is twice on the stack of invocations is also everywhere in between. *)
Theorem reentrancy_direct (l : list (Pubkey * AccountSharedData)) (sc tc n limit : Z)
    (ic : InvokeContext) (i j k : nat) (key : Pubkey) :
  Forall loaded_ok l -> len l <= MAX_ACCOUNTS_PER_TRANSACTION -> 0 <= sc <= u16_MAX -> 0 <= tc ->
  rtc invoke_step (invoke_context_new (context_new l sc tc n) limit) ic ->
  (i <= k <= j)%nat ->
  level_program (transaction_context ic) i = Some key ->
  level_program (transaction_context ic) j = Some key ->
  level_program (transaction_context ic) k = Some key.
Proof.
  intros Hl Hn Hsc Htc Hrun Hijk.
  pose proof (context_new_ok l sc tc n Hl Hn Hsc Htc) as Hc.
  assert (reentry_ok (context_new l sc tc n)) as Hr.
  { intros i0 j0 k0 key0 _ H. rewrite level_program_none in H by (cbn; lia). done. }
  change (context_new l sc tc n) with
    (transaction_context (invoke_context_new (context_new l sc tc n) limit)) in Hc, Hr.
  revert Hc Hr. generalize (initial_lamports l), (initial_data l). intros l0 d0.
  induction Hrun as [x|x y z Hs _ IH]; intros Hc Hr.
  - intros Hi Hj. by apply (Hr i j k).
  - destruct (invoke_step_ok l0 d0 x y Hc Hr Hs). by apply IH.
Qed.

End reentrancy.

(** A program that calls itself: its key is at both levels of the stack. *)
Definition example_level0 : InvokeContext :=
  let ic := invoke_context_new example_new 1000 in
  match prepare_next_top_level_instruction ic (fun _ => false) (fun _ => true) [0; 1] 0 [] with
  | Some (ic, _) => (invoke_push (key_of 70) (key_of 71) example_store ic).1
  | None => ic
  end.
Definition example_level1 : InvokeContext :=
  match prepare_next_instruction example_level0 (mkInstruction (key_of 1) [] []) [] with
  | Some (ic, _) => (invoke_push (key_of 70) (key_of 71) example_store ic).1
  | None => example_level0
  end.

Lemma example_level1_reached :
  rtc (invoke_step example_exempt (key_of 70) (key_of 71) example_store)
    (invoke_context_new example_new 1000) example_level1.
Proof.
  eapply rtc_l; [eapply (invoke_step_top_level _ _ _ _ _ _ (fun _ => false) (fun _ => true) [0; 1] 0 []);
    vm_compute; reflexivity|].
  eapply rtc_l; [eapply invoke_step_push; vm_compute; reflexivity|].
  eapply rtc_l; [eapply (invoke_step_prepare _ _ _ _ _ _ (mkInstruction (key_of 1) [] []) []);
    vm_compute; reflexivity|].
  eapply rtc_l; [eapply invoke_step_push; vm_compute; reflexivity|].
  vm_compute. constructor.
Qed.

Lemma reentrancy_direct_witness :
  level_program (transaction_context example_level1) 0 = Some (key_of 1) /\
  level_program (transaction_context example_level1) 1 = Some (key_of 1).
Proof.
  split; [by vm_compute|].
  apply (reentrancy_direct example_exempt (key_of 70) (key_of 71) example_store example_accounts 5 64 1 1000
    example_level1 0 1 1 (key_of 1) example_loaded); [by vm_compute|by vm_compute|by vm_compute| |lia| |].
  - exact example_level1_reached.
  - by vm_compute.
  - by vm_compute.
Defined.

(** ** The heap allocator *)

(** Requests of a size and an alignment, and the blocks that were handed out. *)
Fixpoint run_allocs (a : BpfAllocator) (requests : list (Z * Z)) : list (Z * Z) :=
  match requests with
  | [] => []
  | (size, align) :: requests =>
      match alloc a size align with
      | (a, Some addr) => (addr, size) :: run_allocs a requests
      | (a, None) => run_allocs a requests
      end
  end.

Definition request_ok (r : Z * Z) : Prop := is_u64 r.1 /\ exists k, 0 <= k < 64 /\ r.2 = 2 ^ k.

Lemma align_offset_ok p align :
  0 < align -> 0 <= align_offset p align < align /\ (p + align_offset p align) mod align = 0.
Proof.
  intros Ha. unfold align_offset. split; [by apply Z.mod_pos_bound|].
  rewrite Z.add_mod_idemp_r, Z.add_opp_diag_r, Z.mod_0_l by lia. done.
Qed.

(** One allocation: nothing changes, or the position moves behind an aligned block. *)
Lemma alloc_ok a size align :
  0 <= alloc_pos a -> alloc_len a < 2 ^ 63 -> 0 <= size -> 0 < align ->
  match alloc a size align with
  | (a', Some addr) =>
      alloc_len a' = alloc_len a /\ alloc_pos a' = addr - MM_HEAP_START + size /\
      MM_HEAP_START + alloc_pos a <= addr /\ addr + size <= MM_HEAP_START + alloc_len a /\
      (addr - MM_HEAP_START) mod align = 0
  | (a', None) => a' = a
  end.
Proof.
  intros Hp Hl Hs Ha. unfold alloc. destruct (align_offset_ok (alloc_pos a) align Ha) as [Ho Hm].
  change (MM_HEAP_START) with (3 * 2 ^ 32).
  destruct (Z.leb_spec (saturating_add (saturating_add (alloc_pos a) (align_offset (alloc_pos a) align)) size)
    (alloc_len a)) as [Hle|]; [|done]. cbn [alloc_len alloc_pos].
  assert (saturating_add (alloc_pos a) (align_offset (alloc_pos a) align) =
    alloc_pos a + align_offset (alloc_pos a) align) as E1 by (unfold saturating_add in *; lia).
  rewrite E1 in *. set (p := alloc_pos a + align_offset (alloc_pos a) align) in *.
  assert (saturating_add (3 * 2 ^ 32) p = 3 * 2 ^ 32 + p) as -> by (unfold saturating_add in *; lia).
  assert (saturating_add p size = p + size) as E2 by (unfold saturating_add in *; lia).
  rewrite E2 in *. split; [done|]. split; [lia|]. split; [unfold p; lia|]. split; [lia|].
  by replace (3 * 2 ^ 32 + p - 3 * 2 ^ 32) with p by lia.
Qed.

Lemma run_allocs_ok a requests :
  0 <= alloc_pos a -> alloc_len a < 2 ^ 63 -> Forall request_ok requests ->
  Forall (fun b => MM_HEAP_START + alloc_pos a <= b.1 /\ b.1 + b.2 <= MM_HEAP_START + alloc_len a /\ 0 <= b.2)
    (run_allocs a requests) /\
  StronglySorted (fun b b' => b.1 + b.2 <= b'.1) (run_allocs a requests).
Proof.
  revert a; induction requests as [|[size align] requests IH]; intros a Hp Hl Hr; cbn [run_allocs].
  { split; constructor. }
  apply Forall_cons in Hr as [[Hs (k & Hk & Ek)] Hr]. cbn [fst snd] in Hs, Ek.
  pose proof (alloc_ok a size align Hp Hl (proj1 Hs)) as H. rewrite Ek in *.
  specialize (H (pow2_pos k (proj1 Hk))). destruct (alloc a size (2 ^ k)) as [a' [addr|]].
  - destruct H as (E1 & E2 & H1 & H2 & _). unfold is_u in Hs.
    destruct (IH a') as [IH1 IH2]; [lia|by rewrite E1|done|]. rewrite E1, E2 in IH1. split.
    + constructor; [cbn; lia|]. eapply Forall_impl; [exact IH1|]. intros b (B1 & B2 & B3). lia.
    + constructor; [done|]. eapply Forall_impl; [exact IH1|]. intros b (B1 & B2 & B3). cbn. lia.
  - subst a'. by apply IH.
Qed.

(** The heap allocator hands out disjoint memory: whatever is requested, the blocks lie in
    the heap of the program, in order and without overlap. *)
Theorem allocations_disjoint (heap_len : Z) (requests : list (Z * Z)) :
  heap_len < 2 ^ 63 -> Forall request_ok requests ->
  let blocks := run_allocs (BpfAllocator_new heap_len) requests in
  Forall (fun b => MM_HEAP_START <= b.1 /\ b.1 + b.2 <= MM_HEAP_START + heap_len) blocks /\
  StronglySorted (fun b b' => b.1 + b.2 <= b'.1) blocks.
Proof.
  intros Hl Hr blocks.
  destruct (run_allocs_ok (BpfAllocator_new heap_len) requests ltac:(cbn; lia) Hl Hr) as [H1 H2].
  split; [|exact H2]. eapply Forall_impl; [exact H1|]. cbn. intros b (B1 & B2 & _). lia.
Qed.

Lemma allocations_disjoint_witness :
  run_allocs (BpfAllocator_new 64) [(3, 1); (8, 8); (60, 1); (4, 4)] =
    [(MM_HEAP_START, 3); (MM_HEAP_START + 8, 8); (MM_HEAP_START + 16, 4)] /\
  StronglySorted (fun b b' => b.1 + b.2 <= b'.1)
    (run_allocs (BpfAllocator_new 64) [(3, 1); (8, 8); (60, 1); (4, 4)]).
Proof.
  split; [by vm_compute|].
  apply (allocations_disjoint 64 [(3, 1); (8, 8); (60, 1); (4, 4)]); [lia|].
  apply Forall_cons_2; [split; [by vm_compute|exists 0; cbn; lia]|].
  apply Forall_cons_2; [split; [by vm_compute|exists 3; cbn; lia]|].
  apply Forall_cons_2; [split; [by vm_compute|exists 0; cbn; lia]|].
  apply Forall_cons_2; [split; [by vm_compute|exists 2; cbn; lia]|].
  apply Forall_nil_2.
Defined.
