(* ===== verification/Serialize.v ===== *)
(** Serialisation of the parameters of a program (agave/program-runtime/src/serialization.rs)
    into aligned memory (sbpf/src/aligned_memory.rs), and deserialisation after it has run.

    Addresses of host memory come from the allocator of the process and are parameters: the
    pointer of the buffer and the pointers of the payloads of the accounts. A write behind the
    capacity of the buffer and a failed unwrap are [None]. Values are written in the order of
    their bytes in memory, little end first. *)

From Stdlib Require Import ZArith Lia Bool.
From S2P Require Import Prelude.
From S2P Require Import Ebpf.
From S2P Require Import MemoryRegion.
From S2P Require Import TxAccounts.
From S2P Require Import TxContext.
From S2P Require Import InvokeContext.

#[local] Open Scope Z_scope.

(** ** Aligned memory *)

(** The initialised bytes of the allocation, its address and its size. *)
Record AlignedMemory := mkAlignedMemory {
  mem_ptr : Z;
  mem_bytes : list Z;
  mem_capacity : Z;
  zero_up_to_max_len : bool
}.

Section aligned_memory.
Implicit Types m : AlignedMemory.

Definition from_slice (ptr : Z) (data : list Z) : AlignedMemory :=
  mkAlignedMemory ptr data (len data) false.
Definition with_capacity (ptr max_len : Z) : AlignedMemory := mkAlignedMemory ptr [] max_len false.
Definition with_capacity_zeroed (ptr max_len : Z) : AlignedMemory := mkAlignedMemory ptr [] max_len true.
Definition zero_filled (ptr max_len : Z) : AlignedMemory :=
  mkAlignedMemory ptr (replicate (Z.to_nat max_len) 0) max_len true.

Definition mem_len m : Z := len (mem_bytes m).

(** The new length after [bytes] more, if there is room. *)
Definition write_ptr_for m (bytes : Z) : option Z :=
  match checked_add (mem_len m) bytes with
  | Some new_len => if new_len <=? mem_capacity m then Some new_len else None
  | None => None
  end.

Definition append_bytes m (bs : list Z) : AlignedMemory :=
  mkAlignedMemory (mem_ptr m) (mem_bytes m ++ bs) (mem_capacity m) (zero_up_to_max_len m).

(** [None] is the error "aligned memory fill_write failed". When the memory is zeroed and
    the value is zero, the bytes are there already. *)
Definition fill_write m (num value : Z) : option AlignedMemory :=
  match write_ptr_for m num with
  | None => None
  | Some _ => Some (append_bytes m (replicate (Z.to_nat num) value))
  end.

(** Unchecked writes: undefined behaviour when there is no room. *)
Definition write_unchecked m (value : list Z) : option AlignedMemory :=
  if mem_len m + len value <=? mem_capacity m then Some (append_bytes m value) else None.
Definition write_all_unchecked m (value : list Z) : option AlignedMemory :=
  if mem_len m + len value <=? mem_capacity m then Some (append_bytes m value) else None.

Definition is_memory_aligned (ptr align : Z) : bool :=
  if align =? 0 then false else ptr mod align =? 0.

End aligned_memory.

(** ** Regions of accounts *)

(** Constants of other crates that the transaction context crate asserts to be equal to its
    own. *)
Definition MAX_PERMITTED_DATA_INCREASE : Z := MAX_ACCOUNT_DATA_GROWTH_PER_INSTRUCTION.
Definition NON_DUP_MARKER : Z := MAX_ACCOUNTS_PER_INSTRUCTION.
Definition MAX_PERMITTED_DATA_LENGTH : Z := MAX_ACCOUNT_DATA_LEN.

(** [modify_memory_region_of_account]. *)
Definition modify_memory_region_of_account (c : TransactionContext) (account : BorrowedInstructionAccount)
    (region : MemoryRegion) : MemoryRegion :=
  let changeable := is_ok (can_data_be_changed account c) in
  mkRegion (host_addr region) (vm_addr region) (len (get_data account c)) (vm_gap_shift region)
    changeable (if changeable then Some (get_index_in_transaction account) else None).

Section serialize.
(** The alignment of [u128] in the guest, a constant of the entrypoint crate. *)
Variable BPF_ALIGN_OF_U128 : Z.
(** The address of the payload of the account at an index of the transaction. *)
Variable payload_ptr : Z -> Z.
(** Whether the program belongs to the deprecated loader, and the two features. *)
Variables is_loader_v1 stricter_abi_and_runtime_constraints account_data_direct_mapping : bool.

Definition set_payload (region : MemoryRegion) (payload : option Z) : MemoryRegion :=
  mkRegion (host_addr region) (vm_addr region) (region_len region) (vm_gap_shift region)
    (writable region) payload.

(** [create_memory_region_of_account]; mapping writable data touches the account. *)
Definition create_memory_region_of_account (account : BorrowedInstructionAccount) (vaddr : Z)
    : TxM MemoryRegion :=
  do! changeable := tx_get (fun c => is_ok (can_data_be_changed account c)) in
  do! shared := tx_get (is_shared account) in
  do! data := tx_get (get_data account) in
  let ptr := payload_ptr (get_index_in_transaction account) in
  do! region :=
    (if changeable && negb shared
     then do! _ := get_data_mut account in tx_ret (new_writable ptr (len data) vaddr)
     else tx_ret (new_readonly ptr (len data) vaddr)) in
  tx_ret (if changeable then set_payload region (Some (get_index_in_transaction account)) else region).

(** ** The serializer *)

(** [Serializer], with the transaction context whose accounts it maps. *)
Record Serializer := mkSerializer {
  buffer : AlignedMemory;
  s_regions : list MemoryRegion;
  vaddr : Z;
  region_start : Z;
  s_context : TransactionContext
}.

Definition serializer_new (ptr size start_addr : Z) (c : TransactionContext) : Serializer :=
  mkSerializer (with_capacity ptr size) [] start_addr 0 c.

Definition set_buffer (m : AlignedMemory) (s : Serializer) : Serializer :=
  mkSerializer m (s_regions s) (vaddr s) (region_start s) (s_context s).

(** A step of the serializer may be undefined ([None]) or fail. *)
Definition SerM (A : Type) : Type := Serializer -> option (Serializer * Result A InstructionError).

Definition ser_ret {A} (x : A) : SerM A := fun s => Some (s, Ok x).
Definition ser_get {A} (f : Serializer -> A) : SerM A := fun s => Some (s, Ok (f s)).
Definition ser_modify (f : Serializer -> Serializer) : SerM unit := fun s => Some (f s, Ok tt).
Definition ser_bind {A B} (m : SerM A) (k : A -> SerM B) : SerM B := fun s =>
  match m s with
  | None => None
  | Some (s, Err e) => Some (s, Err e)
  | Some (s, Ok x) => k x s
  end.
Definition ser_ctx {A} (m : TxM A) : SerM A := fun s =>
  let '(c, r) := m (s_context s) in
  Some (mkSerializer (buffer s) (s_regions s) (vaddr s) (region_start s) c, r).

#[local] Notation "'ser!' x := m 'in' k" := (ser_bind m (fun x => k))
  (at level 10, x pattern, m at level 100, k at level 200).

(** [fill_write] with its error mapped as the callers do. *)
Definition s_fill_write (num value : Z) : SerM unit := fun s =>
  match fill_write (buffer s) num value with
  | Some m => Some (set_buffer m s, Ok tt)
  | None => Some (s, Err InvalidArgument)
  end.

(** The guest address of the next byte. *)
Definition next_vaddr (s : Serializer) : Z :=
  saturating_sub (saturating_add (vaddr s) (mem_len (buffer s))) (region_start s).

(** [write]: the bytes of a scalar. *)
Definition s_write (value : list Z) : SerM Z := fun s =>
  match write_unchecked (buffer s) value with
  | Some m => Some (set_buffer m s, Ok (next_vaddr s))
  | None => None
  end.

Definition s_write_all (value : list Z) : SerM Z := fun s =>
  match write_all_unchecked (buffer s) value with
  | Some m => Some (set_buffer m s, Ok (next_vaddr s))
  | None => None
  end.

(** [push_region]: the bytes since the last region become one; a start behind the end is a
    panic. *)
Definition push_region : SerM unit := fun s =>
  let range_end := mem_len (buffer s) in
  if range_end <? region_start s then None
  else
    let range_len := range_end - region_start s in
    Some (mkSerializer (buffer s)
            (s_regions s ++ [new_writable (mem_ptr (buffer s) + region_start s) range_len (vaddr s)])
            (as_u64 (vaddr s + range_len)) range_end (s_context s), Ok tt).

Definition on_last_region (f : MemoryRegion -> MemoryRegion) : SerM unit := fun s =>
  match last (s_regions s) with
  | None => None
  | Some r =>
      Some (mkSerializer (buffer s) (removelast (s_regions s) ++ [f r]) (vaddr s) (region_start s)
              (s_context s), Ok tt)
  end.

(** The address space of an account. *)
Definition address_space_reserved (data_len : Z) : Z :=
  if negb is_loader_v1 then saturating_add data_len MAX_PERMITTED_DATA_INCREASE else data_len.

Definition write_account (account : BorrowedInstructionAccount) : SerM Z :=
  ser! data := ser_get (fun s => get_data account (s_context s)) in
  if negb stricter_abi_and_runtime_constraints then
    ser! vm_data_addr := ser_get (fun s => saturating_add (vaddr s) (mem_len (buffer s))) in
    ser! _ := s_write_all data in
    ser! _ :=
      (if negb is_loader_v1
       then s_fill_write (MAX_PERMITTED_DATA_INCREASE + align_offset (len data) BPF_ALIGN_OF_U128) 0
       else ser_ret tt) in
    ser_ret vm_data_addr
  else
    ser! _ := push_region in
    ser! vm_data_addr := ser_get vaddr in
    ser! _ :=
      (if negb account_data_direct_mapping then
         ser! _ := s_write_all data in
         if negb is_loader_v1 then s_fill_write MAX_PERMITTED_DATA_INCREASE 0 else ser_ret tt
       else ser_ret tt) in
    let reserved := address_space_reserved (len data) in
    ser! _ :=
      (if 0 <? reserved then
         if negb account_data_direct_mapping then
           ser! _ := push_region in
           ser! c := ser_get s_context in
           on_last_region (modify_memory_region_of_account c account)
         else
           ser! at_ := ser_get vaddr in
           ser! new_region := ser_ctx (create_memory_region_of_account account at_) in
           ser_modify (fun s =>
             mkSerializer (buffer s) (s_regions s ++ [new_region]) (as_u64 (vaddr s + reserved))
               (region_start s) (s_context s))
       else ser_ret tt) in
    ser! _ :=
      (if negb is_loader_v1 then
         let align := align_offset (len data) BPF_ALIGN_OF_U128 in
         if negb account_data_direct_mapping then s_fill_write align 0
         else
           ser! _ := s_fill_write BPF_ALIGN_OF_U128 0 in
           ser_modify (fun s =>
             mkSerializer (buffer s) (s_regions s) (vaddr s)
               (region_start s + saturating_sub BPF_ALIGN_OF_U128 align) (s_context s))
       else ser_ret tt) in
    ser_ret vm_data_addr.

(** [finish]: the remaining bytes become the last region. *)
Definition finish : SerM (AlignedMemory * list MemoryRegion) :=
  ser! _ := push_region in
  ser_get (fun s => (buffer s, s_regions s)).

(** ** Parameters *)

Inductive SerializeAccount :=
| SAccount (index : Z) (account : BorrowedInstructionAccount)
| SDuplicate (position : Z).

Definition bool_byte (b : bool) : list Z := [Z.b2z b].

(** The key of a borrowed account; the source unwraps it. *)
Definition account_key_bytes (account : BorrowedInstructionAccount) (c : TransactionContext) : list Z :=
  default [] (account_key (accounts c) (get_index_in_transaction account)).

Abbreviation u64_bytes := (le_split 8).

(** The loop of [serialize_parameters_unaligned]. *)
Fixpoint write_accounts_unaligned (l : list SerializeAccount) (metadata : list SerializedAccountMetadata)
    : SerM (list SerializedAccountMetadata) :=
  match l with
  | [] => ser_ret metadata
  | SDuplicate position :: l =>
      match metadata !! Z.to_nat position with
      | None => fun _ => None
      | Some md =>
          ser! _ := s_write [as_u8 position] in
          write_accounts_unaligned l (metadata ++ [md])
      end
  | SAccount _ account :: l =>
      ser! c := ser_get s_context in
      ser! _ := s_write [NON_DUP_MARKER] in
      ser! _ := s_write (bool_byte (is_signer (instruction_account account))) in
      ser! _ := s_write (bool_byte (is_writable (instruction_account account))) in
      ser! key_addr := s_write_all (account_key_bytes account c) in
      ser! lamports_addr := s_write (u64_bytes (get_lamports account c)) in
      ser! _ := s_write (u64_bytes (len (get_data account c))) in
      ser! data_addr := write_account account in
      ser! owner_addr := s_write_all (get_owner account c) in
      ser! _ := s_write (bool_byte (is_executable account c)) in
      ser! _ := s_write (u64_bytes u64_MAX) in
      write_accounts_unaligned l
        (metadata ++ [mkAccountMetadata (len (get_data account c)) data_addr key_addr lamports_addr owner_addr])
  end.

(** The loop of [serialize_parameters_aligned]. *)
Fixpoint write_accounts_aligned (l : list SerializeAccount) (metadata : list SerializedAccountMetadata)
    : SerM (list SerializedAccountMetadata) :=
  match l with
  | [] => ser_ret metadata
  | SAccount _ account :: l =>
      ser! c := ser_get s_context in
      ser! _ := s_write [NON_DUP_MARKER] in
      ser! _ := s_write (bool_byte (is_signer (instruction_account account))) in
      ser! _ := s_write (bool_byte (is_writable (instruction_account account))) in
      ser! _ := s_write (bool_byte (is_executable account c)) in
      ser! _ := s_write_all [0; 0; 0; 0] in
      ser! key_addr := s_write_all (account_key_bytes account c) in
      ser! owner_addr := s_write_all (get_owner account c) in
      ser! lamports_addr := s_write (u64_bytes (get_lamports account c)) in
      ser! _ := s_write (u64_bytes (len (get_data account c))) in
      ser! data_addr := write_account account in
      ser! _ := s_write (u64_bytes u64_MAX) in
      write_accounts_aligned l
        (metadata ++ [mkAccountMetadata (len (get_data account c)) data_addr key_addr lamports_addr owner_addr])
  | SDuplicate position :: l =>
      match metadata !! Z.to_nat position with
      | None => fun _ => None
      | Some md =>
          ser! _ := s_write [as_u8 position] in
          ser! _ := s_write_all [0; 0; 0; 0; 0; 0; 0] in
          write_accounts_aligned l (metadata ++ [md])
      end
  end.

Definition mapped_directly : bool :=
  stricter_abi_and_runtime_constraints && account_data_direct_mapping.

(** The sizes that are computed in advance. *)
Definition account_size_unaligned (c : TransactionContext) (a : SerializeAccount) : Z :=
  1 + match a with
      | SDuplicate _ => 0
      | SAccount _ account =>
          1 + 1 + 32 + 8 + 8 + 32 + 1 + 8
          + (if negb mapped_directly then len (get_data account c) else 0)
      end.
Definition account_size_aligned (c : TransactionContext) (a : SerializeAccount) : Z :=
  1 + match a with
      | SDuplicate _ => 7
      | SAccount _ account =>
          let data_len := len (get_data account c) in
          1 + 1 + 1 + 4 + 32 + 32 + 8 + 8 + 8
          + (if negb mapped_directly
             then data_len + MAX_PERMITTED_DATA_INCREASE + align_offset data_len BPF_ALIGN_OF_U128
             else BPF_ALIGN_OF_U128)
      end.
Definition parameters_size (account_size : TransactionContext -> SerializeAccount -> Z)
    (c : TransactionContext) (l : list SerializeAccount) (data : list Z) : Z :=
  8 + foldr Z.add 0 (map (account_size c) l) + (8 + len data + 32).

Definition Serialized : Type :=
  AlignedMemory * list MemoryRegion * list SerializedAccountMetadata * Z.

Definition serialize_with (write_accounts : list SerializeAccount -> list SerializedAccountMetadata ->
      SerM (list SerializedAccountMetadata)) (l : list SerializeAccount) (data : list Z)
    (program_id : Pubkey) : SerM Serialized :=
  ser! _ := s_write (u64_bytes (len l)) in
  ser! metadata := write_accounts l [] in
  ser! _ := s_write (u64_bytes (len data)) in
  ser! instruction_data_offset := s_write_all data in
  ser! _ := s_write_all program_id in
  ser! (mem, regions) := finish in
  ser_ret (mem, regions, metadata, instruction_data_offset).

(** [serialize_parameters_unaligned] and [serialize_parameters_aligned]: the pointer is that
    of the allocated buffer. *)
Definition serialize_parameters_unaligned (ptr : Z) (c : TransactionContext) (l : list SerializeAccount)
    (data : list Z) (program_id : Pubkey) : option (Serializer * Result Serialized InstructionError) :=
  serialize_with write_accounts_unaligned l data program_id
    (serializer_new ptr (parameters_size account_size_unaligned c l data) MM_INPUT_START c).
Definition serialize_parameters_aligned (ptr : Z) (c : TransactionContext) (l : list SerializeAccount)
    (data : list Z) (program_id : Pubkey) : option (Serializer * Result Serialized InstructionError) :=
  serialize_with write_accounts_aligned l data program_id
    (serializer_new ptr (parameters_size account_size_aligned c l data) MM_INPUT_START c).

End serialize.

(** The accounts of an instruction: a duplicate by the position of its first occurrence, any
    other account borrowed. The source unwraps both lookups. *)
Fixpoint collect_serialize_accounts (ic : InstructionContext) (indexes : list Z) (c : TransactionContext)
    : option (TransactionContext * list SerializeAccount) :=
  match indexes with
  | [] => Some (c, [])
  | index :: indexes =>
      match is_instruction_account_duplicate ic index with
      | Err _ => None
      | Ok (Some position) =>
          let! (c, l) := collect_serialize_accounts ic indexes c in
          Some (c, SDuplicate position :: l)
      | Ok None =>
          match try_borrow_instruction_account ic index c with
          | (_, Err _) => None
          | (c, Ok account) =>
              let! (c, l) := collect_serialize_accounts ic indexes c in
              Some (c, SAccount index account :: l)
          end
      end
  end.

(** The borrowed accounts are given back. *)
Definition drop_serialize_accounts (l : list SerializeAccount) (c : TransactionContext) : TransactionContext :=
  fold_left (fun c a => match a with SAccount _ account => drop_borrowed account c | SDuplicate _ => c end) l c.

(** [serialize_parameters]: the new context and the result. [bpf_loader_deprecated] is the id of
    the deprecated loader. *)
Definition serialize_parameters (BPF_ALIGN_OF_U128 : Z) (payload_ptr : Z -> Z)
    (bpf_loader_deprecated : Pubkey) (stricter direct : bool) (ptr : Z) (ic : InstructionContext)
    (c : TransactionContext) : option (TransactionContext * Result Serialized InstructionError) :=
  let num_ix_accounts := get_number_of_instruction_accounts ic in
  if MAX_ACCOUNTS_PER_INSTRUCTION <? num_ix_accounts then Some (c, Err MaxAccountsExceeded)
  else
    match get_program_key c ic, get_program_owner c ic with
    | Err e, _ | _, Err e => Some (c, Err e)
    | Ok program_id, Ok owner =>
        let! (c, l) := collect_serialize_accounts ic (seqZ 0 num_ix_accounts) c in
        let! (s, r) :=
          (if bool_decide (owner = bpf_loader_deprecated)
           then serialize_parameters_unaligned BPF_ALIGN_OF_U128 payload_ptr true stricter direct ptr c l
                  (ic_instruction_data ic) program_id
           else serialize_parameters_aligned BPF_ALIGN_OF_U128 payload_ptr false stricter direct ptr c l
                  (ic_instruction_data ic) program_id) in
        Some (drop_serialize_accounts l (s_context s), r)
    end.

(** ** Deserialisation *)

(** [buffer.get(start..start.saturating_add(8))] as a [u64]. *)
Definition get_u64 (buffer : list Z) (start : Z) : Result Z InstructionError :=
  match read_le 8 buffer start with Some x => Ok x | None => Err InvalidArgument end.

(** [buffer.get(start..start + n)]. *)
Definition get_range (buffer : list Z) (start n : Z) : Result (list Z) InstructionError :=
  if start + n <=? len buffer then Ok (slice buffer start (start + n)) else Err InvalidArgument.

Section deserialize.
Variable BPF_ALIGN_OF_U128 : Z.
Variables stricter direct : bool.

Definition update_lamports (account : BorrowedInstructionAccount) (lamports : Z) : TxM unit :=
  do! old := tx_get (get_lamports account) in
  if negb (old =? lamports) then set_lamports account lamports else tx_ret tt.

(** The data of an account, which may have changed to [n] bytes at [start]. *)
Definition update_data (account : BorrowedInstructionAccount) (buffer : list Z) (start n : Z) : TxM unit :=
  if negb stricter then
    do! data := tx_lift (fun _ => get_range buffer start n) in
    do! resizable := tx_get (can_data_be_resized account n) in
    match resizable with
    | Ok _ => set_data_from_slice account data
    | Err err =>
        do! old := tx_get (get_data account) in
        if bool_decide (old = data) then tx_ret tt else tx_throw err
    end
  else
    do! changeable := tx_get (can_data_be_changed account) in
    if negb direct && is_ok changeable then
      do! data := tx_lift (fun _ => get_range buffer start n) in
      set_data_from_slice account data
    else
      do! old := tx_get (get_data account) in
      if negb (len old =? n) then set_data_length account n else tx_ret tt.

(** One account of [deserialize_parameters_unaligned]; the new start. *)
Definition deserialize_account_unaligned (account : BorrowedInstructionAccount) (buffer : list Z)
    (start pre_len : Z) : TxM Z :=
  let start := start + (1 + 1 + 32) in
  do! lamports := tx_lift (fun _ => get_u64 buffer start) in
  do! _ := update_lamports account lamports in
  let start := start + (8 + 8) in
  do! _ := update_data account buffer start pre_len in
  let start := if negb (stricter && direct) then start + pre_len else start in
  tx_ret (start + (32 + 1 + 8)).

(** One account of [deserialize_parameters_aligned]. *)
Definition deserialize_account_aligned (account : BorrowedInstructionAccount) (buffer : list Z)
    (start pre_len : Z) : TxM Z :=
  let start := start + (1 + 1 + 1 + 4 + 32) in
  do! owner := tx_lift (fun _ => get_range buffer start 32) in
  let start := start + 32 in
  do! lamports := tx_lift (fun _ => get_u64 buffer start) in
  do! _ := update_lamports account lamports in
  let start := start + 8 in
  do! post_len := tx_lift (fun _ => get_u64 buffer start) in
  let start := start + 8 in
  if (MAX_PERMITTED_DATA_INCREASE <? saturating_sub post_len pre_len)
     || (MAX_PERMITTED_DATA_LENGTH <? post_len)
  then tx_throw InvalidRealloc
  else
    do! _ := update_data account buffer start post_len in
    let start :=
      start + (if negb (stricter && direct)
               then saturating_add (saturating_add pre_len MAX_PERMITTED_DATA_INCREASE)
                      (align_offset pre_len BPF_ALIGN_OF_U128)
               else BPF_ALIGN_OF_U128) in
    let start := start + 8 in
    do! old_owner := tx_get (get_owner account) in
    do! _ := (if negb (bool_decide (old_owner = owner)) then set_owner account owner else tx_ret tt) in
    tx_ret start.

(** The borrow of an account ends with its block, also when the block fails. *)
Definition with_borrowed {A} (ic : InstructionContext) (index : Z)
    (k : BorrowedInstructionAccount -> TxM A) : TxM A :=
  do! account := try_borrow_instruction_account ic index in
  fun c => let '(c, r) := k account c in (drop_borrowed account c, r).

(** The loop over the accounts and the lengths they had; [dup_padding] is what follows the
    position of a duplicate. *)
Fixpoint deserialize_accounts (ic : InstructionContext) (dup_padding : Z)
    (deserialize_account : BorrowedInstructionAccount -> list Z -> Z -> Z -> TxM Z)
    (buffer : list Z) (items : list (Z * Z)) (start : Z) : TxM unit :=
  match items with
  | [] => tx_ret tt
  | (index, pre_len) :: items =>
      do! duplicate := tx_lift (fun _ => is_instruction_account_duplicate ic index) in
      let start := start + 1 in
      do! start :=
        (match duplicate with
         | Some _ => tx_ret (start + dup_padding)
         | None => with_borrowed ic index (fun account => deserialize_account account buffer start pre_len)
         end) in
      deserialize_accounts ic dup_padding deserialize_account buffer items start
  end.

Definition deserialize_parameters (bpf_loader_deprecated : Pubkey) (ic : InstructionContext)
    (buffer : list Z) (metadata : list SerializedAccountMetadata) : TxM unit :=
  do! owner := tx_lift (fun c => get_program_owner c ic) in
  let items := zip (seqZ 0 (get_number_of_instruction_accounts ic)) (map original_data_len metadata) in
  if bool_decide (owner = bpf_loader_deprecated)
  then deserialize_accounts ic 0 deserialize_account_unaligned buffer items 8
  else deserialize_accounts ic 7 deserialize_account_aligned buffer items 8.

End deserialize.
