(* ===== verification/SerializeSafe.v ===== *)
(** Correctness of the serialisation of parameters: the buffer that is computed in advance is
    filled exactly, nothing is written behind it, and the addresses that are recorded for an
    account are the guest addresses of its fields. *)

From Stdlib Require Import ZArith Lia Bool.
From S2P Require Import Prelude.
From S2P Require Import Ebpf.
From S2P Require Import MemoryRegion.
From S2P Require Import TxAccounts.
From S2P Require Import TxContext.
From S2P Require Import TxSafe.
From S2P Require Import InvokeContext.
From S2P Require Import Serialize.

#[local] Open Scope Z_scope.

Section serializer.
Context (A : Z) (HA : 0 < A <= 16) (payload_ptr : Z -> Z).
Context (is_loader_v1 stricter direct : bool).
Context (ptr : Z) (c0 : TransactionContext).
Implicit Types s : Serializer.

Abbreviation blen s := (mem_len (buffer s)).
Abbreviation cap s := (mem_capacity (buffer s)).

(** Guest bytes that can be used without leaving the address space. *)
Definition guest_limit : Z := 2 ^ 40.

(** The accounts as the serializer sees them: everything but the touched flags. *)
Definition same_views (c c' : TransactionContext) : Prop :=
  exists flags, length flags = length (touched_flags (accounts c)) /\
    c' = set_accounts (set_touched_flags flags (accounts c)) c.

(** An account that the serializer can write. *)
Definition account_ok (b : BorrowedInstructionAccount) (c : TransactionContext) : Prop :=
  0 <= get_index_in_transaction b /\ (Z.to_nat (get_index_in_transaction b) < length (touched_flags (accounts c)))%nat /\
  len (get_data b c) <= MAX_ACCOUNT_DATA_LEN.

(** The host memory of a region is in the first [n] bytes of the buffer, or is the payload of an
    account. *)
Definition homed (n : Z) (r : MemoryRegion) : Prop :=
  (ptr <= host_addr r /\ host_addr r + region_len r <= ptr + n) \/
  (exists b, account_ok b c0 /\ host_addr r = payload_ptr (get_index_in_transaction b) /\
     region_len r = len (get_data b c0)).

Lemma homed_le n n' r : n <= n' -> homed n r -> homed n' r.
Proof. unfold homed. intros Hn [H|H]; [left; lia|by right]. Qed.

(** The bytes of the regions so far and of the region under construction end [used] bytes behind
    the start of the input. *)
Record ser_ok (used : Z) s : Prop := {
  ser_ptr : mem_ptr (buffer s) = ptr;
  ser_start : 0 <= region_start s <= blen s;
  ser_vaddr : MM_INPUT_START <= vaddr s;
  ser_used : vaddr s + (blen s - region_start s) <= MM_INPUT_START + used;
  ser_len : blen s <= used;
  ser_limit : used <= guest_limit;
  ser_below : Forall (fun r => vm_addr r + region_len r <= vaddr s /\ 0 <= region_len r /\
    MM_INPUT_START <= vm_addr r /\ vm_gap_shift r = 63) (s_regions s);
  ser_sorted : forall i r r', s_regions s !! i = Some r -> s_regions s !! S i = Some r' ->
    vm_addr r + region_len r <= vm_addr r';
  ser_views : same_views c0 (s_context s);
  ser_plain : stricter = false -> region_start s = 0 /\ s_regions s = [] /\ vaddr s = MM_INPUT_START;
  ser_homed : Forall (homed (blen s)) (s_regions s)
}.

(** The host address of a guest address, in a region or in the one under construction. *)
Definition reaches s (a h : Z) : Prop :=
  (exists r, r ∈ s_regions s /\ vm_addr r <= a < vm_addr r + region_len r /\
     h = host_addr r + (a - vm_addr r)) \/
  (vaddr s <= a < vaddr s + (blen s - region_start s) /\ h = ptr + region_start s + (a - vaddr s)).

(** Bytes of the buffer, found at a guest address. *)
Definition located s (a : Z) (bs : list Z) : Prop :=
  forall k b, bs !! k = Some b ->
    exists off : nat, reaches s (a + Z.of_nat k) (ptr + Z.of_nat off) /\ mem_bytes (buffer s) !! off = Some b.

(** Bytes of a payload, found at a guest address. *)
Definition located_at s (a h n : Z) : Prop :=
  forall k, 0 <= k < n -> reaches s (a + k) (h + k).

(** What later steps keep. *)
Record extends s s' : Prop := {
  ext_cap : cap s' = cap s;
  ext_bytes : mem_bytes (buffer s) `prefix_of` mem_bytes (buffer s');
  ext_reaches a h : reaches s a h -> reaches s' a h
}.

Lemma extends_refl s : extends s s.
Proof. by split. Qed.

Lemma extends_trans s1 s2 s3 : extends s1 s2 -> extends s2 s3 -> extends s1 s3.
Proof.
  intros [A1 A2 A3] [B1 B2 B3]. split; [congruence|by etrans|auto].
Qed.

Lemma located_extends s s' a bs : extends s s' -> located s a bs -> located s' a bs.
Proof.
  intros He Hl k b Hb. destruct (Hl k b Hb) as (off & Hr & Ho). exists off.
  split; [by apply (ext_reaches _ _ He)|]. by eapply prefix_lookup_Some; [|apply (ext_bytes _ _ He)].
Qed.

Lemma located_at_extends s s' a h n : extends s s' -> located_at s a h n -> located_at s' a h n.
Proof. intros He Hl k Hk. by apply (ext_reaches _ _ He), Hl. Qed.

(** A step that appends [bs], uses at most [guest] guest bytes, and has the result [Q]. *)
Definition runs {X} (bs : list Z) (guest : Z) (m : SerM X) (Q : X -> Serializer -> Prop) : Prop :=
  forall used s, ser_ok used s -> blen s + len bs <= cap s -> used + guest <= guest_limit ->
    exists s' x, m s = Some (s', Ok x) /\ ser_ok (used + guest) s' /\ extends s s' /\
      mem_bytes (buffer s') = mem_bytes (buffer s) ++ bs /\ Q x s'.

Lemma bytes_len (m m' : AlignedMemory) bs : mem_bytes m' = mem_bytes m ++ bs -> mem_len m' = mem_len m + len bs.
Proof. intros H. unfold mem_len. by rewrite H, len_app. Qed.

(** Results that later steps keep. *)
Definition stable (Q : Serializer -> Prop) : Prop := forall s s', extends s s' -> Q s -> Q s'.

Lemma runs_bind {X Y} bs1 g1 bs2 g2 (m : SerM X) (k : X -> SerM Y) Q1 Q2 :
  runs bs1 g1 m Q1 -> (forall x, stable (Q1 x)) -> 0 <= g2 ->
  (forall x, runs bs2 g2 (k x) (fun y s => Q1 x s -> Q2 y s)) ->
  runs (bs1 ++ bs2) (g1 + g2) (ser_bind m k) Q2.
Proof.
  intros H1 Hst Hg2 H2 used s Hs Hn Hg. rewrite len_app in Hn. pose proof (len_nonneg bs2).
  destruct (H1 used s Hs) as (s1 & x & E1 & Hs1 & Hx1 & Hl1 & Hq1); [lia|lia|].
  destruct (H2 x (used + g1) s1 Hs1) as (s2 & y & E2 & Hs2 & Hx2 & Hl2 & Hq2);
    [rewrite (ext_cap _ _ Hx1), (bytes_len _ _ _ Hl1); lia|lia|].
  exists s2, y. split; [unfold ser_bind; by rewrite E1|]. rewrite Z.add_assoc. split; [done|].
  split; [by eapply extends_trans|]. split; [by rewrite Hl2, Hl1, app_assoc|]. apply Hq2. by eapply Hst.
Qed.

Lemma runs_ret {X} (x : X) (Q : X -> Serializer -> Prop) : (forall s, Q x s) -> runs [] 0 (ser_ret x) Q.
Proof.
  intros HQ used s Hs Hn Hg. exists s, x. rewrite Z.add_0_r, app_nil_r.
  split; [done|]. split; [done|]. split; [apply extends_refl|]. by split.
Qed.

Lemma runs_weaken {X} bs g g' (m : SerM X) (Q Q' : X -> Serializer -> Prop) :
  runs bs g m Q -> g <= g' -> (forall x s, Q x s -> Q' x s) -> runs bs g' m Q'.
Proof.
  intros H Hg HQ used s Hs Hn Hg'. destruct (H used s Hs Hn) as (s' & x & E & Hs' & Hx & Hl & Hq); [lia|].
  exists s', x. split; [done|]. split; [|by auto]. destruct Hs' as [S1 S2 S3 S4 S5 S6 S7 S8 S9 S10 S11].
  split; try done; lia.
Qed.

(** ** Writes *)

Lemma mem_len_append m bs : mem_len (append_bytes m bs) = mem_len m + len bs.
Proof. unfold mem_len, append_bytes. cbn. apply len_app. Qed.

Lemma append_ok used s bs :
  ser_ok used s -> used + len bs <= guest_limit ->
  let s' := set_buffer (append_bytes (buffer s) bs) s in
  ser_ok (used + len bs) s' /\ extends s s' /\ blen s' = blen s + len bs /\
  located s' (vaddr s + (blen s - region_start s)) bs.
Proof.
  intros Hs Hg s'. pose proof (len_nonneg bs) as H0.
  assert (blen s' = blen s + len bs) as El by apply mem_len_append.
  assert (region_start s' = region_start s /\ vaddr s' = vaddr s /\ s_regions s' = s_regions s) as (E1 & E2 & E3) by done.
  destruct Hs as [S1 S2 S3 S4 S5 S6 S7 S8 S9 S10 S11].
  split; [|split; [|split; [done|]]].
  - split; rewrite ?E1, ?E2, ?E3, ?El; try done; try lia.
    eapply Forall_impl; [exact S11|]. intros r. apply homed_le. lia.
  - split; [done|by exists bs|]. intros a h [Hr|[Ha ->]]; [by left|].
    right. rewrite E1, E2, El. split; [lia|done].
  - intros k b Hb. apply lookup_lt_Some in Hb as Hk. exists (length (mem_bytes (buffer s)) + k)%nat. split.
    + right. rewrite E1, E2, El. unfold mem_len, len in *. split; [lia|]. lia.
    + cbn. rewrite lookup_app_r by lia. by replace (_ + k - _)%nat with k by lia.
Qed.

Lemma next_vaddr_ok used s : ser_ok used s -> next_vaddr s = vaddr s + (blen s - region_start s).
Proof.
  intros [S1 S2 S3 S4 S5 S6 S7 S8 S9 S10 S11]. unfold next_vaddr, saturating_add, saturating_sub, guest_limit in *.
  change MM_INPUT_START with (4 * 2 ^ 32) in *. lia.
Qed.

Lemma runs_write_all bs : runs bs (len bs) (s_write_all bs) (fun a s => located s a bs).
Proof.
  intros used s Hs Hn Hg. unfold s_write_all, write_all_unchecked.
  rewrite (proj2 (Z.leb_le _ _)) by done. rewrite (next_vaddr_ok used s Hs).
  destruct (append_ok used s bs Hs Hg) as (H1 & H2 & H3 & H4). by eexists _, _.
Qed.

Lemma runs_write bs : runs bs (len bs) (s_write bs) (fun a s => located s a bs).
Proof. apply runs_write_all. Qed.

Lemma runs_fill num x :
  0 <= num -> runs (replicate (Z.to_nat num) x) num (s_fill_write num x) (fun _ _ => True).
Proof.
  intros H0 used s Hs Hn Hg. unfold s_fill_write, fill_write, write_ptr_for, checked_add.
  assert (len (replicate (Z.to_nat num) x) = num) as El by (unfold len; rewrite length_replicate; lia).
  rewrite El in Hn. pose proof (ser_len _ _ Hs). pose proof (ser_limit _ _ Hs). unfold guest_limit in *.
  rewrite (proj2 (Z.leb_le _ _)) by lia. rewrite (proj2 (Z.leb_le _ _)) by done.
  destruct (append_ok used s (replicate (Z.to_nat num) x) Hs) as (F1 & F2 & F3 & F4);
    [rewrite El; unfold guest_limit; lia|].
  rewrite El in *. by eexists _, tt.
Qed.

Lemma stable_located a bs : stable (fun s => located s a bs).
Proof. intros s s' He. by apply located_extends. Qed.

Lemma stable_true : stable (fun _ => True).
Proof. done. Qed.

(** ** Accounts *)

Lemma same_views_view c c' b : same_views c c' -> account_view b c' = account_view b c.
Proof. by intros (flags & _ & ->). Qed.

Lemma same_views_refl c : same_views c c.
Proof. exists (touched_flags (accounts c)). by destruct c as [[]]. Qed.

Lemma same_views_trans c1 c2 c3 : same_views c1 c2 -> same_views c2 c3 -> same_views c1 c3.
Proof. intros (f1 & L1 & ->) (f2 & L2 & ->). exists f2. by split; [etrans|]. Qed.

Lemma account_ok_views b c c' : same_views c c' -> account_ok b c -> account_ok b c'.
Proof.
  intros Hv (H0 & H1 & H2). unfold account_ok, get_data. rewrite (same_views_view _ _ b Hv).
  destruct Hv as (flags & L & ->). cbn. by rewrite L.
Qed.

(** Writing back the data of a payload that is not shared changes nothing. *)
Lemma put_view_same a i :
  view_is_shared (get_view a i) = false ->
  put_view i (view_write_data (view_data (get_view a i)) (get_view a i)) a = a.
Proof.
  intros Hs. unfold put_view, view_write_data, with_payload. destruct a as [sh pr bc tf rd ld]. cbn.
  unfold view_is_shared, view_data, get_view in *. cbn in *. f_equal.
  - destruct (sh !! Z.to_nat i) as [y|] eqn:Ey; [|by apply list_insert_ge, lookup_ge_None].
    apply list_insert_id. by rewrite (list_lookup_total_correct _ _ _ Ey).
  - destruct (pr !! Z.to_nat i) as [y|] eqn:Ey; [|by apply list_insert_ge, lookup_ge_None].
    apply list_insert_id. rewrite (list_lookup_total_correct _ _ _ Ey) in *. destruct y. cbn in *. by subst.
Qed.

(** Mapping an account only touches it. *)
Lemma create_region_ok b at_ c :
  account_ok b c -> exists c' r,
    create_memory_region_of_account payload_ptr b at_ c = (c', Ok r) /\ same_views c c' /\
    host_addr r = payload_ptr (get_index_in_transaction b) /\ vm_addr r = at_ /\
    region_len r = len (get_data b c) /\ vm_gap_shift r = 63.
Proof.
  intros (_ & Hi & Hl). unfold create_memory_region_of_account, tx_bind, tx_get, tx_ret.
  destruct (can_data_be_changed b c) as [u|e] eqn:Ec; cbn [is_ok andb];
    [|eexists _, _; split; [reflexivity|]; split; [apply same_views_refl|done]].
  destruct (is_shared b c) eqn:Es; cbn [negb];
    [eexists _, _; split; [reflexivity|]; split; [apply same_views_refl|done]|].
  unfold get_data_mut, tx_bind, tx_lift. rewrite Ec. unfold b_touch, on_accounts, touch.
  destruct (lookup_lt_is_Some_2 _ _ Hi) as [x ->]. unfold make_data_mut, tx_bind, tx_get.
  match goal with |- context[is_shared b ?c'] => assert (is_shared b c' = false) as -> by done end.
  unfold update_view, tx_modify. eexists _, _. split; [reflexivity|]. split; [|done].
  unfold account_view. rewrite put_view_same by exact Es.
  exists (<[Z.to_nat (get_index_in_transaction b):=true]> (touched_flags (accounts c))).
  split; [apply length_insert|done].
Qed.

(** ** Regions *)

Lemma push_region_ok used s :
  ser_ok used s -> stricter = true -> exists s',
    push_region s = Some (s', Ok tt) /\ ser_ok used s' /\ extends s s' /\ buffer s' = buffer s /\
    region_start s' = blen s /\ vaddr s' = vaddr s + (blen s - region_start s) /\
    s_context s' = s_context s.
Proof.
  intros Hs Hst. destruct Hs as [S1 S2 S3 S4 S5 S6 S7 S8 S9 S10 S11]. unfold push_region.
  rewrite (proj2 (Z.ltb_ge _ _)) by lia. eexists. split; [reflexivity|].
  assert (as_u64 (vaddr s + (blen s - region_start s)) = vaddr s + (blen s - region_start s)) as ->.
  { unfold cast_u, guest_limit in *. change MM_INPUT_START with (4 * 2 ^ 32) in *. apply Z.mod_small. lia. }
  split; [|split; [|done]].
  - split; cbn [buffer s_regions vaddr region_start s_context]; try done; try lia.
    + apply Forall_app. split.
      * eapply Forall_impl; [exact S7|]. intros r. cbn beta. lia.
      * apply Forall_singleton. unfold new_writable, region_new. cbn. lia.
    + intros i r r' H1 H2. destruct (decide (S i < length (s_regions s))%nat) as [Hi|Hi].
      * rewrite lookup_app_l in H1, H2 by lia. by eapply S8.
      * assert (i < length (s_regions s))%nat as Hi'.
        { apply lookup_lt_Some in H2. rewrite length_app in H2. cbn in H2. lia. }
        rewrite lookup_app_l in H1 by lia. rewrite lookup_app_r in H2 by lia.
        apply list_lookup_singleton_Some in H2 as [_ <-].
        apply (Forall_lookup_1 _ _ _ _ S7) in H1. unfold new_writable, region_new. cbn. lia.
    + intros E. congruence.
    + apply Forall_app. split; [done|]. apply Forall_singleton. left. cbn. lia.
  - split; [done|done|]. intros a h [(r & Hr & Ha & ->)|[Ha ->]].
    + left. exists r. cbn. split; [by apply elem_of_app; left|done].
    + left. exists (new_writable (mem_ptr (buffer s) + region_start s) (blen s - region_start s) (vaddr s)).
      cbn. split; [apply elem_of_app; right; by apply list_elem_of_singleton|]. split; [lia|]. lia.
Qed.

(** A region for an account behind the last one, with the bytes that follow in the buffer. *)
Lemma add_region_ok used s r bs reserved start c' :
  ser_ok used s -> stricter = true -> region_start s = blen s -> same_views c0 c' ->
  vm_addr r = vaddr s -> vm_gap_shift r = 63 -> 0 <= region_len r <= reserved ->
  blen s <= start <= blen s + len bs -> used + reserved + len bs <= guest_limit -> homed (blen s + len bs) r ->
  let s' := mkSerializer (append_bytes (buffer s) bs) (s_regions s ++ [r]) (vaddr s + reserved) start c' in
  ser_ok (used + (reserved + len bs)) s' /\ extends s s' /\ blen s' = blen s + len bs /\
  located_at s' (vaddr s) (host_addr r) (region_len r).
Proof.
  intros [S1 S2 S3 S4 S5 S6 S7 S8 S9 S10 S11] Hst Hrs Hv Hvm Hg Hlen Hstart Hlim Hh s'.
  assert (blen s' = blen s + len bs) as El by apply mem_len_append.
  split; [|split; [|split; [done|]]].
  - split; rewrite ?El; subst s'; cbn [buffer s_regions vaddr region_start s_context]; try done; try lia.
    + apply Forall_app. split.
      * eapply Forall_impl; [exact S7|]. intros r'. cbn beta. lia.
      * apply Forall_singleton. rewrite Hvm, Hg. lia.
    + intros i r1 r2 H1 H2. destruct (decide (S i < length (s_regions s))%nat) as [Hi|Hi].
      * rewrite lookup_app_l in H1, H2 by lia. by eapply S8.
      * assert (i < length (s_regions s))%nat as Hi'.
        { apply lookup_lt_Some in H2. rewrite length_app in H2. cbn in H2. lia. }
        rewrite lookup_app_l in H1 by lia. rewrite lookup_app_r in H2 by lia.
        apply list_lookup_singleton_Some in H2 as [_ <-].
        apply (Forall_lookup_1 _ _ _ _ S7) in H1. rewrite Hvm. lia.
    + intros E. congruence.
    + apply Forall_app. split; [|by apply Forall_singleton].
      pose proof (len_nonneg bs). eapply Forall_impl; [exact S11|]. intros r'. apply homed_le. lia.
  - split; [done|by exists bs|]. intros a h [(r' & Hr & Ha & ->)|[Ha ->]]; [|lia].
    left. exists r'. cbn. split; [by apply elem_of_app; left|done].
  - intros k Hk. left. exists r. subst s'. cbn. split; [apply elem_of_app; right; by apply list_elem_of_singleton|].
    rewrite Hvm. split; [lia|]. lia.
Qed.

(** ** The data of an account *)

Definition zeros (n : Z) : list Z := replicate (Z.to_nat n) 0.

(** What [write_account] appends to the buffer. *)
Definition data_block (data : list Z) : list Z :=
  if mapped_directly stricter direct then (if is_loader_v1 then [] else zeros A)
  else data ++ (if is_loader_v1 then [] else zeros (MAX_PERMITTED_DATA_INCREASE + align_offset (len data) A)).

(** The guest bytes that it uses at most. *)
Definition data_guest (d : Z) : Z := d + MAX_PERMITTED_DATA_INCREASE + (d + MAX_PERMITTED_DATA_INCREASE) + 2 * A.

(** The data is in the buffer or, with direct mapping, in the payload of the account. *)
Definition data_at (b : BorrowedInstructionAccount) (a : Z) s : Prop :=
  if mapped_directly stricter direct
  then located_at s a (payload_ptr (get_index_in_transaction b)) (len (get_data b c0))
  else located s a (get_data b c0).

Lemma align_offset_bounds d : 0 <= align_offset d A < A.
Proof. unfold align_offset. apply Z.mod_pos_bound. lia. Qed.

Lemma ser_ok_weaken used used' s : ser_ok used s -> used <= used' <= guest_limit -> ser_ok used' s.
Proof. intros [S1 S2 S3 S4 S5 S6 S7 S8 S9 S10 S11] Hu. split; try done; lia. Qed.

Lemma ser_get_data used s b : ser_ok used s -> get_data b (s_context s) = get_data b c0.
Proof. intros Hs. unfold get_data. by rewrite (same_views_view _ _ b (ser_views _ _ Hs)). Qed.

Lemma fill_exec s num :
  0 <= num -> blen s + num <= cap s -> blen s + num <= guest_limit ->
  s_fill_write num 0 s = Some (set_buffer (append_bytes (buffer s) (zeros num)) s, Ok tt).
Proof.
  intros H0 Hn Hg. unfold s_fill_write, fill_write, write_ptr_for, checked_add, guest_limit in *.
  rewrite (proj2 (Z.leb_le _ _)) by lia. by rewrite (proj2 (Z.leb_le _ _)).
Qed.

Lemma write_all_exec s bs :
  blen s + len bs <= cap s ->
  s_write_all bs s = Some (set_buffer (append_bytes (buffer s) bs) s, Ok (next_vaddr s)).
Proof. intros Hn. unfold s_write_all, write_all_unchecked. by rewrite (proj2 (Z.leb_le _ _)). Qed.

Lemma append_append m bs bs' : append_bytes (append_bytes m bs) bs' = append_bytes m (bs ++ bs').
Proof. unfold append_bytes. cbn. by rewrite app_assoc. Qed.

Lemma len_zeros n : 0 <= n -> len (zeros n) = n.
Proof. intros H. unfold len, zeros. rewrite length_replicate. lia. Qed.

Abbreviation write b := (write_account A payload_ptr is_loader_v1 stricter direct b).

(** Without the stricter rules the data follows the header in the one region. *)
Lemma write_account_plain b :
  stricter = false -> account_ok b c0 ->
  runs (data_block (get_data b c0)) (data_guest (len (get_data b c0))) (write b) (data_at b).
Proof.
  intros Hst (_ & _ & Hd) used s Hs Hn Hg. unfold data_block, data_guest, data_at in *.
  set (data := get_data b c0) in *. pose proof (len_nonneg data). pose proof (align_offset_bounds (len data)).
  unfold mapped_directly in *. rewrite Hst in Hn |- *. cbn [andb] in *.
  destruct (ser_plain _ _ Hs Hst) as (Hrs & Hreg & Hva).
  assert (saturating_add (vaddr s) (blen s) = vaddr s + (blen s - region_start s)) as Ea.
  { rewrite <- (next_vaddr_ok _ _ Hs). unfold next_vaddr. rewrite Hrs.
    unfold saturating_add, saturating_sub. pose proof (ser_start _ _ Hs). rewrite Hva.
    change MM_INPUT_START with (4 * 2 ^ 32). change u64_MAX with (2 ^ 64 - 1). lia. }
  assert (0 <= MAX_PERMITTED_DATA_INCREASE) as Hm by done.
  unfold write_account, ser_bind, ser_get, ser_ret. cbn [negb]. rewrite (ser_get_data _ _ b Hs).
  fold data. rewrite len_app in Hn.
  pose proof (len_nonneg (if is_loader_v1 then [] else zeros (MAX_PERMITTED_DATA_INCREASE + align_offset (len data) A))).
  rewrite Ea, write_all_exec by lia.
  destruct (append_ok used s data Hs) as (A1 & A2 & A3 & A4); [lia|].
  destruct is_loader_v1; cbn [negb].
  - eexists _, _. split; [reflexivity|]. split; [eapply ser_ok_weaken; [done|lia]|]. split; [done|]. split; [by rewrite app_nil_r|done].
  - rewrite len_zeros in Hn by lia. set (s1 := set_buffer (append_bytes (buffer s) data) s) in *.
    set (pad := MAX_PERMITTED_DATA_INCREASE + align_offset (len data) A) in *.
    pose proof (ser_len _ _ A1). pose proof (ext_cap _ _ A2). rewrite fill_exec by lia.
    destruct (append_ok (used + len data) s1 (zeros pad) A1) as (B1 & B2 & B3 & B4);
      [rewrite len_zeros; lia|]. rewrite len_zeros in B1, B3 by lia.
    eexists _, _. split; [reflexivity|]. split; [eapply ser_ok_weaken; [done|lia]|].
    split; [by eapply extends_trans|]. split; [by cbn; rewrite app_assoc|by eapply located_extends].
Qed.

Lemma on_last_exec m l r va st c f :
  on_last_region f (mkSerializer m (l ++ [r]) va st c) = Some (mkSerializer m (l ++ [f r]) va st c, Ok tt).
Proof. unfold on_last_region. cbn [s_regions buffer vaddr region_start s_context]. by rewrite last_snoc, removelast_last. Qed.

Lemma guest_address used s n : ser_ok used s -> 0 <= n -> used + n <= guest_limit ->
  as_u64 (vaddr s + n) = vaddr s + n.
Proof.
  intros [S1 S2 S3 S4 S5 S6 S7 S8 S9 S10 S11] H0 Hn. unfold cast_u, guest_limit in *.
  change MM_INPUT_START with (4 * 2 ^ 32) in *. apply Z.mod_small. lia.
Qed.

Lemma reserved_eq d :
  0 <= d <= MAX_ACCOUNT_DATA_LEN ->
  address_space_reserved is_loader_v1 d = d + (if is_loader_v1 then 0 else MAX_PERMITTED_DATA_INCREASE).
Proof.
  intros Hd. unfold address_space_reserved, saturating_add. destruct is_loader_v1; cbn [negb]; [lia|].
  change MAX_PERMITTED_DATA_INCREASE with 10240. change MAX_ACCOUNT_DATA_LEN with 10485760 in *.
  change u64_MAX with (2 ^ 64 - 1). lia.
Qed.

(** The bytes of the account and its room for growth become a region, whose length is that of
    the data. *)
Lemma copied_region b used s z (c : TransactionContext) :
  let data := get_data b c0 in
  ser_ok used s -> stricter = true -> region_start s = blen s -> same_views c0 c ->
  used + 2 * (len data + len z) <= guest_limit ->
  let r := modify_memory_region_of_account c b
    (new_writable (mem_ptr (buffer s) + region_start s) (len data + len z) (vaddr s)) in
  let s' := mkSerializer (append_bytes (buffer s) (data ++ z)) (s_regions s ++ [r])
    (vaddr s + (len data + len z)) (blen s + (len data + len z)) c in
  ser_ok (used + 2 * (len data + len z)) s' /\ extends s s' /\
  blen s' = blen s + (len data + len z) /\ located s' (vaddr s) data.
Proof.
  intros data Hs Hst Hrs Hv Hg r s'. pose proof (len_nonneg data). pose proof (len_nonneg z).
  assert (region_len r = len data) as Hr.
  { subst r. cbn. unfold get_data. by rewrite (same_views_view _ _ b Hv). }
  destruct (add_region_ok used s r (data ++ z) (len data + len z) (blen s + (len data + len z)) c Hs Hst Hrs Hv)
    as (A1 & A2 & A3 & A4); try done; rewrite ?len_app, ?Hr; try lia.
  { left. rewrite Hr. pose proof (ser_start _ _ Hs). assert (host_addr r = ptr + blen s) as ->; [|lia].
    change (host_addr r) with (mem_ptr (buffer s) + region_start s). by rewrite (ser_ptr _ _ Hs), Hrs. }
  rewrite len_app in *.
  replace (used + (_ + _)) with (used + 2 * (len data + len z)) in A1 by lia. fold s' in A1, A2, A3, A4.
  split; [done|]. split; [done|]. split; [done|]. intros k x Hx. apply lookup_lt_Some in Hx as Hk.
  exists (length (mem_bytes (buffer s)) + k)%nat. split.
  - specialize (A4 (Z.of_nat k)). rewrite Hr in A4. unfold len in A4 at 1.
    replace (ptr + _) with (host_addr r + Z.of_nat k); [apply A4; lia|].
    subst r. cbn. rewrite Hrs, (ser_ptr _ _ Hs). unfold mem_len, len. lia.
  - cbn. rewrite lookup_app_r by lia. replace (_ + k - _)%nat with k by lia. by apply lookup_app_l_Some.
Qed.

Lemma copied_exec b used s bs :
  ser_ok used s -> region_start s = blen s -> used + len bs <= guest_limit ->
  ser_bind push_region (fun _ => ser_bind (ser_get s_context) (fun c =>
      on_last_region (modify_memory_region_of_account c b)))
    (set_buffer (append_bytes (buffer s) bs) s) =
  Some (mkSerializer (append_bytes (buffer s) bs)
    (s_regions s ++ [modify_memory_region_of_account (s_context s) b
      (new_writable (mem_ptr (buffer s) + region_start s) (len bs) (vaddr s))])
    (vaddr s + len bs) (blen s + len bs) (s_context s), Ok tt).
Proof.
  intros Hs Hrs Hg. pose proof (len_nonneg bs). unfold ser_bind, push_region, ser_get.
  cbn [buffer set_buffer region_start s_regions vaddr s_context append_bytes mem_ptr].
  rewrite mem_len_append, (proj2 (Z.ltb_ge _ _)) by lia.
  replace (blen s + len bs - region_start s) with (len bs) by lia.
  rewrite (guest_address used s) by done. by rewrite on_last_exec.
Qed.

(** The bytes behind the account align the next field. *)
Lemma runs_align (d a : Z) :
  runs (if is_loader_v1 then [] else zeros (align_offset d A)) A
    (ser_bind (if negb is_loader_v1 then s_fill_write (align_offset d A) 0 else ser_ret tt)
       (fun _ => ser_ret a)) (fun x _ => x = a).
Proof.
  pose proof (align_offset_bounds d).
  assert (runs (if is_loader_v1 then [] else zeros (align_offset d A)) A
    (if negb is_loader_v1 then s_fill_write (align_offset d A) 0 else ser_ret tt) (fun _ _ => True)) as H1.
  { destruct is_loader_v1; cbn [negb].
    - eapply runs_weaken; [by apply (runs_ret tt (fun _ _ => True))|lia|done].
    - eapply runs_weaken; [apply runs_fill; lia|lia|done]. }
  pose proof (runs_bind _ _ [] 0 _ (fun _ => ser_ret a) _ (fun x _ => x = a) H1 (fun _ => stable_true)
    (Z.le_refl 0)) as H2. rewrite Z.add_0_r, app_nil_r in H2. apply H2.
  intros _. by apply runs_ret.
Qed.

(** The region of the copied data, if there is anything to reserve. *)
Lemma copied_step b used s z :
  let data := get_data b c0 in
  ser_ok used s -> stricter = true -> region_start s = blen s ->
  used + 2 * (len data + len z) <= guest_limit -> exists s',
  (if 0 <? len data + len z
   then ser_bind push_region (fun _ => ser_bind (ser_get s_context) (fun c =>
     on_last_region (modify_memory_region_of_account c b)))
   else ser_ret tt) (set_buffer (append_bytes (buffer s) (data ++ z)) s) = Some (s', Ok tt) /\
  ser_ok (used + 2 * (len data + len z)) s' /\ extends s s' /\
  mem_bytes (buffer s') = mem_bytes (buffer s) ++ data ++ z /\ located s' (vaddr s) data.
Proof.
  intros data Hs Hst Hrs Hg. pose proof (len_nonneg data). pose proof (len_nonneg z).
  destruct (0 <? len data + len z) eqn:E0.
  - eexists. split.
    + rewrite (copied_exec b used) by (try done; rewrite len_app; lia). by rewrite len_app.
    + destruct (copied_region b used s z (s_context s)) as (A1 & A2 & A3 & A4); try done. apply (ser_views _ _ Hs).
  - assert (data = []) as Ed by (apply nil_length_inv; unfold len in *; lia).
    assert (z = []) as -> by (apply nil_length_inv; unfold len in *; lia).
    rewrite Ed in *. eexists. split; [reflexivity|].
    destruct (append_ok used s [] Hs) as (A1 & A2 & A3 & A4); [cbn in *; lia|].
    split; [eapply ser_ok_weaken; [done|cbn in *; lia]|]. split; [done|]. split; [done|by intros k x].
Qed.

(** The room for growth and the alignment behind it. *)
Lemma growth_zeros d :
  (if is_loader_v1 then [] else zeros (MAX_PERMITTED_DATA_INCREASE + align_offset d A)) =
  zeros (if is_loader_v1 then 0 else MAX_PERMITTED_DATA_INCREASE) ++
  (if is_loader_v1 then [] else zeros (align_offset d A)).
Proof.
  pose proof (align_offset_bounds d). assert (0 <= MAX_PERMITTED_DATA_INCREASE) by done.
  destruct is_loader_v1; [done|]. unfold zeros. rewrite <- replicate_add. f_equal. lia.
Qed.

(** With the stricter rules and without direct mapping. *)
Lemma write_account_copied b :
  stricter = true -> direct = false -> account_ok b c0 ->
  runs (data_block (get_data b c0)) (data_guest (len (get_data b c0))) (write b) (data_at b).
Proof.
  intros Hst Hdir (_ & _ & Hd) used s Hs Hn Hg. unfold data_block, data_guest, data_at in *.
  set (data := get_data b c0) in *. pose proof (len_nonneg data). pose proof (align_offset_bounds (len data)).
  unfold mapped_directly in *. rewrite Hst, Hdir in Hn |- *. cbn [andb] in *.
  assert (0 <= MAX_PERMITTED_DATA_INCREASE) as Hm by done.
  rewrite growth_zeros, !len_app in Hn. rewrite growth_zeros.
  set (z := zeros (if is_loader_v1 then 0 else MAX_PERMITTED_DATA_INCREASE)) in *.
  set (z' := if is_loader_v1 then [] else zeros (align_offset (len data) A)) in *.
  assert (len z = if is_loader_v1 then 0 else MAX_PERMITTED_DATA_INCREASE) as Hz
    by (apply len_zeros; by destruct is_loader_v1).
  pose proof (len_nonneg z). pose proof (len_nonneg z').
  assert (len z <= MAX_PERMITTED_DATA_INCREASE) by (rewrite Hz; destruct is_loader_v1; lia).
  destruct (push_region_ok used s Hs Hst) as (s1 & E1 & Hs1 & Hx1 & Hb1 & Hr1 & Hv1 & Hc1).
  unfold write_account. unfold ser_bind at 1, ser_get at 1. rewrite (ser_get_data _ _ b Hs). fold data.
  cbn [negb]. unfold ser_bind at 1. rewrite E1. unfold ser_bind at 1, ser_get at 1.
  assert (ser_bind (s_write_all data) (fun _ =>
      if negb is_loader_v1 then s_fill_write MAX_PERMITTED_DATA_INCREASE 0 else ser_ret tt) s1 =
    Some (set_buffer (append_bytes (buffer s1) (data ++ z)) s1, Ok tt)) as E2.
  { unfold ser_bind. rewrite write_all_exec by (rewrite Hb1; lia). clearbody z'.
    subst z. destruct is_loader_v1; cbn [negb]; [by rewrite app_nil_r|].
    pose proof (ser_len _ _ Hs). rewrite len_zeros in Hn by done.
    rewrite fill_exec; cbn [buffer set_buffer append_bytes mem_capacity]; rewrite ?mem_len_append, ?Hb1; try lia.
    by rewrite append_append. }
  unfold ser_bind at 1. rewrite E2. rewrite reserved_eq, <- Hz by (subst data; lia). clear E2.
  destruct (copied_step b used s1 z Hs1 Hst) as (s2 & E2 & Hs2 & Hx2 & Hl2 & Hd2);
    [by rewrite Hb1|fold data; lia|]. fold data in E2, Hs2, Hl2, Hd2.
  unfold ser_bind at 1. rewrite E2. pose proof (bytes_len _ _ _ Hl2) as Hl2'. rewrite len_app, Hb1 in Hl2'.
  pose proof (ext_cap _ _ Hx2) as C2. pose proof (ext_cap _ _ Hx1) as C1.
  destruct (runs_align (len data) (vaddr s1) _ s2 Hs2) as (s3 & x & E3 & Hs3 & Hx3 & Hl3 & ->).
  1: fold z'; rewrite C2, C1; lia. 1: lia.
  exists s3, (vaddr s1). split; [exact E3|]. split; [eapply ser_ok_weaken; [done|lia]|].
  split; [eapply extends_trans; [done|by eapply extends_trans]|].
  split; [by rewrite Hl3, Hl2, Hb1, <- !app_assoc|by eapply located_extends].
Qed.

Lemma append_nil m : append_bytes m [] = m.
Proof. destruct m. unfold append_bytes. cbn. by rewrite app_nil_r. Qed.

(** With direct mapping the payload itself becomes the region, and the padding of the next
    region is cut so that it is aligned. *)
Lemma mapped_exec b used s :
  let data := get_data b c0 in
  let padding := if is_loader_v1 then [] else zeros A in
  ser_ok used s -> account_ok b c0 -> 0 < address_space_reserved is_loader_v1 (len data) ->
  blen s + len padding <= cap s -> used + address_space_reserved is_loader_v1 (len data) + A <= guest_limit ->
  exists c' r,
    same_views c0 c' /\ host_addr r = payload_ptr (get_index_in_transaction b) /\ vm_addr r = vaddr s /\
    region_len r = len data /\ vm_gap_shift r = 63 /\
    forall a : Z, ser_bind
      (ser_bind (ser_get vaddr) (fun at_ =>
         ser_bind (ser_ctx (create_memory_region_of_account payload_ptr b at_)) (fun new_region =>
           ser_modify (fun s => mkSerializer (buffer s) (s_regions s ++ [new_region])
             (as_u64 (vaddr s + address_space_reserved is_loader_v1 (len data))) (region_start s) (s_context s)))))
      (fun _ => ser_bind
         (if negb is_loader_v1 then ser_bind (s_fill_write A 0) (fun _ => ser_modify (fun s =>
            mkSerializer (buffer s) (s_regions s) (vaddr s)
              (region_start s + saturating_sub A (align_offset (len data) A)) (s_context s)))
          else ser_ret tt) (fun _ => ser_ret a)) s =
    Some (mkSerializer (append_bytes (buffer s) padding) (s_regions s ++ [r])
      (vaddr s + address_space_reserved is_loader_v1 (len data))
      (region_start s + if is_loader_v1 then 0 else A - align_offset (len data) A) c', Ok a).
Proof.
  intros data padding Hs Hb Hpos Hn Hg. pose proof (ser_len _ _ Hs). pose proof (align_offset_bounds (len data)).
  destruct (create_region_ok b (vaddr s) (s_context s)) as (c' & r & E & Hv & Hh & Hvm & Hl & Hsh);
    [by eapply account_ok_views; [apply (ser_views _ _ Hs)|]|].
  exists c', r. split; [eapply same_views_trans; [apply (ser_views _ _ Hs)|done]|].
  rewrite (ser_get_data _ _ b Hs) in Hl. split; [done|]. split; [done|]. split; [done|]. split; [done|].
  intros a. unfold ser_bind, ser_get, ser_ctx. rewrite E. unfold ser_modify, ser_ret.
  rewrite (guest_address used s) by (done || lia). subst padding. destruct is_loader_v1; cbn [negb].
  - cbn [buffer s_regions vaddr region_start s_context]. by rewrite append_nil, Z.add_0_r.
  - rewrite len_zeros in Hn by lia. rewrite fill_exec; cbn [buffer s_regions vaddr region_start s_context set_buffer]; try lia.
    do 3 f_equal. unfold saturating_sub. lia.
Qed.

Lemma write_account_mapped b :
  stricter = true -> direct = true -> account_ok b c0 ->
  runs (data_block (get_data b c0)) (data_guest (len (get_data b c0))) (write b) (data_at b).
Proof.
  intros Hst Hdir Hb used s Hs Hn Hg. unfold data_block, data_guest, data_at in *. pose proof (proj2 (proj2 Hb)) as Hd.
  set (data := get_data b c0) in *. pose proof (len_nonneg data). pose proof (align_offset_bounds (len data)).
  unfold mapped_directly in *. rewrite Hst, Hdir in Hn |- *. cbn [andb] in *.
  assert (0 <= MAX_PERMITTED_DATA_INCREASE) as Hm by done.
  set (z := if is_loader_v1 then [] else zeros A) in *.
  assert (len z = if is_loader_v1 then 0 else A) as Hz
    by (subst z; destruct is_loader_v1; [done|apply len_zeros; lia]).
  destruct (push_region_ok used s Hs Hst) as (s1 & E1 & Hs1 & Hx1 & Hb1 & Hr1 & Hv1 & Hc1).
  pose proof (reserved_eq (len data) ltac:(lia)) as Hres.
  unfold write_account. unfold ser_bind at 1, ser_get at 1. rewrite (ser_get_data _ _ b Hs). fold data.
  cbn [negb]. unfold ser_bind at 1. rewrite E1. unfold ser_bind at 1, ser_get at 1, ser_bind at 1, ser_ret at 1.
  destruct (0 <? address_space_reserved is_loader_v1 (len data)) eqn:E0.
  - destruct (mapped_exec b used s1 Hs1 Hb) as (c' & r & Hv & Hh & Hvm & Hl & Hsh & E2); fold data;
      [lia|rewrite Hb1; fold z; lia|destruct is_loader_v1; lia|]. fold data z in E2, Hl. rewrite E2.
    destruct (add_region_ok used s1 r z (address_space_reserved is_loader_v1 (len data))
      (region_start s1 + if is_loader_v1 then 0 else A - align_offset (len data) A) c') as (A1 & A2 & A3 & A4);
      [first [done|right; by exists b|rewrite ?Hb1, ?Hr1, ?Hz, ?Hres, ?Hl; first [done|destruct is_loader_v1; lia]] .. |].
    eexists _, _. split; [reflexivity|].
    split; [eapply ser_ok_weaken; [exact A1|rewrite Hz, Hres; destruct is_loader_v1; lia]|].
    split; [by eapply extends_trans|]. split; [cbn; by rewrite Hb1|].
    rewrite Hl, Hh in A4. exact A4.
  - rewrite Hres in E0. destruct is_loader_v1; [|unfold MAX_PERMITTED_DATA_INCREASE, MAX_ACCOUNT_DATA_GROWTH_PER_INSTRUCTION in *; lia].
    exists s1, (vaddr s1). split; [reflexivity|]. split; [eapply ser_ok_weaken; [done|lia]|].
    split; [done|]. split; [by rewrite Hb1, app_nil_r|]. intros k Hk. lia.
Qed.

Lemma runs_write_account b :
  account_ok b c0 ->
  runs (data_block (get_data b c0)) (data_guest (len (get_data b c0))) (write b) (data_at b).
Proof.
  intros Hb. assert (stricter = false \/ stricter = true /\ direct = false \/ stricter = true /\ direct = true)
    as [H|[[H1 H2]|[H1 H2]]] by (destruct stricter, direct; auto).
  - by apply write_account_plain.
  - by apply write_account_copied.
  - by apply write_account_mapped.
Qed.

(** ** The loops over the accounts *)

(** The bind rule with the remaining guest bytes as a difference. *)
Lemma runs_seq {X Y} bs1 g1 bs2 g (m : SerM X) (k : X -> SerM Y) Q1 (Q2 : Y -> Serializer -> Prop) :
  runs bs1 g1 m Q1 -> (forall x, stable (Q1 x)) -> g1 <= g ->
  (forall x, runs bs2 (g - g1) (k x) (fun y s => Q1 x s -> Q2 y s)) ->
  runs (bs1 ++ bs2) g (ser_bind m k) Q2.
Proof.
  intros H1 Hst Hg H2. replace g with (g1 + (g - g1)) by lia.
  by apply (runs_bind bs1 g1 bs2 (g - g1) m k Q1 Q2); [..|lia|].
Qed.

(** A field of [n] bytes. *)
Lemma runs_field {Y} n g bs rest (k : Z -> SerM Y) (Q : Y -> Serializer -> Prop) :
  len bs = n -> n <= g ->
  (forall a, runs rest (g - n) (k a) (fun y s => located s a bs -> Q y s)) ->
  runs (bs ++ rest) g (ser_bind (s_write bs) k) Q.
Proof.
  intros <- Hg Hk. eapply (runs_seq bs (len bs)); [apply runs_write| |done|exact Hk].
  intros a. apply stable_located.
Qed.

Lemma stable_data_at b a : stable (data_at b a).
Proof.
  intros s s' He. unfold data_at. destruct (mapped_directly _ _);
    [by apply located_at_extends|by apply located_extends].
Qed.

Lemma runs_context {Y} bs g (k : TransactionContext -> SerM Y) (Q : Y -> Serializer -> Prop) :
  (forall c, same_views c0 c -> runs bs g (k c) Q) -> runs bs g (ser_bind (ser_get s_context) k) Q.
Proof.
  intros Hk used s Hs Hn Hg. apply (Hk (s_context s) (ser_views _ _ Hs) used s Hs Hn Hg).
Qed.

(** An entry at a position of the list of accounts. *)
Definition item_ok (i : nat) (a : SerializeAccount) : Prop :=
  match a with
  | SAccount _ b => account_ok b c0 /\ len (account_key_bytes b c0) = 32 /\ len (get_owner b c0) = 32
  | SDuplicate p => 0 <= p < Z.of_nat i
  end.

(** The fields of an account are where its metadata says. *)
Definition fields_at (b : BorrowedInstructionAccount) (md : SerializedAccountMetadata) s : Prop :=
  original_data_len md = len (get_data b c0) /\ data_at b (vm_data_addr md) s /\
  located s (vm_key_addr md) (account_key_bytes b c0) /\
  located s (vm_lamports_addr md) (le_split 8 (get_lamports b c0)) /\
  located s (vm_owner_addr md) (get_owner b c0).

Definition metadata_ok (l : list SerializeAccount) (mds : list SerializedAccountMetadata) s : Prop :=
  length mds = length l /\
  forall i a md, l !! i = Some a -> mds !! i = Some md ->
    match a with
    | SAccount _ b => fields_at b md s
    | SDuplicate p => mds !! Z.to_nat p = Some md
    end.

Lemma metadata_ok_snoc l mds a md s :
  metadata_ok l mds s ->
  match a with SAccount _ b => fields_at b md s | SDuplicate p => mds !! Z.to_nat p = Some md end ->
  metadata_ok (l ++ [a]) (mds ++ [md]) s.
Proof.
  intros [Hl H] Ha. split; [rewrite !length_app; cbn; lia|]. intros i a' md' E1 E2.
  destruct (decide (i < length l)%nat) as [Hi|Hi].
  - rewrite lookup_app_l in E1 by lia. rewrite lookup_app_l in E2 by lia. specialize (H i a' md' E1 E2). destruct a'; [done|].
    by apply lookup_app_l_Some.
  - rewrite lookup_app_r in E1 by lia. rewrite lookup_app_r in E2 by lia. apply list_lookup_singleton_Some in E1 as [_ <-], E2 as [_ <-].
    destruct a; [done|]. by apply lookup_app_l_Some.
Qed.

Lemma metadata_ok_nil s : metadata_ok [] [] s.
Proof. split; [done|]. by intros i a md. Qed.

(** Guest bytes of an entry. *)
Definition item_guest (a : SerializeAccount) : Z :=
  match a with SAccount _ b => 100 + data_guest (len (get_data b c0)) | SDuplicate _ => 8 end.

Definition total (f : SerializeAccount -> Z) (l : list SerializeAccount) : Z := foldr Z.add 0 (map f l).

Lemma total_nonneg f l : (forall a, 0 <= f a) -> 0 <= total f l.
Proof. intros Hf. induction l as [|a l IH]; cbn; [done|]. specialize (Hf a). fold (total f l). lia. Qed.

Lemma data_guest_nonneg b : 0 <= data_guest (len (get_data b c0)).
Proof.
  unfold data_guest. pose proof (len_nonneg (get_data b c0)).
  assert (0 <= MAX_PERMITTED_DATA_INCREASE) by done. lia.
Qed.

Lemma item_guest_nonneg a : 0 <= item_guest a.
Proof. destruct a as [? b|]; cbn; [|done]. pose proof (data_guest_nonneg b). lia. Qed.

Lemma same_views_key c b : same_views c0 c -> account_key_bytes b c = account_key_bytes b c0.
Proof. by intros (flags & _ & ->). Qed.

Lemma runs_field_all {Y} n g bs rest (k : Z -> SerM Y) (Q : Y -> Serializer -> Prop) :
  len bs = n -> n <= g ->
  (forall a, runs rest (g - n) (k a) (fun y s => located s a bs -> Q y s)) ->
  runs (bs ++ rest) g (ser_bind (s_write_all bs) k) Q.
Proof. apply runs_field. Qed.

Lemma runs_data {Y} g b rest (k : Z -> SerM Y) (Q : Y -> Serializer -> Prop) :
  let g1 := data_guest (len (get_data b c0)) in
  account_ok b c0 -> g1 <= g ->
  (forall a, runs rest (g - g1) (k a) (fun y s => data_at b a s -> Q y s)) ->
  runs (data_block (get_data b c0) ++ rest) g (ser_bind (write b) k) Q.
Proof.
  intros g1 Hb Hg Hk. eapply (runs_seq _ g1); [by apply runs_write_account| |done|exact Hk].
  intros a. apply stable_data_at.
Qed.

Lemma u64_bytes_len x : len (le_split 8 x) = 8.
Proof. unfold len. by rewrite le_split_length. Qed.

(** ** The layout *)

(** The bytes of an entry. *)
Definition block_aligned (a : SerializeAccount) : list Z :=
  match a with
  | SAccount _ b =>
      [NON_DUP_MARKER] ++ bool_byte (is_signer (instruction_account b))
      ++ bool_byte (is_writable (instruction_account b)) ++ bool_byte (is_executable b c0) ++ [0; 0; 0; 0]
      ++ account_key_bytes b c0 ++ get_owner b c0 ++ le_split 8 (get_lamports b c0)
      ++ le_split 8 (len (get_data b c0)) ++ data_block (get_data b c0) ++ le_split 8 u64_MAX
  | SDuplicate p => [as_u8 p] ++ [0; 0; 0; 0; 0; 0; 0]
  end.
Definition block_unaligned (a : SerializeAccount) : list Z :=
  match a with
  | SAccount _ b =>
      [NON_DUP_MARKER] ++ bool_byte (is_signer (instruction_account b))
      ++ bool_byte (is_writable (instruction_account b)) ++ account_key_bytes b c0
      ++ le_split 8 (get_lamports b c0) ++ le_split 8 (len (get_data b c0)) ++ data_block (get_data b c0)
      ++ get_owner b c0 ++ bool_byte (is_executable b c0) ++ le_split 8 u64_MAX
  | SDuplicate p => [as_u8 p]
  end.

Abbreviation size_aligned := (account_size_aligned A stricter direct c0).
Abbreviation size_unaligned := (account_size_unaligned stricter direct c0).

Lemma len_data_block data :
  len (data_block data) =
  if mapped_directly stricter direct then (if is_loader_v1 then 0 else A)
  else len data + (if is_loader_v1 then 0 else MAX_PERMITTED_DATA_INCREASE + align_offset (len data) A).
Proof.
  pose proof (align_offset_bounds (len data)). assert (0 <= MAX_PERMITTED_DATA_INCREASE) by done.
  unfold data_block. destruct (mapped_directly _ _), is_loader_v1; rewrite ?len_app, ?len_zeros; try done; lia.
Qed.

(** The sizes that are computed in advance are the lengths of the blocks. *)
Lemma size_aligned_block i a : is_loader_v1 = false -> item_ok i a -> size_aligned a = len (block_aligned a).
Proof.
  intros Hv1 Ha. destruct a as [idx b|p]; [|done]. destruct Ha as (_ & Hk & Ho).
  unfold block_aligned, account_size_aligned. rewrite !len_app, !u64_bytes_len, Hk, Ho, len_data_block, Hv1.
  change (len [NON_DUP_MARKER]) with 1. change (len [0; 0; 0; 0]) with 4.
  change (len (bool_byte ?x)) with 1. destruct (mapped_directly _ _); cbn [negb]; lia.
Qed.

Lemma size_unaligned_block i a : is_loader_v1 = true -> item_ok i a -> size_unaligned a = len (block_unaligned a).
Proof.
  intros Hv1 Ha. destruct a as [idx b|p]; [|done]. destruct Ha as (_ & Hk & Ho).
  unfold block_unaligned, account_size_unaligned. rewrite !len_app, !u64_bytes_len, Hk, Ho, len_data_block, Hv1.
  change (len [NON_DUP_MARKER]) with 1. change (len (bool_byte ?x)) with 1.
  destruct (mapped_directly _ _); cbn [negb]; lia.
Qed.

Lemma total_blocks size (block : SerializeAccount -> list Z) l :
  (forall i a, l !! i = Some a -> size a = len (block a)) -> total size l = len (concat (map block l)).
Proof.
  induction l as [|a l IH]; intros H; [done|].
  change (total size (a :: l)) with (size a + total size l). cbn [map concat].
  rewrite len_app, (H 0%nat a eq_refl), IH; [done|]. intros i x Hx. by apply (H (S i)).
Qed.

Definition loop_ok (loop : list SerializeAccount -> list SerializedAccountMetadata ->
    SerM (list SerializedAccountMetadata)) (block : SerializeAccount -> list Z) : Prop :=
  forall l done mds, length mds = length done ->
    (forall i a, l !! i = Some a -> item_ok (length done + i) a) ->
    runs (concat (map block l)) (total item_guest l) (loop l mds)
      (fun mds' s => metadata_ok done mds s -> metadata_ok (done ++ l) mds' s).

Lemma loop_nil done mds :
  runs [] (total item_guest []) (ser_ret mds)
    (fun mds' s => metadata_ok done mds s -> metadata_ok (done ++ []) mds' s).
Proof. apply runs_ret. intros s. by rewrite app_nil_r. Qed.

(** The entries behind the first one. *)
Lemma loop_rest (loop : list SerializeAccount -> list SerializedAccountMetadata ->
    SerM (list SerializedAccountMetadata)) bs l a done mds md :
  (forall done mds, length mds = length done ->
    (forall i a, l !! i = Some a -> item_ok (length done + i) a) ->
    runs bs (total item_guest l) (loop l mds)
      (fun mds' s => metadata_ok done mds s -> metadata_ok (done ++ l) mds' s)) ->
  length mds = length done -> (forall i x, (a :: l) !! i = Some x -> item_ok (length done + i) x) ->
  runs bs (total item_guest l) (loop l (mds ++ [md]))
    (fun mds' s => metadata_ok done mds s ->
       match a with SAccount _ b => fields_at b md s | SDuplicate p => mds !! Z.to_nat p = Some md end ->
       metadata_ok (done ++ a :: l) mds' s).
Proof.
  intros IH Hlen Hl. eapply runs_weaken; [apply (IH (done ++ [a])); [by rewrite !length_app, Hlen|]|done|].
  - intros i x Hx. rewrite length_app. cbn [length].
    replace (_ + 1 + i)%nat with (length done + S i)%nat by lia. by apply Hl.
  - cbn beta. intros mds' s Hq Hm Ha. rewrite <- app_assoc in Hq. by apply Hq, metadata_ok_snoc.
Qed.

(** Reading the fields of an account of the current context. *)
Ltac read_account Hv :=
  unfold get_owner, get_lamports, get_data, is_executable;
  rewrite (same_views_view _ _ _ Hv), (same_views_key _ _ Hv);
  repeat match goal with
  | |- context[view_owner (account_view ?b c0)] => fold (get_owner b c0)
  | |- context[view_lamports (account_view ?b c0)] => fold (get_lamports b c0)
  | |- context[view_data (account_view ?b c0)] => fold (get_data b c0)
  | |- context[view_executable (account_view ?b c0)] => fold (is_executable b c0)
  end.

Lemma write_accounts_aligned_ok :
  loop_ok (write_accounts_aligned A payload_ptr is_loader_v1 stricter direct) block_aligned.
Proof.
  intros l. induction l as [|a l IH]; intros done mds Hlen Hl; [apply loop_nil|].
  pose proof (total_nonneg item_guest l item_guest_nonneg) as G0.
  pose proof (Hl 0%nat a eq_refl) as Ha. rewrite Nat.add_0_r in Ha.
  change (total item_guest (a :: l)) with (item_guest a + total item_guest l). cbn [map concat].
  destruct a as [idx b|p]; cbn [item_guest write_accounts_aligned]; unfold block_aligned at 1; rewrite <- !app_assoc.
  - destruct Ha as (Hb & Hkey & Howner). pose proof (data_guest_nonneg b) as Hd.
    apply runs_context. intros c Hv. read_account Hv.
    apply (runs_field 1); [done|lia|]. intros a1.
    apply (runs_field 1); [done|lia|]. intros a2.
    apply (runs_field 1); [done|lia|]. intros a3.
    apply (runs_field 1); [done|lia|]. intros a4.
    apply (runs_field_all 4); [done|lia|]. intros a5.
    apply (runs_field_all 32); [done|lia|]. intros key_addr.
    apply (runs_field_all 32); [done|lia|]. intros owner_addr.
    apply (runs_field 8); [apply u64_bytes_len|lia|]. intros lamports_addr.
    apply (runs_field 8); [apply u64_bytes_len|lia|]. intros a6.
    apply runs_data; [done|lia|]. intros data_addr.
    apply (runs_field 8); [apply u64_bytes_len|lia|]. intros a7.
    eapply runs_weaken; [by apply loop_rest|lia|].
    intros mds' s Hq _ Hdat _ Hlam Hown Hk _ _ _ _ _ Hm. apply Hq; [done|]. by split_and!.
  - destruct (lookup_lt_is_Some_2 mds (Z.to_nat p)) as [md Hmd]; [cbn in Ha; lia|]. rewrite Hmd.
    apply (runs_field 1); [done|lia|]. intros a1.
    apply (runs_field_all 7); [done|lia|]. intros a2.
    eapply runs_weaken; [by apply loop_rest|lia|]. intros mds' s Hq _ _ Hm. by apply Hq.
Qed.

Lemma write_accounts_unaligned_ok :
  loop_ok (write_accounts_unaligned A payload_ptr is_loader_v1 stricter direct) block_unaligned.
Proof.
  intros l. induction l as [|a l IH]; intros done mds Hlen Hl; [apply loop_nil|].
  pose proof (total_nonneg item_guest l item_guest_nonneg) as G0.
  pose proof (Hl 0%nat a eq_refl) as Ha. rewrite Nat.add_0_r in Ha.
  change (total item_guest (a :: l)) with (item_guest a + total item_guest l). cbn [map concat].
  destruct a as [idx b|p]; cbn [item_guest write_accounts_unaligned]; unfold block_unaligned at 1; rewrite <- ?app_assoc.
  - destruct Ha as (Hb & Hkey & Howner). pose proof (data_guest_nonneg b) as Hd.
    apply runs_context. intros c Hv. read_account Hv.
    apply (runs_field 1); [done|lia|]. intros a1.
    apply (runs_field 1); [done|lia|]. intros a2.
    apply (runs_field 1); [done|lia|]. intros a3.
    apply (runs_field_all 32); [done|lia|]. intros key_addr.
    apply (runs_field 8); [apply u64_bytes_len|lia|]. intros lamports_addr.
    apply (runs_field 8); [apply u64_bytes_len|lia|]. intros a6.
    apply runs_data; [done|lia|]. intros data_addr.
    apply (runs_field_all 32); [done|lia|]. intros owner_addr.
    apply (runs_field 1); [done|lia|]. intros a4.
    apply (runs_field 8); [apply u64_bytes_len|lia|]. intros a7.
    eapply runs_weaken; [by apply loop_rest|lia|].
    intros mds' s Hq _ _ Hown Hdat _ Hlam Hk _ _ _ Hm. apply Hq; [done|]. by split_and!.
  - destruct (lookup_lt_is_Some_2 mds (Z.to_nat p)) as [md Hmd]; [cbn in Ha; lia|]. rewrite Hmd.
    apply (runs_field 1); [done|lia|]. intros a1.
    eapply runs_weaken; [by apply loop_rest|lia|]. intros mds' s Hq _ Hm. by apply Hq.
Qed.

(** ** The whole buffer *)

(** The host address of a guest address in a list of regions. *)
Definition host_of (regions : list MemoryRegion) (a h : Z) : Prop :=
  exists r, r ∈ regions /\ vm_addr r <= a < vm_addr r + region_len r /\ h = host_addr r + (a - vm_addr r).

(** Bytes of the buffer, found at a guest address. *)
Definition guest_bytes (mem : AlignedMemory) (regions : list MemoryRegion) (a : Z) (bs : list Z) : Prop :=
  forall k b, bs !! k = Some b ->
    exists off : nat, host_of regions (a + Z.of_nat k) (mem_ptr mem + Z.of_nat off) /\
      mem_bytes mem !! off = Some b.

(** Regions that start in the input area and follow each other without overlap. *)
Definition regions_ordered (regions : list MemoryRegion) : Prop :=
  Forall (fun r => MM_INPUT_START <= vm_addr r /\ 0 <= region_len r /\
    vm_addr r + region_len r <= MM_INPUT_START + guest_limit /\ vm_gap_shift r = 63) regions /\
  forall i r r', regions !! i = Some r -> regions !! S i = Some r' -> vm_addr r + region_len r <= vm_addr r'.

(** The last region closes the one under construction. *)
Definition last_region s : MemoryRegion :=
  new_writable (mem_ptr (buffer s) + region_start s) (blen s - region_start s) (vaddr s).

Lemma finish_ok used s :
  ser_ok used s ->
  let regions := s_regions s ++ [last_region s] in
  (exists s', finish s = Some (s', Ok (buffer s, regions)) /\ s_context s' = s_context s) /\
  regions_ordered regions /\ (forall a h, reaches s a h -> host_of regions a h) /\
  Forall (homed (blen s)) regions.
Proof.
  intros [S1 S2 S3 S4 S5 S6 S7 S8 S9 S10 S11] regions. split; [|split; [split|split]].
  - unfold finish, ser_bind, push_region, ser_get. rewrite (proj2 (Z.ltb_ge _ _)) by lia. by eexists.
  - apply Forall_app. split; [eapply Forall_impl; [exact S7|]; intros r; cbn beta; lia|].
    apply Forall_singleton. unfold last_region, new_writable, region_new. cbn. lia.
  - intros i r r' H1 H2. destruct (decide (S i < length (s_regions s))%nat) as [Hi|Hi].
    + subst regions. rewrite lookup_app_l in H1, H2 by lia. by eapply S8.
    + apply lookup_lt_Some in H2 as Hlt. subst regions. rewrite length_app in Hlt. cbn in Hlt.
      rewrite lookup_app_l in H1 by lia. rewrite lookup_app_r in H2 by lia.
      apply list_lookup_singleton_Some in H2 as [_ <-]. apply (Forall_lookup_1 _ _ _ _ S7) in H1.
      unfold last_region, new_writable, region_new. cbn. lia.
  - intros a h [(r & Hr & Ha & ->)|[Ha ->]].
    + exists r. split; [by apply elem_of_app; left|done].
    + exists (last_region s). split; [apply elem_of_app; right; by apply list_elem_of_singleton|].
      unfold last_region, new_writable, region_new. cbn. split; [lia|]. rewrite S1. lia.
  - apply Forall_app. split; [done|]. apply Forall_singleton. left. cbn. lia.
Qed.

Lemma new_ok size : ser_ok 0 (serializer_new ptr size MM_INPUT_START c0).
Proof.
  split; try done. apply same_views_refl.
Qed.

(** The bytes that the description of an account finds in the buffer, or in the payload. *)
Definition fields_found (mem : AlignedMemory) (regions : list MemoryRegion)
    (b : BorrowedInstructionAccount) (md : SerializedAccountMetadata) : Prop :=
  original_data_len md = len (get_data b c0) /\
  (if mapped_directly stricter direct
   then forall k, 0 <= k < len (get_data b c0) ->
     host_of regions (vm_data_addr md + k) (payload_ptr (get_index_in_transaction b) + k)
   else guest_bytes mem regions (vm_data_addr md) (get_data b c0)) /\
  guest_bytes mem regions (vm_key_addr md) (account_key_bytes b c0) /\
  guest_bytes mem regions (vm_lamports_addr md) (le_split 8 (get_lamports b c0)) /\
  guest_bytes mem regions (vm_owner_addr md) (get_owner b c0).

Lemma fields_found_at used s b md :
  ser_ok used s -> fields_at b md s -> fields_found (buffer s) (s_regions s ++ [last_region s]) b md.
Proof.
  intros Hs (F1 & F2 & F3 & F4 & F5). destruct (finish_ok used s Hs) as (_ & _ & Hr & _).
  assert (forall a bs, located s a bs -> guest_bytes (buffer s) (s_regions s ++ [last_region s]) a bs) as Hg.
  { intros a bs Hl k x Hx. destruct (Hl k x Hx) as (off & Ho & Hb). exists off.
    rewrite (ser_ptr _ _ Hs). auto. }
  unfold fields_found. unfold data_at in F2. split; [done|]. split; [|by auto].
  destruct (mapped_directly _ _); [|by apply Hg]. intros k Hk. by apply Hr, F2.
Qed.

(** What a serialisation promises of its result. *)
Record serialized_ok (l : list SerializeAccount) (data bs : list Z) (x : Serialized) : Prop := {
  ser_bytes : mem_bytes x.1.1.1 = bs;
  ser_capacity : mem_capacity x.1.1.1 = len bs;
  ser_address : mem_ptr x.1.1.1 = ptr;
  ser_regions : regions_ordered x.1.1.2;
  ser_data : guest_bytes x.1.1.1 x.1.1.2 x.2 data;
  ser_metadata_length : length x.1.2 = length l;
  ser_metadata i a md : l !! i = Some a -> x.1.2 !! i = Some md ->
    match a with
    | SAccount _ b => fields_found x.1.1.1 x.1.1.2 b md
    | SDuplicate p => x.1.2 !! Z.to_nat p = Some md
    end;
  ser_home : Forall (homed (len bs)) x.1.1.2
}.

(** The bytes of all parameters. *)
Definition parameters_bytes (block : SerializeAccount -> list Z) (l : list SerializeAccount)
    (data program_id : list Z) : list Z :=
  le_split 8 (len l) ++ concat (map block l) ++ le_split 8 (len data) ++ data ++ program_id.

(** Everything but the last region. *)
Definition serialize_fields (loop : list SerializeAccount -> list SerializedAccountMetadata ->
    SerM (list SerializedAccountMetadata)) (l : list SerializeAccount) (data program_id : list Z)
    : SerM (list SerializedAccountMetadata * Z) :=
  ser_bind (s_write (le_split 8 (len l))) (fun _ =>
  ser_bind (loop l []) (fun mds =>
  ser_bind (s_write (le_split 8 (len data))) (fun _ =>
  ser_bind (s_write_all data) (fun off =>
  ser_bind (s_write_all program_id) (fun _ => ser_ret (mds, off)))))).

Lemma ser_bind_assoc {X Y W} (m : SerM X) (k : X -> SerM Y) (h : Y -> SerM W) s :
  ser_bind (ser_bind m k) h s = ser_bind m (fun x => ser_bind (k x) h) s.
Proof. unfold ser_bind. by destruct (m s) as [[s1 [x|e]]|]. Qed.

Lemma ser_bind_ext {X Y} (m : SerM X) (k k' : X -> SerM Y) s :
  (forall x s, k x s = k' x s) -> ser_bind m k s = ser_bind m k' s.
Proof. intros H. unfold ser_bind. destruct (m s) as [[s1 [x|e]]|]; [apply H|done..]. Qed.

Lemma serialize_with_fields loop l data program_id s :
  serialize_with loop l data program_id s =
  ser_bind (serialize_fields loop l data program_id) (fun '(mds, off) =>
    ser_bind finish (fun '(mem, regions) => ser_ret (mem, regions, mds, off))) s.
Proof.
  unfold serialize_with, serialize_fields. by do 5 (rewrite ser_bind_assoc; apply ser_bind_ext; intros ??).
Qed.

Lemma runs_fields loop block l data program_id :
  loop_ok loop block -> (forall i a, l !! i = Some a -> item_ok i a) -> len program_id = 32 ->
  runs (parameters_bytes block l data program_id) (8 + total item_guest l + (8 + len data + 32))
    (serialize_fields loop l data program_id)
    (fun x s => metadata_ok l x.1 s /\ located s x.2 data).
Proof.
  intros Hloop Hl Hp. pose proof (len_nonneg data). pose proof (total_nonneg item_guest l item_guest_nonneg).
  unfold serialize_fields, parameters_bytes. apply (runs_field 8); [apply u64_bytes_len|lia|]. intros a1.
  eapply (runs_seq _ (total item_guest l)); [by apply (Hloop l [] [])| |lia|].
  { intros mds s s' He. intros Hm _. specialize (Hm (metadata_ok_nil s)). destruct Hm as [Hm1 Hm2].
    split; [done|]. intros i a md E1 E2. specialize (Hm2 i a md E1 E2). destruct a; [|done].
    destruct Hm2 as (F1 & F2 & F3 & F4 & F5).
    split; [done|]. split; [by eapply stable_data_at|]. by split_and!; eapply located_extends. }
  intros mds. apply (runs_field 8); [apply u64_bytes_len|lia|]. intros a2.
  apply (runs_field_all (len data)); [done|lia|]. intros off.
  rewrite <- (app_nil_r program_id) at 1. apply (runs_field_all 32); [done|lia|]. intros a3.
  eapply runs_weaken; [apply (runs_ret (mds, off) (fun x _ => x = (mds, off))); done|lia|].
  intros x s -> _ Hd _ Hm _. split; [apply Hm, metadata_ok_nil|done].
Qed.

Lemma serialize_with_ok loop block l data program_id :
  loop_ok loop block -> (forall i a, l !! i = Some a -> item_ok i a) ->
  len program_id = 32 -> 8 + total item_guest l + (8 + len data + 32) <= guest_limit ->
  let bs := parameters_bytes block l data program_id in
  exists s' x, serialize_with loop l data program_id (serializer_new ptr (len bs) MM_INPUT_START c0) =
      Some (s', Ok x) /\
    same_views c0 (s_context s') /\ serialized_ok l data bs x.
Proof.
  intros Hloop Hl Hp Hg bs.
  destruct (runs_fields loop block l data program_id Hloop Hl Hp 0 _ (new_ok (len bs)))
    as (s1 & [mds off] & E & Hs & Hx & Hbytes & Hm & Hd); [done|done|].
  destruct (finish_ok _ _ Hs) as ((s2 & E2 & Hc) & Hord & Hr & Hh).
  rewrite serialize_with_fields. unfold ser_bind at 1. rewrite E. unfold ser_bind. rewrite E2.
  eexists _, _. split; [reflexivity|]. split; [rewrite Hc; apply (ser_views _ _ Hs)|].
  split; cbn [fst snd].
  - exact Hbytes.
  - by rewrite (ext_cap _ _ Hx).
  - apply (ser_ptr _ _ Hs).
  - done.
  - intros k x Hk. destruct (Hd k x Hk) as (o & Ho & Hb). exists o. rewrite (ser_ptr _ _ Hs). auto.
  - apply Hm.
  - intros i a md E1 E3. pose proof (proj2 Hm i a md E1 E3) as H. destruct a; [|done].
    by eapply fields_found_at.
  - unfold mem_len in Hh. by rewrite Hbytes in Hh.
Qed.

Lemma parameters_size_ok size block l data program_id :
  (forall i a, l !! i = Some a -> size a = len (block a)) -> len program_id = 32 ->
  8 + foldr Z.add 0 (map size l) + (8 + len data + 32) = len (parameters_bytes block l data program_id).
Proof.
  intros Hl Hp. unfold parameters_bytes. rewrite !len_app, !u64_bytes_len, Hp.
  fold (total size l). rewrite (total_blocks size block l Hl). lia.
Qed.

End serializer.
