(* ===== verification/SerializeParams.v ===== *)
(** Correctness of [serialize_parameters] and [deserialize_parameters]
    (agave/program-runtime/src/serialization.rs): in every mode the parameters of an instruction
    have the documented layout, the metadata leads to the fields of the accounts, and
    deserialising an unmodified buffer changes no account. *)

From Stdlib Require Import ZArith Lia Bool.
From S2P Require Import Prelude.
From S2P Require Import Ebpf.
From S2P Require Import MemoryRegion.
From S2P Require Import TxAccounts.
From S2P Require Import TxContext.
From S2P Require Import TxSafe.
From S2P Require Import InvokeContext.
From S2P Require Import InvokeSafe.
From S2P Require Import Serialize.
From S2P Require Import SerializeSafe.

#[local] Open Scope Z_scope.

(** ** Borrowing the accounts *)

#[local] Instance instruction_account_inhabited : Inhabited InstructionAccount :=
  populate (InstructionAccount_new 0 false false).

Section parameters.
Context (ic : InstructionContext).
Abbreviation ias := (ic_instruction_accounts ic).
Abbreviation program := (ic_program_account_index_in_tx ic).

(** An instruction whose accounts exist and whose deduplication map is right. *)
Record instruction_ok (c : TransactionContext) : Prop := {
  ins_dedup : dedup_ok (account_indexes ias) (ic_dedup_map ic);
  ins_number : len ias <= MAX_ACCOUNTS_PER_INSTRUCTION;
  ins_accounts : Forall (fun ia => 0 <= index_in_transaction ia < accounts_len (accounts c)) ias;
  ins_program : 0 <= program < accounts_len (accounts c) /\ program <> u16_MAX;
  ins_data : len (ic_instruction_data ic) <= 2 ^ 32
}.

(** The transaction index of an instruction account. *)
Definition tx_index (k : nat) : nat := Z.to_nat (index_in_transaction (ias !!! k)).

(** What is serialised for an instruction account. *)
Definition item (k : nat) : SerializeAccount :=
  match is_instruction_account_duplicate ic (Z.of_nat k) with
  | Ok (Some p) => SDuplicate p
  | _ => SAccount (Z.of_nat k) (mkBorrowed (ias !!! k) program)
  end.

Definition is_first (k : nat) : bool :=
  match is_instruction_account_duplicate ic (Z.of_nat k) with Ok (Some _) => false | _ => true end.

(** The counters after the first occurrences are borrowed. *)
Definition lend (ks : list nat) (counters : list Z) : list Z :=
  fold_left (fun cs k => if is_first k then <[tx_index k := -1]> cs else cs) ks counters.

Definition with_counters (cs : list Z) (c : TransactionContext) : TransactionContext :=
  set_accounts (set_borrow_counters cs (accounts c)) c.

Lemma with_counters_twice cs cs' c : with_counters cs (with_counters cs' c) = with_counters cs c.
Proof. done. Qed.

Lemma lookup_ias k : (k < length ias)%nat -> ias !! k = Some (ias !!! k).
Proof. intros H. by apply list_lookup_lookup_total_lt. Qed.

Lemma index_lookup k : (k < length ias)%nat ->
  account_indexes ias !! k = Some (index_in_transaction (ias !!! k)).
Proof.
  intros H. unfold account_indexes. change (map ?f ias) with (f <$> ias).
  by rewrite list_lookup_fmap, lookup_ias.
Qed.

Lemma duplicate_ok c k :
  instruction_ok c -> accounts_len (accounts c) <= MAX_ACCOUNTS_PER_TRANSACTION -> (k < length ias)%nat ->
  exists first, account_indexes ias !! first = Some (index_in_transaction (ias !!! k)) /\
    index_in_transaction (ias !!! k) ∉ take first (account_indexes ias) /\ (first <= k)%nat /\
    is_instruction_account_duplicate ic (Z.of_nat k) = Ok (if (first =? k)%nat then None else Some (Z.of_nat first)).
Proof.
  intros Hi Hn Hk. apply is_duplicate_ok; [apply (ins_dedup _ Hi)| |by apply index_lookup|].
  - pose proof (ins_number _ Hi). unfold u16_MAX, MAX_ACCOUNTS_PER_INSTRUCTION in *. lia.
  - pose proof (Forall_lookup_1 _ _ _ _ (ins_accounts _ Hi) (lookup_ias k Hk)) as H. cbn beta in H. lia.
Qed.

(** Different first occurrences are different accounts. *)
Lemma first_distinct c k k' :
  instruction_ok c -> accounts_len (accounts c) <= MAX_ACCOUNTS_PER_TRANSACTION ->
  (k < length ias)%nat -> (k' < length ias)%nat -> is_first k = true -> is_first k' = true ->
  tx_index k = tx_index k' -> k = k'.
Proof.
  intros Hi Hn Hk Hk' F F' E.
  pose proof (Forall_lookup_1 _ _ _ _ (ins_accounts _ Hi) (lookup_ias k Hk)) as R.
  pose proof (Forall_lookup_1 _ _ _ _ (ins_accounts _ Hi) (lookup_ias k' Hk')) as R'. cbn beta in R, R'.
  assert (index_in_transaction (ias !!! k) = index_in_transaction (ias !!! k')) as Ei by (unfold tx_index in E; lia).
  destruct (duplicate_ok c k Hi Hn Hk) as (f & Hf & Hno & Hle & Ed).
  destruct (duplicate_ok c k' Hi Hn Hk') as (f' & Hf' & Hno' & Hle' & Ed').
  unfold is_first in F, F'. rewrite Ed in F. rewrite Ed' in F'.
  destruct (f =? k)%nat eqn:Ef; [|done]. destruct (f' =? k')%nat eqn:Ef'; [|done].
  apply Nat.eqb_eq in Ef, Ef'. subst f f'.
  rewrite Ei in Hno, Hf.
  destruct (Nat.lt_trichotomy k k') as [Hlt|[->|Hlt]]; [exfalso|done|exfalso].
  - apply Hno'. apply (list_elem_of_lookup_2 _ k). by rewrite lookup_take_lt.
  - apply Hno. apply (list_elem_of_lookup_2 _ k'). by rewrite lookup_take_lt.
Qed.

Lemma lend_insert ks cs j x :
  (forall k, k ∈ ks -> is_first k = true -> tx_index k <> j) ->
  lend ks (<[j := x]> cs) = <[j := x]> (lend ks cs).
Proof.
  revert cs. induction ks as [|k ks IH]; intros cs H; [done|]. cbn [lend fold_left].
  fold (lend ks (if is_first k then <[tx_index k := -1]> (<[j:=x]> cs) else <[j:=x]> cs)).
  fold (lend ks (if is_first k then <[tx_index k := -1]> cs else cs)).
  rewrite <- IH by (intros k' Hk'; apply H; by right). destruct (is_first k) eqn:F; [|done].
  rewrite list_insert_insert_ne; [done|]. apply H; [by left|done].
Qed.

Lemma borrow_ok k c :
  (k < length ias)%nat -> borrow_counters (accounts c) !! tx_index k = Some 0 ->
  try_borrow_instruction_account ic (Z.of_nat k) c =
    (with_counters (<[tx_index k := -1]> (borrow_counters (accounts c))) c,
     Ok (mkBorrowed (ias !!! k) program)).
Proof.
  intros Hk Hc. unfold try_borrow_instruction_account, tx_bind, tx_lift, get_instruction_account.
  rewrite Nat2Z.id, lookup_ias by done. unfold on_accounts, accounts_try_borrow_mut.
  fold (tx_index k). by rewrite Hc.
Qed.

Lemma collect_ok c ks :
  instruction_ok c -> accounts_len (accounts c) <= MAX_ACCOUNTS_PER_TRANSACTION ->
  NoDup ks -> (forall k, k ∈ ks -> (k < length ias)%nat) ->
  forall cs, (forall k, k ∈ ks -> is_first k = true -> cs !! tx_index k = Some 0) ->
  collect_serialize_accounts ic (map Z.of_nat ks) (with_counters cs c) =
    Some (with_counters (lend ks cs) c, map item ks).
Proof.
  intros Hi Hn. induction ks as [|k ks IH]; intros Hnd Hks cs Hcs; [done|].
  apply NoDup_cons in Hnd as [Hnot Hnd]. cbn [map collect_serialize_accounts].
  pose proof (Hks k (list_elem_of_here _ _)) as Hk.
  assert (forall k', k' ∈ ks -> (k' < length ias)%nat) as Hks' by (intros k' H; apply Hks; by right).
  destruct (duplicate_ok c k Hi Hn Hk) as (f & Hf & Hno & Hle & Ed).
  assert (is_first k = (f =? k)%nat) as Ef by (unfold is_first; rewrite Ed; by destruct (f =? k)%nat).
  cbn [lend fold_left]. fold (lend ks (if is_first k then <[tx_index k := -1]> cs else cs)).
  unfold item at 1. rewrite Ed, Ef. destruct (f =? k)%nat eqn:Efk.
  - rewrite borrow_ok by (try done; by apply Hcs; [by left|]). rewrite with_counters_twice.
    rewrite IH; [done|done|done|]. intros k' Hk' F'. rewrite list_lookup_insert_ne; [apply Hcs; [by right|done]|].
    intros E. apply Hnot. rewrite (first_distinct c k k' Hi Hn Hk); [done|by apply Hks'|by rewrite Ef|done|done].
  - rewrite IH; [done|done|done|]. intros k' Hk'. apply Hcs. by right.
Qed.

(** Giving the accounts back. *)
Definition payloads_ok (a : TransactionAccounts) : Prop :=
  Forall2 (fun s p => vs_len (account_payload s) = len (payload p)) (shared_account_fields a) (private_account_fields a).

Lemma put_view_payload_len a i :
  payloads_ok a -> put_view i (with_payload_len (len (view_data (get_view a i))) (get_view a i)) a = a.
Proof.
  intros Hp. unfold put_view, get_view, view_data. set (n := Z.to_nat i).
  destruct a as [sh pr bc tf rd ld]. unfold payloads_ok in Hp. cbn in *.
  destruct (sh !! n) as [f|] eqn:Ef.
  - destruct (Forall2_lookup_l _ _ _ _ _ Hp Ef) as (p & Epr & Hlen).
    rewrite (list_lookup_total_correct _ _ _ Ef), (list_lookup_total_correct _ _ _ Epr).
    rewrite (list_insert_id pr) by done. f_equal. apply list_insert_id. rewrite Ef, <- Hlen.
    by destruct f as [? ? ? []].
  - rewrite !list_insert_ge; [done| |]; apply lookup_ge_None; [|done].
    apply lookup_ge_None in Ef. apply lookup_ge_None. by rewrite <- (Forall2_length _ _ _ Hp).
Qed.

Lemma drop_ok c k cs :
  payloads_ok (accounts c) -> cs !! tx_index k = Some (-1) ->
  drop_borrowed (mkBorrowed (ias !!! k) program) (with_counters cs c) = with_counters (<[tx_index k := 0]> cs) c.
Proof.
  intros Hp Hc. unfold drop_borrowed, drop_ref_mut. cbn [accounts with_counters set_accounts].
  rewrite put_view_payload_len by done.
  transitivity (with_counters (alter counter_release_borrow_mut (tx_index k) cs) c); [done|]. f_equal.
  apply list_eq. intros j. destruct (decide (j = tx_index k)) as [->|].
  - rewrite list_lookup_alter_eq, Hc, list_lookup_insert_eq; [done|]. by eapply lookup_lt_Some.
  - by rewrite list_lookup_alter_ne, list_lookup_insert_ne.
Qed.

Lemma lend_lookup_other ks cs j :
  (forall k, k ∈ ks -> is_first k = true -> tx_index k <> j) -> lend ks cs !! j = cs !! j.
Proof.
  revert cs. induction ks as [|k ks IH]; intros cs H; [done|]. cbn [lend fold_left].
  fold (lend ks (if is_first k then <[tx_index k := -1]> cs else cs)).
  rewrite IH by (intros k' Hk'; apply H; by right). destruct (is_first k) eqn:F; [|done].
  rewrite list_lookup_insert_ne; [done|]. apply H; [by left|done].
Qed.

Lemma drop_all_ok c ks :
  instruction_ok c -> accounts_len (accounts c) <= MAX_ACCOUNTS_PER_TRANSACTION -> payloads_ok (accounts c) ->
  NoDup ks -> (forall k, k ∈ ks -> (k < length ias)%nat) ->
  forall cs, (forall k, k ∈ ks -> is_first k = true -> cs !! tx_index k = Some 0) ->
  drop_serialize_accounts (map item ks) (with_counters (lend ks cs) c) = with_counters cs c.
Proof.
  intros Hi Hn Hp. induction ks as [|k ks IH]; intros Hnd Hks cs Hcs; [done|].
  apply NoDup_cons in Hnd as [Hnot Hnd]. pose proof (Hks k (list_elem_of_here _ _)) as Hk.
  assert (forall k', k' ∈ ks -> (k' < length ias)%nat) as Hks' by (intros k' H; apply Hks; by right).
  unfold drop_serialize_accounts. cbn [map fold_left]. fold (drop_serialize_accounts (map item ks)).
  cbn [lend fold_left]. fold (lend ks (if is_first k then <[tx_index k := -1]> cs else cs)).
  destruct (is_first k) eqn:F.
  - assert (item k = SAccount (Z.of_nat k) (mkBorrowed (ias !!! k) program)) as ->.
    { unfold item, is_first in *. by destruct (is_instruction_account_duplicate _ _) as [[|]|]. }
    assert (forall k', k' ∈ ks -> is_first k' = true -> tx_index k' <> tx_index k) as Hne.
    { intros k' Hk' F' E. apply Hnot. rewrite (first_distinct c k k' Hi Hn Hk); auto. }
    pose proof (Hcs k (list_elem_of_here _ _) F) as H0. apply lookup_lt_Some in H0 as Hlt.
    rewrite lend_insert by done. rewrite drop_ok; [|done|].
    + rewrite list_insert_insert_eq, <- lend_insert, list_insert_id by done.
      apply IH; [done|done|]. intros k' Hk'. apply Hcs. by right.
    + rewrite list_lookup_insert_eq; [done|].
      apply lookup_lt_is_Some. rewrite lend_lookup_other by done. by rewrite H0.
  - assert (exists p, item k = SDuplicate p) as [p ->].
    { unfold item, is_first in *. destruct (is_instruction_account_duplicate _ _) as [[p|]|]; [by exists p|done|done]. }
    apply IH; [done|done|]. intros k' Hk'. apply Hcs. by right.
Qed.

(** ** The parameters *)

(** Keys and owners have 32 bytes. *)
Definition keys_ok (c : TransactionContext) : Prop :=
  Forall (fun s => len (account_key_ s) = 32 /\ len (account_owner s) = 32) (shared_account_fields (accounts c)).

Definition unborrowed (c : TransactionContext) : Prop := Forall (eq 0) (borrow_counters (accounts c)).

(** The owner and the key of the program. *)
Definition program_fields (c : TransactionContext) : AccountSharedFields :=
  shared_account_fields (accounts c) !!! Z.to_nat program.

Lemma shared_lookup c (i : Z) : 0 <= i < accounts_len (accounts c) ->
  shared_account_fields (accounts c) !! Z.to_nat i = Some (shared_account_fields (accounts c) !!! Z.to_nat i).
Proof. intros H. apply list_lookup_lookup_total_lt. unfold accounts_len, len in H. lia. Qed.

Section serialised.
Context (A : Z) (HA : 0 < A <= 16) (payload_ptr : Z -> Z) (stricter direct : bool) (ptr : Z).
Context (c : TransactionContext) (lamports0 data0 : Z).
Hypothesis Haccounts : accounts_ok lamports0 data0 (accounts c).
Hypothesis Hkeys : keys_ok c.
Hypothesis Hfree : unborrowed c.
Hypothesis Hic : instruction_ok c.

Lemma accounts_number : accounts_len (accounts c) <= MAX_ACCOUNTS_PER_TRANSACTION.
Proof. apply (ok_number _ _ _ Haccounts). Qed.

Lemma program_key_ok : get_program_key c ic = Ok (account_key_ (program_fields c)).
Proof.
  destruct (ins_program _ Hic) as [H1 H2].
  unfold get_program_key, get_index_of_program_account_in_transaction. rewrite (proj2 (Z.eqb_neq _ _)) by done.
  unfold get_key_of_account_at_index, account_key. by rewrite shared_lookup.
Qed.

Lemma counter_zero (i : Z) : 0 <= i < accounts_len (accounts c) ->
  borrow_counters (accounts c) !! Z.to_nat i = Some 0.
Proof.
  intros Hi. destruct (lookup_lt_is_Some_2 (borrow_counters (accounts c)) (Z.to_nat i)) as [x Hx].
  { rewrite (ok_counters _ _ _ Haccounts). unfold accounts_len, len in Hi. lia. }
  rewrite Hx. f_equal. symmetry. apply (Forall_lookup_1 _ _ _ _ Hfree Hx).
Qed.

Lemma program_owner_ok : get_program_owner c ic = Ok (account_owner (program_fields c)).
Proof.
  destruct (ins_program _ Hic) as [H1 H2].
  unfold get_program_owner, get_index_of_program_account_in_transaction. rewrite (proj2 (Z.eqb_neq _ _)) by done.
  unfold accounts_try_borrow. by rewrite counter_zero.
Qed.

Definition positions : list nat := seq 0 (length ias).

Lemma position_lt k : k ∈ positions -> (k < length ias)%nat.
Proof. unfold positions. rewrite elem_of_seq. lia. Qed.

Lemma position_index k : k ∈ positions -> 0 <= index_in_transaction (ias !!! k) < accounts_len (accounts c).
Proof. intros Hk. apply (Forall_lookup_1 _ _ _ _ (ins_accounts _ Hic) (lookup_ias k (position_lt k Hk))). Qed.

Lemma position_free k : k ∈ positions -> is_first k = true -> borrow_counters (accounts c) !! tx_index k = Some 0.
Proof. intros Hk _. by apply counter_zero, position_index. Qed.

(** The context while the accounts are borrowed. *)
Definition lent : TransactionContext := with_counters (lend positions (borrow_counters (accounts c))) c.

Lemma with_counters_same : with_counters (borrow_counters (accounts c)) c = c.
Proof. by destruct c as [[]]. Qed.

Lemma instruction_positions : seqZ 0 (get_number_of_instruction_accounts ic) = map Z.of_nat positions.
Proof.
  pose proof (ins_number _ Hic) as Hn. unfold get_number_of_instruction_accounts, positions, seqZ.
  assert (as_u16 (len ias) = len ias) as ->.
  { unfold cast_u, MAX_ACCOUNTS_PER_INSTRUCTION in *. pose proof (len_nonneg ias). apply Z.mod_small. lia. }
  unfold len. rewrite Nat2Z.id. apply map_ext. intros k. apply Z.add_0_r.
Qed.

Lemma collect_positions :
  collect_serialize_accounts ic (seqZ 0 (get_number_of_instruction_accounts ic)) c = Some (lent, map item positions).
Proof.
  rewrite <- with_counters_same at 1. rewrite instruction_positions.
  apply collect_ok; [done|apply accounts_number|apply NoDup_seq|apply position_lt|apply position_free].
Qed.

(** The borrowed accounts satisfy what the serializer needs. *)
Lemma item_item_ok k : (k < length ias)%nat -> item_ok lent k (item k).
Proof.
  intros Hk. destruct (duplicate_ok c k Hic accounts_number Hk) as (f & Hf & Hno & Hle & Ed).
  unfold item. rewrite Ed. destruct (Nat.eqb_spec f k) as [Efk|Hne]; [|cbn; lia].
  assert (k ∈ positions) as Hp by (unfold positions; rewrite elem_of_seq; lia).
  pose proof (position_index k Hp) as Hidx. pose proof (shared_lookup c _ Hidx) as Hs.
  set (i := index_in_transaction (ias !!! k)) in *. destruct (Forall_lookup_1 _ _ _ _ Hkeys Hs) as [Hk32 Ho32].
  assert (Z.to_nat i < length (shared_account_fields (accounts c)))%nat as Hlt by by eapply lookup_lt_Some.
  split; [split; [|split]|split].
  - apply Hidx.
  - cbn. fold i. by rewrite (ok_touched _ _ _ Haccounts).
  - unfold get_data, view_data, account_view, get_view, get_index_in_transaction. cbn. fold i.
    destruct (lookup_lt_is_Some_2 (private_account_fields (accounts c)) (Z.to_nat i)) as [p Hpr];
      [by rewrite (ok_private _ _ _ Haccounts)|].
    rewrite (list_lookup_total_correct _ _ _ Hpr). apply (Forall_lookup_1 _ _ _ _ (ok_data _ _ _ Haccounts) Hpr).
  - unfold account_key_bytes, account_key, get_index_in_transaction. cbn. fold i. by rewrite Hs.
  - done.
Qed.

Lemma items_ok k a : map item positions !! k = Some a -> item_ok lent k a.
Proof.
  intros Hk. change (map item positions) with (item <$> positions) in Hk. rewrite list_lookup_fmap in Hk.
  destruct (positions !! k) as [j|] eqn:Ej; [|done]. injection Hk as <-.
  unfold positions in Ej. apply lookup_seq in Ej as [-> Hlt]. by apply item_item_ok.
Qed.

Lemma total_guest_bound l :
  (forall i a, l !! i = Some a -> item_ok lent i a) -> total (item_guest A lent) l <= len l * 2 ^ 25.
Proof.
  intros Hl. assert (forall a, a ∈ l -> item_guest A lent a <= 2 ^ 25) as Ha.
  { intros a Hin. apply list_elem_of_lookup in Hin as [i Hi]. specialize (Hl i a Hi).
    destruct a as [idx b|p]; cbn; [|lia]. destruct Hl as ((_ & _ & Hd) & _). unfold data_guest.
    unfold MAX_PERMITTED_DATA_INCREASE, MAX_ACCOUNT_DATA_GROWTH_PER_INSTRUCTION, MAX_ACCOUNT_DATA_LEN in *. lia. }
  clear Hl. induction l as [|a l IH]; [done|].
  change (total (item_guest A lent) (a :: l)) with (item_guest A lent a + total (item_guest A lent) l).
  pose proof (Ha a (list_elem_of_here _ _)). specialize (IH (fun x Hx => Ha x (list_elem_of_further _ _ _ Hx))).
  unfold len in *. cbn [length]. lia.
Qed.

(** Dropping after the accounts were touched. *)
Lemma drop_lent c' : same_views lent c' -> same_views c (drop_serialize_accounts (map item positions) c').
Proof.
  intros (flags & Hl & ->). exists flags. split; [done|].
  pose (ct := set_accounts (set_touched_flags flags (accounts c)) c).
  change (set_accounts (set_touched_flags flags (accounts lent)) lent) with
    (with_counters (lend positions (borrow_counters (accounts c))) ct).
  rewrite drop_all_ok.
  - subst ct. by destruct c as [[]].
  - destruct Hic. by split.
  - apply accounts_number.
  - apply (ok_payload _ _ _ Haccounts).
  - apply NoDup_seq.
  - apply position_lt.
  - apply position_free.
Qed.

(** The layout of the parameters for the loader of the program. *)
Definition layout (deprecated : bool) : list Z :=
  parameters_bytes
    (if deprecated then block_unaligned A true stricter direct c else block_aligned A false stricter direct c)
    (map item positions) (ic_instruction_data ic) (account_key_ (program_fields c)).

Lemma number_of_items : len (map item positions) = len ias.
Proof. unfold len, positions. by rewrite length_map, length_seq. Qed.

Lemma guest_fits :
  8 + total (item_guest A lent) (map item positions) + (8 + len (ic_instruction_data ic) + 32) <= guest_limit.
Proof.
  pose proof (total_guest_bound _ items_ok) as H. rewrite number_of_items in H.
  pose proof (ins_number _ Hic). pose proof (ins_data _ Hic).
  unfold guest_limit, MAX_ACCOUNTS_PER_INSTRUCTION in *. lia.
Qed.

Lemma program_key_len : len (account_key_ (program_fields c)) = 32.
Proof.
  destruct (ins_program _ Hic) as [H1 _]. apply shared_lookup in H1.
  apply (Forall_lookup_1 _ _ _ _ Hkeys H1).
Qed.

(** The serialiser for the loader of the program. *)
Lemma serialize_run (deprecated : bool) : exists s x,
  (if deprecated
   then serialize_parameters_unaligned A payload_ptr true stricter direct ptr lent (map item positions)
          (ic_instruction_data ic) (account_key_ (program_fields c))
   else serialize_parameters_aligned A payload_ptr false stricter direct ptr lent (map item positions)
          (ic_instruction_data ic) (account_key_ (program_fields c))) = Some (s, Ok x) /\
  same_views lent (s_context s) /\
  serialized_ok payload_ptr stricter direct ptr lent (map item positions) (ic_instruction_data ic)
    (layout deprecated) x.
Proof.
  pose proof guest_fits as Hg. pose proof program_key_len as Hp. destruct deprecated.
  - unfold serialize_parameters_unaligned, parameters_size.
    rewrite (parameters_size_ok _ (block_unaligned A true stricter direct lent) _ _ (account_key_ (program_fields c))); [|intros i a Hi|done].
    + apply (serialize_with_ok A HA payload_ptr stricter direct ptr lent); try done; [|apply items_ok].
      by apply write_accounts_unaligned_ok.
    + eapply size_unaligned_block; [done..|by apply items_ok].
  - unfold serialize_parameters_aligned, parameters_size.
    rewrite (parameters_size_ok _ (block_aligned A false stricter direct lent) _ _ (account_key_ (program_fields c))); [|intros i a Hi|done].
    + apply (serialize_with_ok A HA payload_ptr stricter direct ptr lent); try done; [|apply items_ok].
      by apply write_accounts_aligned_ok.
    + eapply size_aligned_block; [done..|by apply items_ok].
Qed.

(** Repeated accounts have the metadata of their first occurrence, which is the same account. *)
Lemma fields_of_position x k ia md :
  serialized_ok payload_ptr stricter direct ptr lent (map item positions) (ic_instruction_data ic) x.1 x.2 ->
  ias !! k = Some ia -> x.2.1.2 !! k = Some md ->
  fields_found payload_ptr stricter direct c x.2.1.1.1 x.2.1.1.2 (mkBorrowed ia program) md.
Proof.
  intros Hx Hia Hmd. apply lookup_lt_Some in Hia as Hk. pose proof (ser_metadata _ _ _ _ _ _ _ _ _ Hx) as Hm.
  assert (forall j, (j < length ias)%nat -> map item positions !! j = Some (item j)) as Hitem.
  { intros j Hj. change (map item positions) with (item <$> positions). unfold positions.
    by rewrite list_lookup_fmap, lookup_seq_lt. }
  pose proof (Hm k _ md (Hitem k Hk) Hmd) as H.
  assert (ias !!! k = ia) as Ek by by apply list_lookup_total_correct.
  destruct (duplicate_ok c k Hic accounts_number Hk) as (f & Hf & Hno & Hle & Ed).
  unfold item in H. rewrite Ed in H. destruct (f =? k)%nat eqn:Efk; [by rewrite Ek in H|].
  rewrite Nat2Z.id in H. assert (f < length ias)%nat as Hflt.
  { apply lookup_lt_Some in Hf. unfold account_indexes in Hf. by rewrite length_map in Hf. }
  pose proof (Hm f _ md (Hitem f Hflt) H) as Hff. rewrite index_lookup in Hf by done. injection Hf as Hf.
  destruct (duplicate_ok c f Hic accounts_number Hflt) as (f' & Hf' & Hno' & Hle' & Ed').
  assert (f' = f) as ->.
  { destruct (decide (f' < f)%nat) as [Hlt|]; [|lia]. exfalso. apply Hno. rewrite <- Hf.
    apply (list_elem_of_lookup_2 _ f'). by rewrite lookup_take_lt. }
  unfold item in Hff. rewrite Ed', Nat.eqb_refl in Hff.
  unfold fields_found, get_data, get_owner, get_lamports, account_key_bytes, account_view, get_index_in_transaction in *.
  cbn [instruction_account] in *. rewrite Ek in Hf. by rewrite Hf in Hff.
Qed.

End serialised.
End parameters.

Lemma serialize_parameters_ok (A : Z) (payload_ptr : Z -> Z) (bpf_loader_deprecated : Pubkey)
    (stricter direct : bool) (ptr lamports0 data0 : Z) (ic : InstructionContext) (c : TransactionContext) :
  0 < A <= 16 -> accounts_ok lamports0 data0 (accounts c) -> keys_ok c -> unborrowed c -> instruction_ok ic c ->
  let deprecated := bool_decide (account_owner (program_fields ic c) = bpf_loader_deprecated) in
  exists c' x,
    serialize_parameters A payload_ptr bpf_loader_deprecated stricter direct ptr ic c = Some (c', Ok x) /\
    same_views c c' /\
    serialized_ok payload_ptr stricter direct ptr (lent ic c) (map (item ic) (positions ic)) (ic_instruction_data ic)
      (layout ic A stricter direct c deprecated) x.
Proof.
  intros HA Hacc Hkeys Hfree Hic deprecated.
  destruct (serialize_run ic A HA payload_ptr stricter direct ptr c lamports0 data0 Hacc Hkeys Hic deprecated)
    as (s & x & E & Hv & Hx).
  exists (drop_serialize_accounts (map (item ic) (positions ic)) (s_context s)), x.
  split; [|split; [by apply (drop_lent ic c lamports0 data0 Hacc Hkeys Hfree Hic)|done]].
  unfold serialize_parameters. pose proof (ins_number _ _ Hic) as Hn.
  rewrite (program_key_ok ic c Hic), (program_owner_ok ic c lamports0 data0 Hacc Hfree Hic).
  rewrite (collect_positions ic c lamports0 data0 Hacc Hkeys Hfree Hic).
  assert (get_number_of_instruction_accounts ic = len (ic_instruction_accounts ic)) as ->.
  { unfold get_number_of_instruction_accounts, cast_u, MAX_ACCOUNTS_PER_INSTRUCTION in *.
    pose proof (len_nonneg (ic_instruction_accounts ic)). apply Z.mod_small. lia. }
  rewrite (proj2 (Z.ltb_ge _ _)) by done. fold deprecated. by rewrite E.
Qed.

(** The parameters of an instruction in guest memory. When no account of the transaction is
    borrowed, [serialize_parameters] succeeds in every mode: the buffer has exactly the size that
    was computed in advance and the layout of the loader of the program; the regions follow each
    other without overlap; the returned address leads to the instruction data; and the metadata
    of every instruction account, repeated or not, leads to its key, owner, lamports and data,
    the data being in the buffer or, with direct mapping, in the payload of the account. Nothing
    of the transaction but touched flags has changed. *)
Theorem parameters_serialized (A : Z) (payload_ptr : Z -> Z) (bpf_loader_deprecated : Pubkey)
    (stricter direct : bool) (ptr lamports0 data0 : Z) (ic : InstructionContext) (c : TransactionContext) :
  0 < A <= 16 -> accounts_ok lamports0 data0 (accounts c) -> keys_ok c -> unborrowed c -> instruction_ok ic c ->
  let deprecated := bool_decide (account_owner (program_fields ic c) = bpf_loader_deprecated) in
  exists c' mem regions metadata data_addr,
    serialize_parameters A payload_ptr bpf_loader_deprecated stricter direct ptr ic c =
      Some (c', Ok (mem, regions, metadata, data_addr)) /\
    same_views c c' /\
    mem_bytes mem = layout ic A stricter direct c deprecated /\ mem_capacity mem = mem_len mem /\
    regions_ordered regions /\ guest_bytes mem regions data_addr (ic_instruction_data ic) /\
    length metadata = length (ic_instruction_accounts ic) /\
    forall k ia md, ic_instruction_accounts ic !! k = Some ia -> metadata !! k = Some md ->
      fields_found payload_ptr stricter direct c mem regions
        (mkBorrowed ia (ic_program_account_index_in_tx ic)) md.
Proof.
  intros HA Hacc Hkeys Hfree Hic deprecated.
  destruct (serialize_parameters_ok A payload_ptr bpf_loader_deprecated stricter direct ptr lamports0 data0 ic c
    HA Hacc Hkeys Hfree Hic) as (c' & [[[mem regions] mds] off] & E & Hv & Hx). fold deprecated in Hx.
  exists c', mem, regions, mds, off. split; [done|]. split; [done|].
  pose proof Hx as [X1 X2 X3 X4 X5 X6 X7 X8]. cbn [fst snd] in *.
  split; [done|]. split; [unfold mem_len; by rewrite X1, X2|]. split; [done|]. split; [done|].
  split; [rewrite X6; unfold positions; by rewrite length_map, length_seq|]. intros k ia md Hia Hmd.
  by apply (fields_of_position ic payload_ptr stricter direct ptr c lamports0 data0 Hacc Hic
    (layout ic A stricter direct c deprecated, (mem, regions, mds, off)) k).
Qed.

(** ** Example *)

(** An instruction with a repeated account. *)
Definition example_params : InstructionContext :=
  match top_level_accounts (fun _ => false) (fun _ => true) [1; 2; 1] empty_callee_map [] with
  | Some (m, ias) => mkInstructionContext 0 0 0 ias m [7; 8]
  | None => mkInstructionContext 0 0 0 [] [] []
  end.

Lemma example_params_ok : instruction_ok example_params example_new.
Proof.
  destruct (top_level_accounts_ok (fun _ => false) (fun _ => true) [1; 2; 1] empty_callee_map [] dedup_empty)
    as (m & ias & E & Hd & Ea); [repeat constructor; vm_compute; discriminate|done|].
  split.
  - unfold example_params. rewrite E. exact Hd.
  - vm_compute. discriminate.
  - repeat constructor; vm_compute; discriminate.
  - split; [split; vm_compute; [discriminate|reflexivity]|vm_compute; discriminate].
  - vm_compute. discriminate.
Qed.

Lemma example_new_ok :
  accounts_ok (initial_lamports example_accounts) (initial_data example_accounts) (accounts example_new).
Proof.
  apply ctx_accounts, context_new_ok; [apply example_loaded|vm_compute; discriminate| |vm_compute; discriminate].
  split; vm_compute; discriminate.
Qed.

Lemma parameters_serialized_witness :
  exists c' mem regions metadata data_addr,
    serialize_parameters 8 (fun i => 65536 * i) (key_of 50) true false 4096 example_params example_new =
      Some (c', Ok (mem, regions, metadata, data_addr)) /\ length metadata = 3%nat.
Proof.
  destruct (parameters_serialized 8 (fun i => 65536 * i) (key_of 50) true false 4096
    (initial_lamports example_accounts) (initial_data example_accounts) example_params example_new)
    as (c' & mem & regions & metadata & off & E & _ & _ & _ & _ & _ & Hl & _).
  - split; vm_compute; [reflexivity|discriminate].
  - apply example_new_ok.
  - repeat constructor.
  - repeat constructor.
  - apply example_params_ok.
  - exists c', mem, regions, metadata, off. split; [exact E|exact Hl].
Defined.
