(* ===== verification/RoundTrip.v ===== *)
(** Serialising the parameters of an instruction and deserialising them unmodified
    (agave/program-runtime/src/serialization.rs) changes no account. *)

From Stdlib Require Import ZArith Lia Bool.
From S2P Require Import Prelude.
From S2P Require Import Ebpf.
From S2P Require Import MemoryRegion.
From S2P Require Import TxAccounts.
From S2P Require Import TxContext.
From S2P Require Import TxSafe.
From S2P Require Import InvokeContext.
From S2P Require Import InvokeSafe.
From S2P Require Import Serialize.
From S2P Require Import SerializeSafe.
From S2P Require Import SerializeParams.

#[local] Open Scope Z_scope.

(** ** Contexts with the same contents *)

(** The private fields up to whether the payload is shared. *)
Definition same_private (p p' : AccountPrivateFields) : Prop :=
  rent_epoch p' = rent_epoch p /\ executable p' = executable p /\ payload p' = payload p.

Record same_contents (a a' : TransactionAccounts) : Prop := {
  same_shared : shared_account_fields a' = shared_account_fields a;
  same_privates : Forall2 same_private (private_account_fields a) (private_account_fields a');
  same_counters : borrow_counters a' = borrow_counters a;
  same_touched : length (touched_flags a') = length (touched_flags a);
  same_resize : resize_delta a' = resize_delta a;
  same_lamports : lamports_delta a' = lamports_delta a
}.

#[export] Instance same_private_equiv : Equivalence same_private.
Proof.
  unfold same_private. split; [done|by intros p p' (-> & -> & ->)|].
  intros p1 p2 p3 (-> & -> & ->) (-> & -> & ->). done.
Qed.

#[export] Instance same_contents_preorder : PreOrder same_contents.
Proof.
  split.
  - intros a. by split.
  - intros a1 a2 a3 [A1 A2 A3 A4 A5 A6] [B1 B2 B3 B4 B5 B6]. split; try congruence.
    by transitivity (private_account_fields a2).
Qed.

(** Contexts that differ in their accounts only. *)
Definition same_context (c c' : TransactionContext) : Prop :=
  exists a', same_contents (accounts c) a' /\ c' = set_accounts a' c.

Lemma same_context_refl c : same_context c c.
Proof. exists (accounts c). split; [reflexivity|]. by destruct c. Qed.

Lemma same_context_trans c1 c2 c3 : same_context c1 c2 -> same_context c2 c3 -> same_context c1 c3.
Proof. intros (a2 & H2 & ->) (a3 & H3 & ->). exists a3. split; [by etrans|done]. Qed.

Lemma private_view a a' i : Forall2 same_private (private_account_fields a) (private_account_fields a') ->
  same_private (private_account_fields a !!! i) (private_account_fields a' !!! i).
Proof.
  intros H. destruct (private_account_fields a !! i) as [p|] eqn:E.
  - destruct (Forall2_lookup_l _ _ _ _ _ H E) as (p' & E' & Hp).
    by rewrite (list_lookup_total_correct _ _ _ E), (list_lookup_total_correct _ _ _ E').
  - pose proof E as E'. rewrite lookup_ge_None, (Forall2_length _ _ _ H), <- lookup_ge_None in E'.
    by rewrite !list_lookup_total_alt, E, E'.
Qed.

Lemma same_total_data a a' : same_contents a a' -> total_data a' = total_data a.
Proof.
  intros [_ H _ _ _ _]. unfold total_data. induction H as [|p p' l l' (_ & _ & E) H IH]; [done|].
  cbn. unfold zsum in *. by rewrite E, IH.
Qed.

(** The invariant of the accounts looks at contents only. *)
Lemma accounts_ok_same l0 d0 a a' : same_contents a a' -> accounts_ok l0 d0 a -> accounts_ok l0 d0 a'.
Proof.
  intros Hs [K1 K2 K3 K4 K5 K6 K7 K8 K9 K10 K11]. pose proof (same_total_data _ _ Hs) as Ht.
  pose proof Hs as [A1 A2 A3 A4 A5 A6]. pose proof (Forall2_length _ _ _ A2) as Hl.
  split; rewrite ?A1, ?A3, ?A4, ?A5, ?A6; try done; try congruence.
  - apply Forall_lookup. intros i p Hp. destruct (Forall2_lookup_r _ _ _ _ _ A2 Hp) as (q & Hq & _ & _ & ->).
    apply (Forall_lookup_1 _ _ _ _ K6 Hq).
  - apply Forall2_same_length_lookup. split; [congruence|]. intros i s p Es Ep.
    destruct (Forall2_lookup_r _ _ _ _ _ A2 Ep) as (q & Hq & _ & _ & ->).
    apply (proj2 (proj1 (Forall2_same_length_lookup _ _ _) K7) i s q Es Hq).
  - unfold total_lamports in *. by rewrite A1.
Qed.

Section unmodified.
Context (A : Z) (HA : 0 < A <= 16) (stricter direct : bool) (lamports0 data0 : Z).
Implicit Types (b : BorrowedInstructionAccount) (c : TransactionContext).

Lemma same_get b c c' : same_context c c' ->
  get_lamports b c' = get_lamports b c /\ get_owner b c' = get_owner b c /\ get_data b c' = get_data b c /\
  is_executable b c' = is_executable b c /\ account_key_bytes b c' = account_key_bytes b c.
Proof.
  intros (a' & [A1 A2 A3 A4 A5 A6] & ->).
  pose proof (private_view _ _ (Z.to_nat (get_index_in_transaction b)) A2) as (_ & E1 & E2).
  unfold get_lamports, get_owner, get_data, is_executable, account_key_bytes, account_key, account_view, get_view,
    view_lamports, view_owner, view_data, view_executable. cbn. by rewrite A1, E1, E2.
Qed.

(** Writing the data that is there. *)
Lemma set_same_data b c :
  accounts_ok lamports0 data0 (accounts c) -> in_range b c -> can_data_be_changed b c = Ok tt ->
  exists c', set_data_from_slice b (get_data b c) c = (c', Ok tt) /\ same_context c c'.
Proof.
  intros Hok Hr Hch. pose proof (data_len_bounds _ _ b c Hok Hr) as Hd.
  assert (can_data_be_resized b (len (get_data b c)) c = Ok tt) as Er.
  { unfold can_data_be_resized, accounts_can_data_be_resized. rewrite Z.eqb_refl. cbn [negb andb].
    rewrite (proj2 (Z.ltb_ge _ _)) by lia. pose proof (ok_growth _ _ _ Hok).
    pose proof (resize_delta_bounds _ _ _ Hok). unfold MAX_ACCOUNT_DATA_GROWTH_PER_TRANSACTION, MAX_ACCOUNT_DATA_LEN in *.
    rewrite (proj2 (Z.ltb_ge _ _)); [exact Hch|].
    unfold saturating_add_i64, saturating_sub_i64, clamp_i64. rewrite Z.sub_diag. lia. }
  pose proof (update_resize_effect _ _ b (len (get_data b c)) c Hok Hr Hd) as Eu.
  unfold set_data_from_slice. unfold tx_bind at 1, tx_lift at 1. rewrite Er.
  unfold tx_bind in Eu |- *. rewrite (touch_effect _ _ _ _ Hok Hr) in Eu |- *. rewrite Eu.
  unfold update_view, tx_modify. eexists. split; [reflexivity|]. eexists. split; [|reflexivity].
  set (i := Z.to_nat (get_index_in_transaction b)). unfold in_range in Hr. fold i in Hr.
  destruct (lookup_lt_is_Some_2 _ _ Hr) as [f Ef].
  destruct (Forall2_lookup_l _ _ _ _ _ (ok_payload _ _ _ Hok) Ef) as (p & Ep & Hlen).
  assert (get_data b c = payload p) as Edata.
  { change (get_data b c) with (payload (private_account_fields (accounts c) !!! i)).
    by rewrite (list_lookup_total_correct _ _ _ Ep). }
  split; cbn; fold i.
  - rewrite (list_lookup_total_correct _ _ _ Ef). apply list_insert_id. rewrite Ef, Edata, <- Hlen.
    by destruct f as [? ? ? []].
  - rewrite (list_lookup_total_correct _ _ _ Ep), Edata. apply Forall2_same_length_lookup.
    split; [by rewrite length_insert|]. intros j q q' Eq Eq'.
    apply list_lookup_insert_Some in Eq' as [(-> & <- & _)|[Hne Eq']]; [|by simplify_eq].
    by simplify_eq.
  - done.
  - apply length_insert.
  - lia.
  - done.
Qed.

Lemma update_lamports_same b c : update_lamports b (get_lamports b c) c = (c, Ok tt).
Proof. unfold update_lamports, tx_bind, tx_get. by rewrite Z.eqb_refl. Qed.

Lemma update_data_same b c buffer start :
  accounts_ok lamports0 data0 (accounts c) -> in_range b c ->
  (mapped_directly stricter direct = false ->
   get_range buffer start (len (get_data b c)) = Ok (get_data b c)) ->
  exists c', update_data stricter direct b buffer start (len (get_data b c)) c = (c', Ok tt) /\ same_context c c'.
Proof.
  intros Hok Hr Hrange. unfold update_data, mapped_directly in *. unfold tx_bind, tx_lift, tx_get.
  destruct stricter; cbn [negb andb] in *.
  - destruct (can_data_be_changed b c) as [[]|e] eqn:Ech; cbn [is_ok];
      [rewrite andb_true_r|rewrite andb_false_r].
    + destruct direct; cbn [negb] in *.
      * rewrite Z.eqb_refl. exists c. split; [done|apply same_context_refl].
      * rewrite Hrange by done. by apply set_same_data.
    + rewrite Z.eqb_refl. exists c. split; [done|apply same_context_refl].
  - rewrite Hrange by done. destruct (can_data_be_resized b (len (get_data b c)) c) as [[]|e] eqn:Er.
    + apply set_same_data; [done|done|]. unfold can_data_be_resized in Er.
      destruct (negb _ && _); [done|]. by destruct (accounts_can_data_be_resized _ _ _).
    + rewrite bool_decide_eq_true_2 by done. exists c. split; [done|apply same_context_refl].
Qed.

(** ** Reading the blocks *)

Lemma get_range_at buffer P bs Q off n :
  buffer = P ++ bs ++ Q -> off = len P -> n = len bs -> get_range buffer off n = Ok bs.
Proof.
  intros -> -> ->. unfold get_range. rewrite !len_app. pose proof (len_nonneg Q).
  rewrite (proj2 (Z.leb_le _ _)) by lia. unfold slice, len.
  replace (Z.of_nat (length P) + Z.of_nat (length bs) - Z.of_nat (length P)) with (Z.of_nat (length bs)) by lia.
  by rewrite !Nat2Z.id, drop_app_length, take_app_length.
Qed.

Lemma get_u64_at buffer P x Q off :
  buffer = P ++ le_split 8 x ++ Q -> off = len P -> is_u64 x -> get_u64 buffer off = Ok x.
Proof.
  intros -> -> Hx. unfold get_u64. rewrite read_le_app by apply le_split_length.
  rewrite le_combine_split, Z.mod_small; [done|]. exact Hx.
Qed.

(** The bytes of the block of an account, up to and behind a field. *)
Ltac in_block := rewrite <- ?app_assoc; reflexivity.

Abbreviation block b c := (block_aligned A false stricter direct c (SAccount 0 b)).

Lemma deserialize_aligned_same b c pre post :
  accounts_ok lamports0 data0 (accounts c) -> in_range b c ->
  len (account_key_bytes b c) = 32 -> len (get_owner b c) = 32 ->
  exists c', deserialize_account_aligned A stricter direct b (pre ++ block b c ++ post) (len pre + 1)
      (len (get_data b c)) c = (c', Ok (len pre + len (block b c))) /\ same_context c c'.
Proof.
  intros Hok Hr Hk Ho. pose proof (data_len_bounds _ _ b c Hok Hr) as Hd.
  pose proof (get_lamports_u64 _ _ b c Hok Hr) as Hl. pose proof (align_offset_bounds A HA (len (get_data b c))) as Hal.
  set (h := [NON_DUP_MARKER] ++ bool_byte (is_signer (instruction_account b))
      ++ bool_byte (is_writable (instruction_account b)) ++ bool_byte (is_executable b c) ++ [0; 0; 0; 0]).
  assert (len h = 8) as Hh by done.
  set (k := account_key_bytes b c) in *. set (o := get_owner b c) in *. set (l := le_split 8 (get_lamports b c)).
  set (n := le_split 8 (len (get_data b c))). set (db := data_block A false stricter direct (get_data b c)).
  set (e := le_split 8 u64_MAX).
  assert (block b c = h ++ k ++ o ++ l ++ n ++ db ++ e) as -> by (unfold block_aligned; subst h; in_block).
  set (buf := pre ++ _ ++ post).
  assert (len l = 8 /\ len n = 8 /\ len e = 8) as (L1 & L2 & L3) by (repeat split; apply u64_bytes_len).
  unfold deserialize_account_aligned. unfold tx_bind at 1, tx_lift at 1.
  rewrite (get_range_at buf (pre ++ h ++ k) o (l ++ n ++ db ++ e ++ post));
    [|subst buf; in_block|rewrite !len_app; lia|done].
  unfold tx_bind at 1, tx_lift at 1.
  rewrite (get_u64_at buf (pre ++ h ++ k ++ o) (get_lamports b c) (n ++ db ++ e ++ post));
    [|subst buf; in_block|rewrite !len_app; lia|done].
  unfold tx_bind at 1. rewrite update_lamports_same. unfold tx_bind at 1, tx_lift at 1.
  rewrite (get_u64_at buf (pre ++ h ++ k ++ o ++ l) (len (get_data b c)) (db ++ e ++ post));
    [|subst buf; in_block|rewrite !len_app; lia|unfold is_u, MAX_ACCOUNT_DATA_LEN in *; lia].
  unfold saturating_sub. rewrite Z.sub_diag. change (MAX_PERMITTED_DATA_INCREASE <? Z.max 0 0) with false.
  rewrite orb_false_l, (proj2 (Z.ltb_ge _ _)) by (unfold MAX_PERMITTED_DATA_LENGTH; lia).
  destruct (update_data_same b c buf (len pre + 1 + (1 + 1 + 1 + 4 + 32) + 32 + 8 + 8) Hok Hr) as (c' & E & Hs).
  { intros Hm. assert (exists t, db = get_data b c ++ t) as [t Edb]
      by (subst db; unfold data_block; rewrite Hm; by eexists).
    eapply (get_range_at buf (pre ++ h ++ k ++ o ++ l ++ n) (get_data b c));
      [subst buf; rewrite Edb; in_block|rewrite !len_app; lia|done]. }
  unfold tx_bind at 1. rewrite E. unfold tx_bind, tx_get.
  destruct (same_get b c c' Hs) as (_ & -> & _). fold o. rewrite bool_decide_eq_true_2 by done. cbn [negb].
  exists c'. split; [|done]. unfold tx_ret. f_equal. f_equal. rewrite !len_app. subst db.
  rewrite (len_data_block A HA). fold (mapped_directly stricter direct). unfold saturating_add.
  unfold MAX_PERMITTED_DATA_INCREASE, MAX_ACCOUNT_DATA_GROWTH_PER_INSTRUCTION, MAX_ACCOUNT_DATA_LEN in *.
  destruct (mapped_directly stricter direct); cbn [negb]; [lia|].
  change u64_MAX with (2 ^ 64 - 1). lia.
Qed.

Abbreviation block_old b c := (block_unaligned A true stricter direct c (SAccount 0 b)).

Lemma deserialize_unaligned_same b c pre post :
  accounts_ok lamports0 data0 (accounts c) -> in_range b c ->
  len (account_key_bytes b c) = 32 -> len (get_owner b c) = 32 ->
  exists c', deserialize_account_unaligned stricter direct b (pre ++ block_old b c ++ post) (len pre + 1)
      (len (get_data b c)) c = (c', Ok (len pre + len (block_old b c))) /\ same_context c c'.
Proof.
  intros Hok Hr Hk Ho. pose proof (data_len_bounds _ _ b c Hok Hr) as Hd.
  pose proof (get_lamports_u64 _ _ b c Hok Hr) as Hl.
  set (h := [NON_DUP_MARKER] ++ bool_byte (is_signer (instruction_account b))
      ++ bool_byte (is_writable (instruction_account b))).
  assert (len h = 3) as Hh by done.
  set (k := account_key_bytes b c) in *. set (l := le_split 8 (get_lamports b c)).
  set (n := le_split 8 (len (get_data b c))). set (db := data_block A true stricter direct (get_data b c)).
  set (e := get_owner b c ++ bool_byte (is_executable b c) ++ le_split 8 u64_MAX).
  assert (block_old b c = h ++ k ++ l ++ n ++ db ++ e) as -> by (unfold block_unaligned; subst h; in_block).
  assert (len l = 8 /\ len n = 8) as (L1 & L2) by (repeat split; apply u64_bytes_len).
  assert (len e = 41) as L3 by (subst e; by rewrite !len_app, Ho, u64_bytes_len).
  set (buf := pre ++ _ ++ post). unfold deserialize_account_unaligned. unfold tx_bind at 1, tx_lift at 1.
  rewrite (get_u64_at buf (pre ++ h ++ k) (get_lamports b c) (n ++ db ++ e ++ post));
    [|subst buf; in_block|rewrite !len_app; lia|done].
  unfold tx_bind at 1. rewrite update_lamports_same. unfold tx_bind at 1.
  destruct (update_data_same b c buf (len pre + 1 + (1 + 1 + 32) + (8 + 8)) Hok Hr) as (c' & E & Hs).
  { intros Hm. assert (exists t, db = get_data b c ++ t) as [t Edb]
      by (subst db; unfold data_block; rewrite Hm; by eexists).
    eapply (get_range_at buf (pre ++ h ++ k ++ l ++ n) (get_data b c));
      [subst buf; rewrite Edb; in_block|rewrite !len_app; lia|done]. }
  rewrite E. exists c'. split; [|done]. unfold tx_ret. f_equal. f_equal. rewrite !len_app. subst db.
  rewrite (len_data_block A HA). fold (mapped_directly stricter direct).
  destruct (mapped_directly stricter direct); cbn [negb]; lia.
Qed.

End unmodified.

(** ** The loop over the accounts *)

Section loop.
Context (ic : InstructionContext) (lamports0 data0 : Z).
Abbreviation ias := (ic_instruction_accounts ic).
Abbreviation program := (ic_program_account_index_in_tx ic).
#[local] Existing Instance instruction_account_inhabited.

Record params_ok (c : TransactionContext) : Prop := {
  par_accounts : accounts_ok lamports0 data0 (accounts c);
  par_keys : keys_ok c;
  par_free : unborrowed c;
  par_ic : instruction_ok ic c
}.

Lemma params_ok_same c c' : same_context c c' -> params_ok c -> params_ok c'.
Proof.
  intros (a' & Ha & ->) [P1 P2 P3 [P4 P5 P6 P7 P8]]. pose proof Ha as [A1 A2 A3 A4 A5 A6].
  split; [by eapply accounts_ok_same| | |split].
  all: unfold keys_ok, unborrowed, accounts_len in *; cbn; rewrite ?A1, ?A3; done.
Qed.

(** The account at a position, borrowed. *)
Definition borrowed (k : nat) : BorrowedInstructionAccount := mkBorrowed (ias !!! k) program.

Lemma borrowed_fields c k : params_ok c -> (k < length ias)%nat ->
  in_range (borrowed k) c /\ len (account_key_bytes (borrowed k) c) = 32 /\ len (get_owner (borrowed k) c) = 32 /\
  borrow_counters (accounts c) !! tx_index ic k = Some 0.
Proof.
  intros [P1 P2 P3 P4] Hk.
  assert (k ∈ positions ic) as Hp by (unfold positions; rewrite elem_of_seq; lia).
  pose proof (position_index ic c P4 k Hp) as Hi. pose proof (shared_lookup c _ Hi) as Hs.
  destruct (Forall_lookup_1 _ _ _ _ P2 Hs) as [K1 K2].
  split; [unfold in_range, borrowed; cbn; by eapply lookup_lt_Some|]. split; [|split].
  - unfold account_key_bytes, account_key, borrowed, get_index_in_transaction. cbn. by rewrite Hs.
  - exact K2.
  - by eapply counter_zero.
Qed.

(** A block that keeps the contents, run on the borrowed account. *)
Lemma with_borrowed_same {X} c k (body : BorrowedInstructionAccount -> TxM X) x :
  params_ok c -> (k < length ias)%nat ->
  (forall cs, length cs = length (borrow_counters (accounts c)) ->
     exists c', body (borrowed k) (with_counters cs c) = (c', Ok x) /\ same_context (with_counters cs c) c') ->
  exists c', with_borrowed ic (Z.of_nat k) body c = (c', Ok x) /\ same_context c c'.
Proof.
  intros Hp Hk Hbody. destruct (borrowed_fields c k Hp Hk) as (_ & _ & _ & H0).
  unfold with_borrowed, tx_bind. rewrite borrow_ok by done. fold (borrowed k).
  set (cs := <[tx_index ic k := -1]> _). destruct (Hbody cs) as (c1 & -> & (a1 & Ha & ->)); [apply length_insert|].
  pose proof Ha as [A1 A2 A3 A4 A5 A6]. cbn in A1, A2, A3, A4, A5, A6.
  set (c2 := set_accounts (set_borrow_counters (borrow_counters (accounts c)) a1) c).
  assert (same_context c c2) as Hs.
  { exists (set_borrow_counters (borrow_counters (accounts c)) a1). split; [|done]. by split. }
  exists c2. split; [|done].
  assert (set_accounts a1 (with_counters cs c) = with_counters cs c2) as ->.
  { subst c2. unfold with_counters. cbn. rewrite <- A3. by destruct a1. }
  unfold borrowed. rewrite drop_ok.
  - f_equal. subst cs. rewrite list_insert_insert_eq, list_insert_id by done. done.
  - apply (ok_payload lamports0 data0). apply (par_accounts c2). by eapply params_ok_same.
  - subst cs. rewrite list_lookup_insert_eq; [done|]. by eapply lookup_lt_Some.
Qed.

(** A reader of blocks. *)
Context (dup_padding : Z) (read : BorrowedInstructionAccount -> list Z -> Z -> Z -> TxM Z).
Context (blk : TransactionContext -> SerializeAccount -> list Z).

Definition reader_ok : Prop :=
  (forall idx b c pre post,
     accounts_ok lamports0 data0 (accounts c) -> in_range b c ->
     len (account_key_bytes b c) = 32 -> len (get_owner b c) = 32 ->
     exists c', read b (pre ++ blk c (SAccount idx b) ++ post) (len pre + 1) (len (get_data b c)) c =
         (c', Ok (len pre + len (blk c (SAccount idx b)))) /\ same_context c c') /\
  (forall c p, len (blk c (SDuplicate p)) = 1 + dup_padding) /\
  (forall c c' a, same_context c c' -> blk c' a = blk c a) /\
  (forall c cs, blk (with_counters cs c) = blk c).

Lemma deserialize_loop ks : reader_ok ->
  (forall k, k ∈ ks -> (k < length ias)%nat) ->
  forall c pre post, params_ok c ->
  exists c', deserialize_accounts ic dup_padding read
      (pre ++ concat (map (blk c) (map (item ic) ks)) ++ post)
      (map (fun k => (Z.of_nat k, len (get_data (borrowed k) c))) ks) (len pre) c = (c', Ok tt) /\
    same_context c c'.
Proof.
  intros (Hread & Hdup & Hblk & Hcount). induction ks as [|k ks IH]; intros Hks c pre post Hp.
  { exists c. split; [done|apply same_context_refl]. }
  pose proof (Hks k (list_elem_of_here _ _)) as Hk.
  assert (accounts_len (accounts c) <= MAX_ACCOUNTS_PER_TRANSACTION) as Hn by apply (ok_number _ _ _ (par_accounts _ Hp)).
  destruct (duplicate_ok ic c k (par_ic _ Hp) Hn Hk) as (f & _ & _ & _ & Ed).
  cbn [map concat deserialize_accounts]. unfold tx_bind at 1, tx_lift at 1. rewrite Ed.
  set (rest := concat (map (blk c) (map (item ic) ks))). rewrite <- (app_assoc (blk c (item ic k))).
  assert (exists c1, (match (if (f =? k)%nat then None else Some (Z.of_nat f)) with
      | Some _ => tx_ret (len pre + 1 + dup_padding)
      | None => with_borrowed ic (Z.of_nat k) (fun account =>
          read account (pre ++ blk c (item ic k) ++ rest ++ post) (len pre + 1) (len (get_data (borrowed k) c)))
      end) c = (c1, Ok (len (pre ++ blk c (item ic k)))) /\ same_context c c1) as (c1 & E1 & Hs1).
  { rewrite len_app. unfold item. rewrite Ed. destruct (f =? k)%nat.
    - apply with_borrowed_same; [done|done|]. intros cs Hcs. destruct (borrowed_fields c k Hp Hk) as (F1 & F2 & F3 & _).
      rewrite <- (Hcount c cs). apply (Hread (Z.of_nat k) (borrowed k) (with_counters cs c)); try done.
      pose proof (par_accounts _ Hp) as [K1 K2 K3 K4 K5 K6 K7 K8 K9 K10 K11]. split; try done. cbn. congruence.
    - exists c. split; [|apply same_context_refl]. rewrite Hdup. unfold tx_ret. f_equal. f_equal. lia. }
  unfold tx_bind at 1. rewrite E1.
  destruct (IH (fun k' Hk' => Hks k' (list_elem_of_further _ _ _ Hk')) c1 (pre ++ blk c (item ic k)) post)
    as (c2 & E2 & Hs2); [by eapply params_ok_same|].
  exists c2. split; [|by eapply same_context_trans].
  assert (concat (map (blk c1) (map (item ic) ks)) = rest) as Er.
  { subst rest. f_equal. apply map_ext. intros a. by apply Hblk. }
  rewrite Er, <- app_assoc in E2. rewrite <- E2. f_equal. apply map_ext. intros k'.
  destruct (same_get (borrowed k') c c1 Hs1) as (_ & _ & -> & _). done.
Qed.

End loop.

(** ** Round trip *)

Section readers.
Context (A : Z) (HA : 0 < A <= 16) (stricter direct : bool) (ic : InstructionContext) (lamports0 data0 : Z).

Lemma block_same c c' a : same_context c c' ->
  block_aligned A false stricter direct c' a = block_aligned A false stricter direct c a /\
  block_unaligned A true stricter direct c' a = block_unaligned A true stricter direct c a.
Proof.
  intros Hs. destruct a as [idx b|p]; [|done]. unfold block_aligned, block_unaligned.
  by destruct (same_get b c c' Hs) as (-> & -> & -> & -> & ->).
Qed.

Lemma aligned_reader :
  reader_ok lamports0 data0 7 (deserialize_account_aligned A stricter direct) (block_aligned A false stricter direct).
Proof.
  split; [|split; [done|split; [|done]]].
  - intros idx b c pre post. by apply deserialize_aligned_same.
  - intros c c' a Hs. by destruct (block_same c c' a Hs).
Qed.

Lemma unaligned_reader :
  reader_ok lamports0 data0 0 (deserialize_account_unaligned stricter direct) (block_unaligned A true stricter direct).
Proof.
  split; [|split; [done|split; [|done]]].
  - intros idx b c pre post. by apply deserialize_unaligned_same.
  - intros c c' a Hs. by destruct (block_same c c' a Hs).
Qed.

End readers.

Lemma same_views_context c c' : same_views c c' -> same_context c c'.
Proof.
  intros (flags & Hl & ->). exists (set_touched_flags flags (accounts c)). split; [|done]. by split.
Qed.

(** The accounts and the lengths that deserialisation iterates over. *)
Lemma metadata_items ic payload_ptr stricter direct ptr c c' lamports0 data0 bs (x : Serialized) :
  params_ok ic lamports0 data0 c -> same_context c c' ->
  serialized_ok payload_ptr stricter direct ptr (lent ic c) (map (item ic) (positions ic)) (ic_instruction_data ic) bs x ->
  zip (seqZ 0 (get_number_of_instruction_accounts ic)) (map original_data_len x.1.2) =
  map (fun k => (Z.of_nat k, len (get_data (borrowed ic k) c'))) (positions ic).
Proof.
  intros [P1 P2 P3 P4] Hs Hx. pose proof (ser_metadata_length _ _ _ _ _ _ _ _ _ Hx) as Hl.
  rewrite length_map in Hl. unfold positions at 1 in Hl. rewrite length_seq in Hl.
  assert (seqZ 0 (get_number_of_instruction_accounts ic) = map Z.of_nat (positions ic)) as ->
    by apply (instruction_positions ic c P4).
  apply list_eq. intros k.
  change (map ?f (positions ic)) with (f <$> positions ic). rewrite list_lookup_fmap.
  change (zip ?l ?l') with (zip_with pair l l'). rewrite lookup_zip_with.
  change (map original_data_len ?l) with (original_data_len <$> l). rewrite !list_lookup_fmap.
  destruct (decide (k < length (ic_instruction_accounts ic))%nat) as [Hk|Hk].
  - unfold positions. rewrite lookup_seq_lt by done. cbn.
    destruct (lookup_lt_is_Some_2 x.1.2 k) as [md Hmd]; [lia|]. rewrite Hmd. cbn. f_equal. f_equal.
    destruct (fields_of_position ic payload_ptr stricter direct ptr c lamports0 data0 P1 P4 (bs, x) k
      _ md Hx (lookup_ias ic k Hk) Hmd) as (-> & _).
    destruct (same_get (borrowed ic k) c c' Hs) as (_ & _ & -> & _). done.
  - unfold positions. by rewrite lookup_seq_ge by lia.
Qed.

(** C18. Round trip of the parameters. Deserialising the buffer that [serialize_parameters] has
    filled, with the metadata it has returned, succeeds in every mode and leaves lamports, data,
    owner and executable flag of every account, the borrows and the books as they were: a
    program that writes nothing changes nothing. *)
Theorem parameters_round_trip (A : Z) (payload_ptr : Z -> Z) (bpf_loader_deprecated : Pubkey)
    (stricter direct : bool) (ptr lamports0 data0 : Z) (ic : InstructionContext) (c : TransactionContext)
    (c' : TransactionContext) mem regions metadata data_addr :
  0 < A <= 16 -> accounts_ok lamports0 data0 (accounts c) -> keys_ok c -> unborrowed c -> instruction_ok ic c ->
  serialize_parameters A payload_ptr bpf_loader_deprecated stricter direct ptr ic c =
    Some (c', Ok (mem, regions, metadata, data_addr)) ->
  exists c'', deserialize_parameters A stricter direct bpf_loader_deprecated ic (mem_bytes mem) metadata c' =
      (c'', Ok tt) /\ same_context c c''.
Proof.
  intros HA Hacc Hkeys Hfree Hic E.
  destruct (serialize_parameters_ok A payload_ptr bpf_loader_deprecated stricter direct ptr lamports0 data0 ic c
    HA Hacc Hkeys Hfree Hic) as (c1 & x & E1 & Hv & Hx). rewrite E in E1. injection E1 as <- <-.
  set (deprecated := bool_decide _) in Hx. apply same_views_context in Hv as Hs.
  assert (params_ok ic lamports0 data0 c') as Hp by (eapply params_ok_same; [exact Hs|by split]).
  assert (zip (seqZ 0 (get_number_of_instruction_accounts ic)) (map original_data_len metadata) =
    map (fun k => (Z.of_nat k, len (get_data (borrowed ic k) c'))) (positions ic)) as Ez.
  { apply (metadata_items ic payload_ptr stricter direct ptr c c' lamports0 data0 _ _ ltac:(by split) Hs Hx). }
  pose proof (ser_bytes _ _ _ _ _ _ _ _ _ Hx) as Eb. cbn [fst] in Eb. rewrite Eb.
  unfold deserialize_parameters, tx_bind, tx_lift.
  rewrite (program_owner_ok ic c' lamports0 data0), Ez; [|by apply Hp..].
  assert (bool_decide (account_owner (program_fields ic c') = bpf_loader_deprecated) = deprecated) as ->.
  { destruct Hv as (flags & _ & ->). done. }
  unfold layout, parameters_bytes. set (pre := le_split 8 (len (map (item ic) (positions ic)))).
  assert (len pre = 8) as Hpre by apply u64_bytes_len. rewrite <- Hpre.
  destruct deprecated.
  - destruct (deserialize_loop ic lamports0 data0 0 _ _ (positions ic)
      (unaligned_reader A HA stricter direct lamports0 data0) (position_lt ic) c' pre
      (le_split 8 (len (ic_instruction_data ic)) ++ ic_instruction_data ic ++ account_key_ (program_fields ic c)) Hp)
      as (c2 & E2 & Hs2).
    exists c2. split; [|by eapply same_context_trans]. rewrite <- E2. do 4 f_equal. apply map_ext. intros a.
    symmetry. by apply block_same.
  - destruct (deserialize_loop ic lamports0 data0 7 _ _ (positions ic)
      (aligned_reader A HA stricter direct lamports0 data0) (position_lt ic) c' pre
      (le_split 8 (len (ic_instruction_data ic)) ++ ic_instruction_data ic ++ account_key_ (program_fields ic c)) Hp)
      as (c2 & E2 & Hs2).
    exists c2. split; [|by eapply same_context_trans]. rewrite <- E2. do 4 f_equal. apply map_ext. intros a.
    symmetry. by apply block_same.
Qed.

Lemma parameters_round_trip_witness : exists c' mem regions metadata data_addr c'',
  serialize_parameters 8 (fun i => 65536 * i) (key_of 50) true false 4096 example_params example_new =
    Some (c', Ok (mem, regions, metadata, data_addr)) /\
  deserialize_parameters 8 true false (key_of 50) example_params (mem_bytes mem) metadata c' = (c'', Ok tt).
Proof.
  destruct (serialize_parameters_ok 8 (fun i => 65536 * i) (key_of 50) true false 4096
    (initial_lamports example_accounts) (initial_data example_accounts) example_params example_new)
    as (c' & [[[mem regions] metadata] off] & E & _).
  - split; vm_compute; [reflexivity|discriminate].
  - apply example_new_ok.
  - repeat constructor.
  - repeat constructor.
  - apply example_params_ok.
  - destruct (parameters_round_trip 8 (fun i => 65536 * i) (key_of 50) true false 4096
      (initial_lamports example_accounts) (initial_data example_accounts) example_params example_new
      c' mem regions metadata off) as (c'' & E' & _).
    + split; vm_compute; [reflexivity|discriminate].
    + apply example_new_ok.
    + repeat constructor.
    + repeat constructor.
    + apply example_params_ok.
    + exact E.
    + exists c', mem, regions, metadata, off, c''. split; [exact E|exact E'].
Defined.
