(* ===== verification/Runtime.v ===== *)
(** Provisioning and execution of a program (agave/program-runtime/src/vm.rs): the cost of the
    heap, the memory mapping of the machine, the placement of the forbidden sysvar bytes in guest
    memory, and [execute], which serialises the parameters, runs the program on a watched machine,
    collects the forbidden accesses and deserialises the parameters. Also the pool of stacks and
    heaps (agave/program-runtime/src/mem_pool.rs).

    What comes from the process is a parameter: the addresses of the buffers, the host memory, and
    the accounts as they are found in host memory after the program has run ([accounts_in_memory];
    with direct mapping a program writes to the payloads themselves). Measuring and logging are
    left out. *)

From Stdlib Require Import ZArith Lia Bool.
From stdpp Require Import strings.
From S2P Require Import Prelude.
From S2P Require Import SbpfTypes.
From S2P Require Import Ebpf.
From S2P Require Import Tracker.
From S2P Require Import MemoryRegion.
From S2P Require Import Mapping.
From S2P Require Import Vm.
From S2P Require Import Interp.
From S2P Require Import TxAccounts.
From S2P Require Import TxContext.
From S2P Require Import InvokeContext.
From S2P Require Import Serialize.

#[local] Open Scope Z_scope.

(** ** The memory pool *)

(** [Pool]: slots and the number of filled ones. *)
Record Pool := mkPool { items : list (option AlignedMemory); next_empty : Z }.

Definition pool_new (l : list AlignedMemory) : Pool := mkPool (map Some l) (len l).

(** [get] takes the item out of its slot. *)
Definition pool_get (p : Pool) : Pool * option AlignedMemory :=
  if next_empty p =? 0 then (p, None)
  else
    let i := saturating_sub (next_empty p) 1 in
    match items p !! Z.to_nat i with
    | Some item => (mkPool (<[Z.to_nat i := None]> (items p)) i, item)
    | None => (mkPool (items p) i, None)
    end.

(** [reset] fills the memory with zeros. *)
Definition reset_memory (m : AlignedMemory) : AlignedMemory :=
  mkAlignedMemory (mem_ptr m) (replicate (length (mem_bytes m)) 0) (mem_capacity m) (zero_up_to_max_len m).

Definition pool_put (p : Pool) (value : AlignedMemory) : Pool * bool :=
  match items p !! Z.to_nat (next_empty p) with
  | Some _ =>
      (mkPool (<[Z.to_nat (next_empty p) := Some (reset_memory value)]> (items p))
         (saturating_add (next_empty p) 1), true)
  | None => (p, false)
  end.

(** Limits of the execution budget. *)
Definition MAX_CALL_DEPTH : Z := 64.
Definition STACK_FRAME_SIZE : Z := 4096.
Definition MAX_HEAP_FRAME_BYTES : Z := 256 * 1024.

Record VmMemoryPool := mkVmMemoryPool { pool_stack : Pool; pool_heap : Pool }.

(** The pointers of the allocations are parameters, one for each slot. *)
Definition memory_pool_new (stack_ptrs heap_ptrs : list Z) : VmMemoryPool :=
  mkVmMemoryPool (pool_new (map (fun p => zero_filled p (STACK_FRAME_SIZE * MAX_CALL_DEPTH)) stack_ptrs))
    (pool_new (map (fun p => zero_filled p MAX_HEAP_FRAME_BYTES) heap_ptrs)).

(** [get_stack] and [get_heap]: a new allocation, at [ptr], when the pool is empty. *)
Definition get_stack (p : VmMemoryPool) (ptr size : Z) : VmMemoryPool * AlignedMemory :=
  let '(s, m) := pool_get (pool_stack p) in
  (mkVmMemoryPool s (pool_heap p), default (zero_filled ptr size) m).
Definition put_stack (p : VmMemoryPool) (stack : AlignedMemory) : VmMemoryPool * bool :=
  let '(s, b) := pool_put (pool_stack p) stack in (mkVmMemoryPool s (pool_heap p), b).
Definition get_heap (p : VmMemoryPool) (ptr heap_size : Z) : VmMemoryPool * AlignedMemory :=
  let '(h, m) := pool_get (pool_heap p) in
  (mkVmMemoryPool (pool_stack p) h, default (zero_filled ptr MAX_HEAP_FRAME_BYTES) m).
Definition put_heap (p : VmMemoryPool) (heap : AlignedMemory) : VmMemoryPool * bool :=
  let '(h, b) := pool_put (pool_heap p) heap in (mkVmMemoryPool (pool_stack p) h, b).

(** ** Provisioning *)

Definition calculate_heap_cost (heap_size heap_cost : Z) : Z :=
  let KIBIBYTE := 1024 in
  let PAGE_SIZE_KB := 32 in
  let rounded_heap_size :=
    saturating_add heap_size (saturating_sub (saturating_mul PAGE_SIZE_KB KIBIBYTE) 1) in
  saturating_mul (saturating_sub (rounded_heap_size / saturating_mul PAGE_SIZE_KB KIBIBYTE) 1) heap_cost.

(** [get_ro_region], for read-only bytes at [ro_ptr]. *)
Definition get_ro_region {C} (ro_ptr : Z) (ex : Executable C) : MemoryRegion :=
  let offset := match ro_section ex with Owned offset _ => offset | Borrowed offset _ => offset end in
  new_readonly ro_ptr (len (get_ro_section ex)) offset.

Definition create_memory_mapping {C} (empty_slice ro_ptr : Z) (ex : Executable C)
    (stack_ptr stack_len heap_ptr heap_len : Z) (additional_regions : list MemoryRegion)
    (handler : AccessViolationHandler) : option (Result MemoryMapping EbpfError) :=
  let! config := get_config ex in
  let v := sbpf_version ex in
  let regions :=
    [ get_ro_region ro_ptr ex;
      new_writable_gapped stack_ptr stack_len MM_STACK_START
        (if stack_frame_gaps v && enable_stack_frame_gaps config then stack_frame_size config else 0);
      new_writable heap_ptr heap_len MM_HEAP_START ] ++ additional_regions in
  Some (mapping_new_with_access_violation_handler empty_slice regions config v handler).

(** The errors that [execute] boxes. *)
Inductive DynError :=
| DynInstruction (e : InstructionError)
| DynEbpf (e : EbpfError)
| DynBox (e : BoxError).

(** [create_vm]; the first error of its steps. *)
Definition create_vm (empty_slice ro_ptr : Z) (ex : Executable InvokeContext)
    (regions : list MemoryRegion) (metadata : list SerializedAccountMetadata) (ic : InvokeContext)
    (stack_ptr stack_len heap_ptr heap_len : Z) (host : HostMemory) (handler : AccessViolationHandler)
    : option (InvokeContext * Result (EbpfVm InvokeContext) DynError) :=
  let! config := get_config ex in
  let! mapping := create_memory_mapping empty_slice ro_ptr ex stack_ptr stack_len heap_ptr heap_len regions handler in
  match mapping with
  | Err e => Some (ic, Err (DynEbpf e))
  | Ok m =>
      match set_syscall_context ic (mkSyscallContext (BpfAllocator_new heap_len) metadata) with
      | (ic, Err e) => Some (ic, Err (DynInstruction e))
      | (ic, Ok _) => Some (ic, Ok (vm_new config (sbpf_version ex) ic m host stack_len))
      end
  end.

(** ** Forbidden ranges *)

(** The guest ranges of the accounts, for error messages. *)
Definition account_region_addrs (is_loader_deprecated : bool) (metadata : list SerializedAccountMetadata)
    : list Range :=
  map (fun m =>
    mkRange (vm_data_addr m)
      (saturating_add (saturating_add (vm_data_addr m) (original_data_len m))
         (if negb is_loader_deprecated then MAX_PERMITTED_DATA_INCREASE else 0))) metadata.

(** The loop over the instruction accounts stops at the first one that is the sysvar. *)
Fixpoint find_sysvar (instructions_sysvar_id : Pubkey) (c : TransactionContext) (ic : InstructionContext)
    (metadata : list SerializedAccountMetadata) (indexes : list Z) : option Z :=
  match indexes with
  | [] => None
  | i :: indexes =>
      match get_index_of_instruction_account_in_transaction ic i with
      | Ok tx_idx =>
          match get_key_of_account_at_index c tx_idx with
          | Ok key =>
              if bool_decide (key = instructions_sysvar_id)
              then option_map vm_data_addr (metadata !! Z.to_nat i)
              else find_sysvar instructions_sysvar_id c ic metadata indexes
          | Err _ => find_sysvar instructions_sysvar_id c ic metadata indexes
          end
      | Err _ => find_sysvar instructions_sysvar_id c ic metadata indexes
      end
  end.

Definition forbidden_vm_ranges (instructions_sysvar_id : Pubkey) (ranges : list Range)
    (c : TransactionContext) (ic : InstructionContext) (metadata : list SerializedAccountMetadata)
    : list Range :=
  if negb (is_nil ranges) then
    match find_sysvar instructions_sysvar_id c ic metadata
            (seqZ 0 (get_number_of_instruction_accounts ic)) with
    | Some base_addr =>
        map (fun r => mkRange (wrapping_add base_addr (r_start r)) (wrapping_add base_addr (r_end r))) ranges
    | None => []
    end
  else [].

(** ** Errors *)

(** The features of the feature set that [execute] looks at. *)
Record FeatureSet := mkFeatureSet {
  stricter_abi_and_runtime_constraints : bool;
  account_data_direct_mapping : bool;
  provide_instruction_data_offset_in_vm_r2 : bool;
  deplete_cu_meter_on_vm_failure : bool
}.

(** What [execute] runs in: features and budget; ids and constants of other crates, and the
    conversion of a program status to an error; and the process, with the pointers of the empty
    slice, of the read-only section and of the parameters, of a new stack and heap if the pool is
    empty, of the payloads of the accounts, and the memory behind them. *)
Record Environment := mkEnvironment {
  features : FeatureSet;
  heap_size : Z;
  heap_cost : Z;
  bpf_loader_deprecated : Pubkey;
  instructions_sysvar_id : Pubkey;
  SUCCESS : Z;
  BPF_ALIGN_OF_U128 : Z;
  status_error : Z -> InstructionError;
  empty_slice : Z;
  ro_ptr : Z;
  ptr : Z;
  stack_ptr : Z;
  heap_ptr : Z;
  payload_ptr : Z -> Z;
  host : HostMemory;
  handler : AccessViolationHandler;
  (** The accounts as found in host memory after the run. *)
  accounts_in_memory : HostMemory -> TransactionContext -> TransactionContext;
  (** What the executions nested in a run make of the pool of the thread. *)
  pool_after_run : VmMemoryPool -> VmMemoryPool
}.

Section execute.
Variable env : Environment.
Abbreviation stricter := (stricter_abi_and_runtime_constraints (features env)).
Abbreviation direct := (account_data_direct_mapping (features env)).

Fixpoint find_range (ranges : list Range) (index : Z) (vm_addr : Z) : option (Z * Range) :=
  match ranges with
  | [] => None
  | r :: ranges => if range_contains r vm_addr then Some (index, r) else find_range ranges (index + 1) vm_addr
  end.

(** An access violation in the address range of an account becomes an error of the account. *)
Definition account_error (ty : AccessType) (changed : Result unit InstructionError) : InstructionError :=
  match ty with
  | Store => match changed with Err err => err | Ok _ => InvalidRealloc end
  | Load => match changed with Err _ => AccountDataTooSmall | Ok _ => InvalidRealloc end
  end.

Definition unbox_ebpf (error : EbpfError) : EbpfError :=
  match error with SyscallError (BoxEbpfError e) => e | _ => error end.

(** The error of a failed program; [Err] returns from [execute] at once. *)
Definition explain_error (c : TransactionContext) (addrs : list Range) (error : EbpfError)
    : Result DynError InstructionError :=
  let plain (e : EbpfError) := match e with SyscallError err => DynBox err | _ => DynEbpf e end in
  if negb stricter then Ok (plain error)
  else
    let error := unbox_ebpf error in
    match error with
    | AccessViolation ty vm_addr n _ =>
        match find_range addrs 0 vm_addr with
        | None => Ok (plain error)
        | Some (index, range) =>
            let? ic := get_current_instruction_context c in
            let? account := (try_borrow_instruction_account ic index c).2 in
            if saturating_add vm_addr n <=? r_end range
            then Ok (DynInstruction (account_error ty (can_data_be_changed account c)))
            else Ok (plain error)
        end
    | _ => Ok (plain error)
    end.

(** What follows the run of the machine, up to deserialisation. *)
Definition finish_execution (ic : InvokeContext) (addrs : list Range) (result : ProgramResult)
    : InvokeContext * Result unit DynError :=
  match result with
  | Ok status => (ic, if negb (status =? (SUCCESS env)) then Err (DynInstruction (status_error env status)) else Ok tt)
  | Err error =>
      let ic :=
        if deplete_cu_meter_on_vm_failure (features env)
           && negb (match error with SyscallError _ => true | _ => false end)
        then consume ic (get_remaining ic) else ic in
      match explain_error (transaction_context ic) addrs error with
      | Err e => (ic, Err (DynInstruction e))
      | Ok e => (ic, Err e)
      end
  end.

(** Collecting the forbidden accesses. *)
Definition collect_accesses (machine : EbpfVm InvokeContext) : EbpfVm InvokeContext :=
  if has_forbidden_memory_accesses machine
  then
    let ic := context_object_pointer machine in
    set_context
      (set_forbidden_memory_accesses
         (forbidden_memory_accesses ic ++ get_forbidden_memory_accesses machine) ic) machine
  else machine.

(** The machine at the start: watched ranges and arguments. *)
Definition prepare_machine (ranges : list Range) (data_offset : Z) (machine : EbpfVm InvokeContext)
    : EbpfVm InvokeContext :=
  let machine := if negb (is_nil ranges) then add_watched_memory_ranges machine ranges else machine in
  let machine := set_registers (<[1%nat := MM_INPUT_START]> (registers machine)) machine in
  if provide_instruction_data_offset_in_vm_r2 (features env)
  then set_registers (<[2%nat := data_offset]> (registers machine)) machine else machine.

(** ** Execution *)

(** A buffer in host memory. *)
Definition place (at_ : Z) (bs : list Z) (m : HostMemory) : HostMemory :=
  list_to_map (zip (seqZ at_ (len bs)) bs) ∪ m.

(** The macro [create_vm!]: the heap is paid for, then stack and heap are taken from the pool. *)
Definition create_vm_macro (ex : Executable InvokeContext) (mem : AlignedMemory)
    (regions : list MemoryRegion) (metadata : list SerializedAccountMetadata)
    (pool : VmMemoryPool) (ic : InvokeContext)
    : option (VmMemoryPool * InvokeContext *
              Result (EbpfVm InvokeContext * AlignedMemory * AlignedMemory) DynError) :=
  let! config := get_config ex in
  match consume_checked ic (calculate_heap_cost (heap_size env) (heap_cost env)) with
  | (ic, Err e) => Some (pool, ic, Err (DynInstruction e))
  | (ic, Ok _) =>
      let '(pool, stack) := get_stack pool (stack_ptr env) (stack_size config) in
      let '(pool, heap) := get_heap pool (heap_ptr env) (heap_size env) in
      if (mem_len stack <? stack_size config) || (mem_len heap <? (heap_size env)) then None
      else
        let host :=
          place (mem_ptr stack) (mem_bytes stack) (place (mem_ptr heap) (mem_bytes heap)
            (place (mem_ptr mem) (mem_bytes mem) (host env))) in
        let! (ic, created) :=
          create_vm (empty_slice env) (ro_ptr env) ex regions metadata ic (mem_ptr stack) (stack_size config)
            (mem_ptr heap) (heap_size env) host (handler env) in
        Some (pool, ic, match created with Ok vm => Ok (vm, stack, heap) | Err e => Err e end)
  end.

(** What [execute] prepares: the context and the machine before the run, stack and heap, the
    addresses of the accounts, the forbidden ranges, the parameters and the address of the
    instruction data. *)
Record Provisioned := mkProvisioned {
  p_machine : EbpfVm InvokeContext;
  p_stack : AlignedMemory;
  p_heap : AlignedMemory;
  p_addrs : list Range;
  p_ranges : list Range;
  p_mem : AlignedMemory;
  p_offset : Z
}.

Definition provision (ex : Executable InvokeContext) (pool : VmMemoryPool) (ic : InvokeContext)
    : option (VmMemoryPool * InvokeContext * Result Provisioned InstructionError) :=
  let c := transaction_context ic in
  match get_current_instruction_context c with Err e => Some (pool, ic, Err e) | Ok instruction =>
  match get_program_key c instruction with Err e => Some (pool, ic, Err e) | Ok _ =>
  match get_program_owner c instruction with Err e => Some (pool, ic, Err e) | Ok owner =>
  let is_loader_deprecated := bool_decide (owner = (bpf_loader_deprecated env)) in
  let! (c, serialized) :=
    serialize_parameters (BPF_ALIGN_OF_U128 env) (payload_ptr env) (bpf_loader_deprecated env) stricter direct (ptr env) instruction c in
  let ic := set_transaction_context c ic in
  match serialized with Err e => Some (pool, ic, Err e) | Ok (mem, regions, metadata, data_offset) =>
  let addrs := account_region_addrs is_loader_deprecated metadata in
  let ranges :=
    forbidden_vm_ranges (instructions_sysvar_id env) (forbidden_sysvar_data_ranges ic) c instruction metadata in
  let! (pool, ic, created) := create_vm_macro ex mem regions metadata pool ic in
  match created with
  | Err _ => Some (pool, ic, Err ProgramEnvironmentSetupFailure)
  | Ok (machine, stack, heap) =>
      Some (pool, ic, Ok (mkProvisioned machine stack heap addrs ranges mem data_offset))
  end
  end end end end.

(** Deserialisation of the parameters. *)
Definition deserialize_after (ic : InvokeContext) (parameter_bytes : list Z)
    : InvokeContext * Result unit DynError :=
  match get_current_instruction_context (transaction_context ic), get_syscall_context ic with
  | Err e, _ | Ok _, Err e => (ic, Err (DynInstruction e))
  | Ok instruction, Ok sc =>
      let '(c, r) :=
        deserialize_parameters (BPF_ALIGN_OF_U128 env) stricter direct (bpf_loader_deprecated env) instruction
          parameter_bytes (accounts_metadata sc) (transaction_context ic) in
      (set_transaction_context c ic, map_err DynInstruction r)
  end.

(** What follows the run: stack and heap go back to the pool, the result is explained and, on
    success, the parameters are deserialised. *)
Definition after_run (p : Provisioned) (pool : VmMemoryPool) (result : ProgramResult)
    (machine : EbpfVm InvokeContext) : option (VmMemoryPool * InvokeContext * Result unit DynError) :=
  let machine := collect_accesses machine in
  let ic := context_object_pointer machine in
  let ic := set_transaction_context (accounts_in_memory env (host_memory machine) (transaction_context ic)) ic in
  let pool := (put_stack (pool_after_run env pool) (p_stack p)).1 in
  let pool := (put_heap pool (p_heap p)).1 in
  let ic := insert_register_trace ic (register_trace machine) in
  match finish_execution ic (p_addrs p) result with
  | (ic, Err e) => Some (pool, ic, Err e)
  | (ic, Ok _) =>
      let! bytes := host_read (host_memory machine) (mem_ptr (p_mem p)) (length (mem_bytes (p_mem p))) in
      let '(ic, r) := deserialize_after ic bytes in
      Some (pool, ic, r)
  end.

(** [execute]: [None] is a panic, [Some None] an execution that needs more fuel. *)
Definition execute (fuel : nat) (ex : Executable InvokeContext) (pool : VmMemoryPool) (ic : InvokeContext)
    : option (option (VmMemoryPool * InvokeContext * Result unit DynError)) :=
  let! (pool, ic, provisioned) := provision ex pool ic in
  match provisioned with
  | Err e => Some (Some (pool, ic, Err (DynInstruction e)))
  | Ok p =>
      let! run := execute_program fuel ex (prepare_machine (p_ranges p) (p_offset p) (p_machine p)) in
      match run with
      | None => Some None
      | Some (_, result, machine) => option_map Some (after_run p pool result machine)
      end
  end.

End execute.
