(* ===== verification/RuntimeSafe.v ===== *)
(** Theorems about provisioning and execution ([Runtime]): the pool hands out zeroed memory that
    nobody else uses, the cost of the heap, where the forbidden bytes are in guest memory, and
    which accesses [execute] reports. *)

From Stdlib Require Import ZArith Lia Bool.
From stdpp Require Import strings.
From S2P Require Import Prelude.
From S2P Require Import SbpfTypes.
From S2P Require Import Ebpf.
From S2P Require Import Tracker.
From S2P Require Import MemoryRegion.
From S2P Require Import Eytzinger.
From S2P Require Import Mapping.
From S2P Require Import MappingSafe.
From S2P Require Import Vm.
From S2P Require Import Interp.
From S2P Require Import InterpSafe.
From S2P Require Import Meter.
From S2P Require Import Exec.
From S2P Require Import Detect.
From S2P Require Import TxAccounts.
From S2P Require Import TxContext.
From S2P Require Import TxSafe.
From S2P Require Import InvokeContext.
From S2P Require Import Serialize.
From S2P Require Import SerializeSafe.
From S2P Require Import SerializeParams.
From S2P Require Import RoundTrip.
From S2P Require Import Runtime.

#[local] Open Scope Z_scope.

(** ** The memory pool *)

Definition zeroed (m : AlignedMemory) : Prop := Forall (eq 0) (mem_bytes m).

(** The filled slots come first and hold zeroed memory of the given size. *)
Record pool_ok (size : Z) (p : Pool) : Prop := {
  pool_next : 0 <= next_empty p <= len (items p);
  pool_filled (i : nat) : Z.of_nat i < next_empty p ->
    exists m, items p !! i = Some (Some m) /\ zeroed m /\ mem_len m = size;
  pool_size : len (items p) < 2 ^ 63
}.

(** The pooled memories. *)
Definition pooled (p : Pool) : list AlignedMemory :=
  omap id (take (Z.to_nat (next_empty p)) (items p)).

Lemma reset_zeroed m : zeroed (reset_memory m) /\ mem_len (reset_memory m) = mem_len m /\
  mem_ptr (reset_memory m) = mem_ptr m.
Proof.
  unfold zeroed, reset_memory, mem_len, len. cbn. rewrite length_replicate. split; [|done].
  apply Forall_replicate. done.
Qed.

Lemma zero_filled_zeroed ptr size : zeroed (zero_filled ptr size).
Proof. apply Forall_replicate. done. Qed.

Lemma pooled_new l : pooled (pool_new l) = l.
Proof.
  unfold pooled, pool_new, len. cbn. rewrite Nat2Z.id, <- (length_map Some l), firstn_all.
  induction l as [|m l IH]; [done|]. cbn in *. by f_equal.
Qed.

Lemma pool_new_ok size l :
  Forall (fun m => zeroed m /\ mem_len m = size) l -> len l < 2 ^ 63 -> pool_ok size (pool_new l).
Proof.
  intros Hl Hn. split; cbn.
  - unfold len. rewrite length_map. lia.
  - intros i Hi. destruct (lookup_lt_is_Some_2 l i) as [m Hm]; [unfold len in Hi; lia|].
    exists m. change (map Some l) with (Some <$> l). rewrite list_lookup_fmap, Hm. split; [done|].
    by apply (Forall_lookup_1 _ _ _ _ Hl Hm).
  - unfold len in *. by rewrite length_map.
Qed.

(** A pool gives its last memory, or has none. *)
Lemma pool_get_ok size p : pool_ok size p ->
  match pool_get p with
  | (p', Some m) => pool_ok size p' /\ zeroed m /\ mem_len m = size /\ pooled p = pooled p' ++ [m]
  | (p', None) => p' = p /\ pooled p = []
  end.
Proof.
  intros [Hn Hf Hs]. unfold pool_get. destruct (next_empty p =? 0) eqn:E.
  { bool_to_prop. split; [done|]. unfold pooled. by rewrite E. }
  bool_to_prop. assert (saturating_sub (next_empty p) 1 = next_empty p - 1) as -> by (unfold saturating_sub; lia).
  destruct (Hf (Z.to_nat (next_empty p - 1))) as (m & Hm & Hz & Hl); [lia|]. rewrite Hm.
  split; [split; cbn [items next_empty]|split; [done|split; [done|]]].
  - unfold len in *. rewrite length_insert. lia.
  - intros i Hi. rewrite list_lookup_insert_ne by lia. apply Hf. lia.
  - unfold len in *. by rewrite length_insert.
  - unfold pooled. cbn [items next_empty].
    replace (Z.to_nat (next_empty p)) with (S (Z.to_nat (next_empty p - 1))) by lia.
    rewrite (take_S_r _ _ _ Hm), omap_app, take_insert_ge by lia. done.
Qed.

(** A pool takes memory back, or is full. *)
Lemma pool_put_ok size p m : pool_ok size p -> mem_len m = size ->
  let p' := (pool_put p m).1 in
  pool_ok size p' /\ (pooled p' = pooled p ++ [reset_memory m] \/ p' = p).
Proof.
  intros [Hn Hf Hs] Hl. unfold pool_put. destruct (items p !! Z.to_nat (next_empty p)) as [x|] eqn:E; cbn; [|split; [done|by right]].
  apply lookup_lt_Some in E as Hlt. destruct (reset_zeroed m) as (R1 & R2 & _).
  assert (saturating_add (next_empty p) 1 = next_empty p + 1) as ->.
  { unfold saturating_add, len in *. lia. }
  split; [split; cbn [items next_empty]|left].
  - unfold len in *. rewrite length_insert. lia.
  - intros i Hi. destruct (decide (i = Z.to_nat (next_empty p))) as [->|Hne].
    + exists (reset_memory m). rewrite list_lookup_insert_eq by done. split; [done|]. split; [done|]. by rewrite R2.
    + rewrite list_lookup_insert_ne by done. apply Hf. lia.
  - unfold len in *. by rewrite length_insert.
  - unfold pooled. cbn [items next_empty].
    replace (Z.to_nat (next_empty p + 1)) with (S (Z.to_nat (next_empty p))) by lia.
    erewrite take_S_r by by apply list_lookup_insert_eq. by rewrite omap_app, take_insert_ge.
Qed.

(** The pool of a thread with the stacks and heaps in use. Memory is given back with any contents,
    and its allocation is not moved. New memory does not overlap with memory that is alive. *)
Record PoolState := mkPoolState { ps_pool : VmMemoryPool; used_stacks : list AlignedMemory; used_heaps : list AlignedMemory }.

Definition alive (s : PoolState) : list AlignedMemory :=
  pooled (pool_stack (ps_pool s)) ++ used_stacks s ++ pooled (pool_heap (ps_pool s)) ++ used_heaps s.

Definition pointers (l : list AlignedMemory) : list Z := map mem_ptr l.

Abbreviation STACK_SIZE := (STACK_FRAME_SIZE * MAX_CALL_DEPTH).

Inductive pool_step : PoolState -> PoolState -> Prop :=
| step_get_stack s ptr p m :
    ptr ∉ pointers (alive s) -> get_stack (ps_pool s) ptr STACK_SIZE = (p, m) ->
    pool_step s (mkPoolState p (m :: used_stacks s) (used_heaps s))
| step_get_heap s ptr size p m :
    ptr ∉ pointers (alive s) -> get_heap (ps_pool s) ptr size = (p, m) ->
    pool_step s (mkPoolState p (used_stacks s) (m :: used_heaps s))
| step_put_stack s l1 m m' l2 :
    used_stacks s = l1 ++ m :: l2 -> mem_ptr m' = mem_ptr m -> mem_len m' = mem_len m ->
    pool_step s (mkPoolState (put_stack (ps_pool s) m').1 (l1 ++ l2) (used_heaps s))
| step_put_heap s l1 m m' l2 :
    used_heaps s = l1 ++ m :: l2 -> mem_ptr m' = mem_ptr m -> mem_len m' = mem_len m ->
    pool_step s (mkPoolState (put_heap (ps_pool s) m').1 (used_stacks s) (l1 ++ l2)).

Record pool_state_ok (s : PoolState) : Prop := {
  ps_stack : pool_ok STACK_SIZE (pool_stack (ps_pool s));
  ps_heap : pool_ok MAX_HEAP_FRAME_BYTES (pool_heap (ps_pool s));
  ps_stacks : Forall (fun m => mem_len m = STACK_SIZE) (used_stacks s);
  ps_heaps : Forall (fun m => mem_len m = MAX_HEAP_FRAME_BYTES) (used_heaps s);
  ps_distinct : NoDup (pointers (alive s))
}.

(** One kind of memory: the rest of the alive memory is [rest]. *)
Lemma get_or_alloc_ok size p used rest ptr :
  0 <= size -> pool_ok size p -> Forall (fun m => mem_len m = size) used ->
  NoDup (pointers (pooled p ++ used ++ rest)) -> ptr ∉ pointers (pooled p ++ used ++ rest) ->
  let m := default (zero_filled ptr size) (pool_get p).2 in
  pool_ok size (pool_get p).1 /\ zeroed m /\ mem_len m = size /\
  NoDup (pointers (pooled (pool_get p).1 ++ (m :: used) ++ rest)).
Proof.
  intros Hs Hp Hu Hd Hf m. pose proof (pool_get_ok size p Hp) as H. subst m.
  destruct (pool_get p) as [p' [m|]]; cbn [fst snd default].
  - destruct H as (H1 & H2 & H3 & H4). do 3 (split; [done|]). rewrite H4, <- app_assoc in Hd. done.
  - destruct H as [-> H]. split; [done|]. split; [apply zero_filled_zeroed|]. split.
    + unfold mem_len, zero_filled, len. cbn. rewrite length_replicate. lia.
    + rewrite H in *. cbn in *. by constructor.
Qed.

Lemma give_back_ok size p used l1 m m' l2 rest :
  pool_ok size p -> used = l1 ++ m :: l2 -> Forall (fun m => mem_len m = size) used ->
  mem_ptr m' = mem_ptr m -> mem_len m' = mem_len m -> NoDup (pointers (pooled p ++ used ++ rest)) ->
  pool_ok size (pool_put p m').1 /\ Forall (fun m => mem_len m = size) (l1 ++ l2) /\
  NoDup (pointers (pooled (pool_put p m').1 ++ (l1 ++ l2) ++ rest)).
Proof.
  intros Hp -> Hu Ep El Hd. apply Forall_app in Hu as [Hu1 Hu2]. apply Forall_cons in Hu2 as [Hm Hu2].
  destruct (pool_put_ok size p m' Hp ltac:(congruence)) as [H1 H2]. split; [done|].
  split; [by apply Forall_app|].
  assert (pooled p ++ (l1 ++ m :: l2) ++ rest ≡ₚ m :: pooled p ++ (l1 ++ l2) ++ rest) as Hperm.
  { rewrite <- !app_assoc. cbn. by rewrite <- !Permutation_middle. }
  unfold pointers in *. rewrite Hperm in Hd. cbn [map] in Hd.
  destruct H2 as [->| ->]; [|by apply NoDup_cons in Hd as [_ Hd]].
  destruct (reset_zeroed m') as (_ & _ & R). rewrite <- app_assoc. cbn.
  rewrite <- Permutation_middle. cbn [map]. rewrite R, Ep. done.
Qed.

Lemma alive_stacks s :
  alive s = pooled (pool_stack (ps_pool s)) ++ used_stacks s ++ (pooled (pool_heap (ps_pool s)) ++ used_heaps s).
Proof. done. Qed.

Lemma alive_heaps s :
  alive s ≡ₚ pooled (pool_heap (ps_pool s)) ++ used_heaps s ++ (pooled (pool_stack (ps_pool s)) ++ used_stacks s).
Proof. unfold alive. rewrite !app_assoc. rewrite <- app_assoc. by rewrite Permutation_app_comm, app_assoc. Qed.

(** A step keeps the invariant, and the memory it hands out is zeroed. *)
Lemma pool_step_ok s s' : pool_state_ok s -> pool_step s s' -> pool_state_ok s'.
Proof.
  intros [H1 H2 H3 H4 H5] Hs. pose proof H5 as H6. unfold pointers in H6. rewrite alive_heaps in H6.
  destruct Hs as [s ptr p m Hf E|s ptr size p m Hf E|s l1 m m' l2 E Ep El|s l1 m m' l2 E Ep El].
  - unfold get_stack in E.
    destruct (get_or_alloc_ok STACK_SIZE _ _ _ ptr ltac:(done) H1 H3 H5 Hf) as (G1 & G2 & G3 & G4).
    destruct (pool_get _) as [p' o]. injection E as <- <-. split; cbn; try done. by constructor.
  - unfold get_heap in E. unfold pointers in Hf. rewrite alive_heaps in Hf.
    destruct (get_or_alloc_ok MAX_HEAP_FRAME_BYTES _ _ _ ptr ltac:(done) H2 H4 H6 Hf) as (G1 & G2 & G3 & G4).
    destruct (pool_get _) as [p' o]. injection E as <- <-. split; cbn; try done; [by constructor|].
    unfold pointers. by rewrite alive_heaps.
  - destruct (give_back_ok STACK_SIZE _ _ l1 m m' l2 _ H1 E H3 Ep El H5) as (G1 & G2 & G3).
    unfold put_stack. destruct (pool_put _ _) as [p' b]. by split.
  - destruct (give_back_ok MAX_HEAP_FRAME_BYTES _ _ l1 m m' l2 _ H2 E H4 Ep El H6) as (G1 & G2 & G3).
    unfold put_heap. destruct (pool_put _ _) as [p' b]. split; try done.
    unfold pointers. by rewrite alive_heaps.
Qed.

Lemma memory_pool_new_ok stack_ptrs heap_ptrs :
  len stack_ptrs < 2 ^ 63 -> len heap_ptrs < 2 ^ 63 -> NoDup (stack_ptrs ++ heap_ptrs) ->
  pool_state_ok (mkPoolState (memory_pool_new stack_ptrs heap_ptrs) [] []).
Proof.
  intros Hs Hh Hd.
  assert (forall n (l : list Z), 0 <= n ->
    Forall (fun m => zeroed m /\ mem_len m = n) (map (fun p => zero_filled p n) l)) as Hz.
  { intros n l Hn. apply Forall_map, Forall_true. intros p. split; [apply zero_filled_zeroed|].
    unfold mem_len, zero_filled, len. cbn. rewrite length_replicate. lia. }
  split; cbn [ps_pool used_stacks used_heaps memory_pool_new pool_stack pool_heap].
  - apply pool_new_ok; [by apply Hz|]. unfold len. by rewrite length_map.
  - apply pool_new_ok; [by apply Hz|]. unfold len. by rewrite length_map.
  - done.
  - done.
  - unfold alive, pointers, memory_pool_new. cbn [ps_pool used_stacks used_heaps pool_stack pool_heap].
    rewrite !pooled_new, app_nil_r, app_nil_l, map_app, !map_map. cbn [zero_filled mem_ptr]. by rewrite !map_id.
Qed.

Lemma unused_head a m b c d : NoDup (pointers (a ++ (m :: b) ++ (c ++ d))) -> mem_ptr m ∉ pointers (b ++ d).
Proof.
  unfold pointers. rewrite !map_app. cbn [map]. intros H. apply NoDup_app in H as (_ & _ & H).
  apply NoDup_app in H as (H1 & H2 & _). apply NoDup_cons in H1 as [H1 _].
  rewrite elem_of_app. intros [Hin|Hin]; [done|]. eapply H2; [apply list_elem_of_here|]. rewrite elem_of_app. auto.
Qed.

(** The memory pool. Whatever stacks and heaps a thread has taken from its pool and given back,
    in any order and with any contents, the stack and the heap that it takes next are filled with
    zeros, have the full size, and are not in use already: no program sees the memory of another
    one. *)
Theorem pool_memory_fresh (stack_ptrs heap_ptrs : list Z) (s : PoolState) (ptr heap_size : Z) :
  len stack_ptrs < 2 ^ 63 -> len heap_ptrs < 2 ^ 63 -> NoDup (stack_ptrs ++ heap_ptrs) ->
  rtc pool_step (mkPoolState (memory_pool_new stack_ptrs heap_ptrs) [] []) s ->
  ptr ∉ pointers (alive s) ->
  let stack := (get_stack (ps_pool s) ptr STACK_SIZE).2 in
  let heap := (get_heap (ps_pool s) ptr heap_size).2 in
  let in_use := pointers (used_stacks s ++ used_heaps s) in
  zeroed stack /\ mem_len stack = STACK_SIZE /\ mem_ptr stack ∉ in_use /\
  zeroed heap /\ mem_len heap = MAX_HEAP_FRAME_BYTES /\ mem_ptr heap ∉ in_use.
Proof.
  intros Hs Hh Hd Hr Hf.
  assert (pool_state_ok s) as [H1 H2 H3 H4 H5].
  { apply (rtc_ind_r pool_state_ok) in Hr; [done|by apply memory_pool_new_ok|].
    intros x y _ Hxy Hx. by eapply pool_step_ok. }
  pose proof H5 as H6. unfold pointers in H6. rewrite alive_heaps in H6.
  pose proof Hf as Hf'. unfold pointers in Hf'. rewrite alive_heaps in Hf'.
  destruct (get_or_alloc_ok STACK_SIZE _ _ _ ptr ltac:(done) H1 H3 H5 Hf) as (S1 & S2 & S3 & S4).
  destruct (get_or_alloc_ok MAX_HEAP_FRAME_BYTES _ _ _ ptr ltac:(done) H2 H4 H6 Hf') as (G1 & G2 & G3 & G4).
  unfold get_stack, get_heap. destruct (pool_get (pool_stack _)) as [ps os]. destruct (pool_get (pool_heap _)) as [ph oh].
  cbn [fst snd] in *. split; [done|]. split; [done|]. split; [|split; [done|split; [done|]]].
  - eapply unused_head. exact S4.
  - unfold pointers. rewrite map_app, Permutation_app_comm, <- map_app. eapply unused_head. exact G4.
Qed.

Lemma pool_memory_fresh_witness :
  let s := mkPoolState (memory_pool_new [4096; 8192] [65536]) [] [] in
  let '(p, m) := get_stack (ps_pool s) 0 STACK_SIZE in
  let s := mkPoolState p [m] [] in
  let m' := mkAlignedMemory (mem_ptr m) (replicate 262144 7) (mem_capacity m) true in
  let s := mkPoolState (put_stack p m').1 [] [] in
  zeroed (get_stack (ps_pool s) 0 STACK_SIZE).2.
Proof.
  intros s. destruct (get_stack (ps_pool s) 0 STACK_SIZE) as [p m] eqn:E. intros s1 m' s2.
  assert (p = (get_stack (ps_pool s) 0 STACK_SIZE).1) as Ep by by rewrite E.
  assert (m = (get_stack (ps_pool s) 0 STACK_SIZE).2) as Em by by rewrite E.
  refine (proj1 (pool_memory_fresh [4096; 8192] [65536] s2 0 0 _ _ _ _ _)).
  - vm_compute. reflexivity.
  - vm_compute. reflexivity.
  - apply (bool_decide_unpack (NoDup [4096; 8192; 65536])). vm_compute. exact I.
  - apply (rtc_l _ _ s1); [apply (step_get_stack s 0); [|exact E]|apply rtc_once].
    + subst s. unfold alive, memory_pool_new. cbn [ps_pool used_stacks used_heaps pool_stack pool_heap].
      rewrite !pooled_new. apply (bool_decide_unpack (0 ∉ [4096; 8192; 65536])). vm_compute. exact I.
    + apply (step_put_stack s1 [] m m' []); [reflexivity|reflexivity|]. subst m' m. vm_compute. reflexivity.
  - subst s2 m' p m. apply (bool_decide_unpack (0 ∉ _)). vm_compute. exact I.
Defined.

(** ** The cost of the heap *)

(** The cost of a heap is [heap_cost] for every page of 32 KiB it needs beyond the first,
    saturating at the largest [u64]: [pages] is the least number of pages that hold it. *)
Theorem heap_cost_pages (heap_size heap_cost pages : Z) :
  is_u32 heap_size -> is_u64 heap_cost ->
  heap_size <= 32768 * pages -> (forall n, 0 <= n -> heap_size <= 32768 * n -> pages <= n) -> 0 <= pages ->
  calculate_heap_cost heap_size heap_cost = Z.min (2 ^ 64 - 1) (Z.max 0 (pages - 1) * heap_cost).
Proof.
  intros Hs Hc Hp Hleast Hpos. unfold calculate_heap_cost. cbv zeta.
  change (saturating_mul 32 1024) with 32768. change (saturating_sub 32768 1) with 32767.
  assert (saturating_add heap_size 32767 = heap_size + 32767) as -> by (unfold saturating_add; int_lia).
  assert ((heap_size + 32767) / 32768 = pages) as ->.
  { specialize (Hleast ((heap_size + 32767) / 32768) ltac:(apply Z.div_pos; int_lia)
      ltac:(pose proof (Z.mod_pos_bound (heap_size + 32767) 32768); pose proof (Z.div_mod (heap_size + 32767) 32768); lia)).
    apply Z.le_antisymm; [|done]. assert ((heap_size + 32767) / 32768 < pages + 1); [|lia]. apply Z.div_lt_upper_bound; lia. }
  unfold saturating_mul. rewrite Z.min_comm. f_equal. f_equal. unfold saturating_sub. lia.
Qed.

Lemma heap_cost_pages_witness : calculate_heap_cost 65537 8 = 16.
Proof.
  rewrite (heap_cost_pages 65537 8 3).
  - reflexivity.
  - vm_compute. split; [discriminate|reflexivity].
  - vm_compute. split; [discriminate|reflexivity].
  - vm_compute. discriminate.
  - intros n Hn H. lia.
  - vm_compute. discriminate.
Defined.

(** ** Reported accesses *)

Lemma collected machine :
  forbidden_memory_accesses (context_object_pointer (collect_accesses machine)) =
  forbidden_memory_accesses (context_object_pointer machine) ++ get_forbidden_memory_accesses machine.
Proof.
  unfold collect_accesses, has_forbidden_memory_accesses, get_forbidden_memory_accesses.
  destruct (get_access_tracker _) as [t|]; [|by rewrite app_nil_r].
  unfold has_forbidden_accesses, get_forbidden_accesses. destruct (forbidden_accesses t) as [|l ls] eqn:E; cbn.
  - by rewrite app_nil_r.
  - unfold get_forbidden_memory_accesses, get_forbidden_accesses. done.
Qed.

Lemma finish_keeps env ic addrs result :
  forbidden_memory_accesses (finish_execution env ic addrs result).1 = forbidden_memory_accesses ic.
Proof.
  unfold finish_execution. destruct result as [status|e]; [done|].
  destruct (_ && _); destruct (explain_error _ _ _ _); done.
Qed.

Lemma deserialize_keeps env ic bs :
  forbidden_memory_accesses (deserialize_after env ic bs).1 = forbidden_memory_accesses ic.
Proof.
  unfold deserialize_after. destruct (get_current_instruction_context _); [|done].
  destruct (get_syscall_context _); [|done].   by destruct (deserialize_parameters _ _ _ _ _ _ _ _).
Qed.

(** What happens after the run does not touch the report. *)
Lemma after_run_report env p pool result machine pool' ic' r :
  after_run env p pool result machine = Some (pool', ic', r) ->
  forbidden_memory_accesses ic' =
    forbidden_memory_accesses (context_object_pointer machine) ++ get_forbidden_memory_accesses machine.
Proof.
  rewrite <- collected. unfold after_run. set (m := collect_accesses machine).
  set (ic1 := insert_register_trace _ _).
  assert (forbidden_memory_accesses ic1 = forbidden_memory_accesses (context_object_pointer m)) as <-.
  { subst ic1. unfold insert_register_trace. by destruct (is_nil _); [|destruct (get_current_instruction_context _)]. }
  pose proof (finish_keeps env ic1 (p_addrs p) result) as Hf. destruct (finish_execution env ic1 (p_addrs p) result) as [ic2 [u|e]].
  - destruct (host_read _ _ _) as [bs|]; [|done]. pose proof (deserialize_keeps env ic2 bs) as Hd.
    destruct (deserialize_after env ic2 bs) as [ic3 r3]. intros [= _ <- _]. cbn in Hd, Hf. congruence.
  - intros [= _ <- _]. exact Hf.
Qed.

Lemma forbidden_vm_ranges_u64 id ranges c ic metadata :
  Forall u64_range (forbidden_vm_ranges id ranges c ic metadata).
Proof.
  unfold forbidden_vm_ranges. destruct (negb _); [|done]. destruct (find_sysvar _ _ _ _ _) as [base|]; [|done].
  apply Forall_map, Forall_true. intros r. split; cbn; apply cast_u_range; lia.
Qed.

(** What a successful provision has done. *)
Lemma provision_inv env ex pool ic pool1 ic1 p :
  provision env ex pool ic = Some (pool1, ic1, Ok p) ->
  exists config instruction c mem regions metadata mapping ic0 host,
    get_config ex = Some config /\
    get_current_instruction_context (transaction_context ic) = Ok instruction /\
    serialize_parameters (BPF_ALIGN_OF_U128 env) (payload_ptr env) (bpf_loader_deprecated env)
      (stricter_abi_and_runtime_constraints (features env)) (account_data_direct_mapping (features env))
      (ptr env) instruction (transaction_context ic) = Some (c, Ok (mem, regions, metadata, p_offset p)) /\
    p_ranges p = forbidden_vm_ranges (instructions_sysvar_id env) (forbidden_sysvar_data_ranges ic) c instruction metadata /\
    p_mem p = mem /\ stack_size config <= mem_len (p_stack p) /\ heap_size env <= mem_len (p_heap p) /\
    create_memory_mapping (empty_slice env) (ro_ptr env) ex (mem_ptr (p_stack p)) (stack_size config)
      (mem_ptr (p_heap p)) (heap_size env) regions (handler env) = Some (Ok mapping) /\
    host = place (mem_ptr (p_stack p)) (mem_bytes (p_stack p)) (place (mem_ptr (p_heap p)) (mem_bytes (p_heap p))
      (place (mem_ptr mem) (mem_bytes mem) (Runtime.host env))) /\
    p_machine p = vm_new config (sbpf_version ex) ic0 mapping host (stack_size config).
Proof.
  unfold provision. destruct (get_current_instruction_context _) as [instruction|] eqn:Ei; [|done].
  destruct (get_program_key _ _); [|done]. destruct (get_program_owner _ _); [|done].
  destruct (serialize_parameters _ _ _ _ _ _ _ _) as [[c [[[[mem regions] metadata] off]|]]|] eqn:Es; [|done..].
  unfold create_vm_macro. destruct (get_config ex) as [config|] eqn:Ec; [|done].
  destruct (consume_checked _ _) as [ic2 [u|]]; [|done].
  destruct (get_stack _ _ _) as [pool2 stack]. destruct (get_heap _ _ _) as [pool3 heap].
  destruct (_ || _) eqn:Ele; [done|]. apply orb_false_iff in Ele as [El1%Z.ltb_ge El2%Z.ltb_ge].
  unfold create_vm. rewrite Ec. destruct (create_memory_mapping _ _ _ _ _ _ _ _ _) as [[mapping|]|] eqn:Em; [|done..].
  destruct (set_syscall_context _ _) as [ic3 [u'|]]; [|done]. intros [= _ _ <-].
  exists config, instruction, c, mem, regions, metadata, mapping, ic3. eexists. cbn. done.
Qed.

Lemma provision_tracker env ex config pool ic pool1 ic1 p :
  get_config ex = Some config -> enable_address_translation config = true ->
  provision env ex pool ic = Some (pool1, ic1, Ok p) ->
  get_access_tracker (memory_mapping (p_machine p)) = Some tracker_new /\ Forall u64_range (p_ranges p).
Proof.
  intros Hc Ht Hp. apply provision_inv in Hp as (config' & i & c & mem & rs & md & mapping & ic0 & h & Hc' & _ & _ & Hr & _ & _ & _ & Em & _ & ->).
  rewrite Hc in Hc'. injection Hc' as <-. rewrite Hr. split; [|apply forbidden_vm_ranges_u64].
  unfold vm_new. cbn [memory_mapping]. rewrite Ht. cbn [negb].
  unfold create_memory_mapping in Em. rewrite Hc in Em. injection Em as Em.
  unfold mapping_new_with_access_violation_handler in Em.
  destruct (_ || _).
  - unfold aligned_new in Em. destruct (if allow_memory_region_zero config then _ else _) as [rs'|]; [|done]. by injection Em as <-.
  - unfold unaligned_new in Em. destruct (first_overlap _); [done|]. destruct (construct_eytzinger_order _ _ _ _ _) as [[]]. by injection Em as <-.
Qed.

(** A machine that watches nothing reports nothing. *)
Lemma execute_unwatched (ex : Executable InvokeContext) builtin_loads machine machine' fuel count result :
  (forall key name f, lookup_by_key (sparse_registry (loader ex)) key = Some (name, f) ->
     BuiltinLoads f (builtin_loads f)) ->
  get_access_tracker (memory_mapping machine) = Some tracker_new ->
  execute_program fuel ex machine = Some (Some (count, result, machine')) ->
  get_forbidden_memory_accesses machine' = [].
Proof.
  intros Hb Ht E. eapply execute_tracker in E; [|done|done|done]. unfold get_forbidden_memory_accesses. rewrite E.
  unfold get_forbidden_accesses. clear E. induction (execution_loads _ _ _ _) as [|l ls IH]; [done|exact IH].
Qed.

(** C7. The report of an execution. After [execute] has provisioned a machine and run the program,
    the accesses that were reported in addition to those of nested executions are, in order, the
    loads that the program performs when nothing is watched and that touch a forbidden range. *)
Theorem forbidden_reads_reported (env : Environment) (ex : Executable InvokeContext) (config : Config)
    (builtin_loads : BuiltinFunction InvokeContext -> EbpfVm InvokeContext -> list (Z * Z))
    (fuel : nat) (pool pool1 pool' : VmMemoryPool) (ic ic1 ic' : InvokeContext) (p : Provisioned) r :
  get_config ex = Some config -> enable_address_translation config = true ->
  (forall key name f, lookup_by_key (sparse_registry (loader ex)) key = Some (name, f) ->
     BuiltinLoads f (builtin_loads f)) ->
  provision env ex pool ic = Some (pool1, ic1, Ok p) ->
  execute env fuel ex pool ic = Some (Some (pool', ic', r)) ->
  let start := prepare_machine env [] (p_offset p) (p_machine p) in
  exists count result machine',
    execute_program fuel ex start = Some (Some (count, result, machine')) /\
    forbidden_memory_accesses ic' =
      forbidden_memory_accesses (context_object_pointer machine') ++
      filter (fun l => touches (p_ranges p) l.1 l.2) (execution_loads ex builtin_loads fuel start).
Proof.
  intros Hc Ht Hb Hp He start. unfold execute in He. rewrite Hp in He.
  destruct (provision_tracker env ex config pool ic pool1 ic1 p Hc Ht Hp) as [Htr Hr].
  assert (get_access_tracker (memory_mapping start) = Some tracker_new) as Hst.
  { subst start. unfold prepare_machine. cbn [is_nil negb]. by destruct (provide_instruction_data_offset_in_vm_r2 _). }
  destruct (execute_program fuel ex (prepare_machine env (p_ranges p) (p_offset p) (p_machine p)))
    as [[[[count result] machine]|]|] eqn:Er; [|done..].
  destruct (after_run env p pool1 result machine) as [x|] eqn:Ea; [|done]. injection He as ->.
  apply after_run_report in Ea. rewrite Ea. destruct (p_ranges p) as [|rg rgs] eqn:Erg.
  - exists count, result, machine. split; [exact Er|]. f_equal.
    rewrite (execute_unwatched ex builtin_loads _ _ _ _ _ Hb Hst Er). symmetry.
    induction (execution_loads _ _ _ _) as [|l ls IH]; [done|]. rewrite filter_cons_False; [done|].
    intros (q & b & Hq & _). by apply not_elem_of_nil in Hq.
  - assert (prepare_machine env (rg :: rgs) (p_offset p) (p_machine p) = add_watched_memory_ranges start (rg :: rgs)) as Epm.
    { subst start. unfold prepare_machine. by destruct (provide_instruction_data_offset_in_vm_r2 _). }
    rewrite Epm in Er.
    destruct (execute_watched ex builtin_loads start machine _ fuel count result Hb Hr Hst Er) as (t & Et & Ef).
    destruct (execute_same ex start (rg :: rgs) fuel count result machine) as (m' & Em & Ec); [|done|].
    { intros key name f Hl. by apply Hb in Hl as []. }
    exists count, result, m'. split; [done|]. rewrite Ec. f_equal. unfold get_forbidden_memory_accesses. by rewrite Et, <- Ef.
Qed.

(** ** The place of the forbidden bytes *)

(** A byte of a region without gaps is translated to its place in host memory. *)
Lemma translates_region m r a :
  mapping_ok m -> r ∈ get_regions m -> vm_gap_shift r = 63 -> MM_INPUT_START <= vm_addr r ->
  vm_addr r <= a < vm_addr r + region_len r -> a < u64_MAX ->
  (match m with Aligned _ => a / 2 ^ 32 = vm_addr r / 2 ^ 32 | _ => True end) ->
  translates m Load a 1 (host_addr r + (a - vm_addr r)).
Proof.
  intros Hm Hr Hg Hin Ha Hu Hslot. assert (0 < MM_INPUT_START) by done. assert (is_u64 a) by (unfold is_u; lia). apply list_elem_of_lookup in Hr as [i Hi].
  pose proof (mapping_regions_ok m i r Hm Hi) as Hok. exists i, r. split; [|split; [done|]].
  - destruct m as [|al|u]; [done| |]; unfold lookup_region; cbn [mapping_ok get_regions] in Hm, Hi; cbv zeta.
    + rewrite Hslot. pose proof (a_indexed _ Hm i r Hi) as Hx. rewrite region_index_of_eq in Hx. rewrite Hx, Nat2Z.id.
      apply lookup_lt_Some in Hi as Hlt. rewrite (proj2 (Nat.ltb_lt _ _) Hlt).
      assert (4 <= Z.of_nat i) as Hi4.
      { rewrite <- Hx. change MM_INPUT_START with (4 * 2 ^ 32) in Hin. apply Z.div_le_lower_bound; lia. }
      by rewrite (proj2 (Nat.ltb_lt 0 i)) by lia.
    + destruct Hm as [U1 U2 _ _ _ _]. apply (linear_find_unique _ a i r); [done|done|done|].
      unfold vm_addr_range. rewrite Hg. change (63 =? 63) with true. cbn [r_end]. unfold saturating_add. lia.
  - apply vm_to_host_iff; [done|done|int_lia|]. split; [by intros|]. split; [lia|].
    exists (a - vm_addr r). unfold guest_offset. rewrite Hg. split; [done|]. lia.
Qed.

(** The key of an instruction account, as [execute] looks for it. *)
Definition key_at (c : TransactionContext) (ic : InstructionContext) (i : Z) : option Pubkey :=
  match get_index_of_instruction_account_in_transaction ic i with
  | Ok tx_idx => match get_key_of_account_at_index c tx_idx with Ok key => Some key | Err _ => None end
  | Err _ => None
  end.

Lemma find_sysvar_first id c ic md (ks1 : list Z) k ks2 :
  (forall j, j ∈ ks1 -> key_at c ic j <> Some id) -> key_at c ic k = Some id ->
  find_sysvar id c ic md (ks1 ++ k :: ks2) = option_map vm_data_addr (md !! Z.to_nat k).
Proof.
  intros H1 Hk. induction ks1 as [|j ks1 IH]; cbn [app find_sysvar].
  - unfold key_at in Hk. destruct (get_index_of_instruction_account_in_transaction _ _); [|done].
    destruct (get_key_of_account_at_index _ _); [|done]. injection Hk as ->. by rewrite bool_decide_eq_true_2.
  - pose proof (H1 j (list_elem_of_here _ _)) as Hj. specialize (IH (fun x Hx => H1 x (list_elem_of_further _ _ _ Hx))).
    unfold key_at in Hj. destruct (get_index_of_instruction_account_in_transaction _ _); [|done].
    destruct (get_key_of_account_at_index _ _); [|done]. by rewrite bool_decide_eq_false_2 by congruence.
Qed.

Lemma key_at_views c c' ic i : same_views c c' -> key_at c' ic i = key_at c ic i.
Proof. by intros (flags & _ & ->). Qed.

(** A slice of the process. *)
Definition rust_slice (start n : Z) : Prop := 0 <= start /\ 0 <= n <= i64_MAX /\ start + n <= u64_MAX.

(** What the allocator of the process guarantees: buffers do not wrap around the address space,
    different ones do not overlap, and the payload of an account holds its data. *)
Record process_ok (env : Environment) (ex : Executable InvokeContext) (c : TransactionContext) (p : Provisioned) : Prop := {
  proc_empty : is_u64 (empty_slice env);
  proc_ro : rust_slice (ro_ptr env) (len (get_ro_section ex));
  proc_ro_offset : is_u64 (match ro_section ex with Owned offset _ => offset | Borrowed offset _ => offset end);
  proc_stack : rust_slice (mem_ptr (p_stack p)) (mem_len (p_stack p));
  proc_heap : rust_slice (mem_ptr (p_heap p)) (mem_len (p_heap p));
  proc_params : rust_slice (ptr env) (mem_len (p_mem p));
  proc_payload b : account_ok b c -> rust_slice (payload_ptr env (get_index_in_transaction b)) (len (get_data b c));
  proc_contents b k x : account_ok b c -> get_data b c !! k = Some x ->
    host env !! (payload_ptr env (get_index_in_transaction b) + Z.of_nat k) = Some x;
  proc_params_apart : host_disjoint (mem_ptr (p_stack p)) (mem_len (p_stack p)) (ptr env) (mem_len (p_mem p)) /\
    host_disjoint (mem_ptr (p_heap p)) (mem_len (p_heap p)) (ptr env) (mem_len (p_mem p));
  proc_payload_apart b a n : account_ok b c ->
    (a, n) ∈ [(mem_ptr (p_stack p), mem_len (p_stack p)); (mem_ptr (p_heap p), mem_len (p_heap p));
      (ptr env, mem_len (p_mem p))] ->
    host_disjoint a n (payload_ptr env (get_index_in_transaction b)) (len (get_data b c))
}.

Lemma place_other at_ bs m h : ~ (at_ <= h < at_ + len bs) -> place at_ bs m !! h = m !! h.
Proof.
  intros H. unfold place. apply lookup_union_r, not_elem_of_list_to_map_1. rewrite fst_zip.
  - rewrite elem_of_seqZ. lia.
  - rewrite length_seqZ. unfold len. lia.
Qed.

Lemma place_at at_ bs m (k : nat) b : bs !! k = Some b -> place at_ bs m !! (at_ + Z.of_nat k) = Some b.
Proof.
  intros H. apply lookup_lt_Some in H as Hlt. unfold place. apply lookup_union_Some_l.
  apply elem_of_list_to_map_1'.
  - intros y Hy. apply list_elem_of_lookup in Hy as [i Hi].
    change (zip ?l ?l') with (zip_with pair l l') in Hi. rewrite lookup_zip_with in Hi.
    destruct (seqZ _ _ !! i) as [a|] eqn:Ea; [|done]. cbn in Hi. destruct (bs !! i) eqn:Eb; [|done]. cbn in Hi.
    injection Hi as -> ->. apply lookup_seqZ in Ea as [Ea _]. assert (i = k) as -> by lia. congruence.
  - apply list_elem_of_lookup. exists k. change (zip ?l ?l') with (zip_with pair l l'). rewrite lookup_zip_with, H.
    rewrite lookup_seqZ_lt by (unfold len; lia). done.
Qed.

(** The regions of the machine are regions of the process. *)
Lemma machine_regions_ok env ex config p lamports0 data0 ic c x bs :
  process_ok env ex c p -> get_config ex = Some config -> is_u32 (heap_size env) ->
  stack_size config <= mem_len (p_stack p) -> heap_size env <= mem_len (p_heap p) ->
  params_ok ic lamports0 data0 c -> p_mem p = x.1.1.1 ->
  serialized_ok (payload_ptr env) (stricter_abi_and_runtime_constraints (features env))
    (account_data_direct_mapping (features env)) (ptr env) (lent ic c) (map (item ic) (positions ic))
    (ic_instruction_data ic) bs x ->
  Forall region_ok
    ([ get_ro_region (ro_ptr env) ex;
       new_writable_gapped (mem_ptr (p_stack p)) (stack_size config) MM_STACK_START
         (if stack_frame_gaps (sbpf_version ex) && enable_stack_frame_gaps config then stack_frame_size config else 0);
       new_writable (mem_ptr (p_heap p)) (heap_size env) MM_HEAP_START ] ++ x.1.1.2).
Proof.
  intros Hpr Hc Hh Hs1 Hs2 Hp Em Hx. pose proof Hpr as [P1 P2 P3 P4 P5 P6 P7 P8 P9 P10]. unfold rust_slice in *.
  assert (0 <= stack_size config) as Hs0 by (unfold stack_size; apply cast_u_range; lia).
  cbn [app]. repeat apply Forall_cons_2.
  - unfold get_ro_region. split; cbn; [done|lia|lia|lia].
  - set (g := if stack_frame_gaps _ && _ then _ else 0). split; cbn; [by vm_compute|lia|lia|].
    destruct (0 <? g); [|lia]. pose proof (cast_u_range 8 (leading_zeros g) ltac:(lia)) as Hr. unfold saturating_sub, is_u in *. lia.
  - unfold is_u in Hh. split; cbn; [by vm_compute|lia|lia|lia].
  - pose proof (ser_regions _ _ _ _ _ _ _ _ _ Hx) as [Ho _]. pose proof (ser_home _ _ _ _ _ _ _ _ _ Hx) as Hhome.
    pose proof (ser_bytes _ _ _ _ _ _ _ _ _ Hx) as Hb. rewrite <- Hb, <- Em in Hhome.
    apply Forall_forall. intros r Hr. rewrite Forall_forall in Ho, Hhome. specialize (Ho r Hr). specialize (Hhome r Hr).
    destruct Ho as (O1 & O2 & O3 & O4). unfold guest_limit in O3. change MM_INPUT_START with (4 * 2 ^ 32) in *.
    unfold mem_len in *. split; [unfold is_u; lia|lia| |lia].
    destruct Hhome as [Hh'|(b & Hb1 & -> & ->)]; [lia|]. specialize (P7 b Hb1).
    change (get_data b (lent ic c)) with (get_data b c). lia.
Qed.

(** In a mapping with one slot of 4 GiB for every region, no region leaves its slot. *)
Definition in_slots (m : MemoryMapping) : Prop :=
  match m with
  | Aligned a => Forall (fun r => forall x, vm_addr r <= x < vm_addr r + region_len r -> x / 2 ^ 32 = vm_addr r / 2 ^ 32)
      (regions (a_common a))
  | _ => True
  end.

(** A byte of the parameters or of a payload is not overwritten by stack and heap. *)
Lemma host_of_params env ex c p (k : nat) x :
  process_ok env ex c p -> mem_bytes (p_mem p) !! k = Some x ->
  place (mem_ptr (p_stack p)) (mem_bytes (p_stack p)) (place (mem_ptr (p_heap p)) (mem_bytes (p_heap p))
    (place (ptr env) (mem_bytes (p_mem p)) (host env))) !! (ptr env + Z.of_nat k) = Some x.
Proof.
  intros Hp Hk. destruct (proc_params_apart _ _ _ _ Hp) as [D1 D2]. apply lookup_lt_Some in Hk as Hlt.
  unfold host_disjoint, mem_len, len in *. rewrite !place_other by (unfold len; lia). by apply place_at.
Qed.

Lemma host_of_payload env ex c p b (k : nat) x :
  process_ok env ex c p -> account_ok b c -> get_data b c !! k = Some x ->
  place (mem_ptr (p_stack p)) (mem_bytes (p_stack p)) (place (mem_ptr (p_heap p)) (mem_bytes (p_heap p))
    (place (ptr env) (mem_bytes (p_mem p)) (host env))) !!
    (payload_ptr env (get_index_in_transaction b) + Z.of_nat k) = Some x.
Proof.
  intros Hp Hb Hk. apply lookup_lt_Some in Hk as Hlt. pose proof (proc_payload_apart _ _ _ _ Hp b) as D.
  pose proof (D _ _ Hb (list_elem_of_here _ _)) as D1.
  pose proof (D _ _ Hb (list_elem_of_further _ _ _ (list_elem_of_here _ _))) as D2.
  pose proof (D _ _ Hb (list_elem_of_further _ _ _ (list_elem_of_further _ _ _ (list_elem_of_here _ _)))) as D3.
  unfold host_disjoint, mem_len, len in *. rewrite !place_other by (unfold len; lia).
  by apply (proc_contents _ _ _ _ Hp).
Qed.

(** The account at a position of the instruction. *)
Lemma account_position ic lamports0 data0 c (Hp : params_ok ic lamports0 data0 c) (k : nat) ia :
  ic_instruction_accounts ic !! k = Some ia -> account_ok (mkBorrowed ia (ic_program_account_index_in_tx ic)) c.
Proof.
  intros Hia. destruct Hp as [P1 P2 P3 P4]. pose proof (Forall_lookup_1 _ _ _ _ (ins_accounts _ _ P4) Hia) as Hi.
  cbn beta in Hi. pose proof (shared_lookup c _ Hi) as Hs. apply lookup_lt_Some in Hs.
  unfold account_ok, get_index_in_transaction. cbn [instruction_account]. split; [apply Hi|]. split.
  - by rewrite (ok_touched _ _ _ P1).
  - unfold get_data, view_data, account_view, get_view, get_index_in_transaction. cbn.
    destruct (lookup_lt_is_Some_2 (private_account_fields (accounts c)) (Z.to_nat (index_in_transaction ia))) as [q Hq];
      [by rewrite (ok_private _ _ _ P1)|].
    rewrite (list_lookup_total_correct _ _ _ Hq). apply (Forall_lookup_1 _ _ _ _ (ok_data _ _ _ P1) Hq).
Qed.

Section placed.
Context (env : Environment) (ex : Executable InvokeContext) (config : Config).
Context (instruction : InstructionContext) (lamports0 data0 : Z) (p : Provisioned) (c : TransactionContext).
Context (Hpr : process_ok env ex c p) (Hp : params_ok instruction lamports0 data0 c).
Abbreviation stricter := (stricter_abi_and_runtime_constraints (features env)).
Abbreviation direct := (account_data_direct_mapping (features env)).

(** Where the data of an account is in the guest. *)
Lemma data_placed mem regions mds off bs m k ia md (j : nat) x :
  p_mem p = mem ->
  serialized_ok (payload_ptr env) stricter direct (ptr env) (lent instruction c)
    (map (item instruction) (positions instruction)) (ic_instruction_data instruction) bs (mem, regions, mds, off) ->
  mapping_ok m -> regions ⊆ get_regions m -> in_slots m ->
  ic_instruction_accounts instruction !! k = Some ia -> mds !! k = Some md ->
  let b := mkBorrowed ia (ic_program_account_index_in_tx instruction) in
  get_data b c !! j = Some x ->
  MM_INPUT_START <= vm_data_addr md + Z.of_nat j <= MM_INPUT_START + guest_limit /\
  exists h, translates m Load (vm_data_addr md + Z.of_nat j) 1 h /\
    place (mem_ptr (p_stack p)) (mem_bytes (p_stack p)) (place (mem_ptr (p_heap p)) (mem_bytes (p_heap p))
      (place (mem_ptr mem) (mem_bytes mem) (host env))) !! h = Some x.
Proof.
  intros Em Hx Hm Hsub Hslot Hia Hmd b Hj.
  destruct (fields_of_position instruction (payload_ptr env) stricter direct (ptr env) c lamports0 data0
    (par_accounts _ _ _ _ Hp) (par_ic _ _ _ _ Hp) (bs, (mem, regions, mds, off)) k ia md Hx Hia Hmd) as (_ & Hd & _).
  cbn [fst snd] in Hd. fold b in Hd. pose proof (ser_address _ _ _ _ _ _ _ _ _ Hx) as Ea. cbn [fst] in Ea.
  assert (exists h, host_of regions (vm_data_addr md + Z.of_nat j) h /\
    place (mem_ptr (p_stack p)) (mem_bytes (p_stack p)) (place (mem_ptr (p_heap p)) (mem_bytes (p_heap p))
      (place (mem_ptr mem) (mem_bytes mem) (host env))) !! h = Some x) as (h & Hh & Hv).
  { rewrite Ea, <- Em. destruct (mapped_directly _ _).
    - apply lookup_lt_Some in Hj as Hlt. eexists. split; [apply Hd; unfold len; lia|].
      apply (host_of_payload env ex c p b j x Hpr); [|done].
      apply (account_position instruction lamports0 data0 c Hp k ia Hia).
    - destruct (Hd j x Hj) as (o & Ho & Hb). eexists. split; [exact Ho|]. rewrite Ea.
      apply (host_of_params env ex c p o x Hpr). by rewrite Em. }
  destruct Hh as (r & Hr & Ha & ->).
  pose proof (ser_regions _ _ _ _ _ _ _ _ _ Hx) as [Hord _]. cbn [fst snd] in Hord. rewrite Forall_forall in Hord.
  destruct (Hord r Hr) as (O1 & O2 & O3 & O4). split; [lia|]. eexists. split; [|exact Hv].
  apply translates_region; [done|by apply Hsub|done|done|done| |].
  - unfold guest_limit in O3. change MM_INPUT_START with (4 * 2 ^ 32) in *. lia.
  - destruct m as [|a|u]; [done| |done]. cbn in Hslot, Hsub. rewrite Forall_forall in Hslot.
    apply Hslot; [by apply Hsub|done].
Qed.

End placed.

Lemma shifted_ranges base (ranges : list Range) :
  0 <= base < 2 ^ 63 -> Forall (fun r => 0 <= r_start r < 2 ^ 63 /\ 0 <= r_end r < 2 ^ 63) ranges ->
  map (fun r => mkRange (wrapping_add base (r_start r)) (wrapping_add base (r_end r))) ranges =
  map (fun r => mkRange (base + r_start r) (base + r_end r)) ranges.
Proof.
  intros Hb Hr. apply list_fmap_ext. intros i r Hi. pose proof (Forall_lookup_1 _ _ _ _ Hr Hi) as H. cbn beta in H.
  unfold wrapping_add. rewrite !cast_u_id by (unfold is_u; lia). done.
Qed.

(** C8. The place of the forbidden bytes. When [execute] has provisioned a machine for an
    instruction whose accounts include the instructions sysvar, the ranges it watches are the
    forbidden ranges of sysvar data moved by one address, and at that address the guest finds
    the data of the sysvar account, byte for byte, whether it was copied into the parameters or
    mapped directly. *)
Theorem forbidden_bytes_placed (env : Environment) (ex : Executable InvokeContext) (config : Config)
    (lamports0 data0 : Z) (pool pool1 : VmMemoryPool) (ic ic1 : InvokeContext) (p : Provisioned)
    (instruction : InstructionContext) (k : nat) (ia : InstructionAccount) :
  let c := transaction_context ic in
  let data := get_data (mkBorrowed ia (ic_program_account_index_in_tx instruction)) c in
  let mapping := memory_mapping (p_machine p) in
  get_config ex = Some config -> enable_address_translation config = true ->
  0 < BPF_ALIGN_OF_U128 env <= 16 -> is_u32 (heap_size env) ->
  get_current_instruction_context c = Ok instruction -> params_ok instruction lamports0 data0 c ->
  Forall (fun r => 0 <= r_start r < 2 ^ 63 /\ 0 <= r_end r < 2 ^ 63) (forbidden_sysvar_data_ranges ic) ->
  ic_instruction_accounts instruction !! k = Some ia ->
  key_at c instruction (Z.of_nat k) = Some (instructions_sysvar_id env) ->
  (forall j, (j < k)%nat -> key_at c instruction (Z.of_nat j) <> Some (instructions_sysvar_id env)) ->
  data <> [] ->
  provision env ex pool ic = Some (pool1, ic1, Ok p) -> process_ok env ex c p -> in_slots mapping ->
  exists base,
    p_ranges p = map (fun r => mkRange (base + r_start r) (base + r_end r)) (forbidden_sysvar_data_ranges ic) /\
    forall (j : nat) x, data !! j = Some x ->
      exists h, translates mapping Load (base + Z.of_nat j) 1 h /\ host_memory (p_machine p) !! h = Some x.
Proof.
  intros c data mapping Hc Ht HA Hheap Hi Hpar Hranges Hia Hk Hfirst Hne Hp Hproc Hslots.
  apply provision_inv in Hp as (config' & i & c' & mem & rs & mds & m & ic0 & h & Hc' & Hi' & Es & Er & Em & Hs1 & Hs2 & Emap & Eh & Evm).
  rewrite Hc in Hc'. injection Hc' as <-. fold c in Hi', Es. rewrite Hi in Hi'. injection Hi' as <-.
  pose proof Hpar as [P1 P2 P3 P4].
  destruct (serialize_parameters_ok (BPF_ALIGN_OF_U128 env) (payload_ptr env) (bpf_loader_deprecated env)
    (stricter_abi_and_runtime_constraints (features env)) (account_data_direct_mapping (features env)) (ptr env)
    lamports0 data0 instruction c HA P1 P2 P3 P4) as (c1 & x & Es' & Hv & Hx). rewrite Es in Es'. injection Es' as <- <-.
  assert (mapping = m) as Emm by (subst mapping; rewrite Evm; unfold vm_new; cbn; by rewrite Ht).
  assert (host_memory (p_machine p) = h) as -> by by rewrite Evm.
  unfold create_memory_mapping in Emap. rewrite Hc in Emap. injection Emap as Emap.
  pose proof (machine_regions_ok env ex config p lamports0 data0 instruction c (mem, rs, mds, p_offset p) _ Hproc Hc Hheap Hs1 Hs2
    Hpar Em Hx) as Hreg. cbn [fst snd] in Hreg.
  destruct (mapping_new_ok _ _ _ _ _ _ (proc_empty _ _ _ _ Hproc) Hreg Emap) as (Hm & Hsub & _). clear Hreg.
  rewrite Emm in *. clear Emm mapping.
  destruct (lookup_lt_is_Some_2 mds k) as [md Hmd].
  { pose proof (ser_metadata_length _ _ _ _ _ _ _ _ _ Hx) as Hl. cbn [fst snd] in Hl. rewrite Hl.
    unfold positions. rewrite length_map, length_seq. by eapply lookup_lt_Some. }
  assert (rs ⊆ get_regions m) as Hsub' by (intros r Hr; apply Hsub, elem_of_app; by right).
  pose proof (fun j x => data_placed env ex instruction lamports0 data0 p c Hproc Hpar mem rs mds (p_offset p) _ m k ia md j x
    Em Hx Hm Hsub' Hslots Hia Hmd) as Hplace. cbv zeta in Hplace. fold data in Hplace.
  exists (vm_data_addr md). split; [|intros j x Hj; rewrite Eh; by apply Hplace].
  rewrite Er. unfold forbidden_vm_ranges. rewrite (instruction_positions instruction c P4).
  assert (map Z.of_nat (positions instruction) =
    map Z.of_nat (seq 0 k) ++ Z.of_nat k :: map Z.of_nat (seq (S k) (length (ic_instruction_accounts instruction) - S k))) as ->.
  { apply lookup_lt_Some in Hia. unfold positions.
    replace (length _) with (k + S (length (ic_instruction_accounts instruction) - S k))%nat at 1 by lia.
    by rewrite seq_app, map_app. }
  rewrite find_sysvar_first; [|intros j Hj|].
  - rewrite Nat2Z.id, Hmd. cbn [option_map]. destruct data as [|y data'] eqn:Ed; [done|].
    destruct (Hplace 0%nat y eq_refl) as [Hb _]. unfold guest_limit in Hb. change MM_INPUT_START with (4 * 2 ^ 32) in Hb.
    change (forbidden_sysvar_data_ranges (set_transaction_context ?a ?b)) with (forbidden_sysvar_data_ranges b).
    rewrite shifted_ranges; [|lia|done]. by destruct (forbidden_sysvar_data_ranges ic).
  - rewrite (key_at_views c c' instruction j Hv). apply list_elem_of_fmap in Hj as (n & -> & Hn). apply elem_of_seq in Hn.
    apply Hfirst. lia.
  - by rewrite (key_at_views c c' instruction _ Hv).
Qed.

(** ** Example *)

(** An instruction whose first account plays the instructions sysvar. *)
Definition example_run_context : TransactionContext :=
  (tx_push (key_of 70) (key_of 71) example_store
    (configure_next_instruction 0 (ic_instruction_accounts example_params) (ic_dedup_map example_params) [7; 8] None
       example_new).1).1.
Definition example_invoke : InvokeContext :=
  mkInvokeContext example_run_context 1000 [None] [] [mkRange 1 2] [].

(** Reads the first two bytes of the sysvar. *)
Definition example_reader : list Insn :=
  [ mkInsn 0 LD_DW_IMM 2 0 0 96;
    mkInsn 0 0 0 0 0 4;
    mkInsn 0 LD_B_REG 3 2 0 0;
    mkInsn 0 LD_B_REG 0 2 1 0;
    mkInsn 0 EXIT 0 0 0 0 ].

Definition example_run_config : Config := {|
  max_call_depth := 4; stack_frame_size := 64; enable_address_translation := true;
  enable_stack_frame_gaps := true; instruction_meter_checkpoint_distance := 10000;
  enable_instruction_meter := true; enable_register_tracing := false;
  enable_symbol_and_section_labels := false; reject_broken_elfs := false;
  noop_instruction_rate := 256; sanitize_user_provided_values := true; optimize_rodata := true;
  allow_memory_region_zero := false; aligned_memory_mapping := false;
  enabled_sbpf_versions := (V0, V4) |}.

Definition example_run_executable : Executable InvokeContext :=
  let bytes := concat (map to_array example_reader) in
  mkExecutable bytes V0 (Borrowed MM_BYTECODE_START (mkRange 0 (len bytes))) MM_BYTECODE_START
    (mkRange 0 (len bytes)) 0 registry_default (mkBuiltinProgram (Some example_run_config) (mkRegistry ∅)).

Definition example_environment : Environment := {|
  features := mkFeatureSet true true true true; heap_size := 32; heap_cost := 8;
  bpf_loader_deprecated := key_of 50; instructions_sysvar_id := key_of 2; SUCCESS := 0; BPF_ALIGN_OF_U128 := 8;
  status_error := fun _ => InvalidRealloc; empty_slice := 1; ro_ptr := 0x1000; ptr := 0x100000;
  stack_ptr := 0; heap_ptr := 0;
  payload_ptr := fun i => 0x10000 + 16 * i;
  host := list_to_map [(0x10010, 1); (0x10011, 2); (0x10012, 3); (0x10020, 4)];
  handler := default_access_violation_handler; accounts_in_memory := fun _ c => c; pool_after_run := id |}.

Definition example_pool : VmMemoryPool :=
  mkVmMemoryPool (pool_new [zero_filled 0x2000 256]) (pool_new [zero_filled 0x3000 32]).

Lemma example_provision : exists pool1 ic1 p,
  provision example_environment example_run_executable example_pool example_invoke = Some (pool1, ic1, Ok p) /\
  mem_ptr (p_stack p) = 0x2000 /\ mem_len (p_stack p) = 256 /\ mem_ptr (p_heap p) = 0x3000 /\ mem_len (p_heap p) = 32 /\
  0 <= mem_len (p_mem p) < 65536.
Proof.
  pose (f := fun x : option (VmMemoryPool * InvokeContext * Result Provisioned InstructionError) =>
    match x with
    | Some (_, _, Ok p) =>
        Some (mem_ptr (p_stack p), mem_len (p_stack p), mem_ptr (p_heap p), mem_len (p_heap p),
          (0 <=? mem_len (p_mem p)) && (mem_len (p_mem p) <? 65536))
    | _ => None
    end).
  assert (f (provision example_environment example_run_executable example_pool example_invoke) =
    Some (0x2000, 256, 0x3000, 32, true)) as H by (vm_compute; reflexivity).
  destruct (provision _ _ _ _) as [[[pool1 ic1] [p|]]|]; [|done..]. cbn in H. exists pool1, ic1, p.
  injection H as -> -> -> -> H5. apply andb_true_iff in H5. by rewrite Z.leb_le, Z.ltb_lt in H5.
Qed.

Lemma example_execute : exists pool' ic' r,
  execute example_environment 1000 example_run_executable example_pool example_invoke = Some (Some (pool', ic', r)) /\
  forbidden_memory_accesses ic' = [(MM_INPUT_START + 97, 1)].
Proof.
  pose (f := fun x : option (option (VmMemoryPool * InvokeContext * Result unit DynError)) =>
    match x with Some (Some (_, ic', _)) => Some (forbidden_memory_accesses ic') | _ => None end).
  assert (f (execute example_environment 1000 example_run_executable example_pool example_invoke) =
    Some [(MM_INPUT_START + 97, 1)]) as H by (vm_compute; reflexivity).
  destruct (execute _ _ _ _ _) as [[[[pool' ic'] r]|]|]; [|done..]. exists pool', ic', r. by injection H as ->.
Qed.

Lemma forbidden_reads_reported_witness : exists p count result machine',
  let start := prepare_machine example_environment [] (p_offset p) (p_machine p) in
  execute_program 1000 example_run_executable start = Some (Some (count, result, machine')) /\
  [(MM_INPUT_START + 97, 1)] = forbidden_memory_accesses (context_object_pointer machine') ++
    filter (fun l => touches (p_ranges p) l.1 l.2) (execution_loads example_run_executable (fun _ _ => []) 1000 start).
Proof.
  destruct example_provision as (pool1 & ic1 & p & Hp & _).
  destruct example_execute as (pool' & ic' & r & He & Hf).
  destruct (forbidden_reads_reported example_environment example_run_executable example_run_config (fun _ _ => [])
    1000 example_pool pool1 pool' example_invoke ic1 ic' p r eq_refl eq_refl) as (count & result & m & E1 & E2).
  - intros key name g Hg. unfold lookup_by_key in Hg. cbn in Hg. by rewrite lookup_empty in Hg.
  - exact Hp.
  - exact He.
  - exists p, count, result, m. split; [exact E1|]. rewrite <- Hf. exact E2.
Defined.

Lemma example_invoke_params :
  params_ok example_params (initial_lamports example_accounts) (initial_data example_accounts) example_run_context.
Proof.
  split.
  - exact example_new_ok.
  - repeat constructor.
  - repeat constructor.
  - destruct example_params_ok. by split.
Qed.

(** The accounts of the example. *)
Lemma example_accounts_of b : account_ok b example_run_context ->
  exists i, get_index_in_transaction b = i /\
    ((i = 0 /\ get_data b example_run_context = []) \/ (i = 1 /\ get_data b example_run_context = [1; 2; 3]) \/
     (i = 2 /\ get_data b example_run_context = [4])).
Proof.
  intros (H0 & H1 & _). set (i := get_index_in_transaction b) in *. exists i. split; [done|].
  change (length _) with 3%nat in H1. unfold get_data, account_view. fold i.
  assert (i = 0 \/ i = 1 \/ i = 2) as [-> |[-> | ->]] by lia; [left|right; left|right; right]; (split; [done|by vm_compute]).
Qed.

Lemma example_process p :
  mem_ptr (p_stack p) = 0x2000 -> mem_len (p_stack p) = 256 -> mem_ptr (p_heap p) = 0x3000 -> mem_len (p_heap p) = 32 ->
  0 <= mem_len (p_mem p) < 65536 -> process_ok example_environment example_run_executable example_run_context p.
Proof.
  intros E1 E2 E3 E4 E5. assert (ptr example_environment = 0x100000) as E6 by done. assert (i64_MAX = 2 ^ 63 - 1) as E7 by done.
  split; rewrite ?E1, ?E2, ?E3, ?E4, ?E6; unfold rust_slice, host_disjoint, is_u.
  - vm_compute. split; [discriminate|reflexivity].
  - vm_compute. repeat split; discriminate.
  - vm_compute. split; [discriminate|reflexivity].
  - lia.
  - lia.
  - lia.
  - intros b (i & -> & H)%example_accounts_of. cbn [payload_ptr example_environment]. destruct H as [[-> ->]|[[-> ->]|[-> ->]]];
      (vm_compute; repeat split; discriminate).
  - intros b k x (i & -> & H)%example_accounts_of Hk. destruct H as [[-> H]|[[-> H]|[-> H]]]; rewrite H in Hk.
    + done.
    + destruct k as [|[|[|k]]]; [injection Hk as <-; vm_compute; reflexivity..|done].
    + destruct k as [|k]; [injection Hk as <-; vm_compute; reflexivity|done].
  - lia.
  - intros b a n (i & -> & H)%example_accounts_of Hin. cbn [payload_ptr example_environment].
    assert (a < 0x10000 /\ a + n < 0x10000 \/ 0x100000 <= a) as Ha.
    { rewrite !elem_of_cons in Hin. destruct Hin as [[= -> ->]|[[= -> ->]|[[= -> ->]|[]%not_elem_of_nil]]]; lia. }
    destruct H as [[-> ->]|[[-> ->]|[-> ->]]]; unfold len; cbn [length]; lia.
Qed.

Lemma forbidden_bytes_placed_witness : exists p base,
  p_ranges p = [mkRange (base + 1) (base + 2)] /\
  exists h, translates (memory_mapping (p_machine p)) Load (base + 1) 1 h /\ host_memory (p_machine p) !! h = Some 2.
Proof.
  destruct example_provision as (pool1 & ic1 & p & Hp & E1 & E2 & E3 & E4 & E5).
  destruct (forbidden_bytes_placed example_environment example_run_executable example_run_config
    (initial_lamports example_accounts) (initial_data example_accounts) example_pool pool1 example_invoke ic1 p
    example_params 0 (InstructionAccount_new 1 false true) eq_refl eq_refl) as (base & Hr & Hb).
  - vm_compute. split; [reflexivity|discriminate].
  - vm_compute. split; [discriminate|reflexivity].
  - vm_compute. reflexivity.
  - exact example_invoke_params.
  - repeat constructor; vm_compute; discriminate.
  - vm_compute. reflexivity.
  - vm_compute. reflexivity.
  - intros j Hj. lia.
  - vm_compute. discriminate.
  - exact Hp.
  - by apply example_process.
  - apply provision_inv in Hp as (config & i & c & mem & rs & mds & m & ic0 & h & Hc & _ & _ & _ & _ & _ & _ & Em & _ & ->).
    injection Hc as <-. unfold create_memory_mapping in Em. cbn [get_config] in Em.
    unfold vm_new. cbn. destruct m; [exact I| |exact I]. exfalso. revert Em. unfold mapping_new_with_access_violation_handler.
    cbn. destruct (unaligned_new _ _ _ _); discriminate.
  - exists p, base. split; [exact Hr|]. apply (Hb 1%nat 2). vm_compute. reflexivity.
Defined.
