(* ===== verification/Cli.v ===== *)
(** The command line program (gobble/src/main.rs): parsing of the forbidden ranges, the accounts
    from the RPC server, address lookup tables, the instructions sysvar, the program cache, and
    [main], which prepares one instruction of the transaction, runs it and reports the forbidden
    accesses.

    What other crates do is a parameter: the RPC server and its JSON values, the decoders of
    base 64, base 58 and transactions, the sanitised message, the serialiser of the instructions
    sysvar. So are the parts of the runtime that are modelled elsewhere or not at all: the loader
    of programs, and the processor of an instruction. Strings are lists of Unicode scalar values.
    [None] is a panic. Progress messages are left out. *)

From Stdlib Require Import ZArith Lia Bool.
From stdpp Require Import gmap strings.
From S2P Require Import Prelude.
From S2P Require Import GobbleLib.
From S2P Require Import TxAccounts.
From S2P Require Import TxContext.
From S2P Require Import InvokeContext.

#[local] Open Scope Z_scope.

(** ** Strings *)

Abbreviation Str := (list Z).

Definition str (s : string) : Str := map (fun a => Z.of_nat (Ascii.nat_of_ascii a)) (String.list_ascii_of_string s).

(** [str::split] by a character. *)
Fixpoint split (c : Z) (s : Str) : list Str :=
  match s with
  | [] => [[]]
  | x :: s =>
      if x =? c then [] :: split c s
      else match split c s with p :: ps => (x :: p) :: ps | [] => [[x]] end
  end.

(** The Unicode property [White_Space]. *)
Definition is_whitespace (c : Z) : bool :=
  ((9 <=? c) && (c <=? 13)) || (c =? 32) || (c =? 0x85) || (c =? 0xa0) || (c =? 0x1680)
  || ((0x2000 <=? c) && (c <=? 0x200a)) || (c =? 0x2028) || (c =? 0x2029) || (c =? 0x202f)
  || (c =? 0x205f) || (c =? 0x3000).

Fixpoint trim_start (s : Str) : Str :=
  match s with x :: s' => if is_whitespace x then trim_start s' else s | [] => [] end.
Definition trim_end (s : Str) : Str := rev (trim_start (rev s)).
Definition trim (s : Str) : Str := trim_end (trim_start s).

(** [usize::from_str]. *)
Inductive IntErrorKind := Empty | InvalidDigit | PosOverflow.

Definition to_digit (c : Z) : option Z := if (48 <=? c) && (c <=? 57) then Some (c - 48) else None.

Fixpoint parse_digits (acc : Z) (s : Str) : Result Z IntErrorKind :=
  match s with
  | [] => Ok acc
  | c :: s =>
      match to_digit c with
      | None => Err InvalidDigit
      | Some d =>
          if u64_MAX <? acc * 10 then Err PosOverflow
          else if u64_MAX <? acc * 10 + d then Err PosOverflow
          else parse_digits (acc * 10 + d) s
      end
  end.

Definition parse_usize (s : Str) : Result Z IntErrorKind :=
  match s with
  | [] => Err Empty
  | [c] => if (c =? 43) || (c =? 45) then Err InvalidDigit else parse_digits 0 s
  | c :: rest => if c =? 43 then parse_digits 0 rest else parse_digits 0 s
  end.

(** ** Errors *)

Inductive CliError :=
| InvalidRangeFormat (r : Str)
| InvalidRangeStart (part : Str) (kind : IntErrorKind)
| InvalidRangeEnd (part : Str) (kind : IntErrorKind)
| RpcRequestFailed
| RpcResponseInvalid
| RpcErrorResponse
| RpcFormat
| MissingAccountData
| AccountDataDecoding
| AltNotFound (key : Pubkey)
| AltIndexOutOfBounds (key : Pubkey) (index len : Z)
| TransactionDecoding
| TransactionDeserialization
| SanitizeFailed
| OffsetsFailed (e : DetectorError)
| RuntimeEnvironment
| InstructionOutOfBounds (index len : Z)
| PrepareFailed (e : InstructionError).

(** ** Ranges *)

Definition parse_range (r : Str) : Result Range CliError :=
  match split 45 (trim r) with
  | [first; second] =>
      let? start := map_err (InvalidRangeStart first) (parse_usize first) in
      let? end_ := map_err (InvalidRangeEnd second) (parse_usize second) in
      Ok (mkRange start end_)
  | _ => Err (InvalidRangeFormat r)
  end.

(** [collect] into a [Result]: the first error. *)
Fixpoint collect {A B E} (f : A -> Result B E) (l : list A) : Result (list B) E :=
  match l with
  | [] => Ok []
  | x :: l => let? y := f x in let? ys := collect f l in Ok (y :: ys)
  end.

Definition parse_ranges (s : Str) : Result (list Range) CliError := collect parse_range (split 44 s).

(** ** Accounts from the server *)

(** What the program uses of [serde_json::Value]. *)
Class JsonValue (V : Type) := {
  json_null : V;
  json_get : V -> Str -> option V;
  json_is_null : V -> bool;
  json_as_u64 : V -> option Z;
  json_as_str : V -> option Str;
  json_as_bool : V -> option bool;
  json_as_array : V -> option (list V)
}.

(** Indexing by a string gives [Null] for what is missing. *)
Definition json_index {V} `{JsonValue V} (v : V) (key : string) : V := default json_null (json_get v (str key)).

(** A freshly built account does not share its data; a clone does. *)
Definition account_from (lamports : Z) (data : list Z) (owner : Pubkey) (executable : bool) (rent_epoch : Z)
    : AccountSharedData := mkAccountSharedData lamports data owner executable rent_epoch false.
Definition clone_account (a : AccountSharedData) : AccountSharedData :=
  mkAccountSharedData (sd_lamports a) (sd_data a) (sd_owner a) (sd_executable a) (sd_rent_epoch a) true.
Definition account_default : AccountSharedData := account_from 0 [] Pubkey_default false 0.

Section accounts.
Context {V : Type} `{JsonValue V}.
(** The answer of the server: a failed request, an unreadable response, or a value. *)
Variable rpc : list Pubkey -> Result V CliError.
Variable parse_pubkey : Str -> option Pubkey.
Variable base64_decode : Str -> option (list Z).

Definition parse_account (value : V) : option (Result (option AccountSharedData) CliError) :=
  if json_is_null value then Some (Ok None)
  else
    let lamports := default 0 (json_as_u64 (json_index value "lamports")) in
    let owner := default Pubkey_default (parse_pubkey (default [] (json_as_str (json_index value "owner")))) in
    let executable := default false (json_as_bool (json_index value "executable")) in
    let rent_epoch := default 0 (json_as_u64 (json_index value "rentEpoch")) in
    match json_as_array (json_index value "data") with
    | None => Some (Err MissingAccountData)
    | Some data_arr =>
        let! first := data_arr !! 0%nat in
        match base64_decode (default [] (json_as_str first)) with
        | None => Some (Err AccountDataDecoding)
        | Some data => Some (Ok (Some (account_from lamports data owner executable rent_epoch)))
        end
    end.

Fixpoint parse_accounts (values : list V) : option (Result (list (option AccountSharedData)) CliError) :=
  match values with
  | [] => Some (Ok [])
  | v :: values =>
      let! r := parse_account v in
      match r with
      | Err e => Some (Err e)
      | Ok a =>
          let! rest := parse_accounts values in
          Some (let? rest := rest in Ok (a :: rest))
      end
  end.

Definition fetch_accounts (keys : list Pubkey) : option (Result (list (option AccountSharedData)) CliError) :=
  match rpc keys with
  | Err e => Some (Err e)
  | Ok resp =>
      match json_get resp (str "error") with
      | Some _ => Some (Err RpcErrorResponse)
      | None =>
          match json_as_array (json_index (json_index resp "result") "value") with
          | None => Some (Err RpcFormat)
          | Some accounts => parse_accounts accounts
          end
      end
  end.

End accounts.

(** ** Address lookup tables *)

(** [chunks_exact]: the remainder is left out. *)
Definition chunks_exact (n : Z) (l : list Z) : list (list Z) :=
  map (fun i => slice l (i * n) ((i + 1) * n)) (seqZ 0 (len l / n)).

Definition META_SIZE : Z := 56.

Definition parse_alt_addresses (data : list Z) : list Pubkey :=
  if len data <? META_SIZE then [] else chunks_exact 32 (drop (Z.to_nat META_SIZE) data).

(** [v0::MessageAddressTableLookup]. *)
Record AddressTableLookup := mkAddressTableLookup {
  lookup_account_key : Pubkey;
  writable_indexes : list Z;
  readonly_indexes : list Z
}.

(** [v0::LoadedAddresses]. *)
Record LoadedAddresses := mkLoadedAddresses { loaded_writable : list Pubkey; loaded_readonly : list Pubkey }.

Definition lookup_indexes (key : Pubkey) (addresses : list Pubkey) (indexes : list Z)
    : Result (list Pubkey) CliError :=
  collect (fun idx =>
    match addresses !! Z.to_nat idx with
    | Some addr => Ok addr
    | None => Err (AltIndexOutOfBounds key idx (len addresses))
    end) indexes.

(** The loop over the tables and their accounts. *)
Fixpoint resolve_tables (tables : list (AddressTableLookup * option AccountSharedData))
    (loaded : LoadedAddresses) : Result LoadedAddresses CliError :=
  match tables with
  | [] => Ok loaded
  | (lookup, maybe_account) :: tables =>
      match maybe_account with
      | None => Err (AltNotFound (lookup_account_key lookup))
      | Some account =>
          let addresses := parse_alt_addresses (sd_data account) in
          let? writable := lookup_indexes (lookup_account_key lookup) addresses (writable_indexes lookup) in
          let? readonly := lookup_indexes (lookup_account_key lookup) addresses (readonly_indexes lookup) in
          resolve_tables tables
            (mkLoadedAddresses (loaded_writable loaded ++ writable) (loaded_readonly loaded ++ readonly))
      end
  end.

Definition resolve_address_lookups
    (fetch : list Pubkey -> option (Result (list (option AccountSharedData)) CliError))
    (lookups : list AddressTableLookup) : option (Result LoadedAddresses CliError) :=
  if is_nil lookups then Some (Ok (mkLoadedAddresses [] []))
  else
    let! fetched := fetch (map lookup_account_key lookups) in
    Some (let? alt_accounts := fetched in
          resolve_tables (zip lookups alt_accounts) (mkLoadedAddresses [] [])).

(** ** The message *)

(** [CompiledInstruction]. *)
Record CompiledInstruction := mkCompiledInstruction {
  ci_program_id_index : Z;
  ci_accounts : list Z;
  ci_data : list Z
}.

(** What the program uses of [SanitizedMessage]. *)
Record SanitizedMessage := mkSanitizedMessage {
  msg_account_keys : list Pubkey;
  msg_instructions : list CompiledInstruction;
  msg_is_signer : Z -> bool;
  msg_is_writable : Z -> bool
}.

(** [BorrowedAccountMeta] and [BorrowedInstruction]. *)
Record BorrowedAccountMeta := mkBorrowedAccountMeta {
  bm_pubkey : Pubkey;
  bm_is_signer : bool;
  bm_is_writable : bool
}.
Record BorrowedInstruction := mkBorrowedInstruction {
  bi_program_id : Pubkey;
  bi_accounts : list BorrowedAccountMeta;
  bi_data : list Z
}.

(** An account of an instruction; the key is unwrapped. *)
Definition borrow_account (m : SanitizedMessage) (account_index : Z) : option BorrowedAccountMeta :=
  let! key := msg_account_keys m !! Z.to_nat account_index in
  Some (mkBorrowedAccountMeta key (msg_is_signer m account_index) (msg_is_writable m account_index)).

Definition decompile_instruction (m : SanitizedMessage) (ci : CompiledInstruction) : option BorrowedInstruction :=
  let! program_id := msg_account_keys m !! Z.to_nat (ci_program_id_index ci) in
  let! accounts := mapM (borrow_account m) (ci_accounts ci) in
  Some (mkBorrowedInstruction program_id accounts (ci_data ci)).

Definition construct_instructions_account (construct_instructions_data : list BorrowedInstruction -> list Z)
    (sysvar_owner : Pubkey) (m : SanitizedMessage) : option AccountSharedData :=
  let! instructions := mapM (decompile_instruction m) (msg_instructions m) in
  Some (account_from 0 (construct_instructions_data instructions) sysvar_owner false 0).

(** ** The program cache *)

Section cache.
(** [ProgramCacheEntry]: the builtins, and the loader of programs for an owner. *)
Context {Entry : Type}.
Variable builtins : list (Pubkey * Entry).
Variable runtime_environment : Result unit CliError.
Variable load_entry : Pubkey -> list Z -> option Entry.
Variables bpf_loader bpf_loader_deprecated bpf_loader_upgradeable : Pubkey.

(** [ProgramCacheForTxBatch]: its entries. *)
Abbreviation ProgramCache := (gmap Pubkey Entry).

Definition replenish (cache : ProgramCache) (key : Pubkey) (entry : Entry) : ProgramCache := <[key := entry]> cache.

Definition add_program (cache : ProgramCache) (account : Pubkey * AccountSharedData) : ProgramCache :=
  let '(program_id, account) := account in
  if existsb (fun b => bool_decide (b.1 = program_id)) builtins then cache
  else
    let owner := sd_owner account in
    if bool_decide (owner = bpf_loader) || bool_decide (owner = bpf_loader_deprecated)
    then
      match load_entry owner (sd_data account) with
      | Some entry => replenish cache program_id entry
      | None => cache
      end
    else cache.

Definition build_program_cache (executable_accounts : list (Pubkey * AccountSharedData))
    : Result ProgramCache CliError :=
  let cache := fold_left (fun cache b => replenish cache b.1 b.2) builtins ∅ in
  let? _ := runtime_environment in
  Ok (fold_left add_program executable_accounts cache).

(** The programdata address in the account of an upgradeable program. *)
Definition programdata_of (account : Pubkey * option AccountSharedData) : option (Pubkey * Pubkey) :=
  let '(key, maybe_account) := account in
  match maybe_account with
  | Some account =>
      if sd_executable account && bool_decide (sd_owner account = bpf_loader_upgradeable) then
        let data := sd_data account in
        if 36 <=? len data then
          if le_combine (slice data 0 4) =? 2 then Some (slice data 4 36, key) else None
        else None
      else None
  | None => None
  end.

Definition PROGRAMDATA_HEADER : Z := 45.

Definition add_upgradeable (cache : ProgramCache) (program : Pubkey * option AccountSharedData) : ProgramCache :=
  let '(program_id, maybe_programdata) := program in
  match maybe_programdata with
  | Some programdata =>
      let data := sd_data programdata in
      if PROGRAMDATA_HEADER <? len data then
        match load_entry bpf_loader_upgradeable (drop (Z.to_nat PROGRAMDATA_HEADER) data) with
        | Some entry => replenish cache program_id entry
        | None => cache
        end
      else cache
  | None => cache
  end.

Definition load_upgradeable_programs
    (fetch : list Pubkey -> option (Result (list (option AccountSharedData)) CliError))
    (cache : ProgramCache) (accounts : list (Pubkey * option AccountSharedData))
    : option (Result ProgramCache CliError) :=
  match runtime_environment with
  | Err e => Some (Err e)
  | Ok _ =>
      let programs := omap programdata_of accounts in
      if is_nil programs then Some (Ok cache)
      else
        let! fetched := fetch (map fst programs) in
        Some (let? programdata_accounts := fetched in
              Ok (fold_left add_upgradeable (zip (map snd programs) programdata_accounts) cache))
  end.

End cache.

(** ** The program *)

(** The transaction accounts: the sysvar is the constructed one, what the server does not have is
    a default account. *)
Definition transaction_account (instructions_sysvar_id : Pubkey) (instructions_account : AccountSharedData)
    (entry : Pubkey * option AccountSharedData) : Pubkey * AccountSharedData :=
  let '(key, maybe_account) := entry in
  (key,
   if bool_decide (key = instructions_sysvar_id) then clone_account instructions_account
   else match maybe_account with Some account => clone_account account | None => account_default end).

(** The sysvars that were fetched. *)
Definition sysvar_data (entry : Pubkey * option AccountSharedData) : option (Pubkey * list Z) :=
  option_map (fun account => (entry.1, sd_data account)) entry.2.

(** The messages of a transaction: the legacy ones, and those with lookup tables. *)
Inductive VersionedMessage (L W : Type) :=
| Legacy (message : L)
| V0 (message : W).
Arguments Legacy {L W}.
Arguments V0 {L W}.

Record Cli := mkCli { transaction : Str; cli_instruction_index : Z; cli_forbidden_ranges : Str }.

(** The budget of [ComputeBudget::new_with_defaults]. *)
Record ComputeBudget := mkComputeBudget {
  compute_unit_limit : Z;
  max_instruction_stack_depth : Z;
  max_instruction_trace_length : Z
}.
Definition MAX_COMPUTE_UNIT_LIMIT : Z := 1400000.
Definition MAX_INSTRUCTION_STACK_DEPTH : Z := 5.
Definition MAX_INSTRUCTION_STACK_DEPTH_SIMD_0268 : Z := 9.
Definition get_max_instruction_stack_depth (simd_0268_active : bool) : Z :=
  if simd_0268_active then MAX_INSTRUCTION_STACK_DEPTH_SIMD_0268 else MAX_INSTRUCTION_STACK_DEPTH.
Definition budget_new_with_defaults (simd_0268_active : bool) : ComputeBudget :=
  mkComputeBudget MAX_COMPUTE_UNIT_LIMIT (get_max_instruction_stack_depth simd_0268_active)
    MAX_INSTRUCTION_TRACE_LENGTH.

(** Everything around the program that is not its own code. *)
Record World {V L W Entry : Type} := mkWorld {
  rpc : list Pubkey -> Result V CliError;
  parse_pubkey : Str -> option Pubkey;
  base64_decode : Str -> option (list Z);
  bs58_decode : Str -> option (list Z);
  deserialize : list Z -> option (VersionedMessage L W);
  legacy_account_keys : L -> list Pubkey;
  sanitize_legacy : L -> SanitizedMessage;
  address_table_lookups : W -> list AddressTableLookup;
  sanitize_v0 : W -> LoadedAddresses -> option SanitizedMessage;
  construct_instructions_data : list BorrowedInstruction -> list Z;
  w_builtins : list (Pubkey * Entry);
  w_runtime_environment : Result unit CliError;
  w_load_entry : Pubkey -> list Z -> option Entry;
  w_bpf_loader : Pubkey;
  w_bpf_loader_deprecated : Pubkey;
  w_bpf_loader_upgradeable : Pubkey;
  instructions_id : Pubkey;
  sysvar_owner : Pubkey;
  sysvar_ids : list Pubkey;
  store_current_index_checked : list Z -> Z -> Result (list Z) InstructionError;
  process_executable_chain : gmap Pubkey Entry -> gmap Pubkey (list Z) -> InvokeContext ->
    InvokeContext * Result unit InstructionError
}.
Arguments World : clear implicits.

Section main.
Context {V L W Entry : Type} `{JsonValue V}.
Variable w : World V L W Entry.

Definition fetch : list Pubkey -> option (Result (list (option AccountSharedData)) CliError) :=
  fetch_accounts (rpc w) (parse_pubkey w) (base64_decode w).

(** Steps 1 and 2: the message and all account keys. *)
Definition resolve_message (cli : Cli) : option (Result (SanitizedMessage * list Pubkey) CliError) :=
  match bs58_decode w (transaction cli) with
  | None => Some (Err TransactionDecoding)
  | Some tx_bytes =>
      match deserialize w tx_bytes with
      | None => Some (Err TransactionDeserialization)
      | Some (Legacy message) => Some (Ok (sanitize_legacy w message, legacy_account_keys w message))
      | Some (V0 message) =>
          let! loaded := resolve_address_lookups fetch (address_table_lookups w message) in
          Some (let? loaded_addresses := loaded in
                match sanitize_v0 w message loaded_addresses with
                | None => Err SanitizeFailed
                | Some sanitized => Ok (sanitized, msg_account_keys sanitized)
                end)
      end
  end.

(** Steps 3 to 6: the accounts of the transaction and the forbidden offsets. *)
Definition load_transaction (cli : Cli) (ranges : list Range) (m : SanitizedMessage) (keys : list Pubkey)
    : option (Result (list (option AccountSharedData) * list (Pubkey * AccountSharedData) * list Range) CliError) :=
  let! fetched := fetch keys in
  match fetched with
  | Err e => Some (Err e)
  | Ok fetched_accounts =>
      let! instructions_account :=
        construct_instructions_account (construct_instructions_data w) (sysvar_owner w) m in
      let transaction_accounts :=
        map (transaction_account (instructions_id w) instructions_account) (zip keys fetched_accounts) in
      let instructions :=
        map (fun ix => mkInstructionInfo (len (ci_accounts ix)) (len (ci_data ix))) (msg_instructions m) in
      let detector := mkDetector (with_ranges (cli_instruction_index cli) ranges) in
      Some (let? offsets := map_err OffsetsFailed (calculate_forbidden_sysvar_offsets detector instructions) in
            Ok (fetched_accounts, transaction_accounts, offsets))
  end.

(** Step 7: the programs. *)
Definition load_programs (keys : list Pubkey) (fetched_accounts : list (option AccountSharedData))
    (transaction_accounts : list (Pubkey * AccountSharedData)) : option (Result (gmap Pubkey Entry) CliError) :=
  let executable_accounts := List.filter (fun e => sd_executable e.2) transaction_accounts in
  match build_program_cache (w_builtins w) (w_runtime_environment w) (w_load_entry w) (w_bpf_loader w)
          (w_bpf_loader_deprecated w) executable_accounts with
  | Err e => Some (Err e)
  | Ok cache =>
      load_upgradeable_programs (w_runtime_environment w) (w_load_entry w) (w_bpf_loader_upgradeable w)
        fetch cache (zip keys fetched_accounts)
  end.

(** Step 8: the sysvars. *)
Definition load_sysvars : option (Result (gmap Pubkey (list Z)) CliError) :=
  let! fetched := fetch (sysvar_ids w) in
  Some (let? sysvar_accounts := fetched in
        Ok (list_to_map (omap sysvar_data (zip (sysvar_ids w) sysvar_accounts)))).

(** Step 9: the context of the invocation, with the watched instruction as the next one. *)
Definition prepare_simulation (cli : Cli) (m : SanitizedMessage)
    (transaction_accounts : list (Pubkey * AccountSharedData)) (offsets : list Range)
    : option (Result InvokeContext CliError) :=
  let budget := budget_new_with_defaults false in
  let transaction_context :=
    context_new transaction_accounts (max_instruction_stack_depth budget) (max_instruction_trace_length budget)
      (len (msg_instructions m)) in
  let ic := set_forbidden_sysvar_data_ranges offsets
              (invoke_context_new transaction_context (compute_unit_limit budget)) in
  match msg_instructions m !! Z.to_nat (cli_instruction_index cli) with
  | None => Some (Err (InstructionOutOfBounds (cli_instruction_index cli) (len (msg_instructions m))))
  | Some compiled_ix =>
      let! (ic, prepared) :=
        prepare_next_top_level_instruction ic (msg_is_signer m) (msg_is_writable m) (ci_accounts compiled_ix)
          (ci_program_id_index compiled_ix) (ci_data compiled_ix) in
      match prepared with
      | Err e => Some (Err (PrepareFailed e))
      | Ok _ => Some (Ok ic)
      end
  end.

Definition simulate (cli : Cli) (m : SanitizedMessage) (transaction_accounts : list (Pubkey * AccountSharedData))
    (offsets : list Range) (cache : gmap Pubkey Entry) (sysvars : gmap Pubkey (list Z))
    : option (Result (Result unit InstructionError * list (Z * Z)) CliError) :=
  let! prepared := prepare_simulation cli m transaction_accounts offsets in
  Some (let? ic := prepared in
        let '(ic, exec_result) :=
          process_instruction (instructions_id w) (sysvar_owner w) (store_current_index_checked w)
            (process_executable_chain w cache sysvars) ic in
        Ok (exec_result, forbidden_memory_accesses ic)).

(** The result of the execution and the forbidden accesses, or the error that ends [main]. *)
Definition run (cli : Cli) : option (Result (Result unit InstructionError * list (Z * Z)) CliError) :=
  match parse_ranges (cli_forbidden_ranges cli) with
  | Err e => Some (Err e)
  | Ok ranges =>
      let! resolved := resolve_message cli in
      match resolved with Err e => Some (Err e) | Ok (m, keys) =>
      let! loaded := load_transaction cli ranges m keys in
      match loaded with Err e => Some (Err e) | Ok (fetched_accounts, transaction_accounts, offsets) =>
      let! programs := load_programs keys fetched_accounts transaction_accounts in
      match programs with Err e => Some (Err e) | Ok cache =>
      let! loaded_sysvars := load_sysvars in
      match loaded_sysvars with Err e => Some (Err e) | Ok sysvars =>
      match w_runtime_environment w with Err e => Some (Err e) | Ok _ =>
      simulate cli m transaction_accounts offsets cache sysvars
      end end end end end
  end.

(** The exit code of the process: an error of [main] gives 1, a panic 101. *)
Definition exit_code (cli : Cli) : Z :=
  match run cli with
  | None => 101
  | Some (Err _) => 1
  | Some (Ok (_, forbidden_accesses)) => if negb (is_nil forbidden_accesses) then 1 else 0
  end.

End main.
