(* ===== verification/CliSafe.v ===== *)
(** Theorems about the command line program ([Cli]): the language of the forbidden ranges, the
    addresses of lookup tables, and what the simulated instruction finds in the instructions
    sysvar. *)

From Stdlib Require Import ZArith Lia Bool.
From stdpp Require Import gmap strings.
From S2P Require Import Prelude.
From S2P Require Import GobbleLib.
From S2P Require Import TxAccounts.
From S2P Require Import TxContext.
From S2P Require Import InvokeContext.
From S2P Require Import Cli.

#[local] Open Scope Z_scope.

(** ** The language of ranges *)

Definition COMMA : Z := 44.
Definition MINUS : Z := 45.
Definition PLUS : Z := 43.

(** Decimal digits and their value. *)
Definition is_digit (c : Z) : Prop := 48 <= c <= 57.
Definition digits_value (acc : Z) (s : Str) : Z := fold_left (fun n c => 10 * n + (c - 48)) s acc.

(** A numeral of a [usize], with an optional sign. *)
Definition numeral (s : Str) (n : Z) : Prop :=
  exists ds, (s = ds \/ s = PLUS :: ds) /\ ds <> [] /\ Forall is_digit ds /\ digits_value 0 ds = n /\ n <= u64_MAX.

(** White space around two numerals with a minus sign in between. *)
Definition range_text (piece : Str) (r : Range) : Prop :=
  exists w1 a b w2, piece = w1 ++ (a ++ MINUS :: b) ++ w2 /\
    Forall (fun c => is_whitespace c = true) w1 /\ Forall (fun c => is_whitespace c = true) w2 /\
    numeral a (r_start r) /\ numeral b (r_end r).

(** Pieces with a separator in between. *)
Fixpoint join (c : Z) (l : list Str) : Str :=
  match l with
  | [] => []
  | [p] => p
  | p :: l => p ++ c :: join c l
  end.

Lemma split_nonempty c s : split c s <> [].
Proof. destruct s as [|x s]; cbn; [done|]. destruct (x =? c); [done|]. by destruct (split c s). Qed.

Lemma split_none c s : c ∉ s -> split c s = [s].
Proof.
  induction s as [|x s IH]; intros Hn; [done|]. cbn. apply not_elem_of_cons in Hn as [Hx Hn].
  rewrite (proj2 (Z.eqb_neq _ _)) by done. by rewrite IH.
Qed.

Lemma split_app c p s : c ∉ p -> split c (p ++ c :: s) = p :: split c s.
Proof.
  induction p as [|x p IH]; intros Hn; cbn; [by rewrite Z.eqb_refl|].
  apply not_elem_of_cons in Hn as [Hx Hn]. rewrite (proj2 (Z.eqb_neq _ _)) by done. by rewrite IH.
Qed.

(** Splitting inverts joining. *)
Lemma split_join c l : l <> [] -> Forall (fun p => c ∉ p) l -> split c (join c l) = l.
Proof.
  intros Hne Hl. induction Hl as [|p l Hp _ IH]; [done|]. destruct l as [|q l]; [by apply split_none|].
  change (join c (p :: q :: l)) with (p ++ c :: join c (q :: l)). rewrite split_app by done. by rewrite IH.
Qed.

Lemma join_split c s : join c (split c s) = s /\ Forall (fun p => c ∉ p) (split c s).
Proof.
  induction s as [|x s [IH1 IH2]]; cbn; [split; [done|]; constructor; [apply not_elem_of_nil|done]|].
  pose proof (split_nonempty c s) as Hne.
  destruct (Z.eqb_spec x c) as [->|Hx].
  - split; [|constructor; [apply not_elem_of_nil|done]]. cbn. destruct (split c s); [done|]. by rewrite IH1.
  - destruct (split c s) as [|p ps]; [done|]. apply Forall_cons in IH2 as [Hp Hps].
    split; [|constructor; [by apply not_elem_of_cons|done]]. rewrite <- IH1. by destruct ps.
Qed.

(** Trimming removes the white space at both ends. *)
Lemma trim_start_app w s : Forall (fun c => is_whitespace c = true) w -> trim_start (w ++ s) = trim_start s.
Proof. induction 1 as [|x w Hx _ IH]; cbn; [done|]. by rewrite Hx. Qed.

Lemma trim_start_split s : exists w, Forall (fun c => is_whitespace c = true) w /\ s = w ++ trim_start s.
Proof.
  induction s as [|x s (w & Hw & E)]; [by exists []|]. cbn. destruct (is_whitespace x) eqn:Ex.
  - exists (x :: w). split; [by constructor|]. cbn. by rewrite <- E.
  - by exists [].
Qed.

Lemma trim_split s : exists w1 w2, Forall (fun c => is_whitespace c = true) w1 /\
  Forall (fun c => is_whitespace c = true) w2 /\ s = w1 ++ trim s ++ w2.
Proof.
  destruct (trim_start_split s) as (w1 & H1 & E1).
  destruct (trim_start_split (rev (trim_start s))) as (w2 & H2 & E2).
  exists w1, (rev w2). split; [done|]. split; [by apply Forall_rev|]. rewrite E1 at 1. f_equal.
  unfold trim, trim_end. apply (f_equal (@rev Z)) in E2. by rewrite rev_involutive, rev_app_distr in E2.
Qed.

Lemma trim_start_id x s : is_whitespace x = false -> trim_start (x :: s) = x :: s.
Proof. cbn. by intros ->. Qed.

Lemma trim_around w1 x s y w2 :
  Forall (fun c => is_whitespace c = true) w1 -> Forall (fun c => is_whitespace c = true) w2 ->
  is_whitespace x = false -> is_whitespace y = false ->
  trim (w1 ++ (x :: s ++ [y]) ++ w2) = x :: s ++ [y].
Proof.
  intros H1 H2 Hx Hy. unfold trim, trim_end. rewrite trim_start_app by done. cbn [app]. rewrite trim_start_id by done.
  change (x :: (s ++ [y]) ++ w2) with ((x :: s ++ [y]) ++ w2). rewrite rev_app_distr, trim_start_app by by apply Forall_rev.
  rewrite (app_comm_cons s [y] x), rev_app_distr. cbn [rev app]. rewrite trim_start_id by done.
  change (rev (y :: rev s ++ [x])) with (rev (rev s ++ [x]) ++ [y]). by rewrite rev_app_distr, rev_involutive.
Qed.

Lemma digits_value_ge s : forall acc, Forall is_digit s -> 0 <= acc -> acc <= digits_value acc s.
Proof.
  induction s as [|c s IH]; intros acc Hd Ha; cbn; [lia|]. apply Forall_cons in Hd as [Hc Hd]. unfold is_digit in Hc.
  specialize (IH (10 * acc + (c - 48)) Hd ltac:(lia)). unfold digits_value in IH. lia.
Qed.

Lemma parse_digits_value s : forall acc, 0 <= acc <= u64_MAX ->
  forall n, parse_digits acc s = Ok n <-> Forall is_digit s /\ digits_value acc s = n /\ n <= u64_MAX.
Proof.
  induction s as [|c s IH]; intros acc Ha n; cbn [parse_digits digits_value fold_left].
  { split; [intros [= <-]; split; [apply Forall_nil_2|split; [done|lia]]|]. by intros (_ & <- & _). }
  unfold to_digit. destruct ((48 <=? c) && (c <=? 57)) eqn:Ec.
  - bool_to_prop. assert (acc * 10 + (c - 48) = 10 * acc + (c - 48)) as Eadd by lia. rewrite Eadd.
    destruct (u64_MAX <? acc * 10) eqn:E1; [|destruct (u64_MAX <? 10 * acc + (c - 48)) eqn:E2]; bool_to_prop.
    1,2: split; [done|]; intros (Hd & Hv & Hn); exfalso; apply Forall_cons in Hd as [_ Hd];
      pose proof (digits_value_ge s (10 * acc + (c - 48)) Hd ltac:(lia)) as Hge; unfold digits_value in Hge; lia.
    rewrite IH by lia. rewrite Forall_cons. unfold is_digit at 2. intuition lia.
  - split; [done|]. intros (Hd & _). apply Forall_cons in Hd as [Hd _]. unfold is_digit in Hd.
    assert ((48 <=? c) && (c <=? 57) = true); [|congruence]. rewrite andb_true_iff, !Z.leb_le. done.
Qed.

Lemma parse_usize_numeral s n : parse_usize s = Ok n <-> numeral s n.
Proof.
  assert (0 <= 0 <= u64_MAX) as H0 by lia. unfold numeral.
  assert (forall ds, Forall is_digit ds -> forall c l, ds = c :: l -> c <> PLUS /\ c <> MINUS) as Hd.
  { intros ds H c l ->. apply Forall_cons in H as [H _]. unfold is_digit, PLUS, MINUS in *. lia. }
  destruct s as [|c [|c' s]]; cbn [parse_usize].
  - split; [done|]. intros (ds & [<-|E] & Hne & _); done.
  - destruct ((c =? 43) || (c =? 45)) eqn:Ec.
    + split; [done|]. intros (ds & [<-|E] & Hne & Hf & _).
      * destruct (Hd _ Hf c [] eq_refl). unfold PLUS, MINUS in *. apply orb_true_iff in Ec. lia.
      * by injection E as _ <-.
    + rewrite parse_digits_value by done. split.
      * intros (Hf & Hv & Hn). exists [c]. split; [by left|]. split; [done|]. done.
      * intros (ds & [<-|E] & Hne & Hf & Hv & Hn); [done|]. by injection E as _ <-.
  - destruct (Z.eqb_spec c 43) as [->|Hc]; rewrite parse_digits_value by done; split.
    + intros (Hf & Hv & Hn). exists (c' :: s). split; [by right|]. split; [done|]. done.
    + intros (ds & [<-|E] & Hne & Hf & Hv & Hn); [by destruct (Hd _ Hf _ _ eq_refl)|]. by injection E as <-.
    + intros (Hf & Hv & Hn). exists (c :: c' :: s). split; [by left|]. split; [done|]. done.
    + intros (ds & [<-|E] & Hne & Hf & Hv & Hn); [done|]. injection E as ->. done.
Qed.

(** The characters of a numeral are neither white space nor separators. *)
Lemma numeral_chars s n : numeral s n ->
  s <> [] /\ Forall (fun c => is_whitespace c = false) s /\ MINUS ∉ s /\ COMMA ∉ s.
Proof.
  intros (ds & Hs & Hne & Hd & _).
  assert (Forall (fun c => is_whitespace c = false /\ c <> MINUS /\ c <> COMMA) s) as H.
  { assert (forall c, is_digit c \/ c = PLUS -> is_whitespace c = false /\ c <> MINUS /\ c <> COMMA) as Hc.
    { unfold is_digit, PLUS, MINUS, COMMA. intros c H. split; [|lia]. unfold is_whitespace.
      rewrite !orb_false_iff, !andb_false_iff, !Z.leb_gt, !Z.eqb_neq. lia. }
    assert (Forall (fun c => is_digit c \/ c = PLUS) ds) as Hd' by (eapply Forall_impl; [exact Hd|]; by left).
    destruct Hs as [->| ->]; [|apply Forall_cons; split; [apply Hc; by right|]]; eapply Forall_impl; [exact Hd'|done|exact Hd'|done]. }
  split; [destruct Hs as [->| ->]; done|]. split; [eapply Forall_impl; [exact H|]; by intros c []|].
  rewrite Forall_forall in H. split; intros Hin; by destruct (H _ Hin) as (_ & H1 & H2).
Qed.

Lemma parse_range_text piece r : parse_range piece = Ok r <-> range_text piece r.
Proof.
  split.
  - unfold parse_range. destruct (split 45 (trim piece)) as [|a [|b [|? ?]]] eqn:Es; try done.
    destruct (parse_usize a) as [x|] eqn:Ea; [|done]. destruct (parse_usize b) as [y|] eqn:Eb; [|done].
    cbn. intros [= <-]. apply parse_usize_numeral in Ea, Eb.
    destruct (trim_split piece) as (w1 & w2 & H1 & H2 & E). exists w1, a, b, w2. split; [|done].
    destruct (join_split 45 (trim piece)) as [Ej _]. rewrite Es in Ej. cbn in Ej. change MINUS with 45. by rewrite Ej.
  - intros (w1 & a & b & w2 & -> & H1 & H2 & Ha & Hb). destruct r as [x y]. cbn in Ha, Hb.
    destruct (numeral_chars a x Ha) as (Na & Wa & Ma & _). destruct (numeral_chars b y Hb) as (Nb & Wb & Mb & _).
    unfold parse_range. assert (trim (w1 ++ (a ++ MINUS :: b) ++ w2) = a ++ MINUS :: b) as ->.
    { destruct a as [|c a]; [done|]. destruct (exists_last Nb) as (b' & d & ->).
      apply Forall_cons in Wa as [Wc _]. apply Forall_app in Wb as [_ Wd]. apply Forall_cons in Wd as [Wd _].
      replace ((c :: a) ++ MINUS :: b' ++ [d]) with (c :: (a ++ MINUS :: b') ++ [d])
        by (cbn; by rewrite <- app_assoc).
      by apply trim_around. }
    change 45 with MINUS. rewrite split_app, split_none by done. cbn.
    apply parse_usize_numeral in Ha, Hb. by rewrite Ha, Hb.
Qed.

Lemma collect_Forall2 {A B E} (f : A -> Result B E) (P : A -> B -> Prop) l ys :
  (forall x y, f x = Ok y <-> P x y) -> collect f l = Ok ys <-> Forall2 P l ys.
Proof.
  intros Hf. revert ys. induction l as [|x l IH]; intros ys; cbn [collect].
  { split; [intros [= <-]; constructor|]. by inversion 1. }
  split.
  - destruct (f x) as [y|] eqn:Ex; [|done]. destruct (collect f l) as [ys'|] eqn:El; [|done].
    intros [= <-]. constructor; [by apply Hf|by apply IH].
  - inversion 1 as [|? y ? ys' Hy Hys]; subst. apply Hf in Hy. apply IH in Hys. by rewrite Hy, Hys.
Qed.

Lemma range_text_comma piece r : range_text piece r -> COMMA ∉ piece.
Proof.
  intros (w1 & a & b & w2 & -> & H1 & H2 & Ha & Hb).
  destruct (numeral_chars a _ Ha) as (_ & _ & _ & Ca). destruct (numeral_chars b _ Hb) as (_ & _ & _ & Cb).
  rewrite Forall_forall in H1, H2. rewrite !elem_of_app, elem_of_cons.
  intros [Hin|[[Hin|[Hin|Hin]]|Hin]]; [by apply H1 in Hin|done|done|done|by apply H2 in Hin].
Qed.

(** The language of the forbidden ranges. The argument is accepted with ranges [rs] exactly
    when it is a list of pieces separated by commas, one for each range, every piece being two
    numerals of a [usize] with a minus sign in between and white space around. *)
Theorem parse_ranges_grammar (s : Str) (rs : list Range) :
  parse_ranges s = Ok rs <->
  exists pieces, pieces <> [] /\ s = join COMMA pieces /\ Forall2 range_text pieces rs.
Proof.
  unfold parse_ranges. rewrite (collect_Forall2 _ range_text) by apply parse_range_text. split.
  - intros H. exists (split COMMA s). destruct (join_split COMMA s) as [E _]. split; [apply split_nonempty|done].
  - intros (pieces & Hne & -> & H). change 44 with COMMA. rewrite split_join; [done|done|].
    apply Forall_forall. intros p Hp. apply list_elem_of_lookup in Hp as [i Hi].
    destruct (Forall2_lookup_l _ _ _ _ _ H Hi) as (r & _ & Hr). by eapply range_text_comma.
Qed.

(** ** Address lookup tables *)

(** The [i]-th address of a table. *)
Definition table_address (data : list Z) (i : Z) : Pubkey := slice data (META_SIZE + 32 * i) (META_SIZE + 32 * (i + 1)).

Definition in_table (data : list Z) (i : Z) : Prop := META_SIZE + 32 * (i + 1) <= len data.

#[export] Instance in_table_dec data i : Decision (in_table data i).
Proof. apply Z_le_dec. Defined.

Lemma slice_drop {A} (l : list A) (n : nat) a b : 0 <= a -> slice (drop n l) a b = slice l (Z.of_nat n + a) (Z.of_nat n + b).
Proof.
  intros Ha. unfold slice. rewrite drop_drop. f_equal; [lia|]. f_equal. lia.
Qed.

Lemma alt_addresses data i : 0 <= i ->
  parse_alt_addresses data !! Z.to_nat i = if bool_decide (in_table data i) then Some (table_address data i) else None.
Proof.
  intros Hi. unfold parse_alt_addresses, in_table, META_SIZE. destruct (Z.ltb_spec (len data) 56) as [Hlt|Hge].
  { rewrite bool_decide_eq_false_2 by lia. done. }
  unfold chunks_exact. change (map ?f (seqZ _ _)) with (f <$> seqZ 0 (len (drop 56 data) / 32)).
  rewrite list_lookup_fmap. assert (len (drop (Z.to_nat 56) data) = len data - 56) as El.
  { unfold len in *. rewrite length_drop. lia. }
  change 56%nat with (Z.to_nat 56) at 1. rewrite El.
  pose proof (Z.div_mod (len data - 56) 32 ltac:(lia)). pose proof (Z.mod_pos_bound (len data - 56) 32 ltac:(lia)).
  case_bool_decide as Hin.
  - rewrite lookup_seqZ_lt by lia. cbn [fmap option_fmap option_map]. rewrite slice_drop by lia.
    unfold table_address, META_SIZE. do 2 f_equal; lia.
  - rewrite lookup_seqZ_ge by lia. done.
Qed.

Lemma lookup_indexes_spec key data indexes addrs : Forall (Z.le 0) indexes ->
  lookup_indexes key (parse_alt_addresses data) indexes = Ok addrs <->
  Forall (in_table data) indexes /\ addrs = map (table_address data) indexes.
Proof.
  intros Hi. unfold lookup_indexes. revert addrs.
  induction Hi as [|i indexes H0 _ IH]; intros addrs; cbn [collect map].
  { split; [intros [= <-]; split; [constructor|done]|]. by intros [_ ->]. }
  rewrite alt_addresses by done. rewrite Forall_cons. case_bool_decide as Hin; [|naive_solver]. cbn beta iota.
  destruct (collect _ indexes) as [rest|].
  - destruct (IH rest) as [IH1 IH2]. split.
    + intros [= <-]. destruct (IH1 eq_refl) as [? ->]. done.
    + intros [[_ Hf] ->]. destruct (IH (map (table_address data) indexes)) as [_ IH3].
      specialize (IH3 (conj Hf eq_refl)). by injection IH3 as ->.
  - split; [done|]. intros [[_ Hf] ->]. destruct (IH (map (table_address data) indexes)) as [_ IH3].
    specialize (IH3 (conj Hf eq_refl)). done.
Qed.

(** A table that has all the addresses that a lookup asks for. *)
Definition table_serves (l : AddressTableLookup) (a : AccountSharedData) : Prop :=
  Forall (in_table (sd_data a)) (writable_indexes l ++ readonly_indexes l).

Definition lookup_ok (l : AddressTableLookup) : Prop := Forall (Z.le 0) (writable_indexes l ++ readonly_indexes l).

Definition addresses_of (indexes : AddressTableLookup -> list Z) (l : AddressTableLookup) (a : AccountSharedData)
    : list Pubkey := map (table_address (sd_data a)) (indexes l).

Lemma resolve_tables_spec lookups alts : Forall lookup_ok lookups -> length alts = length lookups ->
  forall acc loaded, resolve_tables (zip lookups alts) acc = Ok loaded <->
  exists accounts, alts = map Some accounts /\ Forall2 table_serves lookups accounts /\
    loaded_writable loaded = loaded_writable acc ++ concat (zip_with (addresses_of writable_indexes) lookups accounts) /\
    loaded_readonly loaded = loaded_readonly acc ++ concat (zip_with (addresses_of readonly_indexes) lookups accounts).
Proof.
  intros Hl. revert alts. induction Hl as [|l lookups Hl _ IH]; intros [|alt alts] Hlen; try done; intros acc loaded.
  { cbn. split.
    - intros [= <-]. exists []. cbn. rewrite !app_nil_r. done.
    - intros ([|? ?] & E & _ & Hw & Hr); [|done]. cbn in Hw, Hr. rewrite app_nil_r in Hw, Hr.
      destruct acc, loaded. cbn in *. by subst. }
  change (zip (l :: lookups) (alt :: alts)) with ((l, alt) :: zip lookups alts). cbn [resolve_tables].
  unfold lookup_ok in Hl. apply Forall_app in Hl as [Hlw Hlr]. destruct alt as [a|]; [|split; [done|]].
  2:{ intros ([|? ?] & E & _); done. }
  destruct (lookup_indexes _ _ (writable_indexes l)) as [ws|] eqn:Ew.
  2:{ split; [done|]. intros ([|a' accounts] & E & H2 & _); [done|]. injection E as -> ->. inversion H2 as [|? ? ? ? Hs]; subst.
      apply Forall_app in Hs as [Hs _]. rewrite (proj2 (lookup_indexes_spec _ _ _ _ Hlw)) in Ew by done. done. }
  destruct (lookup_indexes _ _ (readonly_indexes l)) as [rds|] eqn:Er.
  2:{ split; [done|]. intros ([|a' accounts] & E & H2 & _); [done|]. injection E as -> ->. inversion H2 as [|? ? ? ? Hs]; subst.
      apply Forall_app in Hs as [_ Hs]. rewrite (proj2 (lookup_indexes_spec _ _ _ _ Hlr)) in Er by done. done. }
  apply lookup_indexes_spec in Ew as [Sw ->]; [|done]. apply lookup_indexes_spec in Er as [Sr ->]; [|done].
  rewrite IH by (cbn in Hlen; lia). cbn [loaded_writable loaded_readonly]. split.
  - intros (accounts & -> & H2 & Hw & Hr). exists (a :: accounts). cbn [map zip_with concat].
    rewrite <- !app_assoc in Hw, Hr. split; [done|]. split; [|done]. constructor; [by apply Forall_app|done].
  - intros ([|a' accounts] & E & H2 & Hw & Hr); [done|]. injection E as <- ->. inversion H2; subst.
    exists accounts. cbn [zip_with concat] in Hw, Hr. by rewrite <- !app_assoc.
Qed.

(** Address lookup tables. With an account or nothing from the server for every table, the
    lookups resolve exactly when every table exists and has all the addresses asked for; the
    loaded addresses are then the 32 byte entries of the tables, in the order of the tables and
    their indexes. *)
Theorem lookups_resolved (fetch : list Pubkey -> option (Result (list (option AccountSharedData)) CliError))
    (lookups : list AddressTableLookup) (alts : list (option AccountSharedData)) (loaded : LoadedAddresses) :
  Forall lookup_ok lookups -> length alts = length lookups ->
  fetch (map lookup_account_key lookups) = Some (Ok alts) ->
  resolve_address_lookups fetch lookups = Some (Ok loaded) <->
  exists accounts, alts = map Some accounts /\ Forall2 table_serves lookups accounts /\
    loaded_writable loaded = concat (zip_with (addresses_of writable_indexes) lookups accounts) /\
    loaded_readonly loaded = concat (zip_with (addresses_of readonly_indexes) lookups accounts).
Proof.
  intros Hl Hlen Hf. pose proof (resolve_tables_spec lookups alts Hl Hlen (mkLoadedAddresses [] []) loaded) as H.
  cbn [loaded_writable loaded_readonly app] in H. rewrite <- H. clear H. unfold resolve_address_lookups.
  destruct lookups as [|l lookups]; [destruct alts; [|done]; cbn; split; congruence|]. cbn [is_nil].
  rewrite Hf. cbn. split; congruence.
Qed.

Lemma lookups_resolved_witness :
  let table := account_from 1 (replicate 56 0 ++ seqZ 0 64) (replicate 32 9) false 0 in
  exists accounts,
    [Some table] = map Some accounts /\ [seqZ 32 32] = concat (zip_with (addresses_of writable_indexes)
      [mkAddressTableLookup (replicate 32 7) [1] []] accounts).
Proof.
  intros table.
  destruct (proj1 (lookups_resolved (fun _ => Some (Ok [Some table])) [mkAddressTableLookup (replicate 32 7) [1] []]
    [Some table] (mkLoadedAddresses [seqZ 32 32] [])
    ltac:(repeat constructor; lia) eq_refl eq_refl) ltac:(vm_compute; reflexivity)) as (accounts & H1 & _ & H2 & _).
  exists accounts. split; [exact H1|exact H2].
Defined.

(** ** The simulated instruction *)

(** [store_current_index_checked] writes the index to the last two bytes. *)
Definition StoreLaw (store : list Z -> Z -> Result (list Z) InstructionError) : Prop :=
  forall data index, 2 <= len data -> store data index = Ok (take (length data - 2) data ++ le_split 2 index).

(** The bytes of an instruction in the sysvar: a byte of flags and the key for every account. *)
Definition sysvar_of (flags : bool -> bool -> Z) (i : BorrowedInstruction) : SysvarInstruction :=
  mkSysvarInstruction (map (fun a => flags (bm_is_signer a) (bm_is_writable a) :: bm_pubkey a) (bi_accounts i))
    (bi_program_id i) (bi_data i).

(** [construct_instructions_data] has the documented format, with room for the current index at
    the end. *)
Definition ConstructLaw (flags : bool -> bool -> Z) (construct : list BorrowedInstruction -> list Z) : Prop :=
  forall l, exists table rest, length table = (2 * length l)%nat /\ (2 <= length rest)%nat /\
    construct l = le_split 2 (len l) ++ table ++ concat (map instruction_layout (map (sysvar_of flags) l)) ++ rest.

(** The first position of a key. *)
Lemma position_first key l (p : nat) i :
  l !! p = Some key -> (forall q, (q < p)%nat -> l !! q <> Some key) -> position key l i = Some (i + Z.of_nat p).
Proof.
  revert p i; induction l as [|k l IH]; intros p i Hp Hq; [done|]. cbn. destruct p as [|p].
  - injection Hp as ->. rewrite bool_decide_eq_true_2 by done. f_equal. lia.
  - rewrite bool_decide_eq_false_2.
    + rewrite (IH p); [f_equal; lia|done|]. intros q Hlt. apply (Hq (S q)). lia.
    + intros ->. by apply (Hq 0%nat); [lia|].
Qed.

Lemma accounts_new_key l (p : nat) : shared_account_fields (accounts_new l) !! p =
  (item ← l !! p; Some (mkAccountSharedFields item.1 (sd_owner item.2) (sd_lamports item.2)
    (mkVmSlice (saturating_add GUEST_ACCOUNT_PAYLOAD_BASE_ADDRESS (saturating_mul GUEST_REGION_SIZE (Z.of_nat p)))
       (len (sd_data item.2))))).
Proof. unfold accounts_new. cbn [shared_account_fields]. rewrite list_lookup_imap. by destruct (l !! p). Qed.

Lemma accounts_new_keys l : account_keys (accounts_new l) = map fst l.
Proof.
  unfold account_keys. apply list_eq. intros i. change (map account_key_ ?x) with (account_key_ <$> x).
  change (map fst l) with (fst <$> l). rewrite !list_lookup_fmap, accounts_new_key. by destruct (l !! i).
Qed.

(** Storing the index in the account at a position. *)
Lemma store_index_ok id owner store c l (p : nat) data key lamports exec rent shared :
  StoreLaw store -> accounts c = accounts_new l -> Z.of_nat p < 2 ^ 16 ->
  l !! p = Some (key, mkAccountSharedData lamports data owner exec rent shared) ->
  key = id -> (forall q, (q < p)%nat -> map fst l !! q <> Some id) -> 2 <= len data ->
  exists c', store_current_index id owner store c = (c', Ok tt) /\
    view_data (get_view (accounts c') (Z.of_nat p)) =
      take (length data - 2) data ++ le_split 2 (as_u16 (top_level_instruction_index c)).
Proof.
  intros Hst Hc Hp Hl -> Hq Hd. unfold store_current_index, find_index_of_account. rewrite Hc, accounts_new_keys.
  assert (map fst l !! p = Some id) as Hk.
  { change (map fst l) with (fst <$> l). by rewrite list_lookup_fmap, Hl. }
  rewrite (position_first id _ p 0 Hk Hq). cbn [option_map].
  assert (as_u16 (0 + Z.of_nat p) = Z.of_nat p) as -> by (apply Z.mod_small; lia).
  unfold accounts_try_borrow_mut. assert (p < length l)%nat as Hlt by by eapply lookup_lt_Some.
  assert (borrow_counters (accounts_new l) !! Z.to_nat (Z.of_nat p) = Some 0) as ->.
  { rewrite Nat2Z.id. cbn. by apply lookup_replicate_2. }
  change (counter_try_borrow_mut 0) with (Ok (E := InstructionError) (-1)). cbv beta iota zeta.
  set (a := set_borrow_counters _ _). set (v := get_view (accounts_new l) (Z.of_nat p)).
  assert (view_owner v = owner /\ view_data v = data) as [Ho Hdv].
  { unfold v, get_view, view_owner, view_data. cbn [abi_account private_fields]. rewrite Nat2Z.id. split.
    - erewrite list_lookup_total_correct; [|rewrite accounts_new_key, Hl; reflexivity]. done.
    - unfold accounts_new. cbn [private_account_fields]. change (map ?f l) with (f <$> l).
      erewrite list_lookup_total_correct; [|rewrite list_lookup_fmap, Hl; reflexivity]. done. }
  rewrite Ho, bool_decide_eq_true_2 by done. cbn [negb].
  assert (view_data (view_write_data (view_data v) v) = data) as -> by exact Hdv.
  rewrite Hst by done. eexists. split; [reflexivity|]. unfold drop_ref_mut, set_borrow_counters, put_view.
  unfold get_view, view_data. cbn. rewrite Nat2Z.id.
  rewrite !list_lookup_total_insert_eq; [done|rewrite ?length_insert, ?length_map; lia..].
Qed.

(** The context in which the instruction is pushed. *)
Record prepared (m : SanitizedMessage) (accts : list (Pubkey * AccountSharedData)) (offsets : list Range)
    (target : CompiledInstruction) (ic : InvokeContext) : Prop := {
  prep_accounts : accounts (transaction_context ic) = accounts_new accts;
  prep_offsets : forbidden_sysvar_data_ranges ic = offsets;
  prep_stack : instruction_stack (transaction_context ic) = [];
  prep_trace : exists frame, instruction_trace (transaction_context ic) = [frame] /\
    program_account_index_in_tx frame = ci_program_id_index target;
  prep_capacity : instruction_stack_capacity (transaction_context ic) = MAX_INSTRUCTION_STACK_DEPTH /\
    instruction_trace_capacity (transaction_context ic) = MAX_INSTRUCTION_TRACE_LENGTH;
  prep_index : top_level_instruction_index (transaction_context ic) = 0
}.

Lemma prepare_prepared cli m accts offsets ic :
  prepare_simulation cli m accts offsets = Some (Ok ic) ->
  exists target, msg_instructions m !! Z.to_nat (cli_instruction_index cli) = Some target /\
    prepared m accts offsets target ic.
Proof.
  unfold prepare_simulation. destruct (msg_instructions m !! _) as [target|] eqn:Et; [|done].
  unfold prepare_next_top_level_instruction. destruct (top_level_accounts _ _ _ _ _) as [[map_ ias]|]; [|done].
  unfold configure_next_instruction. cbn. intros [= <-]. exists target. split; [done|]. split; try done. by eexists.
Qed.

(** The push of the prepared instruction succeeds and stores index 0. *)
Lemma push_prepared id owner store m accts offsets target ic (p : nat) data lamports exec rent shared :
  prepared m accts offsets target ic -> StoreLaw store -> Z.of_nat p < 2 ^ 16 ->
  0 <= ci_program_id_index target < u16_MAX -> ci_program_id_index target < len accts ->
  accts !! p = Some (id, mkAccountSharedData lamports data owner exec rent shared) ->
  (forall q, (q < p)%nat -> map fst accts !! q <> Some id) -> 2 <= len data ->
  exists ic2, invoke_push id owner store ic = (ic2, Ok tt) /\
    forbidden_sysvar_data_ranges ic2 = offsets /\
    view_data (get_view (accounts (transaction_context ic2)) (Z.of_nat p)) =
      take (length data - 2) data ++ le_split 2 0.
Proof.
  intros [P1 P2 P3 (frame & P4 & P5) [P6 P7] P8] Hst Hp Hprog Hplt Hl Hq Hd. unfold invoke_push.
  unfold get_instruction_trace_length. rewrite P4. change (saturating_sub (len [frame]) 1) with 0.
  unfold get_instruction_context_at_index_in_trace at 1. rewrite P4.
  change ([frame] !! Z.to_nat 0) with (Some frame). cbv beta iota.
  unfold get_program_key, get_index_of_program_account_in_transaction. cbn [ic_program_account_index_in_tx].
  rewrite P5, (proj2 (Z.eqb_neq _ _)) by lia. unfold get_key_of_account_at_index, account_key. rewrite P1, accounts_new_key.
  destruct (lookup_lt_is_Some_2 accts (Z.to_nat (ci_program_id_index target))) as [item Hitem]; [unfold len in Hplt; lia|].
  rewrite Hitem. cbn [mbind option_bind option_map].
  unfold get_instruction_stack_height. rewrite P3. change (len (@nil Z) =? 0) with true. cbn [negb andb].
  unfold tx_push. unfold get_instruction_stack_height. rewrite P3. cbn [is_nil negb andb].
  change (len (@nil Z)) with 0. unfold tx_bind, on_last_frame, tx_get, tx_modify. cbn [transaction_context set_syscall_contexts].
  rewrite P4. cbn [last removelast app].
  set (c1 := set_trace [_] (transaction_context ic)).
  change (get_instruction_trace_length c1) with 0.
  change (instruction_trace_capacity c1) with (instruction_trace_capacity (transaction_context ic)). rewrite P7.
  change (MAX_INSTRUCTION_TRACE_LENGTH <=? 0) with false. cbv beta iota zeta.
  set (c2 := set_trace _ c1).
  change (instruction_stack_capacity c2) with (instruction_stack_capacity (transaction_context ic)). rewrite P6.
  change (MAX_INSTRUCTION_STACK_DEPTH <=? 0) with false. cbv beta iota zeta. set (c3 := set_stack _ _).
  destruct (store_index_ok id owner store c3 accts p data id lamports exec rent shared Hst P1 Hp Hl eq_refl Hq Hd)
    as (c' & Ec & Ed).
  rewrite Ec. eexists. split; [reflexivity|]. split; [exact P2|]. cbn [transaction_context set_transaction_context].
  rewrite Ed. change (top_level_instruction_index c3) with (top_level_instruction_index (transaction_context ic)).
  by rewrite P8.
Qed.

(** Decompiled instructions have the data and as many accounts as the compiled ones. *)
Lemma decompile_ok m ci b :
  Forall (fun k : Pubkey => length k = 32%nat) (msg_account_keys m) -> decompile_instruction m ci = Some b ->
  bi_data b = ci_data ci /\ length (bi_accounts b) = length (ci_accounts ci) /\
  (Z.to_nat (ci_program_id_index ci) < length (msg_account_keys m))%nat /\
  forall flags, sysvar_instruction_ok (sysvar_of flags b).
Proof.
  intros Hk. unfold decompile_instruction. destruct (_ !! _) as [program|] eqn:Ep; [|done].
  destruct (mapM _ _) as [accts|] eqn:Ea; [|done]. intros [= <-]. cbn. split; [done|].
  split; [by apply length_mapM in Ea|]. split; [by eapply lookup_lt_Some|]. intros flags. split; cbn.
  - apply Forall_map. apply mapM_Some_1 in Ea. apply Forall_forall. intros a Ha.
    apply list_elem_of_lookup in Ha as [i Hi]. destruct (Forall2_lookup_r _ _ _ _ _ Ea Hi) as (x & _ & Hx).
    unfold borrow_account in Hx.
    destruct (msg_account_keys m !! Z.to_nat x) as [key|] eqn:Ekey; [|done]. injection Hx as <-. cbn.
    by rewrite (Forall_lookup_1 _ _ _ _ Hk Ekey).
  - by apply (Forall_lookup_1 _ _ _ _ Hk Ep).
Qed.

Lemma decompile_all m l ds :
  Forall (fun k : Pubkey => length k = 32%nat) (msg_account_keys m) -> mapM (decompile_instruction m) l = Some ds ->
  forall flags,
  map (fun ix => mkInstructionInfo (len (ci_accounts ix)) (len (ci_data ix))) l = map info_of (map (sysvar_of flags) ds) /\
  Forall sysvar_instruction_ok (map (sysvar_of flags) ds) /\
  forall k ci, l !! k = Some ci -> exists b, ds !! k = Some b /\ bi_data b = ci_data ci /\
    (Z.to_nat (ci_program_id_index ci) < length (msg_account_keys m))%nat.
Proof.
  intros Hk H flags. apply mapM_Some_1 in H.
  induction H as [|ci b l ds Hb _ (IH1 & IH2 & IH3)]; [split; [done|split; [constructor|done]]|].
  destruct (decompile_ok m ci b Hk Hb) as (H1 & H2 & H3 & H4). cbn [map]. split; [|split].
  - rewrite IH1. f_equal. unfold info_of, sysvar_of, len. cbn. by rewrite length_map, H1, H2.
  - constructor; [apply H4|done].
  - intros [|k] ci' Hci; [|by apply IH3]. injection Hci as <-. by exists b.
Qed.

Section simulation.
Context {V L W Entry : Type} `{JsonValue V} (w : World V L W Entry) (flags : bool -> bool -> Z).

(** What the program assumes of the message and of the server. *)
Record message_ok (m : SanitizedMessage) (fetched : list (option AccountSharedData)) (p : nat) : Prop := {
  mok_construct : ConstructLaw flags (construct_instructions_data w);
  mok_store : StoreLaw (store_current_index_checked w);
  mok_keys : Forall (fun k : Pubkey => length k = 32%nat) (msg_account_keys m);
  mok_number : len (msg_account_keys m) <= 256;
  mok_programs : Forall (fun ci => 0 <= ci_program_id_index ci < 256) (msg_instructions m);
  mok_fetched : length fetched = length (msg_account_keys m);
  mok_sysvar : msg_account_keys m !! p = Some (instructions_id w);
  mok_first q : (q < p)%nat -> msg_account_keys m !! q <> Some (instructions_id w)
}.

(** The instructions sysvar as the pushed instruction finds it. *)
Lemma sysvar_simulated cli ranges m fetched accts offsets ic p :
  message_ok m fetched p ->
  load_transaction w cli ranges m (msg_account_keys m) = Some (Ok (fetched, accts, offsets)) ->
  prepare_simulation cli m accts offsets = Some (Ok ic) ->
  exists ic2 target instrs bytes front,
    invoke_push (instructions_id w) (sysvar_owner w) (store_current_index_checked w) ic = (ic2, Ok tt) /\
    forbidden_sysvar_data_ranges ic2 = offsets /\
    msg_instructions m !! Z.to_nat (cli_instruction_index cli) = Some target /\
    view_data (get_view (accounts (transaction_context ic2)) (Z.of_nat p)) = bytes /\ bytes = front ++ le_split 2 0 /\
    sysvar_bytes instrs bytes /\ Forall sysvar_instruction_ok instrs /\
    (exists a, accts !! p = Some a /\ len (sd_data a.2) = len bytes) /\
    (exists i, instrs !! Z.to_nat (cli_instruction_index cli) = Some i /\ si_data i = ci_data target) /\
    calculate_forbidden_sysvar_offsets (mkDetector (with_ranges (cli_instruction_index cli) ranges)) (map info_of instrs) = Ok offsets.
Proof.
  intros [M1 M2 M3 M4 M5 M6 M7 M8]. unfold load_transaction. destruct (fetch _ _) as [[fetched'|]|]; [|done..].
  unfold construct_instructions_account. destruct (mapM _ _) as [ds|] eqn:Eds; [|done].
  destruct (decompile_all m _ ds M3 Eds flags) as (D1 & D2 & D3). rewrite D1.
  destruct (calculate_forbidden_sysvar_offsets _ _) as [offs|] eqn:Eo; [|done]. cbn [map_err]. intros [= -> <- <-] Hprep.
  apply prepare_prepared in Hprep as (target & Ht & Hprep). destruct (D3 _ _ Ht) as (b & Hb & Ed & Hlt).
  destruct (M1 ds) as (table & rest & Etab & Hrest & Econs). set (data := construct_instructions_data w ds) in *.
  set (body := le_split 2 (len ds) ++ table ++ concat (map instruction_layout (map (sysvar_of flags) ds))).
  assert (data = body ++ rest) as Ebody by (rewrite Econs; unfold body; by rewrite <- !app_assoc).
  assert (2 <= len data) as Hdlen by (rewrite Ebody, len_app; pose proof (len_nonneg body); unfold len; lia).
  assert (p < length (msg_account_keys m))%nat as Hp by by eapply lookup_lt_Some.
  set (accts := map _ (zip (msg_account_keys m) fetched)) in *.
  assert (forall q key, msg_account_keys m !! q = Some key -> exists a, zip (msg_account_keys m) fetched !! q = Some (key, a)) as Hzip.
  { intros q key Hq. apply lookup_lt_Some in Hq as Hql. destruct (lookup_lt_is_Some_2 fetched q) as [a Ha]; [lia|].
    exists a. change (zip ?x ?y) with (zip_with pair x y). by rewrite lookup_zip_with, Hq, Ha. }
  assert (map fst accts = msg_account_keys m) as Ekeys.
  { unfold accts. rewrite map_map. rewrite <- (fst_zip (msg_account_keys m) fetched) at 2 by lia.
    apply map_ext. by intros [k a]. }
  assert (accts !! p = Some (instructions_id w, mkAccountSharedData 0 data (sysvar_owner w) false 0 true)) as Hacct.
  { destruct (Hzip p _ M7) as [a Ha]. unfold accts. change (map ?f ?l) with (f <$> l). rewrite list_lookup_fmap, Ha.
    cbn. by rewrite bool_decide_eq_true_2. }
  assert (len accts = len (msg_account_keys m)) as Elen by (unfold len; by rewrite <- Ekeys, length_map).
  pose proof (Forall_lookup_1 _ _ _ _ M5 Ht) as Hprog. cbn beta in Hprog.
  destruct (push_prepared (instructions_id w) (sysvar_owner w) (store_current_index_checked w) m accts offs target ic p
    data 0 false 0 true Hprep M2) as (ic2 & E1 & E2 & E3); [unfold len in M4; lia|unfold u16_MAX; lia|rewrite Elen; unfold len; lia|done| |done|].
  { intros q Hq. rewrite Ekeys. by apply M8. }
  exists ic2, target, (map (sysvar_of flags) ds), (take (length data - 2) data ++ le_split 2 0), (take (length data - 2) data).
  do 5 (split; [done|]). split; [|split; [done|split; [|split; [|done]]]].
  - exists table, (take (length rest - 2) rest ++ le_split 2 0). rewrite length_map. split; [done|].
    assert (len (map (sysvar_of flags) ds) = len ds) as -> by (unfold len; by rewrite length_map).
    rewrite Ebody, length_app, take_app_ge by lia.
    replace (length body + length rest - 2 - length body)%nat with (length rest - 2)%nat by lia.
    unfold body. by rewrite <- !app_assoc.
  - eexists. split; [exact Hacct|]. cbn [snd sd_data]. rewrite len_app. unfold len in *. rewrite length_take, le_split_length. lia.
  - exists (sysvar_of flags b). split; [|done]. change (map (sysvar_of flags) ds) with (sysvar_of flags <$> ds).
    by rewrite list_lookup_fmap, Hb.
Qed.

(** C16. The program watches the right bytes. When the message, the server and the crates around
    keep their contracts, the push of the prepared instruction succeeds, and from then on the
    [j]-th forbidden range of the context selects from the data of the instructions sysvar account
    the bytes that the [j]-th range of the command line selects from the data of the watched
    instruction. *)
Theorem watched_instruction_bytes (cli : Cli) (ranges : list Range) (m : SanitizedMessage)
    (fetched : list (option AccountSharedData)) (accts : list (Pubkey * AccountSharedData)) (offsets : list Range)
    (ic : InvokeContext) (p : nat) :
  message_ok m fetched p -> 0 <= cli_instruction_index cli ->
  Forall (fun r => 0 <= r_start r <= r_end r) ranges -> Forall (fun a => rust_len (sd_data a.2)) accts ->
  load_transaction w cli ranges m (msg_account_keys m) = Some (Ok (fetched, accts, offsets)) ->
  prepare_simulation cli m accts offsets = Some (Ok ic) ->
  exists ic2 target,
    invoke_push (instructions_id w) (sysvar_owner w) (store_current_index_checked w) ic = (ic2, Ok tt) /\
    msg_instructions m !! Z.to_nat (cli_instruction_index cli) = Some target /\
    forbidden_sysvar_data_ranges ic2 = offsets /\
    let data := view_data (get_view (accounts (transaction_context ic2)) (Z.of_nat p)) in
    Forall2 (fun off r => slice data (r_start off) (r_end off) = slice (ci_data target) (r_start r) (r_end r))
      offsets ranges.
Proof.
  intros Hm Hi Hr Hlen Hl Hp.
  destruct (sysvar_simulated cli ranges m fetched accts offsets ic p Hm Hl Hp)
    as (ic2 & target & instrs & bytes & front & E1 & E2 & E3 & E4 & _ & E6 & E7 & (a & Ha & Hal) & (i & Hi1 & Hi2) & E8).
  exists ic2, target. do 3 (split; [done|]). cbv zeta. rewrite E4. pose proof (Forall_lookup_1 _ _ _ _ Hlen Ha) as Hrl.
  destruct (offsets_located bytes (mkDetector (with_ranges (cli_instruction_index cli) ranges)) instrs offsets E6 E7)
    as (target' & Ht' & HF); [|done|done|done|].
  - destruct E6 as (table & rest & Et & Eb). unfold layout_size, rust_len in *. rewrite Hal, Eb, !len_app in Hrl.
    assert (len (le_split 2 (len instrs)) = 2 /\ len table = 2 * len instrs) as [F1 F2]
      by (split; unfold len; rewrite ?le_split_length, ?Et; lia).
    rewrite F1, F2 in Hrl. pose proof (len_nonneg rest). lia.
  - cbn [detector_config with_ranges instruction_index] in Ht'. rewrite Hi1 in Ht'. injection Ht' as <-. rewrite Hi2 in HF.
    eapply Forall2_impl; [exact HF|]. by intros off r [? _].
Qed.

(** C39. The index of the current instruction. Whatever instruction the command line selects, the
    instructions sysvar tells the simulated program that it is instruction 0: the counter of top
    level instructions starts at zero and only the selected instruction is pushed. *)
Theorem simulated_index_zero (cli : Cli) (ranges : list Range) (m : SanitizedMessage)
    (fetched : list (option AccountSharedData)) (accts : list (Pubkey * AccountSharedData)) (offsets : list Range)
    (ic : InvokeContext) (p : nat) :
  message_ok m fetched p ->
  load_transaction w cli ranges m (msg_account_keys m) = Some (Ok (fetched, accts, offsets)) ->
  prepare_simulation cli m accts offsets = Some (Ok ic) ->
  exists ic2 front,
    invoke_push (instructions_id w) (sysvar_owner w) (store_current_index_checked w) ic = (ic2, Ok tt) /\
    view_data (get_view (accounts (transaction_context ic2)) (Z.of_nat p)) = front ++ le_split 2 0.
Proof.
  intros Hm Hl Hp.
  destruct (sysvar_simulated cli ranges m fetched accts offsets ic p Hm Hl Hp)
    as (ic2 & target & instrs & bytes & front & E1 & E2 & E3 & E4 & E5 & _).
  exists ic2, front. split; [done|]. by rewrite E4.
Qed.

End simulation.

(** ** Example *)

Inductive ExampleJson :=
| ExampleNull
| ExampleArray (l : list ExampleJson)
| ExampleObject (l : list (Str * ExampleJson)).

#[export] Instance ExampleJson_value : JsonValue ExampleJson := {|
  json_null := ExampleNull;
  json_get v key :=
    match v with
    | ExampleObject l => snd <$> List.find (fun e => bool_decide (e.1 = key)) l
    | _ => None
    end;
  json_is_null v := match v with ExampleNull => true | _ => false end;
  json_as_u64 _ := None;
  json_as_str _ := None;
  json_as_bool _ := None;
  json_as_array v := match v with ExampleArray l => Some l | _ => None end
|}.

Definition example_key (n : Z) : Pubkey := replicate 32 n.
Definition example_flags (is_signer is_writable : bool) : Z := (if is_signer then 1 else 0) + (if is_writable then 2 else 0).
Definition example_store_index (data : list Z) (index : Z) : Result (list Z) InstructionError :=
  if len data <? 2 then Err AccountDataTooSmall else Ok (take (length data - 2) data ++ le_split 2 index).

(** A server without accounts, and crates that keep their contracts. *)
Definition example_world : World ExampleJson unit unit unit := {|
  rpc keys := Ok (ExampleObject [(str "result", ExampleObject [(str "value", ExampleArray (map (fun _ => ExampleNull) keys))])]);
  parse_pubkey _ := None; base64_decode _ := None; bs58_decode _ := None; deserialize _ := None;
  legacy_account_keys _ := []; sanitize_legacy _ := mkSanitizedMessage [] [] (fun _ => false) (fun _ => false);
  address_table_lookups _ := []; sanitize_v0 _ _ := None;
  construct_instructions_data l := example_construct (map (sysvar_of example_flags) l);
  w_builtins := []; w_runtime_environment := Ok tt; w_load_entry _ _ := None; w_bpf_loader := example_key 90;
  w_bpf_loader_deprecated := example_key 91; w_bpf_loader_upgradeable := example_key 92;
  instructions_id := example_key 5; sysvar_owner := example_key 93; sysvar_ids := [];
  store_current_index_checked := example_store_index;
  process_executable_chain _ _ ic := (ic, Ok tt) |}.

Definition example_message : SanitizedMessage :=
  mkSanitizedMessage [example_key 1; example_key 5]
    [mkCompiledInstruction 0 [1] [10; 11]; mkCompiledInstruction 0 [0; 1] [20; 21; 22; 23]] (fun i => i =? 0) (fun _ => false).

Definition example_cli : Cli := mkCli [] 1 (str "1-3").

Lemma example_message_ok : message_ok example_world example_flags example_message [None; None] 1.
Proof.
  split.
  - intros l. eexists _, [0; 0]. split; [|split; [done|]].
    2:{ cbn [construct_instructions_data example_world]. unfold example_construct.
        assert (len (map (sysvar_of example_flags) l) = len l) as -> by (unfold len; by rewrite length_map). reflexivity. }
    rewrite length_map. rewrite <- (length_seq (length l) 0) at 2.
    induction (seq 0 (length l)) as [|k ks IH]; [done|]. cbn [map concat length]. rewrite length_app, IH, le_split_length. lia.
  - intros data index Hd. cbn. unfold example_store_index. by rewrite (proj2 (Z.ltb_ge _ _)).
  - repeat constructor.
  - vm_compute. discriminate.
  - repeat constructor; vm_compute; discriminate.
  - done.
  - done.
  - intros [|q] Hq; [vm_compute; discriminate|lia].
Qed.

Lemma example_cli_loaded : exists accts offsets ic,
  load_transaction example_world example_cli [mkRange 1 3] example_message (msg_account_keys example_message)
    = Some (Ok ([None; None], accts, offsets)) /\
  prepare_simulation example_cli example_message accts offsets = Some (Ok ic) /\
  Forall (fun a => rust_len (sd_data a.2)) accts.
Proof.
  eexists _, _, _. split; [vm_compute; reflexivity|]. split; [vm_compute; reflexivity|].
  repeat constructor; vm_compute; discriminate.
Qed.

Lemma watched_instruction_bytes_witness : exists ic2 offsets data,
  forbidden_sysvar_data_ranges ic2 = offsets /\ Forall2 (fun off r =>
    slice data (r_start off) (r_end off) = slice [20; 21; 22; 23] (r_start r) (r_end r)) offsets [mkRange 1 3].
Proof.
  destruct example_cli_loaded as (accts & offsets & ic & H1 & H2 & H3).
  destruct (watched_instruction_bytes example_world example_flags example_cli [mkRange 1 3] example_message [None; None]
    accts offsets ic 1 example_message_ok) as (ic2 & target & _ & Ht & Hf & HF).
  - vm_compute. discriminate.
  - repeat constructor; vm_compute; discriminate.
  - exact H3.
  - exact H1.
  - exact H2.
  - injection Ht as <-. eexists ic2, offsets, _. split; [exact Hf|exact HF].
Defined.

Lemma simulated_index_zero_witness : cli_instruction_index example_cli = 1 /\ exists ic2 front,
  view_data (get_view (accounts (transaction_context ic2)) 1) = front ++ le_split 2 0.
Proof.
  split; [reflexivity|]. destruct example_cli_loaded as (accts & offsets & ic & H1 & H2 & _).
  destruct (simulated_index_zero example_world example_flags example_cli [mkRange 1 3] example_message [None; None]
    accts offsets ic 1 example_message_ok H1 H2) as (ic2 & front & _ & H).
  exists ic2, front. exact H.
Defined.
