(* ===== verification/ExecutionCost.v ===== *)
(** The costs of syscalls in compute units (agave/program-runtime/src/execution_budget.rs). *)

From Stdlib Require Import ZArith Lia Bool.
From stdpp Require Import list.
From S2P Require Import Prelude.

#[local] Open Scope Z_scope.

Definition DEFAULT_INVOCATION_COST : Z := 1000.
Definition INVOKE_UNITS_COST_SIMD_0339 : Z := 946.
Definition DEFAULT_HEAP_COST : Z := 8.

Definition get_invoke_unit_cost (simd_0339_active : bool) : Z :=
  if simd_0339_active then INVOKE_UNITS_COST_SIMD_0339 else DEFAULT_INVOCATION_COST.

(** [SVMTransactionExecutionCost]. *)
Record ExecutionCost := mkExecutionCost {
  log_64_units : Z;
  create_program_address_units : Z;
  invoke_units : Z;
  sha256_base_cost : Z;
  sha256_byte_cost : Z;
  log_pubkey_units : Z;
  cpi_bytes_per_unit : Z;
  sysvar_base_cost : Z;
  secp256k1_recover_cost : Z;
  syscall_base_cost : Z;
  curve25519_edwards_validate_point_cost : Z;
  curve25519_edwards_add_cost : Z;
  curve25519_edwards_subtract_cost : Z;
  curve25519_edwards_multiply_cost : Z;
  curve25519_edwards_msm_base_cost : Z;
  curve25519_edwards_msm_incremental_cost : Z;
  curve25519_ristretto_validate_point_cost : Z;
  curve25519_ristretto_add_cost : Z;
  curve25519_ristretto_subtract_cost : Z;
  curve25519_ristretto_multiply_cost : Z;
  curve25519_ristretto_msm_base_cost : Z;
  curve25519_ristretto_msm_incremental_cost : Z;
  heap_cost : Z;
  mem_op_base_cost : Z;
  alt_bn128_g1_addition_cost : Z;
  alt_bn128_g2_addition_cost : Z;
  alt_bn128_g1_multiplication_cost : Z;
  alt_bn128_g2_multiplication_cost : Z;
  alt_bn128_pairing_one_pair_cost_first : Z;
  alt_bn128_pairing_one_pair_cost_other : Z;
  big_modular_exponentiation_base_cost : Z;
  big_modular_exponentiation_cost_divisor : Z;
  poseidon_cost_coefficient_a : Z;
  poseidon_cost_coefficient_c : Z;
  get_remaining_compute_units_cost : Z;
  alt_bn128_g1_compress : Z;
  alt_bn128_g1_decompress : Z;
  alt_bn128_g2_compress : Z;
  alt_bn128_g2_decompress : Z;
  bls12_381_g1_add_cost : Z;
  bls12_381_g2_add_cost : Z;
  bls12_381_g1_subtract_cost : Z;
  bls12_381_g2_subtract_cost : Z;
  bls12_381_g1_multiply_cost : Z;
  bls12_381_g2_multiply_cost : Z;
  bls12_381_g1_decompress_cost : Z;
  bls12_381_g2_decompress_cost : Z;
  bls12_381_g1_validate_cost : Z;
  bls12_381_g2_validate_cost : Z;
  bls12_381_one_pair_cost : Z;
  bls12_381_additional_pair_cost : Z
}.

Definition cost_new_with_defaults (simd_0339_active : bool) : ExecutionCost := {|
  log_64_units := 100;
  create_program_address_units := 1500;
  invoke_units := get_invoke_unit_cost simd_0339_active;
  sha256_base_cost := 85;
  sha256_byte_cost := 1;
  log_pubkey_units := 100;
  cpi_bytes_per_unit := 250;
  sysvar_base_cost := 100;
  secp256k1_recover_cost := 25000;
  syscall_base_cost := 100;
  curve25519_edwards_validate_point_cost := 159;
  curve25519_edwards_add_cost := 473;
  curve25519_edwards_subtract_cost := 475;
  curve25519_edwards_multiply_cost := 2177;
  curve25519_edwards_msm_base_cost := 2273;
  curve25519_edwards_msm_incremental_cost := 758;
  curve25519_ristretto_validate_point_cost := 169;
  curve25519_ristretto_add_cost := 521;
  curve25519_ristretto_subtract_cost := 519;
  curve25519_ristretto_multiply_cost := 2208;
  curve25519_ristretto_msm_base_cost := 2303;
  curve25519_ristretto_msm_incremental_cost := 788;
  heap_cost := DEFAULT_HEAP_COST;
  mem_op_base_cost := 10;
  alt_bn128_g1_addition_cost := 334;
  alt_bn128_g2_addition_cost := 535;
  alt_bn128_g1_multiplication_cost := 3840;
  alt_bn128_g2_multiplication_cost := 15670;
  alt_bn128_pairing_one_pair_cost_first := 36364;
  alt_bn128_pairing_one_pair_cost_other := 12121;
  big_modular_exponentiation_base_cost := 190;
  big_modular_exponentiation_cost_divisor := 2;
  poseidon_cost_coefficient_a := 61;
  poseidon_cost_coefficient_c := 542;
  get_remaining_compute_units_cost := 100;
  alt_bn128_g1_compress := 30;
  alt_bn128_g1_decompress := 398;
  alt_bn128_g2_compress := 86;
  alt_bn128_g2_decompress := 13610;
  bls12_381_g1_add_cost := 128;
  bls12_381_g2_add_cost := 203;
  bls12_381_g1_subtract_cost := 129;
  bls12_381_g2_subtract_cost := 204;
  bls12_381_g1_multiply_cost := 4627;
  bls12_381_g2_multiply_cost := 8255;
  bls12_381_g1_decompress_cost := 2100;
  bls12_381_g2_decompress_cost := 3050;
  bls12_381_g1_validate_cost := 1565;
  bls12_381_g2_validate_cost := 1968;
  bls12_381_one_pair_cost := 25445;
  bls12_381_additional_pair_cost := 13023
|}.

Definition checked_mul (a b : Z) : option Z := if a * b <=? u64_MAX then Some (a * b) else None.

Definition poseidon_cost (c : ExecutionCost) (nr_inputs : Z) : option Z :=
  let! squared_inputs := checked_mul nr_inputs nr_inputs in
  let! mul_result := checked_mul (poseidon_cost_coefficient_a c) squared_inputs in
  checked_add mul_result (poseidon_cost_coefficient_c c).

(** Costs that are machine integers. *)
Definition all_costs (c : ExecutionCost) : list Z := [
  log_64_units c; create_program_address_units c; invoke_units c;
  sha256_base_cost c; sha256_byte_cost c; log_pubkey_units c;
  cpi_bytes_per_unit c; sysvar_base_cost c; secp256k1_recover_cost c;
  syscall_base_cost c; curve25519_edwards_validate_point_cost c; curve25519_edwards_add_cost c;
  curve25519_edwards_subtract_cost c; curve25519_edwards_multiply_cost c; curve25519_edwards_msm_base_cost c;
  curve25519_edwards_msm_incremental_cost c; curve25519_ristretto_validate_point_cost c; curve25519_ristretto_add_cost c;
  curve25519_ristretto_subtract_cost c; curve25519_ristretto_multiply_cost c; curve25519_ristretto_msm_base_cost c;
  curve25519_ristretto_msm_incremental_cost c; heap_cost c; mem_op_base_cost c;
  alt_bn128_g1_addition_cost c; alt_bn128_g2_addition_cost c; alt_bn128_g1_multiplication_cost c;
  alt_bn128_g2_multiplication_cost c; alt_bn128_pairing_one_pair_cost_first c; alt_bn128_pairing_one_pair_cost_other c;
  big_modular_exponentiation_base_cost c; big_modular_exponentiation_cost_divisor c; poseidon_cost_coefficient_a c;
  poseidon_cost_coefficient_c c; get_remaining_compute_units_cost c; alt_bn128_g1_compress c;
  alt_bn128_g1_decompress c; alt_bn128_g2_compress c; alt_bn128_g2_decompress c;
  bls12_381_g1_add_cost c; bls12_381_g2_add_cost c; bls12_381_g1_subtract_cost c;
  bls12_381_g2_subtract_cost c; bls12_381_g1_multiply_cost c; bls12_381_g2_multiply_cost c;
  bls12_381_g1_decompress_cost c; bls12_381_g2_decompress_cost c; bls12_381_g1_validate_cost c;
  bls12_381_g2_validate_cost c; bls12_381_one_pair_cost c; bls12_381_additional_pair_cost c].

Definition costs_ok (c : ExecutionCost) : Prop := Forall is_u64 (all_costs c).

Lemma default_costs_ok simd_0339_active : costs_ok (cost_new_with_defaults simd_0339_active).
Proof. destruct simd_0339_active; repeat constructor; done. Qed.

Lemma cost_nonneg c x : costs_ok c -> x ∈ all_costs c -> 0 <= x.
Proof. intros Hc Hx. apply (proj1 (Forall_forall _ _) Hc) in Hx. by destruct Hx. Qed.

(** Costs and sums of costs are not negative. *)
Ltac cost_tac :=
  repeat first
    [ apply saturating_add_nonneg | apply saturating_mul_nonneg | apply saturating_sub_nonneg
    | lia
    | match goal with H : is_u _ ?x |- 0 <= ?x => exact (proj1 H) end
    | solve [eapply cost_nonneg; [eassumption|unfold all_costs; repeat first [apply list_elem_of_here|apply list_elem_of_further]]]
    | apply Z.max_le_iff; left
    | apply Z.div_pos ].
