(* ===== verification/SysvarCache.v ===== *)
(** The sysvars a bank caches for its programs (agave/program-runtime/src/sysvar_cache.rs).

    Sysvars are kept as the bytes of their accounts. The identifiers of the sysvars and bincode are
    parameters: decoding gives the memory representation of the object. *)

From Stdlib Require Import ZArith Lia Bool.
From stdpp Require Import list.
From S2P Require Import Prelude.
From S2P Require Import TxAccounts.

#[local] Open Scope Z_scope.

Inductive Sysvar :=
| Clock | EpochSchedule | EpochRewards | Rent | SlotHashes | StakeHistory | LastRestartSlot
| Fees | RecentBlockhashes.

#[export] Instance Sysvar_eq_dec : EqDecision Sysvar.
Proof. solve_decision. Defined.

Record SysvarCache := mkSysvarCache {
  clock : option (list Z);
  epoch_schedule : option (list Z);
  epoch_rewards : option (list Z);
  rent : option (list Z);
  slot_hashes : option (list Z);
  stake_history : option (list Z);
  last_restart_slot : option (list Z);
  slot_hashes_obj : option (list Z);
  stake_history_obj : option (list Z);
  fees : option (list Z);
  recent_blockhashes : option (list Z)
}.

Definition sysvar_cache_default : SysvarCache :=
  mkSysvarCache None None None None None None None None None None None.

(** Assigning to a field. *)
Definition store_sysvar (v : Sysvar) (x : option (list Z)) (c : SysvarCache) : SysvarCache :=
  let '(mkSysvarCache a b d e f g h i j k l) := c in
  match v with
  | Clock => mkSysvarCache x b d e f g h i j k l
  | EpochSchedule => mkSysvarCache a x d e f g h i j k l
  | EpochRewards => mkSysvarCache a b x e f g h i j k l
  | Rent => mkSysvarCache a b d x f g h i j k l
  | SlotHashes => mkSysvarCache a b d e x g h i j k l
  | StakeHistory => mkSysvarCache a b d e f x h i j k l
  | LastRestartSlot => mkSysvarCache a b d e f g x i j k l
  | Fees => mkSysvarCache a b d e f g h i j x l
  | RecentBlockhashes => mkSysvarCache a b d e f g h i j k x
  end.

(** The field of a sysvar. *)
Definition stored_sysvar (v : Sysvar) (c : SysvarCache) : option (list Z) :=
  match v with
  | Clock => clock c
  | EpochSchedule => epoch_schedule c
  | EpochRewards => epoch_rewards c
  | Rent => rent c
  | SlotHashes => slot_hashes c
  | StakeHistory => stake_history c
  | LastRestartSlot => last_restart_slot c
  | Fees => fees c
  | RecentBlockhashes => recent_blockhashes c
  end.

(** The object next to the bytes of a large sysvar. *)
Definition store_object (v : Sysvar) (x : list Z) (c : SysvarCache) : SysvarCache :=
  let '(mkSysvarCache a b d e f g h i j k l) := c in
  match v with
  | SlotHashes => mkSysvarCache a b d e f g h (Some x) j k l
  | StakeHistory => mkSysvarCache a b d e f g h i (Some x) k l
  | _ => c
  end.

Section cache.
Variable sysvar_id : Sysvar -> Pubkey.
Variable deserialize : Sysvar -> list Z -> option (list Z).

Definition sysvar_id_to_buffer (c : SysvarCache) (id : Pubkey) : option (list Z) :=
  if bool_decide (id = sysvar_id Clock) then clock c
  else if bool_decide (id = sysvar_id EpochSchedule) then epoch_schedule c
  else if bool_decide (id = sysvar_id EpochRewards) then epoch_rewards c
  else if bool_decide (id = sysvar_id Rent) then rent c
  else if bool_decide (id = sysvar_id SlotHashes) then slot_hashes c
  else if bool_decide (id = sysvar_id StakeHistory) then stake_history c
  else if bool_decide (id = sysvar_id LastRestartSlot) then last_restart_slot c
  else None.

Definition ok_or_unsupported (x : option (list Z)) : Result (list Z) InstructionError :=
  match x with Some obj => Ok obj | None => Err UnsupportedSysvar end.

Definition get_sysvar_obj (c : SysvarCache) (v : Sysvar) : Result (list Z) InstructionError :=
  match sysvar_id_to_buffer c (sysvar_id v) with
  | Some sysvar_buf => ok_or_unsupported (deserialize v sysvar_buf)
  | None => Err UnsupportedSysvar
  end.

(** [get_clock], [get_fees] and the like. *)
Definition get_sysvar_of (c : SysvarCache) (v : Sysvar) : Result (list Z) InstructionError :=
  match v with
  | Clock | EpochSchedule | EpochRewards | Rent | LastRestartSlot => get_sysvar_obj c v
  | SlotHashes => ok_or_unsupported (slot_hashes_obj c)
  | StakeHistory => ok_or_unsupported (stake_history_obj c)
  | Fees => ok_or_unsupported (fees c)
  | RecentBlockhashes => ok_or_unsupported (recent_blockhashes c)
  end.

(** One step of [fill_missing_entries]: an account whose data cannot be decoded is passed over.
    The bytes of most sysvars are kept, of the deprecated ones the object. *)
Definition fill_entry (get_account_data : Pubkey -> option (list Z)) (v : Sysvar) (c : SysvarCache) : SysvarCache :=
  match stored_sysvar v c with
  | Some _ => c
  | None =>
      match get_account_data (sysvar_id v) with
      | None => c
      | Some data =>
          match deserialize v data with
          | None => c
          | Some obj =>
              match v with
              | Fees | RecentBlockhashes => store_sysvar v (Some obj) c
              | _ => store_object v obj (store_sysvar v (Some data) c)
              end
          end
      end
  end.

Definition fill_missing_entries (get_account_data : Pubkey -> option (list Z)) (c : SysvarCache) : SysvarCache :=
  fold_left (fun c v => fill_entry get_account_data v c)
    [Clock; EpochSchedule; EpochRewards; Rent; SlotHashes; StakeHistory; LastRestartSlot; Fees; RecentBlockhashes] c.

(** ** What the cache holds *)

(** Every buffer decodes, and the objects of the large sysvars are decoded from theirs. *)
Definition cached_ok (c : SysvarCache) : Prop :=
  (forall v data, v <> Fees -> v <> RecentBlockhashes -> stored_sysvar v c = Some data -> is_Some (deserialize v data)) /\
  slot_hashes_obj c = (let! data := slot_hashes c in deserialize SlotHashes data) /\
  stake_history_obj c = (let! data := stake_history c in deserialize StakeHistory data).

Lemma default_cached_ok : cached_ok sysvar_cache_default.
Proof. split; [by intros []|done]. Qed.

Lemma fill_entry_ok get_account_data v c : cached_ok c -> cached_ok (fill_entry get_account_data v c).
Proof.
  intros (H & H1 & H2). unfold fill_entry. destruct (stored_sysvar v c) eqn:Ev; [done|].
  destruct (get_account_data (sysvar_id v)) as [data|]; [|done]. destruct (deserialize v data) as [obj|] eqn:Ed; [|done].
  destruct c. split.
  - intros w x Hw1 Hw2. pose proof (H w x Hw1 Hw2) as Hw. destruct v, w; cbn in *; try done; by intros [= <-].
  - destruct v; cbn in *; rewrite ?Ed; done.
Qed.

Lemma fill_missing_ok get_account_data c : cached_ok c -> cached_ok (fill_missing_entries get_account_data c).
Proof.
  unfold fill_missing_entries. generalize [Clock; EpochSchedule; EpochRewards; Rent; SlotHashes; StakeHistory;
    LastRestartSlot; Fees; RecentBlockhashes]. intros l. revert c. induction l as [|v l IH]; intros c Hc; [done|].
  by apply IH, fill_entry_ok.
Qed.

(** Entries that are there are not replaced. *)
Lemma fill_entry_keeps get_account_data v w c x :
  stored_sysvar w c = Some x -> stored_sysvar w (fill_entry get_account_data v c) = Some x.
Proof.
  unfold fill_entry. destruct (stored_sysvar v c) eqn:Ev; [done|]. destruct (get_account_data (sysvar_id v)); [|done].
  destruct (deserialize v _); [|done]. destruct c, v, w; cbn in *; congruence.
Qed.

(** What was decoded when it was cached is decoded again when it is asked for. *)
Lemma get_sysvar_cached c v data :
  cached_ok c -> v <> Fees -> v <> RecentBlockhashes -> (forall w, sysvar_id w = sysvar_id v -> w = v) ->
  stored_sysvar v c = Some data -> exists obj, deserialize v data = Some obj /\ get_sysvar_of c v = Ok obj.
Proof.
  intros (H & H1 & H2) N1 N2 Hid Hs. destruct (H v data N1 N2 Hs) as [obj Ho]. exists obj. split; [done|].
  assert (forall w, w <> v -> bool_decide (sysvar_id v = sysvar_id w) = false) as Hne
    by (intros w Hw; apply bool_decide_eq_false_2; intros E; by apply Hw, Hid).
  destruct v; try done; cbn [get_sysvar_of] in *;
    first [rewrite H1|rewrite H2|unfold get_sysvar_obj, sysvar_id_to_buffer]; cbn [stored_sysvar] in Hs;
    rewrite ?Hs; cbn [mbind option_bind]; rewrite ?Ho; try done;
    rewrite ?(Hne Clock), ?(Hne EpochSchedule), ?(Hne EpochRewards), ?(Hne Rent), ?(Hne SlotHashes), ?(Hne StakeHistory) by done;
    rewrite bool_decide_eq_true_2 by done; rewrite ?Hs, Ho; done.
Qed.

(** ** Sizes *)

(** The memory representation of a sysvar. *)
Variable size : Sysvar -> Z.
Definition object_ok (v : Sysvar) (obj : list Z) : Prop := bytes obj /\ len obj = size v.

Record cache_sized (c : SysvarCache) : Prop := {
  sized_buffers v data : v <> Fees -> v <> RecentBlockhashes -> stored_sysvar v c = Some data -> bytes data;
  sized_fees obj : fees c = Some obj -> object_ok Fees obj;
  sized_recent obj : recent_blockhashes c = Some obj -> object_ok RecentBlockhashes obj;
  sized_hashes obj : slot_hashes_obj c = Some obj -> object_ok SlotHashes obj;
  sized_history obj : stake_history_obj c = Some obj -> object_ok StakeHistory obj
}.

Hypothesis Hdecode : forall v data obj, deserialize v data = Some obj -> object_ok v obj.

Lemma default_cache_sized : cache_sized sysvar_cache_default.
Proof. split; try done. by intros []. Qed.

Lemma fill_entry_sized get_account_data v c :
  (forall id data, get_account_data id = Some data -> bytes data) -> cache_sized c ->
  cache_sized (fill_entry get_account_data v c).
Proof using Hdecode.
  intros Hg Hc. unfold fill_entry. destruct (stored_sysvar v c) eqn:Ev; [done|].
  destruct (get_account_data (sysvar_id v)) as [data|] eqn:Ed; [|done]. destruct (deserialize v data) as [obj|] eqn:Eo; [|done].
  apply Hg in Ed. apply Hdecode in Eo. destruct Hc as [Hb Hf Hr Hh Hs], c. split; cbn in *.
  - intros w x Hw1 Hw2. pose proof (Hb w x Hw1 Hw2). destruct v, w; cbn in *; naive_solver.
  - intros x. destruct v; cbn; naive_solver.
  - intros x. destruct v; cbn; naive_solver.
  - intros x. destruct v; cbn; naive_solver.
  - intros x. destruct v; cbn; naive_solver.
Qed.

Lemma fill_missing_sized get_account_data c :
  (forall id data, get_account_data id = Some data -> bytes data) -> cache_sized c ->
  cache_sized (fill_missing_entries get_account_data c).
Proof using Hdecode.
  intros Hg. unfold fill_missing_entries. generalize [Clock; EpochSchedule; EpochRewards; Rent; SlotHashes; StakeHistory;
    LastRestartSlot; Fees; RecentBlockhashes]. intros l. revert c. induction l as [|v l IH]; intros c Hc; [done|].
  by apply IH, fill_entry_sized.
Qed.

Lemma buffer_bytes c id data : cache_sized c -> sysvar_id_to_buffer c id = Some data -> bytes data.
Proof.
  intros Hc. pose proof (sized_buffers c Hc) as Hb. unfold sysvar_id_to_buffer. intros E.
  repeat case_bool_decide; try done;
    [by apply (Hb Clock)|by apply (Hb EpochSchedule)|by apply (Hb EpochRewards)|by apply (Hb Rent)
    |by apply (Hb SlotHashes)|by apply (Hb StakeHistory)|by apply (Hb LastRestartSlot)].
Qed.

Lemma get_sysvar_sized c v obj : cache_sized c -> get_sysvar_of c v = Ok obj -> object_ok v obj.
Proof using Hdecode.
  intros Hc. assert (get_sysvar_obj c v = Ok obj -> object_ok v obj) as Hobj.
  { unfold get_sysvar_obj. destruct (sysvar_id_to_buffer c (sysvar_id v)) as [data|]; [|done].
    destruct (deserialize v data) as [x|] eqn:E; [|done]. intros [= <-]. by eapply Hdecode. }
  destruct v; cbn [get_sysvar_of]; try exact Hobj; destruct Hc as [_ Hf Hr Hh Hs]; unfold ok_or_unsupported;
    case_match eqn:E; intros [= <-]; auto.
Qed.

End cache.
