(* ===== verification/Features.v ===== *)
(** The features a bank has activated (agave/svm-feature-set/src/lib.rs). *)

From Stdlib Require Import Bool.

(** [SVMFeatureSet]. *)
Record FeatureSet := mkFeatureSet {
  move_precompile_verification_to_svm : bool;
  stricter_abi_and_runtime_constraints : bool;
  account_data_direct_mapping : bool;
  enable_bpf_loader_set_authority_checked_ix : bool;
  enable_loader_v4 : bool;
  deplete_cu_meter_on_vm_failure : bool;
  abort_on_invalid_curve : bool;
  blake3_syscall_enabled : bool;
  curve25519_syscall_enabled : bool;
  disable_deploy_of_alloc_free_syscall : bool;
  disable_fees_sysvar : bool;
  disable_sbpf_v0_execution : bool;
  enable_alt_bn128_compression_syscall : bool;
  enable_alt_bn128_syscall : bool;
  enable_big_mod_exp_syscall : bool;
  enable_get_epoch_stake_syscall : bool;
  enable_poseidon_syscall : bool;
  enable_sbpf_v1_deployment_and_execution : bool;
  enable_sbpf_v2_deployment_and_execution : bool;
  enable_sbpf_v3_deployment_and_execution : bool;
  get_sysvar_syscall_enabled : bool;
  last_restart_slot_sysvar : bool;
  reenable_sbpf_v0_execution : bool;
  remaining_compute_units_syscall_enabled : bool;
  remove_bpf_loader_incorrect_program_id : bool;
  move_stake_and_move_lamports_ixs : bool;
  stake_raise_minimum_delegation_to_1_sol : bool;
  deprecate_legacy_vote_ixs : bool;
  simplify_alt_bn128_syscall_error_codes : bool;
  fix_alt_bn128_multiplication_input_length : bool;
  increase_tx_account_lock_limit : bool;
  enable_extend_program_checked : bool;
  formalize_loaded_transaction_data_size : bool;
  disable_zk_elgamal_proof_program : bool;
  reenable_zk_elgamal_proof_program : bool;
  delay_commission_updates : bool;
  raise_cpi_nesting_limit_to_8 : bool;
  provide_instruction_data_offset_in_vm_r2 : bool;
  increase_cpi_account_info_limit : bool;
  vote_state_v4 : bool;
  poseidon_enforce_padding : bool;
  fix_alt_bn128_pairing_length_check : bool;
  alt_bn128_little_endian : bool;
  create_account_allow_prefund : bool;
  bls_pubkey_management_in_vote_account : bool;
  enable_alt_bn128_g2_syscalls : bool;
  commission_rate_in_basis_points : bool;
  custom_commission_collector : bool;
  enable_bls12_381_syscall : bool;
  block_revenue_sharing : bool;
  vote_account_initialize_v2 : bool
}.

(** [Default]: none. *)
Definition features_default : FeatureSet :=
  mkFeatureSet false false false false false false false false false false false false false
    false false false false false false false false false false false false false
    false false false false false false false false false false false false false
    false false false false false false false false false false false false.

Definition all_enabled : FeatureSet :=
  mkFeatureSet true true true true true true true true true true true true true
    true true true true true true true true true true true true true
    true true true true true true true true true true true true true
    true true true true true true true true true true true true.
