(* ===== verification/MemOps.v ===== *)
(** Guest memory as the runtime and the syscalls use it: translation of slices
    and values (agave program-runtime/src/memory.rs and syscalls/src/lib.rs), and
    the memory syscalls [sol_memcpy_], [sol_memmove_], [sol_memcmp_] and
    [sol_memset_] (syscalls/src/mem_ops.rs).

    A translated slice is a host address and a length. Reading or writing host
    memory that is not allocated is undefined behaviour, [None]. Boxed errors are
    known by their text. *)

From Stdlib Require Import ZArith Lia Bool.
From stdpp Require Import strings.
From S2P Require Import Prelude.
From S2P Require Import SbpfTypes.
From S2P Require Import MemoryRegion.
From S2P Require Import Mapping.
From S2P Require Import TxAccounts.
From S2P Require Import TxContext.
From S2P Require Import InvokeContext.
From S2P Require Import ExecutionCost.

#[local] Open Scope Z_scope.

(** ** Translation *)

Inductive MemoryTranslationError := UnalignedPointer | InvalidLength.

Definition translation_error (e : MemoryTranslationError) : BoxError :=
  BoxOther match e with UnalignedPointer => "Unaligned pointer" | InvalidLength => "Invalid length" end.

Definition address_is_aligned (align address : Z) : bool := address mod align =? 0.

(** A host slice; the address of an empty one is not used. *)
Record HostSlice := mkHostSlice { hs_ptr : Z; hs_len : Z }.

(** [translate_inner!] with [map]. *)
Definition translate_inner (m : MemoryMapping) (access_type : AccessType) (vm_addr len : Z)
    : MemoryMapping * Result Z BoxError :=
  let '(m, r) := mapping_map m access_type vm_addr len in (m, map_err BoxEbpfError r).

(** [translate_type_inner!] for a type of [size] bytes: its host address. *)
Definition translate_type_inner (size align : Z) (m : MemoryMapping) (access_type : AccessType) (vm_addr : Z)
    (check_aligned : bool) : MemoryMapping * Result Z BoxError :=
  match translate_inner m access_type vm_addr size with
  | (m, Err e) => (m, Err e)
  | (m, Ok host_addr) =>
      if negb check_aligned then (m, Ok host_addr)
      else if negb (address_is_aligned align host_addr) then (m, Err (translation_error UnalignedPointer))
      else (m, Ok host_addr)
  end.

(** [translate_slice_inner!] for elements of [size] bytes. *)
Definition translate_slice_inner (size align : Z) (m : MemoryMapping) (access_type : AccessType)
    (vm_addr len : Z) (check_aligned : bool) : MemoryMapping * Result HostSlice BoxError :=
  if len =? 0 then (m, Ok (mkHostSlice align 0))
  else
    let total_size := saturating_mul len size in
    if i64_MAX <? total_size then (m, Err (translation_error InvalidLength))
    else
      match translate_inner m access_type vm_addr total_size with
      | (m, Err e) => (m, Err e)
      | (m, Ok host_addr) =>
          if check_aligned && negb (address_is_aligned align host_addr)
          then (m, Err (translation_error UnalignedPointer))
          else (m, Ok (mkHostSlice host_addr len))
      end.

Definition translate_type (size align : Z) (m : MemoryMapping) (vm_addr : Z) (check_aligned : bool)
    : MemoryMapping * Result Z BoxError :=
  translate_type_inner size align m Load vm_addr check_aligned.
Definition translate_slice (size align : Z) (m : MemoryMapping) (vm_addr len : Z) (check_aligned : bool)
    : MemoryMapping * Result HostSlice BoxError :=
  translate_slice_inner size align m Load vm_addr len check_aligned.
Definition translate_type_mut (size align : Z) (m : MemoryMapping) (vm_addr : Z) (check_aligned : bool)
    : MemoryMapping * Result Z BoxError :=
  translate_type_inner size align m Store vm_addr check_aligned.
Definition translate_slice_mut (size align : Z) (m : MemoryMapping) (vm_addr len : Z) (check_aligned : bool)
    : MemoryMapping * Result HostSlice BoxError :=
  translate_slice_inner size align m Store vm_addr len check_aligned.

(** [touch_type_mut] and [touch_slice_mut] run the access violation handler. *)
Definition touch_type_mut (size : Z) (m : MemoryMapping) (host : HostMemory) (vm_addr : Z)
    : MemoryMapping * HostMemory * Result unit BoxError :=
  let '(m, host, r) := map_with_access_violation_handler m host Store vm_addr size in
  (m, host, match r with Ok _ => Ok tt | Err e => Err (BoxEbpfError e) end).

Definition touch_slice_mut (size : Z) (m : MemoryMapping) (host : HostMemory) (vm_addr element_count : Z)
    : MemoryMapping * HostMemory * Result unit BoxError :=
  if element_count =? 0 then (m, host, Ok tt)
  else touch_type_mut (saturating_mul element_count size) m host vm_addr.

(** [translate_mut!] with one binding, of a slice or of a value. *)
Definition translate_mut_slice (size align : Z) (m : MemoryMapping) (host : HostMemory) (vm_addr len : Z)
    (check_aligned : bool) : MemoryMapping * HostMemory * Result HostSlice BoxError :=
  match touch_slice_mut size m host vm_addr len with
  | (m, host, Err e) => (m, host, Err e)
  | (m, host, Ok _) =>
      let '(m, r) := translate_slice_mut size align m vm_addr len check_aligned in (m, host, r)
  end.

Definition translate_mut_type (size align : Z) (m : MemoryMapping) (host : HostMemory) (vm_addr : Z)
    (check_aligned : bool) : MemoryMapping * HostMemory * Result Z BoxError :=
  match touch_type_mut size m host vm_addr with
  | (m, host, Err e) => (m, host, Err e)
  | (m, host, Ok _) =>
      let '(m, r) := translate_type_mut size align m vm_addr check_aligned in (m, host, r)
  end.

(** ** The context of a syscall *)

(** [get_check_aligned]; its debug assertion is a panic. *)
Definition get_check_aligned (bpf_loader_deprecated : Pubkey) (ic : InvokeContext) : option bool :=
  match get_current_instruction_context (transaction_context ic) with
  | Err _ => Some true
  | Ok instruction_context =>
      match get_program_owner (transaction_context ic) instruction_context with
      | Ok owner_key => Some (bool_decide (owner_key <> bpf_loader_deprecated))
      | Err _ => None
      end
  end.

Definition consume_compute_meter (ic : InvokeContext) (amount : Z) : InvokeContext * Result unit BoxError :=
  let '(ic, r) := consume_checked ic amount in
  (ic, match r with Ok _ => Ok tt | Err _ => Err (BoxInstructionError "ComputationalBudgetExceeded") end).

(** ** Memory syscalls *)

Definition mem_op_consume (cost : ExecutionCost) (ic : InvokeContext) (n : Z)
    : InvokeContext * Result unit BoxError :=
  consume_compute_meter ic
    (Z.max (mem_op_base_cost cost)
       (if cpi_bytes_per_unit cost =? 0 then u64_MAX else n / cpi_bytes_per_unit cost)).

(** Check that two regions do not overlap. *)
Definition is_nonoverlapping (src src_len dst dst_len : Z) : bool :=
  if dst <? src then dst_len <=? saturating_sub src dst else src_len <=? saturating_sub dst src.

(** What a syscall returns. *)
Abbreviation SyscallResult := (MemoryMapping * HostMemory * Result Z BoxError)%type.

(** [ptr::copy] reads everything before it writes. *)
Definition ptr_copy (host : HostMemory) (src dst n : Z) : option HostMemory :=
  let! bs := host_read host src (Z.to_nat n) in host_write host dst bs.

Definition memmove (check_aligned : bool) (dst_addr src_addr n : Z) (m : MemoryMapping) (host : HostMemory)
    : option SyscallResult :=
  match translate_mut_slice 1 1 m host dst_addr n check_aligned with
  | (m, host, Err e) => Some (m, host, Err e)
  | (m, host, Ok dst) =>
      match translate_slice 1 1 m src_addr n check_aligned with
      | (m, Err e) => Some (m, host, Err e)
      | (m, Ok src) =>
          let! host := ptr_copy host (hs_ptr src) (hs_ptr dst) n in
          Some (m, host, Ok 0)
      end
  end.

(** The difference of the first bytes that differ. *)
Fixpoint memcmp_bytes (s1 s2 : list Z) : Z :=
  match s1, s2 with
  | a :: s1', b :: s2' => if negb (a =? b) then a - b else memcmp_bytes s1' s2'
  | _, _ => 0
  end.

Definition memcmp (check_aligned : bool) (s1_addr s2_addr n cmp_result_addr : Z) (m : MemoryMapping)
    (host : HostMemory) : option SyscallResult :=
  match translate_slice 1 1 m s1_addr n check_aligned with
  | (m, Err e) => Some (m, host, Err e)
  | (m, Ok s1) =>
      match translate_slice 1 1 m s2_addr n check_aligned with
      | (m, Err e) => Some (m, host, Err e)
      | (m, Ok s2) =>
          let! b1 := host_read host (hs_ptr s1) (Z.to_nat n) in
          let! b2 := host_read host (hs_ptr s2) (Z.to_nat n) in
          let result := memcmp_bytes b1 b2 in
          match translate_mut_type 4 4 m host cmp_result_addr check_aligned with
          | (m, host, Err e) => Some (m, host, Err e)
          | (m, host, Ok cmp_result_ref_mut) =>
              let! host := host_write host cmp_result_ref_mut (le_split 4 (as_u32 result)) in
              Some (m, host, Ok 0)
          end
      end
  end.

Definition memset (check_aligned : bool) (dst_addr c n : Z) (m : MemoryMapping) (host : HostMemory)
    : option SyscallResult :=
  match translate_mut_slice 1 1 m host dst_addr n check_aligned with
  | (m, host, Err e) => Some (m, host, Err e)
  | (m, host, Ok s) =>
      let! host := host_write host (hs_ptr s) (replicate (Z.to_nat n) (as_u8 c)) in
      Some (m, host, Ok 0)
  end.

Inductive MemOp := Memcpy | Memmove | Memcmp | Memset.

#[export] Instance MemOp_eq_dec : EqDecision MemOp.
Proof. solve_decision. Defined.

(** [memcpy] refuses regions that overlap. *)
Definition refuses (op : MemOp) (dst src n : Z) : bool :=
  match op with Memcpy => negb (is_nonoverlapping src n dst n) | _ => false end.

(** What a memory syscall does once it has been paid for. *)
Definition mem_body (op : MemOp) (check_aligned : bool) (a1 a2 a3 a4 : Z) (m : MemoryMapping) (host : HostMemory)
    : option SyscallResult :=
  match op with
  | Memcpy | Memmove => memmove check_aligned a1 a2 a3 m host
  | Memcmp => memcmp check_aligned a1 a2 a3 a4 m host
  | Memset => memset check_aligned a1 a2 a3 m host
  end.

(** [SyscallMemcpy], [SyscallMemmove], [SyscallMemcmp] and [SyscallMemset]; the
    third argument is the number of bytes of each. *)
Definition mem_syscall (cost : ExecutionCost) (bpf_loader_deprecated : Pubkey) (op : MemOp) (ic : InvokeContext)
    (a1 a2 a3 a4 : Z) (m : MemoryMapping) (host : HostMemory) : option (InvokeContext * SyscallResult) :=
  match mem_op_consume cost ic a3 with
  | (ic, Err e) => Some (ic, (m, host, Err e))
  | (ic, Ok _) =>
      if refuses op a1 a2 a3 then Some (ic, (m, host, Err (BoxOther "Overlapping copy"))) else
      let! check_aligned := get_check_aligned bpf_loader_deprecated ic in
      let! r := mem_body op check_aligned a1 a2 a3 a4 m host in
      Some (ic, r)
  end.
