(* ===== verification/MemOpsSafe.v ===== *)
(** Properties of the memory syscalls: on well-formed memory they never touch
    memory outside the guest's regions, they report every range they read to the
    access tracker, and they copy, compare and fill what they say. *)

From Stdlib Require Import ZArith Lia Bool.
From stdpp Require Import strings.
From S2P Require Import Prelude.
From S2P Require Import SbpfTypes.
From S2P Require Import Ebpf.
From S2P Require Import Tracker.
From S2P Require Import MemoryRegion.
From S2P Require Import Mapping.
From S2P Require Import MappingSafe.
From S2P Require Import Vm.
From S2P Require Import Interp.
From S2P Require Import InterpSafe.
From S2P Require Import Meter.
From S2P Require Import Exec.
From S2P Require Import TxAccounts.
From S2P Require Import TxContext.
From S2P Require Import InvokeContext.
From S2P Require Import ExecutionCost.
From S2P Require Import MemOps.

#[local] Open Scope Z_scope.

(** ** Translation *)

(** The tracker of [m'] is that of [m] after these loads. *)
Definition tracked_by (loads : list (Z * Z)) (m m' : MemoryMapping) : Prop :=
  get_access_tracker m' =
  option_map (fold_left (fun t l => check_access t l.1 l.2) loads) (get_access_tracker m).

Lemma tracked_nil m : tracked_by [] m m.
Proof. unfold tracked_by. by destruct (get_access_tracker m). Qed.

Lemma tracked_same m m' : get_access_tracker m' = get_access_tracker m -> tracked_by [] m m'.
Proof. unfold tracked_by. intros ->. by destruct (get_access_tracker m). Qed.

Lemma tracked_trans l1 l2 m1 m2 m3 : tracked_by l1 m1 m2 -> tracked_by l2 m2 m3 -> tracked_by (l1 ++ l2) m1 m3.
Proof.
  unfold tracked_by. intros H1 H2. rewrite H2, H1. destruct (get_access_tracker m1); [|done].
  cbn. by rewrite fold_left_app.
Qed.

Lemma step_refl m : mapping_ok m -> mapping_handler_ok m -> mapping_step m m.
Proof. by split. Qed.

Lemma step_trans m1 m2 m3 : mapping_step m1 m2 -> mapping_step m2 m3 -> mapping_step m1 m3.
Proof. intros [_ _ H1] [? ? H2]. split; [done..|]. intros a. by rewrite H2. Qed.

(** The same regions, found at the same addresses. *)
Definition same_regions (m m' : MemoryMapping) : Prop :=
  mapping_step m m' /\ get_regions m' = get_regions m.

Lemma translates_same m m' ty a n h : same_regions m m' -> translates m ty a n h -> translates m' ty a n h.
Proof. intros [[_ _ Hl] Hr] (i & r & H1 & H2 & H3). exists i, r. by rewrite Hl, Hr. Qed.

Lemma translates_back m m' ty a n h : same_regions m m' -> translates m' ty a n h -> translates m ty a n h.
Proof. intros [[_ _ Hl] Hr] (i & r & H1 & H2 & H3). exists i, r. by rewrite <- Hl, <- Hr. Qed.

Lemma same_trans m1 m2 m3 : same_regions m1 m2 -> same_regions m2 m3 -> same_regions m1 m3.
Proof. intros [H1 G1] [H2 G2]. split; [by eapply step_trans|congruence]. Qed.

Lemma mapping_map_spec m ty addr n m' res :
  mapping_ok m -> mapping_handler_ok m -> mapping_map m ty addr n = (m', res) ->
  same_regions m m' /\ tracked_by (if decide (ty = Load) then [(addr, n)] else []) m m' /\
  forall h, res = Ok h -> translates m' ty addr n h.
Proof.
  intros Hm Hh. unfold mapping_map.
  set (m1 := if bool_decide (ty = Load) then _ else m).
  assert (mapping_ok m1 /\ get_regions m1 = get_regions m /\ (forall a, lookup_region m1 a = lookup_region m a) /\
    tracked_by (if decide (ty = Load) then [(addr, n)] else []) m m1 /\ mapping_handler_ok m1)
    as (Hm1 & Hg1 & Hl1 & Ht1 & Hh1).
  { unfold m1. case_bool_decide as Ety.
    - destruct (with_tracker_spec (fun t => check_access t addr n) m) as (? & ? & ? & Ht & Hc); [auto with gobble|done|].
      do 3 (split; [done|]). split; [|by eapply mapping_handler_ok_eq]. rewrite decide_True by done. exact Ht.
    - rewrite decide_False by done. do 3 (split; [done|]). split; [apply tracked_nil|done]. }
  clearbody m1. pose proof (find_region_ok m1 addr Hm1) as (Hf & Hm2 & Hc2 & Hg2 & Hl2).
  destruct (find_region m1 addr) as [m2 found]. cbn [fst snd] in *.
  assert (same_regions m m2 /\ tracked_by (if decide (ty = Load) then [(addr, n)] else []) m m2) as [Hs Ht].
  { split; [split; [split|congruence]|].
    - done.
    - apply (mapping_handler_ok_eq m1); [by rewrite Hc2|done].
    - intros a. by rewrite Hl2.
    - unfold tracked_by in *. rewrite <- Ht1, !get_access_tracker_common. by rewrite Hc2. }
  destruct (match found with Some (_, region) => _ | None => _ end) as [h|] eqn:Eh.
  - intros [= <- <-]. split; [done|]. split; [done|]. intros h' [= <-].
    destruct found as [[i r]|]; [|done]. destruct (lookup_region m1 addr) as [j|] eqn:El; [|done]. cbn in Hf.
    destruct (get_regions m1 !! j) as [s|] eqn:Er; [|done]. cbn in Hf. injection Hf as -> ->.
    exists j, s. by rewrite Hl2, Hg2.
  - destruct (mapping_ok_common m2 Hm2) as [c ->]. intros [= <- <-]. split; [done|]. split; [done|].
    intros h' E. by apply generate_not_ok in E.
Qed.

(** A slice of bytes: nothing is translated when it is empty. *)
Lemma translate_slice_spec m ty addr n ca m' r :
  mapping_ok m -> mapping_handler_ok m -> is_u64 n ->
  translate_slice_inner 1 1 m ty addr n ca = (m', r) ->
  same_regions m m' /\
  (exists loads, loads `prefix_of` (if decide (ty = Load /\ n <> 0) then [(addr, n)] else []) /\
     tracked_by loads m m' /\
     (is_ok r = true -> loads = if decide (ty = Load /\ n <> 0) then [(addr, n)] else [])) /\
  forall s, r = Ok s -> n <> 0 -> translates m' ty addr n (hs_ptr s).
Proof.
  intros Hm Hh Hn. unfold translate_slice_inner. destruct (Z.eqb_spec n 0) as [->|Hne].
  { intros [= <- <-]. split; [by split; [apply step_refl|]|]. split; [|done].
    exists []. rewrite decide_False by naive_solver. split; [apply prefix_nil|]. split; [apply tracked_nil|done]. }
  replace (saturating_mul n 1) with n by (unfold saturating_mul, is_u in *; lia).
  destruct (i64_MAX <? n).
  { intros [= <- <-]. split; [by split; [apply step_refl|]|]. split; [|done].
    exists []. split; [apply prefix_nil|]. split; [apply tracked_nil|done]. }
  unfold translate_inner. destruct (mapping_map m ty addr n) as [m1 res] eqn:E.
  apply mapping_map_spec in E as (Hs & Ht & Htr); [|done..].
  assert (exists loads, loads `prefix_of` (if decide (ty = Load /\ n <> 0) then [(addr, n)] else []) /\
     tracked_by loads m m1 /\ (loads = if decide (ty = Load /\ n <> 0) then [(addr, n)] else [])) as (loads & H1 & H2 & H3).
  { exists (if decide (ty = Load) then [(addr, n)] else []). split; [|split; [done|]]; repeat case_decide; naive_solver. }
  destruct res as [h|e]; cbn [map_err].
  - destruct (ca && _)%bool; intros [= <- <-]; (split; [done|]); (split; [naive_solver|]); [done|].
    intros s [= <-] _. by apply Htr.
  - intros [= <- <-]. split; [done|]. split; [naive_solver|done].
Qed.

(** A mutable value or slice, after the handler has run: when it is obtained,
    memory is in good order, and if the address was writable already, the
    handler has not changed it. *)
Lemma touch_spec size m host addr m' host' r :
  mapping_ok m -> mapping_handler_ok m -> touch_type_mut size m host addr = (m', host', r) ->
  mapping_step m m' /\ tracked_by [] m m' /\
  (is_ok r = true -> backed (get_regions m) host -> backed (get_regions m') host') /\
  (forall h, translates m Store addr size h -> host' = host).
Proof.
  intros Hm Hh. unfold touch_type_mut.
  destruct (map_with_access_violation_handler m host Store addr size) as [[m1 host1] res] eqn:E.
  intros [= <- <- <-]. pose proof E as E0. apply map_with_handler_spec in E as (Hm1 & [Ht Hc] & Hl & Hok); [|done..].
  split; [split; [done|by eapply mapping_handler_ok_eq|done]|]. split; [by apply tracked_same|]. split.
  - destruct res as [h|]; [|done]. intros _. apply (Hok h eq_refl).
  - intros h Hh'. destruct (map_translates m host Store addr size h Hm Hh') as [m2 E2]. congruence.
Qed.

Lemma mut_slice_spec m host addr n ca m' host' r :
  mapping_ok m -> mapping_handler_ok m -> is_u64 n ->
  translate_mut_slice 1 1 m host addr n ca = (m', host', r) ->
  mapping_step m m' /\ tracked_by [] m m' /\
  (is_ok r = true -> backed (get_regions m) host -> backed (get_regions m') host') /\
  (forall h, translates m Store addr n h -> host' = host) /\
  (forall s, r = Ok s -> n <> 0 -> translates m' Store addr n (hs_ptr s)).
Proof.
  intros Hm Hh Hn. unfold translate_mut_slice, touch_slice_mut.
  assert (forall m1 host1 r1, (if n =? 0 then (m, host, Ok tt) else touch_type_mut (saturating_mul n 1) m host addr)
      = (m1, host1, r1) ->
    mapping_step m m1 /\ tracked_by [] m m1 /\
    (is_ok r1 = true -> backed (get_regions m) host -> backed (get_regions m1) host1) /\
    (forall h, translates m Store addr n h -> host1 = host)) as Htouch.
  { intros m1 host1 r1. destruct (n =? 0).
    - intros [= <- <- <-]. split; [by apply step_refl|]. split; [apply tracked_nil|done].
    - replace (saturating_mul n 1) with n by (unfold saturating_mul, is_u in *; lia). by apply touch_spec. }
  destruct (if n =? 0 then _ else _) as [[m1 host1] r1].
  destruct (Htouch _ _ _ eq_refl) as (Hs1 & Ht1 & Hb1 & Hd1).
  destruct r1 as [[]|]; [|intros [= <- <- <-]; naive_solver].
  destruct (translate_slice_mut 1 1 m1 addr n ca) as [m2 r2] eqn:E. intros [= <- <- <-].
  destruct (Hs1) as [Hm1 Hh1 _]. apply translate_slice_spec in E as ([Hs2 Hg2] & (loads & Hp & Ht2 & _) & Htr); [|done..].
  rewrite decide_False in Hp by naive_solver. apply prefix_nil_inv in Hp as ->.
  split; [by eapply step_trans|]. split; [by eapply (tracked_trans [] [])|]. rewrite Hg2. naive_solver.
Qed.

Lemma mut_type_spec m host addr ca m' host' r :
  mapping_ok m -> mapping_handler_ok m ->
  translate_mut_type 4 4 m host addr ca = (m', host', r) ->
  mapping_step m m' /\ tracked_by [] m m' /\
  (is_ok r = true -> backed (get_regions m) host -> backed (get_regions m') host') /\
  (forall h, translates m Store addr 4 h -> host' = host) /\
  (forall h, r = Ok h -> translates m' Store addr 4 h).
Proof.
  intros Hm Hh. unfold translate_mut_type.
  destruct (touch_type_mut 4 m host addr) as [[m1 host1] r1] eqn:E1.
  apply touch_spec in E1 as (Hs1 & Ht1 & Hb1 & Hd1); [|done..].
  destruct r1 as [[]|]; [|intros [= <- <- <-]; naive_solver].
  unfold translate_type_mut, translate_type_inner, translate_inner.
  destruct (mapping_map m1 Store addr 4) as [m2 r2] eqn:E. destruct (Hs1) as [Hm1 Hh1 _].
  apply mapping_map_spec in E as ([Hs2 Hg2] & Ht2 & Htr); [|done..]. cbn [decide_rel] in Ht2.
  rewrite decide_False in Ht2 by done.
  assert (mapping_step m m2 /\ tracked_by [] m m2) as [H1 H2]
    by (split; [by eapply step_trans|by eapply (tracked_trans [] [])]).
  destruct r2 as [h|]; cbn [map_err]; [|intros [= <- <- <-]; rewrite Hg2; naive_solver].
  destruct ca; cbn [negb]; [destruct (address_is_aligned 4 h); cbn [negb]|];
    intros [= <- <- <-]; rewrite Hg2; naive_solver.
Qed.

(** ** The syscalls *)

(** Memory that a syscall can be called with. *)
Record memory_ok (m : MemoryMapping) (host : HostMemory) : Prop := {
  mem_mapping : mapping_ok m;
  mem_handler : mapping_handler_ok m;
  mem_backed : backed (get_regions m) host
}.

(** The ranges a memory syscall reads. *)
Definition mem_reads (op : MemOp) (a1 a2 n : Z) : list (Z * Z) :=
  if n =? 0 then []
  else match op with
       | Memcpy | Memmove => [(a2, n)]
       | Memcmp => [(a1, n); (a2, n)]
       | Memset => []
       end.

(** The bytes written, and nothing else. *)
Definition written (host : HostMemory) (a : Z) (bs : list Z) (host' : HostMemory) : Prop :=
  host_read host' a (length bs) = Some bs /\ forall x, ~ (a <= x < a + len bs) -> host' !! x = host !! x.

Lemma host_write_written host a bs host' : host_write host a bs = Some host' -> written host a bs host'.
Proof.
  intros H. apply host_write_spec in H as (H1 & H2 & _). split; [by apply host_read_lookups|done].
Qed.

(** The difference that comparing two strings of the same length gives: that of
    the first bytes that differ. *)
Inductive difference : list Z -> list Z -> Z -> Prop :=
  | same_bytes bs : difference bs bs 0
  | differ_at pre a b s1 s2 : a <> b -> difference (pre ++ a :: s1) (pre ++ b :: s2) (a - b).

Lemma memcmp_difference b1 b2 : length b1 = length b2 -> difference b1 b2 (memcmp_bytes b1 b2).
Proof.
  revert b2. induction b1 as [|a b1 IH]; intros [|b b2] Hl; try done; cbn [memcmp_bytes]; [constructor|].
  destruct (Z.eqb_spec a b) as [->|Hne]; cbn [negb]; [|by apply (differ_at [])].
  destruct (IH b2) as [bs|pre x y s1 s2 Hxy]; [by injection Hl|constructor|]. by apply (differ_at (b :: pre)).
Qed.

(** The range a memory syscall writes. *)
Definition mem_target (op : MemOp) (a1 n a4 : Z) : Z * Z :=
  match op with Memcmp => (a4, 4) | _ => (a1, n) end.

(** What a syscall has done to memory: [host1] is the memory once the target is
    writable, [host'] the memory at the end. *)
Definition mem_effect (op : MemOp) (a1 a2 n a4 : Z) (m m' : MemoryMapping) (host host1 host' : HostMemory) : Prop :=
  match op with
  | Memcpy | Memmove =>
      exists src dst bs, translates m' Load a2 n src /\ translates m' Store a1 n dst /\
        host_read host1 src (Z.to_nat n) = Some bs /\ written host1 dst bs host'
  | Memcmp =>
      exists h1 h2 b1 b2 dst v, translates m Load a1 n h1 /\ translates m Load a2 n h2 /\
        host_read host h1 (Z.to_nat n) = Some b1 /\ host_read host h2 (Z.to_nat n) = Some b2 /\
        translates m' Store a4 4 dst /\ difference b1 b2 v /\ written host1 dst (le_split 4 (as_u32 v)) host'
  | Memset =>
      exists dst, translates m' Store a1 n dst /\ written host1 dst (replicate (Z.to_nat n) (as_u8 a2)) host'
  end.

(** The outcome of a syscall on well-formed memory. *)
Record syscall_ok (op : MemOp) (a1 a2 n a4 : Z) (m : MemoryMapping) (host : HostMemory)
    (m' : MemoryMapping) (host' : HostMemory) (r : Result Z BoxError) : Prop := {
  sys_step : mapping_step m m';
  sys_tracked : exists loads, loads `prefix_of` mem_reads op a1 a2 n /\ tracked_by loads m m' /\
    (is_ok r = true -> loads = mem_reads op a1 a2 n);
  sys_backed x : r = Ok x -> x = 0 /\ backed (get_regions m') host';
  sys_effect x : r = Ok x -> n <> 0 -> exists host1, mem_effect op a1 a2 n a4 m m' host host1 host' /\
    forall h, translates m Store (mem_target op a1 n a4).1 (mem_target op a1 n a4).2 h -> host1 = host
}.

(** Reading a slice that was translated. *)
Lemma slice_read m host ty addr n s :
  memory_ok m host -> is_u64 addr -> is_u64 n -> (n <> 0 -> translates m ty addr n (hs_ptr s)) ->
  exists bs, host_read host (hs_ptr s) (Z.to_nat n) = Some bs /\ len bs = n /\ bytes bs.
Proof.
  intros [Hm Hh Hb] Ha Hn Ht. assert (allocated host (hs_ptr s) n) as Hal.
  { destruct (decide (n = 0)) as [->|Hne]; [intros x Hx; lia|].
    by eapply translates_bounds; [..|by apply Ht|]. }
  destruct (Hn) as [Hn0 _]. rewrite <- (Z2Nat.id n) in Hal by done.
  apply host_read_Some in Hal as (bs & Hbs & Hl). exists bs. split; [done|].
  split; [unfold len; lia|]. eapply host_read_bytes; [apply (backed_bytes _ _ Hb)|done].
Qed.

(** Writing to one. *)
Lemma slice_write m host addr bs h :
  memory_ok m host -> is_u64 addr -> is_u64 (len bs) -> bytes bs ->
  (len bs <> 0 -> translates m Store addr (len bs) h) ->
  exists host', host_write host h bs = Some host' /\ backed (get_regions m) host'.
Proof.
  intros [Hm Hh Hb] Ha Hn Hbs Ht. destruct (host_write_Some host h bs) as [host' Hw].
  { destruct (decide (len bs = 0)) as [E|Hne]; [intros x Hx; lia|].
    by eapply translates_bounds; [..|by apply Ht|]. }
  exists host'. split; [done|]. by eapply backed_write.
Qed.

Lemma memset_spec ca a1 a2 n a4 m host :
  memory_ok m host -> is_u64 a1 -> is_u64 n ->
  exists m' host' r, memset ca a1 a2 n m host = Some (m', host', r) /\ syscall_ok Memset a1 a2 n a4 m host m' host' r.
Proof.
  intros [Hm Hh Hb] Ha Hn. unfold memset.
  destruct (translate_mut_slice 1 1 m host a1 n ca) as [[m1 host1] r1] eqn:E.
  apply mut_slice_spec in E as (Hs & Ht & Hb1 & Hsame & Htr); [|done..].
  assert (exists loads, loads `prefix_of` mem_reads Memset a1 a2 n /\ tracked_by loads m m1 /\
    loads = mem_reads Memset a1 a2 n) as (loads & H1 & H2 & H3)
    by (exists []; unfold mem_reads; by destruct (n =? 0)).
  destruct r1 as [s|e]; [|eexists _, _, _; split; [done|]; split; naive_solver].
  assert (len (replicate (Z.to_nat n) (as_u8 a2)) = n) as Hl
    by (unfold len; rewrite length_replicate; destruct Hn; lia).
  destruct (slice_write m1 host1 a1 (replicate (Z.to_nat n) (as_u8 a2)) (hs_ptr s)) as (host2 & Hw & Hb2).
  { destruct Hs. split; [done..|]. by apply Hb1. }
  { done. }
  { by rewrite Hl. }
  { apply Forall_replicate, cast_u_range. lia. }
  { rewrite Hl. by apply Htr. }
  rewrite Hw. cbn [mbind option_bind]. eexists _, _, _. split; [done|]. split; [done|naive_solver|naive_solver|].
  intros x _ Hne. exists host1. split; [|done]. exists (hs_ptr s). split; [by apply Htr|]. by apply host_write_written.
Qed.

Lemma memmove_spec op ca a1 a2 n a4 m host :
  op = Memcpy \/ op = Memmove -> memory_ok m host -> is_u64 a1 -> is_u64 a2 -> is_u64 n ->
  exists m' host' r, memmove ca a1 a2 n m host = Some (m', host', r) /\ syscall_ok op a1 a2 n a4 m host m' host' r.
Proof.
  intros Hop [Hm Hh Hb] Ha1 Ha2 Hn. unfold memmove.
  destruct (translate_mut_slice 1 1 m host a1 n ca) as [[m1 host1] r1] eqn:E.
  apply mut_slice_spec in E as (Hs & Ht & Hb1 & Hsame & Htr); [|done..].
  destruct r1 as [dst|e].
  2:{ eexists _, _, _. split; [done|]. split; [done| |done|done]. exists []. split; [apply prefix_nil|done]. }
  unfold translate_slice. destruct (translate_slice_inner 1 1 m1 Load a2 n ca) as [m2 r2] eqn:E2.
  apply translate_slice_spec in E2 as (Hs2 & (loads & Hp & Ht2 & Hall) & Htr2); [|by destruct Hs|by destruct Hs|done].
  assert (mapping_step m m2) as Hs12 by (eapply step_trans; [done|apply Hs2]).
  assert ((if decide (Load = Load /\ n <> 0) then [(a2, n)] else []) = mem_reads op a1 a2 n) as Hreads.
  { unfold mem_reads. destruct (Z.eqb_spec n 0); case_decide; destruct Hop as [->| ->]; naive_solver. }
  rewrite Hreads in *.
  assert (exists loads, loads `prefix_of` mem_reads op a1 a2 n /\ tracked_by loads m m2 /\
    (is_ok r2 = true -> loads = mem_reads op a1 a2 n)) as Htracked
    by (exists loads; split; [done|]; split; [by eapply (tracked_trans [])|done]).
  destruct r2 as [src|e]; [|eexists _, _, _; split; [done|]; split; naive_solver].
  assert (memory_ok m2 host1) as Hmem by (destruct Hs12, Hs2 as [_ Hg]; split; [done..|rewrite Hg; by apply Hb1]).
  destruct (slice_read m2 host1 Load a2 n src) as (bs & Hr & Hl & Hbs); [done..|by apply Htr2|].
  assert (n <> 0 -> translates m2 Store a1 n (hs_ptr dst)) as Hdst
    by (intros Hne; eapply translates_same; [done|by apply Htr]).
  destruct (slice_write m2 host1 a1 bs (hs_ptr dst)) as (host2 & Hw & Hb2); [done|done|by rewrite Hl|done|by rewrite Hl|].
  unfold ptr_copy. rewrite Hr. cbn [mbind option_bind]. rewrite Hw. cbn [mbind option_bind].
  eexists _, _, _. split; [done|]. split; [done|naive_solver|naive_solver|].
  intros x _ Hne. exists host1. split; [|destruct Hop as [->| ->]; done].
  assert (written host1 (hs_ptr dst) bs host2) by (by apply host_write_written).
  destruct Hop as [->| ->]; exists (hs_ptr src), (hs_ptr dst), bs; naive_solver.
Qed.

(** The end of [memcmp]: the difference is stored. *)
Lemma memcmp_result ca a1 a2 n a4 m host m1 v :
  mapping_step m m1 -> tracked_by (mem_reads Memcmp a1 a2 n) m m1 -> is_u64 a4 -> backed (get_regions m1) host ->
  (forall h, translates m Store a4 4 h -> translates m1 Store a4 4 h) ->
  (forall m' host1 host' dst, written host1 dst (le_split 4 (as_u32 v)) host' -> translates m' Store a4 4 dst ->
     n <> 0 -> mem_effect Memcmp a1 a2 n a4 m m' host host1 host') ->
  exists m' host' r,
    match translate_mut_type 4 4 m1 host a4 ca with
    | (m2, host2, Err e) => Some (m2, host2, Err e)
    | (m2, host2, Ok dst) => let! host3 := host_write host2 dst (le_split 4 (as_u32 v)) in Some (m2, host3, Ok 0)
    end = Some (m', host', r) /\ syscall_ok Memcmp a1 a2 n a4 m host m' host' r.
Proof.
  intros Hs1 Ht1 Ha Hb Hsame Heff. destruct (translate_mut_type 4 4 m1 host a4 ca) as [[m2 host2] r2] eqn:E.
  destruct (Hs1) as [Hm1 Hh1 _]. apply mut_type_spec in E as (Hs2 & Ht2 & Hb2 & Hsame2 & Htr); [|done..].
  assert (mapping_step m m2) as Hs by (by eapply step_trans).
  assert (tracked_by (mem_reads Memcmp a1 a2 n) m m2) as Ht
    by (rewrite <- (app_nil_r (mem_reads _ _ _ _)); by eapply tracked_trans).
  destruct r2 as [dst|e]; [|eexists _, _, _; split; [done|]; split; naive_solver].
  assert (len (le_split 4 (as_u32 v)) = 4) as Hl by (unfold len; by rewrite le_split_length).
  destruct (slice_write m2 host2 a4 (le_split 4 (as_u32 v)) dst) as (host3 & Hw & Hb3).
  { destruct Hs. split; [done..|]. by apply Hb2. }
  { done. }
  { by rewrite Hl. }
  { apply le_split_bytes. }
  { rewrite Hl. intros _. by apply Htr. }
  rewrite Hw. cbn [mbind option_bind]. eexists _, _, _. split; [done|]. split; [done|naive_solver|naive_solver|].
  intros x _ Hne. exists host2. split; [|naive_solver].
  eapply Heff; [by apply host_write_written|by apply Htr|done].
Qed.

Lemma memcmp_spec ca a1 a2 n a4 m host :
  memory_ok m host -> is_u64 a1 -> is_u64 a2 -> is_u64 n -> is_u64 a4 ->
  exists m' host' r, memcmp ca a1 a2 n a4 m host = Some (m', host', r) /\ syscall_ok Memcmp a1 a2 n a4 m host m' host' r.
Proof.
  intros [Hm Hh Hb] Ha1 Ha2 Hn Ha4. unfold memcmp, translate_slice.
  destruct (translate_slice_inner 1 1 m Load a1 n ca) as [m1 r1] eqn:E1.
  apply translate_slice_spec in E1 as (Hs1 & (l1 & Hp1 & Ht1 & Hall1) & Htr1); [|done..].
  assert (mem_reads Memcmp a1 a2 n = (if decide (Load = Load /\ n <> 0) then [(a1, n)] else []) ++
    (if decide (Load = Load /\ n <> 0) then [(a2, n)] else [])) as Hreads.
  { unfold mem_reads. destruct (Z.eqb_spec n 0); case_decide; naive_solver. }
  destruct r1 as [s1|e].
  2:{ eexists _, _, _. split; [done|]. split; [apply Hs1| |done|done]. exists l1. rewrite Hreads.
      split; [by apply prefix_app_r|done]. }
  rewrite (Hall1 eq_refl) in Ht1. destruct (Hs1) as [[Hm1 Hh1 _] Hg1].
  destruct (translate_slice_inner 1 1 m1 Load a2 n ca) as [m2 r2] eqn:E2.
  apply translate_slice_spec in E2 as (Hs2 & (l2 & Hp2 & Ht2 & Hall2) & Htr2); [|done..].
  assert (same_regions m m2) as Hs12 by (eapply same_trans; done).
  destruct r2 as [s2|e].
  2:{ eexists _, _, _. split; [done|]. split; [apply Hs12| |done|done]. rewrite Hreads. eexists (_ ++ l2).
      split; [by apply prefix_app|]. split; [by eapply tracked_trans|done]. }
  rewrite (Hall2 eq_refl) in Ht2. pose proof (tracked_trans _ _ _ _ _ Ht1 Ht2) as Ht12. rewrite <- Hreads in Ht12.
  assert (n <> 0 -> translates m Load a1 n (hs_ptr s1)) as Hx1
    by (intros Hne; eapply translates_back; [exact Hs1|by apply Htr1]).
  assert (n <> 0 -> translates m Load a2 n (hs_ptr s2)) as Hx2
    by (intros Hne; eapply translates_back; [exact Hs12|by apply Htr2]).
  assert (memory_ok m host) as Hmem by (by split).
  destruct (slice_read m host Load a1 n s1) as (b1 & Hr1 & Hl1 & _); [done..|].
  destruct (slice_read m host Load a2 n s2) as (b2 & Hr2 & Hl2 & _); [done..|].
  rewrite Hr1. cbn [mbind option_bind]. rewrite Hr2. cbn [mbind option_bind].
  apply memcmp_result; try done; [apply Hs12|by destruct Hs12 as [_ ->]| |].
  - intros h Htl. by eapply translates_same.
  - intros m3 host1 host2 dst Hw Hd Hne. assert (difference b1 b2 (memcmp_bytes b1 b2))
      by (apply memcmp_difference; unfold len in *; lia).
    exists (hs_ptr s1), (hs_ptr s2), b1, b2, dst, (memcmp_bytes b1 b2). naive_solver.
Qed.

Lemma mem_body_spec op ca a1 a2 n a4 m host :
  memory_ok m host -> is_u64 a1 -> is_u64 a2 -> is_u64 n -> is_u64 a4 ->
  exists m' host' r, mem_body op ca a1 a2 n a4 m host = Some (m', host', r) /\ syscall_ok op a1 a2 n a4 m host m' host' r.
Proof.
  intros. destruct op; cbn [mem_body]; [apply memmove_spec; auto..|by apply memcmp_spec|by apply memset_spec].
Qed.

(** A syscall that does nothing. *)
Lemma refused_ok op a1 a2 n a4 m host e : memory_ok m host -> syscall_ok op a1 a2 n a4 m host m host (Err e).
Proof.
  intros [Hm Hh _]. split; [by apply step_refl| |done..]. exists []. split; [apply prefix_nil|].
  split; [apply tracked_nil|done].
Qed.

(** What a memory syscall costs. *)
Definition mem_cost (cost : ExecutionCost) (n : Z) : Z :=
  Z.max (mem_op_base_cost cost) (if cpi_bytes_per_unit cost =? 0 then u64_MAX else n / cpi_bytes_per_unit cost).

(** What a memory syscall takes from the context, when and whether it goes on. *)
Record paid (cost : ExecutionCost) (op : MemOp) (a1 a2 n : Z) (ic ic' : InvokeContext) (r : Result Z BoxError)
    : Prop := {
  paid_context : ic' = set_compute_meter (saturating_sub (compute_meter ic) (mem_cost cost n)) ic;
  paid_broke : compute_meter ic < mem_cost cost n -> r = Err (BoxInstructionError "ComputationalBudgetExceeded");
  paid_overlap : mem_cost cost n <= compute_meter ic -> refuses op a1 a2 n = true ->
    r = Err (BoxOther "Overlapping copy")
}.

Section syscall.
Context (cost : ExecutionCost) (bpf_loader_deprecated : Pubkey) (op : MemOp) (ic : InvokeContext) (a1 a2 n a4 : Z)
  (m : MemoryMapping) (host : HostMemory) (ca : bool).
Context (Ha1 : is_u64 a1) (Ha2 : is_u64 a2) (Hn : is_u64 n) (Ha4 : is_u64 a4) (Hmem : memory_ok m host)
  (Hca : get_check_aligned bpf_loader_deprecated ic = Some ca).

Lemma mem_syscall_spec :
  exists ic' m' host' r, mem_syscall cost bpf_loader_deprecated op ic a1 a2 n a4 m host = Some (ic', (m', host', r)) /\
    paid cost op a1 a2 n ic ic' r /\ syscall_ok op a1 a2 n a4 m host m' host' r.
Proof using Ha1 Ha2 Hn Ha4 Hmem Hca.
  unfold mem_syscall, mem_op_consume, consume_compute_meter, consume_checked. fold (mem_cost cost n).
  destruct (Z.ltb_spec (compute_meter ic) (mem_cost cost n)).
  { eexists _, _, _, _. split; [done|]. split; [split; [done..|lia]|by apply refused_ok]. }
  destruct (refuses op a1 a2 n) eqn:Er.
  { eexists _, _, _, _. split; [done|]. split; [split; [done|lia|done]|by apply refused_ok]. }
  change (get_check_aligned _ _) with (get_check_aligned bpf_loader_deprecated ic). rewrite Hca.
  destruct (mem_body_spec op ca a1 a2 n a4 m host) as (m' & host' & r & -> & Hok); [done..|].
  eexists _, _, _, _. split; [done|]. split; [split; [done|lia|congruence]|done].
Qed.
End syscall.

(** The memory syscalls are safe and hide nothing from the tracker: whatever
    arguments a program passes, on memory that is in good order and in a context
    whose current program has an owner they return (no access outside the guest's
    regions, no panic); they change the context in
    nothing but the compute meter, from which they take their cost; a meter that
    is too low and a [memcpy] of overlapping ranges are errors; and the tracker
    sees the ranges they read, in order, each of them when they succeed. *)
Theorem mem_syscalls_safe cost bpf_loader_deprecated op ic a1 a2 n a4 m host ca :
  is_u64 a1 -> is_u64 a2 -> is_u64 n -> is_u64 a4 -> memory_ok m host ->
  get_check_aligned bpf_loader_deprecated ic = Some ca ->
  exists ic' m' host' r,
    mem_syscall cost bpf_loader_deprecated op ic a1 a2 n a4 m host = Some (ic', (m', host', r)) /\
    paid cost op a1 a2 n ic ic' r /\ mapping_step m m' /\
    (exists loads, loads `prefix_of` mem_reads op a1 a2 n /\ tracked_by loads m m' /\
       (is_ok r = true -> loads = mem_reads op a1 a2 n)) /\
    (is_ok r = true -> r = Ok 0 /\ memory_ok m' host').
Proof.
  intros H1 H2 H3 H4 Hmem Hca.
  destruct (mem_syscall_spec cost bpf_loader_deprecated op ic a1 a2 n a4 m host ca)
    as (ic' & m' & host' & r & E & Hp & [Hs Ht Hb _]); [done..|].
  exists ic', m', host', r. do 4 (split; [done|]). destruct r as [x|]; [|done]. intros _.
  destruct (Hb x eq_refl) as [-> Hbk]. destruct Hs. done.
Qed.

(** C36. The memory syscalls do what their names say: when one succeeds on a
    range that is not empty, [memcpy] and [memmove] leave the bytes of the source,
    as they were before, at the destination, even when the ranges overlap;
    [memset] leaves the low byte of its argument everywhere in the range; and
    [memcmp] stores zero when the strings are equal and else the difference of the
    first bytes that differ. No other byte changes from the time the target is
    writable, which it is from the start when no handler has to make it so. *)
Theorem mem_syscalls_effect cost bpf_loader_deprecated op ic a1 a2 n a4 m host ca ic' m' host' x :
  is_u64 a1 -> is_u64 a2 -> is_u64 n -> is_u64 a4 -> memory_ok m host ->
  get_check_aligned bpf_loader_deprecated ic = Some ca ->
  mem_syscall cost bpf_loader_deprecated op ic a1 a2 n a4 m host = Some (ic', (m', host', Ok x)) -> n <> 0 ->
  exists host1, mem_effect op a1 a2 n a4 m m' host host1 host' /\
    forall h, translates m Store (mem_target op a1 n a4).1 (mem_target op a1 n a4).2 h -> host1 = host.
Proof.
  intros H1 H2 H3 H4 Hmem Hca E Hne.
  destruct (mem_syscall_spec cost bpf_loader_deprecated op ic a1 a2 n a4 m host ca)
    as (ic1 & m1 & host1 & r & E1 & _ & [_ _ _ He]); [done..|].
  rewrite E1 in E. injection E as -> -> -> ->. by apply (He x).
Qed.

(** ** Examples *)

(** The example machine's memory with the tail of its input watched. *)
Definition example_watching : MemoryMapping :=
  with_access_tracker (fun t => add_watched_ranges t [mkRange (MM_INPUT_START + 6) (MM_INPUT_START + 8)])
    example_mapping.

Lemma example_watching_ok : memory_ok example_watching example_vm_host.
Proof.
  destruct example_mapping_ok as (Hm & Hh & Hb).
  destruct (with_tracker_spec (fun t => add_watched_ranges t [mkRange (MM_INPUT_START + 6) (MM_INPUT_START + 8)])
    example_mapping) as (H1 & H2 & _ & _ & H3); [|done|].
  { intros t Ht. apply tracker_ok_add; [|done]. repeat constructor; by vm_compute. }
  split; [exact H1|by eapply mapping_handler_ok_eq|]. unfold example_watching. by rewrite H2.
Qed.

Definition example_syscall_context : InvokeContext := invoke_context_new (context_new [] 5 64 1) 1000.
Definition example_deprecated : Pubkey := replicate 32 9.
Definition example_cost : ExecutionCost := cost_new_with_defaults false.

(** Four bytes of the input, two of them watched, are copied to the heap. *)
Lemma mem_syscalls_safe_witness :
  exists ic' m' host',
    mem_syscall example_cost example_deprecated Memcpy example_syscall_context MM_HEAP_START (MM_INPUT_START + 4) 4 0
      example_watching example_vm_host = Some (ic', (m', host', Ok 0)) /\
    compute_meter ic' = 990 /\ memory_ok m' host' /\
    option_map forbidden_accesses (get_access_tracker m') = Some [(MM_INPUT_START + 4, 4)].
Proof.
  destruct (mem_syscalls_safe example_cost example_deprecated Memcpy example_syscall_context MM_HEAP_START (MM_INPUT_START + 4) 4 0
    example_watching example_vm_host true ltac:(by vm_compute) ltac:(by vm_compute) ltac:(by vm_compute)
    ltac:(by vm_compute) example_watching_ok ltac:(by vm_compute))
    as (ic' & m' & host' & r & E & [Hp _ _] & _ & (loads & _ & Ht & Hl) & Hok).
  assert (Some r = Some (Ok 0)) as [= ->].
  { transitivity (option_map (fun x => x.2.2) (mem_syscall example_cost example_deprecated Memcpy example_syscall_context MM_HEAP_START
      (MM_INPUT_START + 4) 4 0 example_watching example_vm_host)); [by rewrite E|clear; by vm_compute]. }
  exists ic', m', host'. split; [exact E|]. clear E. split; [rewrite Hp; reflexivity|].
  split; [by apply Hok|]. rewrite Ht, (Hl eq_refl). clear. by vm_compute.
Defined.

(** The first byte of the stack differs from the byte of the heap; [memcmp]
    stores the difference next to it. *)
Lemma mem_syscalls_effect_witness :
  exists ic' m' host' host1,
    mem_syscall example_cost example_deprecated Memcmp example_syscall_context (MM_STACK_START + 1) (MM_HEAP_START + 5) 3
      (MM_HEAP_START + 8) example_watching example_vm_host = Some (ic', (m', host', Ok 0)) /\
    mem_effect Memcmp (MM_STACK_START + 1) (MM_HEAP_START + 5) 3 (MM_HEAP_START + 8) example_watching m'
      example_vm_host host1 host' /\
    host_read host' 0x3008 4 = Some (le_split 4 (as_u32 (-4))).
Proof.
  destruct (mem_syscall example_cost example_deprecated Memcmp example_syscall_context (MM_STACK_START + 1) (MM_HEAP_START + 5) 3
    (MM_HEAP_START + 8) example_watching example_vm_host) as [[ic' [[m' host'] r]]|] eqn:E.
  2:{ exfalso. apply (f_equal (option_map (fun _ => tt))) in E. by vm_compute in E. }
  assert (Some (r, host_read host' 0x3008 4) = Some (Ok 0, Some (le_split 4 (as_u32 (-4))))) as [= -> Hv].
  { apply (f_equal (option_map (fun x => (x.2.2, host_read x.2.1.2 0x3008 4)))) in E. cbn [option_map fst snd] in E.
    rewrite <- E. clear. by vm_compute. }
  destruct (mem_syscalls_effect example_cost example_deprecated Memcmp example_syscall_context (MM_STACK_START + 1) (MM_HEAP_START + 5) 3
    (MM_HEAP_START + 8) example_watching example_vm_host true ic' m' host' 0 ltac:(clear; by vm_compute)
    ltac:(clear; by vm_compute) ltac:(clear; by vm_compute) ltac:(clear; by vm_compute) example_watching_ok
    ltac:(clear; by vm_compute) E ltac:(done)) as (host1 & He & _).
  exists ic', m', host', host1. split; [reflexivity|]. split; [exact He|exact Hv].
Defined.
