(* ===== verification/Syscalls.v ===== *)
(** The syscalls of the runtime (agave/syscalls/src/lib.rs, logging.rs, sysvar.rs), except the
    memory syscalls ([MemOps]) and the arithmetic of curves and fields ([CurveSyscalls]).

    A syscall reads and changes the invoke context, the memory mapping with the memory of the
    process, and the log. Hash functions, program addresses, text encodings and the layout of types
    of other crates are parameters. [None] is a panic or an access to memory that is not allocated. *)

From Stdlib Require Import ZArith Lia Bool Ascii.
From stdpp Require Import strings pretty.
From S2P Require Import Prelude.
From S2P Require Import SbpfTypes.
From S2P Require Import Ebpf.
From S2P Require Import MemoryRegion.
From S2P Require Import Mapping.
From S2P Require Import TxAccounts.
From S2P Require Import TxContext.
From S2P Require Import InvokeContext.
From S2P Require Import ExecutionCost.
From S2P Require Import SysvarCache.
From S2P Require Import Features.
From S2P Require Import MemOps.

#[local] Open Scope Z_scope.

(** ** Strings *)

(** [Utf8Error]. *)
Record Utf8Error := mkUtf8Error { valid_up_to : Z; error_len : option Z }.

(** The length of the sequence that a byte starts; 0 for none. *)
Definition utf8_char_width (b : Z) : Z :=
  if b <? 0x80 then 1
  else if (0xC2 <=? b) && (b <=? 0xDF) then 2
  else if (0xE0 <=? b) && (b <=? 0xEF) then 3
  else if (0xF0 <=? b) && (b <=? 0xF4) then 4
  else 0.

Definition is_continuation (b : Z) : bool := (0x80 <=? b) && (b <=? 0xBF).

(** The second byte of a sequence of three or four; some are overlong, surrogates or too large. *)
Definition second_byte_ok (first second : Z) : bool :=
  is_continuation second &&
  negb ((first =? 0xE0) && (second <? 0xA0)) && negb ((first =? 0xED) && (0x9F <? second)) &&
  negb ((first =? 0xF0) && (second <? 0x90)) && negb ((first =? 0xF4) && (0x8F <? second)).

(** [str::from_utf8] of the bytes from an index on. *)
Fixpoint from_utf8_at (index : Z) (bs : list Z) : Result unit Utf8Error :=
  match bs with
  | [] => Ok tt
  | b0 :: bs =>
      let incomplete := Err (mkUtf8Error index None) in
      let invalid n := Err (mkUtf8Error index (Some n)) in
      if utf8_char_width b0 =? 1 then from_utf8_at (index + 1) bs
      else if utf8_char_width b0 =? 2 then
        match bs with
        | [] => incomplete
        | b1 :: bs => if negb (is_continuation b1) then invalid 1 else from_utf8_at (index + 2) bs
        end
      else if utf8_char_width b0 =? 3 then
        match bs with
        | [] => incomplete
        | b1 :: bs =>
            if negb (second_byte_ok b0 b1) then invalid 1
            else match bs with
                 | [] => incomplete
                 | b2 :: bs => if negb (is_continuation b2) then invalid 2 else from_utf8_at (index + 3) bs
                 end
        end
      else if utf8_char_width b0 =? 4 then
        match bs with
        | [] => incomplete
        | b1 :: bs =>
            if negb (second_byte_ok b0 b1) then invalid 1
            else match bs with
                 | [] => incomplete
                 | b2 :: bs =>
                     if negb (is_continuation b2) then invalid 2
                     else match bs with
                          | [] => incomplete
                          | b3 :: bs => if negb (is_continuation b3) then invalid 3 else from_utf8_at (index + 4) bs
                          end
                 end
        end
      else invalid 1
  end.

Definition string_of_bytes (bs : list Z) : string :=
  foldr (fun b s => String (ascii_of_N (Z.to_N b)) s) "" bs.

Definition from_utf8 (bs : list Z) : Result string Utf8Error :=
  match from_utf8_at 0 bs with Ok _ => Ok (string_of_bytes bs) | Err e => Err e end.

(** Formatting: [{}] of an integer, [{:#x}], [{:?}] of bytes, and of a [Utf8Error]. *)
Definition fmt (n : Z) : string := pretty n.

Definition hex_digit (d : Z) : string :=
  match String.get (Z.to_nat d) "0123456789abcdef" with Some c => String c "" | None => "" end.
Fixpoint hex_digits (fuel : nat) (n : Z) : string :=
  match fuel with
  | O => ""
  | S fuel => (if n / 16 =? 0 then "" else hex_digits fuel (n / 16)) +:+ hex_digit (n mod 16)
  end.
Definition fmt_hex (n : Z) : string := "0x" +:+ hex_digits 16 n.

Definition join (separator : string) (l : list string) : string := String.concat separator l.

Definition fmt_bytes (bs : list Z) : string := "[" +:+ join ", " (map fmt bs) +:+ "]".

Definition fmt_utf8_error (e : Utf8Error) : string :=
  match error_len e with
  | Some n => "invalid utf-8 sequence of " +:+ fmt n +:+ " bytes from index " +:+ fmt (valid_up_to e)
  | None => "incomplete utf-8 byte sequence from index " +:+ fmt (valid_up_to e)
  end.

(** ** Errors *)

(** [SyscallError]; the variants that nothing constructs any more are left out. *)
Inductive SyscallErrorKind :=
| InvalidString (e : Utf8Error) (bs : list Z)
| Abort
| Panic (file : string) (line column : Z)
| InvokeContextBorrowFailed
| BadSeeds (e : string)
| CopyOverlapping
| ReturnDataTooLarge (n max : Z)
| TooManySlices
| SyscallInvalidLength
| InvalidAttribute
| InvalidPointer
| SyscallArithmeticOverflow.

Definition syscall_error (e : SyscallErrorKind) : BoxError :=
  BoxOther match e with
  | InvalidString e bs => fmt_utf8_error e +:+ ": " +:+ fmt_bytes bs
  | Abort => "SBF program panicked"
  | Panic file line column =>
      "SBF program Panicked in " +:+ file +:+ " at " +:+ fmt line +:+ ":" +:+ fmt column
  | InvokeContextBorrowFailed => "Cannot borrow invoke context"
  | BadSeeds e => "Could not create program address with signer seeds: " +:+ e
  | CopyOverlapping => "Overlapping copy"
  | ReturnDataTooLarge n max => "Return data too large (" +:+ fmt n +:+ " > " +:+ fmt max +:+ ")"
  | TooManySlices => "Hashing too many sequences"
  | SyscallInvalidLength => "InvalidLength"
  | InvalidAttribute => "InvalidAttribute"
  | InvalidPointer => "Invalid pointer"
  | SyscallArithmeticOverflow => "Arithmetic overflow"
  end.

(** An [InstructionError] in a box is known by its name. *)
Definition instruction_error (e : InstructionError) : BoxError :=
  BoxInstructionError match e with
  | GenericError => "GenericError"
  | InvalidArgument => "InvalidArgument"
  | AccountDataTooSmall => "AccountDataTooSmall"
  | MissingAccount => "MissingAccount"
  | ModifiedProgramId => "ModifiedProgramId"
  | ExternalAccountLamportSpend => "ExternalAccountLamportSpend"
  | ExternalAccountDataModified => "ExternalAccountDataModified"
  | ReadonlyLamportChange => "ReadonlyLamportChange"
  | ReadonlyDataModified => "ReadonlyDataModified"
  | ExecutableModified => "ExecutableModified"
  | AccountBorrowFailed => "AccountBorrowFailed"
  | AccountBorrowOutstanding => "AccountBorrowOutstanding"
  | AccountDataSizeChanged => "AccountDataSizeChanged"
  | CallDepth => "CallDepth"
  | ReentrancyNotAllowed => "ReentrancyNotAllowed"
  | MaxAccountsExceeded => "MaxAccountsExceeded"
  | InvalidRealloc => "InvalidRealloc"
  | ComputationalBudgetExceeded => "ComputationalBudgetExceeded"
  | PrivilegeEscalation => "PrivilegeEscalation"
  | ProgramEnvironmentSetupFailure => "ProgramEnvironmentSetupFailure"
  | ProgramFailedToComplete => "ProgramFailedToComplete"
  | UnsupportedProgramId => "UnsupportedProgramId"
  | InvalidAccountOwner => "InvalidAccountOwner"
  | ArithmeticOverflow => "ArithmeticOverflow"
  | MaxAccountsDataAllocationsExceeded => "MaxAccountsDataAllocationsExceeded"
  | MaxInstructionTraceLengthExceeded => "MaxInstructionTraceLengthExceeded"
  | UnbalancedInstruction => "UnbalancedInstruction"
  | ExecutableAccountNotRentExempt => "ExecutableAccountNotRentExempt"
  | BuiltinProgramsMustConsumeComputeUnits => "BuiltinProgramsMustConsumeComputeUnits"
  | MaxSeedLengthExceeded => "MaxSeedLengthExceeded"
  | UnsupportedSysvar => "UnsupportedSysvar"
  | Custom code => "Custom(" +:+ fmt code +:+ ")"
  end.

(** ** The log *)

Definition LOG_MESSAGES_BYTES_LIMIT : Z := 10 * 1000.

Record LogCollector := mkLogCollector {
  messages : list string;
  bytes_written : Z;
  bytes_limit : option Z;
  limit_warning : bool
}.

Definition log_new_with_limit (limit : option Z) : LogCollector := mkLogCollector [] 0 limit false.
Definition log_default : LogCollector := log_new_with_limit (Some LOG_MESSAGES_BYTES_LIMIT).

Definition log_message (message : string) (c : LogCollector) : LogCollector :=
  match bytes_limit c with
  | None => mkLogCollector (messages c ++ [message]) (bytes_written c) (bytes_limit c) (limit_warning c)
  | Some limit =>
      let bytes_written' := saturating_add (bytes_written c) (Z.of_nat (String.length message)) in
      if limit <=? bytes_written' then
        if negb (limit_warning c)
        then mkLogCollector (messages c ++ ["Log truncated"]) (bytes_written c) (bytes_limit c) true
        else c
      else mkLogCollector (messages c ++ [message]) bytes_written' (bytes_limit c) (limit_warning c)
  end.

(** ** The monad *)

Record SysState := mkSysState {
  sys_context : InvokeContext;
  sys_mapping : MemoryMapping;
  sys_host : HostMemory;
  sys_log : option LogCollector
}.

Definition SysM (A : Type) : Type := SysState -> option (SysState * Result A BoxError).

Definition sys_ret {A} (x : A) : SysM A := fun s => Some (s, Ok x).
Definition sys_fail {A} (e : BoxError) : SysM A := fun s => Some (s, Err e).
Definition sys_bind {A B} (p : SysM A) (k : A -> SysM B) : SysM B := fun s =>
  let! (s, r) := p s in
  match r with Ok x => k x s | Err e => Some (s, Err e) end.

Notation "'sys!' x := p 'in' k" := (sys_bind p (fun x => k))
  (at level 10, x pattern, p at level 100, k at level 200) : gobble_scope.

Definition set_sys_context (ic : InvokeContext) (s : SysState) : SysState :=
  mkSysState ic (sys_mapping s) (sys_host s) (sys_log s).
Definition set_sys_memory (m : MemoryMapping) (host : HostMemory) (s : SysState) : SysState :=
  mkSysState (sys_context s) m host (sys_log s).

Definition sys_throw {A} (e : SyscallErrorKind) : SysM A := sys_fail (syscall_error e).

(** Reading the context, and changing it. *)
Definition sys_get {A} (f : InvokeContext -> A) : SysM A := fun s => Some (s, Ok (f (sys_context s))).
Definition sys_try {A} (f : InvokeContext -> Result A InstructionError) : SysM A := fun s =>
  Some (s, map_err instruction_error (f (sys_context s))).
Definition sys_update {A} (f : InvokeContext -> InvokeContext * Result A InstructionError) : SysM A := fun s =>
  let '(ic, r) := f (sys_context s) in Some (set_sys_context ic s, map_err instruction_error r).

(** [consume_compute_meter]. *)
Definition sys_consume (amount : Z) : SysM unit := fun s =>
  let '(ic, r) := consume_compute_meter (sys_context s) amount in Some (set_sys_context ic s, r).

(** [ic_logger_msg!]. *)
Definition sys_log_msg (message : string) : SysM unit := fun s =>
  Some (mkSysState (sys_context s) (sys_mapping s) (sys_host s) (option_map (log_message message) (sys_log s)), Ok tt).

(** Host memory that was translated. *)
Definition sys_read (ptr n : Z) : SysM (list Z) := fun s =>
  let! bs := host_read (sys_host s) ptr (Z.to_nat n) in Some (s, Ok bs).
Definition sys_write (ptr : Z) (bs : list Z) : SysM unit := fun s =>
  let! host := host_write (sys_host s) ptr bs in Some (set_sys_memory (sys_mapping s) host s, Ok tt).

(** [dst.copy_from_slice(bs)] for a slice of [n] bytes; another length is a panic. *)
Definition copy_from_slice (ptr n : Z) (bs : list Z) : SysM unit :=
  if len bs =? n then sys_write ptr bs else fun _ => None.

Definition sys_translate {A} (f : MemoryMapping -> MemoryMapping * Result A BoxError) : SysM A := fun s =>
  let '(m, r) := f (sys_mapping s) in Some (set_sys_memory m (sys_host s) s, r).
Definition sys_touch {A} (f : MemoryMapping -> HostMemory -> MemoryMapping * HostMemory * Result A BoxError)
    : SysM A := fun s =>
  let '(m, host, r) := f (sys_mapping s) (sys_host s) in Some (set_sys_memory m host s, r).

(** [iter().map(..).collect()] and loops that push. *)
Fixpoint sys_mapM {A B} (f : A -> SysM B) (l : list A) : SysM (list B) :=
  match l with
  | [] => sys_ret []
  | x :: l =>
      sys! y := f x in
      sys! ys := sys_mapM f l in
      sys_ret (y :: ys)
  end.

(** A little-endian [u64]. *)
Definition u64_le (bs : list Z) : Z := as_u64 (le_combine (take 8 bs)).
Definition slice_of (bs : list Z) : VmSlice := mkVmSlice (u64_le bs) (u64_le (drop 8 bs)).

(** [n] elements of [size] bytes. *)
Definition chunks (size n : Z) (bs : list Z) : list (list Z) :=
  map (fun i => take (Z.to_nat size) (drop (i * Z.to_nat size) bs)) (seq 0 (Z.to_nat n)).

(** [x.checked_div(y).unwrap_or(default)]. *)
Definition div_or (x y default : Z) : Z := if y =? 0 then default else x / y.

(** ** The environment *)

(** [HasherImpl]: the three hash functions. *)
Inductive Hasher := Sha256Hasher | Blake3Hasher | Keccak256Hasher.

#[export] Instance Hasher_eq_dec : EqDecision Hasher.
Proof. solve_decision. Defined.

Inductive Secp256k1RecoverError := InvalidHash | InvalidRecoveryId | InvalidSignature.

Record BigModExpParams := mkBigModExpParams {
  bme_base : VmSlice;
  bme_exponent : VmSlice;
  bme_modulus : VmSlice
}.

(** What a syscall reads that does not change while a program runs. *)
Record SyscallEnvironment := mkSyscallEnvironment {
  costs : ExecutionCost;
  features : FeatureSet;
  sha256_max_slices : Z;
  loader_deprecated_id : Pubkey;
  sysvar_cache : SysvarCache;
  epoch_stake : Z;
  epoch_stake_for_vote_account : Pubkey -> Z;
  (** Constants of other crates. *)
  MAX_SEEDS : Z;
  MAX_SEED_LEN : Z;
  MAX_RETURN_DATA : Z;
  BPF_ALIGN_OF_U128 : Z;
  HASH_BYTES : Z;
  SECP256K1_SIGNATURE_LENGTH : Z;
  SECP256K1_PUBLIC_KEY_LENGTH : Z;
  (** Functions of other crates. *)
  max_seed_length_exceeded : string;
  create_program_address : list (list Z) -> Pubkey -> option Pubkey;
  digest : Hasher -> list (list Z) -> list Z;
  digest_size : Hasher -> Z;
  base58 : list Z -> string;
  base64 : list Z -> string;
  secp256k1_error : Secp256k1RecoverError -> Z;
  secp256k1_message_ok : list Z -> bool;
  secp256k1_recovery_id_ok : Z -> bool;
  secp256k1_signature_ok : list Z -> bool;
  secp256k1_recover : list Z -> list Z -> Z -> option (list Z);
  big_mod_exp : list Z -> list Z -> list Z -> list Z;
  (** Sysvars, and layouts of other crates: sizes, alignments, decoders and encoders. *)
  sysvar_id : Sysvar -> Pubkey;
  sysvar_deserialize : Sysvar -> list Z -> option (list Z);
  sysvar_size : Sysvar -> Z;
  sysvar_align : Sysvar -> Z;
  size_of_sibling : Z;
  decode_sibling : list Z -> Z * Z;
  encode_sibling : Z * Z -> list Z;
  size_of_meta : Z;
  encode_meta : AccountMeta -> list Z;
  size_of_BigModExpParams : Z;
  decode_BigModExpParams : list Z -> BigModExpParams
}.

Definition size_of_Pubkey : Z := 32.
Definition size_of_VmSlice : Z := 16.

Section syscalls.
Variable env : SyscallEnvironment.
Abbreviation cost := (costs env).
Abbreviation strict := (stricter_abi_and_runtime_constraints (features env)).

(** ** Guest memory *)

Definition sys_check_aligned : SysM bool := fun s =>
  let! b := get_check_aligned (loader_deprecated_id env) (sys_context s) in Some (s, Ok b).

(** [translate_type] and the value, [translate_slice] and its bytes or elements. *)
Definition get_type (size align vm_addr : Z) : SysM (list Z) :=
  sys! check_aligned := sys_check_aligned in
  sys! ptr := sys_translate (fun m => translate_type size align m vm_addr check_aligned) in
  sys_read ptr size.
Definition get_bytes (vm_addr n : Z) : SysM (list Z) :=
  sys! check_aligned := sys_check_aligned in
  sys! s := sys_translate (fun m => translate_slice 1 1 m vm_addr n check_aligned) in
  sys_read (hs_ptr s) n.
Definition get_slice (size align vm_addr n : Z) : SysM (list (list Z)) :=
  sys! check_aligned := sys_check_aligned in
  sys! s := sys_translate (fun m => translate_slice size align m vm_addr n check_aligned) in
  sys! bs := sys_read (hs_ptr s) (n * size) in
  sys_ret (chunks size n bs).
Definition get_slices (vm_addr n : Z) : SysM (list VmSlice) :=
  sys! l := get_slice size_of_VmSlice 8 vm_addr n in
  sys_ret (map slice_of l).
Definition get_vm_slice (s : VmSlice) : SysM (list Z) := get_bytes (vs_ptr s) (vs_len s).

(** [translate_mut!]: every binding is touched, then every one is translated, and no two of them
    may overlap. *)
Inductive Binding :=
| BindType (size align vm_addr : Z)
| BindSlice (size align vm_addr n : Z).

Definition touch_binding (b : Binding) : SysM unit :=
  match b with
  | BindType size _ vm_addr => sys_touch (fun m host => touch_type_mut size m host vm_addr)
  | BindSlice size _ vm_addr n => sys_touch (fun m host => touch_slice_mut size m host vm_addr n)
  end.

(** The host address and the number of bytes. *)
Definition map_binding (b : Binding) : SysM (Z * Z) :=
  sys! check_aligned := sys_check_aligned in
  match b with
  | BindType size align vm_addr =>
      sys! ptr := sys_translate (fun m => translate_type_mut size align m vm_addr check_aligned) in
      sys_ret (ptr, size)
  | BindSlice size align vm_addr n =>
      sys! s := sys_translate (fun m => translate_slice_mut size align m vm_addr n check_aligned) in
      sys_ret (hs_ptr s, saturating_mul size n)
  end.

Fixpoint nonoverlapping (l : list (Z * Z)) : bool :=
  match l with
  | [] => true
  | a :: l => forallb (fun b => is_nonoverlapping a.1 a.2 b.1 b.2) l && nonoverlapping l
  end.

Definition translate_mut (bindings : list Binding) : SysM (list Z) :=
  sys! _ := sys_mapM touch_binding bindings in
  sys! host_ranges := sys_mapM map_binding bindings in
  if nonoverlapping host_ranges then sys_ret (map fst host_ranges) else sys_throw CopyOverlapping.

(** With one binding, and with two. *)
Definition translate_mut1 (b : Binding) : SysM Z :=
  sys! l := translate_mut [b] in
  match l with [p] => sys_ret p | _ => fun _ => None end.
Definition translate_mut2 (a b : Binding) : SysM (Z * Z) :=
  sys! l := translate_mut [a; b] in
  match l with [p; q] => sys_ret (p, q) | _ => fun _ => None end.

Definition translate_string_and_do {A} (addr n : Z) (work : string -> SysM A) : SysM A :=
  sys! buf := get_bytes addr n in
  match from_utf8 buf with
  | Ok message => work message
  | Err e => sys_throw (InvalidString e buf)
  end.

(** ** Aborting *)

Definition SyscallAbort : SysM Z := sys_throw Abort.

Definition SyscallPanic (file n line column : Z) : SysM Z :=
  sys! _ := sys_consume n in
  translate_string_and_do file n (fun s => sys_throw (Panic s line column)).

(** ** Logging *)

Definition program_log (message : string) : SysM unit := sys_log_msg ("Program log: " +:+ message).
Definition program_data (data : list (list Z)) : SysM unit :=
  sys_log_msg ("Program data: " +:+ join " " (map (base64 env) data)).

Definition SyscallLog (addr n : Z) : SysM Z :=
  sys! _ := sys_consume (Z.max (syscall_base_cost cost) n) in
  translate_string_and_do addr n (fun s =>
    sys! _ := program_log s in
    sys_ret 0).

Definition SyscallLogU64 (arg1 arg2 arg3 arg4 arg5 : Z) : SysM Z :=
  sys! _ := sys_consume (log_64_units cost) in
  sys! _ := program_log (join ", " (map fmt_hex [arg1; arg2; arg3; arg4; arg5])) in
  sys_ret 0.

Definition SyscallLogBpfComputeUnits : SysM Z :=
  sys! _ := sys_consume (syscall_base_cost cost) in
  sys! remaining := sys_get compute_meter in
  sys! _ := sys_log_msg ("Program consumption: " +:+ fmt remaining +:+ " units remaining") in
  sys_ret 0.

Definition SyscallLogPubkey (pubkey_addr : Z) : SysM Z :=
  sys! _ := sys_consume (log_pubkey_units cost) in
  sys! pubkey := get_type size_of_Pubkey 1 pubkey_addr in
  sys! _ := program_log (base58 env pubkey) in
  sys_ret 0.

Definition SyscallLogData (addr n : Z) : SysM Z :=
  sys! _ := sys_consume (syscall_base_cost cost) in
  sys! untranslated_fields := get_slices addr n in
  sys! _ := sys_consume (saturating_mul (syscall_base_cost cost) (len untranslated_fields)) in
  sys! _ := sys_consume (fold_left (fun total e => saturating_add total (vs_len e)) untranslated_fields 0) in
  sys! fields := sys_mapM get_vm_slice untranslated_fields in
  sys! _ := program_data fields in
  sys_ret 0.

(** ** The heap *)

(** [Layout::from_size_align] for an alignment that is a power of two. *)
Definition layout_ok (size align : Z) : bool := size <=? i64_MAX - (align - 1).

(** [get_syscall_context_mut()?.allocator.alloc(layout)]. *)
Definition context_alloc (size align : Z) (ic : InvokeContext) : InvokeContext * Result (option Z) InstructionError :=
  match get_syscall_context ic with
  | Err e => (ic, Err e)
  | Ok sc =>
      let '(a, addr) := alloc (allocator sc) size align in
      let '(ic, r) := set_syscall_context ic (mkSyscallContext a (accounts_metadata sc)) in
      (ic, match r with Ok _ => Ok addr | Err e => Err e end)
  end.

Definition SyscallAllocFree (size free_addr : Z) : SysM Z :=
  sys! check_aligned := sys_check_aligned in
  let align := if check_aligned then BPF_ALIGN_OF_U128 env else 1 in
  if negb (layout_ok size align) then sys_ret 0
  else if free_addr =? 0 then
    sys! addr := sys_update (context_alloc size align) in
    sys_ret (match addr with Some addr => addr | None => 0 end)
  else
    sys! _ := sys_try get_syscall_context in
    sys_ret 0.

(** ** Program addresses *)

Definition translate_and_check_program_address_inputs (seeds_addr seeds_len program_id_addr : Z)
    : SysM (list (list Z) * Pubkey) :=
  sys! untranslated_seeds := get_slices seeds_addr seeds_len in
  if MAX_SEEDS env <? len untranslated_seeds then sys_throw (BadSeeds (max_seed_length_exceeded env))
  else
    sys! seeds :=
      sys_mapM (fun untranslated_seed =>
        if MAX_SEED_LEN env <? vs_len untranslated_seed then sys_throw (BadSeeds (max_seed_length_exceeded env))
        else get_vm_slice untranslated_seed) untranslated_seeds in
    sys! program_id := get_type size_of_Pubkey 1 program_id_addr in
    sys_ret (seeds, program_id).

Definition SyscallCreateProgramAddress (seeds_addr seeds_len program_id_addr address_addr : Z) : SysM Z :=
  sys! _ := sys_consume (create_program_address_units cost) in
  sys! (seeds, program_id) := translate_and_check_program_address_inputs seeds_addr seeds_len program_id_addr in
  match create_program_address env seeds program_id with
  | None => sys_ret 1
  | Some new_address =>
      sys! address := translate_mut1 (BindSlice 1 1 address_addr size_of_Pubkey) in
      sys! _ := copy_from_slice address size_of_Pubkey new_address in
      sys_ret 0
  end.

(** The loop over the bump seeds, from 255 down. *)
Fixpoint find_bump (rounds : nat) (bump_seed : Z) (seeds : list (list Z)) (program_id : Pubkey)
    (address_addr bump_seed_addr : Z) : SysM Z :=
  match rounds with
  | O => sys_ret 1
  | S rounds =>
      match create_program_address env (seeds ++ [[bump_seed]]) program_id with
      | Some new_address =>
          sys! (bump_seed_ref, address) :=
            translate_mut2 (BindType 1 1 bump_seed_addr) (BindSlice 1 1 address_addr size_of_Pubkey) in
          sys! _ := sys_write bump_seed_ref [bump_seed] in
          sys! _ := copy_from_slice address size_of_Pubkey new_address in
          sys_ret 0
      | None =>
          sys! _ := sys_consume (create_program_address_units cost) in
          find_bump rounds (saturating_sub bump_seed 1) seeds program_id address_addr bump_seed_addr
      end
  end.

Definition SyscallTryFindProgramAddress (seeds_addr seeds_len program_id_addr address_addr bump_seed_addr : Z)
    : SysM Z :=
  sys! _ := sys_consume (create_program_address_units cost) in
  sys! (seeds, program_id) := translate_and_check_program_address_inputs seeds_addr seeds_len program_id_addr in
  find_bump 255 255 seeds program_id address_addr bump_seed_addr.

(** ** Signatures and hashes *)

(** The returned codes are those of [Secp256k1RecoverError]; a key is serialised in 65 bytes, of
    which the first is left out. *)
Definition SyscallSecp256k1Recover (hash_addr recovery_id_val signature_addr result_addr : Z) : SysM Z :=
  sys! _ := sys_consume (secp256k1_recover_cost cost) in
  sys! result := translate_mut1 (BindSlice 1 1 result_addr (SECP256K1_PUBLIC_KEY_LENGTH env)) in
  sys! hash := get_bytes hash_addr (HASH_BYTES env) in
  sys! signature := get_bytes signature_addr (SECP256K1_SIGNATURE_LENGTH env) in
  if negb (secp256k1_message_ok env hash) then sys_ret (secp256k1_error env InvalidHash)
  else if 255 <? recovery_id_val then sys_ret (secp256k1_error env InvalidRecoveryId)
  else if negb (secp256k1_recovery_id_ok env recovery_id_val) then sys_ret (secp256k1_error env InvalidRecoveryId)
  else if negb (secp256k1_signature_ok env signature) then sys_ret (secp256k1_error env InvalidSignature)
  else
    match secp256k1_recover env hash signature recovery_id_val with
    | None => sys_ret (secp256k1_error env InvalidSignature)
    | Some public_key =>
        sys! _ := copy_from_slice result (SECP256K1_PUBLIC_KEY_LENGTH env) (take 64 (drop 1 public_key)) in
        sys_ret 0
    end.

(** [get_base_cost] and [get_byte_cost]: the three functions cost the same. *)
Definition hash_base_cost (h : Hasher) : Z :=
  match h with Sha256Hasher | Blake3Hasher | Keccak256Hasher => sha256_base_cost cost end.
Definition hash_byte_cost (h : Hasher) : Z :=
  match h with Sha256Hasher | Blake3Hasher | Keccak256Hasher => sha256_byte_cost cost end.
Definition hash_max_slices (h : Hasher) : Z :=
  match h with Sha256Hasher | Blake3Hasher | Keccak256Hasher => sha256_max_slices env end.

Definition hash_name (h : Hasher) : string :=
  match h with Sha256Hasher => "Sha256" | Blake3Hasher => "Blake3" | Keccak256Hasher => "Keccak256" end.

(** One value: it is translated, and then paid for. *)
Definition hash_value (h : Hasher) (val : VmSlice) : SysM (list Z) :=
  sys! bytes := get_vm_slice val in
  sys! _ := sys_consume (Z.max (mem_op_base_cost cost) (saturating_mul (hash_byte_cost h) (vs_len val / 2))) in
  sys_ret bytes.

Definition SyscallHash (h : Hasher) (vals_addr vals_len result_addr : Z) : SysM Z :=
  if hash_max_slices h <? vals_len then
    sys! _ := sys_log_msg (hash_name h +:+ " Hashing " +:+ fmt vals_len +:+ " sequences in one syscall is over the limit "
                             +:+ fmt (hash_max_slices h)) in
    sys_throw TooManySlices
  else
    sys! _ := sys_consume (hash_base_cost h) in
    sys! hash_result := translate_mut1 (BindSlice 1 1 result_addr (digest_size env h)) in
    sys! hashed :=
      (if 0 <? vals_len then
         sys! vals := get_slices vals_addr vals_len in
         sys_mapM (hash_value h) vals
       else sys_ret []) in
    sys! _ := copy_from_slice hash_result (digest_size env h) (digest env h hashed) in
    sys_ret 0.

(** ** Sysvars *)

(** The object is asked for before it is paid for, but an error shows only when it is written. *)
Definition get_sysvar (v : Sysvar) (var_addr : Z) : SysM Z :=
  sys! _ := sys_consume (saturating_add (sysvar_base_cost cost) (sysvar_size env v)) in
  if (MM_INPUT_START <=? var_addr) && strict then sys_throw InvalidPointer
  else
    sys! var := translate_mut1 (BindType (sysvar_size env v) (sysvar_align env v) var_addr) in
    sys! sysvar := sys_try (fun _ => get_sysvar_of (sysvar_id env) (sysvar_deserialize env) (sysvar_cache env) v) in
    sys! _ := sys_write var sysvar in
    sys_ret 0.

Definition SyscallGetClockSysvar (var_addr : Z) : SysM Z := get_sysvar Clock var_addr.
Definition SyscallGetEpochScheduleSysvar (var_addr : Z) : SysM Z := get_sysvar EpochSchedule var_addr.
Definition SyscallGetEpochRewardsSysvar (var_addr : Z) : SysM Z := get_sysvar EpochRewards var_addr.
Definition SyscallGetFeesSysvar (var_addr : Z) : SysM Z := get_sysvar Fees var_addr.
Definition SyscallGetRentSysvar (var_addr : Z) : SysM Z := get_sysvar Rent var_addr.
Definition SyscallGetLastRestartSlotSysvar (var_addr : Z) : SysM Z := get_sysvar LastRestartSlot var_addr.

Definition SYSVAR_NOT_FOUND : Z := 2.
Definition OFFSET_LENGTH_EXCEEDS_SYSVAR : Z := 1.

(** [checked_add(..).ok_or(InstructionError::ArithmeticOverflow)?]. *)
Definition add_or_overflow (a b : Z) : SysM Z :=
  match checked_add a b with Some x => sys_ret x | None => sys_fail (instruction_error ArithmeticOverflow) end.

Definition SyscallGetSysvar (sysvar_id_addr var_addr offset length : Z) : SysM Z :=
  let sysvar_id_cost := div_or 32 (cpi_bytes_per_unit cost) 0 in
  let sysvar_buf_cost := div_or length (cpi_bytes_per_unit cost) 0 in
  sys! _ := sys_consume (saturating_add (saturating_add (sysvar_base_cost cost) sysvar_id_cost)
                           (Z.max sysvar_buf_cost (mem_op_base_cost cost))) in
  if (MM_INPUT_START <=? var_addr) && strict then sys_throw InvalidPointer
  else
    sys! var := translate_mut1 (BindSlice 1 1 var_addr length) in
    sys! id := get_type size_of_Pubkey 1 sysvar_id_addr in
    sys! offset_length := add_or_overflow offset length in
    sys! _ := add_or_overflow var_addr length in
    match sysvar_id_to_buffer (sysvar_id env) (sysvar_cache env) id with
    | None => sys_ret SYSVAR_NOT_FOUND
    | Some sysvar_buf =>
        if offset_length <=? len sysvar_buf then
          sys! _ := copy_from_slice var length (slice sysvar_buf offset offset_length) in
          sys_ret 0
        else sys_ret OFFSET_LENGTH_EXCEEDS_SYSVAR
    end.

(** ** Return data *)

Definition set_context_return_data (program_id : Pubkey) (data : list Z) (ic : InvokeContext)
    : InvokeContext * Result unit InstructionError :=
  let '(c, r) := set_return_data program_id data (transaction_context ic) in (set_transaction_context c ic, r).

Definition current_program_key (ic : InvokeContext) : Result Pubkey InstructionError :=
  let? current := get_current_instruction_context (transaction_context ic) in
  get_program_key (transaction_context ic) current.

Definition SyscallSetReturnData (addr n : Z) : SysM Z :=
  sys! _ := sys_consume (saturating_add (div_or n (cpi_bytes_per_unit cost) u64_MAX) (syscall_base_cost cost)) in
  if MAX_RETURN_DATA env <? n then sys_throw (ReturnDataTooLarge n (MAX_RETURN_DATA env))
  else
    sys! return_data := (if n =? 0 then sys_ret [] else get_bytes addr n) in
    sys! program_id := sys_try current_program_key in
    sys! _ := sys_update (set_context_return_data program_id return_data) in
    sys_ret 0.

Definition SyscallGetReturnData (return_data_addr length program_id_addr : Z) : SysM Z :=
  sys! _ := sys_consume (syscall_base_cost cost) in
  sys! (program_id, return_data) := sys_get (fun ic => get_return_data (transaction_context ic)) in
  let length := Z.min length (len return_data) in
  sys! _ :=
    (if negb (length =? 0) then
       sys! _ := sys_consume (div_or (saturating_add length size_of_Pubkey) (cpi_bytes_per_unit cost) u64_MAX) in
       sys! (to_slice, program_id_result) :=
         translate_mut2 (BindSlice 1 1 return_data_addr length) (BindType size_of_Pubkey 1 program_id_addr) in
       sys! _ := sys_write to_slice (take (Z.to_nat length) return_data) in
       sys_write program_id_result program_id
     else sys_ret tt) in
  sys_ret (len return_data).

(** ** Sibling instructions *)

Definition get_stack_height (ic : InstructionContext) : Z := saturating_add (ic_nesting_level ic) 1.

(** The loop over the trace from its end: instructions at the height of the current one are
    counted, a lower one ends it. *)
Fixpoint find_sibling (c : TransactionContext) (stack_height index : Z) (index_in_trace : nat)
    (reverse_index_at_stack_height : Z) : Result (option InstructionContext) InstructionError :=
  match index_in_trace with
  | O => Ok None
  | S index_in_trace =>
      let? instruction := get_instruction_context_at_index_in_trace c (Z.of_nat index_in_trace) in
      if get_stack_height instruction <? stack_height then Ok None
      else if get_stack_height instruction =? stack_height then
        if saturating_add index 1 =? reverse_index_at_stack_height then Ok (Some instruction)
        else find_sibling c stack_height index index_in_trace (saturating_add reverse_index_at_stack_height 1)
      else find_sibling c stack_height index index_in_trace reverse_index_at_stack_height
  end.

Definition processed_sibling (index : Z) (c : TransactionContext) : Result (option InstructionContext) InstructionError :=
  find_sibling c (get_instruction_stack_height c) index (Z.to_nat (get_instruction_trace_length c)) 0.

(** The account metas of an instruction. *)
Definition sibling_meta (c : TransactionContext) (instruction : InstructionContext) (i : Z)
    : Result AccountMeta InstructionError :=
  let? pubkey := get_key_of_instruction_account c instruction i in
  let? signer := is_instruction_account_signer instruction i in
  let? writable := is_instruction_account_writable instruction i in
  Ok (mkAccountMeta pubkey signer writable).

Fixpoint sibling_metas (c : TransactionContext) (instruction : InstructionContext) (indices : list nat)
    : Result (list AccountMeta) InstructionError :=
  match indices with
  | [] => Ok []
  | i :: indices =>
      let? meta := sibling_meta c instruction (Z.of_nat i) in
      let? rest := sibling_metas c instruction indices in
      Ok (meta :: rest)
  end.

(** The lengths of an instruction, and whether a header has them. *)
Definition sibling_lengths (instruction : InstructionContext) : Z * Z :=
  (len (ic_instruction_data instruction), get_number_of_instruction_accounts instruction).

(** The instruction itself. The program id is looked up before anything is written, the metas
    after the data. *)
Definition write_sibling (instruction : InstructionContext) (lengths : Z * Z)
    (meta_addr program_id_addr data_addr accounts_addr : Z) : SysM unit :=
  sys! l := translate_mut [BindType size_of_Pubkey 1 program_id_addr; BindSlice 1 1 data_addr lengths.1;
                           BindSlice (size_of_meta env) 1 accounts_addr lengths.2;
                           BindType (size_of_sibling env) 8 meta_addr] in
  match l with
  | [program_id; data; accounts; _] =>
      sys! key := sys_try (fun ic => get_program_key (transaction_context ic) instruction) in
      sys! _ := sys_write program_id key in
      sys! _ := copy_from_slice data lengths.1 (ic_instruction_data instruction) in
      sys! account_metas :=
        sys_try (fun ic => sibling_metas (transaction_context ic) instruction (seq 0 (Z.to_nat lengths.2))) in
      sys_write accounts (concat (map (encode_meta env) account_metas))
  | _ => fun _ => None
  end.

Definition SyscallGetProcessedSiblingInstruction (index meta_addr program_id_addr data_addr accounts_addr : Z) : SysM Z :=
  sys! _ := sys_consume (syscall_base_cost cost) in
  sys! found := sys_try (fun ic => processed_sibling index (transaction_context ic)) in
  match found with
  | None => sys_ret 0
  | Some instruction =>
      sys! result_header := translate_mut1 (BindType (size_of_sibling env) 8 meta_addr) in
      sys! header := sys_read result_header (size_of_sibling env) in
      let lengths := sibling_lengths instruction in
      sys! _ :=
        (if bool_decide (decode_sibling env header = lengths)
         then write_sibling instruction lengths meta_addr program_id_addr data_addr accounts_addr
         else sys_write result_header (encode_sibling env lengths)) in
      sys_ret 1
  end.

(** ** The rest *)

Definition SyscallGetStackHeight : SysM Z :=
  sys! _ := sys_consume (syscall_base_cost cost) in
  sys_get (fun ic => get_instruction_stack_height (transaction_context ic)).

Definition SyscallRemainingComputeUnits : SysM Z :=
  sys! _ := sys_consume (syscall_base_cost cost) in
  sys_get compute_meter.

Definition SyscallGetEpochStake (var_addr : Z) : SysM Z :=
  if var_addr =? 0 then
    sys! _ := sys_consume (syscall_base_cost cost) in
    sys_ret (epoch_stake env)
  else
    sys! _ := sys_consume (saturating_add (saturating_add (syscall_base_cost cost)
                (div_or size_of_Pubkey (cpi_bytes_per_unit cost) u64_MAX)) (mem_op_base_cost cost)) in
    sys! vote_address := get_type size_of_Pubkey 1 var_addr in
    sys_ret (epoch_stake_for_vote_account env vote_address).

(** A memory syscall. *)
Definition sys_mem (op : MemOp) (a1 a2 a3 a4 : Z) : SysM Z := fun s =>
  let! (ic, (m, host, r)) :=
    mem_syscall (costs env) (loader_deprecated_id env) op (sys_context s) a1 a2 a3 a4 (sys_mapping s) (sys_host s) in
  Some (mkSysState ic m host (sys_log s), r).

End syscalls.
