(* ===== verification/CurveSyscalls.v ===== *)
(** The syscalls for elliptic curves, modular exponentiation and Poseidon hashes
    (agave/syscalls/src/lib.rs). The arithmetic itself and the constants of the crates that provide
    it are parameters; the dispatch, the costs and the memory are modelled. *)

From Stdlib Require Import ZArith Lia Bool.
From stdpp Require Import strings.
From S2P Require Import Prelude.
From S2P Require Import SbpfTypes.
From S2P Require Import TxAccounts.
From S2P Require Import ExecutionCost.
From S2P Require Import Features.
From S2P Require Import MemOps.
From S2P Require Import Syscalls.

#[local] Open Scope Z_scope.

(** ** Curves *)

(** [bls12_381_curve_id]. *)
Definition BLS12_381_LE : Z := 4.
Definition BLS12_381_BE : Z := Z.lor 4 0x80.
Definition BLS12_381_G1_LE : Z := 5.
Definition BLS12_381_G1_BE : Z := Z.lor 5 0x80.
Definition BLS12_381_G2_LE : Z := 6.
Definition BLS12_381_G2_BE : Z := Z.lor 6 0x80.

(** Sizes of encoded points (agave/bls12-381/src/encoding.rs). *)
Definition FQ_SIZE : Z := 48.
Definition FQ2_SIZE : Z := 2 * FQ_SIZE.
Definition GT_SIZE : Z := 12 * FQ_SIZE.
Definition G1_UNCOMPRESSED_SIZE : Z := 2 * FQ_SIZE.
Definition G1_COMPRESSED_SIZE : Z := FQ_SIZE.
Definition G2_UNCOMPRESSED_SIZE : Z := 2 * FQ2_SIZE.
Definition G2_COMPRESSED_SIZE : Z := FQ2_SIZE.
Definition SCALAR_SIZE : Z := 32.

Inductive Endianness := BE | LE.

(** The groups, with the encoding of their points. *)
Inductive Group := Edwards | Ristretto | BlsG1 (e : Endianness) | BlsG2 (e : Endianness).

Inductive GroupOp := GroupAdd | GroupSub | GroupMul.

(** ** alt_bn128 *)

Inductive AltBn128Op := G1Add | G2Add | G1Mul | G2Mul | Pairing.
Inductive AltBn128Compression := G1Compress | G1Decompress | G2Compress | G2Decompress.

(** What the crates for curves, fields and Poseidon provide. *)
Record CurveEnvironment := mkCurveEnvironment {
  (** curve25519. *)
  CURVE25519_EDWARDS : Z;
  CURVE25519_RISTRETTO : Z;
  ADD : Z;
  SUB : Z;
  MUL : Z;
  curve25519_point_size : Z;
  curve25519_scalar_size : Z;
  (** Points of a group: validation, decompression, operations, sums of multiples, pairings. *)
  validate_point : Group -> list Z -> bool;
  decompress_point : Group -> list Z -> option (list Z);
  group_operation : Group -> GroupOp -> list Z -> list Z -> option (list Z);
  multiscalar_multiply : Group -> list (list Z) -> list (list Z) -> option (list Z);
  pairing_map : Endianness -> list (list Z) -> list (list Z) -> option (list Z);
  (** alt_bn128: codes of operations, sizes, functions; pairing has two versions. *)
  alt_bn128_op : Z -> option (AltBn128Op * Endianness);
  alt_bn128_compression_op : Z -> option (AltBn128Compression * Endianness);
  ALT_BN128_G1_POINT_SIZE : Z;
  ALT_BN128_G2_POINT_SIZE : Z;
  ALT_BN128_G1_COMPRESSED_POINT_SIZE : Z;
  ALT_BN128_G2_COMPRESSED_POINT_SIZE : Z;
  ALT_BN128_PAIRING_ELEMENT_SIZE : Z;
  ALT_BN128_PAIRING_OUTPUT_SIZE : Z;
  alt_bn128 : AltBn128Op -> Endianness -> bool -> list Z -> option (list Z);
  alt_bn128_compress : AltBn128Compression -> Endianness -> list Z -> option (list Z);
  (** Poseidon: codes of parameters and of the byte order, the hash and the legacy hash. *)
  poseidon_parameters : Z -> Result Z string;
  poseidon_endianness : Z -> Result Endianness string;
  POSEIDON_HASH_BYTES : Z;
  poseidon_hashv : bool -> Z -> Endianness -> list (list Z) -> option (list Z)
}.

Section curves.
Variable env : SyscallEnvironment.
Variable curves : CurveEnvironment.
Abbreviation cost := (costs env).

(** A result that is stored, or the code for none. *)
Definition store_result (size result_addr : Z) (result : option (list Z)) : SysM Z :=
  match result with
  | Some point =>
      sys! result_ref := translate_mut1 env (BindType size 1 result_addr) in
      sys! _ := sys_write result_ref point in
      sys_ret 0
  | None => sys_ret 1
  end.

Definition is_bls_group_id (curve_id : Z) : bool :=
  (curve_id =? BLS12_381_G1_BE) || (curve_id =? BLS12_381_G1_LE)
  || (curve_id =? BLS12_381_G2_BE) || (curve_id =? BLS12_381_G2_LE).

(** [match curve_id]. *)
Definition bls_group (curve_id : Z) : option Group :=
  if (curve_id =? BLS12_381_G1_LE) || (curve_id =? BLS12_381_G1_BE)
  then Some (BlsG1 (if curve_id =? BLS12_381_G1_LE then LE else BE))
  else if (curve_id =? BLS12_381_G2_LE) || (curve_id =? BLS12_381_G2_BE)
  then Some (BlsG2 (if curve_id =? BLS12_381_G2_LE then LE else BE))
  else None.
Definition curve25519_group (curve_id : Z) : option Group :=
  if curve_id =? CURVE25519_EDWARDS curves then Some Edwards
  else if curve_id =? CURVE25519_RISTRETTO curves then Some Ristretto
  else None.
Definition group_of (curve_id : Z) : option Group :=
  match curve25519_group curve_id with Some g => Some g | None => bls_group curve_id end.

Definition point_size (g : Group) : Z :=
  match g with
  | Edwards | Ristretto => curve25519_point_size curves
  | BlsG1 _ => G1_UNCOMPRESSED_SIZE
  | BlsG2 _ => G2_UNCOMPRESSED_SIZE
  end.
Definition scalar_size (g : Group) : Z :=
  match g with Edwards | Ristretto => curve25519_scalar_size curves | BlsG1 _ | BlsG2 _ => SCALAR_SIZE end.
Definition compressed_size (g : Group) : Z :=
  match g with
  | Edwards | Ristretto => curve25519_point_size curves
  | BlsG1 _ => G1_COMPRESSED_SIZE
  | BlsG2 _ => G2_COMPRESSED_SIZE
  end.

(** A code that is not known. *)
Definition invalid_curve : SysM Z :=
  if abort_on_invalid_curve (features env) then sys_throw InvalidAttribute else sys_ret 1.

Definition validate_cost (g : Group) : Z :=
  match g with
  | Edwards => curve25519_edwards_validate_point_cost cost
  | Ristretto => curve25519_ristretto_validate_point_cost cost
  | BlsG1 _ => bls12_381_g1_validate_cost cost
  | BlsG2 _ => bls12_381_g2_validate_cost cost
  end.

Definition SyscallCurvePointValidation (curve_id point_addr : Z) : SysM Z :=
  if negb (enable_bls12_381_syscall (features env)) && is_bls_group_id curve_id then sys_throw InvalidAttribute
  else
    match group_of curve_id with
    | None => invalid_curve
    | Some g =>
        sys! _ := sys_consume (validate_cost g) in
        sys! point := get_type env (point_size g) 1 point_addr in
        sys_ret (if validate_point curves g point then 0 else 1)
    end.

Definition decompress_cost (g : Group) : Z :=
  match g with
  | BlsG1 _ => bls12_381_g1_decompress_cost cost
  | BlsG2 _ => bls12_381_g2_decompress_cost cost
  | Edwards | Ristretto => 0
  end.

Definition SyscallCurveDecompress (curve_id point_addr result_addr : Z) : SysM Z :=
  match bls_group curve_id with
  | None => sys_throw InvalidAttribute
  | Some g =>
      sys! _ := sys_consume (decompress_cost g) in
      sys! compressed_point := get_type env (compressed_size g) 1 point_addr in
      store_result (point_size g) result_addr (decompress_point curves g compressed_point)
  end.

(** [match group_op]. *)
Definition group_op_of (group_op : Z) : option GroupOp :=
  if group_op =? ADD curves then Some GroupAdd
  else if group_op =? SUB curves then Some GroupSub
  else if group_op =? MUL curves then Some GroupMul
  else None.

Definition group_op_cost (g : Group) (op : GroupOp) : Z :=
  match g, op with
  | Edwards, GroupAdd => curve25519_edwards_add_cost cost
  | Edwards, GroupSub => curve25519_edwards_subtract_cost cost
  | Edwards, GroupMul => curve25519_edwards_multiply_cost cost
  | Ristretto, GroupAdd => curve25519_ristretto_add_cost cost
  | Ristretto, GroupSub => curve25519_ristretto_subtract_cost cost
  | Ristretto, GroupMul => curve25519_ristretto_multiply_cost cost
  | BlsG1 _, GroupAdd => bls12_381_g1_add_cost cost
  | BlsG1 _, GroupSub => bls12_381_g1_subtract_cost cost
  | BlsG1 _, GroupMul => bls12_381_g1_multiply_cost cost
  | BlsG2 _, GroupAdd => bls12_381_g2_add_cost cost
  | BlsG2 _, GroupSub => bls12_381_g2_subtract_cost cost
  | BlsG2 _, GroupMul => bls12_381_g2_multiply_cost cost
  end.

(** An operation that is not known depends on the group. *)
Definition invalid_group_op (g : Group) : SysM Z :=
  match g with Edwards | Ristretto => invalid_curve | BlsG1 _ | BlsG2 _ => sys_throw InvalidAttribute end.

Definition SyscallCurveGroupOps (curve_id group_op left_input_addr right_input_addr result_point_addr : Z) : SysM Z :=
  if negb (enable_bls12_381_syscall (features env)) && is_bls_group_id curve_id then sys_throw InvalidAttribute
  else
    match group_of curve_id with
    | None => invalid_curve
    | Some g =>
        match group_op_of group_op with
        | None => invalid_group_op g
        | Some op =>
            sys! _ := sys_consume (group_op_cost g op) in
            sys! left_input :=
              get_type env (match op with GroupMul => scalar_size g | _ => point_size g end) 1 left_input_addr in
            sys! right_input := get_type env (point_size g) 1 right_input_addr in
            store_result (point_size g) result_point_addr (group_operation curves g op left_input right_input)
        end
    end.

Definition msm_cost (g : Group) (points_len : Z) : Z :=
  let cost_of base incremental := saturating_add base (saturating_mul incremental (saturating_sub points_len 1)) in
  match g with
  | Edwards => cost_of (curve25519_edwards_msm_base_cost cost) (curve25519_edwards_msm_incremental_cost cost)
  | _ => cost_of (curve25519_ristretto_msm_base_cost cost) (curve25519_ristretto_msm_incremental_cost cost)
  end.

Definition SyscallCurveMultiscalarMultiplication (curve_id scalars_addr points_addr points_len result_point_addr : Z)
    : SysM Z :=
  if 512 <? points_len then sys_throw SyscallInvalidLength
  else
    match curve25519_group curve_id with
    | None => invalid_curve
    | Some g =>
        sys! _ := sys_consume (msm_cost g points_len) in
        sys! scalars := get_slice env (scalar_size g) 1 scalars_addr points_len in
        sys! points := get_slice env (point_size g) 1 points_addr points_len in
        store_result (point_size g) result_point_addr (multiscalar_multiply curves g scalars points)
    end.

Definition SyscallCurvePairingMap (curve_id num_pairs g1_points_addr g2_points_addr result_addr : Z) : SysM Z :=
  if (curve_id =? BLS12_381_LE) || (curve_id =? BLS12_381_BE) then
    sys! _ := sys_consume (saturating_add (bls12_381_one_pair_cost cost)
                (saturating_mul (bls12_381_additional_pair_cost cost) (saturating_sub num_pairs 1))) in
    sys! g1_points := get_slice env G1_UNCOMPRESSED_SIZE 1 g1_points_addr num_pairs in
    sys! g2_points := get_slice env G2_UNCOMPRESSED_SIZE 1 g2_points_addr num_pairs in
    store_result GT_SIZE result_addr
      (pairing_map curves (if curve_id =? BLS12_381_LE then LE else BE) g1_points g2_points)
  else sys_throw InvalidAttribute.

(** Little-endian operations except on G2, and operations on G2, have a feature each. *)
Definition alt_bn128_blocked (op : AltBn128Op) (e : Endianness) : bool :=
  (negb (alt_bn128_little_endian (features env))
   && match op, e with G1Add, LE | G1Mul, LE | Pairing, LE => true | _, _ => false end)
  || (negb (enable_alt_bn128_g2_syscalls (features env))
      && match op with G2Add | G2Mul => true | _ => false end).

Definition alt_bn128_cost (op : AltBn128Op) (input_size : Z) : Z :=
  match op with
  | G1Add => alt_bn128_g1_addition_cost cost
  | G2Add => alt_bn128_g2_addition_cost cost
  | G1Mul => alt_bn128_g1_multiplication_cost cost
  | G2Mul => alt_bn128_g2_multiplication_cost cost
  | Pairing =>
      let ele_len := input_size / ALT_BN128_PAIRING_ELEMENT_SIZE curves in
      saturating_add (saturating_add (saturating_add
        (saturating_add (alt_bn128_pairing_one_pair_cost_first cost)
           (saturating_mul (alt_bn128_pairing_one_pair_cost_other cost) (saturating_sub ele_len 1)))
        (sha256_base_cost cost)) input_size) (ALT_BN128_PAIRING_OUTPUT_SIZE curves)
  end.
Definition alt_bn128_output (op : AltBn128Op) : Z :=
  match op with
  | G1Add | G1Mul => ALT_BN128_G1_POINT_SIZE curves
  | G2Add | G2Mul => ALT_BN128_G2_POINT_SIZE curves
  | Pairing => ALT_BN128_PAIRING_OUTPUT_SIZE curves
  end.

(** Big-endian pairing checks the length of its input with the feature only. *)
Definition alt_bn128_fixed (e : Endianness) : bool :=
  match e with BE => fix_alt_bn128_pairing_length_check (features env) | LE => true end.

(** The end of both syscalls: the input is read after the result has been made writable. *)
Definition call_with_input (output input_addr input_size result_addr : Z) (f : list Z -> option (list Z)) : SysM Z :=
  sys! call_result := translate_mut1 env (BindSlice 1 1 result_addr output) in
  sys! input := get_bytes env input_addr input_size in
  match f input with
  | None => sys_ret 1
  | Some point =>
      sys! _ := copy_from_slice call_result output point in
      sys_ret 0
  end.

Definition SyscallAltBn128 (group_op input_addr input_size result_addr : Z) : SysM Z :=
  match alt_bn128_op curves group_op with
  | None => sys_throw InvalidAttribute
  | Some (op, e) =>
      if alt_bn128_blocked op e then sys_throw InvalidAttribute
      else
        sys! _ := sys_consume (alt_bn128_cost op input_size) in
        call_with_input (alt_bn128_output op) input_addr input_size result_addr
          (alt_bn128 curves op e (alt_bn128_fixed e))
  end.

Definition compression_cost (op : AltBn128Compression) : Z :=
  saturating_add (syscall_base_cost cost)
    match op with
    | G1Compress => alt_bn128_g1_compress cost
    | G1Decompress => alt_bn128_g1_decompress cost
    | G2Compress => alt_bn128_g2_compress cost
    | G2Decompress => alt_bn128_g2_decompress cost
    end.
Definition compression_output (op : AltBn128Compression) : Z :=
  match op with
  | G1Compress => ALT_BN128_G1_COMPRESSED_POINT_SIZE curves
  | G1Decompress => ALT_BN128_G1_POINT_SIZE curves
  | G2Compress => ALT_BN128_G2_COMPRESSED_POINT_SIZE curves
  | G2Decompress => ALT_BN128_G2_POINT_SIZE curves
  end.

Definition SyscallAltBn128Compression (op input_addr input_size result_addr : Z) : SysM Z :=
  match alt_bn128_compression_op curves op with
  | None => sys_throw InvalidAttribute
  | Some (op, e) =>
      if negb (alt_bn128_little_endian (features env)) && match e with LE => true | BE => false end
      then sys_throw InvalidAttribute
      else
        sys! _ := sys_consume (compression_cost op) in
        call_with_input (compression_output op) input_addr input_size result_addr (alt_bn128_compress curves op e)
  end.

(** ** Modular exponentiation and Poseidon *)

Definition big_mod_exp_cost (input_len : Z) : Z :=
  saturating_add (syscall_base_cost cost)
    (saturating_add
       (div_or (saturating_mul input_len input_len) (big_modular_exponentiation_cost_divisor cost) u64_MAX)
       (big_modular_exponentiation_base_cost cost)).

Definition big_mod_exp_of (params : BigModExpParams) (return_value : Z) : SysM Z :=
  let base_len := vs_len (bme_base params) in
  let exponent_len := vs_len (bme_exponent params) in
  let modulus_len := vs_len (bme_modulus params) in
  if (512 <? base_len) || (512 <? exponent_len) || (512 <? modulus_len) then sys_throw SyscallInvalidLength
  else
    sys! _ := sys_consume (big_mod_exp_cost (Z.max (Z.max base_len exponent_len) modulus_len)) in
    sys! base := get_vm_slice env (bme_base params) in
    sys! exponent := get_vm_slice env (bme_exponent params) in
    sys! modulus := get_vm_slice env (bme_modulus params) in
    sys! return_value_ref := translate_mut1 env (BindSlice 1 1 return_value modulus_len) in
    sys! _ := copy_from_slice return_value_ref modulus_len (big_mod_exp env base exponent modulus) in
    sys_ret 0.

Definition SyscallBigModExp (params return_value : Z) : SysM Z :=
  sys! slice := get_slice env (size_of_BigModExpParams env) 8 params 1 in
  match slice with
  | [] => sys_throw SyscallInvalidLength
  | bs :: _ => big_mod_exp_of (decode_BigModExpParams env bs) return_value
  end.

Definition SyscallPoseidon (parameters endianness vals_addr vals_len result_addr : Z) : SysM Z :=
  match poseidon_parameters curves parameters with
  | Err e => sys_fail (BoxOther e)
  | Ok parameters =>
      match poseidon_endianness curves endianness with
      | Err e => sys_fail (BoxOther e)
      | Ok endianness =>
          if 12 <? vals_len then
            sys! _ := sys_log_msg ("Poseidon hashing " +:+ fmt vals_len +:+ " sequences is not supported") in
            sys_throw SyscallInvalidLength
          else
            match poseidon_cost cost vals_len with
            | None =>
                sys! _ := sys_log_msg "Overflow while calculating the compute cost" in
                sys_throw SyscallArithmeticOverflow
            | Some units =>
                sys! _ := sys_consume units in
                sys! hash_result := translate_mut1 env (BindSlice 1 1 result_addr (POSEIDON_HASH_BYTES curves)) in
                sys! slices := get_slices env vals_addr vals_len in
                sys! inputs := sys_mapM (get_vm_slice env) slices in
                match poseidon_hashv curves (poseidon_enforce_padding (features env)) parameters endianness inputs with
                | None => sys_ret 1
                | Some hash =>
                    sys! _ := copy_from_slice hash_result (POSEIDON_HASH_BYTES curves) hash in
                    sys_ret 0
                end
            end
      end
  end.

End curves.
