(* ===== verification/SyscallLaws.v ===== *)
(** What the syscalls rely on: the constants and functions of other crates, and the context a
    program runs in. *)

From Stdlib Require Import ZArith Lia Bool.
From stdpp Require Import strings.
From S2P Require Import Prelude.
From S2P Require Import SbpfTypes.
From S2P Require Import InterpSafe.
From S2P Require Import Meter.
From S2P Require Import TxAccounts.
From S2P Require Import TxContext.
From S2P Require Import InvokeContext.
From S2P Require Import ExecutionCost.
From S2P Require Import SysvarCache.
From S2P Require Import Features.
From S2P Require Import MemOps.
From S2P Require Import Syscalls.
From S2P Require Import CurveSyscalls.

#[local] Open Scope Z_scope.

(** ** Values of other crates *)

(** The size of a type. *)
Definition size_ok (n : Z) : Prop := is_u64 n /\ 0 < n.

Lemma size_ok_u64 n : size_ok n -> is_u64 n.
Proof. by intros []. Qed.
Lemma one_size_ok : size_ok 1.
Proof. by vm_compute. Qed.
Lemma pubkey_size_ok : size_ok size_of_Pubkey.
Proof. by vm_compute. Qed.

(** Bytes of a given length. *)
Definition sized (n : Z) (bs : list Z) : Prop := bytes bs /\ len bs = n.

Abbreviation pubkey_ok := (sized 32).

Definition slice_ok (s : VmSlice) : Prop := is_u64 (vs_ptr s) /\ is_u64 (vs_len s).

(** Costs are [u64]s, types have sizes, encoders and hash functions fill their results. *)
Class EnvironmentLaws (env : SyscallEnvironment) : Prop := {
  law_costs : costs_ok (costs env);
  law_align : 0 < BPF_ALIGN_OF_U128 env;
  law_return_data : is_u64 (MAX_RETURN_DATA env);
  law_hash_bytes : is_u64 (HASH_BYTES env);
  law_signature : is_u64 (SECP256K1_SIGNATURE_LENGTH env);
  law_public_key : SECP256K1_PUBLIC_KEY_LENGTH env = 64;
  law_program_address seeds id key : create_program_address env seeds id = Some key -> pubkey_ok key;
  law_digest_size h : is_u64 (digest_size env h);
  law_digest h l : sized (digest_size env h) (digest env h l);
  law_recover_error e : is_u64 (secp256k1_error env e);
  law_recover hash signature id key : secp256k1_recover env hash signature id = Some key -> sized 65 key;
  law_mod_exp b e m : sized (len m) (big_mod_exp env b e m);
  law_stake : is_u64 (epoch_stake env);
  law_vote_stake id : is_u64 (epoch_stake_for_vote_account env id);
  law_sysvar_size v : size_ok (sysvar_size env v);
  law_sysvar_decode v data obj : sysvar_deserialize env v data = Some obj -> object_ok (sysvar_size env) v obj;
  law_sysvar_cache : cache_sized (sysvar_size env) (sysvar_cache env);
  law_sibling_size : size_ok (size_of_sibling env);
  law_sibling x : sized (size_of_sibling env) (encode_sibling env x);
  law_meta_size : size_ok (size_of_meta env);
  law_meta x : pubkey_ok (meta_pubkey x) -> sized (size_of_meta env) (encode_meta env x);
  law_params_size : size_ok (size_of_BigModExpParams env);
  law_params bs : slice_ok (bme_base (decode_BigModExpParams env bs)) /\
    slice_ok (bme_exponent (decode_BigModExpParams env bs)) /\ slice_ok (bme_modulus (decode_BigModExpParams env bs))
}.

(** Points have the sizes of their encodings. *)
Class CurveLaws (curves : CurveEnvironment) : Prop := {
  law_point_size : size_ok (curve25519_point_size curves);
  law_scalar_size : size_ok (curve25519_scalar_size curves);
  law_decompress g bs p : decompress_point curves g bs = Some p -> sized (point_size curves g) p;
  law_group_op g op a b p : group_operation curves g op a b = Some p -> sized (point_size curves g) p;
  law_multiply g a b p : multiscalar_multiply curves g a b = Some p -> sized (point_size curves g) p;
  law_pairing e a b p : pairing_map curves e a b = Some p -> sized GT_SIZE p;
  law_element_size : 0 < ALT_BN128_PAIRING_ELEMENT_SIZE curves;
  law_bn_output op : is_u64 (alt_bn128_output curves op);
  law_bn op e fixed bs p : alt_bn128 curves op e fixed bs = Some p -> sized (alt_bn128_output curves op) p;
  law_bn_compressed op : is_u64 (compression_output curves op);
  law_bn_compress op e bs p : alt_bn128_compress curves op e bs = Some p -> sized (compression_output curves op) p;
  law_poseidon_bytes : is_u64 (POSEIDON_HASH_BYTES curves);
  law_poseidon fixed parameters e l p :
    poseidon_hashv curves fixed parameters e l = Some p -> sized (POSEIDON_HASH_BYTES curves) p
}.

Lemma point_size_ok curves g : CurveLaws curves -> size_ok (point_size curves g).
Proof. intros H. destruct g; cbn; first [apply law_point_size|by vm_compute]. Qed.
Lemma scalar_size_ok curves g : CurveLaws curves -> size_ok (scalar_size curves g).
Proof. intros H. destruct g; cbn; first [apply law_scalar_size|by vm_compute]. Qed.
Lemma compressed_size_ok curves g : CurveLaws curves -> size_ok (compressed_size curves g).
Proof. intros H. destruct g; cbn; first [apply law_point_size|by vm_compute]. Qed.

Lemma slice_of_ok bs : slice_ok (slice_of bs).
Proof. split; apply u_cast_any; lia. Qed.

(** ** The context of a program *)

(** The current program has an owner, keys are keys and data are bytes. *)
Record sys_context_ok (env : SyscallEnvironment) (ic : InvokeContext) : Prop := {
  ctx_aligned : is_Some (get_check_aligned (loader_deprecated_id env) ic);
  ctx_keys : Forall pubkey_ok (account_keys (accounts (transaction_context ic)));
  ctx_data : Forall (fun d => bytes d /\ is_u64 (len d)) (instruction_data (transaction_context ic));
  ctx_return_id : pubkey_ok (return_data_pubkey (transaction_frame (transaction_context ic)));
  ctx_return_data : bytes (return_data_bytes (transaction_context ic)) /\ is_u64 (len (return_data_bytes (transaction_context ic)));
  ctx_height : is_u64 (len (instruction_stack (transaction_context ic)));
  ctx_heaps : Forall (fun sc => forall x, sc = Some x -> 0 <= alloc_pos (allocator x)) (syscall_context ic)
}.

Lemma meter_context_ok env x ic : sys_context_ok env ic -> sys_context_ok env (set_compute_meter x ic).
Proof. intros []. by split. Qed.

Section context.
Variable env : SyscallEnvironment.

#[export] Instance InvokeContext_Invariant : ContextInvariant InvokeContext := sys_context_ok env.

#[export] Instance InvokeContext_Laws : ContextLaws InvokeContext.
Proof.
  split; cbn.
  - intros c. apply u_cast_any. lia.
  - intros c n Hn. unfold compute_meter at 1. cbn. pose proof (u_cast_any 64 (compute_units c) ltac:(lia)).
    fold (compute_meter c) in *. rewrite cast_u_id; [done|]. int_lia.
  - intros c n. apply meter_context_ok.
Qed.
End context.

(** ** An environment *)

(** Functions that have the shapes of the real ones. *)
Definition example_sysvar_size (v : Sysvar) : Z :=
  match v with Clock => 40 | EpochSchedule => 40 | EpochRewards => 96 | LastRestartSlot | Fees => 8 | _ => 24 end.
Definition example_deserialize (v : Sysvar) (data : list Z) : option (list Z) :=
  Some (le_split (Z.to_nat (example_sysvar_size v)) (le_combine data)).
Definition example_sysvar_id (v : Sysvar) : Pubkey :=
  replicate 32 (match v with
    | Clock => 1 | EpochSchedule => 2 | EpochRewards => 3 | Rent => 4 | SlotHashes => 5 | StakeHistory => 6
    | LastRestartSlot => 7 | Fees => 8 | RecentBlockhashes => 9 end).

(** A clock of forty bytes, and nothing else. *)
Definition example_account_data (id : Pubkey) : option (list Z) :=
  if bool_decide (id = example_sysvar_id Clock) then Some (le_split 40 0x0807060504030201) else None.

Definition example_env : SyscallEnvironment := {|
  costs := cost_new_with_defaults false;
  features := Features.all_enabled;
  sha256_max_slices := 20000;
  loader_deprecated_id := replicate 32 2;
  sysvar_cache := fill_missing_entries example_sysvar_id example_deserialize example_account_data sysvar_cache_default;
  epoch_stake := 1000;
  epoch_stake_for_vote_account := fun id => as_u64 (le_combine id);
  MAX_SEEDS := 16;
  MAX_SEED_LEN := 32;
  MAX_RETURN_DATA := 1024;
  BPF_ALIGN_OF_U128 := 8;
  HASH_BYTES := 32;
  SECP256K1_SIGNATURE_LENGTH := 64;
  SECP256K1_PUBLIC_KEY_LENGTH := 64;
  max_seed_length_exceeded := "Length of the seed is too long for address generation";
  create_program_address := fun seeds id =>
    if Z.odd (le_combine (concat seeds)) then None else Some (le_split 32 (le_combine (concat seeds ++ id)));
  digest := fun h l => le_split 32 (le_combine (concat l));
  digest_size := fun _ => 32;
  base58 := fun bs => fmt (le_combine bs);
  base64 := fun bs => fmt (le_combine bs);
  secp256k1_error := fun e => match e with InvalidHash => 1 | InvalidRecoveryId => 2 | InvalidSignature => 3 end;
  secp256k1_message_ok := fun _ => true;
  secp256k1_recovery_id_ok := fun n => n <? 4;
  secp256k1_signature_ok := fun _ => true;
  secp256k1_recover := fun hash signature n => Some (le_split 65 (le_combine hash));
  big_mod_exp := fun b e m => le_split (length m) (le_combine b ^ le_combine e mod le_combine m);
  sysvar_id := example_sysvar_id;
  sysvar_deserialize := example_deserialize;
  sysvar_size := example_sysvar_size;
  sysvar_align := fun _ => 8;
  size_of_sibling := 16;
  decode_sibling := fun bs => (u64_le bs, u64_le (drop 8 bs));
  encode_sibling := fun '(a, b) => le_split 8 a ++ le_split 8 b;
  size_of_meta := 34;
  encode_meta := fun m => meta_pubkey m ++ [Z.b2z (meta_is_signer m); Z.b2z (meta_is_writable m)];
  size_of_BigModExpParams := 48;
  decode_BigModExpParams := fun bs => mkBigModExpParams (slice_of bs) (slice_of (drop 16 bs)) (slice_of (drop 32 bs))
|}.

Lemma split_sized n x : sized (Z.of_nat n) (le_split n x).
Proof. split; [apply le_split_bytes|]. unfold len. by rewrite le_split_length. Qed.

Lemma example_decode_sized v data obj : example_deserialize v data = Some obj -> object_ok example_sysvar_size v obj.
Proof.
  intros [= <-]. destruct (split_sized (Z.to_nat (example_sysvar_size v)) (le_combine data)) as [Hb Hl].
  split; [done|]. rewrite Hl. by destruct v.
Qed.

#[export] Instance example_env_laws : EnvironmentLaws example_env.
Proof.
  assert (forall n x, size_ok n -> sized n (le_split (Z.to_nat n) x)) as Hs.
  { intros n x [? ?]. rewrite <- (Z2Nat.id n) at 1 by lia. apply split_sized. }
  split.
  - apply default_costs_ok.
  - by vm_compute.
  - by vm_compute.
  - by vm_compute.
  - by vm_compute.
  - done.
  - intros seeds id key. cbn [example_env create_program_address]. destruct (Z.odd _); [done|]. intros E. apply (inj Some) in E as <-. by apply (Hs 32).
  - intros h. by vm_compute.
  - intros h l. by apply (Hs 32).
  - by intros [].
  - intros hash signature id key E. apply (inj Some) in E as <-. by apply (Hs 65).
  - intros b e m. apply split_sized.
  - by vm_compute.
  - intros id. apply u_cast_any. lia.
  - by intros [].
  - apply example_decode_sized.
  - apply fill_missing_sized; [apply example_decode_sized| |apply default_cache_sized].
    intros id data. unfold example_account_data. case_bool_decide; [|done]. intros E. apply (inj Some) in E as <-. apply le_split_bytes.
  - by vm_compute.
  - intros [a b]. split; [apply Forall_app; split; apply le_split_bytes|].
    cbn [example_env encode_sibling]. unfold len. rewrite length_app, !le_split_length. done.
  - by vm_compute.
  - intros [k s w] [Hb Hl]. cbn in Hb, Hl. split; [apply Forall_app; split; [done|]; by destruct s, w; repeat constructor|].
    cbn [example_env encode_meta meta_pubkey]. rewrite len_app, Hl. done.
  - by vm_compute.
  - intros bs. split; [|split]; apply slice_of_ok.
Qed.

Definition example_curves : CurveEnvironment := {|
  CURVE25519_EDWARDS := 0;
  CURVE25519_RISTRETTO := 1;
  ADD := 0;
  SUB := 1;
  MUL := 2;
  curve25519_point_size := 32;
  curve25519_scalar_size := 32;
  validate_point := fun _ p => Z.even (le_combine p);
  decompress_point := fun g p =>
    Some (le_split (match g with BlsG1 _ => 96 | BlsG2 _ => 192 | _ => 32 end) (le_combine p));
  group_operation := fun g op p q =>
    Some (le_split (match g with BlsG1 _ => 96 | BlsG2 _ => 192 | _ => 32 end)
      match op with
      | GroupAdd => le_combine p + le_combine q
      | GroupSub => le_combine p - le_combine q
      | GroupMul => le_combine p * le_combine q
      end);
  multiscalar_multiply := fun g scalars points =>
    Some (le_split (match g with BlsG1 _ => 96 | BlsG2 _ => 192 | _ => 32 end)
      (foldr Z.add 0 (zip_with (fun n p => le_combine n * le_combine p) scalars points)));
  pairing_map := fun _ ps qs =>
    Some (le_split 576 (foldr Z.add 0 (zip_with (fun p q => le_combine p * le_combine q) ps qs)));
  alt_bn128_op := fun n => if n =? 0 then Some (G1Add, BE) else if n =? 3 then Some (Pairing, BE) else None;
  alt_bn128_compression_op := fun n => if n =? 0 then Some (G1Compress, BE) else None;
  ALT_BN128_G1_POINT_SIZE := 64;
  ALT_BN128_G2_POINT_SIZE := 128;
  ALT_BN128_G1_COMPRESSED_POINT_SIZE := 32;
  ALT_BN128_G2_COMPRESSED_POINT_SIZE := 64;
  ALT_BN128_PAIRING_ELEMENT_SIZE := 192;
  ALT_BN128_PAIRING_OUTPUT_SIZE := 32;
  alt_bn128 := fun op _ _ bs =>
    Some (le_split (match op with G1Add | G1Mul => 64 | G2Add | G2Mul => 128 | Pairing => 32 end) (le_combine bs));
  alt_bn128_compress := fun op _ bs =>
    Some (le_split (match op with G1Compress => 32 | G1Decompress | G2Compress => 64 | G2Decompress => 128 end) (le_combine bs));
  poseidon_parameters := fun n => if n =? 0 then Ok 0 else Err "Invalid parameters.";
  poseidon_endianness := fun n => if n =? 0 then Ok BE else if n =? 1 then Ok LE else Err "Invalid endianness.";
  POSEIDON_HASH_BYTES := 32;
  poseidon_hashv := fun _ _ _ l => Some (le_split 32 (le_combine (concat l)))
|}.

#[export] Instance example_curve_laws : CurveLaws example_curves.
Proof.
  split.
  - by vm_compute.
  - by vm_compute.
  - intros g p q E. apply (inj Some) in E as <-. destruct g; apply split_sized.
  - intros g op p q r E. apply (inj Some) in E as <-. destruct g; apply split_sized.
  - intros g ns ps r E. apply (inj Some) in E as <-. destruct g; apply split_sized.
  - intros e ps qs r E. apply (inj Some) in E as <-. apply (split_sized 576).
  - by vm_compute.
  - intros op. by destruct op; vm_compute.
  - intros op e fixed bs p E. apply (inj Some) in E as <-. destruct op; apply split_sized.
  - intros op. by destruct op; vm_compute.
  - intros op e bs p E. apply (inj Some) in E as <-. destruct op; apply split_sized.
  - by vm_compute.
  - intros fixed parameters e l p E. apply (inj Some) in E as <-. apply (split_sized 32).
Qed.
