(* ===== verification/SyscallsTrace.v ===== *)
(** What the tracker sees of a syscall, and what the meter does: a syscall behaves the same
    whatever is watched, shows the tracker the ranges that it reads, and does not refill the meter. *)

From Stdlib Require Import ZArith Lia Bool.
From stdpp Require Import strings.
From S2P Require Import Prelude.
From S2P Require Import SbpfTypes.
From S2P Require Import Ebpf.
From S2P Require Import Tracker.
From S2P Require Import MemoryRegion.
From S2P Require Import Mapping.
From S2P Require Import MappingSafe.
From S2P Require Import Vm.
From S2P Require Import Detect.
From S2P Require Import TxAccounts.
From S2P Require Import TxContext.
From S2P Require Import InvokeContext.
From S2P Require Import ExecutionCost.
From S2P Require Import SysvarCache.
From S2P Require Import Features.
From S2P Require Import MemOps.
From S2P Require Import Syscalls.
From S2P Require Import CurveSyscalls.
From S2P Require Import SyscallLaws.

#[local] Open Scope Z_scope.

(** ** Replacing the tracker *)

Definition put_tracker (t : MemoryAccessTracker) (m : MemoryMapping) : MemoryMapping :=
  with_access_tracker (fun _ => t) m.
Definition put (t : MemoryAccessTracker) (s : SysState) : SysState :=
  mkSysState (sys_context s) (put_tracker t (sys_mapping s)) (sys_host s) (sys_log s).

Definition track (loads : list (Z * Z)) (t : MemoryAccessTracker) : MemoryAccessTracker :=
  fold_left (fun t l => check_access t l.1 l.2) loads t.

Lemma track_loads_app l1 l2 t : track (l1 ++ l2) t = track l2 (track l1 t).
Proof. apply fold_left_app. Qed.

Lemma find_region_put t m a : find_region (put_tracker t m) a = (put_tracker t (find_region m a).1, (find_region m a).2).
Proof.
  destruct m as [| |u]; [done|done|]. cbn. unfold unaligned_find_region. cbn.
  destruct (cache_find (cache u) a); [done|]. by destruct (_ =? 0).
Qed.

Lemma replace_region_put t m i r :
  replace_region (put_tracker t m) i r = (put_tracker t (replace_region m i r).1, (replace_region m i r).2).
Proof.
  unfold replace_region. destruct m as [|a|u]; cbn; [done| |].
  - destruct (_ || _ || _); [done|]. unfold aligned_replace_region. cbn. by destruct (_ || _).
  - by destruct (_ || _ || _).
Qed.

Lemma get_regions_put t m : get_regions (put_tracker t m) = get_regions m.
Proof. by destruct m. Qed.

Lemma mapping_common_put t m : mapping_common (put_tracker t m) = option_map (fun c => set_tracker c t) (mapping_common m).
Proof. by destruct m. Qed.

Lemma handler_put t m host ty a n :
  map_with_access_violation_handler (put_tracker t m) host ty a n =
  let '(m', host', res) := map_with_access_violation_handler m host ty a n in (put_tracker t m', host', res).
Proof.
  unfold map_with_access_violation_handler. rewrite mapping_common_put, find_region_put.
  destruct (mapping_common m) as [c|]; [|done]. cbn [option_map].
  destruct (find_region m a) as [m1 [[i r]|]]; [|done]. cbn [fst snd].
  destruct (vm_to_host r ty a n); [done|]. rewrite get_regions_put.
  change (access_violation_handler (set_tracker c t)) with (access_violation_handler c).
  destruct (access_violation_handler c _ _ _ _ _ _) as [host1 r1].
  destruct (vm_to_host r1 ty a n); [|done]. rewrite replace_region_put.
  destruct (replace_region m1 i r1) as [m2 [[]|]]; done.
Qed.

Lemma mapping_map_put t m ty a n :
  mapping_map (put_tracker t m) ty a n =
  let '(m', r) := mapping_map m ty a n in
  (put_tracker (track (if bool_decide (ty = Load) then [(a, n)] else []) t) m', r).
Proof.
  unfold mapping_map.
  assert (forall m1 t1, (let '(m2, found) := find_region (put_tracker t1 m1) a in
     match match found with Some (_, region) => vm_to_host region ty a n | None => None end with
     | Some h => (m2, Ok h)
     | None => match mapping_common m2 with
               | Some c => (m2, generate_access_violation c ty a n)
               | None => (m2, Ok a)
               end
     end) =
     let '(m', r) := (let '(m2, found) := find_region m1 a in
       match match found with Some (_, region) => vm_to_host region ty a n | None => None end with
       | Some h => (m2, Ok h)
       | None => match mapping_common m2 with
                 | Some c => (m2, generate_access_violation c ty a n)
                 | None => (m2, Ok a)
                 end
       end) in (put_tracker t1 m', r)) as H.
  { intros m1 t1. rewrite find_region_put. destruct (find_region m1 a) as [m2 found]. cbn [fst snd].
    destruct (match found with Some (_, region) => _ | None => _ end); [done|].
    rewrite mapping_common_put. by destruct (mapping_common m2). }
  destruct (bool_decide (ty = Load)); cbn [track fold_left fst snd]; [|apply H].
  rewrite <- (H (with_access_tracker (fun t0 => check_access t0 a n) m) (check_access t a n)).
  f_equal. by destruct m.
Qed.

(** ** Traced computations *)

(** Whatever the tracker, the same thing happens, and the tracker sees the same loads. *)
Definition traced {A} (p : SysM A) : Prop :=
  forall s, exists loads, Forall load_ok loads /\
    forall t, p (put t s) = option_map (fun '(s', r) => (put (track loads t) s', r)) (p s).

(** Results of a computation. *)
Definition returns {A} (p : SysM A) (P : A -> Prop) : Prop := forall s s' x, p s = Some (s', Ok x) -> P x.

Lemma traced_bind {A B} (p : SysM A) (k : A -> SysM B) (P : A -> Prop) :
  traced p -> returns p P -> (forall x, P x -> traced (k x)) -> traced (sys_bind p k).
Proof.
  intros Hp HP Hk s. destruct (Hp s) as (l1 & Hl1 & H1). unfold sys_bind.
  destruct (p s) as [[s1 [x|e]]|] eqn:E; cbn [option_map] in H1.
  - destruct (Hk x (HP _ _ _ E) s1) as (l2 & Hl2 & H2). exists (l1 ++ l2). split; [by apply Forall_app|].
    intros t. rewrite H1. cbn [mbind option_bind]. rewrite H2, track_loads_app. done.
  - exists l1. split; [done|]. intros t. by rewrite H1.
  - exists l1. split; [done|]. intros t. by rewrite H1.
Qed.

(** A computation that does not look at the mapping. *)
Lemma traced_still {A} (p : SysM A) :
  (forall s t, p (put t s) = option_map (fun '(s', r) => (put t s', r)) (p s)) -> traced p.
Proof. intros H s. exists []. split; [constructor|]. intros t. apply H. Qed.

Lemma traced_ret {A} (x : A) : traced (sys_ret x).
Proof. by apply traced_still. Qed.
Lemma traced_fail {A} e : traced (sys_fail (A := A) e).
Proof. by apply traced_still. Qed.
Lemma traced_none {A} : traced (fun _ => None : option (SysState * Result A BoxError)).
Proof. by apply traced_still. Qed.
Lemma traced_get {A} (f : InvokeContext -> A) : traced (sys_get f).
Proof. by apply traced_still. Qed.
Lemma traced_try {A} (f : InvokeContext -> Result A InstructionError) : traced (sys_try f).
Proof. by apply traced_still. Qed.
Lemma traced_update {A} (f : InvokeContext -> InvokeContext * Result A InstructionError) : traced (sys_update f).
Proof. apply traced_still. intros s t. unfold sys_update. cbn. by destruct (f (sys_context s)). Qed.
Lemma traced_consume n : traced (sys_consume n).
Proof. by apply traced_still. Qed.
Lemma traced_log msg : traced (sys_log_msg msg).
Proof. by apply traced_still. Qed.
Lemma traced_read ptr n : traced (sys_read ptr n).
Proof. apply traced_still. intros s t. unfold sys_read. cbn. by destruct (host_read _ _ _). Qed.
Lemma traced_write ptr bs : traced (sys_write ptr bs).
Proof. apply traced_still. intros s t. unfold sys_write. cbn. by destruct (host_write _ _ _). Qed.
Lemma traced_copy ptr n bs : traced (copy_from_slice ptr n bs).
Proof. unfold copy_from_slice. destruct (_ =? _); [apply traced_write|apply traced_none]. Qed.
Lemma traced_aligned env : traced (sys_check_aligned env).
Proof. apply traced_still. intros s t. unfold sys_check_aligned. cbn. by destruct (get_check_aligned _ _). Qed.

Lemma translate_type_put size align t m ty a ca :
  translate_type_inner size align (put_tracker t m) ty a ca =
  let '(m', r) := translate_type_inner size align m ty a ca in
  (put_tracker (track (if bool_decide (ty = Load) then [(a, size)] else []) t) m', r).
Proof.
  unfold translate_type_inner, translate_inner. rewrite mapping_map_put. destruct (mapping_map m ty a size) as [m' [h|e]]; cbn [map_err]; [|done].
  destruct (negb ca); [done|]. by destruct (negb _).
Qed.

Lemma traced_type size align ty a ca :
  (ty = Load -> is_u64 a /\ size_ok size) -> traced (sys_translate (fun m => translate_type_inner size align m ty a ca)).
Proof.
  intros H s. exists (if bool_decide (ty = Load) then [(a, size)] else []). split.
  - case_bool_decide as E; [|constructor]. apply Forall_singleton. destruct (H E) as [Ha [? ?]]. done.
  - intros t. unfold sys_translate. cbn. rewrite translate_type_put. by destruct (translate_type_inner _ _ _ _ _ _).
Qed.

Lemma traced_slice size align ty a n ca :
  (ty = Load -> is_u64 a /\ is_u64 n /\ size_ok size) ->
  traced (sys_translate (fun m => translate_slice_inner size align m ty a n ca)).
Proof.
  intros H s. unfold sys_translate, translate_slice_inner. destruct (Z.eqb_spec n 0) as [->|Hne].
  { exists []. by split; [constructor|]. }
  destruct (i64_MAX <? saturating_mul n size); [exists []; by split; [constructor|]|].
  exists (if bool_decide (ty = Load) then [(a, saturating_mul n size)] else []). split.
  - case_bool_decide as E; [|constructor]. apply Forall_singleton. destruct (H E) as (Ha & Hn & _ & Hp).
    unfold load_ok, saturating_mul, is_u in *. cbn. nia.
  - intros t. cbn. unfold translate_inner. rewrite mapping_map_put.
    destruct (mapping_map (sys_mapping s) ty a _) as [m' [h|e]]; cbn [map_err]; [|done]. by destruct (ca && _).
Qed.

Lemma traced_touch size a : traced (sys_touch (fun m host => touch_type_mut size m host a)).
Proof.
  apply traced_still. intros s t. unfold sys_touch, touch_type_mut. cbn. rewrite handler_put.
  by destruct (map_with_access_violation_handler _ _ _ _ _) as [[m' host'] r].
Qed.

Lemma traced_touch_slice size a n : traced (sys_touch (fun m host => touch_slice_mut size m host a n)).
Proof.
  unfold touch_slice_mut. destruct (n =? 0); [|apply traced_touch]. by apply traced_still.
Qed.

(** ** The meter and the tracker *)

(** The meter is not refilled, and a tracker is not lost. *)
Definition watching (s : SysState) : Prop := is_Some (get_access_tracker (sys_mapping s)).
Definition metered {A} (p : SysM A) : Prop :=
  forall s s' r, p s = Some (s', r) ->
    compute_meter (sys_context s') <= compute_meter (sys_context s) /\ (watching s -> watching s').

(** A computation that leaves both alone. *)
Lemma metered_still {A} (p : SysM A) :
  (forall s s' r, p s = Some (s', r) ->
     compute_units (sys_context s') = compute_units (sys_context s) /\ sys_mapping s' = sys_mapping s) -> metered p.
Proof. intros H s s' r E. unfold compute_meter, watching. by destruct (H _ _ _ E) as [-> ->]. Qed.

Lemma metered_consume n : 0 <= n -> metered (sys_consume n).
Proof.
  intros Hn s s' r [= <- _]. split; [|done]. unfold compute_meter at 1. cbn.
  pose proof (cast_u_range 64 (compute_units (sys_context s)) ltac:(lia)) as Hr. fold (compute_meter (sys_context s)) in *.
  unfold saturating_sub. rewrite cast_u_id; unfold is_u in *; lia.
Qed.

Definition keeps_tracker {A} (f : MemoryMapping -> MemoryMapping * Result A BoxError) : Prop :=
  forall m, is_Some (get_access_tracker m) -> is_Some (get_access_tracker (f m).1).

Lemma metered_translate {A} (f : MemoryMapping -> MemoryMapping * Result A BoxError) :
  keeps_tracker f -> metered (sys_translate f).
Proof.
  intros Hf s s' r. unfold sys_translate, watching. pose proof (Hf (sys_mapping s)) as H. destruct (f (sys_mapping s)).
  by intros [= <- _].
Qed.

Lemma mapping_map_keeps m ty a n :
  is_Some (get_access_tracker m) -> is_Some (get_access_tracker (mapping_map m ty a n).1).
Proof.
  intros [t Ht]. unfold mapping_map. set (m1 := if bool_decide (ty = Load) then _ else m).
  assert (is_Some (get_access_tracker m1)) as H1.
  { unfold m1. case_bool_decide; [|by rewrite Ht]. rewrite get_tracker_with, Ht. by eexists. }
  rewrite <- (find_region_tracker m1 a) in H1. destruct (find_region m1 a) as [m2 found]. cbn [fst] in H1.
  destruct (match found with Some (_, region) => _ | None => _ end); [done|]. by destruct (mapping_common m2).
Qed.

Lemma metered_type size align ty a ca : metered (sys_translate (fun m => translate_type_inner size align m ty a ca)).
Proof.
  apply metered_translate. intros m Hm. apply (mapping_map_keeps _ ty a size) in Hm.
  unfold translate_type_inner, translate_inner. destruct (mapping_map m ty a size) as [m' [h|]]; cbn [map_err]; [|done].
  destruct (negb ca); [done|]. by destruct (negb _).
Qed.

Lemma metered_slice size align ty a n ca :
  metered (sys_translate (fun m => translate_slice_inner size align m ty a n ca)).
Proof.
  apply metered_translate. intros m Hm. unfold translate_slice_inner. destruct (n =? 0); [done|]. destruct (_ <? _); [done|].
  apply (mapping_map_keeps _ ty a (saturating_mul n size)) in Hm.
  unfold translate_inner. destruct (mapping_map m ty a _) as [m' [h|]]; cbn [map_err]; [|done]. by destruct (ca && _).
Qed.

Lemma metered_touch size a : metered (sys_touch (fun m host => touch_type_mut size m host a)).
Proof.
  intros s s' r. unfold sys_touch, touch_type_mut, watching.
  pose proof (map_tracker (sys_mapping s) (sys_host s) Store a size) as E.
  destruct (map_with_access_violation_handler _ _ _ _ _) as [[m' host'] res]. intros [= <- _]. cbn in *. by rewrite E.
Qed.

Lemma metered_touch_slice size a n : metered (sys_touch (fun m host => touch_slice_mut size m host a n)).
Proof.
  unfold touch_slice_mut. destruct (n =? 0); [|apply metered_touch]. apply metered_still. by intros s s' r [= <- _].
Qed.

(** ** Both *)

Definition polite {A} (p : SysM A) : Prop := traced p /\ metered p.

Lemma polite_bind {A B} (p : SysM A) (k : A -> SysM B) (P : A -> Prop) :
  polite p -> returns p P -> (forall x, P x -> polite (k x)) -> polite (sys_bind p k).
Proof.
  intros [Ht Hm] HP Hk. split; [apply (traced_bind p k P); [done|done|]; intros x Hx; by apply Hk|].
  intros s s' r. unfold sys_bind. destruct (p s) as [[s1 [x|e]]|] eqn:E; [|..|done]; cbn [mbind option_bind].
  - intros E'. apply (Hk x (HP _ _ _ E)) in E' as [? ?]. apply Hm in E as [? ?]. split; [lia|auto].
  - intros [= <- <-]. by eapply Hm.
Qed.

Lemma polite_then {A B} (p : SysM A) (k : A -> SysM B) : polite p -> (forall x, polite (k x)) -> polite (sys_bind p k).
Proof. intros Hp Hk. apply (polite_bind p k (fun _ => True)); [done|done|auto]. Qed.

Lemma polite_ret {A} (x : A) : polite (sys_ret x).
Proof. split; [apply traced_ret|]. apply metered_still. by intros s s' r [= <- _]. Qed.
Lemma polite_fail {A} e : polite (sys_fail (A := A) e).
Proof. split; [apply traced_fail|]. apply metered_still. by intros s s' r [= <- _]. Qed.
Lemma polite_throw {A} e : polite (sys_throw (A := A) e).
Proof. apply polite_fail. Qed.
Lemma polite_none {A} : polite (fun _ => None : option (SysState * Result A BoxError)).
Proof. by split; [apply traced_none|]. Qed.
Lemma polite_get {A} (f : InvokeContext -> A) : polite (sys_get f).
Proof. split; [apply traced_get|]. apply metered_still. by intros s s' r [= <- _]. Qed.
Lemma polite_try {A} (f : InvokeContext -> Result A InstructionError) : polite (sys_try f).
Proof. split; [apply traced_try|]. apply metered_still. by intros s s' r [= <- _]. Qed.
Lemma polite_update {A} (f : InvokeContext -> InvokeContext * Result A InstructionError) :
  (forall ic, compute_units (f ic).1 = compute_units ic) -> polite (sys_update f).
Proof.
  intros Hf. split; [apply traced_update|]. apply metered_still. intros s s' r. unfold sys_update.
  pose proof (Hf (sys_context s)) as E. destruct (f (sys_context s)). by intros [= <- _].
Qed.
Lemma polite_consume n : 0 <= n -> polite (sys_consume n).
Proof. split; [apply traced_consume|by apply metered_consume]. Qed.
Lemma polite_log msg : polite (sys_log_msg msg).
Proof. split; [apply traced_log|]. apply metered_still. by intros s s' r [= <- _]. Qed.
Lemma polite_read ptr n : polite (sys_read ptr n).
Proof.
  split; [apply traced_read|]. apply metered_still. intros s s' r. unfold sys_read.
  destruct (host_read _ _ _); [|done]. by intros [= <- _].
Qed.
Lemma polite_write ptr bs : polite (sys_write ptr bs).
Proof.
  split; [apply traced_write|]. apply metered_still. intros s s' r. unfold sys_write.
  destruct (host_write _ _ _); [|done]. by intros [= <- _].
Qed.
Lemma polite_copy ptr n bs : polite (copy_from_slice ptr n bs).
Proof. unfold copy_from_slice. destruct (_ =? _); [apply polite_write|apply polite_none]. Qed.
Lemma polite_aligned env : polite (sys_check_aligned env).
Proof.
  split; [apply traced_aligned|]. apply metered_still. intros s s' r. unfold sys_check_aligned.
  destruct (get_check_aligned _ _); [|done]. by intros [= <- _].
Qed.
Lemma polite_mapM {A B} (f : A -> SysM B) (l : list A) : Forall (fun x => polite (f x)) l -> polite (sys_mapM f l).
Proof.
  induction 1 as [|x l Hx _ IH]; cbn [sys_mapM]; [apply polite_ret|].
  apply polite_then; [done|]. intros y. apply polite_then; [done|]. intros ys. apply polite_ret.
Qed.

(** What is bound by a computation that returns nothing in particular. *)
Create HintDb polite.
#[export] Hint Resolve polite_ret polite_fail polite_throw polite_none polite_get polite_try polite_log polite_read
  polite_write polite_copy polite_aligned : polite.

Ltac polite_step :=
  lazymatch goal with
  | |- forall _, _ => intro
  | |- polite (sys_bind _ _) => apply polite_then
  | |- polite (sys_consume _) => apply polite_consume; cost_tac
  | |- polite (if ?b then _ else _) => destruct b
  | |- polite (match ?x with _ => _ end) => destruct x
  | |- polite (let '(_, _) := ?x in _) => destruct x
  | |- polite _ => solve [eauto with polite]
  end.
Ltac polite_tac := repeat polite_step.

(** ** Guest memory *)

Section guest.
Context (env : SyscallEnvironment).

Lemma polite_type size align a : is_u64 a -> size_ok size -> polite (get_type env size align a).
Proof.
  intros Ha Hs. unfold get_type. apply polite_then; [apply polite_aligned|]. intros ca.
  apply polite_then; [split; [by apply traced_type|apply metered_type]|]. intros ptr. apply polite_read.
Qed.

Lemma polite_map_slice {A} size align ty a n ca (k : HostSlice -> SysM A) :
  (ty = Load -> is_u64 a /\ is_u64 n /\ size_ok size) -> (forall s, polite (k s)) ->
  polite (sys_bind (sys_translate (fun m => translate_slice_inner size align m ty a n ca)) k).
Proof. intros. apply polite_then; [|done]. split; [by apply traced_slice|apply metered_slice]. Qed.

Lemma polite_bytes a n : is_u64 a -> is_u64 n -> polite (get_bytes env a n).
Proof.
  intros Ha Hn. unfold get_bytes. apply polite_then; [apply polite_aligned|]. intros ca.
  apply polite_map_slice; [done|]. intros s. apply polite_read.
Qed.

Lemma polite_slice size align a n : is_u64 a -> is_u64 n -> size_ok size -> polite (get_slice env size align a n).
Proof.
  intros Ha Hn Hs. unfold get_slice. apply polite_then; [apply polite_aligned|]. intros ca.
  apply polite_map_slice; [done|]. intros s. polite_tac.
Qed.

Lemma polite_slices a n : is_u64 a -> is_u64 n -> polite (get_slices env a n).
Proof. intros Ha Hn. unfold get_slices. apply polite_then; [|polite_tac]. by apply polite_slice. Qed.

Lemma slices_ok a n : returns (get_slices env a n) (Forall slice_ok).
Proof.
  intros s s' l. unfold get_slices, sys_bind at 1. destruct (get_slice _ _ _ _ _ s) as [[s1 [x|]]|]; [|done..].
  intros [= _ <-]. apply Forall_map, Forall_true. intros. apply slice_of_ok.
Qed.

Lemma polite_vm_slice s : slice_ok s -> polite (get_vm_slice env s).
Proof. intros [? ?]. by apply polite_bytes. Qed.

Lemma polite_vm_slices l : Forall slice_ok l -> polite (sys_mapM (get_vm_slice env) l).
Proof. intros H. apply polite_mapM. eapply Forall_impl; [exact H|]. apply polite_vm_slice. Qed.

Lemma polite_translate_mut l : polite (translate_mut env l).
Proof.
  unfold translate_mut. apply polite_then.
  { apply polite_mapM, Forall_true. intros [size align a|size align a n]; cbn; split;
      [apply traced_touch|apply metered_touch|apply traced_touch_slice|apply metered_touch_slice]. }
  intros _. apply polite_then; [|polite_tac].
  apply polite_mapM, Forall_true. intros b. unfold map_binding.
  apply polite_then; [apply polite_aligned|]. intros ca. destruct b as [size align a|size align a n].
  - apply polite_then; [split; [by apply traced_type|apply metered_type]|]. intros ptr. apply polite_ret.
  - apply polite_map_slice; [done|]. intros s. apply polite_ret.
Qed.

Lemma polite_mut1 b : polite (translate_mut1 env b).
Proof.
  unfold translate_mut1. apply polite_then; [apply polite_translate_mut|]. intros l. repeat case_match; auto with polite.
Qed.

Lemma polite_mut2 a b : polite (translate_mut2 env a b).
Proof.
  unfold translate_mut2. apply polite_then; [apply polite_translate_mut|]. intros l. repeat case_match; auto with polite.
Qed.

Lemma polite_string {A} a n (work : string -> SysM A) :
  is_u64 a -> is_u64 n -> (forall s, polite (work s)) -> polite (translate_string_and_do env a n work).
Proof.
  intros Ha Hn Hw. unfold translate_string_and_do. apply polite_then; [by apply polite_bytes|]. intros buf.
  destruct (from_utf8 buf); [done|apply polite_throw].
Qed.

(** Reading a list of slices, and then what they point to. *)
Lemma polite_with_slices {A} a n (k : list VmSlice -> SysM A) :
  is_u64 a -> is_u64 n -> (forall l, Forall slice_ok l -> polite (k l)) -> polite (sys_bind (get_slices env a n) k).
Proof. intros Ha Hn Hk. apply (polite_bind _ _ (Forall slice_ok)); [by apply polite_slices|apply slices_ok|done]. Qed.
End guest.

#[export] Hint Resolve polite_type polite_bytes polite_slice polite_slices polite_vm_slice polite_vm_slices polite_translate_mut polite_mut1
  polite_mut2 one_size_ok pubkey_size_ok size_ok_u64 : polite.
#[export] Hint Resolve law_hash_bytes law_signature law_params_size point_size_ok scalar_size_ok compressed_size_ok : polite.
#[export] Hint Extern 2 (is_u64 _) => (by vm_compute) : polite.

Ltac syscall_step :=
  lazymatch goal with
  | |- polite (sys_bind (get_slices _ _ _) _) => apply polite_with_slices; [done..|]
  | |- polite (sys_mapM _ _) => eapply polite_mapM, Forall_impl; [eassumption|cbv beta]
  | |- polite (translate_string_and_do _ _ _ _) => apply polite_string; [done..|]
  | |- 0 <= vs_len _ => match goal with H : slice_ok _ |- _ => apply H end
  | _ => polite_step
  end.
Ltac syscall_tac := repeat syscall_step.

(** ** The syscalls *)

Section syscalls.
Context (env : SyscallEnvironment) {Laws : EnvironmentLaws env}.
Context (curves : CurveEnvironment) {CLaws : CurveLaws curves}.

Let Hcosts : costs_ok (costs env) := law_costs.

Section args.
Variables a1 a2 a3 a4 a5 : Z.
Context (H1 : is_u64 a1) (H2 : is_u64 a2) (H3 : is_u64 a3) (H4 : is_u64 a4) (H5 : is_u64 a5).

Lemma polite_panic : polite (SyscallPanic env a1 a2 a3 a4).
Proof using H1 H2. unfold SyscallPanic. syscall_tac. Qed.

Lemma polite_log_string : polite (SyscallLog env a1 a2).
Proof using H1 H2 Laws. unfold SyscallLog, program_log. syscall_tac. Qed.

Lemma polite_log_numbers : polite (SyscallLogU64 env a1 a2 a3 a4 a5).
Proof using Laws. unfold SyscallLogU64, program_log. polite_tac. Qed.

Lemma polite_log_units : polite (SyscallLogBpfComputeUnits env).
Proof using Laws. unfold SyscallLogBpfComputeUnits. polite_tac. Qed.

Lemma polite_log_pubkey : polite (SyscallLogPubkey env a1).
Proof using H1 Laws. unfold SyscallLogPubkey, program_log. polite_tac. Qed.

Lemma fold_nonneg l t : 0 <= t -> Forall slice_ok l ->
  0 <= fold_left (fun total e => saturating_add total (vs_len e)) l t.
Proof.
  intros Ht Hl. revert t Ht. induction Hl as [|e l [_ He] _ IH]; intros t Ht; cbn; [done|]. apply IH.
  destruct He. by apply saturating_add_nonneg.
Qed.

Lemma polite_log_data : polite (SyscallLogData env a1 a2).
Proof using H1 H2 Laws.
  unfold SyscallLogData, program_data, len. syscall_tac. by apply fold_nonneg.
Qed.

Lemma context_alloc_meter size align ic : compute_units (context_alloc size align ic).1 = compute_units ic.
Proof.
  unfold context_alloc, set_syscall_context. destruct (get_syscall_context ic); [|done].
  destruct (alloc _ _ _). by destruct (last _).
Qed.

Lemma polite_alloc : polite (SyscallAllocFree env a1 a2).
Proof.
  unfold SyscallAllocFree. do 4 polite_step; polite_tac. apply polite_update. intros ic. apply context_alloc_meter.
Qed.

(** ** Program addresses *)

Lemma polite_address_inputs : polite (translate_and_check_program_address_inputs env a1 a2 a3).
Proof using H1 H2 H3. unfold translate_and_check_program_address_inputs. syscall_tac. Qed.

Lemma polite_create_address : polite (SyscallCreateProgramAddress env a1 a2 a3 a4).
Proof using H1 H2 H3 Laws.
  unfold SyscallCreateProgramAddress. polite_step; [polite_tac|]. intros _. polite_step; [apply polite_address_inputs|].
  polite_tac.
Qed.

Lemma polite_bump rounds bump seeds id : polite (find_bump env rounds bump seeds id a4 a5).
Proof using Laws.
  revert bump. induction rounds as [|rounds IH]; intros bump; cbn [find_bump]; [polite_tac|].
  polite_step; [polite_tac|]. polite_step; [polite_tac|auto].
Qed.

Lemma polite_find_address : polite (SyscallTryFindProgramAddress env a1 a2 a3 a4 a5).
Proof using H1 H2 H3 Laws.
  unfold SyscallTryFindProgramAddress. polite_step; [polite_tac|]. intros _. polite_step; [apply polite_address_inputs|].
  intros [seeds id]. apply polite_bump.
Qed.

(** ** Signatures and hashes *)

Lemma polite_recover : polite (SyscallSecp256k1Recover env a1 a2 a3 a4).
Proof using H1 H3 Laws. unfold SyscallSecp256k1Recover. syscall_tac. Qed.

Lemma polite_hash h : polite (SyscallHash env h a1 a2 a3).
Proof using H1 H2 Laws.
  assert (forall s, slice_ok s -> polite (hash_value env h s)).
  { intros s [Ha Hn]. unfold hash_value, hash_byte_cost, get_vm_slice. destruct h; syscall_tac. }
  unfold SyscallHash, hash_base_cost. destruct h; syscall_tac; auto.
Qed.

(** ** Sysvars, return data and instructions *)

Lemma polite_sysvar v : polite (get_sysvar env v a1).
Proof using Laws. pose proof (law_sysvar_size v) as [[Hs _] _]. unfold get_sysvar. syscall_tac. Qed.

Lemma div_or_nonneg x y d : 0 <= x -> 0 <= y -> 0 <= d -> 0 <= div_or x y d.
Proof. intros. unfold div_or. destruct (Z.eqb_spec y 0); [done|]. apply Z.div_pos; lia. Qed.

Lemma polite_get_sysvar : polite (SyscallGetSysvar env a1 a2 a3 a4).
Proof using H1 H4 Laws.
  unfold SyscallGetSysvar, add_or_overflow. cbv zeta. syscall_tac; (apply div_or_nonneg; [|cost_tac|done]); [done|apply H4].
Qed.

Lemma polite_set_return_data : polite (SyscallSetReturnData env a1 a2).
Proof using H1 H2 Laws.
  unfold SyscallSetReturnData. syscall_tac.
  - apply div_or_nonneg; [apply H2|cost_tac|done].
  - by apply polite_update.
Qed.

Lemma polite_get_return_data : polite (SyscallGetReturnData env a1 a2 a3).
Proof using H2 Laws.
  unfold SyscallGetReturnData. cbv zeta. syscall_tac.
  apply div_or_nonneg; [apply saturating_add_nonneg; [unfold is_u, len in *; lia|done]|cost_tac|done].
Qed.

Lemma polite_sibling : polite (SyscallGetProcessedSiblingInstruction env a1 a2 a3 a4 a5).
Proof using Laws. unfold SyscallGetProcessedSiblingInstruction, write_sibling. cbv zeta. syscall_tac. Qed.

Lemma polite_stack_height : polite (SyscallGetStackHeight env).
Proof using Laws. unfold SyscallGetStackHeight. syscall_tac. Qed.

Lemma polite_remaining : polite (SyscallRemainingComputeUnits env).
Proof using Laws. unfold SyscallRemainingComputeUnits. syscall_tac. Qed.

Lemma polite_epoch_stake : polite (SyscallGetEpochStake env a1).
Proof using H1 Laws.
  unfold SyscallGetEpochStake. syscall_tac. apply div_or_nonneg; [done|cost_tac|done].
Qed.

(** ** Curves *)

Lemma polite_store size a r : polite (store_result env size a r).
Proof. unfold store_result. syscall_tac. Qed.
Hint Resolve polite_store : polite.

Lemma polite_invalid_curve : polite (invalid_curve env).
Proof. unfold invalid_curve. syscall_tac. Qed.
Hint Resolve polite_invalid_curve : polite.

Lemma polite_curve_validate : polite (SyscallCurvePointValidation env curves a1 a2).
Proof using H2 Laws CLaws.
  unfold SyscallCurvePointValidation. polite_step; [polite_tac|]. destruct (group_of curves a1) as [g|]; [|polite_tac].
  unfold validate_cost. destruct g; syscall_tac.
Qed.

Lemma polite_curve_decompress : polite (SyscallCurveDecompress env curves a1 a2 a3).
Proof using H2 Laws CLaws.
  unfold SyscallCurveDecompress. destruct (bls_group a1) as [g|]; [|polite_tac]. unfold decompress_cost. destruct g; syscall_tac.
Qed.

Lemma polite_curve_group_ops : polite (SyscallCurveGroupOps env curves a1 a2 a3 a4 a5).
Proof using H3 H4 Laws CLaws.
  unfold SyscallCurveGroupOps. polite_step; [polite_tac|]. destruct (group_of curves a1) as [g|]; [|polite_tac].
  destruct (group_op_of curves a2) as [op|]; [|unfold invalid_group_op; polite_tac].
  polite_step; [apply polite_consume; unfold group_op_cost; destruct g, op; cost_tac|].
  destruct op; syscall_tac.
Qed.

Lemma polite_curve_multiscalar : polite (SyscallCurveMultiscalarMultiplication env curves a1 a2 a3 a4 a5).
Proof using H2 H3 H4 Laws CLaws.
  unfold SyscallCurveMultiscalarMultiplication. polite_step; [polite_tac|].
  destruct (curve25519_group curves a1) as [g|]; [|polite_tac]. unfold msm_cost. destruct g; syscall_tac.
Qed.

Lemma polite_curve_pairing : polite (SyscallCurvePairingMap env curves a1 a2 a3 a4 a5).
Proof using H2 H3 H4 Laws.
  unfold SyscallCurvePairingMap. syscall_tac; (apply polite_slice; [done..|by vm_compute]).
Qed.

Lemma polite_with_input output f : polite (call_with_input env output a2 a3 a4 f).
Proof using H2 H3. unfold call_with_input. syscall_tac. Qed.

Lemma polite_alt_bn128 : polite (SyscallAltBn128 env curves a1 a2 a3 a4).
Proof using H2 H3 Laws CLaws.
  pose proof law_element_size as He. pose proof (law_bn_output Pairing) as [Ho _]. cbn in Ho.
  unfold SyscallAltBn128. destruct (alt_bn128_op curves a1) as [[op e]|]; [|polite_tac]. polite_step; [polite_tac|].
  polite_step; [|intros; apply polite_with_input].
  apply polite_consume. unfold alt_bn128_cost. destruct op; cost_tac.
Qed.

Lemma polite_alt_bn128_compression : polite (SyscallAltBn128Compression env curves a1 a2 a3 a4).
Proof using H2 H3 Laws.
  unfold SyscallAltBn128Compression. destruct (alt_bn128_compression_op curves a1) as [[op e]|]; [|polite_tac].
  polite_step; [polite_tac|]. polite_step; [|intros; apply polite_with_input].
  apply polite_consume. unfold compression_cost. destruct op; cost_tac.
Qed.

Lemma polite_big_mod_exp : polite (SyscallBigModExp env a1 a2).
Proof using H1 Laws.
  unfold SyscallBigModExp. polite_step; [polite_tac|]. intros l. polite_step; [polite_tac|].
  destruct (law_params l) as (Hb & He & Hm). unfold big_mod_exp_of. cbv zeta. syscall_tac.
  unfold big_mod_exp_cost. cost_tac. destruct Hb as [_ [? _]]. apply div_or_nonneg; [|cost_tac|done].
  apply saturating_mul_nonneg; lia.
Qed.

Lemma poseidon_cost_nonneg n units : 0 <= n -> poseidon_cost (costs env) n = Some units -> 0 <= units.
Proof using Laws.
  intros Hn. unfold poseidon_cost, checked_mul, checked_add. repeat case_match; try done; intros; simplify_eq.
  assert (0 <= poseidon_cost_coefficient_a (costs env)) by cost_tac.
  assert (0 <= poseidon_cost_coefficient_c (costs env)) by cost_tac. nia.
Qed.

Lemma polite_poseidon : polite (SyscallPoseidon env curves a1 a2 a3 a4 a5).
Proof using H3 H4 Laws.
  unfold SyscallPoseidon. destruct (poseidon_parameters curves a1); [|polite_tac].
  destruct (poseidon_endianness curves a2); [|polite_tac]. polite_step; [polite_tac|].
  destruct (poseidon_cost (costs env) a4) as [units|] eqn:Eu; [|polite_tac].
  apply poseidon_cost_nonneg in Eu; [|apply H4]. syscall_tac.
Qed.

(** ** Memory syscalls *)

Lemma polite_ext {A} (p q : SysM A) : (forall s, p s = q s) -> polite q -> polite p.
Proof.
  intros E [Ht Hm]. split.
  - intros s. destruct (Ht s) as (loads & Hl & H). exists loads. split; [done|]. intros t. by rewrite !E.
  - intros s s' r. rewrite E. apply Hm.
Qed.

(** A memory syscall as a sequence of the steps of the others. *)
Definition mem_steps (op : MemOp) : SysM Z :=
  sys! _ := sys_consume (Z.max (mem_op_base_cost (costs env)) (div_or a3 (cpi_bytes_per_unit (costs env)) u64_MAX)) in
  if refuses op a1 a2 a3 then sys_fail (BoxOther "Overlapping copy")
  else
    sys! ca := sys_check_aligned env in
    let writable {A} (k : HostSlice -> SysM A) : SysM A :=
      sys! _ := sys_touch (fun m host => touch_slice_mut 1 m host a1 a3) in
      sys! dst := sys_translate (fun m => translate_slice_mut 1 1 m a1 a3 ca) in
      k dst in
    match op with
    | Memcpy | Memmove =>
        writable (fun dst =>
          sys! src := sys_translate (fun m => translate_slice 1 1 m a2 a3 ca) in
          sys! bs := sys_read (hs_ptr src) a3 in
          sys! _ := sys_write (hs_ptr dst) bs in
          sys_ret 0)
    | Memcmp =>
        sys! s1 := sys_translate (fun m => translate_slice 1 1 m a1 a3 ca) in
        sys! s2 := sys_translate (fun m => translate_slice 1 1 m a2 a3 ca) in
        sys! b1 := sys_read (hs_ptr s1) a3 in
        sys! b2 := sys_read (hs_ptr s2) a3 in
        sys! _ := sys_touch (fun m host => touch_type_mut 4 m host a4) in
        sys! result := sys_translate (fun m => translate_type_mut 4 4 m a4 ca) in
        sys! _ := sys_write result (le_split 4 (as_u32 (memcmp_bytes b1 b2))) in
        sys_ret 0
    | Memset =>
        writable (fun dst =>
          sys! _ := sys_write (hs_ptr dst) (replicate (Z.to_nat a3) (as_u8 a2)) in
          sys_ret 0)
    end.

Lemma sys_mem_steps op s : sys_mem env op a1 a2 a3 a4 s = mem_steps op s.
Proof.
  unfold sys_mem, mem_steps, mem_syscall, mem_op_consume, sys_bind at 1, sys_consume, div_or.
  destruct (consume_compute_meter _ _) as [ic [[]|e]]; cbn [mbind option_bind]; [|done].
  destruct (refuses op a1 a2 a3); [done|]. unfold sys_bind at 1, sys_check_aligned. cbn [sys_context set_sys_context].
  destruct (get_check_aligned _ ic) as [ca|]; [|done]. cbn [mbind option_bind].
  destruct op; cbn [mem_body]; unfold memmove, memcmp, memset, translate_mut_slice, translate_mut_type, ptr_copy,
    sys_bind, sys_touch, sys_translate, sys_read, sys_write;
    repeat (case_match; simplify_eq; cbn in *; try done).
Qed.

Lemma polite_mem op : polite (sys_mem env op a1 a2 a3 a4).
Proof using H1 H2 H3 Laws.
  apply (polite_ext _ (mem_steps op)); [apply sys_mem_steps|]. unfold mem_steps.
  assert (forall {A} ca (k : HostSlice -> SysM A), (forall s, polite (k s)) ->
    polite (sys_bind (sys_touch (fun m host => touch_slice_mut 1 m host a1 a3)) (fun _ =>
      sys_bind (sys_translate (fun m => translate_slice_mut 1 1 m a1 a3 ca)) k))) as Hw.
  { intros A ca k Hk. apply polite_then; [split; [apply traced_touch_slice|apply metered_touch_slice]|]. intros _.
    by apply polite_map_slice. }
  polite_step; [polite_tac|]. intros _. polite_step; [polite_tac|]. polite_step; [polite_tac|]. intros ca.
  destruct op; cbv zeta.
  1,2: apply Hw; intros s; apply polite_map_slice; [done|polite_tac].
  - do 2 (apply polite_map_slice; [done|]; intros ?). do 2 (polite_step; [polite_tac|]; intros ?).
    apply polite_then; [split; [apply traced_touch|apply metered_touch]|]. intros _.
    apply polite_then; [split; [by apply traced_type|apply metered_type]|polite_tac].
  - apply Hw. polite_tac.
Qed.
End args.
End syscalls.
