(* ===== verification/SyscallsSafe.v ===== *)
(** The syscalls are safe: on memory and a context in good order each returns, with a [u64] or an
    error, and after a success memory and context are in good order again. *)

From Stdlib Require Import ZArith Lia Bool.
From stdpp Require Import strings.
From S2P Require Import Prelude.
From S2P Require Import SbpfTypes.
From S2P Require Import Ebpf.
From S2P Require Import MemoryRegion.
From S2P Require Import Mapping.
From S2P Require Import MappingSafe.
From S2P Require Import TxAccounts.
From S2P Require Import TxContext.
From S2P Require Import InvokeContext.
From S2P Require Import ExecutionCost.
From S2P Require Import SysvarCache.
From S2P Require Import Features.
From S2P Require Import MemOps.
From S2P Require Import MemOpsSafe.
From S2P Require Import Syscalls.
From S2P Require Import CurveSyscalls.
From S2P Require Import SyscallLaws.

#[local] Open Scope Z_scope.

(** ** Translation *)

Lemma same_memory m m' host : memory_ok m host -> same_regions m m' -> memory_ok m' host.
Proof. intros [_ _ Hb] [[? ? _] Hr]. split; [done..|by rewrite Hr]. Qed.

Lemma type_safe size align m host ty a ca m' r :
  memory_ok m host -> is_u64 a -> is_u64 size -> translate_type_inner size align m ty a ca = (m', r) ->
  memory_ok m' host /\ forall p, r = Ok p -> allocated host p size.
Proof.
  intros Hm Ha Hs. unfold translate_type_inner, translate_inner. destruct (mapping_map m ty a size) as [m1 r1] eqn:E.
  apply mapping_map_spec in E as (Hsame & _ & Ht); [|apply Hm..].
  assert (memory_ok m1 host) as Hm1 by by eapply same_memory.
  assert (forall p, r1 = Ok p -> allocated host p size) as Hp.
  { intros p Ep. destruct Hm1. eapply translates_bounds; [..|by apply Ht|]; done. }
  destruct r1 as [p|e]; cbn [map_err]; [|by intros [= <- <-]].
  destruct (negb ca); [intros [= <- <-]; naive_solver|]. destruct (negb _); intros [= <- <-]; naive_solver.
Qed.

Lemma slice_safe size align m host ty a n ca m' r :
  memory_ok m host -> is_u64 a -> is_u64 n -> 0 < size -> translate_slice_inner size align m ty a n ca = (m', r) ->
  memory_ok m' host /\ forall s, r = Ok s -> allocated host (hs_ptr s) (n * size).
Proof.
  intros Hm Ha Hn Hs. unfold translate_slice_inner. destruct (Z.eqb_spec n 0) as [->|Hne].
  { intros [= <- <-]. split; [done|]. intros s _ b Hb. lia. }
  destruct (Z.ltb_spec i64_MAX (saturating_mul n size)) as [|Hle]; [by intros [= <- <-]|].
  assert (saturating_mul n size = n * size) as E by (unfold saturating_mul, is_u in *; lia). rewrite E in *.
  unfold translate_inner. destruct (mapping_map m ty a (n * size)) as [m1 r1] eqn:Em.
  apply mapping_map_spec in Em as (Hsame & _ & Ht); [|apply Hm..].
  assert (memory_ok m1 host) as Hm1 by by eapply same_memory.
  assert (forall p, r1 = Ok p -> allocated host p (n * size)) as Hp.
  { intros p Ep. destruct Hm1. eapply translates_bounds; [..|by apply Ht|]; try done. unfold is_u in *. nia. }
  destruct r1 as [p|e]; cbn [map_err]; [|by intros [= <- <-]].
  destruct (ca && _); intros [= <- <-]; (split; [done|]); [done|]. intros s [= <-]. by apply Hp.
Qed.

(** ** Safe computations *)

Section safe.
Context (env : SyscallEnvironment).

Definition good (s : SysState) : Prop := memory_ok (sys_mapping s) (sys_host s) /\ sys_context_ok env (sys_context s).

(** What is allocated stays allocated. *)
Definition kept (s s' : SysState) : Prop := forall a n, allocated (sys_host s) a n -> allocated (sys_host s') a n.

Lemma kept_eq s s' : sys_host s' = sys_host s -> kept s s'.
Proof. intros E a n. by rewrite E. Qed.

Lemma kept_trans s1 s2 s3 : kept s1 s2 -> kept s2 s3 -> kept s1 s3.
Proof. unfold kept. auto. Qed.

(** The computation returns, and successes satisfy the condition. *)
Definition wp {A} (p : SysM A) (Q : A -> SysState -> Prop) (s : SysState) : Prop :=
  exists s' r, p s = Some (s', r) /\ forall x, r = Ok x -> Q x s'.

Section rules.
Context {A : Type} (Q : A -> SysState -> Prop) (s : SysState).

Lemma wp_bind {B} (p : SysM B) (k : B -> SysM A) : wp p (fun x s' => wp (k x) Q s') s -> wp (sys_bind p k) Q s.
Proof.
  intros (s1 & r1 & E & Hk). unfold wp, sys_bind. rewrite E. cbn [mbind option_bind].
  destruct r1 as [x|e]; [by apply Hk|]. by eexists _, _.
Qed.

Lemma wp_mono (p : SysM A) (Q' : A -> SysState -> Prop) :
  wp p Q' s -> (forall x s', Q' x s' -> Q x s') -> wp p Q s.
Proof. intros (s1 & r1 & E & H) HQ. exists s1, r1. split; [done|]. intros x Hx. by apply HQ, H. Qed.

Lemma wp_ret x : Q x s -> wp (sys_ret x) Q s.
Proof. intros H. exists s, (Ok x). split; [done|]. by intros y [= <-]. Qed.

Lemma wp_fail e : wp (sys_fail e) Q s.
Proof. by exists s, (Err e). Qed.

Lemma wp_get (f : InvokeContext -> A) : Q (f (sys_context s)) s -> wp (sys_get f) Q s.
Proof. intros H. eexists _, _. split; [done|]. by intros y [= <-]. Qed.

Lemma wp_try (f : InvokeContext -> Result A InstructionError) :
  (forall x, f (sys_context s) = Ok x -> Q x s) -> wp (sys_try f) Q s.
Proof. intros H. eexists _, _. split; [done|]. intros y Hy. apply H. by destruct (f (sys_context s)); simplify_eq/=. Qed.

Lemma wp_update (f : InvokeContext -> InvokeContext * Result A InstructionError) :
  good s -> (forall ic x, f (sys_context s) = (ic, Ok x) -> sys_context_ok env ic /\ (good (set_sys_context ic s) -> Q x (set_sys_context ic s))) ->
  wp (sys_update f) Q s.
Proof.
  intros [Hm _] H. unfold wp, sys_update. destruct (f (sys_context s)) as [ic r]. eexists _, _. split; [done|].
  intros x Hx. destruct r as [y|]; simplify_eq/=. by destruct (H ic x eq_refl) as [? HQ]; apply HQ.
Qed.
End rules.

Section steps.
Context (s : SysState) (Hs : good s).

Lemma wp_consume (Q : unit -> SysState -> Prop) n : (forall s', good s' -> kept s s' -> Q tt s') -> wp (sys_consume n) Q s.
Proof using Hs.
  intros H. unfold wp, sys_consume, consume_compute_meter, consume_checked. eexists _, _. split; [done|]. intros [] _.
  apply H; [|by apply kept_eq]. destruct Hs. split; [done|]. by apply meter_context_ok.
Qed.

Lemma wp_log (Q : unit -> SysState -> Prop) msg : (forall s', good s' -> kept s s' -> Q tt s') -> wp (sys_log_msg msg) Q s.
Proof using Hs. intros H. eexists _, _. split; [done|]. intros [] _. by apply H; [|apply kept_eq]. Qed.

Lemma wp_read (Q : list Z -> SysState -> Prop) ptr n :
  0 <= n -> allocated (sys_host s) ptr n -> (forall bs, sized n bs -> Q bs s) -> wp (sys_read ptr n) Q s.
Proof using Hs.
  intros Hn Ha H. rewrite <- (Z2Nat.id n) in Ha by done. apply host_read_Some in Ha as (bs & Hbs & Hl).
  unfold wp, sys_read. rewrite Hbs. eexists _, _. split; [done|]. intros x [= <-]. apply H. split.
  - eapply host_read_bytes; [|done]. destruct Hs as [[_ _ Hb] _]. apply (backed_bytes _ _ Hb).
  - unfold len. lia.
Qed.

Lemma wp_write (Q : unit -> SysState -> Prop) ptr n bs :
  sized n bs -> allocated (sys_host s) ptr n -> (forall s', good s' -> kept s s' -> Q tt s') -> wp (sys_write ptr bs) Q s.
Proof using Hs.
  intros [Hb Hl] Ha H. subst n. destruct (host_write_Some _ _ _ Ha) as [host' E]. unfold wp, sys_write. rewrite E.
  eexists _, _. split; [done|]. intros [] _. destruct Hs as [[Hm Hh Hbk] Hc]. apply H.
  - split; [|done]. split; [done..|]. by eapply backed_write.
  - intros a n Han b Hbn. cbn. apply (proj2 (proj2 (host_write_spec _ _ _ _ E))). by apply (Han b).
Qed.

Lemma wp_copy (Q : unit -> SysState -> Prop) ptr n bs :
  sized n bs -> allocated (sys_host s) ptr n -> (forall s', good s' -> kept s s' -> Q tt s') -> wp (copy_from_slice ptr n bs) Q s.
Proof using Hs.
  intros Hb Ha H. unfold copy_from_slice. rewrite (proj2 Hb), Z.eqb_refl. by apply (wp_write _ ptr n).
Qed.

Lemma wp_aligned (Q : bool -> SysState -> Prop) : (forall b, Q b s) -> wp (sys_check_aligned env) Q s.
Proof using Hs.
  intros H. destruct Hs as [_ Hc]. destruct (ctx_aligned _ _ Hc) as [b E]. unfold wp, sys_check_aligned. rewrite E.
  eexists _, _. split; [done|]. intros x [= <-]. done.
Qed.

Lemma wp_map_type (Q : Z -> SysState -> Prop) size align ty a ca :
  is_u64 a -> is_u64 size ->
  (forall p s', good s' -> sys_host s' = sys_host s -> allocated (sys_host s) p size -> Q p s') ->
  wp (sys_translate (fun m => translate_type_inner size align m ty a ca)) Q s.
Proof using Hs.
  intros Ha Hn H. unfold wp, sys_translate. destruct Hs as [Hm Hc].
  destruct (translate_type_inner size align (sys_mapping s) ty a ca) as [m' r] eqn:E.
  eapply type_safe in E as [Hm' Hp]; [|done..]. eexists _, _. split; [done|]. intros x Hx. apply H; [by split|done|by apply Hp].
Qed.

Lemma wp_map_slice (Q : HostSlice -> SysState -> Prop) size align ty a n ca :
  is_u64 a -> is_u64 n -> 0 < size ->
  (forall p s', good s' -> sys_host s' = sys_host s -> allocated (sys_host s) (hs_ptr p) (n * size) -> Q p s') ->
  wp (sys_translate (fun m => translate_slice_inner size align m ty a n ca)) Q s.
Proof using Hs.
  intros Ha Hn Hp H. unfold wp, sys_translate. destruct Hs as [Hm Hc].
  destruct (translate_slice_inner size align (sys_mapping s) ty a n ca) as [m' r] eqn:E.
  eapply slice_safe in E as [Hm' Hal]; [|done..]. eexists _, _. split; [done|]. intros x Hx. apply H; [by split|done|by apply Hal].
Qed.

Lemma wp_touch (Q : unit -> SysState -> Prop) size a :
  (forall s', good s' -> Q tt s') -> wp (sys_touch (fun m host => touch_type_mut size m host a)) Q s.
Proof using Hs.
  intros H. unfold wp, sys_touch. destruct Hs as [[Hm Hh Hb] Hc].
  destruct (touch_type_mut size (sys_mapping s) (sys_host s) a) as [[m' host'] r] eqn:E.
  apply touch_spec in E as ([? ? _] & _ & Hbk & _); [|done..]. eexists _, _. split; [done|]. intros [] ->.
  apply H. split; [|done]. split; [done..|by apply Hbk].
Qed.
End steps.

Lemma wp_mapM {A B} (f : A -> SysM B) (P : A -> B -> Prop) (l : list A) (Q : list B -> SysState -> Prop) s :
  good s ->
  Forall (fun x => forall s, good s -> wp (f x) (fun y s' => good s' /\ kept s s' /\ P x y) s) l ->
  (forall ys s', good s' -> kept s s' -> Forall2 P l ys -> Q ys s') -> wp (sys_mapM f l) Q s.
Proof.
  intros Hs Hl. revert s Hs Q. induction Hl as [|x l Hx _ IH]; intros s Hs Q HQ; cbn [sys_mapM].
  - apply wp_ret, HQ; [done|by apply kept_eq|constructor].
  - apply wp_bind. eapply wp_mono; [by apply Hx|]. intros y s1 (Hs1 & Hk1 & Hy). apply wp_bind.
    apply IH; [done|]. intros ys s2 Hs2 Hk2 Hys. apply wp_ret, HQ; [done|by eapply kept_trans|by constructor].
Qed.

(** ** Guest memory *)

Section guest.
Context (s : SysState) (Hs : good s).

Lemma wp_type (Q : list Z -> SysState -> Prop) size align a :
  is_u64 a -> size_ok size -> (forall bs s', good s' -> kept s s' -> sized size bs -> Q bs s') ->
  wp (get_type env size align a) Q s.
Proof using Hs.
  intros Ha [Hn Hp] H. unfold get_type. apply wp_bind, wp_aligned; [done|]. intros ca. apply wp_bind.
  apply wp_map_type; [done..|]. intros p s' Hs' E Hal. rewrite <- E in Hal. apply wp_read; [done|lia|done|].
  intros bs Hbs. by apply H; [|apply kept_eq|].
Qed.

Lemma wp_bytes (Q : list Z -> SysState -> Prop) a n :
  is_u64 a -> is_u64 n -> (forall bs s', good s' -> kept s s' -> sized n bs -> Q bs s') -> wp (get_bytes env a n) Q s.
Proof using Hs.
  intros Ha Hn H. unfold get_bytes. apply wp_bind, wp_aligned; [done|]. intros ca. apply wp_bind.
  apply wp_map_slice; [done..|]. intros p s' Hs' E Hal. rewrite <- E, Z.mul_1_r in Hal.
  apply wp_read; [done|apply Hn|done|]. intros bs Hbs. by apply H; [|apply kept_eq|].
Qed.

Lemma chunks_length size n bs : 0 <= n -> len (chunks size n bs) = n.
Proof. intros. unfold chunks, len. rewrite length_map, length_seq. lia. Qed.

Lemma wp_slice (Q : list (list Z) -> SysState -> Prop) size align a n :
  is_u64 a -> is_u64 n -> size_ok size -> (forall l s', good s' -> kept s s' -> len l = n -> Q l s') ->
  wp (get_slice env size align a n) Q s.
Proof using Hs.
  intros Ha Hn [_ Hp] H. unfold get_slice. apply wp_bind, wp_aligned; [done|]. intros ca. apply wp_bind.
  apply wp_map_slice; [done..|]. intros p s' Hs' E Hal. rewrite <- E in Hal. apply wp_bind.
  apply wp_read; [done|unfold is_u in *; nia|done|]. intros bs Hbs. apply wp_ret, H; [done|by apply kept_eq|].
  apply chunks_length, Hn.
Qed.

Lemma wp_slices (Q : list VmSlice -> SysState -> Prop) a n :
  is_u64 a -> is_u64 n -> (forall l s', good s' -> kept s s' -> Forall slice_ok l -> Q l s') ->
  wp (get_slices env a n) Q s.
Proof using Hs.
  intros Ha Hn H. unfold get_slices. apply wp_bind. apply wp_slice; [done..|by vm_compute|]. intros l s' Hs' Hk _.
  apply wp_ret, H; [done..|]. apply Forall_map, Forall_true. intros. apply slice_of_ok.
Qed.
End guest.

Lemma wp_vm_slices (Q : list (list Z) -> SysState -> Prop) l s :
  good s -> Forall slice_ok l -> (forall bss s', good s' -> kept s s' -> Q bss s') -> wp (sys_mapM (get_vm_slice env) l) Q s.
Proof.
  intros Hs Hl H. apply (wp_mapM _ (fun _ _ => True)); [done| |naive_solver].
  eapply Forall_impl; [exact Hl|]. intros v [Ha Hn] s1 Hs1. apply wp_bytes; naive_solver.
Qed.

(** ** Writable memory *)

Definition binding_ok (b : Binding) : Prop :=
  match b with
  | BindType size _ a => size_ok size /\ is_u64 a
  | BindSlice size _ a n => size_ok size /\ is_u64 a /\ is_u64 n
  end.
Definition binding_size (b : Binding) : Z := match b with BindType size _ _ => size | BindSlice size _ _ n => n * size end.

Lemma wp_touches (Q : list unit -> SysState -> Prop) l s :
  good s -> (forall us s', good s' -> Q us s') -> wp (sys_mapM touch_binding l) Q s.
Proof.
  revert s Q. induction l as [|b l IH]; intros s Q Hs HQ; cbn [sys_mapM]; [by apply wp_ret, HQ|].
  assert (forall Q', (forall s', good s' -> Q' tt s') -> wp (touch_binding b) Q' s) as Hb.
  { intros Q' HQ'. destruct b as [size align a|size align a n]; cbn [touch_binding]; [by apply wp_touch|].
    unfold touch_slice_mut. destruct (n =? 0); [|by apply wp_touch]. eexists _, _. split; [done|]. intros [] _. by apply HQ'; destruct s. }
  apply wp_bind, Hb. intros s1 Hs1. apply wp_bind, IH; [done|]. intros us s2 Hs2. by apply wp_ret, HQ.
Qed.

Definition bound (s : SysState) (b : Binding) (r : Z * Z) : Prop := allocated (sys_host s) r.1 (binding_size b).

Lemma wp_binding (Q : Z * Z -> SysState -> Prop) b s :
  good s -> binding_ok b -> (forall r s', good s' -> sys_host s' = sys_host s -> bound s b r -> Q r s') ->
  wp (map_binding env b) Q s.
Proof.
  intros Hs Hb H. unfold map_binding. apply wp_bind, wp_aligned; [done|]. intros ca.
  destruct b as [size align a|size align a n]; cbn in Hb; apply wp_bind.
  - apply wp_map_type; [done|apply Hb..|]. intros p s' Hs' E Hp. by apply wp_ret, H.
  - apply wp_map_slice; [done|apply Hb..|]. intros p s' Hs' E Hp. by apply wp_ret, H.
Qed.

Lemma wp_bindings (Q : list (Z * Z) -> SysState -> Prop) l s :
  good s -> Forall binding_ok l ->
  (forall rs s', good s' -> sys_host s' = sys_host s -> Forall2 (bound s) l rs -> Q rs s') ->
  wp (sys_mapM (map_binding env) l) Q s.
Proof.
  intros Hs Hl. revert s Hs Q. induction Hl as [|b l Hb _ IH]; intros s Hs Q HQ; cbn [sys_mapM].
  { by apply wp_ret, HQ; [..|constructor]. }
  apply wp_bind, wp_binding; [done..|]. intros r s1 Hs1 E1 Hr. apply wp_bind, IH; [done|].
  intros rs s2 Hs2 E2 Hrs. apply wp_ret, HQ; [done|congruence|]. constructor; [done|].
  unfold bound in *. by rewrite <- E1.
Qed.

Lemma wp_translate_mut (Q : list Z -> SysState -> Prop) l s :
  good s -> Forall binding_ok l ->
  (forall ps s', good s' -> Forall2 (fun b p => allocated (sys_host s') p (binding_size b)) l ps -> Q ps s') ->
  wp (translate_mut env l) Q s.
Proof.
  intros Hs Hl HQ. unfold translate_mut. apply wp_bind, wp_touches; [done|]. intros us s1 Hs1.
  apply wp_bind, wp_bindings; [done..|]. intros rs s2 Hs2 E Hrs. destruct (nonoverlapping rs); [|apply wp_fail].
  apply wp_ret, HQ; [done|]. rewrite E. by apply Forall2_fmap_r.
Qed.

Lemma wp_mut1 (Q : Z -> SysState -> Prop) b s :
  good s -> binding_ok b -> (forall p s', good s' -> allocated (sys_host s') p (binding_size b) -> Q p s') ->
  wp (translate_mut1 env b) Q s.
Proof.
  intros Hs Hb HQ. unfold translate_mut1. apply wp_bind, wp_translate_mut; [done|by constructor|].
  intros ps s1 Hs1 Hps. apply Forall2_cons_inv_l in Hps as (p & ? & Hp & Hn & ->). apply Forall2_nil_inv_l in Hn as ->.
  by apply wp_ret, HQ.
Qed.

Lemma wp_mut2 (Q : Z * Z -> SysState -> Prop) a b s :
  good s -> binding_ok a -> binding_ok b ->
  (forall p q s', good s' -> allocated (sys_host s') p (binding_size a) -> allocated (sys_host s') q (binding_size b) ->
    Q (p, q) s') -> wp (translate_mut2 env a b) Q s.
Proof.
  intros Hs Ha Hb HQ. unfold translate_mut2. apply wp_bind, wp_translate_mut; [done|by repeat constructor|].
  intros ps s1 Hs1 Hps. apply Forall2_cons_inv_l in Hps as (p & ? & Hp & Hn & ->).
  apply Forall2_cons_inv_l in Hn as (q & ? & Hq & Hn & ->). apply Forall2_nil_inv_l in Hn as ->. by apply wp_ret, HQ.
Qed.

Lemma wp_string {A} (Q : A -> SysState -> Prop) a n (work : string -> SysM A) s :
  good s -> is_u64 a -> is_u64 n -> (forall msg s', good s' -> wp (work msg) Q s') ->
  wp (translate_string_and_do env a n work) Q s.
Proof.
  intros Hs Ha Hn HQ. unfold translate_string_and_do. apply wp_bind, wp_bytes; [done..|]. intros buf s' Hs' _ _.
  destruct (from_utf8 buf); [by apply HQ|apply wp_fail].
Qed.
End safe.

(** ** The syscalls *)

Create HintDb safe.
#[export] Hint Resolve one_size_ok pubkey_size_ok size_ok_u64 law_hash_bytes law_signature law_params_size law_sysvar_size
  law_sibling_size law_digest_size law_digest law_program_address law_recover_error law_stake law_vote_stake law_decompress
  law_group_op law_multiply law_pairing law_bn_output law_bn law_bn_compressed law_bn_compress law_poseidon_bytes
  law_poseidon point_size_ok scalar_size_ok compressed_size_ok : safe.
#[export] Hint Extern 2 (is_u64 ?x) =>
  (lazymatch x with
   | Z0 => idtac | Zpos _ => idtac | SYSVAR_NOT_FOUND => idtac | OFFSET_LENGTH_EXCEEDS_SYSVAR => idtac | size_of_Pubkey => idtac
   end; by vm_compute) : safe.
#[export] Hint Extern 2 (size_ok ?x) =>
  (lazymatch x with G1_UNCOMPRESSED_SIZE => idtac | G2_UNCOMPRESSED_SIZE => idtac | GT_SIZE => idtac end; by vm_compute) : safe.
#[export] Hint Extern 1 (binding_ok _) => (cbn [binding_ok]; eauto with safe) : safe.
#[export] Hint Extern 1 (0 <= _) => (cbn; lia) : safe.

(** Allocated memory is still allocated in the next state. *)
Ltac keep :=
  repeat match goal with
  | Hk : kept ?s ?s', H : allocated (sys_host ?s) _ _ |- _ => apply Hk in H
  end;
  repeat match goal with Hk : kept _ _ |- _ => clear Hk end;
  repeat match goal with H : allocated _ _ (binding_size _) |- _ => cbn [binding_size] in H end;
  rewrite ?Z.mul_1_r in *.

Ltac safe_step :=
  lazymatch goal with
  | |- wp (sys_bind _ _) _ _ => apply wp_bind
  | |- wp (sys_ret _) _ _ => apply wp_ret
  | |- wp (sys_fail _) _ _ => apply wp_fail
  | |- wp (sys_throw _) _ _ => apply wp_fail
  | |- wp (sys_get _) _ _ => apply wp_get
  | |- wp (sys_try _) _ _ => apply wp_try; intros ? ?
  | |- wp (sys_consume _) _ _ => eapply wp_consume; [eassumption|intros; keep]
  | |- wp (sys_log_msg _) _ _ => eapply wp_log; [eassumption|intros; keep]
  | |- wp (get_type _ _ _ _) _ _ => eapply wp_type; [eassumption|solve [eauto with safe]..|intros; keep]
  | |- wp (get_bytes _ _ _) _ _ => eapply wp_bytes; [eassumption|solve [eauto with safe]..|intros; keep]
  | |- wp (get_slice _ _ _ _ _) _ _ => eapply wp_slice; [eassumption|solve [eauto with safe]..|intros; keep]
  | |- wp (get_slices _ _ _) _ _ => eapply wp_slices; [eassumption|solve [eauto with safe]..|intros; keep]
  | |- wp (sys_mapM (get_vm_slice _) _) _ _ => eapply wp_vm_slices; [eassumption..|intros; keep]
  | |- wp (translate_mut1 _ _) _ _ => eapply wp_mut1; [eassumption|solve [eauto with safe]|intros; keep]
  | |- wp (translate_mut2 _ _ _) _ _ => eapply wp_mut2; [eassumption|solve [eauto with safe]..|intros; keep]
  | |- wp (translate_string_and_do _ _ _ _) _ _ => eapply wp_string; [eassumption..|intros]
  | |- wp (sys_read _ _) _ _ => eapply wp_read; [eassumption|solve [eauto with safe]|eassumption|intros]
  | |- wp (sys_write _ _) _ _ => eapply wp_write; [eassumption|solve [eauto with safe]|eassumption|intros; keep]
  | |- wp (copy_from_slice _ _ _) _ _ => eapply wp_copy; [eassumption|solve [eauto with safe]|eassumption|intros; keep]
  | |- wp (if ?b then _ else _) _ _ => destruct b eqn:?
  | |- wp (match ?x with _ => _ end) _ _ => destruct x eqn:?
  | |- good _ _ /\ is_u64 _ => split; [assumption|eauto with safe]
  end.
Ltac safe_tac := repeat safe_step.

Section syscalls.
Context (env : SyscallEnvironment) {Laws : EnvironmentLaws env}.
Context (curves : CurveEnvironment) {CLaws : CurveLaws curves}.

Definition safe (p : SysM Z) : Prop := forall s, good env s -> wp p (fun x s' => good env s' /\ is_u64 x) s.

Section args.
Variables a1 a2 a3 a4 a5 : Z.
Context (H1 : is_u64 a1) (H2 : is_u64 a2) (H3 : is_u64 a3) (H4 : is_u64 a4) (H5 : is_u64 a5).

Lemma safe_abort : safe SyscallAbort.
Proof. intros s Hs. apply wp_fail. Qed.

Lemma safe_panic : safe (SyscallPanic env a1 a2 a3 a4).
Proof using H1 H2. intros s Hs. unfold SyscallPanic. safe_tac. Qed.

Lemma safe_log_string : safe (SyscallLog env a1 a2).
Proof using H1 H2. intros s Hs. unfold SyscallLog, program_log. safe_tac. Qed.

Lemma safe_log_numbers : safe (SyscallLogU64 env a1 a2 a3 a4 a5).
Proof. intros s Hs. unfold SyscallLogU64, program_log. safe_tac. Qed.

Lemma safe_log_units : safe (SyscallLogBpfComputeUnits env).
Proof. intros s Hs. unfold SyscallLogBpfComputeUnits. safe_tac. Qed.

Lemma safe_log_pubkey : safe (SyscallLogPubkey env a1).
Proof using H1. intros s Hs. unfold SyscallLogPubkey, program_log. safe_tac. Qed.

Lemma safe_log_data : safe (SyscallLogData env a1 a2).
Proof using H1 H2. intros s Hs. unfold SyscallLogData, program_data. safe_tac. Qed.

(** ** Program addresses *)

Lemma wp_address_inputs Q s :
  good env s -> (forall seeds id s', good env s' -> Q (seeds, id) s') ->
  wp (translate_and_check_program_address_inputs env a1 a2 a3) Q s.
Proof using H1 H2 H3.
  intros Hs HQ. unfold translate_and_check_program_address_inputs. do 3 safe_step; [safe_tac|]. safe_step.
  apply (wp_mapM env _ (fun _ _ => True)); [done| |intros; safe_tac; by apply HQ].
  eapply Forall_impl; [eassumption|]. intros v [? ?] s2 Hs2. safe_step; [safe_tac|]. unfold get_vm_slice.
  eapply wp_bytes; naive_solver.
Qed.

Lemma safe_create_address : safe (SyscallCreateProgramAddress env a1 a2 a3 a4).
Proof using H1 H2 H3 H4 Laws.
  intros s Hs. unfold SyscallCreateProgramAddress. do 2 safe_step. safe_step. apply wp_address_inputs; [done|].
  intros. safe_tac.
Qed.

Lemma safe_bump rounds bump seeds id : (Z.of_nat rounds <= bump <= 255) -> safe (find_bump env rounds bump seeds id a4 a5).
Proof using H4 H5 Laws.
  revert bump. induction rounds as [|rounds IH]; intros bump Hb s Hs; cbn [find_bump]; [safe_tac|].
  assert (sized 1 [bump]) by (split; [by repeat constructor; lia|done]).
  safe_step; [safe_tac|]. safe_step. safe_step. apply IH; [|done]. unfold saturating_sub. lia.
Qed.

Lemma safe_find_address : safe (SyscallTryFindProgramAddress env a1 a2 a3 a4 a5).
Proof using H1 H2 H3 H4 H5 Laws.
  intros s Hs. unfold SyscallTryFindProgramAddress. do 2 safe_step. safe_step. apply wp_address_inputs; [done|].
  intros seeds id s2 Hs2. by apply safe_bump.
Qed.

(** ** The heap *)

Lemma last_removelast {A} (l : list A) x : last l = Some x -> l = removelast l ++ [x].
Proof. intros E. apply last_Some in E as [l' ->]. by rewrite removelast_last. Qed.

Lemma context_alloc_ok size align ic ic' addr :
  0 <= size -> 0 < align -> sys_context_ok env ic -> context_alloc size align ic = (ic', Ok addr) ->
  sys_context_ok env ic' /\ forall a, addr = Some a -> is_u64 a.
Proof.
  intros Hsz Hal Hic. unfold context_alloc, get_syscall_context, set_syscall_context.
  destruct (last (syscall_context ic)) as [[sc|]|] eqn:El; [|done..].
  assert (0 <= alloc_pos (allocator sc)) as Hp.
  { apply last_Some in El as [l E]. pose proof (ctx_heaps _ _ Hic) as Hh. rewrite E in Hh.
    apply Forall_app in Hh as [_ Hh]. by apply (Forall_inv Hh). }
  assert (0 <= align_offset (alloc_pos (allocator sc)) align) as Ho by (apply Z.mod_pos_bound; lia).
  unfold alloc. destruct (_ <=? _); cbn [fst snd]; intros [= <- <-].
  - split; [|intros a [= <-]; split; [by repeat apply saturating_add_nonneg|unfold saturating_add; lia]].
    destruct Hic. split; try done. cbn. apply Forall_app. split.
    + rewrite (last_removelast _ _ El) in ctx_heaps. by apply Forall_app in ctx_heaps as [? _].
    + apply Forall_singleton. intros x [= <-]. cbn. repeat apply saturating_add_nonneg; done.
  - split; [|done]. destruct Hic. split; try done. cbn. apply Forall_app. split.
    + rewrite (last_removelast _ _ El) in ctx_heaps. by apply Forall_app in ctx_heaps as [? _].
    + apply Forall_singleton. by intros x [= <-].
Qed.

Lemma safe_alloc : safe (SyscallAllocFree env a1 a2).
Proof using H1 Laws.
  intros s Hs. unfold SyscallAllocFree. safe_step. eapply wp_aligned; [done|]. intros ca. safe_step; [safe_tac|].
  safe_step; [|safe_tac]. safe_step. apply wp_update with env; [done|]. intros ic x E.
  apply context_alloc_ok in E as [Hic Hx]; [|apply H1|pose proof law_align; destruct ca; lia|apply Hs].
  split; [done|]. intros Hg. apply wp_ret. split; [done|]. destruct x; [by apply Hx|by vm_compute].
Qed.

(** ** Signatures and hashes *)

Lemma safe_recover : safe (SyscallSecp256k1Recover env a1 a2 a3 a4).
Proof using H1 H3 H4 Laws.
  intros s Hs. unfold SyscallSecp256k1Recover. rewrite law_public_key. safe_tac.
  eapply wp_copy; [eassumption| |eassumption|intros; keep; safe_tac].
  destruct (law_recover _ _ _ _ ltac:(eassumption)) as [Hb Hl]. split; [by apply Forall_take, Forall_drop|].
  unfold len in *. rewrite length_take, length_drop. lia.
Qed.

Lemma safe_hash h : safe (SyscallHash env h a1 a2 a3).
Proof using H1 H2 H3 Laws.
  assert (forall v s, slice_ok v -> good env s ->
    wp (hash_value env h v) (fun _ s' => good env s' /\ kept s s' /\ True) s) as Hv.
  { intros v s [Ha Hn] Hs. unfold hash_value, get_vm_slice. safe_step. eapply wp_bytes; [done..|].
    intros bs s1 Hs1 Hk1 _. safe_step. eapply wp_consume; [done|]. intros s2 Hs2 Hk2. apply wp_ret.
    split; [done|]. split; [by eapply kept_trans|done]. }
  intros s Hs. unfold SyscallHash. safe_step; [safe_tac|]. do 5 safe_step. safe_step.
  - do 2 safe_step. eapply (wp_mapM env _ (fun _ _ => True)); [done| |intros; keep; safe_tac].
    eapply Forall_impl; [eassumption|]. intros; by apply Hv.
  - safe_tac.
Qed.

(** ** Sysvars *)

Lemma safe_sysvar v : safe (get_sysvar env v a1).
Proof using H1 Laws.
  intros s Hs. unfold get_sysvar. safe_tac.
  assert (sized (sysvar_size env v) x) by (eapply get_sysvar_sized; [apply law_sysvar_decode|apply law_sysvar_cache|eassumption]).
  safe_tac.
Qed.

Lemma slice_sized bs a b : bytes bs -> 0 <= a <= b -> b <= len bs -> sized (b - a) (slice bs a b).
Proof.
  intros Hb Hab Hl. split; [by apply bytes_slice|]. apply slice_length; lia.
Qed.

Lemma safe_get_sysvar : safe (SyscallGetSysvar env a1 a2 a3 a4).
Proof using H1 H2 H3 H4 Laws.
  intros s Hs. unfold SyscallGetSysvar, add_or_overflow, checked_add. cbv zeta.
  destruct (a3 + a4 <=? u64_MAX), (a2 + a4 <=? u64_MAX); safe_tac.
  assert (sized a4 (slice l a3 (a3 + a4))).
  { replace a4 with (a3 + a4 - a3) at 1 by lia. apply slice_sized; [|unfold is_u in *; lia|lia].
    eapply buffer_bytes; [apply law_sysvar_cache|eassumption]. }
  safe_tac.
Qed.

(** ** Return data *)

Lemma pubkey_at c i k : Forall pubkey_ok (account_keys (accounts c)) -> get_key_of_account_at_index c i = Ok k -> pubkey_ok k.
Proof.
  intros Hk. unfold get_key_of_account_at_index, account_key. destruct (_ !! _) as [f|] eqn:E; [|done]. intros [= <-].
  apply (proj1 (Forall_forall _ _) Hk). unfold account_keys. apply list_elem_of_fmap. exists f. split; [done|].
  by eapply list_elem_of_lookup_2.
Qed.

Lemma program_pubkey c ic k : Forall pubkey_ok (account_keys (accounts c)) -> get_program_key c ic = Ok k -> pubkey_ok k.
Proof.
  intros Hk. unfold get_program_key. destruct (get_index_of_program_account_in_transaction ic); [|done]. by apply pubkey_at.
Qed.

Lemma set_return_data_ok id data ic :
  pubkey_ok id -> bytes data -> is_u64 (len data) -> sys_context_ok env ic ->
  sys_context_ok env (set_context_return_data id data ic).1.
Proof. intros Hid Hb Hl []. by split. Qed.

Lemma safe_set_return_data : safe (SyscallSetReturnData env a1 a2).
Proof using H1 H2 Laws.
  intros s Hs. unfold SyscallSetReturnData. do 3 safe_step; [safe_tac|]. safe_step.
  assert (forall data t, good env t -> bytes data -> is_u64 (len data) ->
    wp (sys! program_id := sys_try current_program_key in
        sys! _ := sys_update (set_context_return_data program_id data) in sys_ret 0)
      (fun x s' => good env s' /\ is_u64 x) t) as Hset.
  { intros data t Ht Hb Hl. do 2 safe_step. safe_step. apply wp_update with env; [done|]. intros ic u E.
    assert (sys_context_ok env ic).
    { replace ic with (set_context_return_data x data (sys_context t)).1 by (by rewrite E).
      destruct Ht as [_ Hc]. apply set_return_data_ok; [|done..].
      unfold current_program_key in *. destruct (get_current_instruction_context _); [|done].
      eapply program_pubkey; [apply Hc|eassumption]. }
    split; [done|]. intros Hg. safe_tac. }
  safe_step; [safe_step; apply Hset; [done|constructor|by vm_compute]|].
  eapply wp_bytes; [done..|]. intros bs s1 Hs1 _ [Hb Hl]. apply Hset; [done..|by rewrite Hl].
Qed.

Lemma safe_get_return_data : safe (SyscallGetReturnData env a1 a2 a3).
Proof using H1 H2 H3 Laws.
  intros s Hs. unfold SyscallGetReturnData. do 4 safe_step. cbv zeta.
  pose proof (ctx_return_id _ _ (proj2 H)) as Hid. destruct (ctx_return_data _ _ (proj2 H)) as [Hb Hl]. cbn [get_return_data].
  set (data := return_data_bytes _) in *. set (id := return_data_pubkey _) in *. clearbody data id.
  set (n := Z.min a2 (len data)). assert (is_u64 n) by (unfold n, is_u, len in *; lia).
  assert (sized n (take (Z.to_nat n) data)).
  { split; [by apply Forall_take|]. unfold len at 1. rewrite length_take. unfold n, is_u, len in *. lia. }
  clearbody n. safe_step. safe_step; safe_tac.
Qed.

(** ** Sibling instructions *)

Definition instruction_ok (i : InstructionContext) : Prop :=
  bytes (ic_instruction_data i) /\ is_u64 (len (ic_instruction_data i)).

Lemma trace_instruction_ok ic index i :
  sys_context_ok env ic -> get_instruction_context_at_index_in_trace (transaction_context ic) index = Ok i -> instruction_ok i.
Proof.
  intros Hc. unfold get_instruction_context_at_index_in_trace. destruct (_ !! _); [|done]. intros [= <-].
  unfold instruction_ok. cbn. destruct (instruction_data _ !! _) eqn:E; cbn; [|split; [constructor|by vm_compute]].
  pose proof (ctx_data _ _ Hc) as Hd. by apply (Forall_lookup_1 _ _ _ _ Hd) in E.
Qed.

Lemma sibling_ok ic height index n count i :
  sys_context_ok env ic -> find_sibling (transaction_context ic) height index n count = Ok (Some i) -> instruction_ok i.
Proof.
  intros Hc. revert count. induction n as [|n IH]; intros count; cbn [find_sibling]; [done|].
  destruct (get_instruction_context_at_index_in_trace _ _) as [j|] eqn:E; [|done]. apply trace_instruction_ok in E; [|done].
  destruct (_ <? _); [done|]. destruct (_ =? _); [|apply IH]. destruct (_ =? _); [by intros [= <-]|apply IH].
Qed.

Lemma sibling_metas_ok c i l ms :
  Forall pubkey_ok (account_keys (accounts c)) -> sibling_metas c i l = Ok ms ->
  length ms = length l /\ Forall (fun m => pubkey_ok (meta_pubkey m)) ms.
Proof.
  intros Hk. revert ms. induction l as [|x l IH]; intros ms; cbn [sibling_metas]; [intros [= <-]; by split; [|constructor]|].
  unfold sibling_meta, get_key_of_instruction_account.
  destruct (get_index_of_instruction_account_in_transaction _ _) as [idx|]; [|done].
  destruct (get_key_of_account_at_index c idx) as [k|] eqn:Ek; [|done].
  destruct (is_instruction_account_signer _ _); [|done]. destruct (is_instruction_account_writable _ _); [|done].
  destruct (sibling_metas c i l) as [rest|]; [|done]. intros [= <-]. destruct (IH rest eq_refl) as [Hl Hr].
  split; [cbn; congruence|]. constructor; [by eapply pubkey_at|done].
Qed.

Lemma encoded_metas ms :
  Forall (fun m => pubkey_ok (meta_pubkey m)) ms ->
  sized (Z.of_nat (length ms) * size_of_meta env) (concat (map (encode_meta env) ms)).
Proof using Laws.
  induction 1 as [|m ms Hm _ [IHb IHl]]; cbn [map concat length]; [by split; [constructor|]|].
  destruct (law_meta m Hm) as [Hb Hl]. split; [by apply Forall_app|]. rewrite len_app. lia.
Qed.

Lemma number_of_accounts_u16 i : 0 <= get_number_of_instruction_accounts i < 2 ^ 16.
Proof. apply (cast_u_range 16). lia. Qed.

Lemma wp_write_sibling i meta_addr (Q : unit -> SysState -> Prop) s :
  good env s -> instruction_ok i -> is_u64 meta_addr ->
  (forall s', good env s' -> Q tt s') -> wp (write_sibling env i (sibling_lengths i) meta_addr a3 a4 a5) Q s.
Proof using H3 H4 H5 Laws.
  intros Hs Hi Hm HQ. unfold write_sibling, sibling_lengths. cbn [fst snd]. pose proof (number_of_accounts_u16 i) as Hn.
  destruct Hi as [Hd Hdl]. pose proof law_meta_size as Hms. safe_step. apply (wp_translate_mut env); [done| |].
  { repeat apply Forall_cons_2; [..|apply Forall_nil_2]; cbn [binding_ok].
    - by split; [apply pubkey_size_ok|].
    - by split; [apply one_size_ok|].
    - split; [done|]. split; [done|]. unfold is_u. lia.
    - by split; [apply law_sibling_size|]. }
  intros ps s1 Hs1 Hps.
  do 4 apply Forall2_cons_inv_l in Hps as (? & ? & ? & Hps & ->). apply Forall2_nil_inv_l in Hps as ->.
  keep. safe_step. safe_step. assert (pubkey_ok x3) by (eapply program_pubkey; [apply (proj2 Hs1)|eassumption]).
  do 2 safe_step. assert (sized (len (ic_instruction_data i)) (ic_instruction_data i)) by done. do 4 safe_step.
  assert (sized (get_number_of_instruction_accounts i * size_of_meta env) (concat (map (encode_meta env) x4))).
  { match goal with E : sibling_metas _ _ _ = Ok _ |- _ => apply sibling_metas_ok in E as [Hl Hk] end.
    - rewrite length_seq in Hl. replace (get_number_of_instruction_accounts i) with (Z.of_nat (length x4)) by lia.
      by apply encoded_metas.
    - match goal with H : good env s'0 |- _ => apply (ctx_keys _ _ (proj2 H)) end. }
  safe_step. by apply HQ.
Qed.

Lemma safe_sibling : safe (SyscallGetProcessedSiblingInstruction env a1 a2 a3 a4 a5).
Proof using H2 H3 H4 H5 Laws.
  intros s Hs. unfold SyscallGetProcessedSiblingInstruction, processed_sibling. do 5 safe_step; [|safe_tac].
  assert (instruction_ok i) by (subst; eapply sibling_ok; [apply (proj2 H)|eassumption]).
  pose proof law_sibling_size as [[? _] _]. do 4 safe_step. cbv zeta. safe_step. safe_step.
  - apply wp_write_sibling; [done..|]. intros. safe_tac.
  - eapply wp_write; [eassumption|apply law_sibling|eassumption|]. intros. safe_tac.
Qed.

(** ** The rest *)

Lemma safe_stack_height : safe (SyscallGetStackHeight env).
Proof.
  intros s Hs. unfold SyscallGetStackHeight. do 3 safe_step. split; [done|]. unfold get_instruction_stack_height.
  apply (ctx_height _ _ (proj2 H)).
Qed.

Lemma safe_remaining : safe (SyscallRemainingComputeUnits env).
Proof.
  intros s Hs. unfold SyscallRemainingComputeUnits. do 3 safe_step. split; [done|]. apply cast_u_range. lia.
Qed.

Lemma safe_epoch_stake : safe (SyscallGetEpochStake env a1).
Proof using H1 Laws. intros s Hs. unfold SyscallGetEpochStake. safe_tac. Qed.

(** ** Curves *)

Lemma wp_store size a r s :
  good env s -> size_ok size -> is_u64 a -> (forall p, r = Some p -> sized size p) ->
  wp (store_result env size a r) (fun x s' => good env s' /\ is_u64 x) s.
Proof. intros Hs Hn Ha Hr. unfold store_result. destruct r as [p|]; [|safe_tac]. specialize (Hr p eq_refl). safe_tac. Qed.

Lemma safe_invalid_curve : safe (invalid_curve env).
Proof. intros s Hs. unfold invalid_curve. safe_tac. Qed.

Lemma safe_curve_validate : safe (SyscallCurvePointValidation env curves a1 a2).
Proof using H2 CLaws.
  intros s Hs. unfold SyscallCurvePointValidation. safe_step; [safe_tac|].
  destruct (group_of curves a1) as [g|]; [|by apply safe_invalid_curve]. safe_tac. by destruct (validate_point _ _ _); vm_compute.
Qed.

Lemma safe_curve_decompress : safe (SyscallCurveDecompress env curves a1 a2 a3).
Proof using H2 H3 CLaws.
  intros s Hs. unfold SyscallCurveDecompress. destruct (bls_group a1) as [g|]; [|safe_tac]. do 4 safe_step.
  apply wp_store; eauto with safe.
Qed.

Lemma safe_curve_group_ops : safe (SyscallCurveGroupOps env curves a1 a2 a3 a4 a5).
Proof using H3 H4 H5 CLaws.
  intros s Hs. unfold SyscallCurveGroupOps. safe_step; [safe_tac|].
  destruct (group_of curves a1) as [g|]; [|by apply safe_invalid_curve].
  destruct (group_op_of curves a2) as [op|];
    [|unfold invalid_group_op; destruct g; first [by apply safe_invalid_curve|apply wp_fail]].
  assert (size_ok match op with GroupMul => scalar_size curves g | _ => point_size curves g end)
    by (destruct op; eauto with safe).
  do 6 safe_step. apply wp_store; eauto with safe.
Qed.

Lemma safe_curve_multiscalar : safe (SyscallCurveMultiscalarMultiplication env curves a1 a2 a3 a4 a5).
Proof using H2 H3 H4 H5 CLaws.
  intros s Hs. unfold SyscallCurveMultiscalarMultiplication. safe_step; [safe_tac|].
  destruct (curve25519_group curves a1) as [g|]; [|by apply safe_invalid_curve]. do 6 safe_step.
  apply wp_store; eauto with safe.
Qed.

Lemma safe_curve_pairing : safe (SyscallCurvePairingMap env curves a1 a2 a3 a4 a5).
Proof using H2 H3 H4 H5 CLaws.
  intros s Hs. unfold SyscallCurvePairingMap. safe_step; [|safe_tac]. do 6 safe_step. apply wp_store; eauto with safe.
Qed.

Lemma wp_with_input output f s :
  good env s -> is_u64 output -> (forall bs p, f bs = Some p -> sized output p) ->
  wp (call_with_input env output a2 a3 a4 f) (fun x s' => good env s' /\ is_u64 x) s.
Proof using H2 H3 H4.
  intros Hs Ho Hf. unfold call_with_input. safe_tac.
Qed.

Lemma safe_alt_bn128 : safe (SyscallAltBn128 env curves a1 a2 a3 a4).
Proof using H2 H3 H4 CLaws.
  intros s Hs. unfold SyscallAltBn128. destruct (alt_bn128_op curves a1) as [[op e]|]; [|safe_tac].
  safe_step; [safe_tac|]. do 2 safe_step. apply wp_with_input; eauto with safe.
Qed.

Lemma safe_alt_bn128_compression : safe (SyscallAltBn128Compression env curves a1 a2 a3 a4).
Proof using H2 H3 H4 CLaws.
  intros s Hs. unfold SyscallAltBn128Compression. destruct (alt_bn128_compression_op curves a1) as [[op e]|]; [|safe_tac].
  safe_step; [safe_tac|]. do 2 safe_step. apply wp_with_input; eauto with safe.
Qed.

Lemma safe_big_mod_exp : safe (SyscallBigModExp env a1 a2).
Proof using H1 H2 Laws.
  intros s Hs. unfold SyscallBigModExp. do 2 safe_step. destruct l as [|bs l]; [safe_tac|].
  destruct (law_params bs) as ([? ?] & [? ?] & [? ?]). unfold big_mod_exp_of, get_vm_slice. cbv zeta. safe_step; [safe_tac|].
  do 10 safe_step. safe_step. eapply wp_copy; [eassumption| |eassumption|intros; safe_tac].
  match goal with H : sized (vs_len (bme_modulus _)) _ |- _ => destruct H as [_ <-] end. apply law_mod_exp.
Qed.

Lemma safe_poseidon : safe (SyscallPoseidon env curves a1 a2 a3 a4 a5).
Proof using H3 H4 H5 CLaws.
  intros s Hs. unfold SyscallPoseidon. destruct (poseidon_parameters curves a1); [|safe_tac].
  destruct (poseidon_endianness curves a2); [|safe_tac]. safe_tac.
Qed.

Lemma safe_mem op : safe (sys_mem env op a1 a2 a3 a4).
Proof using H1 H2 H3 H4.
  intros s [Hm Hc]. destruct (ctx_aligned _ _ Hc) as [ca Hca].
  destruct (mem_syscall_spec (costs env) (loader_deprecated_id env) op (sys_context s) a1 a2 a3 a4 (sys_mapping s)
    (sys_host s) ca H1 H2 H3 H4 Hm Hca) as (ic' & m' & host' & r & E & [Hp _ _] & [[? ? _] _ Hb _]).
  unfold wp, sys_mem. rewrite E. eexists _, _. split; [done|]. intros x Hx. destruct (Hb x Hx) as [-> Hbk].
  split; [|by vm_compute]. split; [by split|]. cbn. subst ic'. by apply meter_context_ok.
Qed.
End args.
End syscalls.
