(* ===== verification/SyscallSpecs.v ===== *)
(** What some syscalls compute: return data is handed over, the sibling instructions are those a
    reference definition lists, and a program address is found with the highest bump seed. *)

From Stdlib Require Import ZArith Lia Bool.
From stdpp Require Import strings.
From S2P Require Import Prelude.
From S2P Require Import SbpfTypes.
From S2P Require Import Ebpf.
From S2P Require Import MemoryRegion.
From S2P Require Import Mapping.
From S2P Require Import MappingSafe.
From S2P Require Import TxAccounts.
From S2P Require Import Exec.
From S2P Require Import TxContext.
From S2P Require Import TxSafe.
From S2P Require Import InvokeContext.
From S2P Require Import InvokeSafe.
From S2P Require Import ExecutionCost.
From S2P Require Import SysvarCache.
From S2P Require Import MemOps.
From S2P Require Import MemOpsSafe.
From S2P Require Import Syscalls.
From S2P Require Import SyscallLaws.
From S2P Require Import SyscallsSafe.

#[local] Open Scope Z_scope.

(** ** Successful runs *)

Lemma sys_bind_ok {A B} (p : SysM A) (k : A -> SysM B) s s' y :
  sys_bind p k s = Some (s', Ok y) -> exists s1 x, p s = Some (s1, Ok x) /\ k x s1 = Some (s', Ok y).
Proof.
  unfold sys_bind. destruct (p s) as [[s1 [x|e]]|]; [|done..]. cbn [mbind option_bind]. intros E. by exists s1, x.
Qed.

Lemma bind_run {A B} (p : SysM A) (k : A -> SysM B) s s1 x : p s = Some (s1, Ok x) -> sys_bind p k s = k x s1.
Proof. unfold sys_bind. by intros ->. Qed.

Lemma consume_ok n s s' : sys_consume n s = Some (s', Ok tt) ->
  exists x, s' = set_sys_context (set_compute_meter x (sys_context s)) s.
Proof. intros [= <- _]. by eexists. Qed.

Lemma wp_result {A} (p : SysM A) Q s s' x : wp p Q s -> p s = Some (s', Ok x) -> Q x s'.
Proof. intros (s1 & r & E & H) E'. rewrite E in E'. injection E' as -> ->. by apply H. Qed.

Section specs.
Context (env : SyscallEnvironment) {Laws : EnvironmentLaws env}.

(** The same context and log, and the same memory but for what the tracker and the cache know. *)
Record looks (s s' : SysState) : Prop := {
  looks_good : good env s';
  looks_context : sys_context s' = sys_context s;
  looks_host : sys_host s' = sys_host s;
  looks_regions : same_regions (sys_mapping s) (sys_mapping s')
}.

Lemma looks_refl s : good env s -> looks s s.
Proof. intros H. split; [done..|]. destruct H as [[? ? _] _]. by split; [apply step_refl|]. Qed.

Lemma looks_trans s1 s2 s3 : looks s1 s2 -> looks s2 s3 -> looks s1 s3.
Proof. intros [? ? ? ?] [? ? ? ?]. split; [done|congruence|congruence|by eapply same_trans]. Qed.

Lemma aligned_ok s s' ca : sys_check_aligned env s = Some (s', Ok ca) -> s' = s.
Proof. unfold sys_check_aligned. destruct (get_check_aligned _ _); [|done]. by intros [= <- _]. Qed.

(** A range of the guest that is at a host address. *)
Definition at_host (s : SysState) (ty : AccessType) (a n p : Z) : Prop :=
  n <> 0 -> translates (sys_mapping s) ty a n p.

Lemma at_host_looks s s' ty a n p : looks s s' -> at_host s ty a n p -> at_host s' ty a n p.
Proof. intros [_ _ _ Hr] H Hn. eapply translates_same; [exact Hr|by apply H]. Qed.

Lemma map_type_ok size align ty a ca s s' p :
  good env s -> is_u64 a -> is_u64 size ->
  sys_translate (fun m => translate_type_inner size align m ty a ca) s = Some (s', Ok p) ->
  looks s s' /\ at_host s' ty a size p.
Proof.
  intros [Hm Hc] Ha Hs. unfold sys_translate, translate_type_inner, translate_inner.
  destruct (mapping_map (sys_mapping s) ty a size) as [m1 r1] eqn:E.
  apply mapping_map_spec in E as (Hsame & _ & Ht); [|apply Hm..].
  assert (looks s (set_sys_memory m1 (sys_host s) s)) as Hl by (split; [split; [by eapply same_memory|done]|done..]).
  destruct r1 as [h|]; cbn [map_err]; [|done]. destruct (negb ca); [|destruct (negb _); [done|]];
    intros [= <- <-]; (split; [done|]); intros _; by apply Ht.
Qed.

Lemma map_slice_ok align ty a n ca s s' p :
  good env s -> is_u64 a -> is_u64 n ->
  sys_translate (fun m => translate_slice_inner 1 align m ty a n ca) s = Some (s', Ok p) ->
  looks s s' /\ at_host s' ty a n (hs_ptr p).
Proof.
  intros [Hm Hc] Ha Hn. unfold sys_translate, translate_slice_inner, at_host.
  destruct (Z.eqb_spec n 0) as [->|Hne]; [intros [= <- <-]; split; [|done]; destruct s; by apply looks_refl|].
  replace (saturating_mul n 1) with n by (unfold saturating_mul, is_u in *; lia).
  destruct (_ <? _); [done|]. unfold translate_inner. destruct (mapping_map (sys_mapping s) ty a n) as [m1 r1] eqn:E.
  apply mapping_map_spec in E as (Hsame & _ & Ht); [|apply Hm..].
  assert (looks s (set_sys_memory m1 (sys_host s) s)) as Hl by (split; [split; [by eapply same_memory|done]|done..]).
  destruct r1 as [h|]; cbn [map_err]; [|done]. destruct (ca && _); [done|]. intros [= <- <-]. split; [done|]. intros _. by apply Ht.
Qed.

(** Bytes that are read. *)
Lemma get_bytes_ok a n s s' bs :
  good env s -> is_u64 a -> is_u64 n -> get_bytes env a n s = Some (s', Ok bs) ->
  looks s s' /\ exists p, at_host s' Load a n p /\ host_read (sys_host s') p (Z.to_nat n) = Some bs.
Proof.
  intros Hs Ha Hn. unfold get_bytes. intros (s1 & ca & ->%aligned_ok & E)%sys_bind_ok.
  apply sys_bind_ok in E as (s2 & p & E & Er). apply map_slice_ok in E as [Hl Hp]; [|done..].
  unfold sys_read in Er. destruct (host_read _ _ _) as [x|] eqn:Ex; [|done]. injection Er as <- <-.
  split; [done|]. by exists (hs_ptr p).
Qed.

(** ** Writable memory *)

Definition binding_addr (b : Binding) : Z := match b with BindType _ _ a => a | BindSlice _ _ a _ => a end.

(** Values, and slices of bytes. *)
Definition byte_binding (b : Binding) : Prop :=
  binding_ok b /\ match b with BindType _ _ _ => True | BindSlice size _ _ _ => size = 1 end.

Definition bound_at (s : SysState) (b : Binding) (r : Z * Z) : Prop :=
  at_host s Store (binding_addr b) (binding_size b) r.1 /\ r.2 = binding_size b.

Lemma map_binding_ok b s s' r :
  good env s -> byte_binding b -> map_binding env b s = Some (s', Ok r) -> looks s s' /\ bound_at s' b r.
Proof.
  intros Hs [Hb Hbyte]. unfold map_binding. intros (s1 & ca & ->%aligned_ok & E)%sys_bind_ok.
  destruct b as [size align a|size align a n]; cbn in Hb; apply sys_bind_ok in E as (s2 & p & E & [= <- <-]).
  - apply map_type_ok in E as [Hl Hp]; [by split|done|apply Hb..].
  - subst size. apply map_slice_ok in E as [Hl Hp]; [|done|apply Hb..]. split; [done|].
    unfold bound_at. cbn. rewrite Z.mul_1_r. split; [done|]. destruct Hb as (_ & _ & Hn).
    unfold saturating_mul, is_u in *. lia.
Qed.

Lemma map_bindings_ok l s s' rs :
  good env s -> Forall byte_binding l -> sys_mapM (map_binding env) l s = Some (s', Ok rs) ->
  looks s s' /\ Forall2 (bound_at s') l rs.
Proof.
  intros Hs Hl. revert s Hs rs. induction Hl as [|b l Hb _ IH]; intros s Hs rs; cbn [sys_mapM].
  { intros [= <- <-]. by split; [apply looks_refl|constructor]. }
  intros (s1 & r & E1 & (s2 & rs' & E2 & [= <- <-])%sys_bind_ok)%sys_bind_ok.
  apply map_binding_ok in E1 as [Hl1 [Hat Hsz]]; [|done..]. apply IH in E2 as [Hl2 Hrs]; [|apply Hl1].
  split; [by eapply looks_trans|]. constructor; [|done]. split; [by eapply at_host_looks|done].
Qed.

(** A state in which memory may have been made writable. *)
Record writes (s s' : SysState) : Prop := {
  writes_good : good env s';
  writes_context : sys_context s' = sys_context s
}.

Lemma touches_ok l s s' us : good env s -> sys_mapM touch_binding l s = Some (s', Ok us) -> writes s s'.
Proof.
  intros Hs E. split; [by apply (wp_result _ (fun _ s' => good env s') _ _ us (wp_touches env _ l s Hs (fun _ _ H => H)))|].
  revert s us Hs E. induction l as [|b l IH]; intros s us Hs; cbn [sys_mapM]; [by intros [= <- _]|].
  intros (s1 & u & E1 & (s2 & us' & E2 & [= <- _])%sys_bind_ok)%sys_bind_ok.
  assert (good env s1) as Hs1.
  { apply (wp_result (sys_mapM touch_binding [b]) (fun _ s' => good env s') s s1 [u]);
      [by apply (wp_touches env)|]. cbn [sys_mapM]. unfold sys_bind. rewrite E1. by destruct u. }
  rewrite (IH _ _ Hs1 E2). destruct b; cbn [touch_binding] in E1; unfold sys_touch in E1;
    [destruct (touch_type_mut _ _ _ _) as [[? ?] ?]|destruct (touch_slice_mut _ _ _ _ _) as [[? ?] ?]]; by injection E1 as <-.
Qed.

Lemma translate_mut_ok l s s' ps :
  good env s -> Forall byte_binding l -> translate_mut env l s = Some (s', Ok ps) ->
  writes s s' /\ exists rs, Forall2 (bound_at s') l rs /\ nonoverlapping rs = true /\ ps = map fst rs.
Proof.
  intros Hs Hl. unfold translate_mut.
  intros (s1 & us & E1 & (s2 & rs & E2 & E3)%sys_bind_ok)%sys_bind_ok. apply touches_ok in E1 as [Hg1 Hc1]; [|done].
  apply map_bindings_ok in E2 as [[Hg2 Hc2 _ _] Hrs]; [|done..].
  destruct (nonoverlapping rs) eqn:En; [|done]. injection E3 as <- <-. split; [split; [done|congruence]|]. by exists rs.
Qed.

Lemma nonoverlapping_disjoint p n q k :
  0 <= n -> 0 <= k -> is_nonoverlapping p n q k = true -> p + n <= q \/ q + k <= p.
Proof.
  unfold is_nonoverlapping, saturating_sub. intros. destruct (Z.ltb_spec q p); rewrite Z.leb_le in *; lia.
Qed.

Lemma mut2_ok a b s s' p q :
  good env s -> byte_binding a -> byte_binding b -> translate_mut2 env a b s = Some (s', Ok (p, q)) ->
  writes s s' /\ at_host s' Store (binding_addr a) (binding_size a) p /\ at_host s' Store (binding_addr b) (binding_size b) q /\
  is_nonoverlapping p (binding_size a) q (binding_size b) = true.
Proof.
  intros Hs Ha Hb. unfold translate_mut2. intros (s1 & ps & E1 & E2)%sys_bind_ok.
  apply translate_mut_ok in E1 as [Hw (rs & Hrs & Hn & ->)]; [|done|by do 2 (apply Forall_cons_2; [done|]); apply Forall_nil_2].
  apply Forall2_cons_inv_l in Hrs as ([p' n] & ? & [Hp Hpn] & Hrs & ->).
  apply Forall2_cons_inv_l in Hrs as ([q' k] & ? & [Hq Hqk] & Hrs & ->). apply Forall2_nil_inv_l in Hrs as ->.
  cbn in *. injection E2 as <- <- <-. subst. by rewrite !andb_true_r in Hn.
Qed.

(** Two writes to ranges that do not overlap. *)
Lemma sys_write_ok p bs s s' : sys_write p bs s = Some (s', Ok tt) ->
  sys_context s' = sys_context s /\ sys_mapping s' = sys_mapping s /\ written (sys_host s) p bs (sys_host s').
Proof.
  unfold sys_write. destruct (host_write _ _ _) as [h|] eqn:E; [|done]. intros [= <-]. do 2 (split; [done|]).
  by apply host_write_written.
Qed.

Lemma copy_ok p n bs s s' : copy_from_slice p n bs s = Some (s', Ok tt) -> len bs = n /\ sys_write p bs s = Some (s', Ok tt).
Proof. unfold copy_from_slice. destruct (Z.eqb_spec (len bs) n); [done|done]. Qed.

Lemma two_writes p bs q cs s s1 s2 :
  is_nonoverlapping p (len bs) q (len cs) = true ->
  sys_write p bs s = Some (s1, Ok tt) -> sys_write q cs s1 = Some (s2, Ok tt) ->
  sys_context s2 = sys_context s /\ sys_mapping s2 = sys_mapping s /\
  host_read (sys_host s2) p (length bs) = Some bs /\ host_read (sys_host s2) q (length cs) = Some cs.
Proof.
  intros Hn (Ec1 & Em1 & [Hr1 _])%sys_write_ok (Ec2 & Em2 & [Hr2 Hf2])%sys_write_ok.
  split; [congruence|]. split; [congruence|]. split; [|done].
  apply host_read_lookups. intros i b Hi. pose proof (lookup_lt_Some _ _ _ Hi) as Hlt. rewrite Hf2.
  - by eapply host_read_lookup.
  - apply nonoverlapping_disjoint in Hn; [|unfold len; lia..]. unfold len in *. lia.
Qed.

(** What a read of the guest's memory gives. *)
Definition reads (s : SysState) (ty : AccessType) (a : Z) (bs : list Z) : Prop :=
  bs <> [] -> exists p, translates (sys_mapping s) ty a (len bs) p /\ host_read (sys_host s) p (length bs) = Some bs.

Lemma at_host_reads s ty a n p bs :
  len bs = n -> at_host s ty a n p -> host_read (sys_host s) p (length bs) = Some bs -> reads s ty a bs.
Proof. intros <- Hp Hr Hne. exists p. split; [|done]. apply Hp. destruct bs; [done|]. unfold len. cbn. lia. Qed.

Lemma reads_eq s s' ty a bs :
  sys_mapping s' = sys_mapping s -> sys_host s' = sys_host s -> reads s ty a bs -> reads s' ty a bs.
Proof. unfold reads. by intros -> ->. Qed.

(** ** Return data *)

Abbreviation return_data s := (get_return_data (transaction_context (sys_context s))).

Lemma set_return_data_spec a n s s' x :
  good env s -> is_u64 a -> is_u64 n -> SyscallSetReturnData env a n s = Some (s', Ok x) ->
  exists id data, current_program_key (sys_context s) = Ok id /\ len data = n /\ reads s' Load a data /\
    sys_host s' = sys_host s /\ return_data s' = (id, data).
Proof.
  intros Hs Ha Hn. unfold SyscallSetReturnData. intros (s1 & [] & E1 & E)%sys_bind_ok.
  apply consume_ok in E1 as [meter ->]. set (s1 := set_sys_context _ s) in *.
  assert (good env s1) as Hs1 by (destruct Hs; split; [done|by apply meter_context_ok]).
  destruct (_ <? n); [done|]. apply sys_bind_ok in E as (s2 & data & E2 & E).
  assert (looks s1 s2 /\ len data = n /\ reads s2 Load a data) as (Hl & Hlen & Hread).
  { destruct (Z.eqb_spec n 0) as [->|Hne].
    - injection E2 as E2 Ed. subst s2 data. split; [by apply looks_refl|]. split; [done|]. intros H. done.
    - pose proof E2 as E2'. apply get_bytes_ok in E2 as [Hl (p & Hp & Hr)]; [|done..].
      assert (len data = n) as Hlen.
      { apply (wp_result (get_bytes env a n) (fun bs _ => len bs = n) s1 s2 data); [|done].
        apply (wp_bytes env); [done..|]. by intros bs ? ? ? [_ ?]. }
      split; [done|]. split; [done|]. eapply at_host_reads; [done|done|].
      by replace (length data) with (Z.to_nat n) by (unfold len in *; lia). }
  apply sys_bind_ok in E as (s3 & id & E3 & E). apply sys_bind_ok in E as (s4 & [] & E4 & [= <- _]).
  unfold sys_try in E3. destruct (current_program_key (sys_context s2)) as [k|] eqn:Ek; [|done]. injection E3 as <- <-.
  exists k, data. rewrite (looks_context _ _ Hl) in Ek. split; [exact Ek|]. split; [done|].
  injection E4 as <-. split; [by eapply reads_eq; [..|exact Hread]|]. split; [apply (looks_host _ _ Hl)|done].
Qed.

Lemma get_return_data_spec a n id_addr s s' x :
  good env s -> is_u64 a -> is_u64 n -> is_u64 id_addr -> SyscallGetReturnData env a n id_addr s = Some (s', Ok x) ->
  let '(id, data) := return_data s in
  let copied := take (Z.to_nat n) data in
  x = len data /\ reads s' Store a copied /\ (copied <> [] -> reads s' Store id_addr id).
Proof using Laws.
  intros Hs Ha Hn Hid. unfold SyscallGetReturnData. intros (s1 & [] & E1 & E)%sys_bind_ok.
  apply consume_ok in E1 as [meter ->]. set (s1 := set_sys_context _ s) in *.
  assert (good env s1) as Hs1 by (destruct Hs; split; [done|by apply meter_context_ok]).
  apply sys_bind_ok in E as (? & [id data] & [= <- Eid Edata] & E). cbn [get_return_data] in *.
  pose proof (ctx_return_id _ _ (proj2 Hs)) as [_ Hk]. destruct (ctx_return_data _ _ (proj2 Hs)) as [_ Hdl].
  cbn in Eid, Edata. rewrite Eid in Hk. rewrite Edata in Hdl. rewrite Eid, Edata.
  apply sys_bind_ok in E as (s2 & [] & E2 & [= <- <-]). split; [done|].
  assert (take (Z.to_nat n) data = take (Z.to_nat (Z.min n (len data))) data) as Et.
  { destruct (Z.le_ge_cases n (len data)); [by rewrite Z.min_l|]. rewrite Z.min_r by done.
    rewrite !take_ge by (unfold len in *; lia). done. }
  rewrite Et. set (k := Z.min n (len data)) in *. assert (is_u64 k) as Hku by (unfold k, is_u, len in *; lia).
  assert (len (take (Z.to_nat k) data) = k) as Hlk by (unfold len; rewrite length_take; unfold k, is_u, len in *; lia).
  destruct (Z.eqb_spec k 0) as [E0|Hne]; cbn [negb] in E2.
  { rewrite E0. cbn [Z.to_nat take]. split; intros H; done. }
  apply sys_bind_ok in E2 as (s3 & [] & [meter' ->]%consume_ok & E2). apply sys_bind_ok in E2 as (s4 & [p q] & E4 & E2).
  apply mut2_ok in E4 as (Hw & Hp & Hq & Hov);
    [|destruct Hs1; split; [done|by apply meter_context_ok]|done|done]. cbn [binding_addr binding_size] in *.
  rewrite Z.mul_1_r in *. apply sys_bind_ok in E2 as (s5 & [] & E5 & E6).
  destruct (two_writes p (take (Z.to_nat k) data) q id s4 s5 s2) as (_ & Em & Hr1 & Hr2); [by rewrite Hlk, Hk|done|done|].
  split; [|intros _]; (eapply at_host_reads; [|unfold at_host; rewrite Em; eassumption|done]); done.
Qed.

(** C13. Return data is handed over. When a program sets return data, it is the bytes of its memory
    and is kept under the key of the program; whoever asks while it is kept is told its length and
    gets as many bytes of it as fit, with the key, in two ranges of memory that do not overlap. *)
Theorem return_data_round_trip a n s s1 x :
  good env s -> is_u64 a -> is_u64 n -> SyscallSetReturnData env a n s = Some (s1, Ok x) ->
  exists id data, current_program_key (sys_context s) = Ok id /\ len data = n /\ reads s1 Load a data /\
  sys_host s1 = sys_host s /\
  forall b m id_addr s2 s3 y,
    good env s2 -> is_u64 b -> is_u64 m -> is_u64 id_addr -> return_data s2 = return_data s1 ->
    SyscallGetReturnData env b m id_addr s2 = Some (s3, Ok y) ->
    y = n /\ reads s3 Store b (take (Z.to_nat m) data) /\ (take (Z.to_nat m) data <> [] -> reads s3 Store id_addr id).
Proof using Laws.
  intros Hs Ha Hn E. apply set_return_data_spec in E as (id & data & Hid & Hlen & Hread & Hh & Hrd); [|done..].
  exists id, data. do 4 (split; [done|]). intros b m id_addr s2 s3 y Hs2 Hb Hm Hi Hsame E.
  apply get_return_data_spec in E; [|done..]. rewrite Hsame, Hrd in E. rewrite <- Hlen. done.
Qed.

(** ** Program addresses *)

(** The address with a bump seed. *)
Abbreviation derive seeds id bump := (create_program_address env (seeds ++ [[bump]]) id).

(** What the search leaves behind. *)
Definition found_bump (seeds : list (list Z)) (id : Pubkey) (top address_addr bump_addr : Z) (s' : SysState) (r : Z) : Prop :=
  (r = 1 /\ forall bump, 1 <= bump <= top -> derive seeds id bump = None) \/
  (r = 0 /\ exists bump address, 1 <= bump <= top /\ derive seeds id bump = Some address /\
     (forall higher, bump < higher <= top -> derive seeds id higher = None) /\
     reads s' Store bump_addr [bump] /\ reads s' Store address_addr address).

Lemma find_bump_spec rounds seeds id address_addr bump_addr s s' r :
  (rounds <= 255)%nat -> good env s -> is_u64 address_addr -> is_u64 bump_addr ->
  find_bump env rounds (Z.of_nat rounds) seeds id address_addr bump_addr s = Some (s', Ok r) ->
  found_bump seeds id (Z.of_nat rounds) address_addr bump_addr s' r.
Proof using Laws.
  intros Hr Hs Ha Hb. revert Hr s Hs. induction rounds as [|rounds IH]; intros Hr s Hs; cbn [find_bump].
  { intros [= _ <-]. left. split; [done|]. lia. }
  destruct (derive seeds id (Z.of_nat (S rounds))) as [address|] eqn:Ed.
  - intros (s1 & [p q] & E1 & (s2 & [] & E2 & (s3 & [] & [Hlen E3]%copy_ok & [= <- <-])%sys_bind_ok)%sys_bind_ok)%sys_bind_ok.
    apply mut2_ok in E1 as (_ & Hp & Hq & Hov); [|done..]. cbn [binding_addr binding_size] in *. rewrite Z.mul_1_r in *.
    destruct (two_writes p [Z.of_nat (S rounds)] q address s1 s2 s3) as (_ & Em & Hr1 & Hr2); [by rewrite Hlen|done|done|].
    right. split; [done|]. exists (Z.of_nat (S rounds)), address. split; [lia|]. split; [done|]. split; [lia|].
    split; (eapply at_host_reads; [|unfold at_host; rewrite Em; eassumption|done]); done.
  - intros (s1 & [] & [meter ->]%consume_ok & E)%sys_bind_ok.
    replace (saturating_sub (Z.of_nat (S rounds)) 1) with (Z.of_nat rounds) in E by (unfold saturating_sub; lia).
    apply IH in E; [|lia|destruct Hs; split; [done|by apply meter_context_ok]].
    assert (forall bump, Z.of_nat rounds < bump <= Z.of_nat (S rounds) -> derive seeds id bump = None) as Htop.
    { intros bump Hbump. by replace bump with (Z.of_nat (S rounds)) by lia. }
    destruct E as [[-> Hn]|(-> & bump & address & H1 & H2 & H3 & H4)]; [left|right]; (split; [done|]).
    + intros bump Hbump. destruct (decide (bump <= Z.of_nat rounds)); [apply Hn; lia|apply Htop; lia].
    + exists bump, address. split; [lia|]. split; [done|]. split; [|done]. intros higher Hh.
      destruct (decide (higher <= Z.of_nat rounds)); [apply H3; lia|apply Htop; lia].
Qed.

(** C14. The search for a program address finds the highest bump seed. With the seeds and the program
    that the arguments describe, [sol_try_find_program_address] returns 1 when no bump seed from 255
    down to 1 gives an address, and else 0, with the highest one that does and its address in the
    two ranges of memory that the arguments name. *)
Theorem program_address_highest a1 a2 a3 a4 a5 s s' r :
  good env s -> is_u64 a1 -> is_u64 a2 -> is_u64 a3 -> is_u64 a4 -> is_u64 a5 ->
  SyscallTryFindProgramAddress env a1 a2 a3 a4 a5 s = Some (s', Ok r) ->
  exists s1 s2 seeds id,
    sys_consume (create_program_address_units (costs env)) s = Some (s1, Ok tt) /\
    translate_and_check_program_address_inputs env a1 a2 a3 s1 = Some (s2, Ok (seeds, id)) /\
    found_bump seeds id 255 a4 a5 s' r.
Proof using Laws.
  intros Hs H1 H2 H3 H4 H5. unfold SyscallTryFindProgramAddress.
  intros (s1 & [] & E1 & (s2 & [seeds id] & E2 & E)%sys_bind_ok)%sys_bind_ok. exists s1, s2, seeds, id. do 2 (split; [done|]).
  apply consume_ok in E1 as [meter ->].
  apply (find_bump_spec 255 seeds id a4 a5 s2); [lia| |done|done|exact E].
  refine (wp_result _ (fun _ t => good env t) _ s2 _ _ E2). apply wp_address_inputs; [done..| |done]. destruct Hs. split; [done|by apply meter_context_ok].
Qed.

(** ** Sysvars *)

Lemma mut1_ok b s s' p :
  good env s -> byte_binding b -> translate_mut1 env b s = Some (s', Ok p) ->
  writes s s' /\ at_host s' Store (binding_addr b) (binding_size b) p.
Proof.
  intros Hs Hb. unfold translate_mut1. intros (s1 & ps & E1 & E2)%sys_bind_ok.
  apply translate_mut_ok in E1 as [Hw (rs & Hrs & _ & ->)]; [|done|by apply Forall_cons_2].
  apply Forall2_cons_inv_l in Hrs as ([p' n] & ? & [Hp _] & Hrs & ->). apply Forall2_nil_inv_l in Hrs as ->.
  cbn in E2. injection E2 as <- <-. done.
Qed.

Lemma get_type_ok size align a s s' bs :
  good env s -> is_u64 a -> size_ok size -> get_type env size align a s = Some (s', Ok bs) ->
  looks s s' /\ len bs = size /\ reads s' Load a bs.
Proof.
  intros Hs Ha Hn E. assert (len bs = size) as Hlen.
  { apply (wp_result (get_type env size align a) (fun bs _ => len bs = size) s s' bs); [|done].
    apply (wp_type env); [done..|]. by intros ? ? ? ? [_ ?]. }
  revert E. unfold get_type. intros (s1 & ca & ->%aligned_ok & E)%sys_bind_ok.
  apply sys_bind_ok in E as (s2 & p & E & Er). apply map_type_ok in E as [Hl Hp]; [|done|done|apply Hn].
  unfold sys_read in Er. destruct (host_read _ _ _) as [x|] eqn:Ex; [|done]. injection Er as <- <-.
  split; [done|]. split; [done|]. eapply at_host_reads; [done|done|].
  by replace (length x) with (Z.to_nat size) by (unfold len in *; lia).
Qed.

(** C25. [sol_get_sysvar] copies a part of the sysvar it is asked for: with the key that is at the
    address it is given once the target is writable, it returns 2 when no such sysvar is cached,
    1 when the part reaches past the end of the sysvar, and else 0, with exactly that part of its
    bytes in memory. *)
Theorem get_sysvar_copies id_addr var_addr offset length s s' r :
  good env s -> is_u64 id_addr -> is_u64 var_addr -> is_u64 offset -> is_u64 length ->
  SyscallGetSysvar env id_addr var_addr offset length s = Some (s', Ok r) ->
  exists units s1 var s2 id,
    (sys! _ := sys_consume units in translate_mut1 env (BindSlice 1 1 var_addr length)) s = Some (s1, Ok var) /\
    get_type env size_of_Pubkey 1 id_addr s1 = Some (s2, Ok id) /\ reads s2 Load id_addr id /\
    match sysvar_id_to_buffer (sysvar_id env) (sysvar_cache env) id with
    | None => r = SYSVAR_NOT_FOUND
    | Some buf =>
        if offset + length <=? len buf then r = 0 /\ reads s' Store var_addr (slice buf offset (offset + length))
        else r = OFFSET_LENGTH_EXCEEDS_SYSVAR
    end.
Proof.
  intros Hs H1 H2 H3 H4. unfold SyscallGetSysvar. cbv zeta. intros (s1 & [] & E1 & E)%sys_bind_ok.
  destruct (_ && _); [done|]. apply sys_bind_ok in E as (s2 & var & E2 & E).
  eexists _, s2, var. rewrite (bind_run _ _ _ _ _ E1), E2. apply consume_ok in E1 as [meter ->].
  apply mut1_ok in E2 as [[Hg2 _] Hvar]; [|destruct Hs; split; [done|by apply meter_context_ok]|done].
  cbn [binding_addr binding_size] in Hvar. rewrite Z.mul_1_r in Hvar.
  apply sys_bind_ok in E as (s3 & id & E3 & E). exists s3, id. split; [done|]. split; [done|].
  apply get_type_ok in E3 as (Hl3 & _ & Hread); [|done..]. split; [done|].
  unfold add_or_overflow, checked_add in E. destruct (offset + length <=? u64_MAX); [|done].
  destruct (var_addr + length <=? u64_MAX); [|done].
  apply sys_bind_ok in E as (? & ? & [= <- <-] & E). apply sys_bind_ok in E as (? & ? & [= <- <-] & E).
  destruct (sysvar_id_to_buffer _ _ id) as [buf|]; [|by injection E].
  destruct (offset + length <=? len buf); [|by injection E]. apply sys_bind_ok in E as (s4 & [] & E4 & [= <- <-]).
  split; [done|]. apply copy_ok in E4 as [Hlen E4]. apply sys_write_ok in E4 as (_ & Em & [Hr _]).
  apply (at_host_looks s2 s3) in Hvar; [|done]. eapply at_host_reads; [exact Hlen|unfold at_host; rewrite Em; exact Hvar|exact Hr].
Qed.
End specs.

(** ** Sibling instructions *)

(** The longest prefix of which every element satisfies the test. *)
Fixpoint take_while {A} (f : A -> bool) (l : list A) : list A :=
  match l with [] => [] | x :: l => if f x then x :: take_while f l else [] end.

(** The first instructions of the trace, the latest first. *)
Definition latest_first (c : TransactionContext) (n : nat) : list InstructionContext :=
  omap (fun i => match get_instruction_context_at_index_in_trace c (Z.of_nat i) with Ok ic => Some ic | Err _ => None end)
    (reverse (seq 0 n)).

(** Reference: back to the first that is lower on the stack, those of the same height. *)
Definition siblings (c : TransactionContext) (height : Z) (n : nat) : list InstructionContext :=
  List.filter (fun ic => get_stack_height ic =? height)
    (take_while (fun ic => height <=? get_stack_height ic) (latest_first c n)).

Lemma latest_first_S c n ic :
  get_instruction_context_at_index_in_trace c (Z.of_nat n) = Ok ic -> latest_first c (S n) = ic :: latest_first c n.
Proof. intros E. unfold latest_first. rewrite seq_S, reverse_snoc. cbn. by rewrite E. Qed.

Lemma siblings_length c height n : (length (siblings c height n) <= n)%nat.
Proof.
  unfold siblings. etransitivity; [apply filter_length_le|].
  assert (forall f (l : list InstructionContext), (length (take_while f l) <= length l)%nat) as Ht.
  { intros f l. induction l as [|x l IH]; cbn; [lia|]. destruct (f x); cbn; lia. }
  assert (forall (f : nat -> option InstructionContext) l, (length (omap f l) <= length l)%nat) as Ho.
  { intros f l. induction l as [|x l IH]; cbn; [lia|]. destruct (f x); cbn; lia. }
  etransitivity; [apply Ht|]. unfold latest_first. etransitivity; [apply Ho|]. by rewrite length_reverse, length_seq.
Qed.

Lemma find_sibling_spec c height index n count :
  (n <= length (instruction_trace c))%nat -> 0 <= count <= saturating_add index 1 -> count + Z.of_nat n < 2 ^ 64 ->
  find_sibling c height index n count = Ok (siblings c height n !! Z.to_nat (saturating_add index 1 - count)).
Proof.
  set (k := saturating_add index 1). revert count. induction n as [|n IH]; intros count Hn Hc Hb; cbn [find_sibling].
  { by change (siblings c height 0) with (@nil InstructionContext). }
  destruct (get_instruction_context_at_index_in_trace c (Z.of_nat n)) as [ic|e] eqn:E.
  2:{ exfalso. unfold get_instruction_context_at_index_in_trace in E. rewrite Nat2Z.id in E.
      destruct (lookup_lt_is_Some_2 (instruction_trace c) n) as [x Hx]; [lia|]. by rewrite Hx in E. }
  unfold siblings. rewrite (latest_first_S _ _ _ E). cbn [take_while].
  destruct (Z.ltb_spec (get_stack_height ic) height); [by rewrite (proj2 (Z.leb_gt _ _))|].
  rewrite (proj2 (Z.leb_le _ _)) by done. cbn [List.filter]. fold (siblings c height n).
  destruct (get_stack_height ic =? height); [|apply IH; lia].
  fold k. destruct (Z.eqb_spec k count) as [<-|Hne]; [by rewrite Z.sub_diag|].
  replace (saturating_add count 1) with (count + 1) by (unfold saturating_add; lia). rewrite IH by lia.
  by replace (Z.to_nat (k - count)) with (S (Z.to_nat (k - (count + 1)))) by lia.
Qed.

(** C26. The processed sibling is the one a reference definition lists: walking the trace back from
    the current instruction to the first that is lower on the stack, and keeping those of the same
    height, the instruction at position [index + 1] after the current one, or none. *)
Theorem processed_sibling_listed c index :
  is_u64 index -> len (instruction_trace c) < 2 ^ 63 ->
  processed_sibling index c =
  Ok (siblings c (get_instruction_stack_height c) (Z.to_nat (get_instruction_trace_length c)) !! Z.to_nat (index + 1)).
Proof.
  intros Hi Hl. unfold processed_sibling, get_instruction_trace_length.
  assert (Z.of_nat (Z.to_nat (saturating_sub (len (instruction_trace c)) 1)) <= len (instruction_trace c)) as Hn
    by (unfold saturating_sub, len; lia).
  set (n := Z.to_nat (saturating_sub _ _)) in *. unfold len in *.
  rewrite find_sibling_spec; [|unfold saturating_add, is_u in *; lia..]. rewrite Z.sub_0_r. f_equal.
  unfold saturating_add. destruct (Z.le_gt_cases (index + 1) u64_MAX); [by rewrite Z.min_l|]. rewrite Z.min_r by lia.
  pose proof (siblings_length c (get_instruction_stack_height c) n).
  rewrite !lookup_ge_None_2 by lia. done.
Qed.

(** ** Examples *)

Lemma example_level0_ok : sys_context_ok example_env example_level0.
Proof. split; [by eexists; vm_compute; reflexivity|..]; repeat first [constructor|by vm_compute]. Qed.

(** A program with a budget, and the key of the clock on its stack. *)
Definition example_rich : InvokeContext := set_compute_meter 10000 example_level0.
Definition example_key_host : HostMemory :=
  match host_write example_vm_host 0x2000 (example_sysvar_id Clock) with Some host => host | None => ∅ end.
Definition example_state : SysState := mkSysState example_rich example_mapping example_key_host None.

Lemma example_state_good : good example_env example_state.
Proof.
  split; [|apply meter_context_ok, example_level0_ok].
  destruct example_mapping_ok as (Hm & Hh & Hb). split; [exact Hm|exact Hh|].
  apply (backed_write _ example_vm_host 0x2000 (example_sysvar_id Clock)); [exact Hb| |vm_compute; reflexivity].
  by repeat constructor.
Qed.

(** The outcome of a computation and the memory it leaves at three host addresses. *)
Definition outcome (r : option (SysState * Result Z BoxError)) : option (Result Z BoxError * list (option (list Z))) :=
  option_map (fun '(s, r) => (r, [host_read (sys_host s) 0x2000 32; host_read (sys_host s) 0x2020 32;
                                  host_read (sys_host s) 0x3000 4])) r.

Lemma outcome_ok r x l : outcome r = Some (Ok x, l) -> exists s', r = Some (s', Ok x).
Proof. destruct r as [[s' r]|]; [|done]. intros [= -> _]. by exists s'. Qed.

Lemma program_address_highest_witness :
  exists s' s1 s2 seeds id,
    SyscallTryFindProgramAddress example_env MM_HEAP_START 0 MM_STACK_START (MM_STACK_START + 32) MM_HEAP_START example_state
      = Some (s', Ok 0) /\
    translate_and_check_program_address_inputs example_env MM_HEAP_START 0 MM_STACK_START s1 = Some (s2, Ok (seeds, id)) /\
    found_bump example_env seeds id 255 (MM_STACK_START + 32) MM_HEAP_START s' 0 /\
    host_read (sys_host s') 0x3000 1 = Some [254].
Proof.
  assert (exists l, outcome (SyscallTryFindProgramAddress example_env MM_HEAP_START 0 MM_STACK_START (MM_STACK_START + 32)
    MM_HEAP_START example_state) = Some (Ok 0, l)) as [l El] by (eexists; vm_compute; reflexivity).
  assert (option_map (fun '(s, _) => host_read (sys_host s) 0x3000 1) (SyscallTryFindProgramAddress example_env MM_HEAP_START 0
    MM_STACK_START (MM_STACK_START + 32) MM_HEAP_START example_state) = Some (Some [254])) as Hb by (vm_compute; reflexivity).
  destruct (outcome_ok _ _ _ El) as [s' E]. rewrite E in Hb. injection Hb as Hb. clear El.
  destruct (program_address_highest example_env MM_HEAP_START 0 MM_STACK_START (MM_STACK_START + 32) MM_HEAP_START
    example_state s' 0 example_state_good ltac:(clear; by vm_compute) ltac:(clear; by vm_compute) ltac:(clear; by vm_compute)
    ltac:(clear; by vm_compute) ltac:(clear; by vm_compute) E) as (s1 & s2 & seeds & id & _ & E2 & Hf).
  exists s', s1, s2, seeds, id. split; [exact E|]. split; [exact E2|]. split; [exact Hf|exact Hb].
Defined.

(** Four bytes of the clock, from the third on. *)
Lemma get_sysvar_copies_witness :
  exists s' s2 id, SyscallGetSysvar example_env MM_STACK_START MM_HEAP_START 2 4 example_state = Some (s', Ok 0) /\
    reads s2 Load MM_STACK_START id /\ host_read (sys_host s') 0x3000 4 = Some [3; 4; 5; 6].
Proof.
  assert (option_map (fun '(s, r) => (r, host_read (sys_host s) 0x3000 4))
    (SyscallGetSysvar example_env MM_STACK_START MM_HEAP_START 2 4 example_state) = Some (Ok 0, Some [3; 4; 5; 6])) as Hv
    by (vm_compute; reflexivity).
  destruct (SyscallGetSysvar example_env MM_STACK_START MM_HEAP_START 2 4 example_state) as [[s' r]|] eqn:E; [|discriminate Hv].
  injection Hv as -> Hv.
  destruct (get_sysvar_copies example_env MM_STACK_START MM_HEAP_START 2 4 example_state s' 0 example_state_good
    ltac:(clear; by vm_compute) ltac:(clear; by vm_compute) ltac:(clear; by vm_compute) ltac:(clear; by vm_compute) E)
    as (units & s1 & var & s2 & id & _ & _ & Hr & _).
  exists s', s2, id. split; [reflexivity|]. split; [exact Hr|exact Hv].
Defined.

(** Eight bytes of the input are returned; four of them are asked for, into the heap. *)
Lemma return_data_round_trip_witness :
  exists id data s1 s3,
    SyscallSetReturnData example_env MM_INPUT_START 8 example_state = Some (s1, Ok 0) /\ reads s1 Load MM_INPUT_START data /\
    SyscallGetReturnData example_env MM_HEAP_START 4 MM_STACK_START s1 = Some (s3, Ok 8) /\
    reads s3 Store MM_HEAP_START (take 4 data) /\ (take 4 data <> [] -> reads s3 Store MM_STACK_START id) /\
    host_read (sys_host s3) 0x3000 4 = Some [0; 1; 2; 3] /\ host_read (sys_host s3) 0x2000 32 = Some (key_of 1).
Proof.
  assert (match SyscallSetReturnData example_env MM_INPUT_START 8 example_state with
    | Some (s1, Ok 0) => option_map (fun '(s, r) => (r, host_read (sys_host s) 0x3000 4, host_read (sys_host s) 0x2000 32))
        (SyscallGetReturnData example_env MM_HEAP_START 4 MM_STACK_START s1)
    | _ => None
    end = Some (Ok 8, Some [0; 1; 2; 3], Some (key_of 1))) as Hv by (vm_compute; reflexivity).
  destruct (SyscallSetReturnData example_env MM_INPUT_START 8 example_state) as [[s1 r]|] eqn:E; [|discriminate Hv].
  destruct r as [[| |]|]; try discriminate Hv.
  destruct (SyscallGetReturnData example_env MM_HEAP_START 4 MM_STACK_START s1) as [[s3 r3]|] eqn:E3; [|discriminate Hv].
  injection Hv as -> Hh Hk.
  destruct (return_data_round_trip example_env MM_INPUT_START 8 example_state s1 0 example_state_good
    ltac:(clear; by vm_compute) ltac:(clear; by vm_compute) E) as (id & data & _ & _ & Hr & _ & Hget).
  assert (good example_env s1) as Hg.
  { apply (wp_result _ _ _ _ _ (safe_set_return_data example_env MM_INPUT_START 8 ltac:(clear; by vm_compute)
      ltac:(clear; by vm_compute) example_state example_state_good) E). }
  destruct (Hget MM_HEAP_START 4 MM_STACK_START s1 s3 8 Hg ltac:(clear; by vm_compute) ltac:(clear; by vm_compute)
    ltac:(clear; by vm_compute) eq_refl E3) as (_ & Hd & Hi).
  exists id, data, s1, s3. split; [reflexivity|]. split; [exact Hr|]. split; [exact E3|]. split; [exact Hd|].
  split; [exact Hi|]. split; [exact Hh|exact Hk].
Defined.

(** A program that calls itself twice: in the second call the first one is the sibling. *)
Definition example_second_call : InvokeContext :=
  match prepare_next_instruction (invoke_pop example_level1).1 (mkInstruction (key_of 1) [] []) [] with
  | Some (ic, _) => (invoke_push (key_of 70) (key_of 71) example_store ic).1
  | None => example_level1
  end.

Lemma processed_sibling_listed_witness :
  exists ic, processed_sibling 0 (transaction_context example_second_call) = Ok (Some ic) /\ ic_index_in_trace ic = 1 /\
    siblings (transaction_context example_second_call) 2 3 !! 1%nat = Some ic.
Proof.
  pose proof (processed_sibling_listed (transaction_context example_second_call) 0 ltac:(by vm_compute) ltac:(by vm_compute)) as E.
  change (get_instruction_stack_height (transaction_context example_second_call)) with 2 in E.
  change (Z.to_nat (get_instruction_trace_length (transaction_context example_second_call))) with 3%nat in E.
  assert (option_map ic_index_in_trace (siblings (transaction_context example_second_call) 2 3 !! 1%nat) = Some 1) as Hi
    by (vm_compute; reflexivity).
  change (Z.to_nat (0 + 1)) with 1%nat in E.
  destruct (siblings (transaction_context example_second_call) 2 3 !! 1%nat) as [ic|]; [|discriminate Hi].
  exists ic. split; [exact E|]. split; [by injection Hi|reflexivity].
Defined.
