(* ===== verification/Cpi.v ===== *)
(** Cross-program invocation (agave/program-runtime/src/cpi.rs): a program hands an instruction,
    the seeds of its signers and the accounts of the callee to the runtime in guest memory. The
    runtime translates them, brings the accounts up to date with what the caller did to them,
    processes the instruction, and shows the caller what the callee did.

    A reference into guest memory is a host address; reading or writing memory that is not
    allocated is undefined behaviour, [None], as is a panic. The layout of the [repr(C)] structures
    is that of the source; the layout of [StableInstruction], [AccountMeta] and [AccountInfo] comes
    from other crates and is part of the environment, like the derivation of program addresses and
    the decoding of loader instructions. Timing and logging are left out. *)

From Stdlib Require Import ZArith Lia Bool.
From stdpp Require Import strings.
From S2P Require Import Prelude.
From S2P Require Import SbpfTypes.
From S2P Require Import Ebpf.
From S2P Require Import MemoryRegion.
From S2P Require Import Mapping.
From S2P Require Import TxAccounts.
From S2P Require Import TxContext.
From S2P Require Import InvokeContext.
From S2P Require Import Serialize.
From S2P Require Import MemOps.

#[local] Open Scope Z_scope.

(** ** Errors *)

Inductive CpiError :=
| InvalidPointer
| TooManySigners
| BadSeeds (e : string)
| CpiInvalidLength
| MaxInstructionAccountsExceeded (num_accounts max_accounts : Z)
| MaxInstructionDataLenExceeded (data_len max_data_len : Z)
| MaxInstructionAccountInfosExceeded (num_account_infos max_account_infos : Z)
| ProgramNotSupported (program_id : Pubkey).

(** [Box<dyn Error>] as this file fills it. *)
Inductive CpiFailure :=
| FailCpi (e : CpiError)
| FailInstruction (e : InstructionError)
| FailBox (e : BoxError).

Definition MAX_SIGNERS : Z := 16.
Definition ACCOUNT_INFO_BYTE_SIZE : Z := 80.
Definition MAX_CPI_ACCOUNT_INFOS : Z := 128.
Definition MAX_CPI_ACCOUNT_INFOS_SIMD_0339 : Z := 255.

(** ** The environment *)

(** What the runtime reads of an [AccountInfo]: the guest addresses of key and owner, and of the
    contents of the two [RefCell]s. *)
Record AccountInfo := mkAccountInfo {
  info_key : Z;
  info_lamports : Z;
  info_data : Z;
  info_owner : Z
}.

(** What it reads of a [StableInstruction]. *)
Record StableInstruction := mkStableInstruction {
  stable_accounts : VmSlice;
  stable_data : VmSlice;
  stable_program_id : Pubkey
}.

Record CpiEnvironment := mkCpiEnvironment {
  (** Features. *)
  stricter_abi : bool;
  direct_mapping : bool;
  increase_cpi_account_info_limit : bool;
  increase_tx_account_lock_limit : bool;
  enable_set_authority_checked : bool;
  enable_extend_program_checked : bool;
  (** Costs. *)
  invoke_units : Z;
  bytes_per_unit : Z;
  (** Ids of the loaders, and the precompiles. *)
  native_loader_id : Pubkey;
  bpf_loader_id : Pubkey;
  bpf_loader_deprecated_id : Pubkey;
  bpf_loader_upgradeable_id : Pubkey;
  is_precompile : Pubkey -> bool;
  (** The loader interface and program addresses. *)
  is_upgrade_instruction : list Z -> bool;
  is_set_authority_instruction : list Z -> bool;
  is_set_authority_checked_instruction : list Z -> bool;
  is_extend_program_checked_instruction : list Z -> bool;
  is_close_instruction : list Z -> bool;
  MAX_SEEDS : Z;
  create_program_address : list (list Z) -> Pubkey -> Result Pubkey string;
  (** Layouts of other crates: size and decoder; the alignment is that of [u64], of a byte for
      [AccountMeta], of which the flags are bytes. *)
  size_of_StableInstruction : Z;
  decode_StableInstruction : list Z -> StableInstruction;
  decode_AccountMeta : list Z -> Pubkey * Z * Z;
  size_of_AccountInfo : Z;
  decode_AccountInfo : list Z -> AccountInfo;
  (** Where the payloads of the accounts are when the callee has run. *)
  cpi_payload_ptr : Z -> Z
}.

Definition size_of_AccountMeta : Z := 34.

(** ** The monad *)

(** The context, and the memory of the caller. *)
Record CpiState := mkCpiState {
  cpi_context : InvokeContext;
  cpi_mapping : MemoryMapping;
  cpi_host : HostMemory
}.

Definition CpiM (A : Type) : Type := CpiState -> option (CpiState * Result A CpiFailure).

Definition cpi_ret {A} (x : A) : CpiM A := fun s => Some (s, Ok x).
Definition cpi_fail {A} (e : CpiFailure) : CpiM A := fun s => Some (s, Err e).
Definition cpi_bind {A B} (m : CpiM A) (k : A -> CpiM B) : CpiM B := fun s =>
  let! (s, r) := m s in
  match r with Ok x => k x s | Err e => Some (s, Err e) end.

Notation "'cpi!' x := m 'in' k" := (cpi_bind m (fun x => k))
  (at level 10, x pattern, m at level 100, k at level 200) : gobble_scope.

Definition set_cpi_context (ic : InvokeContext) (s : CpiState) : CpiState :=
  mkCpiState ic (cpi_mapping s) (cpi_host s).
Definition set_cpi_mapping (m : MemoryMapping) (s : CpiState) : CpiState :=
  mkCpiState (cpi_context s) m (cpi_host s).
Definition set_cpi_host (host : HostMemory) (s : CpiState) : CpiState :=
  mkCpiState (cpi_context s) (cpi_mapping s) host.

Definition cpi_get {A} (f : CpiState -> A) : CpiM A := fun s => Some (s, Ok (f s)).
(** A check that fails with an instruction error. *)
Definition cpi_check {A} (f : TransactionContext -> Result A InstructionError) : CpiM A := fun s =>
  Some (s, map_err FailInstruction (f (transaction_context (cpi_context s)))).
(** An operation on the transaction context. *)
Definition cpi_tx {A} (m : TxM A) : CpiM A := fun s =>
  let '(c, r) := m (transaction_context (cpi_context s)) in
  Some (set_cpi_context (set_transaction_context c (cpi_context s)) s, map_err FailInstruction r).
(** A translation. *)
Definition cpi_translate {A} (f : MemoryMapping -> MemoryMapping * Result A BoxError) : CpiM A := fun s =>
  let '(m, r) := f (cpi_mapping s) in Some (set_cpi_mapping m s, map_err FailBox r).
Definition cpi_read (ptr : Z) (n : Z) : CpiM (list Z) := fun s =>
  let! bs := host_read (cpi_host s) ptr (Z.to_nat n) in Some (s, Ok bs).
Definition cpi_write (ptr : Z) (bs : list Z) : CpiM unit := fun s =>
  let! host := host_write (cpi_host s) ptr bs in Some (set_cpi_host host s, Ok tt).

(** [iter().map(..).collect::<Result<Vec<_>, _>>()] and loops that push. *)
Fixpoint cpi_mapM {A B} (f : A -> CpiM B) (l : list A) : CpiM (list B) :=
  match l with
  | [] => cpi_ret []
  | x :: l =>
      cpi! y := f x in
      cpi! ys := cpi_mapM f l in
      cpi_ret (y :: ys)
  end.

(** A borrowed account lives until its scope ends, whether by an error or not. *)
Definition with_borrowed {A} (ic : InstructionContext) (index : Z)
    (body : BorrowedInstructionAccount -> CpiM A) : CpiM A :=
  cpi! b := cpi_tx (try_borrow_instruction_account ic index) in
  fun s =>
    let! (s, r) := body b s in
    let c := drop_borrowed b (transaction_context (cpi_context s)) in
    Some (set_cpi_context (set_transaction_context c (cpi_context s)) s, r).

(** ** Guest memory *)

(** A little-endian [u64] at an offset of a structure. *)
Definition u64_at (offset : nat) (bs : list Z) : Z := le_combine (take 8 (drop offset bs)).

(** [n] elements of [size] bytes. *)
Definition elements (size n : Z) (bs : list Z) : list (list Z) :=
  map (fun i => take (Z.to_nat size) (drop (i * Z.to_nat size) bs)) (seq 0 (Z.to_nat n)).

(** [translate_type] and the value; [translate_slice] and its elements. *)
Definition read_type (size align vm_addr : Z) (check_aligned : bool) : CpiM (list Z) :=
  cpi! ptr := cpi_translate (fun m => translate_type size align m vm_addr check_aligned) in
  cpi_read ptr size.
Definition read_slice (size align vm_addr n : Z) (check_aligned : bool) : CpiM (list (list Z)) :=
  cpi! s := cpi_translate (fun m => translate_slice size align m vm_addr n check_aligned) in
  cpi! bs := cpi_read (hs_ptr s) (n * size) in
  cpi_ret (elements size n bs).
Definition read_bytes (vm_addr n : Z) (check_aligned : bool) : CpiM (list Z) :=
  cpi! s := cpi_translate (fun m => translate_slice 1 1 m vm_addr n check_aligned) in
  cpi_read (hs_ptr s) n.

Definition translate_type_mut_for_cpi (size align vm_addr : Z) (check_aligned : bool) : CpiM Z :=
  cpi_translate (fun m => translate_type_inner size align m Store vm_addr check_aligned).
Definition translate_slice_mut_for_cpi (vm_addr n : Z) (check_aligned : bool) : CpiM HostSlice :=
  cpi_translate (fun m => translate_slice_inner 1 1 m Store vm_addr n check_aligned).
Definition translate_vm_slice (slice : VmSlice) (check_aligned : bool) : CpiM (list Z) :=
  read_bytes (vs_ptr slice) (vs_len slice) check_aligned.

(** ** Checks *)

Definition check_account_info_pointer (vm_addr expected_vm_addr : Z) : CpiM unit :=
  if negb (vm_addr =? expected_vm_addr) then cpi_fail (FailCpi InvalidPointer) else cpi_ret tt.

Definition check_instruction_size (num_accounts data_len : Z) : CpiM unit :=
  if MAX_ACCOUNTS_PER_INSTRUCTION <? num_accounts
  then cpi_fail (FailCpi (MaxInstructionAccountsExceeded num_accounts MAX_ACCOUNTS_PER_INSTRUCTION))
  else if MAX_INSTRUCTION_DATA_LEN <? data_len
  then cpi_fail (FailCpi (MaxInstructionDataLenExceeded data_len MAX_INSTRUCTION_DATA_LEN))
  else cpi_ret tt.

(** [consume_compute_meter] of this file. *)
Definition cpi_consume (amount : Z) : CpiM unit := fun s =>
  let '(ic, r) := consume_checked (cpi_context s) amount in
  Some (set_cpi_context ic s, map_err FailInstruction r).

(** [checked_div(..).unwrap_or(u64::MAX)]. *)
Definition div_or_max (x y : Z) : Z := if y =? 0 then u64_MAX else x / y.

(** ** Accounts of the caller *)

(** [CallerAccount]: references into the memory of the caller. *)
Record CallerAccount := mkCallerAccount {
  ca_lamports : Z;
  ca_owner : Z;
  ca_original_data_len : Z;
  ca_serialized_data : HostSlice;
  ca_vm_data_addr : Z;
  ca_ref_to_len_in_vm : Z
}.

Record TranslatedAccount := mkTranslatedAccount {
  index_in_caller : Z;
  caller_account : CallerAccount;
  update_caller_account_region_flag : bool;
  update_caller_account_info_flag : bool
}.

Section cpi.
Variable env : CpiEnvironment.
Abbreviation strict := (stricter_abi env).
Abbreviation direct := (direct_mapping env).

Definition check_account_infos (num_account_infos : Z) : CpiM unit :=
  let max_account_infos :=
    if increase_cpi_account_info_limit env then MAX_CPI_ACCOUNT_INFOS_SIMD_0339
    else if increase_tx_account_lock_limit env then MAX_CPI_ACCOUNT_INFOS
    else 64 in
  if max_account_infos <? num_account_infos
  then cpi_fail (FailCpi (MaxInstructionAccountInfosExceeded num_account_infos max_account_infos))
  else cpi_ret tt.

Definition is_authorized_program (program_id : Pubkey) (data : list Z) : bool :=
  negb
    (bool_decide (program_id = native_loader_id env)
     || bool_decide (program_id = bpf_loader_id env)
     || bool_decide (program_id = bpf_loader_deprecated_id env)
     || (bool_decide (program_id = bpf_loader_upgradeable_id env)
         && negb (is_upgrade_instruction env data
                  || is_set_authority_instruction env data
                  || (enable_set_authority_checked env && is_set_authority_checked_instruction env data)
                  || (enable_extend_program_checked env && is_extend_program_checked_instruction env data)
                  || is_close_instruction env data))
     || is_precompile env program_id).

Definition check_authorized_program (program_id : Pubkey) (data : list Z) : CpiM unit :=
  if is_authorized_program program_id data then cpi_ret tt
  else cpi_fail (FailCpi (ProgramNotSupported program_id)).

(** The bytes reserved for the data of an account. *)
Definition address_space_reserved_for_account (deprecated : bool) (original_data_len : Z) : Z :=
  if deprecated then original_data_len
  else saturating_add original_data_len MAX_PERMITTED_DATA_INCREASE.

(** With the stricter rules the slice is found from the start of the input, without looking at
    the permissions of the regions. *)
Definition get_serialized_data (check_aligned : bool) (vm_addr original_data_len n : Z) : CpiM HostSlice :=
  if strict && (address_space_reserved_for_account (negb check_aligned) original_data_len <? n)
  then cpi_fail (FailInstruction InvalidRealloc)
  else if strict && direct then cpi_ret (mkHostSlice 1 0)
  else if strict then
    cpi! s := translate_slice_mut_for_cpi MM_INPUT_START 1 false in
    cpi_ret (mkHostSlice (hs_ptr s + saturating_sub vm_addr MM_INPUT_START) n)
  else translate_slice_mut_for_cpi vm_addr n false.

(** A pointer that a callee could write must not lie in the input. *)
Definition check_outside_input (vm_addr : Z) : CpiM unit :=
  if strict && (MM_INPUT_START <=? vm_addr) then cpi_fail (FailCpi InvalidPointer) else cpi_ret tt.

Definition check_pointer_if_strict (vm_addr expected_vm_addr : Z) : CpiM unit :=
  if strict then check_account_info_pointer vm_addr expected_vm_addr else cpi_ret tt.

Definition consume_data_if_lenient (n : Z) : CpiM unit :=
  if strict then cpi_ret tt else cpi_consume (div_or_max n (bytes_per_unit env)).

(** The end of both translations: the length in guest memory and the data. *)
Definition finish_caller_account (check_aligned : bool) (lamports owner vm_data_addr data_len vm_len_addr : Z)
    (md : SerializedAccountMetadata) : CpiM CallerAccount :=
  cpi! _ := check_outside_input vm_len_addr in
  cpi! ref_to_len_in_vm := translate_type_mut_for_cpi 8 8 vm_len_addr false in
  cpi! n := (if strict then cpi! bs := cpi_read ref_to_len_in_vm 8 in cpi_ret (le_combine bs)
             else cpi_ret data_len) in
  cpi! serialized_data := get_serialized_data check_aligned vm_data_addr (original_data_len md) n in
  cpi_ret (mkCallerAccount lamports owner (original_data_len md) serialized_data vm_data_addr ref_to_len_in_vm).

Definition from_account_info (check_aligned : bool) (_vm_addr _ptr : Z) (bs : list Z)
    (md : SerializedAccountMetadata) : CpiM CallerAccount :=
  let info := decode_AccountInfo env bs in
  cpi! _ := check_pointer_if_strict (info_key info) (vm_key_addr md) in
  cpi! _ := check_pointer_if_strict (info_owner info) (vm_owner_addr md) in
  cpi! ptr := read_type 8 8 (info_lamports info) check_aligned in
  cpi! _ := check_outside_input (info_lamports info) in
  cpi! _ := check_pointer_if_strict (le_combine ptr) (vm_lamports_addr md) in
  cpi! lamports := translate_type_mut_for_cpi 8 8 (le_combine ptr) check_aligned in
  cpi! owner := translate_type_mut_for_cpi 32 1 (info_owner info) check_aligned in
  cpi! _ := check_outside_input (info_data info) in
  cpi! data := read_type 16 8 (info_data info) check_aligned in
  cpi! _ := check_pointer_if_strict (u64_at 0 data) (InvokeContext.vm_data_addr md) in
  cpi! _ := consume_data_if_lenient (u64_at 8 data) in
  finish_caller_account check_aligned lamports owner (u64_at 0 data) (u64_at 8 data)
    (saturating_add (info_data info) 8) md.

(** [SolAccountInfo]: key, lamports, length and address of the data, owner, rent epoch, and three
    flags; 56 bytes. [ptr] is the host address of the structure. *)
Definition sol_key_addr (bs : list Z) : Z := u64_at 0 bs.
Definition sol_lamports_addr (bs : list Z) : Z := u64_at 8 bs.
Definition sol_data_len (bs : list Z) : Z := u64_at 16 bs.
Definition sol_data_addr (bs : list Z) : Z := u64_at 24 bs.
Definition sol_owner_addr (bs : list Z) : Z := u64_at 32 bs.
Definition size_of_SolAccountInfo : Z := 56.

Definition from_sol_account_info (check_aligned : bool) (vm_addr ptr : Z) (bs : list Z)
    (md : SerializedAccountMetadata) : CpiM CallerAccount :=
  cpi! _ := check_pointer_if_strict (sol_key_addr bs) (vm_key_addr md) in
  cpi! _ := check_pointer_if_strict (sol_owner_addr bs) (vm_owner_addr md) in
  cpi! _ := check_pointer_if_strict (sol_lamports_addr bs) (vm_lamports_addr md) in
  cpi! _ := check_pointer_if_strict (sol_data_addr bs) (InvokeContext.vm_data_addr md) in
  cpi! lamports := translate_type_mut_for_cpi 8 8 (sol_lamports_addr bs) check_aligned in
  cpi! owner := translate_type_mut_for_cpi 32 1 (sol_owner_addr bs) check_aligned in
  cpi! _ := consume_data_if_lenient (sol_data_len bs) in
  finish_caller_account check_aligned lamports owner (sol_data_addr bs) (sol_data_len bs)
    (saturating_sub (saturating_add vm_addr (ptr + 16)) ptr) md.

(** ** Translating the arguments *)

Definition translation_cost (data_len num_accounts : Z) : Z :=
  let cost := div_or_max data_len (bytes_per_unit env) in
  if increase_cpi_account_info_limit env
  then saturating_add cost (div_or_max (saturating_mul num_accounts size_of_AccountMeta) (bytes_per_unit env))
  else cost.

(** The flags of an account meta are one byte each, 0 or 1. *)
Definition check_flags (is_signer is_writable : Z) : CpiM unit :=
  if (1 <? is_signer) || (1 <? is_writable) then cpi_fail (FailInstruction InvalidArgument) else cpi_ret tt.

Definition translate_instruction_rust (addr : Z) (check_aligned : bool) : CpiM Instruction :=
  cpi! bs := read_type (size_of_StableInstruction env) 8 addr check_aligned in
  let ix := decode_StableInstruction env bs in
  cpi! account_metas := read_slice size_of_AccountMeta 1 (vs_ptr (stable_accounts ix))
                          (vs_len (stable_accounts ix)) check_aligned in
  cpi! data := read_bytes (vs_ptr (stable_data ix)) (vs_len (stable_data ix)) check_aligned in
  cpi! _ := check_instruction_size (len account_metas) (len data) in
  cpi! _ := cpi_consume (translation_cost (len data) (len account_metas)) in
  cpi! accounts :=
    cpi_mapM (fun meta =>
      let '(key, is_signer, is_writable) := decode_AccountMeta env meta in
      cpi! _ := check_flags is_signer is_writable in
      cpi_ret (mkAccountMeta key (negb (is_signer =? 0)) (negb (is_writable =? 0)))) account_metas in
  cpi_ret (mkInstruction (stable_program_id ix) accounts data).

(** [SolInstruction]: addresses of the program id, accounts and data with their lengths, 40 bytes.
    [SolAccountMeta]: address of the key, [is_writable], [is_signer]; 16 bytes. *)
Definition translate_instruction_c (addr : Z) (check_aligned : bool) : CpiM Instruction :=
  cpi! ix := read_type 40 8 addr check_aligned in
  let accounts_len := u64_at 16 ix in
  cpi! program_id := read_type 32 1 (u64_at 0 ix) check_aligned in
  cpi! account_metas := read_slice 16 8 (u64_at 8 ix) accounts_len check_aligned in
  cpi! data := read_bytes (u64_at 24 ix) (u64_at 32 ix) check_aligned in
  cpi! _ := check_instruction_size accounts_len (len data) in
  cpi! _ := cpi_consume (translation_cost (len data) accounts_len) in
  cpi! accounts :=
    cpi_mapM (fun meta =>
      let is_writable := le_combine (take 1 (drop 8 meta)) in
      let is_signer := le_combine (take 1 (drop 9 meta)) in
      cpi! _ := check_flags is_signer is_writable in
      cpi! key := read_type 32 1 (u64_at 0 meta) check_aligned in
      cpi_ret (mkAccountMeta key (negb (is_signer =? 0)) (negb (is_writable =? 0)))) account_metas in
  cpi_ret (mkInstruction program_id accounts data).

(** The address that one set of seeds gives; a slice of slices in guest memory, as [VmSlice]s or
    as [SolSignerSeedC]s, which have the same layout. *)
Definition decode_VmSlice (bs : list Z) : VmSlice := mkVmSlice (u64_at 0 bs) (u64_at 8 bs).

Definition translate_signer (program_id : Pubkey) (check_aligned : bool) (seeds : VmSlice) : CpiM Pubkey :=
  cpi! untranslated_seeds := read_slice 16 8 (vs_ptr seeds) (vs_len seeds) check_aligned in
  if MAX_SEEDS env <? len untranslated_seeds then cpi_fail (FailInstruction MaxSeedLengthExceeded)
  else
    cpi! seeds := cpi_mapM (fun seed => translate_vm_slice (decode_VmSlice seed) check_aligned) untranslated_seeds in
    match create_program_address env seeds program_id with
    | Ok signer => cpi_ret signer
    | Err e => cpi_fail (FailCpi (BadSeeds e))
    end.

(** [translate_signers_rust] and [translate_signers_c]. *)
Definition translate_signers (program_id : Pubkey) (signers_seeds_addr signers_seeds_len : Z)
    (check_aligned : bool) : CpiM (list Pubkey) :=
  if 0 <? signers_seeds_len then
    cpi! signers_seeds := read_slice 16 8 signers_seeds_addr signers_seeds_len check_aligned in
    if MAX_SIGNERS <? len signers_seeds then cpi_fail (FailCpi TooManySigners)
    else cpi_mapM (fun seeds => translate_signer program_id check_aligned (decode_VmSlice seeds)) signers_seeds
  else cpi_ret [].

(** The account infos, each with its host address, and their keys. *)
Definition translate_account_infos (size account_infos_addr account_infos_len : Z)
    (key_addr : list Z -> Z) (check_aligned : bool) : CpiM (list (Z * list Z) * list Pubkey) :=
  if strict && (MM_INPUT_START <=? saturating_add account_infos_addr (saturating_mul account_infos_len size))
  then cpi_fail (FailCpi InvalidPointer)
  else
    cpi! s := cpi_translate (fun m => translate_slice size 8 m account_infos_addr account_infos_len check_aligned) in
    cpi! bs := cpi_read (hs_ptr s) (account_infos_len * size) in
    let infos := elements size account_infos_len bs in
    cpi! _ := check_account_infos (len infos) in
    cpi! _ :=
      (if increase_cpi_account_info_limit env
       then cpi_consume (div_or_max (saturating_mul (len infos) ACCOUNT_INFO_BYTE_SIZE) (bytes_per_unit env))
       else cpi_ret tt) in
    cpi! keys := cpi_mapM (fun info => read_type 32 1 (key_addr info) check_aligned) infos in
    cpi_ret (imap (fun i info => (hs_ptr s + Z.of_nat i * size, info)) infos, keys).

(** ** Synchronising accounts *)

Definition cpi_data (b : BorrowedInstructionAccount) : CpiM (list Z) :=
  cpi_get (fun s => get_data b (transaction_context (cpi_context s))).

(** With the stricter rules: the length that the caller stored, then the data. *)
Definition update_callee_data_strict (check_aligned : bool) (caller : CallerAccount)
    (b : BorrowedInstructionAccount) : CpiM bool :=
  cpi! data := cpi_data b in
  let prev_len := len data in
  cpi! bs := cpi_read (ca_ref_to_len_in_vm caller) 8 in
  let post_len := le_combine bs in
  cpi! must_update_caller :=
    (if negb (prev_len =? post_len) then
       cpi! _ :=
         (if negb direct && (post_len <? prev_len) then
            cpi! s := get_serialized_data check_aligned (ca_vm_data_addr caller)
                        (ca_original_data_len caller) prev_len in
            if hs_len s <? post_len then cpi_fail (FailInstruction AccountDataTooSmall)
            else cpi_write (hs_ptr s + post_len) (replicate (Z.to_nat (hs_len s - post_len)) 0)
          else cpi_ret tt) in
       cpi! _ := cpi_tx (set_data_length b post_len) in
       cpi_ret true
     else cpi_ret false) in
  cpi! changeable := cpi_get (fun s => is_ok (can_data_be_changed b (transaction_context (cpi_context s)))) in
  cpi! _ :=
    (if negb direct && changeable then
       cpi! bs := cpi_read (hs_ptr (ca_serialized_data caller)) (hs_len (ca_serialized_data caller)) in
       cpi_tx (set_data_from_slice b bs)
     else cpi_ret tt) in
  cpi_ret must_update_caller.

(** Otherwise the serialized data; what cannot be resized must not have changed. *)
Definition update_callee_data_lenient (caller : CallerAccount) (b : BorrowedInstructionAccount) : CpiM unit :=
  cpi! bs := cpi_read (hs_ptr (ca_serialized_data caller)) (hs_len (ca_serialized_data caller)) in
  cpi! resizable := cpi_get (fun s => can_data_be_resized b (len bs) (transaction_context (cpi_context s))) in
  cpi! data := cpi_data b in
  match resizable with
  | Ok _ => cpi_tx (set_data_from_slice b bs)
  | Err err => if negb (bool_decide (data = bs)) then cpi_fail (FailInstruction err) else cpi_ret tt
  end.

Definition update_callee_account (check_aligned : bool) (caller : CallerAccount)
    (b : BorrowedInstructionAccount) : CpiM bool :=
  cpi! bs := cpi_read (ca_lamports caller) 8 in
  cpi! lamports := cpi_get (fun s => get_lamports b (transaction_context (cpi_context s))) in
  cpi! _ :=
    (if negb (lamports =? le_combine bs) then cpi_tx (set_lamports b (le_combine bs)) else cpi_ret tt) in
  cpi! must_update_caller :=
    (if strict then update_callee_data_strict check_aligned caller b
     else cpi! _ := update_callee_data_lenient caller b in cpi_ret false) in
  cpi! owner := cpi_read (ca_owner caller) 32 in
  cpi! callee_owner := cpi_get (fun s => get_owner b (transaction_context (cpi_context s))) in
  if negb (bool_decide (callee_owner = owner)) then
    cpi! _ := cpi_tx (set_owner b owner) in
    cpi_ret true
  else cpi_ret must_update_caller.

(** The region of the account in the mapping of the caller. *)
Definition update_caller_account_region (check_aligned : bool) (caller : CallerAccount)
    (b : BorrowedInstructionAccount) : CpiM unit :=
  if 0 <? address_space_reserved_for_account (negb check_aligned) (ca_original_data_len caller) then
    cpi! found := (fun s =>
      let '(m, found) := find_region (cpi_mapping s) (ca_vm_data_addr caller) in
      Some (set_cpi_mapping m s,
            match found with Some x => Ok x | None => Err (FailInstruction MissingAccount) end)) in
    let '(region_index, region) := found in
    if negb (vm_addr region =? ca_vm_data_addr caller) then (fun _ => None)
    else
      cpi! new_region :=
        (if negb direct
         then cpi_get (fun s => modify_memory_region_of_account (transaction_context (cpi_context s)) b region)
         else cpi_tx (create_memory_region_of_account (cpi_payload_ptr env) b (vm_addr region))) in
      cpi_translate (fun m =>
        let '(m, r) := replace_region m region_index new_region in (m, map_err BoxEbpfError r))
  else cpi_ret tt.

(** The length of the account as the caller sees it, in two places, and its slice. *)
Definition update_caller_length (check_aligned : bool) (caller : CallerAccount) (prev_len post_len : Z)
    : CpiM HostSlice :=
  cpi! slice :=
    (if negb (strict && direct) then
       cpi! _ :=
         (if post_len <? prev_len then
            let s := ca_serialized_data caller in
            if hs_len s <? post_len then cpi_fail (FailInstruction AccountDataTooSmall)
            else cpi_write (hs_ptr s + post_len) (replicate (Z.to_nat (hs_len s - post_len)) 0)
          else cpi_ret tt) in
       get_serialized_data check_aligned (ca_vm_data_addr caller) (ca_original_data_len caller) post_len
     else cpi_ret (ca_serialized_data caller)) in
  cpi! _ := cpi_write (ca_ref_to_len_in_vm caller) (le_split 8 post_len) in
  cpi! ptr := translate_type_mut_for_cpi 8 8 (saturating_sub (ca_vm_data_addr caller) 8) check_aligned in
  cpi! _ := cpi_write ptr (le_split 8 post_len) in
  cpi_ret slice.

Definition update_caller_account (check_aligned : bool) (caller : CallerAccount)
    (b : BorrowedInstructionAccount) : CpiM unit :=
  cpi! lamports := cpi_get (fun s => get_lamports b (transaction_context (cpi_context s))) in
  cpi! _ := cpi_write (ca_lamports caller) (le_split 8 lamports) in
  cpi! owner := cpi_get (fun s => get_owner b (transaction_context (cpi_context s))) in
  cpi! _ := cpi_write (ca_owner caller) owner in
  cpi! bs := cpi_read (ca_ref_to_len_in_vm caller) 8 in
  let prev_len := le_combine bs in
  cpi! data := cpi_data b in
  let post_len := len data in
  let reserved := address_space_reserved_for_account (strict && negb check_aligned) (ca_original_data_len caller) in
  if (reserved <? post_len) && (strict || negb (prev_len =? post_len))
  then cpi_fail (FailInstruction InvalidRealloc)
  else
    cpi! slice :=
      (if negb (prev_len =? post_len) then update_caller_length check_aligned caller prev_len post_len
       else cpi_ret (ca_serialized_data caller)) in
    if negb (strict && direct) then
      if negb (hs_len slice =? post_len) then cpi_fail (FailInstruction AccountDataTooSmall)
      else cpi_write (hs_ptr slice) data
    else cpi_ret tt.

(** One account of the next instruction: [None] for a duplicate or an executable account. *)
Definition translate_account (size account_infos_addr : Z) (account_infos : list (Z * list Z))
    (account_info_keys : list Pubkey) (check_aligned : bool)
    (do_translate : bool -> Z -> Z -> list Z -> SerializedAccountMetadata -> CpiM CallerAccount)
    (metadata : list SerializedAccountMetadata) (next current : InstructionContext)
    (item : Z * InstructionAccount) : CpiM (option TranslatedAccount) :=
  let '(index, ia) := item in
  cpi! duplicate := cpi_check (fun _ => is_instruction_account_duplicate next index) in
  if match duplicate with Some _ => true | None => false end then cpi_ret None
  else
    cpi! index_in_caller :=
      cpi_check (fun _ => get_index_of_account_in_instruction current (index_in_transaction ia)) in
    with_borrowed current index_in_caller (fun b =>
      cpi! account_key := cpi_check (fun c => get_key_of_account_at_index c (index_in_transaction ia)) in
      cpi! executable := cpi_get (fun s => is_executable b (transaction_context (cpi_context s))) in
      if executable then
        cpi! data := cpi_data b in
        cpi! _ := cpi_consume (div_or_max (len data) (bytes_per_unit env)) in
        cpi_ret None
      else
        match position account_key account_info_keys 0 with
        | None => cpi_fail (FailInstruction MissingAccount)
        | Some caller_account_index =>
            match metadata !! Z.to_nat index_in_caller with
            | None => cpi_fail (FailInstruction MissingAccount)
            | Some md =>
                match account_infos !! Z.to_nat caller_account_index with
                | None => cpi_fail (FailCpi CpiInvalidLength)
                | Some (ptr, info) =>
                    cpi! caller :=
                      do_translate check_aligned
                        (saturating_add account_infos_addr (saturating_mul caller_account_index size))
                        ptr info md in
                    cpi! update_caller :=
                      (if strict then
                         cpi! bs := cpi_read (ca_ref_to_len_in_vm caller) 8 in
                         cpi! _ := cpi_consume (div_or_max (le_combine bs) (bytes_per_unit env)) in
                         cpi_ret true
                       else update_callee_account check_aligned caller b) in
                    cpi_ret (Some (mkTranslatedAccount index_in_caller caller
                                     (is_writable ia || update_caller) (is_writable ia)))
                end
            end
        end).

Definition translate_accounts_common (size account_infos_addr : Z) (account_infos : list (Z * list Z))
    (account_info_keys : list Pubkey) (check_aligned : bool)
    (do_translate : bool -> Z -> Z -> list Z -> SerializedAccountMetadata -> CpiM CallerAccount)
    : CpiM (list TranslatedAccount) :=
  cpi! next := cpi_check get_next_instruction_context in
  cpi! current := cpi_check get_current_instruction_context in
  cpi! metadata := (fun s =>
    match get_syscall_context (cpi_context s) with
    | Ok sc => Some (s, Ok (accounts_metadata sc))
    | Err _ => None
    end) in
  cpi! accounts :=
    cpi_mapM (translate_account size account_infos_addr account_infos account_info_keys check_aligned
                do_translate metadata next current)
      (imap (fun i ia => (Z.of_nat i, ia)) (ic_instruction_accounts next)) in
  cpi_ret (omap id accounts).

Definition translate_accounts_rust (account_infos_addr account_infos_len : Z) (check_aligned : bool)
    : CpiM (list TranslatedAccount) :=
  let size := size_of_AccountInfo env in
  cpi! (account_infos, keys) :=
    translate_account_infos size account_infos_addr account_infos_len
      (fun bs => info_key (decode_AccountInfo env bs)) check_aligned in
  translate_accounts_common size account_infos_addr account_infos keys check_aligned from_account_info.

Definition translate_accounts_c (account_infos_addr account_infos_len : Z) (check_aligned : bool)
    : CpiM (list TranslatedAccount) :=
  cpi! (account_infos, keys) :=
    translate_account_infos size_of_SolAccountInfo account_infos_addr account_infos_len sol_key_addr check_aligned in
  translate_accounts_common size_of_SolAccountInfo account_infos_addr account_infos keys check_aligned
    from_sol_account_info.

(** [SyscallInvokeSigned], by language. *)
Inductive Abi := AbiRust | AbiC.

Definition translate_instruction (abi : Abi) : Z -> bool -> CpiM Instruction :=
  match abi with AbiRust => translate_instruction_rust | AbiC => translate_instruction_c end.
Definition translate_accounts (abi : Abi) : Z -> Z -> bool -> CpiM (list TranslatedAccount) :=
  match abi with AbiRust => translate_accounts_rust | AbiC => translate_accounts_c end.

(** ** The invocation *)

(** The processing of an instruction in the memory of the process. *)
Variables (instructions_id sysvar_id : Pubkey).
Variable store_current_index_checked : list Z -> Z -> Result (list Z) InstructionError.
Variable process_executable_chain :
  InvokeContext -> HostMemory -> option (InvokeContext * HostMemory * Result unit InstructionError).

(** [process_instruction], with the memory that the callee changes. *)
Definition process_callee : CpiM unit := fun s =>
  match invoke_push instructions_id sysvar_id store_current_index_checked (cpi_context s) with
  | (ic, Err e) => Some (set_cpi_context ic s, Err (FailInstruction e))
  | (ic, Ok _) =>
      let! (ic, host, result) := process_executable_chain ic (cpi_host s) in
      let '(ic, popped) := invoke_pop ic in
      Some (mkCpiState ic (cpi_mapping s) host,
            map_err FailInstruction (match result with Ok _ => popped | Err e => Err e end))
  end.

(** Before the callee runs, with the stricter rules: all accounts at once. *)
Definition update_callee_accounts (check_aligned : bool) (accounts : list TranslatedAccount)
    : CpiM (list TranslatedAccount) :=
  if strict then
    cpi! current := cpi_check get_current_instruction_context in
    cpi_mapM (fun t =>
      cpi! update_caller :=
        with_borrowed current (index_in_caller t) (update_callee_account check_aligned (caller_account t)) in
      cpi_ret (mkTranslatedAccount (index_in_caller t) (caller_account t)
                 (update_caller_account_info_flag t || update_caller) (update_caller_account_info_flag t)))
      accounts
  else cpi_ret accounts.

(** The instruction is translated, checked and prepared. *)
Definition cpi_prepare (abi : Abi) (instruction_addr signers_seeds_addr signers_seeds_len : Z)
    (check_aligned : bool) : CpiM unit :=
  cpi! instruction := translate_instruction abi instruction_addr check_aligned in
  cpi! current := cpi_check get_current_instruction_context in
  cpi! caller_program_id := cpi_check (fun c => get_program_key c current) in
  cpi! signers := translate_signers caller_program_id signers_seeds_addr signers_seeds_len check_aligned in
  cpi! _ := check_authorized_program (program_id instruction) (instruction_bytes instruction) in
  fun s =>
    let! (ic, r) := prepare_next_instruction (cpi_context s) instruction signers in
    Some (set_cpi_context ic s, map_err FailInstruction r).

(** After the callee has run: the accounts and then the regions of the caller. *)
Definition cpi_exit (check_aligned : bool) (accounts : list TranslatedAccount) : CpiM unit :=
  cpi! current := cpi_check get_current_instruction_context in
  cpi! _ :=
    cpi_mapM (fun t =>
      with_borrowed current (index_in_caller t) (fun b =>
        if update_caller_account_info_flag t then update_caller_account check_aligned (caller_account t) b
        else cpi_ret tt)) accounts in
  if strict then
    cpi! _ :=
      cpi_mapM (fun t =>
        with_borrowed current (index_in_caller t) (fun b =>
          if update_caller_account_region_flag t
          then update_caller_account_region check_aligned (caller_account t) b
          else cpi_ret tt)) accounts in
    cpi_ret tt
  else cpi_ret tt.

Definition cpi_common (abi : Abi) (instruction_addr account_infos_addr account_infos_len
    signers_seeds_addr signers_seeds_len : Z) : CpiM Z :=
  cpi! _ := cpi_consume (invoke_units env) in
  cpi! check_aligned := (fun s =>
    let! b := get_check_aligned (bpf_loader_deprecated_id env) (cpi_context s) in Some (s, Ok b)) in
  cpi! _ := cpi_prepare abi instruction_addr signers_seeds_addr signers_seeds_len check_aligned in
  cpi! accounts := translate_accounts abi account_infos_addr account_infos_len check_aligned in
  cpi! accounts := update_callee_accounts check_aligned accounts in
  cpi! _ := process_callee in
  cpi! _ := cpi_exit check_aligned accounts in
  cpi_ret 0.

End cpi.
