(* ===== verification/CpiSteps.v ===== *)
(** Cross-program invocation moves the context only by steps that the runtime allows: whatever a
    caller puts into its memory, [cpi_common] goes from the context of the caller to the context it
    returns by the operations on borrowed accounts, the preparation, push and pop of instructions
    and the compute meter, and it gives back what it borrowed. *)

From Stdlib Require Import ZArith Lia Bool.
From stdpp Require Import strings.
From S2P Require Import Prelude.
From S2P Require Import SbpfTypes.
From S2P Require Import Ebpf.
From S2P Require Import MemoryRegion.
From S2P Require Import Mapping.
From S2P Require Import MappingSafe.
From S2P Require Import TxAccounts.
From S2P Require Import TxContext.
From S2P Require Import TxSafe.
From S2P Require Import InvokeContext.
From S2P Require Import InvokeSafe.
From S2P Require Import Serialize.
From S2P Require Import MemOps.
From S2P Require Import Cpi.

#[local] Open Scope Z_scope.

Abbreviation cpi_tc s := (transaction_context (cpi_context s)).
Abbreviation cpi_counters s := (borrow_counters (accounts (transaction_context (cpi_context s)))).
Abbreviation cpi_stack s := (instruction_stack (transaction_context (cpi_context s))).

(** ** Borrowing and giving back *)

Lemma borrow_mut_counter a i a' v :
  accounts_try_borrow_mut a i = (a', Ok v) ->
  borrow_counters a !! Z.to_nat i = Some 0 /\ borrow_counters a' = <[Z.to_nat i := -1]> (borrow_counters a).
Proof.
  unfold accounts_try_borrow_mut. destruct (borrow_counters a !! Z.to_nat i) as [n|] eqn:E; [|done].
  unfold counter_try_borrow_mut, is_writing, is_reading, clamp_i8.
  destruct (Z.ltb_spec n 0); [done|]. destruct (Z.ltb_spec 0 n); [done|]. intros [= <- _].
  assert (n = 0) as -> by lia. done.
Qed.

Lemma borrow_mut_fails a i a' e : accounts_try_borrow_mut a i = (a', Err e) -> a' = a.
Proof.
  unfold accounts_try_borrow_mut. destruct (borrow_counters a !! Z.to_nat i); [|by intros [= <- _]].
  by destruct (counter_try_borrow_mut _); intros [= <- _].
Qed.

(** An account that was free is free again. *)
Lemma give_back_counters a a' i :
  borrow_counters a !! Z.to_nat i = Some 0 -> borrow_counters a' = <[Z.to_nat i := -1]> (borrow_counters a) ->
  borrow_counters (drop_ref_mut a' i) = borrow_counters a.
Proof.
  intros H0 E. unfold drop_ref_mut. cbn. rewrite E. apply list_eq. intros k.
  destruct (decide (k = Z.to_nat i)) as [->|Hne].
  - rewrite list_lookup_alter_eq, list_lookup_insert_eq by by eapply lookup_lt_Some. by rewrite H0.
  - by rewrite list_lookup_alter_ne, list_lookup_insert_ne.
Qed.

Lemma op_effect_counters b c c' : op_effect b c c' ->
  borrow_counters (accounts c') = borrow_counters (accounts c) /\ instruction_stack c' = instruction_stack c.
Proof. by intros []. Qed.

(** A push borrows the instructions sysvar, a pop the program, and both give it back. *)
Lemma drop_after_borrow a a1 a2 i v :
  accounts_try_borrow_mut a i = (a1, Ok v) -> borrow_counters a2 = borrow_counters a1 ->
  borrow_counters (drop_ref_mut a2 i) = borrow_counters a.
Proof. intros E E2. apply borrow_mut_counter in E as [H0 E1]. apply give_back_counters; [done|congruence]. Qed.

Lemma store_current_index_same instructions_id sysvar_id store c c' r :
  store_current_index instructions_id sysvar_id store c = (c', r) ->
  borrow_counters (accounts c') = borrow_counters (accounts c) /\ instruction_stack c' = instruction_stack c.
Proof.
  unfold store_current_index. destruct (find_index_of_account c instructions_id) as [i|]; [|by intros [= <- _]].
  destruct (accounts_try_borrow_mut (accounts c) i) as [a [v|e]] eqn:E.
  2:{ intros [= <- _]. apply borrow_mut_fails in E as ->. done. }
  destruct (negb _); [|destruct (store _ _)]; intros [= <- _]; (split; [|done]); by eapply drop_after_borrow.
Qed.

Lemma push_same instructions_id sysvar_id store c c' r :
  tx_push instructions_id sysvar_id store c = (c', r) ->
  borrow_counters (accounts c') = borrow_counters (accounts c) /\
  forall x, r = Ok x -> exists i, instruction_stack c' = instruction_stack c ++ [i].
Proof.
  unfold tx_push. destruct (_ && _); [by intros [= <- <-]|].
  unfold tx_bind, on_last_frame, tx_get, tx_modify, tx_throw. destruct (last (instruction_trace c)); [|by intros [= <- <-]].
  cbn. destruct (_ <=? _); [by intros [= <- <-]|]. cbn. destruct (_ <=? _); [by intros [= <- <-]|].
  intros E. apply store_current_index_same in E as [-> Es]. split; [done|]. intros x _. rewrite Es. by eexists.
Qed.

Lemma pop_same c c' r :
  tx_pop c = (c', r) -> borrow_counters (accounts c') = borrow_counters (accounts c) /\
  forall x, r = Ok x -> instruction_stack c' = removelast (instruction_stack c).
Proof.
  unfold tx_pop. destruct (is_nil (instruction_stack c)); [by intros [= <- <-]|].
  destruct (pop_check c) as [c1 r1] eqn:E.
  assert (borrow_counters (accounts c1) = borrow_counters (accounts c) /\ instruction_stack c1 = instruction_stack c)
    as [H1 H2].
  { unfold pop_check, tx_bind, tx_lift, tx_get in E. destruct (get_current_instruction_context c); [|by injection E as <- _].
    destruct (get_index_of_program_account_in_transaction _) as [i|]; [|by injection E as <- _].
    destruct (accounts_try_borrow_mut (accounts c) i) as [a [v|e]] eqn:Eb; [|by injection E as <- _].
    injection E as <- _. split; [|done]. by eapply drop_after_borrow. }
  rewrite <- H1, <- H2. intros E2. assert (borrow_counters (accounts c') = borrow_counters (accounts c1) /\
    instruction_stack c' = removelast (instruction_stack c1)) as [-> ->]; [|done].
  destruct (last (instruction_stack (set_stack _ c1))); destruct r1 as [[|]|]; by injection E2 as <- _.
Qed.

(** ** Host memory *)

Lemma host_read_length host a n bs : host_read host a n = Some bs -> length bs = n.
Proof.
  revert a bs. induction n as [|n IH]; intros a bs; cbn; [by intros [= <-]|].
  destruct (host !! a); [|done]. destruct (host_read host (a + 1) n) eqn:E; [|done]. intros [= <-].
  cbn. f_equal. by eapply IH.
Qed.

Lemma host_write_bytes host a bs host' :
  host_bytes host -> bytes bs -> host_write host a bs = Some host' -> host_bytes host'.
Proof.
  intros Hb Hbs E. assert (backed [] host) as H by (split; [done|done|exact Hb]).
  apply (backed_bytes [] host'), (backed_write [] host a bs host' H Hbs E).
Qed.

(** ** Steps *)

Section steps.
Context (is_exempt : Z -> Z -> bool) (instructions_id sysvar_id : Pubkey).
Context (store : list Z -> Z -> Result (list Z) InstructionError).
Context `{!StoreIndexLaw store}.
Context (l0 d0 : Z).

Abbreviation invokes := (invoke_step is_exempt instructions_id sysvar_id store).

(** The metadata of the accounts comes from the serialisation. *)
Definition metadata_ok (ic : InvokeContext) : Prop :=
  forall sc, get_syscall_context ic = Ok sc ->
    Forall (fun md => 0 <= original_data_len md <= MAX_ACCOUNT_DATA_LEN) (accounts_metadata sc).

(** The invariant; before the callee runs, host memory holds bytes. *)
Definition cpi_inv (entry : bool) (s : CpiState) : Prop :=
  context_ok l0 d0 (cpi_tc s) /\ reentry_ok (cpi_tc s) /\
  (entry = true -> host_bytes (cpi_host s) /\ metadata_ok (cpi_context s)).

Definition holds (ob : option BorrowedInstructionAccount) (s : CpiState) : Prop :=
  match ob with Some b => held b (cpi_tc s) | None => True end.

(** [m] goes by steps, keeps the borrows and the invariant, and when it succeeds keeps the
    instruction stack and returns a value in [Q]. *)
Definition goes {A} (pre post : bool) (ob : option BorrowedInstructionAccount) (m : CpiM A) (Q : A -> Prop) : Prop :=
  forall s s' r, cpi_inv pre s -> holds ob s -> m s = Some (s', r) ->
    rtc invokes (cpi_context s) (cpi_context s') /\ cpi_counters s' = cpi_counters s /\ cpi_inv post s' /\
    forall x, r = Ok x -> cpi_stack s' = cpi_stack s /\ Q x.

Lemma inv_steps pre post s s' :
  cpi_inv pre s -> rtc invokes (cpi_context s) (cpi_context s') ->
  (post = true -> host_bytes (cpi_host s') /\ metadata_ok (cpi_context s')) -> cpi_inv post s'.
Proof.
  intros (Hc & Hr & _) Hs Hp. assert (forall ic ic', rtc invokes ic ic' -> context_ok l0 d0 (transaction_context ic) ->
    reentry_ok (transaction_context ic) -> context_ok l0 d0 (transaction_context ic') /\
    reentry_ok (transaction_context ic')) as H.
  { clear -StoreIndexLaw0. induction 1 as [|x y z Hs _ IH]; [done|]. intros H1 H2.
    destruct (invoke_step_ok is_exempt instructions_id sysvar_id store l0 d0 x y H1 H2 Hs). by apply IH. }
  destruct (H _ _ Hs Hc Hr). done.
Qed.

Lemma holds_counters ob s s' : cpi_counters s' = cpi_counters s -> holds ob s -> holds ob s'.
Proof. destruct ob; [|done]. unfold holds, held. by intros ->. Qed.

Lemma goes_weaken {A} pre post ob (m : CpiM A) (Q Q' : A -> Prop) :
  goes pre post ob m Q -> (forall x, Q x -> Q' x) -> goes pre post ob m Q'.
Proof. intros H HQ s s' r Hi Hh E. destruct (H s s' r Hi Hh E) as (? & ? & ? & Hx). naive_solver. Qed.

Lemma inv_weaken pre post s : (post = true -> pre = true) -> cpi_inv pre s -> cpi_inv post s.
Proof. unfold cpi_inv. naive_solver. Qed.

Lemma goes_bind {A B} pre mid post ob (m : CpiM A) (k : A -> CpiM B) Q Q' :
  goes pre mid ob m Q -> (post = true -> mid = true) ->
  (forall x, Q x -> goes mid post ob (k x) Q') -> goes pre post ob (cpi_bind m k) Q'.
Proof.
  intros Hm Hw Hk s s' r Hi Hh. unfold cpi_bind. destruct (m s) as [[s1 r1]|] eqn:E; [|done].
  cbn [mbind option_bind]. destruct (Hm s s1 r1 Hi Hh E) as (H1 & H2 & H3 & H4). destruct r1 as [x|e].
  - intros E2. destruct (H4 x eq_refl) as [H5 H6].
    destruct (Hk x H6 s1 s' r H3 (holds_counters _ _ _ H2 Hh) E2) as (K1 & K2 & K3 & K4).
    split; [by etrans|]. split; [congruence|]. split; [done|]. intros y Hy. destruct (K4 y Hy). split; [congruence|done].
  - intros [= <- <-]. split; [done|]. split; [done|]. split; [by eapply inv_weaken|done].
Qed.

Lemma goes_seq {A B} hb ob (m : CpiM A) (k : A -> CpiM B) Q Q' :
  goes hb hb ob m Q -> (forall x, Q x -> goes hb hb ob (k x) Q') -> goes hb hb ob (cpi_bind m k) Q'.
Proof. intros Hm. by apply goes_bind. Qed.

Lemma goes_mapM {A B} hb ob (f : A -> CpiM B) (l : list A) Q :
  (forall x, x ∈ l -> goes hb hb ob (f x) Q) -> goes hb hb ob (cpi_mapM f l) (Forall Q).
Proof.
  induction l as [|x l IH]; intros Hf; cbn [cpi_mapM].
  { intros s s' r Hi Hh [= <- <-]. split; [done|]. split; [done|]. split; [done|]. intros y [= <-]. done. }
  eapply goes_seq; [apply Hf; by left|]. intros y Hy.
  eapply goes_seq; [apply IH; intros; apply Hf; by right|]. intros ys Hys.
  intros s s' r Hi Hh [= <- <-]. split; [done|]. split; [done|]. split; [done|]. intros z [= <-].
  split; [done|by constructor].
Qed.

(** A computation that does not touch the context. *)
Lemma goes_pure {A} hb ob (m : CpiM A) (Q : A -> Prop) :
  (forall s s' r, cpi_inv hb s -> m s = Some (s', r) -> cpi_context s' = cpi_context s /\
     (hb = true -> host_bytes (cpi_host s')) /\ forall x, r = Ok x -> Q x) ->
  goes hb hb ob m Q.
Proof.
  intros H s s' r Hi Hh E. destruct (H s s' r Hi E) as (Hc & Hb & HQ). rewrite Hc.
  split; [done|]. split; [done|]. split; [|naive_solver].
  destruct Hi as (H1 & H2 & H3). split; [by rewrite Hc|]. split; [by rewrite Hc|]. rewrite Hc. naive_solver.
Qed.

Lemma goes_ret {A} hb ob (x : A) (Q : A -> Prop) : Q x -> goes hb hb ob (cpi_ret x) Q.
Proof. intros HQ. apply goes_pure. intros s s' r (_ & _ & Hi) [= <- <-]. naive_solver. Qed.

Lemma goes_fail {A} hb ob e (Q : A -> Prop) : goes hb hb ob (cpi_fail e) Q.
Proof. apply goes_pure. intros s s' r (_ & _ & Hi) [= <- <-]. naive_solver. Qed.

Lemma goes_get {A} hb ob (f : CpiState -> A) (Q : A -> Prop) :
  (forall s, cpi_inv hb s -> Q (f s)) -> goes hb hb ob (cpi_get f) Q.
Proof. intros HQ. apply goes_pure. intros s s' r Hi [= <- <-]. pose proof Hi as (_ & _ & ?). naive_solver. Qed.

Lemma goes_check {A} hb ob (f : TransactionContext -> Result A InstructionError) :
  goes hb hb ob (cpi_check f) (fun _ => True).
Proof. apply goes_pure. intros s s' r (_ & _ & Hi) [= <- <-]. naive_solver. Qed.

Lemma goes_translate {A} hb ob (f : MemoryMapping -> MemoryMapping * Result A BoxError) (Q : A -> Prop) :
  (forall m m' x, f m = (m', Ok x) -> Q x) -> goes hb hb ob (cpi_translate f) Q.
Proof.
  intros HQ. apply goes_pure. intros s s' r (_ & _ & Hi). unfold cpi_translate.
  destruct (f (cpi_mapping s)) as [m r1] eqn:E. intros [= <- <-]. split; [done|]. split; [naive_solver|].
  intros x. destruct r1; [|done]. cbn. intros [= <-]. by eapply HQ.
Qed.

Lemma goes_read hb ob ptr n :
  goes hb hb ob (cpi_read ptr n) (fun bs => length bs = Z.to_nat n /\ (hb = true -> bytes bs)).
Proof.
  apply goes_pure. intros s s' r (_ & _ & Hi). unfold cpi_read.
  destruct (host_read (cpi_host s) ptr (Z.to_nat n)) as [bs|] eqn:E; [|done]. intros [= <- <-].
  split; [done|]. split; [naive_solver|]. intros x [= <-]. split; [by eapply host_read_length|].
  intros ->. eapply host_read_bytes; [|done]. by apply Hi.
Qed.

Lemma goes_write hb ob ptr bs : (hb = true -> bytes bs) -> goes hb hb ob (cpi_write ptr bs) (fun _ => True).
Proof.
  intros Hbs. apply goes_pure. intros s s' r (_ & _ & Hi). unfold cpi_write.
  destruct (host_write (cpi_host s) ptr bs) as [host|] eqn:E; [|done]. intros [= <- <-].
  split; [done|]. split; [|done]. intros ->. eapply host_write_bytes; [|by apply Hbs|done]. by apply Hi.
Qed.

(** A computation that moves the context by one step. *)
Lemma goes_step {A} hb ob (m : CpiM A) (Q : A -> Prop) :
  (forall s s' r, cpi_inv hb s -> holds ob s -> m s = Some (s', r) ->
     rtc invokes (cpi_context s) (cpi_context s') /\ cpi_host s' = cpi_host s /\
     syscall_context (cpi_context s') = syscall_context (cpi_context s) /\
     cpi_counters s' = cpi_counters s /\ cpi_stack s' = cpi_stack s /\ forall x, r = Ok x -> Q x) ->
  goes hb hb ob m Q.
Proof.
  intros H s s' r Hi Hh E. destruct (H s s' r Hi Hh E) as (H1 & H2 & H3 & H4 & H5 & H6).
  split; [done|]. split; [done|]. split; [|naive_solver]. eapply inv_steps; [done..|]. rewrite H2.
  destruct Hi as (_ & _ & Hi). intros Hb. split; [by apply Hi|]. intros sc. unfold get_syscall_context. rewrite H3.
  by apply Hi.
Qed.

Lemma goes_consume hb ob amount : goes hb hb ob (cpi_consume amount) (fun _ => True).
Proof.
  apply goes_step. intros s s' r _ _. unfold cpi_consume. destruct (consume_checked _ _) as [ic r1] eqn:E.
  intros [= <- <-]. split; [apply rtc_once; by eapply invoke_step_meter|].
  unfold consume_checked in E. by injection E as <- _.
Qed.

(** Operations on the borrowed account. *)
Lemma goes_op hb b op : op_ok op ->
  goes hb hb (Some b) (cpi_tx (run_op is_exempt b op)) (fun _ => True).
Proof.
  intros Hop. apply goes_step. intros s s' r (Hc & _) Hh. unfold cpi_tx.
  destruct (run_op is_exempt b op (cpi_tc s)) as [c r1] eqn:E. intros [= <- <-]. cbn.
  split; [apply rtc_once, invoke_step_account; by eapply step_op|].
  pose proof (held_range _ _ _ _ (ctx_accounts _ _ _ Hc) Hh) as Hr.
  pose proof (run_op_effect is_exempt _ _ b op _ c r1 (ctx_accounts _ _ _ Hc) Hr Hop E) as He.
  destruct (op_effect_counters _ _ _ He). done.
Qed.

Lemma goes_with_borrowed {A} hb ic k (body : BorrowedInstructionAccount -> CpiM A) Q :
  (forall b, goes hb hb (Some b) (body b) Q) -> goes hb hb None (with_borrowed ic k body) Q.
Proof.
  intros Hbody s s' r Hi _. unfold with_borrowed, cpi_bind, cpi_tx.
  destruct (try_borrow_instruction_account ic k (cpi_tc s)) as [c1 r1] eqn:E.
  assert (invokes (cpi_context s) (set_transaction_context c1 (cpi_context s))) as Hs1
    by (apply invoke_step_account; by eapply step_borrow).
  unfold try_borrow_instruction_account, tx_bind, tx_lift, on_accounts, tx_ret in E.
  destruct (get_instruction_account ic k) as [ia|]; cbn in E.
  2:{ injection E as <- <-. cbn. intros [= <- <-]. cbn. split; [by apply rtc_once|]. split; [done|].
      split; [|done]. by destruct s as [[] ? ?]. }
  destruct (accounts_try_borrow_mut (accounts (cpi_tc s)) (index_in_transaction ia)) as [a' [v|e]] eqn:Eb.
  2:{ injection E as <- <-. cbn. intros [= <- <-]. cbn. split; [by apply rtc_once|]. apply borrow_mut_fails in Eb as ->.
      split; [done|]. split; [|done]. eapply inv_steps; [exact Hi|by apply rtc_once|]. by apply Hi. }
  injection E as <- <-. cbn [map_err mbind option_bind].
  apply borrow_mut_counter in Eb as [H0 Ec].
  set (b := mkBorrowed ia (ic_program_account_index_in_tx ic)) in *.
  set (s1 := set_cpi_context _ s) in *.
  assert (cpi_inv hb s1) as Hi1 by (eapply inv_steps; [exact Hi|by apply rtc_once|by apply Hi]).
  assert (holds (Some b) s1) as Hh1.
  { unfold holds, held, s1. cbn. rewrite Ec, list_lookup_insert_eq; [done|]. by eapply lookup_lt_Some. }
  destruct (body b s1) as [[s2 r2]|] eqn:Ebd; [|done]. cbn [mbind option_bind]. intros [= <- <-].
  destruct (Hbody b s1 s2 r2 Hi1 Hh1 Ebd) as (K1 & K2 & K3 & K4).
  assert (invokes (cpi_context s2) (set_transaction_context (drop_borrowed b (cpi_tc s2)) (cpi_context s2))) as Hs2.
  { apply invoke_step_account, step_drop. by eapply (holds_counters (Some b)). }
  split; [eapply rtc_l; [exact Hs1|]; by eapply rtc_r|]. cbn. split.
  - apply (give_back_counters (accounts (cpi_tc s))); [done|]. rewrite K2. exact Ec.
  - split; [eapply inv_steps; [exact K3|by apply rtc_once|by apply K3]|]. naive_solver.
Qed.

(** Data that is mapped writable is touched, like data that is written to. *)
Lemma get_data_mut_write b c :
  accounts_ok l0 d0 (accounts c) -> in_range b c -> write_data b (0 :: get_data b c) c = get_data_mut b c.
Proof.
  intros H Hr. pose proof (ok_private _ _ _ H) as Hp. unfold write_data, tx_bind at 1.
  assert (length (0 :: get_data b c) = S (length (get_data b c))) as Hl by done.
  set (bs := 0 :: get_data b c) in *. clearbody bs.
  destruct (get_data_mut b c) as [c1 [x|e]] eqn:E; [|done].
  unfold get_data_mut, tx_bind at 1, tx_lift in E. destruct (can_data_be_changed b c) as [[]|]; [|done].
  unfold tx_bind at 1 in E. rewrite (touch_effect l0 d0) in E by done.
  rewrite make_data_mut_update in E; [|exact Hp|exact Hr|done].
  unfold update_view, tx_modify in *. injection E as <- <-. f_equal.
  unfold get_data, account_view, in_range in *. destruct c as [[] ? ? ? ? ? ? ? ? ? ?].
  unfold set_accounts, put_view, get_view in *. cbn in *.
  rewrite !list_lookup_total_insert_eq by lia. cbn.
  replace (length bs =? _)%nat with false
    by (symmetry; apply Nat.eqb_neq; rewrite Hl; unfold view_data, account_view, get_view; cbn; lia). cbn.
  by rewrite !list_insert_insert_eq.
Qed.

Lemma goes_create_region hb ptr b at_ :
  goes hb hb (Some b) (cpi_tx (create_memory_region_of_account ptr b at_)) (fun _ => True).
Proof.
  intros s s' r Hi Hh. pose proof Hi as (Hc & _).
  pose proof (held_range _ _ _ _ (ctx_accounts _ _ _ Hc) Hh) as Hr.
  unfold cpi_tx, create_memory_region_of_account, tx_bind, tx_get, tx_ret. destruct (_ && _).
  2:{ assert (set_cpi_context (set_transaction_context (cpi_tc s) (cpi_context s)) s = s) as Es
        by by destruct s as [[] ? ?].
      destruct (is_ok _); rewrite Es; intros [= <- <-]; done. }
  rewrite <- (get_data_mut_write b (cpi_tc s) (ctx_accounts _ _ _ Hc) Hr).
  destruct (write_data _ _ _) as [c r1] eqn:E. intros Es.
  assert (s' = set_cpi_context (set_transaction_context c (cpi_context s)) s) as ->
    by (destruct r1; [destruct (is_ok _)|]; by injection Es as <- _).
  destruct (goes_op hb b (OpWriteData (0 :: get_data b (cpi_tc s)))) with s
    (set_cpi_context (set_transaction_context c (cpi_context s)) s) (map_err FailInstruction r1)
    as (H1 & H2 & H3 & H4); [|done|done|unfold cpi_tx; cbn [run_op]; by rewrite E|].
  { cbn [op_ok]. pose proof (data_len_bounds l0 d0 b (cpi_tc s) (ctx_accounts _ _ _ Hc) Hr).
    unfold rust_len, len, MAX_ACCOUNT_DATA_LEN in *. cbn. lia. }
  split; [done|]. split; [done|]. split; [done|]. intros y Hy. split; [|done].
  destruct r1 as [x|e]; [by eapply H4|]. subst r. by injection Es.
Qed.

Lemma u64_of_bytes bs : bytes bs -> length bs = 8%nat -> is_u64 (le_combine bs).
Proof. intros Hb Hl. pose proof (le_combine_range bs Hb) as H. unfold len in H. rewrite Hl in H. exact H. Qed.

Lemma goes_set_lamports hb b n : is_u64 n -> goes hb hb (Some b) (cpi_tx (set_lamports b n)) (fun _ => True).
Proof. intros H. exact (goes_op hb b (OpSetLamports n) H). Qed.
Lemma goes_set_data_length hb b n : is_u64 n -> goes hb hb (Some b) (cpi_tx (set_data_length b n)) (fun _ => True).
Proof. intros H. exact (goes_op hb b (OpSetDataLength n) H). Qed.
Lemma goes_set_data hb b bs : rust_len bs -> goes hb hb (Some b) (cpi_tx (set_data_from_slice b bs)) (fun _ => True).
Proof. intros H. exact (goes_op hb b (OpSetData bs) H). Qed.
Lemma goes_set_owner hb b k : goes hb hb (Some b) (cpi_tx (set_owner b k)) (fun _ => True).
Proof. exact (goes_op hb b (OpSetOwner k) I). Qed.

(** ** The parts of an invocation *)

Create HintDb cpi.
#[local] Hint Resolve goes_ret goes_fail goes_check goes_consume goes_read goes_set_owner goes_create_region : cpi.

(** Walk through a computation: what the database does not know is shown to go by steps, its value
    forgotten. *)
#[local] Ltac go :=
  repeat first
    [ solve [eauto 2 with cpi]
    | solve [eapply goes_weaken; [solve [eauto 2 with cpi] | done]]
    | progress cbn zeta
    | match goal with
      | |- goes _ _ _ (cpi_bind _ _) _ =>
          first [ eapply goes_seq; [solve [eauto 2 with cpi] | intros ? ?]
                | eapply (goes_seq _ _ _ _ (fun _ => True)); [ | intros ? _] ]
      | |- goes _ _ _ (if ?b then _ else _) _ => destruct b eqn:?
      | |- goes _ _ _ (match ?x with _ => _ end) _ => destruct x eqn:?
      | |- goes _ _ _ (cpi_get _) _ => apply goes_get; intros ? ?
      | |- goes _ _ _ (cpi_mapM _ _) _ => eapply goes_weaken; [apply (goes_mapM _ _ _ _ (fun _ => True)); intros ? _|done]
      end ].

Section parts.
Context (env : CpiEnvironment).

Lemma goes_read_type hb ob size align addr ca :
  goes hb hb ob (read_type size align addr ca) (fun bs => length bs = Z.to_nat size /\ (hb = true -> bytes bs)).
Proof. unfold read_type. eapply goes_seq; [by apply (goes_translate _ _ _ (fun _ => True))|]. intros ptr _. go. Qed.

Lemma goes_read_slice hb ob size align addr n ca :
  goes hb hb ob (read_slice size align addr n ca) (fun _ => True).
Proof. unfold read_slice. eapply goes_seq; [by apply (goes_translate _ _ _ (fun _ => True))|]. intros ptr _. go. Qed.

Lemma goes_read_bytes hb ob addr n ca : goes hb hb ob (read_bytes addr n ca) (fun _ => True).
Proof.
  unfold read_bytes. eapply goes_seq; [by apply (goes_translate _ _ _ (fun _ => True))|]. intros ptr _.
  eapply goes_weaken; [apply goes_read|done].
Qed.

Lemma goes_translate_mut hb ob size align addr ca :
  goes hb hb ob (translate_type_mut_for_cpi size align addr ca) (fun _ => True).
Proof. by apply goes_translate. Qed.

Definition slice_ok (s : HostSlice) : Prop := hs_len s <= i64_MAX.

Lemma goes_slice_mut hb ob addr n ca : goes hb hb ob (translate_slice_mut_for_cpi addr n ca) slice_ok.
Proof.
  apply goes_translate. intros m m' x. unfold translate_slice_inner, slice_ok.
  destruct (n =? 0); [by intros [= _ <-]|]. destruct (Z.ltb_spec i64_MAX (saturating_mul n 1)); [done|].
  destruct (translate_inner _ _ _ _) as [m1 [h|]]; [|done]. destruct (_ && _)%bool; [done|]. intros [= _ <-]. cbn.
  unfold saturating_mul in *. lia.
Qed.

#[local] Hint Resolve goes_read_type goes_read_slice goes_read_bytes goes_translate_mut goes_slice_mut : cpi.

Lemma goes_get_serialized_data hb ob ca addr original n :
  0 <= original <= MAX_ACCOUNT_DATA_LEN ->
  goes hb hb ob (get_serialized_data env ca addr original n) slice_ok.
Proof.
  intros Ho. unfold get_serialized_data. destruct (stricter_abi env); cbn [andb]; [|apply goes_slice_mut].
  destruct (Z.ltb_spec (address_space_reserved_for_account (negb ca) original) n); [apply goes_fail|].
  destruct (direct_mapping env); [by apply goes_ret|].
  eapply goes_seq; [apply goes_slice_mut|]. intros s _. apply goes_ret.
  unfold slice_ok, address_space_reserved_for_account, saturating_add, MAX_PERMITTED_DATA_INCREASE,
    MAX_ACCOUNT_DATA_GROWTH_PER_INSTRUCTION, MAX_ACCOUNT_DATA_LEN in *.
  cbn. destruct (negb ca); lia.
Qed.

Lemma goes_checks hb ob addr expected : goes hb hb ob (check_pointer_if_strict env addr expected) (fun _ => True).
Proof. unfold check_pointer_if_strict, check_account_info_pointer. go. Qed.
Lemma goes_outside hb ob addr : goes hb hb ob (check_outside_input env addr) (fun _ => True).
Proof. unfold check_outside_input. destruct (_ && _); go. Qed.
Lemma goes_consume_lenient hb ob n : goes hb hb ob (consume_data_if_lenient env n) (fun _ => True).
Proof. unfold consume_data_if_lenient. go. Qed.
#[local] Hint Resolve goes_get_serialized_data goes_checks goes_outside goes_consume_lenient : cpi.

(** A caller account whose data was translated. *)
Definition caller_ok (c : CallerAccount) : Prop :=
  slice_ok (ca_serialized_data c) /\ 0 <= ca_original_data_len c <= MAX_ACCOUNT_DATA_LEN.

Definition md_ok (md : SerializedAccountMetadata) : Prop := 0 <= original_data_len md <= MAX_ACCOUNT_DATA_LEN.

Lemma goes_finish hb ob ca lamports owner addr n len_addr md :
  md_ok md -> goes hb hb ob (finish_caller_account env ca lamports owner addr n len_addr md) caller_ok.
Proof.
  intros Hmd. unfold finish_caller_account. eapply goes_seq; [apply goes_outside|]. intros _ _.
  eapply goes_seq; [apply goes_translate_mut|]. intros ptr _.
  eapply (goes_seq _ _ _ _ (fun _ => True)); [go|]. intros k _.
  eapply goes_seq; [by apply goes_get_serialized_data|]. intros sl Hsl. by apply goes_ret.
Qed.
#[local] Hint Resolve goes_finish : cpi.

Lemma goes_from_account_info hb ob ca vm_addr ptr bs md :
  md_ok md -> goes hb hb ob (from_account_info env ca vm_addr ptr bs md) caller_ok.
Proof. intros Hmd. unfold from_account_info. go. Qed.

Lemma goes_from_sol_account_info hb ob ca vm_addr ptr bs md :
  md_ok md -> goes hb hb ob (from_sol_account_info env ca vm_addr ptr bs md) caller_ok.
Proof. intros Hmd. unfold from_sol_account_info. go. Qed.

Lemma goes_check_flags hb ob x y : goes hb hb ob (check_flags x y) (fun _ => True).
Proof. unfold check_flags. destruct (_ || _); go. Qed.
Lemma goes_check_size hb ob x y : goes hb hb ob (check_instruction_size x y) (fun _ => True).
Proof. unfold check_instruction_size. go. Qed.
Lemma goes_check_infos hb ob x : goes hb hb ob (check_account_infos env x) (fun _ => True).
Proof. unfold check_account_infos. go. Qed.
#[local] Hint Resolve goes_check_flags goes_check_size goes_check_infos : cpi.

Lemma goes_translate_instruction hb ob abi addr ca :
  goes hb hb ob (translate_instruction env abi addr ca) (fun _ => True).
Proof.
  destruct abi; unfold translate_instruction, translate_instruction_rust, translate_instruction_c; go.
Qed.

Lemma goes_translate_signers hb ob key addr n ca :
  goes hb hb ob (translate_signers env key addr n ca) (fun _ => True).
Proof. unfold translate_signers, translate_signer, translate_vm_slice. go. Qed.

Lemma goes_account_infos hb ob size addr n key ca :
  goes hb hb ob (translate_account_infos env size addr n key ca) (fun _ => True).
Proof.
  unfold translate_account_infos. destruct (_ && _); [go|].
  eapply goes_seq; [by apply (goes_translate _ _ _ (fun _ => True))|]. intros sl _. go.
Qed.

#[local] Hint Resolve goes_translate_instruction goes_translate_signers goes_account_infos : cpi.

Lemma goes_data hb ob b : goes hb hb ob (cpi_data b) (fun _ => True).
Proof. by apply goes_get. Qed.
#[local] Hint Resolve goes_data : cpi.

Lemma goes_zeros hb ob ptr n : goes hb hb ob (cpi_write ptr (replicate n 0)) (fun _ => True).
Proof. apply goes_write. intros _. by apply Forall_replicate. Qed.
#[local] Hint Resolve goes_zeros : cpi.

(** Operations with what was read before. *)
#[local] Ltac go_op :=
  cbv beta in *;
  match goal with
  | H : length ?bs = _ /\ _ |- goes _ _ _ (cpi_tx (set_data_from_slice _ ?bs)) _ =>
      destruct H as [? _]; apply goes_set_data; unfold rust_len, slice_ok, len in *; lia
  | H : length ?bs = _ /\ _ |- goes _ _ _ (cpi_tx (_ _ (le_combine ?bs))) _ =>
      destruct H; first [apply goes_set_data_length | apply goes_set_lamports]; apply u64_of_bytes; [auto | done]
  end.

Lemma goes_callee_data_strict ca caller b :
  caller_ok caller -> goes true true (Some b) (update_callee_data_strict env ca caller b) (fun _ => True).
Proof. intros [Hs Ho]. unfold update_callee_data_strict. go; go_op. Qed.

Lemma goes_callee_data_lenient caller b :
  caller_ok caller -> goes true true (Some b) (update_callee_data_lenient caller b) (fun _ => True).
Proof. intros [Hs Ho]. unfold update_callee_data_lenient. go; go_op. Qed.
#[local] Hint Resolve goes_callee_data_strict goes_callee_data_lenient : cpi.

Lemma goes_update_callee ca caller b :
  caller_ok caller -> goes true true (Some b) (update_callee_account env ca caller b) (fun _ => True).
Proof. intros Hc. unfold update_callee_account. go; go_op. Qed.
#[local] Hint Resolve goes_update_callee : cpi.

Lemma goes_update_region ca caller b :
  goes false false (Some b) (update_caller_account_region env ca caller b) (fun _ => True).
Proof.
  unfold update_caller_account_region. destruct (0 <? _); [|go].
  eapply (goes_seq _ _ _ _ (fun _ => True)).
  { apply goes_pure. intros s s' r (_ & _ & Hi). destruct (find_region _ _) as [m f]. by intros [= <- <-]. }
  intros [i region] _. destruct (negb _); [by intros s s' r|]. eapply (goes_seq _ _ _ _ (fun _ => True)); [go|].
  intros region' _. by apply goes_translate.
Qed.

Lemma goes_write_exit ob ptr bs : goes false false ob (cpi_write ptr bs) (fun _ => True).
Proof. by apply goes_write. Qed.
#[local] Hint Resolve goes_update_region goes_write_exit : cpi.

Lemma goes_update_length ca caller b prev post :
  caller_ok caller -> goes false false (Some b) (update_caller_length env ca caller prev post) (fun _ => True).
Proof. intros [Hs Ho]. unfold update_caller_length. go. Qed.
#[local] Hint Resolve goes_update_length : cpi.

Lemma goes_update_caller ca caller b :
  caller_ok caller -> goes false false (Some b) (update_caller_account env ca caller b) (fun _ => True).
Proof. intros Hc. unfold update_caller_account. go. Qed.
#[local] Hint Resolve goes_update_caller : cpi.

(** A translated account has a good caller account. *)
Definition translated_ok (t : TranslatedAccount) : Prop := caller_ok (caller_account t).
Definition maybe_translated_ok (t : option TranslatedAccount) : Prop :=
  match t with Some t => translated_ok t | None => True end.

Lemma goes_translate_account size addr infos keys ca do_translate metadata next current item :
  (forall ca vm_addr ptr bs md b, md_ok md -> goes true true (Some b) (do_translate ca vm_addr ptr bs md) caller_ok) ->
  Forall md_ok metadata ->
  goes true true None (translate_account env size addr infos keys ca do_translate metadata next current item)
    maybe_translated_ok.
Proof.
  intros Hdo Hmd. unfold translate_account. destruct item as [index ia].
  eapply goes_seq; [apply goes_check|]. intros [d|] _; [by apply goes_ret|].
  eapply goes_seq; [apply goes_check|]. intros k _. apply goes_with_borrowed. intros b.
  eapply goes_seq; [apply goes_check|]. intros key _.
  eapply goes_seq; [by apply (goes_get _ _ _ (fun _ => True))|]. intros [|] _; [by go|].
  destruct (position key keys 0); [|apply goes_fail].
  destruct (metadata !! Z.to_nat k) as [md|] eqn:Emd; [|apply goes_fail].
  destruct (infos !! _) as [[ptr info]|]; [|apply goes_fail].
  eapply goes_seq; [by apply Hdo, (Forall_lookup_1 _ _ _ _ Hmd Emd)|]. intros caller Hcaller.
  eapply (goes_seq _ _ _ _ (fun _ => True)); [go|]. intros update _. by apply goes_ret.
Qed.

Lemma goes_translate_common size addr infos keys ca do_translate :
  (forall ca vm_addr ptr bs md b, md_ok md -> goes true true (Some b) (do_translate ca vm_addr ptr bs md) caller_ok) ->
  goes true true None (translate_accounts_common env size addr infos keys ca do_translate) (Forall translated_ok).
Proof.
  intros Hdo. unfold translate_accounts_common. eapply goes_seq; [apply goes_check|]. intros next _.
  eapply goes_seq; [apply goes_check|]. intros current _. eapply (goes_seq _ _ _ _ (Forall md_ok)).
  { apply goes_pure. intros s s' r (_ & _ & Hi). destruct (get_syscall_context _) as [sc|] eqn:E; [|done].
    intros [= <- <-]. split; [done|]. split; [naive_solver|]. intros x [= <-]. by apply Hi. }
  intros metadata Hmd. eapply goes_seq; [apply goes_mapM; intros; by apply goes_translate_account|].
  intros l Hl. apply goes_ret. clear -Hl. induction Hl as [|[t|] l Ht _ IH]; cbn; [done|by constructor|done].
Qed.

Lemma goes_translate_accounts abi addr n ca :
  goes true true None (translate_accounts env abi addr n ca) (Forall translated_ok).
Proof.
  destruct abi; unfold translate_accounts, translate_accounts_rust, translate_accounts_c; cbn zeta;
    (eapply goes_seq; [apply goes_account_infos|]); intros [infos keys] _; apply goes_translate_common; intros.
  - by apply goes_from_account_info.
  - by apply goes_from_sol_account_info.
Qed.

Lemma goes_update_callees ca accounts :
  Forall translated_ok accounts ->
  goes true true None (update_callee_accounts env ca accounts) (Forall translated_ok).
Proof.
  intros Hl. unfold update_callee_accounts. destruct (stricter_abi env); [|by apply goes_ret].
  eapply goes_seq; [apply goes_check|]. intros current _. apply goes_mapM. intros t Ht.
  rewrite Forall_forall in Hl. eapply (goes_seq _ _ _ _ (fun _ => True)).
  - apply goes_with_borrowed. intros b. by apply goes_update_callee, Hl.
  - intros u _. apply goes_ret. exact (Hl t Ht).
Qed.

Lemma goes_exit ca accounts :
  Forall translated_ok accounts -> goes false false None (cpi_exit env ca accounts) (fun _ => True).
Proof.
  intros Hl. rewrite Forall_forall in Hl. unfold cpi_exit. eapply goes_seq; [apply goes_check|]. intros current _.
  eapply goes_seq.
  - apply (goes_mapM _ _ _ _ (fun _ => True)). intros t Ht. apply goes_with_borrowed. intros b.
    destruct (update_caller_account_info_flag t); [|by apply goes_ret]. by apply goes_update_caller, Hl.
  - intros _ _. destruct (stricter_abi env); [|by apply goes_ret]. eapply goes_seq; [|intros; by apply goes_ret].
    apply (goes_mapM _ _ _ _ (fun _ => True)). intros t Ht. apply goes_with_borrowed. intros b.
    destruct (update_caller_account_region_flag t); [|by apply goes_ret]. apply goes_update_region.
Qed.

Lemma goes_prepare abi addr seeds n ca : goes true true None (cpi_prepare env abi addr seeds n ca) (fun _ => True).
Proof.
  unfold cpi_prepare. go. unfold check_authorized_program. go.
  apply goes_step. intros s s' r _ _. destruct (prepare_next_instruction _ _ _) as [[ic r1]|] eqn:E; [|done].
  intros [= <- <-]. split; [apply rtc_once; by eapply invoke_step_prepare|].
  unfold prepare_next_instruction in E. destruct (get_current_instruction_context _); [|by injection E as <- _].
  destruct (callee_accounts _ _ _ _) as [[[[ias m] p]|e]|]; [|by injection E as <- _|done].
  destruct (get_current_instruction_index _); [|by injection E as <- _].
  unfold configure_next_instruction in E. by destruct (last _); injection E as <- _.
Qed.

(** ** The whole invocation *)

(** What the caller relies on when an instruction is processed: the same as the caller
    guarantees. *)
Class CalleeGoes
    (chain : InvokeContext -> HostMemory -> option (InvokeContext * HostMemory * Result unit InstructionError)) : Prop :=
  callee_goes ic host ic' host' r :
    context_ok l0 d0 (transaction_context ic) -> reentry_ok (transaction_context ic) ->
    chain ic host = Some (ic', host', r) ->
    rtc invokes ic ic' /\
    borrow_counters (accounts (transaction_context ic')) = borrow_counters (accounts (transaction_context ic)) /\
    instruction_stack (transaction_context ic') = instruction_stack (transaction_context ic).

Context (chain : InvokeContext -> HostMemory -> option (InvokeContext * HostMemory * Result unit InstructionError)).
Context `{!CalleeGoes chain}.

Lemma invoke_push_same ic ic' r :
  invoke_push instructions_id sysvar_id store ic = (ic', r) ->
  borrow_counters (accounts (transaction_context ic')) = borrow_counters (accounts (transaction_context ic)) /\
  forall x, r = Ok x -> exists i, instruction_stack (transaction_context ic') = instruction_stack (transaction_context ic) ++ [i].
Proof.
  unfold invoke_push. destruct (get_instruction_context_at_index_in_trace _ _); [|by intros [= <- <-]].
  destruct (get_program_key _ _); [|by intros [= <- <-]]. destruct (_ && _); [by intros [= <- <-]|].
  destruct (tx_push _ _ _ _) as [c r1] eqn:E. intros [= <- <-]. by eapply push_same.
Qed.

Lemma goes_process : goes true false None (process_callee instructions_id sysvar_id store chain) (fun _ => True).
Proof.
  intros s s' r Hi _. unfold process_callee.
  destruct (invoke_push _ _ _ _) as [ic1 r1] eqn:E1.
  assert (invokes (cpi_context s) ic1) as Hs1 by by eapply invoke_step_push.
  pose proof (invoke_push_same _ _ _ E1) as [Hc1 Hk1].
  assert (cpi_inv false (set_cpi_context ic1 s)) as Hi1 by (eapply inv_steps; [exact Hi|by apply rtc_once|done]).
  destruct r1 as [[]|e].
  2:{ intros [= <- <-]. split; [by apply rtc_once|done]. }
  destruct (Hk1 _ eq_refl) as [i Hst1]. destruct (chain ic1 (cpi_host s)) as [[[ic2 host] r2]|] eqn:E2; [|done].
  cbn [mbind option_bind]. destruct Hi1 as (Hi11 & Hi12 & _).
  destruct (callee_goes _ _ _ _ _ Hi11 Hi12 E2) as (Hs2 & Hc2 & Hst2).
  destruct (invoke_pop ic2) as [ic3 r3] eqn:E3. intros [= <- <-].
  assert (invokes ic2 ic3) as Hs3 by by eapply invoke_step_pop.
  unfold invoke_pop in E3. cbn [transaction_context set_syscall_contexts] in E3.
  destruct (tx_pop (transaction_context ic2)) as [c3 r3'] eqn:E4. injection E3 as <- <-.
  apply pop_same in E4 as [Hc3 Hst3].
  split; [eapply rtc_l; [exact Hs1|]; by eapply rtc_r|]. split; [etrans; [exact Hc3|]; etrans; [exact Hc2|exact Hc1]|]. split.
  { eapply inv_steps; [exact Hi| |done]. cbn. eapply rtc_l; [exact Hs1|]. by eapply rtc_r. }
  intros x Ex. split; [|done]. cbn. destruct r2; [|done]. destruct r3' as [y|]; [|done].
  etrans; [apply (Hst3 y eq_refl)|]. rewrite Hst2. cbn. cbn in Hst1. rewrite Hst1. apply removelast_last.
Qed.

Lemma goes_cpi abi instruction infos infos_len seeds seeds_len :
  goes true false None
    (cpi_common env instructions_id sysvar_id store chain abi instruction infos infos_len seeds seeds_len)
    (fun x => x = 0).
Proof.
  unfold cpi_common. eapply goes_bind; [apply goes_consume|done|]. intros _ _.
  eapply (goes_bind _ true _ _ _ _ (fun _ => True)); [|done|].
  { apply goes_pure. intros s s' r (_ & _ & Hi). destruct (get_check_aligned _ _); [|done]. intros [= <- <-]. naive_solver. }
  intros ca _. eapply goes_bind; [apply goes_prepare|done|]. intros _ _.
  eapply goes_bind; [apply goes_translate_accounts|done|]. intros accounts Ha.
  eapply goes_bind; [by apply goes_update_callees|done|]. intros accounts' Ha'.
  eapply goes_bind; [apply goes_process|done|]. intros _ _.
  eapply goes_bind; [by apply goes_exit|done|]. intros _ _. by apply goes_ret.
Qed.

End parts.

End steps.
