(* ===== verification/CpiSafe.v ===== *)
(** Memory safety of cross-program invocation without the stricter rules: whatever addresses and
    structures the caller passes, the runtime reads and writes only memory of the regions of the
    caller, and does not panic. *)

From Stdlib Require Import ZArith Lia Bool.
From stdpp Require Import strings.
From S2P Require Import Prelude.
From S2P Require Import SbpfTypes.
From S2P Require Import Ebpf.
From S2P Require Import MemoryRegion.
From S2P Require Import Mapping.
From S2P Require Import MappingSafe.
From S2P Require Import TxAccounts.
From S2P Require Import TxContext.
From S2P Require Import TxSafe.
From S2P Require Import InvokeContext.
From S2P Require Import InvokeSafe.
From S2P Require Import Serialize.
From S2P Require Import MemOps.
From S2P Require Import MemOpsSafe.
From S2P Require Import Cpi.
From S2P Require Import CpiSteps.

#[local] Open Scope Z_scope.

(** ** Accounts hold bytes *)

(** A vector of bytes. *)
Definition stored (bs : list Z) : Prop := bytes bs /\ len bs <= i64_MAX.
Definition owner_ok (owner : Pubkey) : Prop := bytes owner /\ length owner = 32%nat.

Record data_ok (c : TransactionContext) : Prop := {
  data_owners : Forall (fun s => owner_ok (account_owner s)) (shared_account_fields (accounts c));
  data_payloads : Forall (fun p => stored (payload p)) (private_account_fields (accounts c));
  data_lengths : length (private_account_fields (accounts c)) = length (shared_account_fields (accounts c))
}.

Lemma put_view_data_ok c i v a :
  data_ok c -> shared_account_fields a = shared_account_fields (accounts c) ->
  private_account_fields a = private_account_fields (accounts c) ->
  ((Z.to_nat i < length (shared_account_fields (accounts c)))%nat ->
     owner_ok (view_owner v) /\ stored (view_data v)) ->
  data_ok (set_accounts (put_view i v a) c).
Proof.
  intros [Ho Hp Hl] E1 E2 Hv. split; cbn; rewrite ?E1, ?E2.
  - destruct (decide (Z.to_nat i < length (shared_account_fields (accounts c)))%nat).
    + apply Forall_insert; [done|]. by apply Hv.
    + by rewrite list_insert_ge by lia.
  - destruct (decide (Z.to_nat i < length (shared_account_fields (accounts c)))%nat).
    + apply Forall_insert; [done|]. by apply Hv.
    + by rewrite list_insert_ge by lia.
  - by rewrite !length_insert.
Qed.

Lemma view_data_ok c i :
  data_ok c -> (Z.to_nat i < length (shared_account_fields (accounts c)))%nat ->
  owner_ok (view_owner (get_view (accounts c) i)) /\ stored (view_data (get_view (accounts c) i)).
Proof.
  intros [Ho Hp Hl] Hi. unfold get_view, view_owner, view_data. cbn.
  destruct (lookup_lt_is_Some_2 _ _ Hi) as [x Hx]. rewrite <- Hl in Hi.
  destruct (lookup_lt_is_Some_2 _ _ Hi) as [y Hy].
  rewrite (list_lookup_total_correct _ _ _ Hx), (list_lookup_total_correct _ _ _ Hy).
  split; [exact (Forall_lookup_1 _ _ _ _ Ho Hx)|exact (Forall_lookup_1 _ _ _ _ Hp Hy)].
Qed.

(** The accounts apart from counters, flags and books. *)
Definition same_fields (c c' : TransactionContext) : Prop :=
  shared_account_fields (accounts c') = shared_account_fields (accounts c) /\
  private_account_fields (accounts c') = private_account_fields (accounts c).

Lemma same_fields_ok c c' : same_fields c c' -> data_ok c -> data_ok c'.
Proof. intros [E1 E2] [? ? ?]. split; rewrite ?E1, ?E2; done. Qed.

(** Operations that store bytes. *)
Lemma update_view_data_ok b f c :
  data_ok c -> (forall v, owner_ok (view_owner v) -> stored (view_data v) ->
    owner_ok (view_owner (f v)) /\ stored (view_data (f v))) ->
  data_ok (update_view b f c).1.
Proof.
  intros Hc Hf. unfold update_view, tx_modify. cbn. apply put_view_data_ok; [done..|]. intros Hi.
  destruct (view_data_ok c (get_index_in_transaction b) Hc Hi). by apply Hf.
Qed.

Lemma touch_fields b c : same_fields c (b_touch b c).1.
Proof. unfold b_touch, on_accounts, touch. by destruct (_ !! _). Qed.

Lemma tx_bind_data_ok {A B} (m : TxM A) (k : A -> TxM B) c :
  data_ok c -> (data_ok c -> data_ok (m c).1) -> (forall x c', data_ok c' -> data_ok (k x c').1) ->
  data_ok (tx_bind m k c).1.
Proof.
  intros Hc Hm Hk. unfold tx_bind. specialize (Hm Hc). destruct (m c) as [c1 [x|e]]; [|done]. by apply Hk.
Qed.

Lemma touch_data_ok b c : data_ok c -> data_ok (b_touch b c).1.
Proof. apply same_fields_ok, touch_fields. Qed.

Lemma set_lamports_data_ok b n c : data_ok c -> data_ok (set_lamports b n c).1.
Proof.
  intros Hc. unfold set_lamports. apply tx_bind_data_ok; [done..|]. intros owned c1 H1.
  apply tx_bind_data_ok; [done..|]. intros old c2 H2. destruct (_ && _); [done|]. destruct (negb _); [done|].
  destruct (_ =? _); [done|]. apply tx_bind_data_ok; [done| |].
  { intros _. apply (same_fields_ok c2); [|done]. unfold on_accounts, add_lamports_delta.
    by destruct (checked_add_i128 _ _). }
  intros _ c3 H3. apply tx_bind_data_ok; [done|apply touch_data_ok|]. intros _ c4 H4.
  by apply update_view_data_ok.
Qed.

Lemma set_data_data_ok b bs c : stored bs -> data_ok c -> data_ok (set_data_from_slice b bs c).1.
Proof.
  intros Hb Hc. unfold set_data_from_slice. apply tx_bind_data_ok; [done..|]. intros _ c1 H1.
  apply tx_bind_data_ok; [done|apply touch_data_ok|]. intros _ c2 H2.
  apply tx_bind_data_ok; [done|by apply (same_fields_ok c2)|]. intros _ c3 H3. by apply update_view_data_ok.
Qed.

Lemma set_owner_data_ok b k c : owner_ok k -> data_ok c -> data_ok (set_owner b k c).1.
Proof.
  intros Hk Hc. unfold set_owner. apply tx_bind_data_ok; [done..|]. intros owned c1 H1.
  destruct (negb _); [done|]. destruct (negb _); [done|]. apply tx_bind_data_ok; [done..|]. intros data c2 H2.
  destruct (negb _); [done|]. apply tx_bind_data_ok; [done..|]. intros owner c3 H3.
  destruct (bool_decide _); [done|]. apply tx_bind_data_ok; [done|apply touch_data_ok|]. intros _ c4 H4.
  by apply update_view_data_ok.
Qed.

Lemma drop_ref_data_ok i c : data_ok c -> data_ok (set_accounts (drop_ref_mut (accounts c) i) c).
Proof.
  intros Hc. unfold drop_ref_mut.
  apply (same_fields_ok (set_accounts (put_view i
    (with_payload_len (len (view_data (get_view (accounts c) i))) (get_view (accounts c) i)) (accounts c)) c)); [done|].
  apply put_view_data_ok; [done..|]. intros Hi. by apply (view_data_ok c).
Qed.

Lemma drop_data_ok b c : data_ok c -> data_ok (drop_borrowed b c).
Proof. apply drop_ref_data_ok. Qed.

Lemma borrow_fields a i a' r :
  accounts_try_borrow_mut a i = (a', r) ->
  shared_account_fields a' = shared_account_fields a /\ private_account_fields a' = private_account_fields a /\
  forall v, r = Ok v -> v = get_view a i.
Proof.
  unfold accounts_try_borrow_mut. destruct (_ !! _); [|by intros [= <- <-]].
  destruct (counter_try_borrow_mut _); intros [= <- <-]; [|done]. split; [done|]. split; [done|]. by intros v [= <-].
Qed.

Lemma borrow_data_ok ic k c : data_ok c -> data_ok (try_borrow_instruction_account ic k c).1.
Proof.
  intros Hc. unfold try_borrow_instruction_account. apply tx_bind_data_ok; [done..|]. intros ia c1 H1.
  apply tx_bind_data_ok; [done| |done]. apply same_fields_ok. unfold on_accounts, accounts_try_borrow_mut.
  destruct (_ !! _); [|done]. by destruct (counter_try_borrow_mut _).
Qed.

(** The sysvar keeps bytes. *)
Class StoreBytesLaw (store : list Z -> Z -> Result (list Z) InstructionError) : Prop :=
  store_index_stored data index bs : store data index = Ok bs -> stored data -> stored bs.

Lemma store_data_ok instructions_id sysvar_id store `{!StoreBytesLaw store} c :
  data_ok c -> data_ok (store_current_index instructions_id sysvar_id store c).1.
Proof.
  intros Hc. unfold store_current_index. destruct (find_index_of_account c instructions_id) as [i|]; [|done].
  destruct (accounts_try_borrow_mut (accounts c) i) as [a r] eqn:E. apply borrow_fields in E as (E1 & E2 & Hv).
  destruct r as [v|e]; [|by apply (same_fields_ok c)]. specialize (Hv v eq_refl).
  assert (forall w, ((Z.to_nat i < length (shared_account_fields (accounts c)))%nat ->
     owner_ok (view_owner w) /\ stored (view_data w)) ->
     data_ok (set_accounts (drop_ref_mut (put_view i w a) i) c)) as Hput.
  { intros w Hw. apply (drop_ref_data_ok i (set_accounts (put_view i w a) c)). by apply put_view_data_ok. }
  assert ((Z.to_nat i < length (shared_account_fields (accounts c)))%nat ->
     owner_ok (view_owner v) /\ stored (view_data v)) as Hok by (intros Hi; subst v; by apply view_data_ok).
  destruct (negb _); cbn [fst].
  { apply (drop_ref_data_ok i (set_accounts a c)). by apply (same_fields_ok c). }
  destruct (store _ _) as [bs|e] eqn:Es; cbn [fst]; apply Hput; intros Hi; destruct (Hok Hi) as [Ho Hd]; [|done].
  split; [done|]. by eapply (store_index_stored _ _ bs).
Qed.

Lemma push_data_ok instructions_id sysvar_id store `{!StoreBytesLaw store} c :
  data_ok c -> data_ok (tx_push instructions_id sysvar_id store c).1.
Proof.
  intros Hc. unfold tx_push. destruct (_ && _); [done|]. apply tx_bind_data_ok; [done| |].
  { intros _. unfold on_last_frame. destruct (last _); [|done]. by apply (same_fields_ok c). }
  intros _ c1 H1. apply tx_bind_data_ok; [done..|]. intros n c2 H2. apply tx_bind_data_ok; [done..|]. intros cap c3 H3.
  destruct (_ <=? _); [done|]. apply tx_bind_data_ok; [done|by apply (same_fields_ok c3)|]. intros _ c4 H4.
  apply tx_bind_data_ok; [done..|]. intros sc c5 H5. destruct (_ <=? _); [done|].
  apply tx_bind_data_ok; [done|by apply (same_fields_ok c5)|]. intros _ c6 H6. by apply store_data_ok.
Qed.

Lemma pop_data_ok c : data_ok c -> data_ok (tx_pop c).1.
Proof.
  intros Hc. unfold tx_pop. destruct (is_nil _); [done|].
  assert (data_ok (pop_check c).1) as H1.
  { unfold pop_check. apply tx_bind_data_ok; [done..|]. intros ic c1 H1. apply tx_bind_data_ok; [done..|].
    intros i c2 H2. apply tx_bind_data_ok; [done| |done]. intros _.
    destruct (accounts_try_borrow_mut (accounts c2) i) as [a r] eqn:E. apply borrow_fields in E as (E1 & E2 & _).
    destruct r; [|done]. apply (drop_ref_data_ok i (set_accounts a c2)). by apply (same_fields_ok c2). }
  destruct (pop_check c) as [c1 r]. cbn [fst] in H1. destruct (last _); destruct r as [[|]|]; cbn [fst];
    by apply (same_fields_ok c1).
Qed.

(** ** Safe computations *)

Section safety.
Context (m0 : MemoryMapping) (Hm0 : mapping_ok m0).

(** The memory of the caller: the regions it started with. *)
Definition mem_ok (s : CpiState) : Prop :=
  same_regions m0 (cpi_mapping s) /\ backed (get_regions m0) (cpi_host s).

(** [m] returns; when it succeeds the context satisfies [P'] and the value [Q]. *)
Definition safe {A} (P P' : InvokeContext -> Prop) (m : CpiM A) (Q : A -> Prop) : Prop :=
  forall s, mem_ok s -> P (cpi_context s) ->
    exists s' r, m s = Some (s', r) /\ mem_ok s' /\ forall x, r = Ok x -> P' (cpi_context s') /\ Q x.

(** Memory of the caller, as long as its regions are backed. *)
Definition known (ptr n : Z) : Prop := forall host, backed (get_regions m0) host -> allocated host ptr n.

Lemma known_sub ptr n off k : known ptr n -> 0 <= off -> off + k <= n -> known (ptr + off) k.
Proof. intros H H1 H2 host Hb x Hx. apply (H host Hb). lia. Qed.

Lemma safe_weaken {A} P P' (m : CpiM A) (Q Q' : A -> Prop) :
  safe P P' m Q -> (forall x, Q x -> Q' x) -> safe P P' m Q'.
Proof. intros H HQ s Hm HP. destruct (H s Hm HP) as (s' & r & ? & ? & Hx). exists s', r. naive_solver. Qed.

Lemma safe_bind {A B} P P1 P2 (m : CpiM A) (k : A -> CpiM B) Q Q' :
  safe P P1 m Q -> (forall x, Q x -> safe P1 P2 (k x) Q') -> safe P P2 (cpi_bind m k) Q'.
Proof.
  intros Hm Hk s Hs HP. destruct (Hm s Hs HP) as (s1 & r1 & E & Hs1 & H1). unfold cpi_bind. rewrite E.
  destruct r1 as [x|e]; cbn; [|naive_solver]. destruct (H1 x eq_refl) as [HP1 HQ]. by apply (Hk x HQ).
Qed.

Lemma safe_seq {A B} P (m : CpiM A) (k : A -> CpiM B) Q Q' :
  safe P P m Q -> (forall x, Q x -> safe P P (k x) Q') -> safe P P (cpi_bind m k) Q'.
Proof. apply safe_bind. Qed.

Lemma safe_ret {A} P (x : A) (Q : A -> Prop) : Q x -> safe P P (cpi_ret x) Q.
Proof. intros HQ s Hs HP. exists s, (Ok x). naive_solver. Qed.

Lemma safe_fail {A} P P' e (Q : A -> Prop) : safe P P' (cpi_fail e) Q.
Proof. intros s Hs HP. exists s, (Err e). naive_solver. Qed.

Lemma safe_get {A} P (f : CpiState -> A) (Q : A -> Prop) :
  (forall s, P (cpi_context s) -> Q (f s)) -> safe P P (cpi_get f) Q.
Proof. intros HQ s Hs HP. exists s, (Ok (f s)). naive_solver. Qed.

Lemma safe_check {A} P (f : TransactionContext -> Result A InstructionError) (Q : A -> Prop) :
  (forall ic x, P ic -> f (transaction_context ic) = Ok x -> Q x) -> safe P P (cpi_check f) Q.
Proof.
  intros HQ s Hs HP. eexists s, _. split; [done|]. split; [done|]. intros x.
  destruct (f _) eqn:E; [|done]. cbn. intros [= <-]. eauto.
Qed.

Lemma safe_mapM {A B} P (f : A -> CpiM B) (l : list A) Q :
  (forall x, x ∈ l -> safe P P (f x) Q) ->
  safe P P (cpi_mapM f l) (fun ys => Forall Q ys /\ length ys = length l).
Proof.
  induction l as [|x l IH]; intros Hf; cbn [cpi_mapM]; [by apply safe_ret|].
  eapply safe_seq; [apply Hf; by left|]. intros y Hy.
  eapply safe_seq; [apply IH; intros; apply Hf; by right|]. intros ys [Hys Hl]. apply safe_ret.
  split; [by constructor|]. cbn. by rewrite Hl.
Qed.

(** Translations through the regions of the caller. *)
Lemma safe_translate {A} P (f : MemoryMapping -> MemoryMapping * Result A BoxError) (Q : A -> Prop) :
  (forall m m' r, mapping_ok m -> mapping_handler_ok m -> f m = (m', r) -> same_regions m m' /\
     forall x, r = Ok x -> (forall ty a n h, translates m' ty a n h -> translates m0 ty a n h) -> Q x) ->
  safe P P (cpi_translate f) Q.
Proof.
  intros Hf s [Hs Hb] HP. unfold cpi_translate. destruct (f (cpi_mapping s)) as [m' r] eqn:E.
  destruct (Hs) as [[Hm1 Hh1 _] _]. destruct (Hf _ _ _ Hm1 Hh1 E) as [Hs' HQ].
  pose proof (same_trans _ _ _ Hs Hs') as Hs2.
  eexists _, _. split; [done|]. split; [done|]. intros x. destruct r as [y|]; [|done]. cbn. intros [= <-].
  split; [done|]. apply HQ; [done|]. intros ty a n h Ht. by eapply translates_back.
Qed.

Lemma safe_translate_type P size align ty addr ca :
  is_u64 addr -> is_u64 size ->
  safe P P (cpi_translate (fun m => translate_type_inner size align m ty addr ca)) (fun ptr => known ptr size).
Proof.
  intros Ha Hz. apply safe_translate. intros m m' r Hm Hh. unfold translate_type_inner, translate_inner.
  destruct (mapping_map m ty addr size) as [m1 r1] eqn:E. apply mapping_map_spec in E as (Hs & _ & Ht); [|done..].
  intros Er. assert (m' = m1) as ->.
  { destruct r1; cbn in Er; [|by injection Er as <- _]. destruct (negb ca); [by injection Er as <- _|].
    by destruct (negb _); injection Er as <- _. }
  split; [done|]. intros x -> Hback host Hb. destruct r1 as [h|]; [|done].
  assert (x = h) as -> by (cbn in Er; destruct (negb ca); [|destruct (negb _)]; by injection Er).
  eapply translates_bounds; [exact Hm0|exact Ha|exact Hz|by apply Hback, Ht|done].
Qed.

(** A slice: its length is the one asked for. *)
Definition known_slice (size n : Z) (s : HostSlice) : Prop :=
  known (hs_ptr s) (n * size) /\ hs_len s = n /\ n * size <= i64_MAX /\ 0 <= hs_ptr s.

Lemma safe_translate_slice P size align ty addr n ca :
  is_u64 addr -> is_u64 n -> 0 < size -> 0 <= align ->
  safe P P (cpi_translate (fun m => translate_slice_inner size align m ty addr n ca)) (known_slice size n).
Proof.
  intros Ha Hn Hz Hal. apply safe_translate. intros m m' r Hm Hh. unfold translate_slice_inner.
  destruct (Z.eqb_spec n 0) as [->|Hne].
  { intros [= <- <-]. split; [by split; [apply step_refl|]|]. intros x [= <-] _. split; [intros host _ y Hy; lia|]. split; [done|]. split; [lia|done]. }
  destruct (Z.ltb_spec i64_MAX (saturating_mul n size)) as [|Hle].
  { intros [= <- <-]. split; [by split; [apply step_refl|]|]. done. }
  assert (saturating_mul n size = n * size) as Em by (unfold saturating_mul in *; lia). rewrite Em in *.
  unfold translate_inner. destruct (mapping_map m ty addr (n * size)) as [m1 r1] eqn:E.
  apply mapping_map_spec in E as (Hs & _ & Ht); [|done..]. intros Er.
  assert (m' = m1) as ->.
  { destruct r1; cbn in Er; [|by injection Er as <- _]. by destruct (_ && _)%bool; injection Er as <- _. }
  split; [done|]. intros x -> Hback. destruct r1 as [h|]; [|done].
  assert (x = mkHostSlice h n) as -> by (cbn in Er; destruct (_ && _)%bool; by injection Er).
  assert (is_u64 (n * size)) as Hns by (destruct Hn; split; [nia|lia]).
  pose proof (Hback _ _ _ _ (Ht h eq_refl)) as Htr. split; [|split; [done|split; [done|]]].
  - intros host Hb. by apply (translates_bounds m0 ty addr _ h host).
  - destruct Htr as (i & rg & _ & Hrg & Hv). pose proof (mapping_regions_ok m0 i rg Hm0 Hrg) as Hok.
    pose proof (vm_to_host_bounds rg ty addr _ h Hok Ha Hns Hv). destruct Hok as [_ _ [? _] _]. cbn. lia.
Qed.

Lemma safe_read P ptr n :
  known ptr n -> safe P P (cpi_read ptr n) (fun bs => bytes bs /\ length bs = Z.to_nat n).
Proof.
  intros Hk s [Hs Hb] HP. unfold cpi_read. destruct (decide (0 <= n)) as [Hn|Hn].
  - specialize (Hk _ Hb). rewrite <- (Z2Nat.id n) in Hk by done. apply host_read_Some in Hk as (bs & E & Hl).
    rewrite E. eexists s, _. split; [done|]. split; [done|]. intros x [= <-]. split; [done|]. split; [|done].
    eapply host_read_bytes; [apply Hb|done].
  - replace (Z.to_nat n) with 0%nat by lia. eexists s, _. split; [done|]. split; [done|]. intros x [= <-].
    split; [done|]. split; [constructor|done].
Qed.

Lemma safe_write P ptr bs :
  known ptr (len bs) -> bytes bs -> safe P P (cpi_write ptr bs) (fun _ => True).
Proof.
  intros Hk Hbs s [Hs Hb] HP. unfold cpi_write. destruct (host_write_Some (cpi_host s) ptr bs (Hk _ Hb)) as [host E].
  rewrite E. eexists _, _. split; [done|]. split; [|done]. split; [done|]. by eapply backed_write.
Qed.

(** Predicates that do not look at the compute meter. *)
Class Meterless (P : InvokeContext -> Prop) : Prop :=
  meterless n ic : P ic -> P (set_compute_meter n ic).

Lemma safe_consume P `{!Meterless P} amount : safe P P (cpi_consume amount) (fun _ => True).
Proof.
  intros s Hs HP. unfold cpi_consume, consume_checked. eexists _, _. split; [done|]. split; [done|]. intros x _.
  split; [|done]. by apply meterless.
Qed.

(** ** Reading structures *)

Lemma u64_at_ok off bs : bytes bs -> is_u64 (u64_at off bs).
Proof.
  intros Hb. unfold u64_at. pose proof (le_combine_range (take 8 (drop off bs))) as H.
  destruct H as [H1 H2]; [by apply bytes_take, bytes_drop|]. split; [done|].
  eapply Z.lt_le_trans; [exact H2|]. change (2 ^ 64) with (256 ^ 8). apply Z.pow_le_mono_r; [done|].
  unfold len. rewrite length_take. lia.
Qed.

Lemma elements_ok size n bs : bytes bs -> Forall bytes (elements size n bs) /\ length (elements size n bs) = Z.to_nat n.
Proof.
  intros Hb. unfold elements. split; [|by rewrite length_map, length_seq].
  apply Forall_map, Forall_forall. intros i _. by apply bytes_take, bytes_drop.
Qed.

Lemma safe_read_type P size align addr ca :
  is_u64 addr -> is_u64 size ->
  safe P P (read_type size align addr ca) (fun bs => bytes bs /\ length bs = Z.to_nat size).
Proof.
  intros Ha Hz. unfold read_type. eapply safe_seq; [by apply safe_translate_type|]. intros ptr Hk. by apply safe_read.
Qed.

Lemma safe_read_slice P size align addr n ca :
  is_u64 addr -> is_u64 n -> 0 < size -> 0 <= align ->
  safe P P (read_slice size align addr n ca) (fun l => Forall bytes l /\ length l = Z.to_nat n).
Proof.
  intros Ha Hn Hz Hal. unfold read_slice. eapply safe_seq; [by apply safe_translate_slice|]. intros s (Hk & _).
  eapply safe_seq; [by apply safe_read|]. intros bs [Hb _]. apply safe_ret. by apply elements_ok.
Qed.

Lemma safe_read_bytes P addr n ca :
  is_u64 addr -> is_u64 n -> safe P P (read_bytes addr n ca) (fun bs => bytes bs).
Proof.
  intros Ha Hn. unfold read_bytes. eapply safe_seq; [by apply safe_translate_slice|]. intros s (Hk & _).
  rewrite Z.mul_1_r in Hk. eapply safe_weaken; [by apply safe_read|]. by intros x [].
Qed.

(** ** The parts of an invocation *)

Context (env : CpiEnvironment) (Hlenient : stricter_abi env = false).

(** The layouts of other crates decode bytes to addresses and lengths. *)
Class LayoutOk : Prop := {
  layout_StableInstruction : is_u64 (size_of_StableInstruction env);
  layout_stable bs : bytes bs ->
    is_u64 (vs_ptr (stable_accounts (decode_StableInstruction env bs))) /\
    is_u64 (vs_len (stable_accounts (decode_StableInstruction env bs))) /\
    is_u64 (vs_ptr (stable_data (decode_StableInstruction env bs))) /\
    is_u64 (vs_len (stable_data (decode_StableInstruction env bs)));
  layout_AccountInfo : 0 < size_of_AccountInfo env;
  layout_info bs : bytes bs ->
    is_u64 (info_key (decode_AccountInfo env bs)) /\ is_u64 (info_lamports (decode_AccountInfo env bs)) /\
    is_u64 (info_data (decode_AccountInfo env bs)) /\ is_u64 (info_owner (decode_AccountInfo env bs))
}.
Context `{!LayoutOk}.

Create HintDb cpi_safe.
#[local] Hint Resolve safe_fail safe_check u64_at_ok bytes_take bytes_drop : cpi_safe.

Lemma safe_check_size P x y : safe P P (check_instruction_size x y) (fun _ => x <= MAX_ACCOUNTS_PER_INSTRUCTION).
Proof.
  unfold check_instruction_size. destruct (Z.ltb_spec MAX_ACCOUNTS_PER_INSTRUCTION x); [apply safe_fail|].
  destruct (_ <? _); [apply safe_fail|by apply safe_ret].
Qed.

Lemma safe_check_flags P x y : safe P P (check_flags x y) (fun _ => True).
Proof. unfold check_flags. destruct (_ || _); [apply safe_fail|by apply safe_ret]. Qed.

Lemma safe_translate_instruction P `{!Meterless P} abi addr ca :
  is_u64 addr ->
  safe P P (translate_instruction env abi addr ca) (fun i => len (instruction_metas i) <= MAX_ACCOUNTS_PER_INSTRUCTION).
Proof.
  intros Ha. destruct abi; cbn [translate_instruction].
  - unfold translate_instruction_rust. eapply safe_seq; [apply safe_read_type; [done|apply layout_StableInstruction]|].
    intros bs [Hb _]. destruct (layout_stable bs Hb) as (H1 & H2 & H3 & H4).
    eapply safe_seq; [by apply safe_read_slice|]. intros metas [Hm _].
    eapply safe_seq; [by apply safe_read_bytes|]. intros data Hd.
    eapply safe_seq; [apply safe_check_size|]. intros ? Hle. cbv beta in Hle.
    eapply safe_seq; [by apply safe_consume|]. intros _ _.
    eapply safe_seq.
    { apply (safe_mapM _ _ _ (fun _ => True)). intros meta _. destruct (decode_AccountMeta env meta) as [[key sg] wr].
      eapply safe_seq; [apply safe_check_flags|]. intros. by apply safe_ret. }
    intros accounts [_ Hl]. apply safe_ret. cbn. unfold len in *. lia.
  - unfold translate_instruction_c. eapply safe_seq; [by apply safe_read_type|]. intros ix [Hix _].
    eapply safe_seq; [apply safe_read_type; [by apply u64_at_ok|done]|]. intros program _.
    eapply safe_seq; [apply safe_read_slice; [by apply u64_at_ok..|done|done]|]. intros metas [Hm Hml].
    eapply safe_seq; [apply safe_read_bytes; by apply u64_at_ok|]. intros data Hd.
    eapply safe_seq; [apply safe_check_size|]. intros ? Hle. cbv beta in Hle.
    eapply safe_seq; [by apply safe_consume|]. intros _ _.
    eapply safe_seq.
    { apply (safe_mapM _ _ _ (fun _ => True)). intros meta Hmeta. rewrite Forall_forall in Hm.
      eapply safe_seq; [apply safe_check_flags|]. intros _ _.
      eapply safe_seq; [apply safe_read_type; [by apply u64_at_ok, Hm|done]|]. intros. by apply safe_ret. }
    intros accounts [_ Hl]. apply safe_ret. cbn. pose proof (u64_at_ok 16 ix Hix) as [? _]. unfold len in *. lia.
Qed.

Lemma safe_translate_signers P key addr n ca :
  is_u64 addr -> is_u64 n -> safe P P (translate_signers env key addr n ca) (fun _ => True).
Proof.
  intros Ha Hn. unfold translate_signers. destruct (0 <? n); [|by apply safe_ret].
  eapply safe_seq; [by apply safe_read_slice|]. intros seeds [Hs _]. destruct (_ <? _); [apply safe_fail|].
  eapply safe_weaken; [apply (safe_mapM _ _ _ (fun _ => True))|done]. intros sd Hsd. rewrite Forall_forall in Hs.
  specialize (Hs sd Hsd). unfold translate_signer.
  eapply safe_seq; [apply safe_read_slice; [by apply u64_at_ok..|done|done]|]. intros l [Hl _].
  destruct (_ <? _); [apply safe_fail|]. eapply safe_seq.
  { apply (safe_mapM _ _ _ (fun _ => True)). intros x Hx. rewrite Forall_forall in Hl.
    eapply safe_weaken; [apply safe_read_bytes; by apply u64_at_ok, Hl|done]. }
  intros bs _. destruct (create_program_address _ _ _); [by apply safe_ret|apply safe_fail].
Qed.

Lemma safe_account_infos P `{!Meterless P} size addr n key_addr ca :
  is_u64 addr -> is_u64 n -> 0 < size -> (forall bs, bytes bs -> is_u64 (key_addr bs)) ->
  safe P P (translate_account_infos env size addr n key_addr ca)
    (fun x => Forall (fun i => 0 <= i.1 /\ bytes i.2) x.1).
Proof.
  intros Ha Hn Hz Hkey. unfold translate_account_infos. rewrite Hlenient. cbn [andb].
  eapply safe_seq; [by apply safe_translate_slice|]. intros sl (Hk & _ & _ & Hptr).
  eapply safe_seq; [by apply safe_read|]. intros bs [Hb _]. destruct (elements_ok size n bs Hb) as [He _].
  eapply (safe_seq _ _ _ (fun _ => True)).
  { unfold check_account_infos. destruct (_ <? _); [apply safe_fail|by apply safe_ret]. }
  intros _ _. eapply (safe_seq _ _ _ (fun _ => True)).
  { destruct (increase_cpi_account_info_limit env); [by apply safe_consume|by apply safe_ret]. }
  intros _ _. eapply safe_seq.
  { apply (safe_mapM _ _ _ (fun _ => True)). intros x Hx. rewrite Forall_forall in He.
    eapply safe_weaken; [apply safe_read_type; [by apply Hkey, He|done]|done]. }
  intros keys _. apply safe_ret. apply Forall_forall. intros [ptr info] Hin.
  apply elem_of_lookup_imap_1 in Hin as (i & x & [= -> ->] & Hx). cbn.
  split; [nia|]. exact (Forall_lookup_1 _ _ _ _ He Hx).
Qed.

(** References into the memory of the caller. *)
Record caller_known (c : CallerAccount) : Prop := {
  ck_lamports : known (ca_lamports c) 8;
  ck_owner : known (ca_owner c) 32;
  ck_data : known_slice 1 (hs_len (ca_serialized_data c)) (ca_serialized_data c);
  ck_data_len : 0 <= hs_len (ca_serialized_data c);
  ck_addr : is_u64 (ca_vm_data_addr c);
  ck_len : known (ca_ref_to_len_in_vm c) 8
}.

Lemma safe_get_serialized P ca addr original n :
  is_u64 addr -> is_u64 n ->
  safe P P (get_serialized_data env ca addr original n) (known_slice 1 n).
Proof. intros Ha Hn. unfold get_serialized_data. rewrite Hlenient. cbn [andb]. by apply safe_translate_slice. Qed.

Lemma safe_finish P ca lamports owner addr n len_addr md :
  known lamports 8 -> known owner 32 -> is_u64 addr -> is_u64 n -> is_u64 len_addr ->
  safe P P (finish_caller_account env ca lamports owner addr n len_addr md) caller_known.
Proof.
  intros Hl Ho Ha Hn Hla. unfold finish_caller_account, check_outside_input. rewrite Hlenient. cbn [andb].
  eapply safe_seq; [by apply (safe_ret _ _ (fun _ => True))|]. intros _ _.
  eapply safe_seq; [by apply safe_translate_type|]. intros ref Href.
  eapply safe_seq; [by apply (safe_ret _ _ (fun k => k = n))|]. intros k ->.
  eapply safe_seq; [by apply safe_get_serialized|]. intros sl Hsl. apply safe_ret.
  destruct (Hsl) as (H1 & H2 & H3 & H4). split; try done; cbn; rewrite H2; [done|apply Hn].
Qed.

Lemma safe_from_sol P `{!Meterless P} ca vm_addr ptr bs md :
  is_u64 vm_addr -> 0 <= ptr -> bytes bs -> safe P P (from_sol_account_info env ca vm_addr ptr bs md) caller_known.
Proof.
  intros Ha Hp Hb. unfold from_sol_account_info, check_pointer_if_strict, consume_data_if_lenient. rewrite !Hlenient.
  do 4 (eapply safe_seq; [by apply (safe_ret _ _ (fun _ => True))|]; intros _ _).
  eapply safe_seq; [apply safe_translate_type; [by apply u64_at_ok|done]|]. intros l Hl.
  eapply safe_seq; [apply safe_translate_type; [by apply u64_at_ok|done]|]. intros o Ho.
  eapply safe_seq; [by apply safe_consume|]. intros _ _.
  apply safe_finish; [done|done|by apply u64_at_ok..|]. unfold saturating_sub, saturating_add, is_u in *. lia.
Qed.

Lemma safe_from_info P `{!Meterless P} ca vm_addr ptr bs md :
  bytes bs -> safe P P (from_account_info env ca vm_addr ptr bs md) caller_known.
Proof.
  intros Hb. destruct (layout_info bs Hb) as (H1 & H2 & H3 & H4).
  unfold from_account_info, check_pointer_if_strict, consume_data_if_lenient, check_outside_input. rewrite !Hlenient.
  cbn [andb]. do 2 (eapply safe_seq; [by apply (safe_ret _ _ (fun _ => True))|]; intros _ _).
  eapply safe_seq; [by apply safe_read_type|]. intros p [Hpb Hpl].
  do 2 (eapply safe_seq; [by apply (safe_ret _ _ (fun _ => True))|]; intros _ _).
  eapply safe_seq; [apply safe_translate_type; [by apply u64_of_bytes|done]|]. intros l Hl.
  eapply safe_seq; [by apply safe_translate_type|]. intros o Ho.
  eapply safe_seq; [by apply (safe_ret _ _ (fun _ => True))|]. intros _ _.
  eapply safe_seq; [by apply safe_read_type|]. intros d [Hd _].
  eapply safe_seq; [by apply (safe_ret _ _ (fun _ => True))|]. intros _ _.
  eapply safe_seq; [by apply safe_consume|]. intros _ _.
  apply safe_finish; [done|done|by apply u64_at_ok..|]. unfold saturating_add, is_u in *. lia.
Qed.

(** ** Accounts *)

(** The accounts hold bytes; while the caller is current, its syscall context is set. *)
Definition good (sys : bool) (ic : InvokeContext) : Prop :=
  data_ok (transaction_context ic) /\ (sys = true -> exists sc, get_syscall_context ic = Ok sc).

#[local] Instance good_meterless sys : Meterless (good sys).
Proof. by intros n ic []. Qed.

Lemma safe_tx {A} sys (m : TxM A) :
  (forall c, data_ok c -> data_ok (m c).1) -> safe (good sys) (good sys) (cpi_tx m) (fun _ => True).
Proof.
  intros Hm s Hs [Hd Hsys]. unfold cpi_tx. specialize (Hm _ Hd). destruct (m (cpi_tc s)) as [c r].
  eexists _, _. split; [done|]. split; [done|]. intros x _. done.
Qed.

Lemma safe_with_borrowed {A} sys ic k (body : BorrowedInstructionAccount -> CpiM A) Q :
  (forall b, safe (good sys) (good sys) (body b) Q) ->
  safe (good sys) (good sys) (with_borrowed ic k body) Q.
Proof.
  intros Hbody. unfold with_borrowed. eapply safe_seq; [apply safe_tx, borrow_data_ok|]. intros b _ s Hs Hg.
  destruct (Hbody b s Hs Hg) as (s' & r & E & Hs' & Hr). rewrite E. eexists _, _. split; [done|]. split; [done|].
  intros x Hx. destruct (Hr x Hx) as [[Hd Hsys] HQ]. split; [|done]. split; [by apply drop_data_ok|done].
Qed.

Lemma safe_data sys b : safe (good sys) (good sys) (cpi_data b) (fun _ => True).
Proof. by apply safe_get. Qed.

Lemma safe_update_callee sys ca caller b :
  caller_known caller -> safe (good sys) (good sys) (update_callee_account env ca caller b) (fun _ => True).
Proof.
  intros [H1 H2 (H3 & _ & Hmax & _) Hpos _ _]. unfold update_callee_account. rewrite Hlenient. rewrite Z.mul_1_r in H3.
  eapply safe_seq; [by apply safe_read|]. intros lam _.
  eapply safe_seq; [by apply (safe_get _ _ (fun _ => True))|]. intros cur _.
  eapply (safe_seq _ _ _ (fun _ => True)).
  { destruct (negb _); [apply safe_tx; intros; by apply set_lamports_data_ok|by apply safe_ret]. }
  intros _ _. eapply (safe_seq _ _ _ (fun _ => True)).
  { eapply safe_seq; [|intros; by apply safe_ret]. unfold update_callee_data_lenient.
    eapply safe_seq; [by apply safe_read|]. intros bs [Hb Hbl].
    eapply safe_seq; [by apply (safe_get _ _ (fun _ => True))|]. intros [x|e] _;
      (eapply safe_seq; [apply safe_data|]); intros d _.
    - apply safe_tx. intros. apply set_data_data_ok; [|done]. split; [done|]. unfold len. lia.
    - destruct (negb _); [apply safe_fail|by apply safe_ret]. }
  intros must _. eapply safe_seq; [by apply safe_read|]. intros owner [Hob Hol].
  eapply safe_seq; [by apply (safe_get _ _ (fun _ => True))|]. intros cur' _.
  destruct (negb _); [|by apply safe_ret]. eapply safe_seq; [|intros; by apply safe_ret].
  apply safe_tx. intros. by apply set_owner_data_ok.
Qed.

Lemma safe_update_length P `{!Meterless P} ca caller prev post :
  caller_known caller -> is_u64 post ->
  safe P P (update_caller_length env ca caller prev post) (known_slice 1 post).
Proof.
  intros [H1 H2 (H3 & _ & Hmax & _) H4 H5 H6] Hpost. rewrite Z.mul_1_r in H3. unfold update_caller_length. rewrite Hlenient. cbn [andb negb].
  eapply safe_seq.
  { eapply (safe_seq _ _ _ (fun _ => True)); [|intros; by apply safe_get_serialized].
    destruct (_ <? _); [|by apply safe_ret]. destruct (Z.ltb_spec (hs_len (ca_serialized_data caller)) post); [apply safe_fail|].
    apply safe_write; [|by apply Forall_replicate]. unfold len. rewrite length_replicate.
    eapply known_sub; [exact H3|apply Hpost|lia]. }
  intros sl Hsl. eapply safe_seq.
  { apply safe_write; [|apply le_split_bytes]. unfold len. rewrite le_split_length. exact H6. }
  intros _ _. eapply safe_seq.
  { apply safe_translate_type; [|done]. unfold saturating_sub, is_u in *. lia. }
  intros ptr Hptr. eapply safe_seq.
  { apply safe_write; [|apply le_split_bytes]. unfold len. rewrite le_split_length. exact Hptr. }
  intros _ _. by apply safe_ret.
Qed.

(** What is borrowed can be copied to the memory of the caller. *)
Lemma safe_owner sys b :
  safe (good sys) (good sys) (cpi_get (fun s => get_owner b (transaction_context (cpi_context s))))
    (fun o => bytes o /\ len o <= 32).
Proof.
  apply safe_get. intros s [Hd _]. cbv beta. unfold get_owner.
  set (c := transaction_context (cpi_context s)) in *. set (i := get_index_in_transaction b).
  destruct (decide (Z.to_nat i < length (shared_account_fields (accounts c)))%nat) as [Hi|Hi].
  - destruct (view_data_ok c i Hd Hi) as [[Hb Hl] _]. split; [exact Hb|].
    apply (f_equal Z.of_nat) in Hl. apply Z.eq_le_incl. exact Hl.
  - unfold account_view, get_view, view_owner. cbn. rewrite list_lookup_total_alt, lookup_ge_None_2 by (fold i; lia). split; [constructor|done].
Qed.

Lemma safe_payload sys b : safe (good sys) (good sys) (cpi_data b) stored.
Proof.
  apply safe_get. intros s [Hd _]. cbv beta. unfold get_data.
  set (c := transaction_context (cpi_context s)) in *. set (i := get_index_in_transaction b).
  destruct (decide (Z.to_nat i < length (shared_account_fields (accounts c)))%nat) as [Hi|Hi].
  - by apply view_data_ok.
  - destruct Hd as [_ _ Hl]. unfold account_view, get_view, view_data. cbn.
    rewrite list_lookup_total_alt, lookup_ge_None_2 by (fold i; lia). split; [constructor|done].
Qed.

Lemma safe_update_caller sys ca caller b :
  caller_known caller -> safe (good sys) (good sys) (update_caller_account env ca caller b) (fun _ => True).
Proof.
  intros Hc. destruct (Hc) as [H1 H2 H3 H4 H5 H6]. unfold update_caller_account. rewrite Hlenient. cbn [andb orb negb].
  eapply safe_seq; [by apply (safe_get _ _ (fun _ => True))|]. intros lam _.
  eapply safe_seq; [apply safe_write; [|apply le_split_bytes]; unfold len; by rewrite le_split_length|]. intros _ _.
  eapply safe_seq; [apply safe_owner|]. intros o [Ho Hol].
  eapply safe_seq; [apply safe_write; [|done]; rewrite <- (Z.add_0_r (ca_owner caller)); by eapply known_sub|]. intros _ _.
  eapply safe_seq; [by apply safe_read|]. intros bs _. eapply safe_seq; [apply safe_payload|]. intros data [Hd Hdl].
  destruct (_ && _); [apply safe_fail|].
  eapply (safe_seq _ _ _ (fun sl => known_slice 1 (hs_len sl) sl)).
  { destruct (negb _); [|by apply safe_ret]. eapply safe_weaken.
    - apply safe_update_length; [apply _|done|]. unfold len, is_u in *. lia.
    - intros sl Hsl. by rewrite (proj1 (proj2 Hsl)). }
  intros sl (Hk & _ & _). destruct (Z.eqb_spec (hs_len sl) (len data)) as [E|]; cbn [negb]; [|apply safe_fail].
  apply safe_write; [|done]. rewrite Z.mul_1_r, E in Hk. done.
Qed.

Definition translated_known (t : TranslatedAccount) : Prop := caller_known (caller_account t).
Definition maybe_known (t : option TranslatedAccount) : Prop :=
  match t with Some t => translated_known t | None => True end.

Lemma safe_translate_account size addr infos keys ca do_translate metadata next current item :
  is_u64 addr -> 0 < size -> Forall (fun i => 0 <= i.1 /\ bytes i.2) infos ->
  (forall ca vm_addr ptr bs md, is_u64 vm_addr -> 0 <= ptr -> bytes bs ->
     safe (good true) (good true) (do_translate ca vm_addr ptr bs md) caller_known) ->
  safe (good true) (good true)
    (translate_account env size addr infos keys ca do_translate metadata next current item) maybe_known.
Proof.
  intros Ha Hz Hinfos Hdo. unfold translate_account. destruct item as [index ia]. rewrite Hlenient.
  eapply safe_seq; [by apply (safe_check _ _ (fun _ => True))|]. intros [d|] _; [by apply safe_ret|].
  eapply safe_seq; [by apply (safe_check _ _ (fun _ => True))|]. intros k _. apply safe_with_borrowed. intros b.
  eapply safe_seq; [by apply (safe_check _ _ (fun _ => True))|]. intros key _.
  eapply safe_seq; [by apply (safe_get _ _ (fun _ => True))|]. intros [|] _.
  { eapply safe_seq; [apply safe_data|]. intros d _. eapply safe_seq; [apply safe_consume, _|]. intros. by apply safe_ret. }
  destruct (position key keys 0) as [p|] eqn:Ep; [|apply safe_fail]. apply position_ok in Ep as [Ep _].
  destruct (metadata !! _) as [md|]; [|apply safe_fail].
  destruct (infos !! _) as [[ptr info]|] eqn:Ei; [|apply safe_fail].
  destruct (Forall_lookup_1 _ _ _ _ Hinfos Ei) as [Hptr Hinfo]. eapply safe_seq.
  { apply Hdo; [|done..]. unfold saturating_add, saturating_mul, is_u in *. nia. }
  intros caller Hc. eapply safe_seq; [by apply safe_update_callee|]. intros u _. by apply safe_ret.
Qed.

Lemma safe_translate_common size addr infos keys ca do_translate :
  is_u64 addr -> 0 < size -> Forall (fun i => 0 <= i.1 /\ bytes i.2) infos ->
  (forall ca vm_addr ptr bs md, is_u64 vm_addr -> 0 <= ptr -> bytes bs ->
     safe (good true) (good true) (do_translate ca vm_addr ptr bs md) caller_known) ->
  safe (good true) (good true) (translate_accounts_common env size addr infos keys ca do_translate)
    (Forall translated_known).
Proof.
  intros Ha Hz Hinfos Hdo. unfold translate_accounts_common.
  eapply safe_seq; [by apply (safe_check _ _ (fun _ => True))|]. intros next _.
  eapply safe_seq; [by apply (safe_check _ _ (fun _ => True))|]. intros current _.
  eapply (safe_seq _ _ _ (fun _ => True)).
  { intros s Hs [Hd Hsys]. destruct (Hsys eq_refl) as [sc E]. rewrite E. eexists _, _. done. }
  intros metadata _. eapply safe_seq; [apply safe_mapM; intros; by apply safe_translate_account|].
  intros l [Hl _]. apply safe_ret. clear -Hl. induction Hl as [|[t|] l Ht _ IH]; cbn; [done|by constructor|done].
Qed.

Lemma safe_translate_accounts abi addr n ca :
  is_u64 addr -> is_u64 n ->
  safe (good true) (good true) (translate_accounts env abi addr n ca) (Forall translated_known).
Proof.
  intros Ha Hn. destruct abi; unfold translate_accounts, translate_accounts_rust, translate_accounts_c; cbn zeta.
  - eapply safe_seq.
    { apply safe_account_infos; [apply _|done|done|apply layout_AccountInfo|]. intros bs Hb. by apply layout_info. }
    intros [infos keys] Hinfos. apply safe_translate_common; [done|apply layout_AccountInfo|done|]. intros.
    by apply safe_from_info; [apply _|].
  - eapply safe_seq; [apply safe_account_infos; [apply _|done|done|done|]; intros bs Hb; by apply u64_at_ok|].
    intros [infos keys] Hinfos. apply safe_translate_common; [done|done|done|]. intros. by apply safe_from_sol; [apply _|..].
Qed.

(** ** The whole invocation *)

(** The caller: what the runtime has established before a program runs. *)
Definition caller_ready (ic : InvokeContext) : Prop :=
  good true ic /\ accounts_len (accounts (transaction_context ic)) <= MAX_ACCOUNTS_PER_TRANSACTION /\
  forall current, get_current_instruction_context (transaction_context ic) = Ok current ->
    dedup_ok (account_indexes (ic_instruction_accounts current)) (ic_dedup_map current) /\
    len (ic_instruction_accounts current) <= u16_MAX /\
    exists owner, get_program_owner (transaction_context ic) current = Ok owner.

#[local] Instance ready_meterless : Meterless caller_ready.
Proof. by intros n ic []. Qed.

Lemma safe_prepare abi addr seeds n ca :
  is_u64 addr -> is_u64 seeds -> is_u64 n ->
  safe caller_ready (good true) (cpi_prepare env abi addr seeds n ca) (fun _ => True).
Proof.
  intros Ha Hs Hn. unfold cpi_prepare.
  eapply safe_bind; [by apply safe_translate_instruction; [apply _|]|]. intros instruction Hmetas.
  eapply safe_bind; [by apply (safe_check _ _ (fun _ => True))|]. intros current _.
  eapply safe_bind; [by apply (safe_check _ _ (fun _ => True))|]. intros key _.
  eapply safe_bind; [by apply safe_translate_signers|]. intros signers _.
  eapply (safe_bind _ caller_ready _ _ _ (fun _ => True)).
  { unfold check_authorized_program. destruct (is_authorized_program _ _ _); [by apply safe_ret|apply safe_fail]. }
  intros _ _ s Hm (Hg & Hacc & Hcur). unfold prepare_next_instruction.
  destruct (get_current_instruction_context _) as [caller|e] eqn:Ec; [|by eexists _, _].
  destruct (Hcur caller eq_refl) as (Hd & Hl & _).
  destruct (callee_accounts_ok _ Hacc caller instruction signers Hd Hl) as (r & E & _).
  { eapply Z.le_lt_trans; [exact Hmetas|done]. }
  rewrite E. cbn [mbind option_bind]. destruct r as [[[ias m] program]|e]; [|by eexists _, _].
  destruct (get_current_instruction_index _); [|by eexists _, _].
  unfold configure_next_instruction. destruct (last _); eexists _, _; (split; [done|]); (split; [done|]); [|done].
  intros x _. split; [|done]. destruct Hg as [Hg1 Hg2]. split; [|done]. by apply (same_fields_ok (transaction_context (cpi_context s))).
Qed.

Lemma safe_exit ca accounts :
  Forall translated_known accounts ->
  safe (good false) (good false) (cpi_exit env ca accounts) (fun _ => True).
Proof.
  intros Hl. rewrite Forall_forall in Hl. unfold cpi_exit. rewrite Hlenient.
  eapply safe_seq; [by apply (safe_check _ _ (fun _ => True))|]. intros current _.
  eapply safe_seq; [|intros; by apply safe_ret]. apply (safe_mapM _ _ _ (fun _ => True)). intros t Ht.
  apply safe_with_borrowed. intros b. destruct (update_caller_account_info_flag t); [|by apply safe_ret].
  by apply safe_update_caller, Hl.
Qed.

Context (instructions_id sysvar_id : Pubkey).
Context (store : list Z -> Z -> Result (list Z) InstructionError) `{!StoreBytesLaw store}.
Context (chain : InvokeContext -> HostMemory -> option (InvokeContext * HostMemory * Result unit InstructionError)).

(** What a callee must do for its caller: return, keep the regions of the caller in memory, and
    leave bytes in the accounts. *)
Class CalleeSafe : Prop :=
  callee_safe ic host :
    backed (get_regions m0) host -> data_ok (transaction_context ic) ->
    exists ic' host' r, chain ic host = Some (ic', host', r) /\
      backed (get_regions m0) host' /\ data_ok (transaction_context ic').
Context `{!CalleeSafe}.

Lemma safe_process :
  safe (good true) (good false) (process_callee instructions_id sysvar_id store chain) (fun _ => True).
Proof.
  intros s [Hm Hb] [Hd _]. unfold process_callee.
  destruct (invoke_push _ _ _ _) as [ic1 r1] eqn:E1.
  assert (data_ok (transaction_context ic1)) as Hd1.
  { unfold invoke_push in E1. destruct (get_instruction_context_at_index_in_trace _ _); [|by injection E1 as <- _].
    destruct (get_program_key _ _); [|by injection E1 as <- _]. destruct (_ && _); [by injection E1 as <- _|].
    pose proof (push_data_ok instructions_id sysvar_id store _ Hd) as Hp.
    destruct (tx_push _ _ _ _) as [c r]. by injection E1 as <- _. }
  destruct r1 as [[]|e]; [|by eexists _, _].
  destruct (callee_safe ic1 (cpi_host s) Hb Hd1) as (ic2 & host & r2 & E2 & Hb2 & Hd2).
  rewrite E2. cbn [mbind option_bind]. unfold invoke_pop. cbn [transaction_context set_syscall_contexts].
  pose proof (pop_data_ok _ Hd2) as Hp. destruct (tx_pop (transaction_context ic2)) as [c3 r3].
  eexists _, _. split; [done|]. split; [done|]. done.
Qed.

Lemma safe_cpi abi instruction infos infos_len seeds seeds_len :
  is_u64 instruction -> is_u64 infos -> is_u64 infos_len -> is_u64 seeds -> is_u64 seeds_len ->
  safe caller_ready (good false)
    (cpi_common env instructions_id sysvar_id store chain abi instruction infos infos_len seeds seeds_len)
    (fun x => x = 0).
Proof.
  intros H1 H2 H3 H4 H5. unfold cpi_common. eapply safe_bind; [apply safe_consume, _|]. intros _ _.
  eapply (safe_bind _ caller_ready _ _ _ (fun _ => True)).
  { intros s Hs HP. destruct (HP) as (_ & _ & Hcur). unfold get_check_aligned.
    destruct (get_current_instruction_context _) as [current|] eqn:E; [|by eexists _, _].
    destruct (Hcur current eq_refl) as (_ & _ & o & ->). by eexists _, _. }
  intros ca _. eapply safe_bind; [by apply safe_prepare|]. intros _ _.
  eapply safe_bind; [by apply safe_translate_accounts|]. intros accounts Ha.
  eapply (safe_bind _ _ _ _ _ (Forall translated_known)).
  { unfold update_callee_accounts. rewrite Hlenient. by apply safe_ret. }
  intros accounts' Ha'. eapply safe_bind; [apply safe_process|]. intros _ _.
  eapply safe_bind; [by apply safe_exit|]. intros _ _. by apply safe_ret.
Qed.

End safety.
