(* ===== verification/CpiSync.v ===== *)
(** What caller and callee of a cross-program invocation see of each other, without the stricter
    rules: the accounts of the callee are what the caller left in its memory, and the memory of
    the caller shows what the callee left in the accounts. *)

From Stdlib Require Import ZArith Lia Bool.
From stdpp Require Import strings.
From S2P Require Import Prelude.
From S2P Require Import SbpfTypes.
From S2P Require Import Ebpf.
From S2P Require Import MemoryRegion.
From S2P Require Import Mapping.
From S2P Require Import MappingSafe.
From S2P Require Import TxAccounts.
From S2P Require Import TxContext.
From S2P Require Import TxSafe.
From S2P Require Import InvokeContext.
From S2P Require Import InvokeSafe.
From S2P Require Import Serialize.
From S2P Require Import MemOps.
From S2P Require Import MemOpsSafe.
From S2P Require Import Cpi.
From S2P Require Import CpiSteps.
From S2P Require Import CpiSafe.

#[local] Open Scope Z_scope.

(** ** Operations on one account *)

(** The account of the handle is there, with both halves. *)
Record present (b : BorrowedInstructionAccount) (c : TransactionContext) : Prop := {
  pr_range : in_range b c;
  pr_index : 0 <= get_index_in_transaction b;
  pr_halves : length (private_account_fields (accounts c)) = length (shared_account_fields (accounts c))
}.

(** Only the account of the handle changes, and the books. *)
Record only (b : BorrowedInstructionAccount) (c c' : TransactionContext) : Prop := {
  only_accounts : c' = set_accounts (accounts c') c;
  only_others j : 0 <= j -> j <> get_index_in_transaction b -> get_view (accounts c') j = get_view (accounts c) j;
  only_shared : length (shared_account_fields (accounts c')) = length (shared_account_fields (accounts c));
  only_private : length (private_account_fields (accounts c')) = length (private_account_fields (accounts c))
}.

Lemma only_refl b c : only b c c.
Proof. split; [by destruct c|done..]. Qed.

Lemma only_trans b c1 c2 c3 : only b c1 c2 -> only b c2 c3 -> only b c1 c3.
Proof.
  intros [H1 H2 H3 H4] [K1 K2 K3 K4]. split; [by rewrite K1, H1| |congruence|congruence].
  intros j Hj Hne. rewrite K2, H2; done.
Qed.

Lemma only_present b c c' : only b c c' -> present b c -> present b c'.
Proof.
  intros [_ _ H3 H4] [P1 P2 P3]. split; [|done|congruence]. unfold in_range in *. by rewrite H3.
Qed.

(** Storing a view; the books have changed to [a]. *)
Lemma put_only b c a v :
  present b c -> shared_account_fields a = shared_account_fields (accounts c) ->
  private_account_fields a = private_account_fields (accounts c) ->
  only b c (set_accounts (put_view (get_index_in_transaction b) v a) c) /\
  account_view b (set_accounts (put_view (get_index_in_transaction b) v a) c) = v.
Proof.
  intros [P1 P2 P3] E1 E2. split.
  - split; [done| |cbn; by rewrite length_insert, E1|cbn; by rewrite length_insert, E2].
    intros j Hj Hne. cbn. rewrite get_view_put_ne by done. unfold get_view. by rewrite E1, E2.
  - unfold account_view. cbn [accounts set_accounts]. apply get_view_put_eq; rewrite E1, ?E2; done.
Qed.

Lemma touch_only b f c c' x :
  (do! _ := b_touch b in update_view b f) c = (c', Ok x) -> present b c ->
  only b c c' /\ account_view b c' = f (account_view b c).
Proof.
  intros E Hp. unfold tx_bind, b_touch, on_accounts, touch in E.
  destruct (touched_flags (accounts c) !! _); [|done]. unfold update_view, tx_modify in E. injection E as <- _.
  by apply (put_only b c).
Qed.

Lemma only_books b c a c' :
  shared_account_fields a = shared_account_fields (accounts c) ->
  private_account_fields a = private_account_fields (accounts c) ->
  only b (set_accounts a c) c' -> only b c c'.
Proof.
  intros E1 E2 [H1 H2 H3 H4]. split; [by rewrite H1| |by rewrite H3; cbn; rewrite E1|by rewrite H4; cbn; rewrite E2].
  intros j Hj Hne. rewrite H2 by done. unfold get_view. cbn. by rewrite E1, E2.
Qed.

Lemma set_lamports_only b n c c' x :
  set_lamports b n c = (c', Ok x) -> present b c ->
  only b c c' /\ get_lamports b c' = n /\ get_data b c' = get_data b c /\ get_owner b c' = get_owner b c.
Proof.
  intros E Hp. unfold set_lamports in E. unfold tx_bind at 1, tx_get at 1 in E.
  unfold tx_bind at 1, tx_get at 1 in E. destruct (_ && _); [done|]. destruct (negb _); [done|].
  destruct (Z.eqb_spec (get_lamports b c) n) as [<-|]; [injection E as <- _; split; [apply only_refl|done]|].
  cbv zeta in E. unfold tx_bind at 1, on_accounts at 1, add_lamports_delta in E.
  destruct (checked_add_i128 _ _) as [d|]; [|done].
  apply touch_only in E as [H1 H2]; [|destruct Hp; by split]. split; [eapply only_books; [..|exact H1]; done|].
  unfold get_lamports, get_data, get_owner. rewrite H2. done.
Qed.

Lemma set_data_only b bs c c' x :
  set_data_from_slice b bs c = (c', Ok x) -> present b c ->
  only b c c' /\ get_lamports b c' = get_lamports b c /\ get_data b c' = bs /\ get_owner b c' = get_owner b c.
Proof.
  intros E Hp. unfold set_data_from_slice in E. unfold tx_bind at 1, tx_lift at 1 in E.
  destruct (can_data_be_resized _ _ _); [|done]. unfold tx_bind, b_touch, on_accounts, touch in E.
  destruct (touched_flags (accounts c) !! _); [|done]. unfold update_accounts_resize_delta, on_accounts in E.
  destruct (accounts_update_resize_delta _ _ _) as [a [y|]] eqn:Ea; [|done].
  assert (shared_account_fields a = shared_account_fields (accounts c) /\
    private_account_fields a = private_account_fields (accounts c)) as [E1 E2].
  { unfold accounts_update_resize_delta in Ea. by injection Ea as <- _. }
  assert (c' = set_accounts (put_view (get_index_in_transaction b)
    (view_set_data_from_slice bs (account_view b c)) a) c) as ->.
  { unfold update_view, tx_modify in E. injection E as <- _. unfold account_view, get_view. cbn. by rewrite E1, E2. }
  destruct (put_only b c a (view_set_data_from_slice bs (account_view b c)) Hp E1 E2) as [H1 H2].
  split; [exact H1|]. unfold get_lamports, get_data, get_owner. by rewrite H2.
Qed.

Lemma set_owner_only b k c c' x :
  set_owner b k c = (c', Ok x) -> present b c ->
  only b c c' /\ get_lamports b c' = get_lamports b c /\ get_data b c' = get_data b c /\ get_owner b c' = k.
Proof.
  intros E Hp. unfold set_owner in E. unfold tx_bind at 1, tx_get at 1 in E. destruct (negb _); [done|].
  destruct (negb _); [done|]. unfold tx_bind at 1, tx_get at 1 in E. destruct (negb _); [done|].
  unfold tx_bind at 1, tx_get at 1 in E. case_bool_decide as Ho.
  { injection E as <- _. split; [apply only_refl|done]. }
  apply touch_only in E as [H1 H2]; [|done]. split; [done|].
  unfold get_lamports, get_data, get_owner. rewrite H2. done.
Qed.

(** ** Successful computations, taken apart *)

Lemma bind_ok {A B} (m : CpiM A) (k : A -> CpiM B) s s' x :
  cpi_bind m k s = Some (s', Ok x) -> exists s1 y, m s = Some (s1, Ok y) /\ k y s1 = Some (s', Ok x).
Proof. unfold cpi_bind. destruct (m s) as [[s1 [y|e]]|]; [|done..]. cbn. by exists s1, y. Qed.

Lemma read_ok ptr n s s' bs :
  cpi_read ptr n s = Some (s', Ok bs) -> s' = s /\ host_read (cpi_host s) ptr (Z.to_nat n) = Some bs.
Proof. unfold cpi_read. destruct (host_read _ _ _); [|done]. by intros [= <- <-]. Qed.

Lemma write_ok ptr bs s s' x :
  cpi_write ptr bs s = Some (s', Ok x) ->
  exists host, host_write (cpi_host s) ptr bs = Some host /\ s' = set_cpi_host host s.
Proof. unfold cpi_write. destruct (host_write _ _ _) as [h|]; [|done]. intros [= <- _]. by exists h. Qed.

Lemma tx_ok {A} (m : TxM A) s s' x :
  cpi_tx m s = Some (s', Ok x) ->
  exists c, m (cpi_tc s) = (c, Ok x) /\ s' = set_cpi_context (set_transaction_context c (cpi_context s)) s.
Proof.
  unfold cpi_tx. destruct (m (cpi_tc s)) as [c [y|e]]; [|done]. cbn. intros [= <- <-]. by exists c.
Qed.

Lemma ret_ok {A} (x y : A) s s' : cpi_ret x s = Some (s', Ok y) -> s' = s /\ x = y.
Proof. by intros [= <- <-]. Qed.

Lemma get_ok {A} (f : CpiState -> A) s s' x : cpi_get f s = Some (s', Ok x) -> s' = s /\ x = f s.
Proof. by intros [= <- <-]. Qed.

Lemma translate_ok {A} (f : MemoryMapping -> MemoryMapping * Result A BoxError) s s' x :
  cpi_translate f s = Some (s', Ok x) -> exists m, f (cpi_mapping s) = (m, Ok x) /\ s' = set_cpi_mapping m s.
Proof.
  unfold cpi_translate. destruct (f _) as [m [y|e]]; [|done]. cbn. intros [= <- <-]. by exists m.
Qed.

(** Takes the first computation of [E] apart. *)
Ltac first_of E s x H := apply bind_ok in E as (s & x & H & E); cbv beta in E.

(** ** The callee sees what the caller left *)

Section sync.
Context (env : CpiEnvironment) (Hlenient : stricter_abi env = false).

(** One account, whatever is in memory. *)
Definition account_is (b : BorrowedInstructionAccount) (lamports : Z) (data : list Z) (owner : Pubkey)
    (c : TransactionContext) : Prop :=
  get_lamports b c = lamports /\ get_data b c = data /\ get_owner b c = owner.

(** The three parts of an account in the memory of the caller. *)
Definition caller_has (caller : CallerAccount) (host : HostMemory) (lamports data owner : list Z) : Prop :=
  host_read host (ca_lamports caller) 8 = Some lamports /\
  host_read host (hs_ptr (ca_serialized_data caller)) (Z.to_nat (hs_len (ca_serialized_data caller))) = Some data /\
  host_read host (ca_owner caller) 32 = Some owner.

Lemma lamports_part b bs s s' x :
  (if negb (get_lamports b (cpi_tc s) =? le_combine bs) then cpi_tx (set_lamports b (le_combine bs)) else cpi_ret tt) s =
    Some (s', Ok x) -> present b (cpi_tc s) ->
  only b (cpi_tc s) (cpi_tc s') /\ account_is b (le_combine bs) (get_data b (cpi_tc s)) (get_owner b (cpi_tc s)) (cpi_tc s') /\
  cpi_host s' = cpi_host s /\ cpi_mapping s' = cpi_mapping s.
Proof.
  intros E Hp. destruct (Z.eqb_spec (get_lamports b (cpi_tc s)) (le_combine bs)) as [El|]; cbn [negb] in E.
  - apply ret_ok in E as [-> _]. split; [apply only_refl|done].
  - apply tx_ok in E as (c & E & ->). apply set_lamports_only in E as (H1 & H2); done.
Qed.

Lemma data_part caller b s s' x :
  update_callee_data_lenient caller b s = Some (s', Ok x) -> present b (cpi_tc s) ->
  exists data,
    host_read (cpi_host s) (hs_ptr (ca_serialized_data caller)) (Z.to_nat (hs_len (ca_serialized_data caller))) = Some data /\
    only b (cpi_tc s) (cpi_tc s') /\ account_is b (get_lamports b (cpi_tc s)) data (get_owner b (cpi_tc s)) (cpi_tc s') /\
    cpi_host s' = cpi_host s /\ cpi_mapping s' = cpi_mapping s.
Proof.
  intros E Hp. unfold update_callee_data_lenient in E. first_of E s1 bs H1. apply read_ok in H1 as [-> H1].
  first_of E s2 r H2. apply get_ok in H2 as [-> _]. first_of E s3 d H3. apply get_ok in H3 as [-> ->].
  exists bs. split; [done|]. destruct r as [y|e].
  - apply tx_ok in E as (c & E & ->). apply set_data_only in E as (K1 & K2); done.
  - case_bool_decide as Hd; cbn [negb] in E; [|done]. apply ret_ok in E as [-> _]. split; [apply only_refl|].
    split; [|done]. split; [done|]. split; [exact Hd|done].
Qed.

Lemma update_callee_sync ca caller b s s' changed :
  update_callee_account env ca caller b s = Some (s', Ok changed) -> present b (cpi_tc s) ->
  exists lamports data owner,
    caller_has caller (cpi_host s) lamports data owner /\
    account_is b (le_combine lamports) data owner (cpi_tc s') /\
    changed = bool_decide (get_owner b (cpi_tc s) <> owner) /\
    only b (cpi_tc s) (cpi_tc s') /\ cpi_host s' = cpi_host s /\ cpi_mapping s' = cpi_mapping s.
Proof.
  intros E Hp. unfold update_callee_account in E. rewrite Hlenient in E.
  first_of E s1 lam H1. apply read_ok in H1 as [-> H1]. first_of E s2 l H2. apply get_ok in H2 as [-> ->].
  first_of E s3 u H3. apply lamports_part in H3 as (K1 & (K2 & K3 & K4) & K5 & K6); [|done].
  pose proof (only_present _ _ _ K1 Hp) as Hp3. first_of E s4 m H4. first_of H4 s4' u' H4'.
  apply ret_ok in H4 as [-> <-]. apply data_part in H4' as (data & L0 & L1 & (L2 & L3 & L4) & L5 & L6); [|done].
  pose proof (only_present _ _ _ L1 Hp3) as Hp4. first_of E s5 owner H5. apply read_ok in H5 as [-> H5].
  first_of E s6 o H6. apply get_ok in H6 as [-> ->]. exists lam, data, owner. rewrite L5, K5 in H5. rewrite K5 in L0.
  split; [done|]. pose proof (only_trans _ _ _ _ K1 L1) as Ho.
  assert (get_owner b (cpi_tc s4') = get_owner b (cpi_tc s)) as Eo by (etrans; [exact L4|exact K4]).
  change (transaction_context (cpi_context s4')) with (cpi_tc s4') in E.
  destruct (decide (get_owner b (cpi_tc s4') = owner)) as [Eq|Ne].
  - rewrite bool_decide_eq_true_2 in E by done. apply ret_ok in E as [-> <-]. split; [split; [by rewrite L2, K2|done]|].
    split; [symmetry; apply bool_decide_eq_false; rewrite <- Eo; tauto|]. split; [done|]. split; congruence.
  - rewrite bool_decide_eq_false_2 in E by done. cbn [negb] in E. first_of E s7 z H7. apply ret_ok in E as [-> <-].
    apply tx_ok in H7 as (c & H7 & ->). apply set_owner_only in H7 as (M1 & M2 & M3 & M4); [|done].
    split; [split; [|split]; [exact (eq_trans M2 (eq_trans L2 K2))|exact (eq_trans M3 L3)|exact M4]|].
    split; [symmetry; apply bool_decide_eq_true; by rewrite <- Eo|]. split; [by eapply only_trans|]. split; cbn; congruence.
Qed.

(** ** The caller sees what the callee left *)

(** Writes, in order. *)
Inductive writes : HostMemory -> list (Z * list Z) -> HostMemory -> Prop :=
| writes_nil host : writes host [] host
| writes_cons host ptr bs host1 l host2 :
    host_write host ptr bs = Some host1 -> writes host1 l host2 -> writes host ((ptr, bs) :: l) host2.

Lemma writes_app host l1 host1 l2 host2 : writes host l1 host1 -> writes host1 l2 host2 -> writes host (l1 ++ l2) host2.
Proof. induction 1; [done|]. intros H2. econstructor; [done|auto]. Qed.

Lemma writes_one host ptr bs host' : host_write host ptr bs = Some host' -> writes host [(ptr, bs)] host'.
Proof. intros H. econstructor; [done|constructor]. Qed.

(** The address is written. *)
Definition covers (l : list (Z * list Z)) (x : Z) : Prop := Exists (fun w => w.1 <= x < w.1 + len w.2) l.

(** No write covers what a later one writes. *)
Fixpoint separate (l : list (Z * list Z)) : Prop :=
  match l with
  | [] => True
  | w :: l => (forall x, w.1 <= x < w.1 + len w.2 -> ~ covers l x) /\ separate l
  end.

Lemma writes_other host l host' x : writes host l host' -> ~ covers l x -> host' !! x = host !! x.
Proof.
  induction 1 as [|host ptr bs host1 l host2 Hw Hl IH]; [done|]. intros Hx. rewrite IH.
  - apply host_write_spec in Hw as (_ & Hw & _). apply Hw. intros Hin. apply Hx. by left.
  - intros Hc. apply Hx. by right.
Qed.

Lemma writes_read host l host' :
  writes host l host' -> separate l -> Forall (fun w => host_read host' w.1 (length w.2) = Some w.2) l.
Proof.
  induction 1 as [|host ptr bs host1 l host2 Hw Hl IH]; [constructor|]. intros [Hs Hl']. constructor; [|by apply IH].
  apply host_read_lookups. intros i x Hi. cbn in Hs. apply host_write_spec in Hw as (Hw & _ & _).
  rewrite (writes_other _ _ _ _ Hl); [by apply Hw|]. apply Hs. apply lookup_lt_Some in Hi. unfold len. cbn [fst snd] in *. lia.
Qed.

Lemma writes_last host l p bs host' :
  writes host (l ++ [(p, bs)]) host' -> host_read host' p (length bs) = Some bs.
Proof.
  revert host. induction l as [|w l IH]; intros host H; cbn in H.
  - inversion H as [|? ? ? h1 ? ? Hw Hn]; subst. inversion Hn; subst. apply host_write_spec in Hw as (Hw & _ & _).
    by apply host_read_lookups.
  - inversion H; subst. eauto.
Qed.

(** What is written when the length of the account has changed: zeros behind a shorter account,
    and the length in both places. *)
Definition length_writes (caller : CallerAccount) (prev_len post_len ptr : Z) : list (Z * list Z) :=
  (if post_len <? prev_len then
     [(hs_ptr (ca_serialized_data caller) + post_len,
       replicate (Z.to_nat (hs_len (ca_serialized_data caller) - post_len)) 0)]
   else []) ++ [(ca_ref_to_len_in_vm caller, le_split 8 post_len); (ptr, le_split 8 post_len)].

Lemma length_part ca caller prev post s s' sl :
  update_caller_length env ca caller prev post s = Some (s', Ok sl) ->
  cpi_context s' = cpi_context s /\
  exists ptr, writes (cpi_host s) (length_writes caller prev post ptr) (cpi_host s').
Proof.
  intros E. unfold update_caller_length in E. rewrite Hlenient in E. cbn [andb negb] in E.
  first_of E s1 sl1 H1. first_of H1 s0 u H0. unfold get_serialized_data in H1. rewrite Hlenient in H1. cbn [andb] in H1.
  unfold translate_slice_mut_for_cpi in H1. apply translate_ok in H1 as (m & _ & ->). first_of E s2 u2 H2. apply write_ok in H2 as (h2 & H2 & ->).
  first_of E s3 p3 H3. unfold translate_type_mut_for_cpi in H3. apply translate_ok in H3 as (m3 & _ & ->). first_of E s4 u4 H4.
  apply write_ok in H4 as (h4 & H4 & ->). apply ret_ok in E as [-> _].
  assert (cpi_context s0 = cpi_context s /\ writes (cpi_host s) (if post <? prev then
     [(hs_ptr (ca_serialized_data caller) + post, replicate (Z.to_nat (hs_len (ca_serialized_data caller) - post)) 0)]
     else []) (cpi_host s0)) as [Hc Hw].
  { destruct (post <? prev); [|apply ret_ok in H0 as [-> _]; by split; [|constructor]].
    destruct (hs_len _ <? post); [done|]. apply write_ok in H0 as (h0 & H0 & ->). split; [done|]. by apply writes_one. }
  split; [exact Hc|]. exists p3. eapply writes_app; [exact Hw|]. econstructor; [exact H2|]. by apply writes_one.
Qed.

(** What is written first, and then. *)
Definition head_writes (caller : CallerAccount) (b : BorrowedInstructionAccount) (c : TransactionContext)
    : list (Z * list Z) :=
  [(ca_lamports caller, le_split 8 (get_lamports b c)); (ca_owner caller, get_owner b c)].
Definition tail_writes (caller : CallerAccount) (b : BorrowedInstructionAccount) (c : TransactionContext)
    (prev_len ptr data_ptr : Z) : list (Z * list Z) :=
  let post_len := len (get_data b c) in
  (if prev_len =? post_len then [] else length_writes caller prev_len post_len ptr) ++ [(data_ptr, get_data b c)].

Lemma update_caller_sync ca caller b s s' x :
  update_caller_account env ca caller b s = Some (s', Ok x) ->
  let c := cpi_tc s in
  let post_len := len (get_data b c) in
  exists host1 prev sl ptr,
    writes (cpi_host s) (head_writes caller b c) host1 /\
    host_read host1 (ca_ref_to_len_in_vm caller) 8 = Some prev /\
    writes host1 (tail_writes caller b c (le_combine prev) ptr (hs_ptr sl)) (cpi_host s') /\
    hs_len sl = post_len /\ (le_combine prev = post_len -> sl = ca_serialized_data caller) /\
    (le_combine prev <> post_len ->
       post_len <= saturating_add (ca_original_data_len caller) MAX_PERMITTED_DATA_INCREASE) /\
    cpi_context s' = cpi_context s.
Proof.
  intros E c post. unfold update_caller_account in E. rewrite Hlenient in E. cbn [andb orb negb] in E.
  first_of E s1 lam H1. apply get_ok in H1 as [-> ->]. first_of E s2 u H2. apply write_ok in H2 as (h2 & H2 & ->).
  first_of E s3 o H3. apply get_ok in H3 as [-> ->]. first_of E s4 u' H4. apply write_ok in H4 as (h4 & H4 & ->).
  first_of E s5 prev H5. apply read_ok in H5 as [-> H5]. first_of E s6 data H6. apply get_ok in H6 as [-> ->].
  cbn [cpi_host cpi_context set_cpi_host] in E, H4, H5. fold c in E, H4. fold post in E.
  destruct (_ && _) eqn:Er in E; [done|]. unfold address_space_reserved_for_account in Er.
  first_of E s7 sl H7. destruct (Z.eqb_spec (hs_len sl) post) as [El|]; cbn [negb] in E; [|done].
  apply write_ok in E as (h & E & ->). exists h4.
  assert (exists ptr, cpi_context s7 = cpi_context s /\ (le_combine prev = post -> sl = ca_serialized_data caller) /\
    writes h4 (if le_combine prev =? post then [] else length_writes caller (le_combine prev) post ptr) (cpi_host s7))
    as (ptr & Hc & Hsl & Hw).
  { destruct (Z.eqb_spec (le_combine prev) post) as [Ep|]; cbn [negb] in H7.
    - apply ret_ok in H7 as [-> <-]. exists 0. split; [done|]. split; [done|constructor].
    - apply length_part in H7 as (Hc & ptr & Hw). exists ptr. done. }
  exists prev, sl, ptr. split; [econstructor; [exact H2|]; by apply writes_one|]. split; [done|].
  split; [eapply writes_app; [exact Hw|]; by apply writes_one|]. split; [done|]. split; [done|]. split; [|done].
  intros Hne. apply Z.eqb_neq in Hne. rewrite Hne in Er. cbn in Er. rewrite andb_true_r in Er. lia.
Qed.

(** ** Both together *)

Lemma host_write_same m a n bs : host_read m a n = Some bs -> host_write m a bs = Some m.
Proof.
  revert a bs. induction n as [|n IH]; intros a bs; cbn; [by intros [= <-]|].
  destruct (m !! a) as [x|] eqn:Ex; [|done]. destruct (host_read m (a + 1) n) as [l|] eqn:El; [|done].
  intros [= <-]. cbn. rewrite Ex. cbn. rewrite insert_id by done. by apply IH.
Qed.

Lemma write_same ptr n bs s :
  host_read (cpi_host s) ptr n = Some bs -> cpi_write ptr bs s = Some (s, Ok tt).
Proof. intros E. unfold cpi_write. erewrite host_write_same by done. by destruct s. Qed.

(** A callee that does nothing is not seen: writing back what was read changes nothing. *)
Lemma update_back ca caller b s lamports data owner n :
  host_bytes (cpi_host s) -> 0 <= hs_len (ca_serialized_data caller) ->
  caller_has caller (cpi_host s) lamports data owner ->
  account_is b (le_combine lamports) data owner (cpi_tc s) ->
  host_read (cpi_host s) (ca_ref_to_len_in_vm caller) 8 = Some n ->
  le_combine n = hs_len (ca_serialized_data caller) ->
  update_caller_account env ca caller b s = Some (s, Ok tt).
Proof.
  intros Hb Hpos (H1 & H2 & H3) (K1 & K2 & K3) Hn En.
  assert (len data = hs_len (ca_serialized_data caller)) as El.
  { apply host_read_length in H2. unfold len. lia. }
  assert (le_split 8 (le_combine lamports) = lamports) as Ell.
  { pose proof (host_read_length _ _ _ _ H1) as Hl. rewrite <- Hl. apply le_split_combine. by eapply host_read_bytes. }
  unfold update_caller_account. rewrite Hlenient. cbn [andb orb negb].
  unfold cpi_bind at 1, cpi_get at 1. cbn [mbind option_bind]. rewrite K1, Ell.
  unfold cpi_bind at 1. erewrite write_same by exact H1. cbn [mbind option_bind].
  unfold cpi_bind at 1, cpi_get at 1. cbn [mbind option_bind]. rewrite K3.
  unfold cpi_bind at 1. erewrite write_same by exact H3. cbn [mbind option_bind].
  unfold cpi_bind at 1, cpi_read at 1. change (Z.to_nat 8) with 8%nat. rewrite Hn. cbn [mbind option_bind].
  unfold cpi_bind at 1, cpi_data at 1, cpi_get at 1. cbn [mbind option_bind]. rewrite K2, En, El, Z.eqb_refl.
  cbn [negb]. rewrite andb_false_r. unfold cpi_bind at 1, cpi_ret at 1. cbn [mbind option_bind].
  rewrite Z.eqb_refl. cbn [negb]. by eapply write_same.
Qed.

End sync.
