(* ===== verification/CpiCalls.v ===== *)
(** Cross-program invocation as a whole: the books, the memory of the caller, what the two
    programs see of each other, and the privileges of the callee; with an invocation that runs. *)

From Stdlib Require Import ZArith Lia Bool.
From stdpp Require Import strings.
From S2P Require Import Prelude.
From S2P Require Import SbpfTypes.
From S2P Require Import Ebpf.
From S2P Require Import MemoryRegion.
From S2P Require Import Mapping.
From S2P Require Import MappingSafe.
From S2P Require Import TxAccounts.
From S2P Require Import TxContext.
From S2P Require Import TxSafe.
From S2P Require Import InvokeContext.
From S2P Require Import InvokeSafe.
From S2P Require Import Serialize.
From S2P Require Import MemOps.
From S2P Require Import MemOpsSafe.
From S2P Require Import Exec.
From S2P Require Import Cpi.
From S2P Require Import CpiSteps.
From S2P Require Import CpiSafe.
From S2P Require Import CpiSync.

#[local] Open Scope Z_scope.

(** ** Privileges *)

(** Reading the arguments leaves the transaction as it is. *)
Definition keeps {A} (m : CpiM A) : Prop := forall s s' r, m s = Some (s', r) -> cpi_tc s' = cpi_tc s.

Lemma keeps_bind {A B} (m : CpiM A) (k : A -> CpiM B) : keeps m -> (forall x, keeps (k x)) -> keeps (cpi_bind m k).
Proof.
  intros Hm Hk s s' r. unfold cpi_bind. destruct (m s) as [[s1 [x|e]]|] eqn:E; cbn [mbind option_bind]; [| |done].
  - intros E2. rewrite (Hk x _ _ _ E2). by eapply Hm.
  - intros [= <- <-]. by eapply Hm.
Qed.

Lemma keeps_ret {A} (x : A) : keeps (cpi_ret x).
Proof. by intros s s' r [= <- _]. Qed.
Lemma keeps_fail {A} e : keeps (A := A) (cpi_fail e).
Proof. by intros s s' r [= <- _]. Qed.
Lemma keeps_check {A} (f : TransactionContext -> Result A InstructionError) : keeps (cpi_check f).
Proof. by intros s s' r [= <- _]. Qed.
Lemma keeps_consume n : keeps (cpi_consume n).
Proof. by intros s s' r [= <- _]. Qed.
Lemma keeps_read p n : keeps (cpi_read p n).
Proof. intros s s' r. unfold cpi_read. destruct (host_read _ _ _); [|done]. by intros [= <- _]. Qed.
Lemma keeps_translate {A} (f : MemoryMapping -> MemoryMapping * Result A BoxError) : keeps (cpi_translate f).
Proof. intros s s' r. unfold cpi_translate. destruct (f _). by intros [= <- _]. Qed.

Lemma keeps_mapM {A B} (f : A -> CpiM B) l : (forall x, keeps (f x)) -> keeps (cpi_mapM f l).
Proof.
  intros Hf. induction l as [|x l IH]; cbn [cpi_mapM]; [apply keeps_ret|].
  apply keeps_bind; [done|]. intros y. apply keeps_bind; [done|]. intros ys. apply keeps_ret.
Qed.

Create HintDb cpi_keeps.
#[local] Hint Resolve keeps_ret keeps_fail keeps_check keeps_consume keeps_read keeps_translate : cpi_keeps.

(** Follows the code. *)
Ltac keep :=
  repeat first
    [ progress eauto with cpi_keeps
    | apply keeps_bind; [|intros ?]
    | apply keeps_mapM; intros ?
    | match goal with |- keeps (match ?x with _ => _ end) => destruct x end ].

Lemma keeps_read_type size align addr ca : keeps (read_type size align addr ca).
Proof. unfold read_type. keep. Qed.
Lemma keeps_read_slice size align addr n ca : keeps (read_slice size align addr n ca).
Proof. unfold read_slice. keep. Qed.
Lemma keeps_read_bytes addr n ca : keeps (read_bytes addr n ca).
Proof. unfold read_bytes. keep. Qed.
#[local] Hint Resolve keeps_read_type keeps_read_slice keeps_read_bytes : cpi_keeps.

Section privileges.
Context (env : CpiEnvironment).

Lemma keeps_instruction abi addr ca : keeps (translate_instruction env abi addr ca).
Proof.
  destruct abi; unfold translate_instruction, translate_instruction_rust, translate_instruction_c, check_instruction_size, check_flags;
    keep.
Qed.

Lemma keeps_signers key addr n ca : keeps (translate_signers env key addr n ca).
Proof. unfold translate_signers, translate_signer, translate_vm_slice. keep. Qed.

Lemma mapM_length {A B} (f : A -> CpiM B) l s s' ys : cpi_mapM f l s = Some (s', Ok ys) -> length ys = length l.
Proof.
  revert s s' ys. induction l as [|x l IH]; intros s s' ys E; cbn [cpi_mapM] in E; [by apply ret_ok in E as [_ <-]|].
  first_of E s1 y H1. first_of E s2 zs H2. apply ret_ok in E as [_ <-]. cbn. f_equal. by eapply IH.
Qed.

Lemma mapM_Forall {A B} (f : A -> CpiM B) (Q : B -> Prop) l s s' ys :
  (forall x s s' y, f x s = Some (s', Ok y) -> Q y) -> cpi_mapM f l s = Some (s', Ok ys) -> Forall Q ys.
Proof.
  intros HQ. revert s s' ys. induction l as [|x l IH]; intros s s' ys E; cbn [cpi_mapM] in E.
  { apply ret_ok in E as [_ <-]. done. }
  first_of E s1 y H1. first_of E s2 zs H2. apply ret_ok in E as [_ <-]. constructor; [by eapply HQ|by eapply IH].
Qed.

(** The limits on an instruction. *)
Lemma instruction_limits abi addr ca s s' i :
  translate_instruction env abi addr ca s = Some (s', Ok i) -> len (instruction_metas i) <= MAX_ACCOUNTS_PER_INSTRUCTION.
Proof.
  assert (forall x y s s' u, check_instruction_size x y s = Some (s', Ok u) -> x <= MAX_ACCOUNTS_PER_INSTRUCTION) as Hc.
  { intros x y t t' u. unfold check_instruction_size. destruct (Z.ltb_spec MAX_ACCOUNTS_PER_INSTRUCTION x); done. }
  destruct abi; intros E; cbn [translate_instruction] in E.
  - unfold translate_instruction_rust in E. first_of E s1 bs H1. first_of E s2 metas H2. first_of E s3 data H3.
    first_of E s4 u4 H4. first_of E s5 u5 H5. first_of E s6 l H6. apply ret_ok in E as [_ <-].
    apply mapM_length in H6. apply Hc in H4. cbn. unfold len in *. lia.
  - unfold translate_instruction_c in E. first_of E s1 bs H1. first_of E s2 pid H2. first_of E s3 metas H3.
    first_of E s4 data H4. first_of E s5 u5 H5. first_of E s6 u6 H6. first_of E s7 l H7. apply ret_ok in E as [_ <-].
    apply mapM_length in H7. apply Hc in H5. cbn. unfold read_slice in H3. first_of H3 s8 sl H8. first_of H3 s9 bytes9 H9.
    apply ret_ok in H3 as [_ <-]. unfold elements in H7. rewrite length_map, length_seq in H7.
    unfold len. rewrite H7. unfold u64_at in *. pose proof (Zle_0_nat (Z.to_nat (le_combine (take 8 (drop 16 bs))))).
    change MAX_ACCOUNTS_PER_INSTRUCTION with 255 in *. lia.
Qed.

(** Signers are addresses of the caller's program. *)
Lemma signers_derived key addr n ca s s' signers :
  translate_signers env key addr n ca s = Some (s', Ok signers) ->
  len signers <= MAX_SIGNERS /\ Forall (fun k => exists seeds, create_program_address env seeds key = Ok k) signers.
Proof.
  unfold translate_signers. destruct (0 <? n); intros E; [|apply ret_ok in E as [_ <-]; done].
  first_of E s1 sd H1. destruct (Z.ltb_spec MAX_SIGNERS (len sd)); [done|]. split.
  - apply mapM_length in E. unfold len in *. lia.
  - eapply mapM_Forall, E. intros x t t' y Hy. unfold translate_signer in Hy. first_of Hy t1 l L1.
    destruct (_ <? _); [done|]. first_of Hy t2 seeds L2.
    destruct (create_program_address env seeds key) as [k|e] eqn:Ek; [|done]. apply ret_ok in Hy as [_ <-]. by exists seeds.
Qed.

Lemma callee_program c caller instruction signers ias m program :
  accounts_len (accounts c) <= MAX_ACCOUNTS_PER_TRANSACTION ->
  callee_accounts c caller instruction signers = Some (Ok (ias, m, program)) ->
  account_key (accounts c) program = Some (program_id instruction).
Proof.
  intros Hn. unfold callee_accounts. destruct (collect_accounts _ _ _ _) as [[[m1 l1]|]|]; [|done..].
  cbn [mbind option_bind]. destruct (check_accounts _ _ _ _ _ _) as [[l2|]|]; [|done..]. cbn [mbind option_bind].
  unfold find_program. destruct (find_index_of_account c (program_id instruction)) as [i|] eqn:Ei; [|done].
  destruct (get_index_of_account_in_instruction caller i); [|done]. intros [= <- <- <-].
  by apply (find_index_ok c Hn) in Ei as [_ ?].
Qed.

End privileges.

(** ** An invocation *)

(** The calling program, an account that it owns, and the program it calls. *)
Definition example_call_accounts : list (Pubkey * AccountSharedData) :=
  [ (key_of 1, mkAccountSharedData 1 [] (key_of 9) true 0 true);
    (key_of 2, mkAccountSharedData 100 [1; 2; 3] (key_of 1) false 0 true);
    (key_of 4, mkAccountSharedData 1 [] (key_of 9) true 0 true) ].

Definition example_metadata : list SerializedAccountMetadata :=
  [ mkAccountMetadata 3 0 0 0 0; mkAccountMetadata 0 0 0 0 0 ].

(** The caller is on the stack and has been given its memory. *)
Definition example_prepared_caller : InvokeContext :=
  let ic := invoke_context_new (context_new example_call_accounts 5 64 1) 100000 in
  match prepare_next_top_level_instruction ic (fun _ => false) (fun i => i =? 1) [1; 2] 0 [] with
  | Some (ic, _) => ic
  | None => ic
  end.
Definition example_calling : InvokeContext :=
  (set_syscall_context (invoke_push (key_of 70) (key_of 71) example_store example_prepared_caller).1
     (mkSyscallContext (BpfAllocator_new 0) example_metadata)).1.

(** The heap of the caller: a [SolInstruction] for the other program with one writable account, a
    [SolAccountInfo] for it, and what they point to. The caller has changed the last byte of the
    account. *)
Definition heap_at (offset : Z) : Z := MM_HEAP_START + offset.
Definition example_heap : list Z :=
  le_split 8 (heap_at 160) ++ le_split 8 (heap_at 40) ++ le_split 8 1 ++ le_split 8 (heap_at 224) ++ le_split 8 2 ++
  (* 40 *) le_split 8 (heap_at 192) ++ [1; 0; 0; 0; 0; 0; 0; 0] ++
  (* 56 *) le_split 8 (heap_at 192) ++ le_split 8 (heap_at 232) ++ le_split 8 3 ++ le_split 8 (heap_at 256) ++
           le_split 8 (heap_at 264) ++ le_split 8 0 ++ [0; 1; 0; 0; 0; 0; 0; 0] ++
  (* 112 *) replicate 48 0 ++
  (* 160 *) key_of 4 ++
  (* 192 *) key_of 2 ++
  (* 224 *) [5; 6; 0; 0; 0; 0; 0; 0] ++
  (* 232 *) le_split 8 100 ++ replicate 8 0 ++ le_split 8 3 ++
  (* 256 *) [1; 2; 9; 0; 0; 0; 0; 0] ++
  (* 264 *) key_of 1.

Definition example_call_regions : list MemoryRegion :=
  [ new_readonly 0x1000 8 MM_BYTECODE_START; new_writable 0x2000 8 MM_STACK_START;
    new_writable 0x10000 296 MM_HEAP_START; new_readonly 0x4000 8 MM_INPUT_START ].
Definition example_call_host : HostMemory :=
  list_to_map (zip (seqZ 0x10000 296) example_heap ++
               map (fun a => (a, 0)) (seqZ 0x1000 8 ++ seqZ 0x2000 8 ++ seqZ 0x4000 8)).
Definition example_call_mapping : MemoryMapping :=
  match mapping_new 1 example_call_regions example_config V0 with Ok m => m | Err _ => Identity end.

Definition example_call_state : CpiState :=
  mkCpiState example_calling example_call_mapping example_call_host.

(** Layouts with the addresses in the first words, and seeds that sum up. *)
Definition example_environment (derive : list (list Z) -> Pubkey -> Result Pubkey string) : CpiEnvironment :=
  mkCpiEnvironment false false false true true true 1000 250 (key_of 90) (key_of 91) (key_of 92) (key_of 93)
    (fun _ => false) (fun _ => false) (fun _ => false) (fun _ => false) (fun _ => false) (fun _ => false)
    16 derive
    80 (fun bs => mkStableInstruction (mkVmSlice (u64_at 0 bs) (u64_at 8 bs))
                    (mkVmSlice (u64_at 16 bs) (u64_at 24 bs)) (take 32 (drop 48 bs)))
    (fun bs => (take 32 bs, bs !!! 32%nat, bs !!! 33%nat))
    48 (fun bs => mkAccountInfo (u64_at 0 bs) (u64_at 8 bs) (u64_at 16 bs) (u64_at 24 bs))
    (fun i => 0x100000 * i).
Definition example_env : CpiEnvironment :=
  example_environment (fun seeds key => if is_nil seeds then Err "no seeds" else Ok (key_of (len (concat seeds)))).

(** A callee that returns a value. *)
Definition example_chain (ic : InvokeContext) (host : HostMemory)
    : option (InvokeContext * HostMemory * Result unit InstructionError) :=
  let '(c, r) := set_return_data (key_of 4) [42] (transaction_context ic) in
  Some (set_transaction_context c ic, host, r).

Abbreviation example_call :=
  (cpi_common example_env (key_of 70) (key_of 71) example_store example_chain AbiC
     (heap_at 0) (heap_at 56) 1 0 0 example_call_state).

Lemma example_call_runs :
  match example_call with
  | Some (s, r) => r = Ok 0 /\ map view_data [get_view (accounts (cpi_tc s)) 1] = [[1; 2; 9]] /\
      return_data_bytes (cpi_tc s) = [42]
  | None => False
  end.
Proof. vm_compute. done. Qed.

(** The caller of the example, established by steps. *)
Definition example_lamports : Z := initial_lamports example_call_accounts.
Definition example_data : Z := initial_data example_call_accounts.

Abbreviation example_invoke_step := (invoke_step example_exempt (key_of 70) (key_of 71) example_store).

Lemma example_calling_ok :
  context_ok example_lamports example_data (transaction_context example_calling) /\
  reentry_ok (transaction_context example_calling).
Proof.
  assert (context_ok example_lamports example_data (context_new example_call_accounts 5 64 1) /\
    reentry_ok (context_new example_call_accounts 5 64 1)) as [H1 H2].
  { split.
    - apply context_new_ok; [repeat constructor; vm_compute; discriminate|by vm_compute..].
    - intros i j k key _ H. rewrite level_program_none in H by (cbn; lia). done. }
  set (ic0 := invoke_context_new (context_new example_call_accounts 5 64 1) 100000).
  destruct (invoke_step_ok example_exempt (key_of 70) (key_of 71) example_store example_lamports example_data ic0
    example_prepared_caller H1 H2) as [K1 K2].
  { eapply (invoke_step_top_level _ _ _ _ _ _ (fun _ => false) (fun i => i =? 1) [1; 2] 0 []). vm_compute. reflexivity. }
  destruct (invoke_step_ok example_exempt (key_of 70) (key_of 71) example_store example_lamports example_data
    example_prepared_caller (invoke_push (key_of 70) (key_of 71) example_store example_prepared_caller).1 K1 K2) as [L1 L2].
  { eapply invoke_step_push, surjective_pairing. }
  apply (invoke_step_ok example_exempt (key_of 70) (key_of 71) example_store example_lamports example_data
    (invoke_push (key_of 70) (key_of 71) example_store example_prepared_caller).1 example_calling L1 L2).
  apply (invoke_step_syscall _ _ _ _ _ _ (mkSyscallContext (BpfAllocator_new 0) example_metadata)
    (set_syscall_context (invoke_push (key_of 70) (key_of 71) example_store example_prepared_caller).1
      (mkSyscallContext (BpfAllocator_new 0) example_metadata)).2).
  unfold example_calling. apply surjective_pairing.
Qed.

Lemma set_return_data_same key data c c' r :
  set_return_data key data c = (c', r) ->
  accounts c' = accounts c /\ instruction_stack c' = instruction_stack c.
Proof. unfold set_return_data. by intros [= <- _]. Qed.

#[local] Instance example_chain_goes l0 d0 :
  CalleeGoes example_exempt (key_of 70) (key_of 71) example_store l0 d0 example_chain.
Proof.
  intros ic host ic' host' r _ _. unfold example_chain. destruct (set_return_data _ _ _) as [c r1] eqn:E.
  intros [= <- <- <-]. pose proof (set_return_data_same _ _ _ _ _ E) as [Ea Es]. split; [|cbn; by rewrite Ea, Es].
  apply rtc_once, invoke_step_account. by eapply step_return_data.
Qed.

#[local] Instance example_chain_safe m : CalleeSafe m example_chain.
Proof.
  intros ic host Hb Hd. unfold example_chain. destruct (set_return_data _ _ _) as [c r1] eqn:E.
  eexists _, _, _. split; [done|]. split; [done|]. apply set_return_data_same in E as [Ea _].
  apply (same_fields_ok (transaction_context ic)); [|done]. unfold same_fields. cbn. by rewrite Ea.
Qed.

#[local] Instance example_store_bytes : StoreBytesLaw example_store.
Proof.
  intros data index bs. unfold example_store. destruct (Z.ltb_spec (len data) 2); [done|]. intros [= <-] [Hb Hl].
  split; [apply Forall_app; split; [by apply bytes_take|apply (le_split_bytes 2)]|].
  rewrite len_app. unfold len in *. rewrite length_take. cbn. lia.
Qed.

#[local] Instance example_layout derive : LayoutOk (example_environment derive).
Proof. split; [done|intros bs Hb|done|intros bs Hb]; (split; [|split; [|split]]); by apply u64_at_ok. Qed.

Lemma example_call_memory :
  mapping_ok example_call_mapping /\ mapping_handler_ok example_call_mapping /\
  backed (get_regions example_call_mapping) example_call_host.
Proof.
  assert (mapping_new 1 example_call_regions example_config V0 = Ok example_call_mapping) as E by by vm_compute.
  apply mapping_new_ok in E as (Hm & _ & _ & Hc); [|by vm_compute|repeat constructor; vm_compute; done].
  split; [done|]. split.
  - intros c Ec. rewrite Ec in Hc. injection Hc as ->. apply default_handler_ok.
  - apply backedb_sound. by vm_compute.
Qed.

(** The instruction of the caller. *)
Definition example_call_instruction : InstructionContext :=
  match get_current_instruction_context (transaction_context example_calling) with
  | Ok ic => ic
  | Err _ => mkInstructionContext 0 0 0 [] [] []
  end.

Lemma example_call_dedup :
  dedup_ok (account_indexes (ic_instruction_accounts example_call_instruction)) (ic_dedup_map example_call_instruction).
Proof.
  destruct (top_level_accounts_ok (fun _ => false) (fun i => i =? 1) [1; 2] empty_callee_map [])
    as (m & ias & E & H & _); [apply dedup_empty|by repeat constructor|by vm_compute|].
  replace (ic_dedup_map example_call_instruction) with m.
  - replace (ic_instruction_accounts example_call_instruction) with ias; [exact H|].
    vm_compute in E. injection E as <- <-. by vm_compute.
  - vm_compute in E. injection E as <- <-. by vm_compute.
Qed.

Lemma example_calling_data : data_ok (transaction_context example_calling).
Proof.
  assert (forall n, 0 <= n < 256 -> owner_ok (key_of n)) as Hkey.
  { intros n Hn. split; [by apply Forall_replicate|by apply length_replicate]. }
  split.
  - assert (map account_owner (shared_account_fields (accounts (transaction_context example_calling))) =
      [key_of 9; key_of 1; key_of 9]) as E by by vm_compute.
    apply (Forall_map account_owner). change (Forall owner_ok (account_owner <$> ?l)) with (Forall owner_ok (map account_owner l)).
    rewrite E. repeat (apply Forall_cons; split; [apply Hkey; lia|]). constructor.
  - assert (map payload (private_account_fields (accounts (transaction_context example_calling))) =
      [[]; [1; 2; 3]; []]) as E by by vm_compute.
    apply (Forall_map payload). change (payload <$> ?l) with (map payload l). rewrite E.
    repeat constructor; vm_compute; discriminate.
  - by vm_compute.
Qed.

Lemma example_caller_ready : caller_ready example_calling.
Proof.
  split; [|split; [by vm_compute|]].
  - split; [apply example_calling_data|intros _; by eexists].
  - intros current E. replace current with example_call_instruction.
    + split; [apply example_call_dedup|]. split; [by vm_compute|]. eexists. by vm_compute.
    + unfold example_call_instruction. by rewrite E.
Qed.

(** ** The properties *)

(** C10. An invocation keeps the books. If the processing of the callee goes by the steps of
    invocations, so does the whole cross-program invocation, whatever the memory of the caller
    holds and in every mode: the accounts stay in balance with the books, programs are re-entered
    only by themselves, no borrow is left behind or lost, and after a success the caller is
    current again. *)
Theorem invocation_keeps_books (is_exempt : Z -> Z -> bool) (instructions_id sysvar_id : Pubkey)
    (store : list Z -> Z -> Result (list Z) InstructionError) (lamports0 data0 : Z) (env : CpiEnvironment)
    (chain : InvokeContext -> HostMemory -> option (InvokeContext * HostMemory * Result unit InstructionError))
    (abi : Abi) (instruction infos infos_len seeds seeds_len : Z) (s s' : CpiState) (r : Result Z CpiFailure) :
  StoreIndexLaw store -> CalleeGoes is_exempt instructions_id sysvar_id store lamports0 data0 chain ->
  context_ok lamports0 data0 (cpi_tc s) -> reentry_ok (cpi_tc s) ->
  host_bytes (cpi_host s) -> metadata_ok (cpi_context s) ->
  cpi_common env instructions_id sysvar_id store chain abi instruction infos infos_len seeds seeds_len s = Some (s', r) ->
  rtc (invoke_step is_exempt instructions_id sysvar_id store) (cpi_context s) (cpi_context s') /\
  context_ok lamports0 data0 (cpi_tc s') /\ reentry_ok (cpi_tc s') /\
  borrow_counters (accounts (cpi_tc s')) = borrow_counters (accounts (cpi_tc s)) /\
  forall x, r = Ok x -> x = 0 /\ instruction_stack (cpi_tc s') = instruction_stack (cpi_tc s).
Proof.
  intros Hstore Hgoes Hc Hr Hb Hmd E.
  destruct (goes_cpi is_exempt instructions_id sysvar_id store lamports0 data0 env chain abi instruction infos
    infos_len seeds seeds_len s s' r) as (H1 & H2 & (H3 & H4 & _) & H5); [by split|done|exact E|].
  split; [done|]. split; [done|]. split; [done|]. split; [done|]. intros x Hx. by destruct (H5 x Hx).
Qed.

(** C9. An invocation is memory safe. Without the stricter rules, whatever addresses and
    structures the caller passes, and as long as the callee keeps to its own memory, the
    invocation returns: it reads and writes only memory of the regions of the caller, and does
    not panic. The regions stay as they were, and what is in memory stays bytes. *)
Theorem invocation_memory_safe (instructions_id sysvar_id : Pubkey)
    (store : list Z -> Z -> Result (list Z) InstructionError) (env : CpiEnvironment)
    (chain : InvokeContext -> HostMemory -> option (InvokeContext * HostMemory * Result unit InstructionError))
    (abi : Abi) (instruction infos infos_len seeds seeds_len : Z) (s : CpiState) :
  stricter_abi env = false -> LayoutOk env -> StoreBytesLaw store -> CalleeSafe (cpi_mapping s) chain ->
  mapping_ok (cpi_mapping s) -> mapping_handler_ok (cpi_mapping s) ->
  backed (get_regions (cpi_mapping s)) (cpi_host s) -> caller_ready (cpi_context s) ->
  is_u64 instruction -> is_u64 infos -> is_u64 infos_len -> is_u64 seeds -> is_u64 seeds_len ->
  exists s' r,
    cpi_common env instructions_id sysvar_id store chain abi instruction infos infos_len seeds seeds_len s = Some (s', r) /\
    same_regions (cpi_mapping s) (cpi_mapping s') /\
    backed (get_regions (cpi_mapping s)) (cpi_host s') /\
    (forall x, r = Ok x -> x = 0 /\ data_ok (cpi_tc s')).
Proof.
  intros Hl HL HS HC Hm Hh Hb Hready H1 H2 H3 H4 H5.
  destruct (safe_cpi (cpi_mapping s) Hm env Hl instructions_id sysvar_id store chain abi instruction infos infos_len
    seeds seeds_len H1 H2 H3 H4 H5 s) as (s' & r & E & [Hs' Hb'] & Hr); [split; [|done]; by split; [apply step_refl|]|done|].
  exists s', r. split; [done|]. split; [done|]. split; [done|]. intros x Hx. by destruct (Hr x Hx) as [[? _] ->].
Qed.

(** C22. The callee sees what the caller left. Without the stricter rules, when an account has
    been synchronised, its lamports, data and owner are those in the memory of the caller; no
    other account has changed, and memory has not. The result says whether the owner is new. *)
Theorem callee_sees_caller (env : CpiEnvironment) (check_aligned : bool) (caller : CallerAccount)
    (b : BorrowedInstructionAccount) (s s' : CpiState) (changed : bool) :
  stricter_abi env = false -> present b (cpi_tc s) ->
  update_callee_account env check_aligned caller b s = Some (s', Ok changed) ->
  exists lamports data owner,
    caller_has caller (cpi_host s) lamports data owner /\
    account_is b (le_combine lamports) data owner (cpi_tc s') /\
    changed = bool_decide (get_owner b (cpi_tc s) <> owner) /\
    only b (cpi_tc s) (cpi_tc s') /\ cpi_host s' = cpi_host s /\ cpi_mapping s' = cpi_mapping s.
Proof. intros Hl Hp E. by eapply update_callee_sync. Qed.


(** C24. A callee that changes nothing is not seen. Without the stricter rules, when an account
    has been synchronised with the memory of the caller, synchronising the memory with the
    account succeeds and changes nothing. *)
Theorem synchronisation_round_trip (env : CpiEnvironment) (check_aligned : bool) (caller : CallerAccount)
    (b : BorrowedInstructionAccount) (s s' : CpiState) (changed : bool) (n : list Z) :
  stricter_abi env = false -> present b (cpi_tc s) -> host_bytes (cpi_host s) ->
  0 <= hs_len (ca_serialized_data caller) ->
  host_read (cpi_host s) (ca_ref_to_len_in_vm caller) 8 = Some n ->
  le_combine n = hs_len (ca_serialized_data caller) ->
  update_callee_account env check_aligned caller b s = Some (s', Ok changed) ->
  update_caller_account env check_aligned caller b s' = Some (s', Ok tt).
Proof.
  intros Hl Hp Hb Hpos Hn En E.
  destruct (update_callee_sync env Hl _ _ _ _ _ _ E Hp) as (lam & data & owner & H1 & H2 & _ & _ & Eh & _).
  rewrite <- Eh in H1, Hn, Hb. by eapply update_back.
Qed.

(** C21. An invocation gives the callee no privilege that the caller does not have. When the
    instruction that a caller passes in memory has been prepared, in every mode: its program may
    be called; the signers are addresses derived from the caller's program, at most sixteen; and
    every account of the callee is the one its meta names, with the privileges asked for, each
    granted by an account of the caller or by a signer. *)
Theorem invocation_privileges (env : CpiEnvironment) (abi : Abi) (instruction_addr seeds seeds_len : Z)
    (check_aligned : bool) (s s' : CpiState) (caller : InstructionContext) :
  accounts_len (accounts (cpi_tc s)) <= MAX_ACCOUNTS_PER_TRANSACTION ->
  get_current_instruction_context (cpi_tc s) = Ok caller ->
  dedup_ok (account_indexes (ic_instruction_accounts caller)) (ic_dedup_map caller) ->
  len (ic_instruction_accounts caller) <= u16_MAX ->
  cpi_prepare env abi instruction_addr seeds seeds_len check_aligned s = Some (s', Ok tt) ->
  exists s1 instruction key signers ias m program index,
    translate_instruction env abi instruction_addr check_aligned s = Some (s1, Ok instruction) /\
    get_program_key (cpi_tc s) caller = Ok key /\
    is_authorized_program env (program_id instruction) (instruction_bytes instruction) = true /\
    len signers <= MAX_SIGNERS /\
    Forall (fun k => exists seeds, create_program_address env seeds key = Ok k) signers /\
    configure_next_instruction program ias m (instruction_bytes instruction) (Some index) (cpi_tc s) = (cpi_tc s', Ok tt) /\
    account_key (accounts (cpi_tc s)) program = Some (program_id instruction) /\
    Forall2 (fun meta ia =>
        account_key (accounts (cpi_tc s)) (index_in_transaction ia) = Some (meta_pubkey meta) /\
        (meta_is_writable meta = true -> is_writable ia = true) /\
        (meta_is_signer meta = true -> is_signer ia = true) /\
        exists ca, ca ∈ ic_instruction_accounts caller /\
          index_in_transaction ca = index_in_transaction ia /\
          (is_writable ia = true -> is_writable ca = true) /\
          (is_signer ia = true -> is_signer ca = true \/ meta_pubkey meta ∈ signers))
      (instruction_metas instruction) ias.
Proof.
  intros Hacc Hcur Hd Hl E. unfold cpi_prepare in E. first_of E s1 instruction H1.
  pose proof (keeps_instruction _ _ _ _ _ _ _ H1) as E1. apply instruction_limits in H1 as Hmetas.
  first_of E s2 current H2. unfold cpi_check in H2. rewrite E1, Hcur in H2. injection H2 as <- <-.
  first_of E s3 key H3. unfold cpi_check in H3. rewrite E1 in H3.
  destruct (get_program_key (cpi_tc s) caller) as [key'|e] eqn:Ek; [|done]. injection H3 as <- <-.
  first_of E s4 signers H4. pose proof (keeps_signers _ _ _ _ _ _ _ _ H4) as E4. apply signers_derived in H4 as [Hs1 Hs2].
  first_of E s5 u H5. unfold check_authorized_program in H5.
  destruct (is_authorized_program _ _ _) eqn:Ea; [|done]. apply ret_ok in H5 as [-> _].
  rewrite E1 in E4. unfold prepare_next_instruction in E. rewrite E4, Hcur in E.
  destruct (callee_accounts_ok _ Hacc caller instruction signers Hd Hl) as (r & Er & Hr).
  { eapply Z.le_lt_trans; [exact Hmetas|done]. }
  rewrite Er in E. cbn [mbind option_bind] in E. destruct r as [[[ias m] program]|e]; [|done].
  destruct (Hr ias m program eq_refl) as [_ Hf]. destruct (get_current_instruction_index _) as [i|]; [|done].
  destruct (configure_next_instruction _ _ _ _ _ _) as [c [[]|e]] eqn:Ec; [|done]. cbn in E. injection E as <-.
  exists s1, instruction, key', signers, ias, m, program, (as_u16 i). do 6 (split; [done|]). split.
  - by eapply callee_program.
  - eapply Forall2_impl; [exact Hf|]. intros meta ia [[] Ha]. auto.
Qed.

(** ** Witnesses *)

Lemma ran {A} (m : option (CpiState * Result A CpiFailure)) x :
  option_map snd m = Some (Ok x) -> exists s', m = Some (s', Ok x).
Proof. destruct m as [[s' r]|]; [|done]. intros [= ->]. by exists s'. Qed.

Lemma example_host_bytes : host_bytes example_call_host.
Proof. apply (backed_bytes (get_regions example_call_mapping)), example_call_memory. Qed.

Lemma invocation_keeps_books_witness :
  match example_call with
  | Some (s', _) => context_ok example_lamports example_data (cpi_tc s') /\
      instruction_stack (cpi_tc s') = instruction_stack (cpi_tc example_call_state)
  | None => False
  end.
Proof.
  destruct example_call as [[s' r]|] eqn:E; [|by vm_compute in E].
  destruct (invocation_keeps_books example_exempt (key_of 70) (key_of 71) example_store example_lamports example_data
    example_env example_chain AbiC (heap_at 0) (heap_at 56) 1 0 0 example_call_state s' r _ _
    (proj1 example_calling_ok) (proj2 example_calling_ok) example_host_bytes) as (_ & H & _ & _ & Hr).
  - intros sc Hsc. vm_compute in Hsc. injection Hsc as <-. repeat constructor; vm_compute; discriminate.
  - exact E.
  - split; [exact H|]. apply (Hr 0). pose proof example_call_runs as K. rewrite E in K. apply K.
Defined.

Lemma invocation_memory_safe_witness :
  exists s' r, example_call = Some (s', r) /\ backed (get_regions example_call_mapping) (cpi_host s').
Proof.
  destruct example_call_memory as (H1 & H2 & H3).
  destruct (invocation_memory_safe (key_of 70) (key_of 71) example_store example_env example_chain AbiC
    (heap_at 0) (heap_at 56) 1 0 0 example_call_state eq_refl _ _ _ H1 H2 H3 example_caller_ready
    ltac:(by vm_compute) ltac:(by vm_compute) ltac:(by vm_compute) ltac:(by vm_compute) ltac:(by vm_compute))
    as (s' & r & E & _ & Hb & _).
  exists s', r. split; [exact E|exact Hb].
Defined.

(** The account of the example, borrowed; where it is in the memory of the caller. *)
Definition example_call_borrowed : BorrowedInstructionAccount :=
  mkBorrowed (InstructionAccount_new 1 false true) 0.
Definition example_call_caller : CallerAccount :=
  mkCallerAccount (0x10000 + 232) (0x10000 + 264) 3 (mkHostSlice (0x10000 + 256) 3) (heap_at 256) (0x10000 + 72).
Abbreviation example_synchronised :=
  (update_callee_account example_env true example_call_caller example_call_borrowed example_call_state).

Lemma example_present : present example_call_borrowed (cpi_tc example_call_state).
Proof. split; [unfold in_range; vm_compute; lia|done|by vm_compute]. Qed.

Lemma example_synchronised_runs :
  exists s', example_synchronised = Some (s', Ok false) /\ get_data example_call_borrowed (cpi_tc s') = [1; 2; 9].
Proof.
  destruct (ran example_synchronised false) as [s' E]; [by vm_compute|]. exists s'.
  split; [exact E|]. transitivity (match example_synchronised with
    | Some (s, _) => get_data example_call_borrowed (cpi_tc s) | None => [] end); [by rewrite E|by vm_compute].
Qed.

Lemma callee_sees_caller_witness :
  exists s', example_synchronised = Some (s', Ok false) /\
    exists lamports data owner, caller_has example_call_caller example_call_host lamports data owner /\
      get_data example_call_borrowed (cpi_tc s') = data.
Proof.
  destruct example_synchronised_runs as (s' & E & _). exists s'. split; [exact E|].
  destruct (callee_sees_caller example_env true example_call_caller example_call_borrowed example_call_state s' false
    eq_refl example_present E) as (l & d & o & H1 & (_ & H2 & _) & _). exists l, d, o. split; [exact H1|exact H2].
Defined.


Lemma synchronisation_round_trip_witness :
  exists s', example_synchronised = Some (s', Ok false) /\
    update_caller_account example_env true example_call_caller example_call_borrowed s' = Some (s', Ok tt).
Proof.
  destruct example_synchronised_runs as (s' & E & _). exists s'. split; [exact E|].
  apply (synchronisation_round_trip example_env true example_call_caller example_call_borrowed example_call_state s' false
    (le_split 8 3) eq_refl example_present example_host_bytes); [done|by vm_compute|by vm_compute|exact E].
Defined.

Lemma invocation_privileges_witness :
  exists s' instruction, cpi_prepare example_env AbiC (heap_at 0) 0 0 true example_call_state = Some (s', Ok tt) /\
    is_authorized_program example_env (program_id instruction) (instruction_bytes instruction) = true.
Proof.
  destruct (ran (cpi_prepare example_env AbiC (heap_at 0) 0 0 true example_call_state) tt) as [s' E]; [by vm_compute|].
  destruct (invocation_privileges example_env AbiC (heap_at 0) 0 0 true example_call_state s' example_call_instruction
    ltac:(by vm_compute) ltac:(by vm_compute) example_call_dedup ltac:(by vm_compute) E)
    as (s1 & i & key & signers & ias & m & program & index & _ & _ & H & _).
  exists s', i. split; [exact E|exact H].
Defined.
