(* ===== verification/ElfParser.v ===== *)
(** The ELF parser, sbpf/src/elf_parser: the record types of types.rs, and
    [Elf64] with its queries (mod.rs).

    A byte slice is its address and its bytes, since the parser checks the
    alignment of the structures it casts a slice to. The structures are decoded
    field by field at the offsets of their [repr(C)] layout. Every operation is
    total: what can go wrong is an [ElfParserError]. The accesses to
    [dynamic_table] are at constants below its length, or guarded by it. *)

From Stdlib Require Import ZArith Lia Bool.
From stdpp Require Import strings pretty.
From S2P Require Import Prelude.

#[local] Open Scope Z_scope.

(** ** Text *)

(** The bytes of a string, as a byte string literal has them. *)
Definition bstr (s : string) : list Z :=
  map (fun c => Z.of_nat (Ascii.nat_of_ascii c)) (String.list_ascii_of_string s).

Definition string_of_bytes (bs : list Z) : string :=
  String.string_of_list_ascii (map (fun b => Ascii.ascii_of_nat (Z.to_nat b)) bs).

Definition between (a b x : Z) : bool := (a <=? x) && (x <=? b).

(** The ranges that the continuation bytes after a first byte lie in: the well
    formed UTF-8 sequences. [None] for a byte that starts none. *)
Definition utf8_tail (b : Z) : option (list (Z * Z)) :=
  if between 0x00 0x7F b then Some []
  else if between 0xC2 0xDF b then Some [(0x80, 0xBF)]
  else if b =? 0xE0 then Some [(0xA0, 0xBF); (0x80, 0xBF)]
  else if b =? 0xED then Some [(0x80, 0x9F); (0x80, 0xBF)]
  else if between 0xE1 0xEF b then Some [(0x80, 0xBF); (0x80, 0xBF)]
  else if b =? 0xF0 then Some [(0x90, 0xBF); (0x80, 0xBF); (0x80, 0xBF)]
  else if between 0xF1 0xF3 b then Some [(0x80, 0xBF); (0x80, 0xBF); (0x80, 0xBF)]
  else if b =? 0xF4 then Some [(0x80, 0x8F); (0x80, 0xBF); (0x80, 0xBF)]
  else None.

(** How many of the following bytes continue the sequence. *)
Fixpoint utf8_matched (tail : list (Z * Z)) (bs : list Z) : nat :=
  match tail, bs with
  | (a, b) :: tail', x :: bs' => if between a b x then S (utf8_matched tail' bs') else 0
  | _, _ => 0
  end.

(** The sequence at the start of the bytes: its length, and whether it is well
    formed. An ill-formed one is the longest prefix of a well-formed one. *)
Definition utf8_next (b : Z) (bs : list Z) : nat * bool :=
  match utf8_tail b with
  | Some tail => let n := utf8_matched tail bs in (S n, (n =? length tail)%nat)
  | None => (1%nat, false)
  end.

(** [String::from_utf8_lossy] puts U+FFFD for an ill-formed sequence; a
    sequence is at least one byte long. *)
Fixpoint utf8_lossy (fuel : nat) (bs : list Z) : list Z :=
  match fuel, bs with
  | S fuel', b :: bs' =>
      let '(n, valid) := utf8_next b bs' in
      (if valid : bool then take n bs else [0xEF; 0xBF; 0xBD]) ++ utf8_lossy fuel' (drop n bs)
  | _, _ => []
  end.

Definition from_utf8_lossy (bs : list Z) : string := string_of_bytes (utf8_lossy (length bs) bs).

(** [str::from_utf8]: nothing to replace. *)
Definition from_utf8 (bs : list Z) : option string :=
  if bool_decide (utf8_lossy (length bs) bs = bs) then Some (string_of_bytes bs) else None.

(** ** Errors *)

Inductive ElfParserError :=
| EpInvalidFileHeader
| EpInvalidProgramHeader
| EpInvalidSectionHeader
| EpInvalidString
| EpStringTooLong (name : string) (maximum : Z)
| EpOutOfBounds
| EpInvalidSize
| EpOverlap
| EpSectionNotInOrder
| EpNoSectionNameStringTable
| EpInvalidDynamicSectionTable
| EpInvalidRelocationTable
| EpInvalidAlignment
| EpNoStringTable
| EpNoDynamicStringTable.

(** The [Display] that [thiserror] derives. *)
Definition parser_error_text (e : ElfParserError) : string :=
  match e with
  | EpInvalidFileHeader => "invalid file header"
  | EpInvalidProgramHeader => "invalid program header"
  | EpInvalidSectionHeader => "invalid section header"
  | EpInvalidString => "invalid string"
  | EpStringTooLong name maximum =>
      ("Section or symbol name `" +:+ name +:+ "` is longer than `" +:+ pretty maximum +:+ "` bytes")
  | EpOutOfBounds => "value out of bounds"
  | EpInvalidSize => "invalid size"
  | EpOverlap => "values overlap"
  | EpSectionNotInOrder => "sections not in ascending order"
  | EpNoSectionNameStringTable => "no section name string table found"
  | EpInvalidDynamicSectionTable => "invalid dynamic section table"
  | EpInvalidRelocationTable => "invalid relocation table"
  | EpInvalidAlignment => "invalid alignment"
  | EpNoStringTable => "no string table"
  | EpNoDynamicStringTable => "no dynamic string table"
  end%string.

(** [ErrCheckedArithmetic] on [u64] and [usize], with the conversion of
    [ArithmeticOverflow] that [?] applies. *)
Definition err_checked_add (a b : Z) : Result Z ElfParserError :=
  if a + b <=? u64_MAX then Ok (a + b) else Err EpOutOfBounds.
Definition err_checked_sub (a b : Z) : Result Z ElfParserError :=
  if b <=? a then Ok (a - b) else Err EpOutOfBounds.
Definition err_checked_mul (a b : Z) : Result Z ElfParserError :=
  if a * b <=? u64_MAX then Ok (a * b) else Err EpOutOfBounds.

Definition ok_or {T E} (o : option T) (e : E) : Result T E :=
  match o with Some v => Ok v | None => Err e end.

(** ** Constants *)

Definition ELFMAG : list Z := [0x7F; 0x45; 0x4C; 0x46].
Definition ELFCLASS64 : Z := 2.
Definition ELFDATA2LSB : Z := 1.
Definition ELFOSABI_NONE : Z := 0.
Definition EM_BPF : Z := 247.
Definition EM_SBPF : Z := 263.
Definition ET_DYN : Z := 3.
Definition EV_CURRENT : Z := 1.
Definition PT_LOAD : Z := 1.
Definition PT_DYNAMIC : Z := 2.
Definition PF_X : Z := 0x1.
Definition PF_R : Z := 0x4.
Definition SHT_NULL : Z := 0.
Definition SHT_SYMTAB : Z := 2.
Definition SHT_STRTAB : Z := 3.
Definition SHT_DYNAMIC : Z := 6.
Definition SHT_NOBITS : Z := 8.
Definition SHT_DYNSYM : Z := 11.
Definition SHF_WRITE : Z := 0x1.
Definition SHF_ALLOC : Z := 0x2.
Definition SHN_UNDEF : Z := 0.
Definition DT_NULL : Z := 0.
Definition DT_SYMTAB : Z := 6.
Definition DT_REL : Z := 17.
Definition DT_RELSZ : Z := 18.
Definition DT_RELENT : Z := 19.
Definition DT_NUM : Z := 35.
Definition STT_FUNC : Z := 2.
Definition R_X86_64_NONE : Z := 0.
Definition R_X86_64_64 : Z := 1.
Definition R_X86_64_RELATIVE : Z := 8.
Definition R_X86_64_32 : Z := 10.

Definition SECTION_NAME_LENGTH_MAXIMUM : Z := 16.
Definition SYMBOL_NAME_LENGTH_MAXIMUM : Z := 64.

(** ** The structures of an ELF file *)

(** The [n]-byte integer at an offset. *)
Definition field (bs : list Z) (offset n : Z) : Z := le_combine (slice bs offset (offset + n)).

(** A structure that a byte slice is cast to. *)
Class Layout (T : Type) := {
  size_of : Z;
  align_of : Z;
  decode : list Z -> T
}.
Arguments size_of T {_}.
Arguments align_of T {_}.

Record ElfIdent := mkIdent {
  ei_mag : list Z;
  ei_class : Z;
  ei_data : Z;
  ei_version : Z;
  ei_osabi : Z;
  ei_abiversion : Z;
  ei_pad : list Z
}.

Definition decode_ident (bs : list Z) : ElfIdent :=
  mkIdent (slice bs 0 4) (field bs 4 1) (field bs 5 1) (field bs 6 1) (field bs 7 1) (field bs 8 1)
    (slice bs 9 16).

Record Elf64Ehdr := mkEhdr {
  e_ident : ElfIdent;
  e_type : Z;
  e_machine : Z;
  e_version : Z;
  e_entry : Z;
  e_phoff : Z;
  e_shoff : Z;
  e_flags : Z;
  e_ehsize : Z;
  e_phentsize : Z;
  e_phnum : Z;
  e_shentsize : Z;
  e_shnum : Z;
  e_shstrndx : Z
}.

#[export] Instance Elf64Ehdr_layout : Layout Elf64Ehdr := {|
  size_of := 64;
  align_of := 8;
  decode bs :=
    mkEhdr (decode_ident (slice bs 0 16)) (field bs 16 2) (field bs 18 2) (field bs 20 4)
      (field bs 24 8) (field bs 32 8) (field bs 40 8) (field bs 48 4) (field bs 52 2) (field bs 54 2)
      (field bs 56 2) (field bs 58 2) (field bs 60 2) (field bs 62 2)
|}.

Record Elf64Phdr := mkPhdr {
  p_type : Z;
  p_flags : Z;
  p_offset : Z;
  p_vaddr : Z;
  p_paddr : Z;
  p_filesz : Z;
  p_memsz : Z;
  p_align : Z
}.

#[export] Instance Elf64Phdr_layout : Layout Elf64Phdr := {|
  size_of := 56;
  align_of := 8;
  decode bs :=
    mkPhdr (field bs 0 4) (field bs 4 4) (field bs 8 8) (field bs 16 8) (field bs 24 8) (field bs 32 8)
      (field bs 40 8) (field bs 48 8)
|}.

Record Elf64Shdr := mkShdr {
  sh_name : Z;
  sh_type : Z;
  sh_flags : Z;
  sh_addr : Z;
  sh_offset : Z;
  sh_size : Z;
  sh_link : Z;
  sh_info : Z;
  sh_addralign : Z;
  sh_entsize : Z
}.

#[export] Instance Elf64Shdr_layout : Layout Elf64Shdr := {|
  size_of := 64;
  align_of := 8;
  decode bs :=
    mkShdr (field bs 0 4) (field bs 4 4) (field bs 8 8) (field bs 16 8) (field bs 24 8) (field bs 32 8)
      (field bs 40 4) (field bs 44 4) (field bs 48 8) (field bs 56 8)
|}.

Record Elf64Sym := mkSym {
  st_name : Z;
  st_info : Z;
  st_other : Z;
  st_shndx : Z;
  st_value : Z;
  st_size : Z
}.

#[export] Instance Elf64Sym_layout : Layout Elf64Sym := {|
  size_of := 24;
  align_of := 8;
  decode bs :=
    mkSym (field bs 0 4) (field bs 4 1) (field bs 5 1) (field bs 6 2) (field bs 8 8) (field bs 16 8)
|}.

Record Elf64Dyn := mkDyn { d_tag : Z; d_val : Z }.

#[export] Instance Elf64Dyn_layout : Layout Elf64Dyn := {|
  size_of := 16;
  align_of := 8;
  decode bs := mkDyn (field bs 0 8) (field bs 8 8)
|}.

Record Elf64Rel := mkRel { r_offset : Z; r_info : Z }.

#[export] Instance Elf64Rel_layout : Layout Elf64Rel := {|
  size_of := 16;
  align_of := 8;
  decode bs := mkRel (field bs 0 8) (field bs 8 8)
|}.

(** [Elf64Phdr::file_range] and [vm_range]. *)
Definition p_file_range (h : Elf64Phdr) : option Range :=
  if p_type h =? PT_LOAD
  then Some (mkRange (p_offset h) (saturating_add (p_offset h) (p_filesz h)))
  else None.
Definition p_vm_range (h : Elf64Phdr) : Range :=
  mkRange (p_vaddr h) (saturating_add (p_vaddr h) (p_memsz h)).

Definition s_is_writable (h : Elf64Shdr) : bool :=
  Z.land (sh_flags h) (SHF_ALLOC .| SHF_WRITE) =? SHF_ALLOC .| SHF_WRITE.

(** [Elf64Shdr::file_range] and [vm_range]. *)
Definition s_file_range (h : Elf64Shdr) : option Range :=
  if negb (sh_type h =? SHT_NOBITS)
  then Some (mkRange (sh_offset h) (saturating_add (sh_offset h) (sh_size h)))
  else None.
Definition s_vm_range (h : Elf64Shdr) : Range :=
  mkRange (sh_addr h) (saturating_add (sh_addr h) (sh_size h)).

Definition is_function (s : Elf64Sym) : bool := Z.land (st_info s) 0xF =? STT_FUNC.

Definition r_type (r : Elf64Rel) : Z := as_u32 (Z.land (r_info r) 0xFFFFFFFF).
Definition r_sym (r : Elf64Rel) : Z := as_u32 (checked_shr_or_0 (r_info r) 32).

(** [unwrap_or_default] of a range. *)
Definition or_default_range (o : option Range) : Range :=
  match o with Some r => r | None => mkRange 0 0 end.

(** ** Slices *)

Record Bytes := mkBytes { b_ptr : Z; b_data : list Z }.

(** [bytes.get(range)]. *)
Definition get_slice {A} (l : list A) (r : Range) : option (list A) :=
  if (r_start r <=? r_end r) && (r_end r <=? len l) then Some (slice l (r_start r) (r_end r)) else None.

(** [ExactSizeIterator::len] of a range. *)
Definition range_len (r : Range) : Z := if r_start r <? r_end r then r_end r - r_start r else 0.

(** The structures in a slice: [from_raw_parts] of the cast pointer. *)
Fixpoint decode_all {T} `{Layout T} (n : nat) (bs : list Z) : list T :=
  match n with
  | O => []
  | S n' => decode (take (Z.to_nat (size_of T)) bs) :: decode_all n' (drop (Z.to_nat (size_of T)) bs)
  end.

Definition slice_from_bytes {T} `{Layout T} (bs : Bytes) (range : Range) : Result (list T) ElfParserError :=
  if negb (range_len range mod size_of T =? 0) then Err EpInvalidSize
  else
    let? sub := ok_or (get_slice (b_data bs) range) EpOutOfBounds in
    if negb ((b_ptr bs + r_start range) mod align_of T =? 0) then Err EpInvalidAlignment
    else Ok (decode_all (Z.to_nat (range_len range / size_of T)) sub).

Definition slice_from_program_header {T} `{Layout T} (bs : Bytes) (h : Elf64Phdr)
    : Result (list T) ElfParserError :=
  let? stop := err_checked_add (p_offset h) (p_filesz h) in
  slice_from_bytes bs (mkRange (p_offset h) stop).

Definition slice_from_section_header {T} `{Layout T} (bs : Bytes) (h : Elf64Shdr)
    : Result (list T) ElfParserError :=
  let? stop := err_checked_add (sh_offset h) (sh_size h) in
  slice_from_bytes bs (mkRange (sh_offset h) stop).

(** [iter().position]. *)
Fixpoint byte_position (p : Z -> bool) (l : list Z) : option Z :=
  match l with
  | [] => None
  | x :: l' => if p x then Some 0 else Z.succ <$> byte_position p l'
  end.

Definition get_string_in_section (elf_bytes : list Z) (section_header : Elf64Shdr)
    (offset_in_section maximum_length : Z) : Result (list Z) ElfParserError :=
  if negb (sh_type section_header =? SHT_STRTAB) then Err EpInvalidSectionHeader
  else
    let? offset_in_file := err_checked_add (sh_offset section_header) offset_in_section in
    let? section_end := err_checked_add (sh_offset section_header) (sh_size section_header) in
    let? maximum_end := err_checked_add offset_in_file maximum_length in
    let? unterminated := ok_or (get_slice elf_bytes (mkRange offset_in_file (Z.min section_end maximum_end)))
                           EpOutOfBounds in
    ok_or (let! string_length := byte_position (fun byte => byte =? 0) unterminated in
           get_slice unterminated (mkRange 0 string_length))
      (EpStringTooLong (from_utf8_lossy unterminated) maximum_length).

Definition check_that_there_is_no_overlap (range_a range_b : Range) : Result unit ElfParserError :=
  if (r_end range_a <=? r_start range_b) || (r_end range_b <=? r_start range_a)
  then Ok tt else Err EpOverlap.

(** ** Headers *)

Definition parse_file_header (bs : Bytes) : Result (Range * Elf64Ehdr) ElfParserError :=
  let file_header_range := mkRange 0 (size_of Elf64Ehdr) in
  let? file_header_bytes := ok_or (get_slice (b_data bs) file_header_range) EpOutOfBounds in
  if negb (b_ptr bs mod align_of Elf64Ehdr =? 0) then Err EpInvalidAlignment
  else Ok (file_header_range, decode file_header_bytes).

Definition parse_program_header_table (bs : Bytes) (file_header_range : Range) (file_header : Elf64Ehdr)
    : Result (Range * list Elf64Phdr) ElfParserError :=
  let? size := err_checked_mul (size_of Elf64Phdr) (e_phnum file_header) in
  let? stop := err_checked_add size (e_phoff file_header) in
  let program_header_table_range := mkRange (e_phoff file_header) stop in
  let? _ := check_that_there_is_no_overlap file_header_range program_header_table_range in
  let? program_header_table := slice_from_bytes bs program_header_table_range in
  Ok (program_header_table_range, program_header_table).

Definition parse_section_header_table (bs : Bytes) (file_header_range : Range) (file_header : Elf64Ehdr)
    (program_header_table_range : Range) : Result (Range * list Elf64Shdr) ElfParserError :=
  let? size := err_checked_mul (size_of Elf64Shdr) (e_shnum file_header) in
  let? stop := err_checked_add size (e_shoff file_header) in
  let section_header_table_range := mkRange (e_shoff file_header) stop in
  let? _ := check_that_there_is_no_overlap file_header_range section_header_table_range in
  let? _ := check_that_there_is_no_overlap program_header_table_range section_header_table_range in
  let? section_header_table := slice_from_bytes bs section_header_table_range in
  Ok (section_header_table_range, section_header_table).

(** The identification and sizes that [parse] asks for. *)
Definition file_header_invalid (h : Elf64Ehdr) : bool :=
  bool_decide (ei_mag (e_ident h) <> ELFMAG)
  || negb (ei_class (e_ident h) =? ELFCLASS64)
  || negb (ei_data (e_ident h) =? ELFDATA2LSB)
  || negb (ei_version (e_ident h) =? as_u8 EV_CURRENT)
  || negb (e_version h =? EV_CURRENT)
  || negb (e_ehsize h =? as_u16 (size_of Elf64Ehdr))
  || negb (e_phentsize h =? as_u16 (size_of Elf64Phdr))
  || negb (e_shentsize h =? as_u16 (size_of Elf64Shdr))
  || (e_shnum h <=? e_shstrndx h).

(** The loop over the program headers; [vaddr] is that of the last segment. *)
Fixpoint check_program_headers (elf_len vaddr : Z) (table : list Elf64Phdr) : Result unit ElfParserError :=
  match table with
  | [] => Ok tt
  | h :: table' =>
      if negb (p_type h =? PT_LOAD) then check_program_headers elf_len vaddr table'
      else if p_vaddr h <? vaddr then Err EpInvalidProgramHeader
      else
        let? stop := err_checked_add (p_offset h) (p_filesz h) in
        if elf_len <? stop then Err EpOutOfBounds
        else check_program_headers elf_len (p_vaddr h) table'
  end.

(** The loop over the section headers; [offset] is the end of the last section,
    and the three ranges are those of the headers. *)
Fixpoint check_section_headers (elf_len : Z) (file_header_range program_header_table_range
    section_header_table_range : Range) (offset : Z) (table : list Elf64Shdr) : Result unit ElfParserError :=
  match table with
  | [] => Ok tt
  | h :: table' =>
      if sh_type h =? SHT_NOBITS
      then check_section_headers elf_len file_header_range program_header_table_range
             section_header_table_range offset table'
      else
        let? stop := err_checked_add (sh_offset h) (sh_size h) in
        let section_range := mkRange (sh_offset h) stop in
        let? _ := check_that_there_is_no_overlap section_range file_header_range in
        let? _ := check_that_there_is_no_overlap section_range program_header_table_range in
        let? _ := check_that_there_is_no_overlap section_range section_header_table_range in
        if r_start section_range <? offset then Err EpSectionNotInOrder
        else if elf_len <? r_end section_range then Err EpOutOfBounds
        else check_section_headers elf_len file_header_range program_header_table_range
               section_header_table_range (r_end section_range) table'
  end.

(** ** Elf64 *)

Record Elf64 := mkElf64 {
  parser_bytes : Bytes;
  file_header : Elf64Ehdr;
  program_header_table : list Elf64Phdr;
  section_header_table : list Elf64Shdr;
  section_names_section_header : option Elf64Shdr;
  symbol_section_header : option Elf64Shdr;
  symbol_names_section_header : option Elf64Shdr;
  dynamic_table : list Z;
  dynamic_relocations_table : option (list Elf64Rel);
  dynamic_symbol_table : option (list Elf64Sym);
  dynamic_symbol_names_section_header : option Elf64Shdr
}.

(** One arm of [section_header_by_name]: a section found twice is an error. *)
Definition found_once (field : option Elf64Shdr) (h : Elf64Shdr) : Result (option Elf64Shdr) ElfParserError :=
  match field with Some _ => Err EpInvalidSectionHeader | None => Ok (Some h) end.

(** The three named sections, [.symtab], [.strtab] and [.dynstr]. *)
Definition section_header_by_name (self : Elf64) (h : Elf64Shdr) (name : list Z) : Result Elf64 ElfParserError :=
  let 'mkElf64 bs fh ph sh names symtab strtab dyn rel sym dynstr := self in
  if bool_decide (name = bstr ".symtab") then
    let? symtab := found_once symtab h in Ok (mkElf64 bs fh ph sh names symtab strtab dyn rel sym dynstr)
  else if bool_decide (name = bstr ".strtab") then
    let? strtab := found_once strtab h in Ok (mkElf64 bs fh ph sh names symtab strtab dyn rel sym dynstr)
  else if bool_decide (name = bstr ".dynstr") then
    let? dynstr := found_once dynstr h in Ok (mkElf64 bs fh ph sh names symtab strtab dyn rel sym dynstr)
  else Ok self.

Fixpoint parse_each_section (self : Elf64) (names : Elf64Shdr) (table : list Elf64Shdr)
    : Result Elf64 ElfParserError :=
  match table with
  | [] => Ok self
  | h :: table' =>
      let? section_name :=
        get_string_in_section (b_data (parser_bytes self)) names (sh_name h) SECTION_NAME_LENGTH_MAXIMUM in
      let? self := section_header_by_name self h section_name in
      parse_each_section self names table'
  end.

Definition parse_sections (self : Elf64) : Result Elf64 ElfParserError :=
  let? names := ok_or (section_names_section_header self) EpNoSectionNameStringTable in
  parse_each_section self names (section_header_table self).

Definition get_symbol_table_of_section (self : Elf64) (h : Elf64Shdr) : Result (list Elf64Sym) ElfParserError :=
  if negb (sh_type h =? SHT_SYMTAB) && negb (sh_type h =? SHT_DYNSYM) then Err EpInvalidSectionHeader
  else slice_from_section_header (parser_bytes self) h.

Fixpoint program_header_for_vaddr (table : list Elf64Phdr) (vaddr : Z)
    : Result (option Elf64Phdr) ElfParserError :=
  match table with
  | [] => Ok None
  | h :: table' =>
      let? stop := err_checked_add (p_vaddr h) (p_memsz h) in
      if range_contains (mkRange (p_vaddr h) stop) vaddr then Ok (Some h)
      else program_header_for_vaddr table' vaddr
  end.

Definition parse_dynamic_relocations (self : Elf64) : Result (option (list Elf64Rel)) ElfParserError :=
  let vaddr := dynamic_table self !!! Z.to_nat DT_REL in
  if vaddr =? 0 then Ok None
  else if negb (dynamic_table self !!! Z.to_nat DT_RELENT =? size_of Elf64Rel)
  then Err EpInvalidDynamicSectionTable
  else
    let size := dynamic_table self !!! Z.to_nat DT_RELSZ in
    if size =? 0 then Err EpInvalidDynamicSectionTable
    else
      let? program_header := program_header_for_vaddr (program_header_table self) vaddr in
      let? offset :=
        match program_header with
        | Some h =>
            let? delta := err_checked_sub vaddr (p_vaddr h) in
            err_checked_add delta (p_offset h)
        | None =>
            let? h := ok_or (List.find (fun h => sh_addr h =? vaddr) (section_header_table self))
                        EpInvalidDynamicSectionTable in
            Ok (sh_offset h)
        end in
      let? stop := err_checked_add offset size in
      map_err (fun _ => EpInvalidDynamicSectionTable)
        (let? table := slice_from_bytes (parser_bytes self) (mkRange offset stop) in Ok (Some table)).

Definition parse_dynamic_symbol_table (self : Elf64) : Result (option (list Elf64Sym)) ElfParserError :=
  let vaddr := dynamic_table self !!! Z.to_nat DT_SYMTAB in
  if vaddr =? 0 then Ok None
  else
    let? dynsym_section_header :=
      ok_or (List.find (fun h => sh_addr h =? vaddr) (section_header_table self))
        EpInvalidDynamicSectionTable in
    let? table := get_symbol_table_of_section self dynsym_section_header in
    Ok (Some table).

(** The entries up to [DT_NULL], by their tag; reserved tags are skipped. *)
Fixpoint expand_dynamic (table : list Z) (entries : list Elf64Dyn) : list Z :=
  match entries with
  | [] => table
  | dyn_info :: entries' =>
      if d_tag dyn_info =? DT_NULL then table
      else if DT_NUM <=? d_tag dyn_info then expand_dynamic table entries'
      else expand_dynamic (<[Z.to_nat (d_tag dyn_info) := d_val dyn_info]> table) entries'
  end.

Definition set_dynamic (self : Elf64) (dyn : list Z) (rel : option (list Elf64Rel))
    (sym : option (list Elf64Sym)) : Elf64 :=
  mkElf64 (parser_bytes self) (file_header self) (program_header_table self) (section_header_table self)
    (section_names_section_header self) (symbol_section_header self) (symbol_names_section_header self)
    dyn rel sym (dynamic_symbol_names_section_header self).

(** The dynamic table, from [PT_DYNAMIC], or from [SHT_DYNAMIC] when that is
    absent or invalid. *)
Definition find_dynamic (self : Elf64) : Result (option (list Elf64Dyn)) ElfParserError :=
  let dynamic_table :=
    match List.find (fun h => p_type h =? PT_DYNAMIC) (program_header_table self) with
    | Some h =>
        match slice_from_program_header (parser_bytes self) h with Ok table => Some table | Err _ => None end
    | None => None
    end in
  match dynamic_table with
  | Some table => Ok (Some table)
  | None =>
      match List.find (fun h => sh_type h =? SHT_DYNAMIC) (section_header_table self) with
      | Some h =>
          let? table := map_err (fun _ => EpInvalidDynamicSectionTable)
                          (slice_from_section_header (parser_bytes self) h) in
          Ok (Some table)
      | None => Ok None
      end
  end.

Definition parse_dynamic (self : Elf64) : Result Elf64 ElfParserError :=
  let? found := find_dynamic self in
  match found with
  | None => Ok self
  | Some entries =>
      let self := set_dynamic self (expand_dynamic (dynamic_table self) entries)
                    (dynamic_relocations_table self) (dynamic_symbol_table self) in
      let? rel := parse_dynamic_relocations self in
      let self := set_dynamic self (dynamic_table self) rel (dynamic_symbol_table self) in
      let? sym := parse_dynamic_symbol_table self in
      Ok (set_dynamic self (dynamic_table self) (dynamic_relocations_table self) sym)
  end.

Definition parse (bs : Bytes) : Result Elf64 ElfParserError :=
  let? (file_header_range, file_header) := parse_file_header bs in
  if file_header_invalid file_header then Err EpInvalidFileHeader
  else
    let? (program_header_table_range, program_header_table) :=
      parse_program_header_table bs file_header_range file_header in
    let? (section_header_table_range, section_header_table) :=
      parse_section_header_table bs file_header_range file_header program_header_table_range in
    let? _ :=
      match section_header_table with
      | h :: _ => if sh_type h =? SHT_NULL then Ok tt else Err EpInvalidSectionHeader
      | [] => Err EpInvalidSectionHeader
      end in
    let? _ := check_program_headers (len (b_data bs)) 0 program_header_table in
    let? _ := check_section_headers (len (b_data bs)) file_header_range program_header_table_range
                section_header_table_range 0 section_header_table in
    let? section_names_section_header :=
      if negb (e_shstrndx file_header =? SHN_UNDEF) then
        let? h := ok_or (section_header_table !! Z.to_nat (e_shstrndx file_header)) EpOutOfBounds in
        Ok (Some h)
      else Ok None in
    let parser :=
      mkElf64 bs file_header program_header_table section_header_table section_names_section_header
        None None (replicate (Z.to_nat DT_NUM) 0) None None None in
    let? parser := parse_sections parser in
    parse_dynamic parser.

(** ** Queries *)

Definition section_name (self : Elf64) (sh_name : Z) : Result (list Z) ElfParserError :=
  let? h := ok_or (section_names_section_header self) EpNoSectionNameStringTable in
  get_string_in_section (b_data (parser_bytes self)) h sh_name SECTION_NAME_LENGTH_MAXIMUM.

Definition symbol_name (self : Elf64) (st_name : Z) : Result (list Z) ElfParserError :=
  let? h := ok_or (symbol_names_section_header self) EpNoStringTable in
  get_string_in_section (b_data (parser_bytes self)) h st_name SYMBOL_NAME_LENGTH_MAXIMUM.

Definition dynamic_symbol_name (self : Elf64) (st_name : Z) : Result (list Z) ElfParserError :=
  let? h := ok_or (dynamic_symbol_names_section_header self) EpNoDynamicStringTable in
  get_string_in_section (b_data (parser_bytes self)) h st_name SYMBOL_NAME_LENGTH_MAXIMUM.

Definition symbol_table (self : Elf64) : Result (option (list Elf64Sym)) ElfParserError :=
  match symbol_section_header self with
  | Some h => let? table := get_symbol_table_of_section self h in Ok (Some table)
  | None => Ok None
  end.
