(* ===== verification/Elf.v ===== *)
(** The ELF loader, sbpf/src/elf.rs: [Executable::load] with its strict and its
    lenient parser, relocation, and the read-only section; the registration of
    functions it uses (sbpf/src/program.rs), [AlignedMemory::from_slice]
    (sbpf/src/aligned_memory.rs), and the load-then-verify of
    [ProgramCacheEntry::new] and [reload] (agave
    program-runtime/src/loaded_programs.rs).

    The hash of a symbol name is murmur3 of the crate [hash32], a parameter; so
    is the address that the allocator returns. The build is one without the JIT
    compiler. *)

From Stdlib Require Import ZArith Lia Bool.
From stdpp Require Import strings pretty gmap.
From S2P Require Import Prelude.
From S2P Require Import SbpfTypes.
From S2P Require Import Ebpf.
From S2P Require Import Verifier.
From S2P Require Import Vm.
From S2P Require Import ElfParser.

#[local] Open Scope Z_scope.

(** A computation that may panic, and otherwise returns or fails. *)
#[local] Notation "'load?' x := m 'in' k" :=
  (match m with Some (Ok x) => k | Some (Err err) => Some (Err err) | None => None end)
  (at level 10, x pattern, m at level 100, k at level 200).

(** [From<ElfParserError> for ElfError]. *)
Definition elf_error (e : ElfParserError) : ElfError :=
  match e with
  | EpInvalidProgramHeader => InvalidProgramHeader
  | EpOutOfBounds => ValueOutOfBounds
  | _ => FailedToParse (parser_error_text e)
  end.

(** [?] on a parser's result. *)
Definition parsed {T} (r : Result T ElfParserError) : option (Result T ElfError) := Some (map_err elf_error r).

Fixpoint get_section_from (elf : Elf64) (name : list Z) (table : list Elf64Shdr) : Result Elf64Shdr ElfError :=
  match table with
  | [] =>
      Err (SectionNotFound (match from_utf8 name with Some s => s | None => "UTF-8 error" end))
  | h :: table' =>
      let? this_name := map_err elf_error (section_name elf (sh_name h)) in
      if bool_decide (this_name = name) then Ok h else get_section_from elf name table'
  end.

Definition get_section (elf : Elf64) (name : list Z) : Result Elf64Shdr ElfError :=
  get_section_from elf name (section_header_table elf).

Definition BYTE_OFFSET_IMMEDIATE : Z := 4.
Definition BYTE_LENGTH_IMMEDIATE : Z := 4.

Inductive BpfRelocationType := R_Bpf_None | R_Bpf_64_64 | R_Bpf_64_Relative | R_Bpf_64_32.

Definition from_x86_relocation_type (from : Z) : option BpfRelocationType :=
  if from =? R_X86_64_NONE then Some R_Bpf_None
  else if from =? R_X86_64_64 then Some R_Bpf_64_64
  else if from =? R_X86_64_RELATIVE then Some R_Bpf_64_Relative
  else if from =? R_X86_64_32 then Some R_Bpf_64_32
  else None.

(** ** Byte buffers *)

(** The bytes from [start] on replaced by [new]. *)
Definition set_range {A} (l : list A) (start : Z) (new : list A) : list A :=
  take (Z.to_nat start) l ++ new ++ drop (Z.to_nat (start + len new)) l.

(** [LittleEndian::read_*] of the [n] bytes at an offset, which a checked slice
    gives. *)
Definition read_at (n : nat) (l : list Z) (offset : Z) : option (Result Z ElfError) :=
  match get_slice l (mkRange offset (saturating_add offset (Z.of_nat n))) with
  | Some checked_slice => let! x := read_le n checked_slice 0 in Some (Ok x)
  | None => Some (Err ValueOutOfBounds)
  end.

(** [LittleEndian::write_*] to the [n] bytes at an offset. *)
Definition write_at (n : nat) (l : list Z) (offset x : Z) : option (Result (list Z) ElfError) :=
  match get_slice l (mkRange offset (saturating_add offset (Z.of_nat n))) with
  | Some checked_slice =>
      if len checked_slice <? Z.of_nat n then None else Some (Ok (set_range l offset (le_split n x)))
  | None => Some (Err ValueOutOfBounds)
  end.

(** [buf[start..start.saturating_add(len)].copy_from_slice(slice)]. *)
Definition copy_from_slice (buf : list Z) (start : Z) (from : list Z) : option (list Z) :=
  let! target := get_slice buf (mkRange start (saturating_add start (len from))) in
  if (length target =? length from)%nat then Some (set_range buf start from) else None.

(** The address of the memory [AlignedMemory::from_slice] returns for data that
    the allocator places at [alloc]. *)
Definition memory_from_slice (alloc : Z) (data : list Z) : Bytes :=
  mkBytes (if is_nil data then HOST_ALIGN else alloc) data.

Definition memory_aligned (ptr align : Z) : bool := if align =? 0 then false else ptr mod align =? 0.

(** ** Validation *)

(** [name.starts_with(prefix)]. *)
Fixpoint starts_with (name prefix : list Z) : bool :=
  match prefix, name with
  | [], _ => true
  | x :: prefix', y :: name' => (x =? y) && starts_with name' prefix'
  | _ :: _, [] => false
  end.

Definition num_text_sections (elf : Elf64) : Z :=
  foldl (fun count h =>
           match section_name elf (sh_name h) with
           | Ok this_name =>
               if bool_decide (this_name = bstr ".text") then saturating_add count 1 else count
           | Err _ => count
           end) 0 (section_header_table elf).

Fixpoint check_writable (elf : Elf64) (table : list Elf64Shdr) : Result unit ElfError :=
  match table with
  | [] => Ok tt
  | h :: table' =>
      match section_name elf (sh_name h) with
      | Ok name =>
          if starts_with name (bstr ".bss")
             || (s_is_writable h
                 && (starts_with name (bstr ".data") && negb (starts_with name (bstr ".data.rel"))))
          then Err (WritableSectionNotSupported (from_utf8_lossy name))
          else check_writable elf table'
      | Err _ => check_writable elf table'
      end
  end.

Fixpoint check_sections_in_bounds (elf_bytes : list Z) (table : list Elf64Shdr) : Result unit ElfError :=
  match table with
  | [] => Ok tt
  | h :: table' =>
      let? stop := ok_or (checked_add (sh_offset h) (sh_size h)) ValueOutOfBounds in
      let? _ := ok_or (get_slice elf_bytes (mkRange (sh_offset h) stop)) ValueOutOfBounds in
      check_sections_in_bounds elf_bytes table'
  end.

Definition validate (elf : Elf64) (elf_bytes : list Z) : Result unit ElfError :=
  let header := file_header elf in
  if negb (ei_class (e_ident header) =? ELFCLASS64) then Err WrongClass
  else if negb (ei_data (e_ident header) =? ELFDATA2LSB) then Err WrongEndianess
  else if negb (ei_osabi (e_ident header) =? ELFOSABI_NONE) then Err WrongAbi
  else if negb (e_machine header =? EM_BPF) && negb (e_machine header =? EM_SBPF) then Err WrongMachine
  else if negb (e_type header =? ET_DYN) then Err WrongType
  else if negb (1 =? num_text_sections elf) then Err NotOneTextSection
  else
    let? _ := check_writable elf (section_header_table elf) in
    let? _ := check_sections_in_bounds elf_bytes (section_header_table elf) in
    let? text_section := get_section elf (bstr ".text") in
    if negb (range_contains (s_vm_range text_section) (e_entry header)) then Err EntrypointOutOfBounds
    else Ok tt.

(** ** Read-only sections *)

(** What the loop over the sections collects. *)
Record RoScan := mkRoScan {
  lowest_addr : Z;
  highest_addr : Z;
  ro_fill_length : Z;
  invalid_offsets : bool;
  first_ro_section : Z;
  last_ro_section : Z;
  n_ro_sections : Z;
  ro_slices : list (Z * list Z)
}.

Definition ro_names : list (list Z) := [bstr ".text"; bstr ".rodata"; bstr ".data.rel.ro"; bstr ".eh_frame"].

Definition is_ro_name (name : option (list Z)) : bool :=
  match name with Some name => bool_decide (name ∈ ro_names) | None => false end.

Definition RoScan_start : RoScan := mkRoScan u64_MAX 0 0 false 0 0 0 [].

(** One section, the [i]-th. *)
Definition scan_section (config : Config) (elf_bytes : list Z) (i : Z) (section_header : Elf64Shdr) (s : RoScan)
    : Result RoScan ElfError :=
  let first := if n_ro_sections s =? 0 then i else first_ro_section s in
  let section_addr := sh_addr section_header in
  let invalid :=
    if negb (invalid_offsets s) && negb (section_addr =? sh_offset section_header)
    then true else invalid_offsets s in
  let vaddr_end := saturating_add section_addr MM_REGION_SIZE in
  if (reject_broken_elfs config && invalid) || (MM_STACK_START <? vaddr_end) then Err ValueOutOfBounds
  else
    let? section_data :=
      ok_or (get_slice elf_bytes (or_default_range (s_file_range section_header))) ValueOutOfBounds in
    Ok (mkRoScan (Z.min (lowest_addr s) section_addr)
          (Z.max (highest_addr s) (saturating_add section_addr (len section_data)))
          (saturating_add (ro_fill_length s) (len section_data))
          invalid first i (saturating_add (n_ro_sections s) 1)
          (ro_slices s ++ [(section_addr, section_data)])).

Fixpoint scan_sections (config : Config) (elf_bytes : list Z) (i : Z)
    (sections : list (option (list Z) * Elf64Shdr)) (s : RoScan) : Result RoScan ElfError :=
  match sections with
  | [] => Ok s
  | (name, h) :: sections' =>
      if is_ro_name name then
        let? s := scan_section config elf_bytes i h s in
        scan_sections config elf_bytes (i + 1) sections' s
      else scan_sections config elf_bytes (i + 1) sections' s
  end.

Definition can_borrow (s : RoScan) : bool :=
  negb (invalid_offsets s)
  && (saturating_sub (saturating_add (last_ro_section s) 1) (first_ro_section s) =? n_ro_sections s).

(** The sections copied to their offsets from [lowest]. *)
Fixpoint copy_slices (buf : list Z) (lowest : Z) (slices : list (Z * list Z)) : option (list Z) :=
  match slices with
  | [] => Some buf
  | (section_addr, bs) :: slices' =>
      let! buf := copy_from_slice buf (saturating_sub section_addr lowest) bs in
      copy_slices buf lowest slices'
  end.

(** The sections with their names, where they have one. *)
Definition named_sections (elf : Elf64) : list (option (list Z) * Elf64Shdr) :=
  map (fun h => (match section_name elf (sh_name h) with Ok name => Some name | Err _ => None end, h))
    (section_header_table elf).

(** The guest address of the lowest section. *)
Definition addr_offset (lowest : Z) : Z :=
  if MM_REGION_SIZE <=? lowest then lowest else saturating_add lowest MM_REGION_SIZE.

Definition parse_ro_sections (config : Config) (sections : list (option (list Z) * Elf64Shdr))
    (elf_bytes : list Z) : option (Result Section_ ElfError) :=
  load? s := Some (scan_sections config elf_bytes 0 sections RoScan_start) in
  if reject_broken_elfs config && (highest_addr s <? saturating_add (lowest_addr s) (ro_fill_length s))
  then Some (Err ValueOutOfBounds)
  else if optimize_rodata config && can_borrow s
  then Some (Ok (Borrowed (addr_offset (lowest_addr s)) (mkRange (lowest_addr s) (highest_addr s))))
  else
    let buf_len := if optimize_rodata config then saturating_sub (highest_addr s) (lowest_addr s)
                   else highest_addr s in
    let lowest := if optimize_rodata config then lowest_addr s else 0 in
    if len elf_bytes <? buf_len then Some (Err ValueOutOfBounds)
    else
      let! ro_section := copy_slices (replicate (Z.to_nat buf_len) 0) lowest (ro_slices s) in
      Some (Ok (Owned (addr_offset lowest) ro_section)).

(** ** Functions *)

Section loader.
Context {C : Type} (hash_symbol_name : list Z -> Z).

(** The [usize] values are program counters; returns the registry and the key. *)
Definition register_function_hashed_legacy (reg : FunctionRegistry Z) (loader : BuiltinProgram C) (hash_name : bool) (name : list Z)
    (value : Z) : option (Result (FunctionRegistry Z * Z) ElfError) :=
  let! config := bp_config loader in
  let hash :=
    if bool_decide (name = bstr "entrypoint") then hash_symbol_name (bstr "entrypoint")
    else hash_symbol_name (le_split 8 value) in
  load? key :=
    Some (if hash_name then
            match lookup_by_key (sparse_registry loader) hash with
            | Some _ => Err (SymbolHashCollision hash)
            | None => Ok hash
            end
          else Ok (as_u32 value)) in
  let stored :=
    if enable_symbol_and_section_labels config || bool_decide (name = bstr "entrypoint") then name else [] in
  load? reg := Some (register_function reg key stored value) in
  Some (Ok (reg, key)).

(** ** Relocation *)

(** One instruction of the first loop of [relocate]: a call relative to the
    program counter becomes a call of a registered function. *)
Definition relocate_call (config : Config) (loader : BuiltinProgram C) (instruction_count : Z)
    (reg : FunctionRegistry Z) (text_bytes : list Z) (i : Z) : option (Result (FunctionRegistry Z * list Z) ElfError) :=
  let! insn := get_insn text_bytes i in
  if (opc insn =? CALL_IMM) && negb (imm insn =? -1) then
    let target_pc := saturating_add_i64 (saturating_add_i64 (as_i64 i) 1) (imm insn) in
    if (target_pc <? 0) || (as_i64 instruction_count <=? target_pc)
    then Some (Err (RelativeJumpOutOfBounds i))
    else
      let name :=
        if enable_symbol_and_section_labels config
        then bstr ("function_" +:+ pretty target_pc) else [] in
      load? (reg, key) := register_function_hashed_legacy reg loader true name (as_usize target_pc) in
      let offset := saturating_add (saturating_mul i INSN_SIZE) 4 in
      load? text_bytes := write_at 4 text_bytes offset key in
      Some (Ok (reg, text_bytes))
  else Some (Ok (reg, text_bytes)).

(** The instructions from [i] on, [n] of them. *)
Fixpoint relocate_calls (config : Config) (loader : BuiltinProgram C) (instruction_count : Z)
    (n : nat) (i : Z) (reg : FunctionRegistry Z) (text_bytes : list Z) : option (Result (FunctionRegistry Z * list Z) ElfError) :=
  match n with
  | O => Some (Ok (reg, text_bytes))
  | S n' =>
      load? (reg, text_bytes) := relocate_call config loader instruction_count reg text_bytes i in
      relocate_calls config loader instruction_count n' (i + 1) reg text_bytes
  end.

(** The symbol that a relocation refers to. *)
Definition relocation_symbol (elf : Elf64) (relocation : Elf64Rel) : Result Elf64Sym ElfError :=
  ok_or (let! table := dynamic_symbol_table elf in table !! Z.to_nat (r_sym relocation))
    (UnknownSymbol (r_sym relocation)).

(** The two halves of an address, to the immediates of the two slots of an
    [lddw]. *)
Definition write_lddw (elf_bytes : list Z) (imm_low_offset imm_high_offset addr : Z)
    : option (Result (list Z) ElfError) :=
  load? elf_bytes := write_at 4 elf_bytes imm_low_offset (as_u32 (Z.land addr 0xFFFFFFFF)) in
  write_at 4 elf_bytes imm_high_offset (as_u32 (checked_shr_or_0 addr 32)).

(** The arm of [R_Bpf_64_64]. *)
Definition relocate_64_64 (elf : Elf64) (relocation : Elf64Rel) (elf_bytes : list Z)
    : option (Result (list Z) ElfError) :=
  let imm_offset := saturating_add (r_offset relocation) BYTE_OFFSET_IMMEDIATE in
  load? refd_addr := read_at 4 elf_bytes imm_offset in
  load? symbol := Some (relocation_symbol elf relocation) in
  let addr := saturating_add (st_value symbol) refd_addr in
  let addr := if addr <? MM_REGION_SIZE then saturating_add MM_REGION_SIZE addr else addr in
  write_lddw elf_bytes imm_offset (saturating_add imm_offset INSN_SIZE) addr.

(** The arm of [R_Bpf_64_Relative]. *)
Definition relocate_relative (text_section : Elf64Shdr) (relocation : Elf64Rel) (elf_bytes : list Z)
    : option (Result (list Z) ElfError) :=
  let offset := r_offset relocation in
  let imm_offset := saturating_add offset BYTE_OFFSET_IMMEDIATE in
  if range_contains (or_default_range (s_file_range text_section)) offset then
    let imm_low_offset := imm_offset in
    let imm_high_offset := saturating_add (saturating_add offset INSN_SIZE) BYTE_OFFSET_IMMEDIATE in
    load? va_low := read_at 4 elf_bytes imm_low_offset in
    load? va_high := read_at 4 elf_bytes imm_high_offset in
    let refd_addr := checked_shl_or_0 va_high 32 .| va_low in
    if refd_addr =? 0 then Some (Err (InvalidVirtualAddress refd_addr))
    else
      let refd_addr :=
        if refd_addr <? MM_REGION_SIZE then saturating_add MM_REGION_SIZE refd_addr else refd_addr in
      write_lddw elf_bytes imm_low_offset imm_high_offset refd_addr
  else
    load? refd_addr := read_at 4 elf_bytes imm_offset in
    let refd_addr := saturating_add MM_REGION_SIZE refd_addr in
    write_at 8 elf_bytes offset refd_addr.

(** The state of the second loop: the functions, the bytes and the hashes of
    the names seen, by name offset. *)
Record Relocating := mkRelocating {
  rl_registry : FunctionRegistry Z;
  rl_bytes : list Z;
  syscall_cache : gmap Z Z
}.

(** The key of a call to a symbol: of a function of the program, which is
    registered, or the hash of the name of a syscall. *)
Definition relocation_key (config : Config) (loader : BuiltinProgram C) (text_section : Elf64Shdr)
    (relocation : Elf64Rel) (symbol : Elf64Sym) (name : list Z) (s : Relocating)
    : option (Result (FunctionRegistry Z * gmap Z Z * Z) ElfError) :=
  if is_function symbol && negb (st_value symbol =? 0) then
    if negb (range_contains (s_vm_range text_section) (st_value symbol)) then Some (Err ValueOutOfBounds)
    else
      let target_pc := saturating_sub (st_value symbol) (sh_addr text_section) / INSN_SIZE in
      load? (reg, key) := register_function_hashed_legacy (rl_registry s) loader true name target_pc in
      Some (Ok (reg, syscall_cache s, key))
  else
    let hash := match syscall_cache s !! st_name symbol with Some h => h | None => hash_symbol_name name end in
    let cache := <[st_name symbol := hash]> (syscall_cache s) in
    if reject_broken_elfs config
       && match lookup_by_key (sparse_registry loader) hash with Some _ => false | None => true end
    then Some (Err (UnresolvedSymbol (from_utf8_lossy name) (r_offset relocation / INSN_SIZE)
                      (r_offset relocation)))
    else Some (Ok (rl_registry s, cache, hash)).

(** The arm of [R_Bpf_64_32]. *)
Definition relocate_64_32 (config : Config) (loader : BuiltinProgram C) (elf : Elf64) (text_section : Elf64Shdr)
    (relocation : Elf64Rel) (s : Relocating) : option (Result Relocating ElfError) :=
  let imm_offset := saturating_add (r_offset relocation) BYTE_OFFSET_IMMEDIATE in
  load? symbol := Some (relocation_symbol elf relocation) in
  load? name := Some (map_err (fun _ => UnknownSymbol (st_name symbol))
                        (dynamic_symbol_name elf (st_name symbol))) in
  load? (reg, cache, key) := relocation_key config loader text_section relocation symbol name s in
  load? bs := write_at 4 (rl_bytes s) imm_offset key in
  Some (Ok (mkRelocating reg bs cache)).

Definition apply_relocation (config : Config) (loader : BuiltinProgram C) (elf : Elf64) (text_section : Elf64Shdr)
    (relocation : Elf64Rel) (s : Relocating) : option (Result Relocating ElfError) :=
  match from_x86_relocation_type (r_type relocation) with
  | Some R_Bpf_64_64 =>
      load? bs := relocate_64_64 elf relocation (rl_bytes s) in
      Some (Ok (mkRelocating (rl_registry s) bs (syscall_cache s)))
  | Some R_Bpf_64_Relative =>
      load? bs := relocate_relative text_section relocation (rl_bytes s) in
      Some (Ok (mkRelocating (rl_registry s) bs (syscall_cache s)))
  | Some R_Bpf_64_32 => relocate_64_32 config loader elf text_section relocation s
  | _ => Some (Err (UnknownRelocation (r_type relocation)))
  end.

Fixpoint apply_relocations (config : Config) (loader : BuiltinProgram C) (elf : Elf64) (text_section : Elf64Shdr)
    (relocations : list Elf64Rel) (s : Relocating) : option (Result Relocating ElfError) :=
  match relocations with
  | [] => Some (Ok s)
  | relocation :: relocations' =>
      load? s := apply_relocation config loader elf text_section relocation s in
      apply_relocations config loader elf text_section relocations' s
  end.

(** The last loop of [relocate]: the functions of the symbol table. *)
Fixpoint register_symbols (loader : BuiltinProgram C) (elf : Elf64) (text_section : Elf64Shdr)
    (symbols : list Elf64Sym) (reg : FunctionRegistry Z) : option (Result (FunctionRegistry Z) ElfError) :=
  match symbols with
  | [] => Some (Ok reg)
  | symbol :: symbols' =>
      if negb (Z.land (st_info symbol) 0xEF =? 0x02) then register_symbols loader elf text_section symbols' reg
      else if negb (range_contains (s_vm_range text_section) (st_value symbol)) then Some (Err ValueOutOfBounds)
      else
        let target_pc := saturating_sub (st_value symbol) (sh_addr text_section) / INSN_SIZE in
        load? name := Some (map_err (fun _ => UnknownSymbol (st_name symbol)) (symbol_name elf (st_name symbol))) in
        load? (reg, _) := register_function_hashed_legacy reg loader true name target_pc in
        register_symbols loader elf text_section symbols' reg
  end.

Definition relocate (reg : FunctionRegistry Z) (loader : BuiltinProgram C) (elf : Elf64) (elf_bytes : list Z)
    : option (Result (FunctionRegistry Z * list Z) ElfError) :=
  load? text_section := Some (get_section elf (bstr ".text")) in
  let! config := bp_config loader in
  let text_range := or_default_range (s_file_range text_section) in
  load? text_bytes := Some (ok_or (get_slice elf_bytes text_range) ValueOutOfBounds) in
  let instruction_count := len text_bytes / INSN_SIZE in
  load? (reg, text_bytes) :=
    relocate_calls config loader instruction_count (Z.to_nat instruction_count) 0 reg text_bytes in
  let elf_bytes := set_range elf_bytes (r_start text_range) text_bytes in
  let relocations := match dynamic_relocations_table elf with Some table => table | None => [] end in
  load? s := apply_relocations config loader elf text_section relocations (mkRelocating reg elf_bytes ∅) in
  load? reg :=
    if enable_symbol_and_section_labels config then
      register_symbols loader elf text_section
        (match symbol_table elf with Ok (Some table) => table | _ => [] end) (rl_registry s)
    else Some (Ok (rl_registry s)) in
  Some (Ok (reg, rl_bytes s)).

(** ** Loading *)

(** Create from raw text section bytes. *)
Definition new_from_text_bytes (text_bytes : list Z) (loader : BuiltinProgram C) (v : SBPFVersion) (reg : FunctionRegistry Z)
    : option (Result (Executable C) ElfError) :=
  load? (reg, entry_pc) :=
    match lookup_by_name reg (bstr "entrypoint") with
    | Some (_, pc) => Some (Ok (reg, pc))
    | None =>
        load? (reg, _) :=
          register_function_hashed_legacy reg loader (negb (static_syscalls v)) (bstr "entrypoint") 0 in
        Some (Ok (reg, 0))
    end in
  Some (Ok (mkExecutable text_bytes v
    (Borrowed (if enable_lower_rodata_vaddr v then MM_RODATA_START else MM_BYTECODE_START)
       (mkRange 0 (len text_bytes)))
    MM_BYTECODE_START (mkRange 0 (len text_bytes)) entry_pc reg loader)).

(** The identification that the strict parser asks for. *)
Definition strict_header_invalid (h : Elf64Ehdr) (program_header_table_end elf_len : Z) : bool :=
  bool_decide (ei_mag (e_ident h) <> ELFMAG)
  || negb (ei_class (e_ident h) =? ELFCLASS64)
  || negb (ei_data (e_ident h) =? ELFDATA2LSB)
  || negb (ei_version (e_ident h) =? as_u8 EV_CURRENT)
  || negb (ei_osabi (e_ident h) =? ELFOSABI_NONE)
  || negb (ei_abiversion (e_ident h) =? 0x00)
  || bool_decide (ei_pad (e_ident h) <> replicate 7 0)
  || negb (e_machine h =? EM_BPF)
  || negb (e_version h =? EV_CURRENT)
  || negb (e_phoff h =? size_of Elf64Ehdr)
  || negb (e_ehsize h =? as_u16 (size_of Elf64Ehdr))
  || negb (e_phentsize h =? as_u16 (size_of Elf64Phdr))
  || (e_phnum h =? 0)
  || (elf_len <? program_header_table_end).

Definition EXPECTED_PROGRAM_HEADERS : list (Z * Z) := [(PF_R, MM_RODATA_START); (PF_X, MM_BYTECODE_START)].

(** The condition of the loop over the expected program headers. *)
Definition strict_segment_invalid (elf_len : Z) (h : Elf64Phdr) (flags vaddr expected_offset : Z) : bool :=
  negb (p_type h =? PT_LOAD)
  || negb (p_flags h =? flags)
  || negb (p_offset h =? expected_offset)
  || (elf_len <=? p_offset h)
  || negb (p_offset h mod INSN_SIZE =? 0)
  || negb (p_vaddr h =? vaddr)
  || negb (p_paddr h =? vaddr)
  || negb (p_filesz h =? p_memsz h)
  || (saturating_sub elf_len (p_offset h) <? p_filesz h)
  || negb (p_filesz h mod INSN_SIZE =? 0)
  || (MM_REGION_SIZE <=? p_memsz h).

Fixpoint check_strict_segments (elf_len : Z) (table : list Elf64Phdr) (expected : list (Z * Z))
    (expected_offset : Z) : Result unit ElfParserError :=
  match table, expected with
  | h :: table', (flags, vaddr) :: expected' =>
      if strict_segment_invalid elf_len h flags vaddr expected_offset then Err EpInvalidProgramHeader
      else check_strict_segments elf_len table' expected' (saturating_add expected_offset (p_filesz h))
  | _, _ => Ok tt
  end.

(** The two sections the labels are read from, the last of each name. *)
Fixpoint find_label_sections (elf_bytes : list Z) (names : Elf64Shdr) (table : list Elf64Shdr)
    (found : option Elf64Shdr * option Elf64Shdr) : option (option Elf64Shdr * option Elf64Shdr) :=
  match table with
  | [] => Some found
  | h :: table' =>
      match get_string_in_section elf_bytes names (sh_name h) 64 with
      | Ok name =>
          let found := if bool_decide (name = bstr ".strtab") then (Some h, found.2) else found in
          let found := if bool_decide (name = bstr ".symtab") then (found.1, Some h) else found in
          find_label_sections elf_bytes names table' found
      | Err _ => None
      end
  end.

Fixpoint register_labels (elf_bytes : list Z) (p_vaddr : Z) (names : Elf64Shdr) (symbols : list Elf64Sym) (reg : FunctionRegistry Z)
    : option (FunctionRegistry Z) :=
  match symbols with
  | [] => Some reg
  | symbol :: symbols' =>
      if Z.land (st_info symbol) STT_FUNC =? 0 then register_labels elf_bytes p_vaddr names symbols' reg
      else
        let target_pc := saturating_sub (st_value symbol) p_vaddr / INSN_SIZE in
        match get_string_in_section elf_bytes names (st_name symbol) 255 with
        | Ok name =>
            match register_function reg (as_u32 target_pc) name target_pc with
            | Ok reg => register_labels elf_bytes p_vaddr names symbols' reg
            | Err _ => None
            end
        | Err _ => None
        end
  end.

(** The labels of a program loaded strictly; every [unwrap] is a panic. *)
Definition strict_labels (bs : Bytes) (file_header_range program_header_table_range : Range)
    (header : Elf64Ehdr) (p_vaddr : Z) : option (Result (FunctionRegistry Z) ElfParserError) :=
  match parse_section_header_table bs file_header_range header program_header_table_range with
  | Err _ => None
  | Ok (_, section_header_table) =>
      if e_shstrndx header =? SHN_UNDEF then None
      else
        load? names := Some (ok_or (section_header_table !! Z.to_nat (e_shstrndx header)) EpOutOfBounds) in
        let! found := find_label_sections (b_data bs) names section_header_table (None, None) in
        let! symbol_names := found.1 in
        let! symbol_section := found.2 in
        match slice_from_section_header bs symbol_section with
        | Err _ => None
        | Ok symbols =>
            let! reg := register_labels (b_data bs) p_vaddr symbol_names symbols registry_default in
            Some (Ok reg)
        end
  end.

(** Whether the entry point is outside the byte code, or unaligned. *)
Definition strict_entry_invalid (header : Elf64Ehdr) (bytecode_header : Elf64Phdr) : bool :=
  negb (range_contains (p_vm_range bytecode_header)
          (saturating_sub (saturating_add (e_entry header) INSN_SIZE) 1))
  || negb (e_entry header mod INSN_SIZE =? 0).

Definition load_with_strict_parser (alloc : Z) (bytes : list Z) (loader : BuiltinProgram C)
    : option (Result (Executable C) ElfParserError) :=
  let bs := memory_from_slice alloc bytes in
  load? (file_header_range, header) := Some (parse_file_header bs) in
  let program_header_table_range :=
    mkRange (size_of Elf64Ehdr)
      (saturating_add (saturating_mul (size_of Elf64Phdr) (e_phnum header)) (size_of Elf64Ehdr)) in
  if strict_header_invalid header (r_end program_header_table_range) (len bytes)
  then Some (Err EpInvalidFileHeader)
  else
    load? program_header_table := Some (slice_from_bytes (T := Elf64Phdr) bs program_header_table_range) in
    let! h0 := program_header_table !! 0%nat in
    let skip_rodata_program_header := negb (p_flags h0 =? PF_R) in
    if negb skip_rodata_program_header && (e_phnum header <? 2) then Some (Err EpInvalidFileHeader)
    else
      let expected := if skip_rodata_program_header then drop 1 EXPECTED_PROGRAM_HEADERS
                      else EXPECTED_PROGRAM_HEADERS in
      load? _ := Some (check_strict_segments (len bytes) program_header_table expected
                         (r_end program_header_table_range)) in
      let! (ro_section_range, bytecode_header) :=
        if skip_rodata_program_header then
          Some (mkRange (r_end program_header_table_range) (r_end program_header_table_range), h0)
        else
          let! h1 := program_header_table !! 1%nat in
          Some (or_default_range (p_file_range h0), h1) in
      if strict_entry_invalid header bytecode_header then Some (Err EpInvalidFileHeader)
      else
        let entry_pc := saturating_sub (e_entry header) (p_vaddr bytecode_header) / INSN_SIZE in
        let! config := bp_config loader in
        load? reg :=
          if enable_symbol_and_section_labels config
          then strict_labels bs file_header_range program_header_table_range header (p_vaddr bytecode_header)
          else Some (Ok registry_default) in
        Some (Ok (mkExecutable bytes Reserved (Borrowed MM_RODATA_START ro_section_range)
          (p_vaddr bytecode_header) (or_default_range (p_file_range bytecode_header)) entry_pc reg loader)).

(** The bytes that the lenient parser reads: the argument, when it is aligned,
    and a copy otherwise. *)
Definition unrelocated (alloc ptr : Z) (bytes : list Z) : Bytes :=
  if memory_aligned ptr HOST_ALIGN then mkBytes ptr bytes else memory_from_slice alloc bytes.

Definition section_offset (s : Section_) : Z :=
  match s with Owned offset _ => offset | Borrowed offset _ => offset end.

Definition load_with_lenient_parser (alloc ptr : Z) (bytes : list Z) (loader : BuiltinProgram C)
    : option (Result (Executable C) ElfError) :=
  load? elf := parsed (parse (unrelocated alloc ptr bytes)) in
  let! config := bp_config loader in
  let header := file_header elf in
  load? _ := Some (validate elf bytes) in
  load? text_section := Some (get_section elf (bstr ".text")) in
  let text_section_vaddr := saturating_add (sh_addr text_section) MM_REGION_SIZE in
  if (reject_broken_elfs config && negb (sh_addr text_section =? sh_offset text_section))
     || (MM_STACK_START <? text_section_vaddr)
  then Some (Err ValueOutOfBounds)
  else
    load? (reg, elf_bytes) := relocate registry_default loader elf bytes in
    let offset := saturating_sub (e_entry header) (sh_addr text_section) in
    if negb (offset mod INSN_SIZE =? 0) then Some (Err InvalidEntrypoint)
    else
      let entry_pc := offset / INSN_SIZE in
      let reg := unregister_function reg (hash_symbol_name (bstr "entrypoint")) in
      load? (reg, _) := register_function_hashed_legacy reg loader true (bstr "entrypoint") entry_pc in
      load? ro_section :=
        parse_ro_sections config (named_sections elf) elf_bytes in
      let ro_section_vaddr := section_offset ro_section in
      load? _ :=
        if optimize_rodata config then
          if negb (checked_shr_or_0 ro_section_vaddr VIRTUAL_ADDRESS_BITS =? 1)
          then Some (Err ValueOutOfBounds) else Some (Ok tt)
        else if ro_section_vaddr =? MM_REGION_SIZE then Some (Ok tt) else None in
      Some (Ok (mkExecutable elf_bytes Reserved ro_section text_section_vaddr
        (or_default_range (s_file_range text_section)) entry_pc reg loader)).

Definition E_FLAGS_OFFSET : Z := 48.

Definition version_of_flags (e_flags : Z) : SBPFVersion :=
  if e_flags =? 0 then V0 else if e_flags =? 1 then V1 else if e_flags =? 2 then V2
  else if e_flags =? 3 then V3 else if e_flags =? 4 then V4 else Reserved.

(** [RangeInclusive::contains]. *)
Definition version_enabled (config : Config) (v : SBPFVersion) : bool :=
  version_leb (enabled_sbpf_versions config).1 v && version_leb v (enabled_sbpf_versions config).2.

Definition set_sbpf_version (v : SBPFVersion) (ex : Executable C) : Executable C :=
  mkExecutable (elf_bytes ex) v (ro_section ex) (text_section_vaddr ex) (text_section_range ex)
    (entry_pc ex) (function_registry ex) (loader ex).

Definition load (alloc ptr : Z) (bytes : list Z) (loader : BuiltinProgram C)
    : option (Result (Executable C) ElfError) :=
  load? flag_bytes := Some (ok_or (get_slice bytes (mkRange E_FLAGS_OFFSET (saturating_add E_FLAGS_OFFSET 4)))
                              ValueOutOfBounds) in
  let! e_flags := read_le 4 flag_bytes 0 in
  let! config := bp_config loader in
  let v := version_of_flags e_flags in
  if negb (version_enabled config v) then Some (Err UnsupportedSBPFVersion)
  else
    load? executable :=
      if enable_stricter_elf_headers v
      then option_map (map_err elf_error) (load_with_strict_parser alloc bytes loader)
      else load_with_lenient_parser alloc ptr bytes loader in
    Some (Ok (set_sbpf_version v executable)).

(** [get_text_bytes], whose slice panics when the range is outside the bytes. *)
Definition get_text_bytes (ex : Executable C) : option (Z * list Z) :=
  let! text := get_slice (elf_bytes ex) (text_section_range ex) in
  Some (text_section_vaddr ex, text).

(** [verify::<RequisiteVerifier>]. *)
Definition executable_verify (ex : Executable C) : option (Result unit EbpfError) :=
  let! (_, text) := get_text_bytes ex in
  let! r := verify text (sbpf_version ex) in
  Some (map_err VerifierErrorE r).

(** [ProgramCacheEntry::new] and [reload]: the executable of the entry. *)
Definition new_internal (alloc ptr : Z) (bytes : list Z) (environment : BuiltinProgram C) (reloading : bool)
    : option (Result (Executable C) EbpfError) :=
  load? executable := option_map (map_err ElfErrorE) (load alloc ptr bytes environment) in
  load? _ := if negb reloading then executable_verify executable else Some (Ok tt) in
  Some (Ok executable).

End loader.
