(* ===== verification/ElfSafe.v ===== *)
(** Lemmas about the ELF loader. Nothing a file contains makes it panic, and
    what it accepts is an executable the interpreter can run: its text and its
    read-only bytes lie inside the file, its entry point and its functions
    inside the text ([loaded_ok]). The read-only sections are visible to the
    guest at their addresses, whether they are borrowed or copied, and the calls
    relative to the program counter resolve to their targets. The theorems are
    in ElfLoad. *)

From Stdlib Require Import ZArith Lia Bool.
From stdpp Require Import strings pretty gmap.
From S2P Require Import Prelude.
From S2P Require Import Runtime.
From S2P Require Import SbpfTypes.
From S2P Require Import Ebpf.
From S2P Require Import MemoryRegion.
From S2P Require Import Mapping.
From S2P Require Import Verifier.
From S2P Require Import Vm.
From S2P Require Import Interp.
From S2P Require Import InterpSafe.
From S2P Require Import Meter.
From S2P Require Import Exec.
From S2P Require Import ElfParser.
From S2P Require Import Elf.

#[local] Open Scope Z_scope.

(** A step that returned: take the equation apart. *)
Ltac returned :=
  repeat match goal with
  | H : context [match ?e with Ok _ => _ | Err _ => _ end] |- _ =>
      let E := fresh "E" in destruct e as [?|?] eqn:E; simplify_eq/=
  | H : context [match ?e with Some _ => _ | None => _ end] |- _ =>
      let E := fresh "E" in destruct e as [?|] eqn:E; simplify_eq/=
  | H : context [let '(_, _) := ?e in _] |- _ => destruct e; simplify_eq/=
  | H : (if ?b then _ else _) = _ |- _ => let E := fresh "E" in destruct b eqn:E; simplify_eq/=
  | H : match (if ?b then _ else _) with _ => _ end = _ |- _ =>
      let E := fresh "E" in destruct b eqn:E; simplify_eq/=
  end.

(** The branch of an error, in a statement that the result is not a panic and
    what a success satisfies. *)
Ltac failed := eexists; split; [done|]; intros; discriminate.

(** ** Buffers *)

Lemma get_slice_Some {A} (l : list A) r sub :
  get_slice l r = Some sub ->
  r_start r <= r_end r <= len l /\ sub = slice l (r_start r) (r_end r).
Proof. unfold get_slice. intros H. returned. bool_to_prop. split; [lia|done]. Qed.

(** The facts of a successful [get_slice]. *)
Ltac in_range H :=
  match goal with E : get_slice _ _ = Some _ |- _ => apply get_slice_Some in E as [H ->] end.

Lemma get_slice_len {A} (l : list A) r sub :
  0 <= r_start r -> get_slice l r = Some sub -> len sub = r_end r - r_start r.
Proof.
  intros H0 H. apply get_slice_Some in H as [Hr ->]. rewrite slice_length; lia.
Qed.

Lemma set_range_len {A} (l new : list A) start :
  0 <= start -> start + len new <= len l -> len (set_range l start new) = len l.
Proof.
  intros H0 H. unfold set_range, len in *. rewrite !length_app, length_take, length_drop. lia.
Qed.

Lemma set_range_lookup {A} (l new : list A) start i :
  0 <= start -> start + len new <= len l ->
  set_range l start new !! i =
    if decide (Z.to_nat start <= i < Z.to_nat start + length new)%nat then new !! (i - Z.to_nat start)%nat else l !! i.
Proof.
  intros H0 H. unfold set_range, len in *.
  destruct (decide (i < Z.to_nat start)%nat) as [Hi|Hi].
  { rewrite lookup_app_l; [|rewrite length_take; lia]. rewrite lookup_take_lt by done.
    rewrite decide_False; [done|lia]. }
  rewrite lookup_app_r; rewrite length_take_le by lia; [|lia].
  destruct (decide (i < Z.to_nat start + length new)%nat).
  - rewrite decide_True by lia. rewrite lookup_app_l by lia. done.
  - rewrite decide_False by lia. rewrite lookup_app_r by lia. rewrite lookup_drop. f_equal. lia.
Qed.

Lemma set_range_bytes l new start : bytes l -> bytes new -> bytes (set_range l start new).
Proof. intros. unfold set_range. rewrite !bytes_app. auto using bytes_take, bytes_drop. Qed.

(** A checked read either fails or gives the bytes there; it never panics. *)
Lemma read_at_total n l offset :
  rust_len l -> bytes l -> 0 <= offset ->
  (read_at n l offset = Some (Err ValueOutOfBounds)) \/
  exists x, read_at n l offset = Some (Ok x) /\ 0 <= x < 256 ^ Z.of_nat n.
Proof.
  intros Hl Hb H0. unfold read_at. destruct (get_slice l _) as [sub|] eqn:E; [right|by left].
  pose proof (get_slice_len _ (mkRange _ _) _ H0 E) as Hn. apply get_slice_Some in E as [Hr ->].
  unfold rust_len in Hl. cbn [r_start r_end] in *.
  assert (saturating_add offset (Z.of_nat n) = offset + Z.of_nat n) as Es by int_lia. rewrite Es in *.
  unfold read_le. cbn [Z.to_nat]. rewrite drop_0, take_ge by (unfold len in Hn; lia).
  rewrite (proj2 (Nat.eqb_eq _ _)) by (unfold len in Hn; lia). eexists. split; [done|].
  pose proof (le_combine_range (slice l offset (offset + Z.of_nat n)) ltac:(by apply bytes_slice)) as Hc.
  replace (len _) with (Z.of_nat n) in Hc by lia. done.
Qed.

(** A checked write either fails or replaces the bytes there. *)
Lemma write_at_total n l offset x :
  rust_len l -> 0 <= offset ->
  (write_at n l offset x = Some (Err ValueOutOfBounds)) \/
  (offset + Z.of_nat n <= len l /\ write_at n l offset x = Some (Ok (set_range l offset (le_split n x)))).
Proof.
  intros Hl H0. unfold write_at. destruct (get_slice l _) as [sub|] eqn:E; [right|by left].
  pose proof (get_slice_len _ (mkRange _ _) _ H0 E) as Hn. apply get_slice_Some in E as [Hr ->].
  unfold rust_len in Hl. cbn [r_start r_end] in *.
  assert (saturating_add offset (Z.of_nat n) = offset + Z.of_nat n) as Es by int_lia. rewrite Es in *.
  split; [lia|]. destruct (Z.ltb_spec (len (slice l offset (offset + Z.of_nat n))) (Z.of_nat n)); [lia|done].
Qed.

(** What relocation keeps of the bytes. *)
Definition same_shape (l l' : list Z) : Prop := len l' = len l /\ bytes l'.

Lemma write_at_shape n l offset x :
  rust_len l -> bytes l -> 0 <= offset ->
  exists r, write_at n l offset x = Some r /\ (forall l', r = Ok l' -> same_shape l l').
Proof.
  intros Hl Hb H0. destruct (write_at_total n l offset x Hl H0) as [->|[Hr ->]]; eexists; (split; [done|]);
    intros l' [= <-]; [].
  assert (len (le_split n x) = Z.of_nat n) as E by (unfold len; by rewrite le_split_length).
  split; [apply set_range_len; lia|apply set_range_bytes; [done|apply le_split_bytes]].
Qed.

(** ** Decoded structures *)

Lemma field_range bs o n : bytes bs -> 0 <= n -> 0 <= field bs o n < 256 ^ n.
Proof.
  intros Hb Hn. unfold field. pose proof (le_combine_range (slice bs o (o + n)) ltac:(by apply bytes_slice)) as H.
  assert (len (slice bs o (o + n)) <= n).
  { unfold len, slice. rewrite length_take. lia. }
  split; [lia|]. eapply Z.lt_le_trans; [apply H|]. apply Z.pow_le_mono_r; lia.
Qed.

Lemma field_u bs o n w : bytes bs -> 0 <= n -> w = 8 * n -> is_u w (field bs o n).
Proof.
  intros Hb Hn ->. unfold is_u. rewrite Z.pow_mul_r by lia. by apply field_range.
Qed.

(** The fields that the loader computes with are in range. *)
Class Decoded (T : Type) `{Layout T} (P : T -> Prop) := decoded bs : bytes bs -> P (decode bs).

Definition phdr_ok (h : Elf64Phdr) : Prop :=
  is_u64 (p_offset h) /\ is_u64 (p_vaddr h) /\ is_u64 (p_filesz h) /\ is_u64 (p_memsz h).
Definition shdr_ok (h : Elf64Shdr) : Prop := is_u64 (sh_addr h) /\ is_u64 (sh_offset h) /\ is_u64 (sh_size h).
Definition sym_ok (s : Elf64Sym) : Prop := is_u64 (st_value s).
Definition rel_ok (r : Elf64Rel) : Prop := is_u64 (r_offset r).

Ltac fields :=
  intros bs Hb; red; repeat match goal with |- _ /\ _ => split end; cbn; apply field_u; done.

#[export] Instance phdr_decoded : Decoded Elf64Phdr phdr_ok.
Proof. fields. Qed.
#[export] Instance shdr_decoded : Decoded Elf64Shdr shdr_ok.
Proof. fields. Qed.
#[export] Instance sym_decoded : Decoded Elf64Sym sym_ok.
Proof. fields. Qed.
#[export] Instance rel_decoded : Decoded Elf64Rel rel_ok.
Proof. fields. Qed.

Lemma decode_all_ok {T} `{Decoded T P} n bs : bytes bs -> Forall P (decode_all (T := T) n bs).
Proof.
  revert bs. induction n as [|n IH]; intros bs Hb; cbn [decode_all]; constructor.
  - by apply decoded, bytes_take.
  - by apply IH, bytes_drop.
Qed.

Lemma decode_all_length {T} `{Layout T} n bs : length (decode_all (T := T) n bs) = n.
Proof. revert bs. induction n as [|n IH]; intros bs; cbn; [done|]. by rewrite IH. Qed.

Lemma slice_from_bytes_ok {T} `{Decoded T P} bs r (l : list T) :
  bytes (b_data bs) -> slice_from_bytes bs r = Ok l -> Forall P l.
Proof.
  intros Hb. unfold slice_from_bytes, ok_or. intros Hs. returned.
  apply decode_all_ok. in_range Hr. by apply bytes_slice.
Qed.

(** ** The parsed file *)

Record elf_ok (bs : Bytes) (elf : Elf64) : Prop := {
  ok_bytes : parser_bytes elf = bs;
  ok_header : is_u64 (e_entry (file_header elf));
  ok_sections : Forall shdr_ok (section_header_table elf);
  ok_symbols table : dynamic_symbol_table elf = Some table -> Forall sym_ok table;
  ok_relocations table : dynamic_relocations_table elf = Some table -> Forall rel_ok table
}.

Lemma section_header_by_name_ok bs self h name self' :
  elf_ok bs self -> section_header_by_name self h name = Ok self' -> elf_ok bs self'.
Proof.
  intros [H1 H2 H3 H4 H5] H. unfold section_header_by_name in H. destruct self. cbn in *.
  returned; split; cbn; done.
Qed.

Lemma parse_each_section_ok bs names table self self' :
  elf_ok bs self -> parse_each_section self names table = Ok self' -> elf_ok bs self'.
Proof.
  revert self. induction table as [|h table IH]; intros self Hok H; cbn [parse_each_section] in H; [by simplify_eq|].
  returned. eapply IH; [|done]. by eapply section_header_by_name_ok.
Qed.

Lemma parse_dynamic_ok bs self self' :
  bytes (b_data bs) -> elf_ok bs self -> parse_dynamic self = Ok self' -> elf_ok bs self'.
Proof.
  intros Hb Hok H. unfold parse_dynamic in H. destruct (find_dynamic self) as [[entries|]|] eqn:E; [|by simplify_eq..].
  set (s1 := set_dynamic self _ _ _) in H.
  destruct (parse_dynamic_relocations s1) as [rel|] eqn:Er; [|done].
  set (s2 := set_dynamic s1 _ _ _) in H.
  destruct (parse_dynamic_symbol_table s2) as [sym|] eqn:Es; [|done]. injection H as <-.
  destruct Hok as [H1 H2 H3 H4 H5]. split; cbn; [done..|intros t ->|intros t ->].
  - unfold parse_dynamic_symbol_table, get_symbol_table_of_section, slice_from_section_header in Es. returned.
    eapply slice_from_bytes_ok; [|done]. by subst s2 s1.
  - unfold parse_dynamic_relocations in Er.
    returned; (eapply slice_from_bytes_ok; [|done]; by subst s1).
Qed.

Lemma parse_ok bs elf : bytes (b_data bs) -> parse bs = Ok elf -> elf_ok bs elf.
Proof.
  intros Hb H. unfold parse in H.
  destruct (parse_file_header bs) as [[fr fh]|] eqn:Ef; [|done].
  destruct (file_header_invalid fh); [done|].
  destruct (parse_program_header_table bs fr fh) as [[pr pt]|]; [|done].
  destruct (parse_section_header_table bs fr fh pr) as [[sr st]|] eqn:Es; [|done].
  destruct (match st with [] => _ | _ :: _ => _ end); [|done].
  destruct (check_program_headers _ _ _); [|done].
  destruct (check_section_headers _ _ _ _ _ _); [|done].
  destruct (if negb _ then _ else _) as [names|]; [|done].
  destruct (parse_sections _) as [self|] eqn:Ep; [|done].
  eapply parse_dynamic_ok; [done| |done]. unfold parse_sections in Ep. returned.
  eapply parse_each_section_ok; [|done]. split; cbn; [done| | |done|done].
  - unfold parse_file_header, ok_or in Ef. returned. cbn [e_entry decode Elf64Ehdr_layout].
    apply field_u; [|done..]. in_range Hr. by apply bytes_slice.
  - unfold parse_section_header_table in Es. returned. eapply slice_from_bytes_ok; done.
Qed.

Lemma get_section_from_elem elf name table h :
  get_section_from elf name table = Ok h ->
  h ∈ table /\ section_name elf (sh_name h) = Ok name.
Proof.
  induction table as [|x table IH]; cbn [get_section_from]; [done|]. intros H.
  destruct (section_name elf (sh_name x)) as [nm|] eqn:E; cbn [map_err] in H; [|done].
  case_bool_decide; simplify_eq.
  - split; [apply list_elem_of_here|done].
  - destruct (IH H). split; [by apply list_elem_of_further|done].
Qed.

Lemma check_sections_in_bounds_ok elf_bytes table :
  Forall shdr_ok table -> check_sections_in_bounds elf_bytes table = Ok tt ->
  Forall (fun h => sh_offset h + sh_size h <= len elf_bytes) table.
Proof.
  induction 1 as [|h table Hh Ht IH]; intros H; constructor; cbn [check_sections_in_bounds] in H.
  - unfold ok_or, checked_add in H. returned. in_range Hr. cbn in Hr. lia.
  - apply IH. by returned.
Qed.

(** What [validate] establishes of the text section. *)
Lemma validate_ok elf elf_bytes text :
  Forall shdr_ok (section_header_table elf) ->
  validate elf elf_bytes = Ok tt -> get_section elf (bstr ".text") = Ok text ->
  Forall (fun h => sh_offset h + sh_size h <= len elf_bytes) (section_header_table elf) /\
  range_contains (s_vm_range text) (e_entry (file_header elf)) = true.
Proof.
  intros Hs H Ht. unfold validate in H. rewrite Ht in H.
  repeat (match goal with H : (if ?b then _ else _) = _ |- _ => destruct b; [done|] end).
  destruct (check_writable _ _); [|done].
  destruct (check_sections_in_bounds _ _) as [[]|] eqn:Ec; [|done].
  split; [by apply check_sections_in_bounds_ok|]. by destruct (range_contains _ _).
Qed.

(** ** Rewriting an immediate *)

Lemma read_le_set_ne n l start new off :
  0 <= start -> start + len new <= len l -> 0 <= off ->
  off + Z.of_nat n <= start \/ start + len new <= off ->
  read_le n (set_range l start new) off = read_le n l off.
Proof.
  intros H0 Hl Hoff Hd. unfold read_le.
  assert (take n (drop (Z.to_nat off) (set_range l start new)) = take n (drop (Z.to_nat off) l)) as ->; [|done].
  apply list_eq. intros i. destruct (decide (i < n)%nat).
  - rewrite !lookup_take_lt, !lookup_drop, set_range_lookup by done.
    rewrite decide_False; [done|]. unfold len in *. lia.
  - rewrite !lookup_take_ge; [done|lia..].
Qed.

Lemma read_le_set_eq n l start x :
  0 <= start -> start + Z.of_nat n <= len l ->
  read_le n (set_range l start (le_split n x)) start = Some (x mod 256 ^ Z.of_nat n).
Proof.
  intros H0 Hl. rewrite <- le_combine_split.
  pose proof (read_le_app n (take (Z.to_nat start) l) (le_split n x)
    (drop (Z.to_nat (start + len (le_split n x))) l) (le_split_length n x)) as H.
  replace (len (take (Z.to_nat start) l)) with start in H; [done|].
  unfold len in *. rewrite length_take. lia.
Qed.

(** The instruction with another immediate. *)
Definition with_imm (insn : Insn) (x : Z) : Insn :=
  mkInsn (ptr insn) (opc insn) (dst insn) (src insn) (off insn) x.

(** Writing a key to the immediate of instruction [i] changes that only. *)
Lemma get_insn_set_imm text i key insn :
  rust_len text -> 0 <= i -> get_insn text i = Some insn ->
  let text' := set_range text (8 * i + 4) (le_split 4 key) in
  len text' = len text /\
  get_insn text' i = Some (with_imm insn (as_i32 key)) /\
  (forall j, 0 <= j -> j <> i -> get_insn text' j = get_insn text j).
Proof.
  intros Hl Hi Hg text'. pose proof (get_insn_range _ _ _ Hl Hi Hg) as Hr. unfold INSN_SIZE in Hr.
  assert (len text' = len text) as Hlen by (apply set_range_len; change (len (le_split 4 key)) with 4; lia).
  assert (forall p, is_pc_in_program text' p = is_pc_in_program text p) as Hp
    by (intros; unfold is_pc_in_program; by rewrite Hlen).
  assert (forall k, set_range text (8 * i + 4) (le_split 4 key) !! k =
      if decide (Z.to_nat (8 * i + 4) <= k < Z.to_nat (8 * i + 4) + 4)%nat
      then le_split 4 key !! (k - Z.to_nat (8 * i + 4))%nat else text !! k) as Hk
    by (intros k; apply set_range_lookup; [lia|]; change (len (le_split 4 key)) with 4; lia).
  assert (forall n o, 0 <= o -> o + Z.of_nat n <= 8 * i + 4 \/ 8 * i + 8 <= o -> read_le n text' o = read_le n text o) as Hne.
  { intros n o Ho Hd. apply read_le_set_ne; change (len (le_split 4 key)) with 4; lia. }
  unfold rust_len in Hl. split; [done|]. split.
  - unfold get_insn in *. rewrite Hp. destruct (is_pc_in_program text i); [|done].
    unfold get_insn_unchecked, INSN_SIZE in *.
    assert (wrapping_mul 8 i = 8 * i) as E0 by int_lia. rewrite E0 in *.
    assert (forall k, 0 <= k <= 4 -> wrapping_add (8 * i) k = 8 * i + k) as E by int_lia.
    rewrite !E in * by lia. rewrite (Hne 2%nat) by lia.
    unfold text' at 1 2. rewrite !Hk. rewrite !decide_False by lia.
    unfold text'. rewrite read_le_set_eq by lia.
    destruct (text !! Z.to_nat (8 * i)); [|done]. destruct (text !! Z.to_nat (8 * i + 1)); [|done].
    destruct (read_le 2 text (8 * i + 2)); [|done]. destruct (read_le 4 text (8 * i + 4)); [|done].
    injection Hg as <-. unfold with_imm. cbn [ptr opc dst src off]. do 2 f_equal.
    change (256 ^ Z.of_nat 4) with (2 ^ 32). apply (cast_s_u 32). lia.
  - intros j Hj Hji. unfold get_insn. rewrite Hp. destruct (is_pc_in_program text j) eqn:Ej; [|done].
    apply is_pc_in_program_iff in Ej; [|done|done]. unfold get_insn_unchecked, INSN_SIZE in *.
    assert (wrapping_mul 8 j = 8 * j) as -> by int_lia.
    assert (forall k, 0 <= k <= 4 -> wrapping_add (8 * j) k = 8 * j + k) as E by int_lia.
    rewrite !E in * by lia. rewrite !Hne by lia. unfold text'. rewrite !Hk.
    rewrite !decide_False by lia. done.
Qed.

(** ** Relocation *)

(** Every registered function starts within [size] bytes of text. *)
Definition funs_below (size : Z) (reg : FunctionRegistry Z) : Prop :=
  forall key name pc, lookup_by_key reg key = Some (name, pc) -> 0 <= pc /\ pc * 8 < size.

Definition extends (reg reg' : FunctionRegistry Z) : Prop :=
  forall key e, lookup_by_key reg key = Some e -> lookup_by_key reg' key = Some e.

Lemma funs_below_default size : funs_below size registry_default.
Proof. intros k name pc Hk. unfold lookup_by_key in Hk. cbn in Hk. by rewrite lookup_empty in Hk. Qed.

Section relocation.
Context {C : Type} (hash : list Z -> Z) (hash_u32 : forall name, is_u32 (hash name)).
Context (env : BuiltinProgram C) (config : Config) (Hconfig : bp_config env = Some config).

(** A hashed registration never panics; it adds the one function, under a key
    that no builtin has. *)
Lemma register_hashed reg name value :
  exists r, register_function_hashed_legacy hash reg env true name value = Some r /\
  forall reg' key, r = Ok (reg', key) ->
    is_u32 key /\ extends reg reg' /\ lookup_by_key (sparse_registry env) key = None /\
    (exists name', lookup_by_key reg' key = Some (name', value)) /\
    (forall size, 0 <= value -> value * 8 < size -> funs_below size reg -> funs_below size reg').
Proof.
  unfold register_function_hashed_legacy. rewrite Hconfig. cbv zeta.
  set (h := if bool_decide _ then _ else _).
  destruct (lookup_by_key (sparse_registry env) h) eqn:El; [failed|].
  set (stored := if _ || _ then _ else _).
  pose proof (register_function_spec reg h stored value) as Hs.
  destruct (register_function reg h stored value) as [reg0|]; [|failed].
  eexists. split; [done|]. intros reg' key [= <- <-]. destruct Hs as ((nm & Hn & _) & Hother & Hext).
  split; [unfold h; case_bool_decide; apply hash_u32|]. split; [exact Hext|]. split; [done|].
  split; [by exists nm|]. intros size H0 Hlt Hf k n pc Hk. destruct (decide (k = h)) as [->|Hne].
  - rewrite Hn in Hk. by injection Hk as -> ->.
  - rewrite Hother in Hk by done. by eapply Hf.
Qed.

(** What the first loop makes of an instruction: a call relative to the program
    counter names a registered function, its target, that no builtin hides; any
    other instruction is as it was. *)
Definition call_resolved (count : Z) (reg : FunctionRegistry Z) (i : Z) (insn insn' : Insn) : Prop :=
  if decide (opc insn = CALL_IMM /\ imm insn <> -1) then
    insn' = with_imm insn (imm insn') /\
    0 <= i + 1 + imm insn < count /\
    lookup_by_key (sparse_registry env) (as_u32 (imm insn')) = None /\
    exists name, lookup_by_key reg (as_u32 (imm insn')) = Some (name, i + 1 + imm insn)
  else insn' = insn.

Lemma call_resolved_extends count reg reg' i insn insn' :
  extends reg reg' -> call_resolved count reg i insn insn' -> call_resolved count reg' i insn insn'.
Proof.
  unfold call_resolved. intros He. destruct (decide _); [|done]. intros (H1 & H2 & H3 & name & H4).
  repeat split; [done|lia|lia|done|]. exists name. by apply He.
Qed.

(** What one step of it keeps and does. *)
Record call_step (count i : Z) (reg reg' : FunctionRegistry Z) (text text' : list Z) : Prop := {
  cs_shape : same_shape text text';
  cs_extends : extends reg reg';
  cs_below size : count * 8 <= size -> funs_below size reg -> funs_below size reg';
  cs_other j : 0 <= j -> j <> i -> get_insn text' j = get_insn text j;
  cs_call insn : get_insn text i = Some insn ->
    exists insn', get_insn text' i = Some insn' /\ call_resolved count reg' i insn insn'
}.

Lemma get_insn_imm prog pc insn : get_insn prog pc = Some insn -> is_i32 (imm insn).
Proof.
  unfold get_insn, get_insn_unchecked. intros H. repeat case_match; simplify_eq.
  apply cast_s_range. lia.
Qed.

Lemma relocate_call_step reg text i :
  rust_len text -> bytes text -> 0 <= i < num_insns text ->
  exists r, relocate_call hash config env (num_insns text) reg text i = Some r /\
  forall reg' text', r = Ok (reg', text') -> call_step (num_insns text) i reg reg' text text'.
Proof.
  intros Hl Hb Hi. destruct (get_insn_num_insns text i Hl Hi) as [insn Eg].
  unfold relocate_call. rewrite Eg.
  assert (num_insns text * 8 <= len text < 2 ^ 63) as Hn
    by (unfold num_insns, INSN_SIZE, rust_len in *; pose proof (len_nonneg text); split; int_lia).
  assert (((opc insn =? CALL_IMM) && negb (imm insn =? -1))%bool =
    bool_decide (opc insn = CALL_IMM /\ imm insn <> -1)) as ->.
  { destruct (Z.eqb_spec (opc insn) CALL_IMM), (Z.eqb_spec (imm insn) (-1)); case_bool_decide; naive_solver. }
  case_bool_decide as Ec.
  2: { eexists. split; [done|]. intros reg' text' [= <- <-].
       split; [by split|by intros ? ?|auto|done|]. intros ? Ei. rewrite Eg in Ei. injection Ei as <-. exists insn. split; [done|].
       unfold call_resolved. by rewrite decide_False. }
  pose proof (get_insn_imm _ _ _ Eg) as Him. unfold is_s in Him. cbv zeta.
  assert (saturating_add_i64 (saturating_add_i64 (as_i64 i) 1) (imm insn) = i + 1 + imm insn) as ->.
  { rewrite (cast_s_id 64) by (unfold is_s; lia). unfold saturating_add_i64, clamp_i64. lia. }
  rewrite (cast_s_id 64 (num_insns text)) by (unfold is_s; lia).
  set (target := i + 1 + imm insn) in *.
  destruct ((target <? 0) || (num_insns text <=? target))%bool eqn:Et; [failed|].
  assert (0 <= target < num_insns text) as Ht by (bool_to_prop; lia).
  rewrite (cast_u_id 64 target) by (unfold is_u; lia).
  set (name := if enable_symbol_and_section_labels config then _ else _). destruct (register_hashed reg name target) as (r & -> & Hr).
  destruct r as [[reg1 key]|]; [|failed].
  destruct (Hr reg1 key eq_refl) as (Hkey & Hext & Hnone & (nm & Hlook) & Hbelow).
  replace (saturating_add (saturating_mul i INSN_SIZE) 4) with (8 * i + 4)
    by (unfold INSN_SIZE, saturating_add, saturating_mul; lia).
  destruct (write_at_total 4 text (8 * i + 4) key Hl ltac:(lia)) as [->|[Hw ->]];
    [failed|].
  eexists. split; [done|]. intros reg' text' [= <- <-].
  destruct (get_insn_set_imm text i key insn Hl ltac:(lia) Eg) as (Hlen & Hg & Ho).
  split; [split; [done|]|done| |done|].
  - apply set_range_bytes; [done|exact (le_split_bytes 4 key)].
  - intros size Hsz. apply Hbelow; lia.
  - intros ? Ei. rewrite Eg in Ei. injection Ei as <-. eexists. split; [exact Hg|].
    unfold call_resolved. rewrite decide_True by done. cbn [with_imm imm].
    rewrite cast_u_s, cast_u_id by (done || lia). repeat split; [lia..|done|by exists nm].
Qed.

Lemma relocate_calls_ok n i reg text :
  rust_len text -> bytes text -> 0 <= i -> i + Z.of_nat n <= num_insns text ->
  exists r, relocate_calls hash config env (num_insns text) n i reg text = Some r /\
  forall reg' text', r = Ok (reg', text') ->
    same_shape text text' /\ extends reg reg' /\
    (forall size, num_insns text * 8 <= size -> funs_below size reg -> funs_below size reg') /\
    (forall j, 0 <= j < i -> get_insn text' j = get_insn text j) /\
    (forall j insn, i <= j < i + Z.of_nat n -> get_insn text j = Some insn ->
       exists insn', get_insn text' j = Some insn' /\ call_resolved (num_insns text) reg' j insn insn').
Proof.
  revert i reg text. induction n as [|n IH]; intros i reg text Hl Hb Hi Hn; cbn [relocate_calls].
  { eexists. split; [done|]. intros reg' text' [= <- <-].
    split; [by split|]. split; [by intros ? ?|]. split; [auto|]. split; [done|]. intros j insn Hj. lia. }
  destruct (relocate_call_step reg text i Hl Hb ltac:(lia)) as (r & -> & Hr).
  destruct r as [[reg1 text1]|]; [|failed].
  destruct (Hr reg1 text1 eq_refl) as [[Hlen Hb1] Hext Hbelow Hother Hcall].
  assert (num_insns text1 = num_insns text) as En by (unfold num_insns; by rewrite Hlen).
  destruct (IH (i + 1) reg1 text1) as (r & Er & Hrest); [unfold rust_len in *; lia|done|lia|lia|].
  rewrite En in Er, Hrest. rewrite Er. exists r. split; [done|]. intros reg' text' ->.
  destruct (Hrest reg' text' eq_refl) as ([Hlen' Hb'] & Hext' & Hbelow' & Hsame & Hres).
  split; [split; [lia|done]|]. split; [intros k e Hk; by apply Hext', Hext|]. split; [auto|]. split.
  - intros j Hj. rewrite Hsame by lia. apply Hother; lia.
  - intros j insn Hj Hg. destruct (decide (j = i)) as [->|Hne].
    + destruct (Hcall insn Hg) as (insn' & Hg' & Hc). exists insn'.
      rewrite Hsame by lia. split; [done|]. by eapply call_resolved_extends.
    + apply Hres; [lia|]. rewrite Hother by lia. done.
Qed.

(** The other relocations write to the bytes only. *)

Lemma same_shape_trans l1 l2 l3 : same_shape l1 l2 -> same_shape l2 l3 -> same_shape l1 l3.
Proof. intros [H1 _] [H2 H3]. split; [lia|done]. Qed.

Lemma write_lddw_shape l low high addr :
  rust_len l -> bytes l -> 0 <= low -> 0 <= high ->
  exists r, write_lddw l low high addr = Some r /\ (forall l', r = Ok l' -> same_shape l l').
Proof.
  intros Hl Hb H1 H2. unfold write_lddw.
  destruct (write_at_shape 4 l low (as_u32 (Z.land addr 0xFFFFFFFF)) Hl Hb H1) as (r & -> & Hr).
  destruct r as [l1|]; [|failed].
  destruct (Hr l1 eq_refl) as [Hlen Hb1].
  destruct (write_at_shape 4 l1 high (as_u32 (checked_shr_or_0 addr 32))) as (r & -> & Hr');
    [unfold rust_len in *; lia|done|done|].
  exists r. split; [done|]. intros l' ->. eapply same_shape_trans; [by split|auto].
Qed.

Lemma relocate_64_64_shape elf rel l :
  rust_len l -> bytes l -> rel_ok rel ->
  exists r, relocate_64_64 elf rel l = Some r /\ (forall l', r = Ok l' -> same_shape l l').
Proof.
  intros Hl Hb [H0 _]. unfold relocate_64_64. cbv zeta.
  pose proof (saturating_add_nonneg (r_offset rel) 4 H0 ltac:(lia)) as Hi.
  destruct (read_at_total 4 l (saturating_add (r_offset rel) BYTE_OFFSET_IMMEDIATE) Hl Hb Hi) as [->|(x & -> & _)];
    [failed|].
  destruct (relocation_symbol elf rel) as [sym|]; [|failed].
  apply write_lddw_shape; [done..|]. by apply saturating_add_nonneg.
Qed.

Lemma relocate_relative_shape text rel l :
  rust_len l -> bytes l -> rel_ok rel ->
  exists r, relocate_relative text rel l = Some r /\ (forall l', r = Ok l' -> same_shape l l').
Proof.
  intros Hl Hb [H0 _]. unfold relocate_relative. cbv zeta.
  pose proof (saturating_add_nonneg (r_offset rel) 4 H0 ltac:(lia)) as Hi.
  assert (0 <= saturating_add (saturating_add (r_offset rel) INSN_SIZE) BYTE_OFFSET_IMMEDIATE) as Hh
    by (repeat apply saturating_add_nonneg; done).
  destruct (read_at_total 4 l (saturating_add (r_offset rel) BYTE_OFFSET_IMMEDIATE) Hl Hb Hi) as [->|(x & -> & _)];
    [destruct (range_contains _ _); failed|].
  destruct (range_contains _ _); [|by apply write_at_shape].
  destruct (read_at_total 4 l _ Hl Hb Hh) as [->|(y & -> & _)]; [failed|].
  destruct (_ =? 0); [failed|]. by apply write_lddw_shape.
Qed.

(** The invariant of the second loop, for the bytes it started with. *)
Definition relocating_ok (size : Z) (l : list Z) (s : Relocating) : Prop :=
  same_shape l (rl_bytes s) /\ funs_below size (rl_registry s).

Lemma text_pc text value :
  range_contains (s_vm_range text) value = true ->
  let pc := saturating_sub value (sh_addr text) / INSN_SIZE in 0 <= pc /\ pc * 8 < sh_size text.
Proof.
  unfold range_contains, s_vm_range, saturating_sub, saturating_add, INSN_SIZE. cbn. intros H. bool_to_prop.
  split; int_lia.
Qed.

Lemma relocation_key_ok text rel sym name s :
  funs_below (sh_size text) (rl_registry s) ->
  exists r, relocation_key hash config env text rel sym name s = Some r /\
  forall reg cache key, r = Ok (reg, cache, key) -> funs_below (sh_size text) reg.
Proof.
  intros Hf. unfold relocation_key. destruct (is_function sym && _)%bool.
  - destruct (range_contains _ _) eqn:Ec; cbn [negb]; [|failed].
    apply text_pc in Ec as [Hp0 Hp1].
    destruct (register_hashed (rl_registry s) name (saturating_sub (st_value sym) (sh_addr text) / INSN_SIZE))
      as (r & -> & Hr). destruct r as [[reg key]|]; [|failed].
    eexists. split; [done|]. intros reg' cache' key' [= <- <- <-].
    destruct (Hr reg key eq_refl) as (_ & _ & _ & _ & Hb). by apply Hb.
  - cbv zeta. destruct (reject_broken_elfs config && _)%bool; eexists; (split; [done|]); [by intros ? ? ? [=]|].
    by intros ? ? ? [= <- _ _].
Qed.

Lemma relocate_64_32_ok elf text rel l s :
  rust_len l -> rel_ok rel -> relocating_ok (sh_size text) l s ->
  exists r, relocate_64_32 hash config env elf text rel s = Some r /\
    (forall s', r = Ok s' -> relocating_ok (sh_size text) l s').
Proof.
  intros Hl [H0 _] [Hs Hf]. unfold relocate_64_32. cbv zeta.
  destruct (relocation_symbol elf rel) as [sym|]; [|failed].
  destruct (map_err _ (dynamic_symbol_name _ _)) as [name|]; [|failed].
  destruct (relocation_key_ok text rel sym name s Hf) as (r & -> & Hr).
  destruct r as [[[reg cache] key]|]; [|failed].
  destruct Hs as [Hlen Hb]. assert (rust_len (rl_bytes s)) as Hl' by (unfold rust_len in *; lia).
  destruct (write_at_shape 4 (rl_bytes s) (saturating_add (r_offset rel) BYTE_OFFSET_IMMEDIATE) key Hl' Hb)
    as (r & -> & Hw); [by apply saturating_add_nonneg|].
  destruct r as [l'|]; [|failed].
  eexists. split; [done|]. intros s' [= <-]. split; cbn; [|by eapply Hr].
  eapply same_shape_trans; [by split|by apply Hw].
Qed.

Lemma apply_relocations_ok elf text rels l s :
  rust_len l -> Forall rel_ok rels -> relocating_ok (sh_size text) l s ->
  exists r, apply_relocations hash config env elf text rels s = Some r /\
    (forall s', r = Ok s' -> relocating_ok (sh_size text) l s').
Proof.
  intros Hl Hrels. revert s. induction Hrels as [|rel rels Hrel Hrels IH]; intros s Hs; cbn [apply_relocations].
  { eexists. split; [done|]. by intros s' [= <-]. }
  assert (exists r, apply_relocation hash config env elf text rel s = Some r /\
    (forall s', r = Ok s' -> relocating_ok (sh_size text) l s')) as (r & -> & Hr).
  { unfold apply_relocation. destruct (Hs) as [[Hlen Hb] Hf].
    assert (rust_len (rl_bytes s)) as Hl' by (unfold rust_len in *; lia).
    destruct (from_x86_relocation_type _) as [[]|]; try failed.
    - destruct (relocate_64_64_shape elf rel (rl_bytes s) Hl' Hb Hrel) as (r & -> & Hr).
      destruct r; eexists; (split; [done|]); intros s' [= <-]. split; [|done].
      eapply same_shape_trans; [by split|by apply Hr].
    - destruct (relocate_relative_shape text rel (rl_bytes s) Hl' Hb Hrel) as (r & -> & Hr).
      destruct r; eexists; (split; [done|]); intros s' [= <-]. split; [|done].
      eapply same_shape_trans; [by split|by apply Hr].
    - by apply relocate_64_32_ok. }
  destruct r as [s1|]; [|failed]. by apply IH, Hr.
Qed.

(** The last loop registers functions of the text. *)
Lemma register_symbols_ok elf text symbols reg :
  funs_below (sh_size text) reg ->
  exists r, register_symbols hash env elf text symbols reg = Some r /\
    (forall reg', r = Ok reg' -> funs_below (sh_size text) reg').
Proof.
  revert reg. induction symbols as [|sym symbols IH]; intros reg Hf; cbn [register_symbols].
  { eexists. split; [done|]. by intros reg' [= <-]. }
  destruct (negb (_ =? 2)); [by apply IH|].
  destruct (range_contains _ _) eqn:Ec; cbn [negb]; [|failed]. apply text_pc in Ec as [Hp0 Hp1].
  destruct (map_err _ (symbol_name _ _)) as [name|]; [|failed].
  destruct (register_hashed reg name (saturating_sub (st_value sym) (sh_addr text) / INSN_SIZE)) as (r & -> & Hr).
  destruct r as [[reg1 key]|]; [|failed]. apply IH.
  destruct (Hr reg1 key eq_refl) as (_ & _ & _ & _ & Hb). by apply Hb.
Qed.

Lemma file_range_len text (l bs : list Z) :
  shdr_ok text -> get_slice l (or_default_range (s_file_range text)) = Some bs ->
  0 <= r_start (or_default_range (s_file_range text)) /\ len bs <= sh_size text.
Proof.
  intros (_ & [Ho _] & [Hs _]) H.
  assert (0 <= r_start (or_default_range (s_file_range text))) as H0
    by (unfold s_file_range; destruct (negb _); cbn; lia).
  split; [done|]. apply get_slice_len in H; [|done]. rewrite H.
  unfold s_file_range. destruct (negb _); cbn; [unfold saturating_add|]; lia.
Qed.

(** Relocation never panics. It keeps the length of the file, and the functions
    it registers start inside the text. *)
Lemma relocate_ok elf text bs l :
  elf_ok bs elf -> get_section elf (bstr ".text") = Ok text -> rust_len l -> bytes l ->
  exists r, relocate hash registry_default env elf l = Some r /\
    (forall reg l', r = Ok (reg, l') -> same_shape l l' /\ funs_below (sh_size text) reg).
Proof.
  intros Hok Ht Hl Hb. unfold relocate. rewrite Ht, Hconfig. cbv zeta.
  apply get_section_from_elem in Ht as [Hin _].
  pose proof (proj1 (Forall_forall _ _) (ok_sections _ _ Hok) _ Hin) as Hshdr.
  set (range := or_default_range (s_file_range text)).
  destruct (get_slice l range) as [txt|] eqn:Er; cbn [ok_or]; [|failed].
  destruct (file_range_len _ _ _ Hshdr Er) as [H0 Hsize]. fold range in H0.
  pose proof (get_slice_len _ _ _ H0 Er) as Htl. apply get_slice_Some in Er as [Hr ->].
  set (txt := slice l _ _) in *.
  assert (bytes txt) as Hbt by by apply bytes_slice.
  assert (rust_len txt) as Hlt by (unfold rust_len in *; lia).
  assert (0 <= num_insns txt /\ num_insns txt * 8 <= len txt) as Hn
    by (pose proof (len_nonneg txt); unfold num_insns, INSN_SIZE; split; int_lia).
  destruct (relocate_calls_ok (Z.to_nat (num_insns txt)) 0 registry_default txt Hlt Hbt) as (r & Ec & Hc); [lia..|].
  unfold num_insns in Ec at 1 2. rewrite Ec. destruct r as [[reg1 txt1]|]; [|failed].
  destruct (Hc reg1 txt1 eq_refl) as ([Hlen1 Hb1] & _ & Hbelow & _).
  destruct (apply_relocations_ok elf text
    (match dynamic_relocations_table elf with Some table => table | None => [] end) l
    (mkRelocating reg1 (set_range l (r_start range) txt1) ∅)) as (r & -> & Ha); [done| |split; cbn|].
  { destruct (dynamic_relocations_table elf) eqn:Ed; [by eapply ok_relocations|constructor]. }
  { split; [apply set_range_len; lia|by apply set_range_bytes]. }
  { apply Hbelow; [lia|apply funs_below_default]. }
  destruct r as [s|]; [|failed]. destruct (Ha s eq_refl) as [Hsh Hf].
  destruct (enable_symbol_and_section_labels config).
  - destruct (register_symbols_ok elf text (match symbol_table elf with Ok (Some table) => table | _ => [] end)
      (rl_registry s) Hf) as (r & -> & Hs).
    destruct r as [reg|]; [|failed]. eexists. split; [done|]. intros reg' l' [= <- <-]. auto.
  - eexists. split; [done|]. by intros reg' l' [= <- <-].
Qed.

End relocation.

(** ** Read-only sections *)

(** The address and the bytes of each read-only section, in order. *)
Definition ro_contents (elf_bytes : list Z) (sections : list (option (list Z) * Elf64Shdr)) : list (Z * list Z) :=
  omap (fun '(name, h) =>
          if is_ro_name name
          then (fun d => (sh_addr h, d)) <$> get_slice elf_bytes (or_default_range (s_file_range h))
          else None) sections.

(** The byte at an address: of the last section that covers it. *)
Fixpoint byte_at (slices : list (Z * list Z)) (x : Z) : option Z :=
  match slices with
  | [] => None
  | (a, d) :: slices' =>
      match byte_at slices' x with
      | Some b => Some b
      | None => if a <=? x then d !! Z.to_nat (x - a) else None
      end
  end.

(** A section that fits between the bounds, and that is where its address says
    as long as no offset is invalid. *)
Definition slice_ok (elf_bytes : list Z) (low high : Z) (invalid : bool) (s : Z * list Z) : Prop :=
  0 <= s.1 <= MM_REGION_SIZE /\ low <= s.1 /\ s.1 + len s.2 <= high /\
  (invalid = false -> s.2 = slice elf_bytes s.1 (s.1 + len s.2) /\ s.1 + len s.2 <= len elf_bytes).

Lemma slice_ok_mono elf_bytes low high invalid low' high' invalid' s :
  low' <= low -> high <= high' -> (invalid' = false -> invalid = false) ->
  slice_ok elf_bytes low high invalid s -> slice_ok elf_bytes low' high' invalid' s.
Proof. intros H1 H2 H3 (? & ? & ? & H). repeat split; [lia..|apply H; auto|apply H; auto]. Qed.

Record scan_ok (elf_bytes : list Z) (s : RoScan) : Prop := {
  so_slices : Forall (slice_ok elf_bytes (lowest_addr s) (highest_addr s) (invalid_offsets s)) (ro_slices s);
  so_low : 0 <= lowest_addr s;
  so_high : 0 <= highest_addr s;
  so_file : invalid_offsets s = false -> highest_addr s <= len elf_bytes;
  so_some : s = RoScan_start \/ lowest_addr s <= highest_addr s
}.

Lemma scan_start_ok elf_bytes : scan_ok elf_bytes RoScan_start.
Proof. pose proof (len_nonneg elf_bytes). split; cbn; try lia; [constructor|by left]. Qed.

Definition section_in_file (elf_bytes : list Z) (h : Elf64Shdr) : Prop :=
  shdr_ok h /\ sh_offset h + sh_size h <= len elf_bytes.

(** The bytes of a section: none, without bits in the file. *)
Lemma section_data_cases elf_bytes h d :
  rust_len elf_bytes -> section_in_file elf_bytes h ->
  get_slice elf_bytes (or_default_range (s_file_range h)) = Some d ->
  d = [] \/ d = slice elf_bytes (sh_offset h) (sh_offset h + sh_size h) /\ len d = sh_size h.
Proof.
  intros Hl [(_ & [Ho _] & [Hz _]) Hin] Ed. unfold s_file_range, rust_len in *.
  destruct (negb (sh_type h =? SHT_NOBITS)); cbn [or_default_range] in Ed; [right|left].
  - pose proof (get_slice_len _ (mkRange _ _) _ Ho Ed) as Hn. apply get_slice_Some in Ed as [_ ->]. cbn in *.
    replace (saturating_add (sh_offset h) (sh_size h)) with (sh_offset h + sh_size h) in *
      by (unfold saturating_add; lia). split; [done|lia].
  - by apply get_slice_Some in Ed as [_ ->].
Qed.

Lemma scan_section_ok config elf_bytes i h s s' :
  rust_len elf_bytes -> section_in_file elf_bytes h -> scan_ok elf_bytes s ->
  scan_section config elf_bytes i h s = Ok s' ->
  scan_ok elf_bytes s' /\
  exists d, get_slice elf_bytes (or_default_range (s_file_range h)) = Some d /\
    ro_slices s' = ro_slices s ++ [(sh_addr h, d)].
Proof.
  intros Hl Hh [Hsl Hlow Hhigh Hfile Hsome] H. unfold scan_section in H. cbv zeta in H.
  destruct ((reject_broken_elfs config && _) || (MM_STACK_START <? _))%bool eqn:Ev; [done|].
  destruct (get_slice elf_bytes _) as [d|] eqn:Ed; cbn [ok_or] in H; [|done].
  injection H as <-. cbn [ro_slices]. split; [|by exists d].
  assert (sh_addr h <= MM_REGION_SIZE) as Hreg.
  { apply orb_false_iff in Ev as [_ Ev]. apply Z.ltb_ge in Ev. revert Ev. unfold saturating_add.
    change MM_STACK_START with 8589934592. change MM_REGION_SIZE with 4294967296. lia. }
  pose proof (section_data_cases _ _ _ Hl Hh Ed) as Hd. destruct Hh as [([Ha _] & [Ho _] & [Hz _]) Hin].
  assert (len d <= sh_size h) as Hdl by (destruct Hd as [->|[_ ->]]; [change (len (@nil Z)) with 0|]; lia).
  pose proof (len_nonneg d). unfold rust_len in Hl.
  assert (saturating_add (sh_addr h) (len d) = sh_addr h + len d) as ->.
  { unfold saturating_add. change MM_REGION_SIZE with 4294967296 in Hreg. lia. }
  set (invalid := if negb (invalid_offsets s) && _ then true else _).
  assert (invalid = false -> invalid_offsets s = false /\ sh_addr h = sh_offset h) as Hinv.
  { unfold invalid. destruct (invalid_offsets s); cbn; [done|]. destruct (Z.eqb_spec (sh_addr h) (sh_offset h)); done. }
  split; cbn [lowest_addr highest_addr invalid_offsets ro_slices]; try lia.
  - apply Forall_app. split.
    + eapply Forall_impl; [exact Hsl|]. intros x. apply slice_ok_mono; [lia|lia|by intros [? _]%Hinv].
    + apply Forall_singleton. split; [cbn; lia|]. cbn. split; [lia|]. split; [lia|].
      intros [_ Eo]%Hinv. rewrite Eo. split; [|lia]. destruct Hd as [->|[Hd Hn]].
      * unfold slice, len. cbn. by rewrite Z.add_0_r, Z.sub_diag.
      * by rewrite Hn.
  - intros [E Eo]%Hinv. specialize (Hfile E). lia.
Qed.

Lemma scan_sections_ok config elf_bytes i sections s s' :
  rust_len elf_bytes -> Forall (fun e => section_in_file elf_bytes e.2) sections -> scan_ok elf_bytes s ->
  scan_sections config elf_bytes i sections s = Ok s' ->
  scan_ok elf_bytes s' /\ ro_slices s' = ro_slices s ++ ro_contents elf_bytes sections.
Proof.
  intros Hl Hsec. revert i s. induction Hsec as [|[name h] sections Hh Hsec IH]; intros i s Hs H; cbn [scan_sections] in H.
  { injection H as <-. unfold ro_contents. cbn. by rewrite app_nil_r. }
  cbn [snd] in Hh. unfold ro_contents in *. cbn [omap list_omap]. destruct (is_ro_name name).
  - destruct (scan_section config elf_bytes i h s) as [s1|] eqn:E; [|done].
    destruct (scan_section_ok _ _ _ _ _ _ Hl Hh Hs E) as (Hs1 & d & Hd & Hro).
    rewrite Hd. cbn. destruct (IH _ _ Hs1 H) as [Hs' ->]. split; [done|]. by rewrite Hro, <- app_assoc.
  - by apply IH in H.
Qed.

Lemma slice_lookup {A} (l : list A) a b i :
  0 <= a -> 0 <= i < b - a -> slice l a b !! Z.to_nat i = l !! Z.to_nat (a + i).
Proof.
  intros Ha Hi. unfold slice. rewrite lookup_take_lt by lia. rewrite lookup_drop. f_equal. lia.
Qed.

Lemma byte_at_elem slices x b :
  byte_at slices x = Some b -> exists a d, (a, d) ∈ slices /\ a <= x < a + len d /\ d !! Z.to_nat (x - a) = Some b.
Proof.
  induction slices as [|[a d] slices IH]; cbn [byte_at]; [done|]. intros H.
  destruct (byte_at slices x) as [b'|].
  - destruct (IH H) as (a' & d' & Hin & Hr). exists a', d'. split; [by apply list_elem_of_further|done].
  - destruct (Z.leb_spec a x); [|done]. exists a, d. split; [apply list_elem_of_here|]. split; [|done].
    apply lookup_lt_Some in H. unfold len. lia.
Qed.

Lemma copy_slices_ok lowest slices buf :
  rust_len buf -> 0 <= lowest ->
  Forall (fun s => lowest <= s.1 /\ s.1 - lowest + len s.2 <= len buf) slices ->
  exists buf', copy_slices buf lowest slices = Some buf' /\ len buf' = len buf /\
    forall x, lowest <= x ->
      buf' !! Z.to_nat (x - lowest) =
      match byte_at slices x with Some b => Some b | None => buf !! Z.to_nat (x - lowest) end.
Proof.
  intros Hl H0 Hs. revert buf Hl Hs. induction slices as [|[a d] slices IH]; intros buf Hl Hs; cbn [copy_slices byte_at].
  { by exists buf. }
  apply Forall_cons in Hs as [[Ha Hd] Hs]. cbn [fst snd] in *. pose proof (len_nonneg d). unfold rust_len in Hl.
  assert (copy_from_slice buf (saturating_sub a lowest) d = Some (set_range buf (a - lowest) d)) as ->.
  { unfold copy_from_slice, get_slice. cbn [r_start r_end].
    replace (saturating_sub a lowest) with (a - lowest) by (unfold saturating_sub; lia).
    replace (saturating_add (a - lowest) (len d)) with (a - lowest + len d) by (unfold saturating_add; lia).
    rewrite (proj2 (Z.leb_le _ _)), (proj2 (Z.leb_le _ _)) by lia. cbn [andb].
    rewrite (proj2 (Nat.eqb_eq _ _)); [done|].
    pose proof (slice_length buf (a - lowest) (a - lowest + len d) ltac:(lia) ltac:(lia)) as E. unfold len in *. lia. }
  assert (len (set_range buf (a - lowest) d) = len buf) as Hn by (apply set_range_len; lia).
  destruct (IH (set_range buf (a - lowest) d)) as (buf' & -> & Hlen & Hx); [unfold rust_len; lia| |].
  { rewrite Hn. done. }
  exists buf'. split; [done|]. split; [lia|]. intros x Hlx. rewrite Hx by done.
  destruct (byte_at slices x); [done|]. rewrite set_range_lookup by lia. unfold len in *.
  destruct (Z.leb_spec a x).
  - destruct (decide _).
    + replace (Z.to_nat (x - lowest) - Z.to_nat (a - lowest))%nat with (Z.to_nat (x - a)) by lia.
      destruct (lookup_lt_is_Some_2 d (Z.to_nat (x - a))) as [b ->]; [lia|done].
    + rewrite (lookup_ge_None_2 d); [done|lia].
  - rewrite decide_False by lia. done.
Qed.

(** The bytes of the read-only section. *)
Definition section_bytes (elf_bytes : list Z) (s : Section_) : list Z :=
  match s with
  | Owned _ data => data
  | Borrowed _ byte_range => slice elf_bytes (r_start byte_range) (r_end byte_range)
  end.

(** The byte at guest address [MM_REGION_SIZE + x] of a read-only section. *)
Definition shows (elf_bytes : list Z) (s : Section_) (x b : Z) : Prop :=
  section_offset s <= MM_REGION_SIZE + x /\
  section_bytes elf_bytes s !! Z.to_nat (MM_REGION_SIZE + x - section_offset s) = Some b.

Definition section_ok (elf_bytes : list Z) (s : Section_) : Prop :=
  match s with
  | Owned _ data => len data <= len elf_bytes
  | Borrowed _ r => 0 <= r_start r <= r_end r /\ r_end r <= len elf_bytes
  end.

Lemma addr_offset_low low : 0 <= low < MM_REGION_SIZE -> addr_offset low = MM_REGION_SIZE + low.
Proof.
  unfold addr_offset. intros H. destruct (Z.leb_spec MM_REGION_SIZE low); [lia|].
  unfold saturating_add. change MM_REGION_SIZE with 4294967296 in *. lia.
Qed.

Lemma borrowed_shows elf_bytes s x b :
  scan_ok elf_bytes s -> invalid_offsets s = false -> x < MM_REGION_SIZE ->
  byte_at (ro_slices s) x = Some b ->
  shows elf_bytes (Borrowed (addr_offset (lowest_addr s)) (mkRange (lowest_addr s) (highest_addr s))) x b.
Proof.
  intros [Hsl Hlow _ _ _] Hinv Hx Hb. apply byte_at_elem in Hb as (a & d & Hin & Hr & Hb).
  destruct (proj1 (Forall_forall _ _) Hsl _ Hin) as (Ha & Hla & Hh & Hd). cbn [fst snd] in *.
  destruct (Hd Hinv) as [Ed _]. unfold shows. cbn [section_offset section_bytes r_start r_end].
  rewrite addr_offset_low by lia. split; [lia|].
  replace (MM_REGION_SIZE + x - (MM_REGION_SIZE + lowest_addr s)) with (x - lowest_addr s) by lia.
  rewrite slice_lookup by lia. rewrite Ed in Hb. rewrite slice_lookup in Hb by lia. rewrite <- Hb. f_equal. lia.
Qed.

(** Laying out the read-only sections never panics, and shows each byte of
    them. *)
Lemma parse_ro_sections_ok config sections elf_bytes :
  rust_len elf_bytes -> Forall (fun e => section_in_file elf_bytes e.2) sections ->
  exists r, parse_ro_sections config sections elf_bytes = Some r /\
  forall s, r = Ok s ->
    section_ok elf_bytes s /\ (optimize_rodata config = false -> section_offset s = MM_REGION_SIZE) /\
    (forall x b, x < MM_REGION_SIZE -> byte_at (ro_contents elf_bytes sections) x = Some b -> shows elf_bytes s x b).
Proof.
  intros Hl Hsec. unfold parse_ro_sections.
  destruct (scan_sections config elf_bytes 0 sections RoScan_start) as [s|] eqn:E; [|failed].
  destruct (scan_sections_ok _ _ _ _ _ _ Hl Hsec (scan_start_ok elf_bytes) E) as [Hs Hro]. cbn [app RoScan_start ro_slices] in Hro.
  destruct (reject_broken_elfs config && _)%bool; [failed|].
  destruct (optimize_rodata config && can_borrow s)%bool eqn:Ec.
  { apply andb_true_iff in Ec as [Eo Ec]. eexists. split; [done|]. intros s' [= <-].
    assert (invalid_offsets s = false) as Hinv by (unfold can_borrow in Ec; by destruct (invalid_offsets s)).
    split; [|split; [congruence|]].
    - destruct Hs as [_ Hlow _ Hfile [->|Hsome]]; [done|]. specialize (Hfile Hinv). cbn. lia.
    - rewrite <- Hro. intros x b. by apply borrowed_shows. }
  clear Ec. set (buf_len := if optimize_rodata config then _ else _).
  set (lowest := if optimize_rodata config then lowest_addr s else 0).
  destruct (Z.ltb_spec (len elf_bytes) buf_len); [failed|]. unfold rust_len in Hl.
  assert (0 <= buf_len /\ 0 <= lowest /\
    (Forall (fun e => lowest <= e.1 /\ e.1 - lowest + len e.2 <= buf_len) (ro_slices s))) as (Hbl & Hlo & Hfit).
  { destruct Hs as [Hsl Hlow Hhigh _ _]. unfold buf_len, lowest, saturating_sub.
    destruct (optimize_rodata config); (split; [lia|]); (split; [lia|]);
      (eapply Forall_impl; [exact Hsl|]); intros [a d] (? & ? & ? & _); cbn in *; lia. }
  assert (len (replicate (Z.to_nat buf_len) 0) = buf_len) as Hn by (unfold len; rewrite length_replicate; lia).
  destruct (copy_slices_ok lowest (ro_slices s) (replicate (Z.to_nat buf_len) 0)) as (buf & -> & Hlen & Hx);
    [unfold rust_len; lia|done|by rewrite Hn|].
  eexists. split; [done|]. intros s' [= <-]. cbn [section_ok section_offset]. split; [lia|]. split.
  - unfold lowest. by intros ->.
  - intros x b Hxr Hb. rewrite <- Hro in Hb. destruct (byte_at_elem _ _ _ Hb) as (a & d & Hin & Hr & _).
    destruct (proj1 (Forall_forall _ _) Hfit _ Hin) as [Hla _]. cbn [fst] in Hla.
    unfold shows. cbn [section_offset section_bytes]. rewrite addr_offset_low by lia. split; [lia|].
    replace (MM_REGION_SIZE + x - (MM_REGION_SIZE + lowest)) with (x - lowest) by lia.
    rewrite Hx by lia. by rewrite Hb.
Qed.

(** ** Loading *)

(** A loaded program: its text and its read-only bytes are inside the file, and
    its entry point and its functions inside the text, when there is one. *)
Record loaded_ok {C} (env : BuiltinProgram C) (file : list Z) (ex : Executable C) : Prop := {
  lo_loader : loader ex = env;
  lo_bytes : same_shape file (elf_bytes ex);
  lo_text : 0 <= r_start (text_section_range ex) <= r_end (text_section_range ex) /\
            r_end (text_section_range ex) <= len (elf_bytes ex);
  lo_entry : text_bytes ex <> [] -> 0 <= entry_pc ex /\ entry_pc ex * 8 < len (text_bytes ex);
  lo_functions : text_bytes ex <> [] -> funs_below (len (text_bytes ex)) (function_registry ex);
  lo_ro : section_ok (elf_bytes ex) (ro_section ex)
}.

Section loading.
Context {C : Type} (hash : list Z -> Z) (hash_u32 : forall name, is_u32 (hash name)).
Context (env : BuiltinProgram C) (config : Config) (Hconfig : bp_config env = Some config).
Context (file : list Z) (Hlen : rust_len file) (Hbytes : bytes file).

Lemma unrelocated_data alloc ptr : b_data (unrelocated alloc ptr file) = file.
Proof. unfold unrelocated. by destruct (memory_aligned ptr HOST_ALIGN). Qed.

(** What the guest sees of the read-only sections of a file. *)
Definition ro_visible (elf : Elf64) (ex : Executable C) : Prop :=
  forall x b, x < MM_REGION_SIZE ->
    byte_at (ro_contents (elf_bytes ex) (named_sections elf)) x = Some b ->
    shows (elf_bytes ex) (ro_section ex) x b.

(** The text range of a section that is inside the file. *)
Lemma text_range text l :
  section_in_file l text -> rust_len l ->
  let r := or_default_range (s_file_range text) in
  (0 <= r_start r <= r_end r /\ r_end r <= len l) /\
  (slice l (r_start r) (r_end r) <> [] -> len (slice l (r_start r) (r_end r)) = sh_size text).
Proof.
  intros [(_ & [Ho _] & [Hz _]) Hin] Hl. unfold s_file_range, rust_len in *.
  destruct (negb _); cbn [or_default_range r_start r_end]; [|pose proof (len_nonneg l); split; [lia|by intros []]].
  replace (saturating_add (sh_offset text) (sh_size text)) with (sh_offset text + sh_size text)
    by (unfold saturating_add; lia).
  split; [lia|]. intros _. rewrite slice_length; lia.
Qed.

Lemma lenient_ok alloc ptr :
  exists r, load_with_lenient_parser hash alloc ptr file env = Some r /\
  forall ex, r = Ok ex -> loaded_ok env file ex /\
    (forall elf, parse (unrelocated alloc ptr file) = Ok elf -> ro_visible elf ex).
Proof.
  unfold load_with_lenient_parser, parsed. set (bs := unrelocated alloc ptr file).
  destruct (parse bs) as [elf|] eqn:Ep; cbn [map_err]; [|failed]. rewrite Hconfig. cbv zeta.
  assert (elf_ok bs elf) as Hok by (apply parse_ok; [unfold bs; by rewrite unrelocated_data|done]).
  destruct (validate elf file) as [[]|] eqn:Ev; [|failed].
  destruct (get_section elf (bstr ".text")) as [text|] eqn:Et; [|failed].
  destruct (validate_ok _ _ _ (ok_sections _ _ Hok) Ev Et) as [Hfit Hentry].
  destruct (text_pc _ _ Hentry) as [He0 He1].
  destruct ((reject_broken_elfs config && _) || _)%bool; [failed|].
  destruct (relocate_ok hash hash_u32 env config Hconfig elf text bs file Hok Et Hlen Hbytes) as (r & -> & Hr).
  destruct r as [[reg l]|]; [|failed]. destruct (Hr reg l eq_refl) as [[Hll Hlb] Hf].
  destruct (negb _); [failed|].
  destruct (register_hashed hash hash_u32 env config Hconfig (unregister_function reg (hash (bstr "entrypoint")))
    (bstr "entrypoint") (saturating_sub (e_entry (file_header elf)) (sh_addr text) / INSN_SIZE)) as (r & -> & Hreg).
  destruct r as [[reg1 key]|]; [|failed]. destruct (Hreg reg1 key eq_refl) as (_ & _ & _ & _ & Hb).
  assert (rust_len l) as Hl by (unfold rust_len in *; lia).
  assert (Forall (section_in_file l) (section_header_table elf)) as Hin.
  { pose proof (ok_sections _ _ Hok) as Hsh. rewrite Forall_forall in *. intros h Hh.
    split; [by apply Hsh|]. specialize (Hfit h Hh). lia. }
  destruct (parse_ro_sections_ok config (named_sections elf) l Hl) as (r & -> & Hro).
  { apply Forall_fmap. exact Hin. }
  destruct r as [s|]; [|failed]. destruct (Hro s eq_refl) as (Hsok & Hoff & Hshow).
  assert (exists r, (if optimize_rodata config then
      if negb (checked_shr_or_0 (section_offset s) VIRTUAL_ADDRESS_BITS =? 1) then Some (Err ValueOutOfBounds)
      else Some (Ok tt)
    else if section_offset s =? MM_REGION_SIZE then Some (Ok tt) else None) = Some r) as [r ->].
  { destruct (optimize_rodata config); [destruct (negb _); by eexists|].
    rewrite Hoff, Z.eqb_refl by done. by eexists. }
  destruct r as [[]|]; [|failed]. eexists. split; [done|]. intros ex [= <-].
  split; [|intros elf' [= <-]; exact Hshow].
  apply get_section_from_elem in Et as [Hel _].
  destruct (text_range text l (proj1 (Forall_forall _ _) Hin _ Hel) Hl) as [Hrange Hsize].
  split; cbn [loader elf_bytes text_section_range entry_pc function_registry ro_section]; try done.
  - intros Hne. unfold text_bytes in *. cbn in *. rewrite Hsize by done. lia.
  - intros Hne. unfold text_bytes in *. cbn [elf_bytes text_section_range] in *. rewrite Hsize by done.
    apply Hb; [lia..|]. intros k name pc Hk. apply (Hf k name pc). unfold lookup_by_key, unregister_function in *.
    cbn in Hk. by apply lookup_delete_Some in Hk as [_ Hk].
Qed.

Lemma parse_file_header_ok bs r h :
  bytes (b_data bs) -> parse_file_header bs = Ok (r, h) -> is_u64 (e_entry h) /\ is_u 16 (e_phnum h).
Proof.
  intros Hb H. unfold parse_file_header, ok_or in H. returned.
  in_range Hr. cbn [e_entry e_phnum decode Elf64Ehdr_layout].
  split; (apply field_u; [by apply bytes_slice|done..]).
Qed.

(** A segment that the strict parser accepts. *)
Lemma strict_segment_ok elf_len h flags vaddr offset :
  phdr_ok h -> 0 <= elf_len <= i64_MAX -> strict_segment_invalid elf_len h flags vaddr offset = false ->
  p_file_range h = Some (mkRange (p_offset h) (p_offset h + p_filesz h)) /\
  p_offset h + p_filesz h <= elf_len /\ p_vaddr h = vaddr /\ p_memsz h = p_filesz h /\
  p_offset h = offset /\ p_flags h = flags.
Proof.
  intros ([Ho _] & _ & [Hf _] & _) Hl H. unfold strict_segment_invalid in H.
  repeat (apply orb_false_iff in H as [H ?]).
  repeat match goal with H : negb (_ =? _) = false |- _ => apply negb_false_iff, Z.eqb_eq in H end.
  repeat match goal with
  | H : (_ <? _) = false |- _ => apply Z.ltb_ge in H
  | H : (_ <=? _) = false |- _ => apply Z.leb_gt in H
  end.
  unfold saturating_sub in *. unfold p_file_range. rewrite H, Z.eqb_refl.
  replace (saturating_add (p_offset h) (p_filesz h)) with (p_offset h + p_filesz h)
    by (unfold saturating_add; lia).
  repeat split; lia.
Qed.

Lemma strict_entry_ok header h :
  is_u64 (e_entry header) -> phdr_ok h -> p_vaddr h = MM_BYTECODE_START -> p_memsz h < MM_REGION_SIZE ->
  strict_entry_invalid header h = false ->
  let pc := saturating_sub (e_entry header) (p_vaddr h) / INSN_SIZE in
  0 <= pc /\ pc * 8 < p_memsz h.
Proof.
  intros He (_ & _ & _ & [Hm _]) Hv Hlt H. unfold strict_entry_invalid in H.
  apply orb_false_iff in H as [Hc Hm8]. apply negb_false_iff in Hc, Hm8. apply Z.eqb_eq in Hm8.
  unfold range_contains, p_vm_range in Hc. cbn in Hc. apply andb_true_iff in Hc as [H1 H2].
  apply Z.leb_le in H1. apply Z.ltb_lt in H2. rewrite Hv in *.
  change MM_BYTECODE_START with 4294967296 in *. change MM_REGION_SIZE with 4294967296 in *.
  unfold saturating_sub, saturating_add, INSN_SIZE, is_u in *. split; Z.to_euclidean_division_equations; lia.
Qed.

Lemma slice_from_bytes_length {T} `{Layout T} bs r (l : list T) :
  slice_from_bytes bs r = Ok l -> length l = Z.to_nat (range_len r / size_of T).
Proof. unfold slice_from_bytes, ok_or. intros Hs. returned. apply decode_all_length. Qed.

Lemma strict_header_ok h stop elf_len :
  strict_header_invalid h stop elf_len = false -> e_phnum h <> 0 /\ stop <= elf_len.
Proof.
  unfold strict_header_invalid. intros H. apply orb_false_iff in H as [H Hl].
  apply orb_false_iff in H as [_ H]. apply Z.eqb_neq in H. apply Z.ltb_ge in Hl. done.
Qed.

Lemma strict_segment_size elf_len h flags vaddr offset :
  strict_segment_invalid elf_len h flags vaddr offset = false -> p_memsz h < MM_REGION_SIZE.
Proof. unfold strict_segment_invalid. intros H. apply orb_false_iff in H as [_ H]. by apply Z.leb_gt in H. Qed.

Lemma check_strict_nil elf_len table offset : check_strict_segments elf_len table [] offset = Ok tt.
Proof. by destruct table. Qed.

(** The executable of a byte code segment. *)
Lemma strict_executable header h ro_range offset :
  is_u64 (e_entry header) -> phdr_ok h -> section_ok file (Borrowed MM_RODATA_START ro_range) ->
  strict_segment_invalid (len file) h PF_X MM_BYTECODE_START offset = false ->
  strict_entry_invalid header h = false ->
  loaded_ok env file
    (mkExecutable file Reserved (Borrowed MM_RODATA_START ro_range) (p_vaddr h)
       (or_default_range (p_file_range h))
       (saturating_sub (e_entry header) (p_vaddr h) / INSN_SIZE) registry_default env).
Proof.
  intros He Hh Hro Hs Hent. pose proof (len_nonneg file) as Hl0.
  destruct (strict_segment_ok _ _ _ _ _ Hh (conj Hl0 Hlen) Hs) as (Hr & Hend & Hv & Hm & Ho & _).
  pose proof (strict_segment_size _ _ _ _ _ Hs) as Hsz.
  destruct (strict_entry_ok _ _ He Hh Hv Hsz Hent) as [Hp0 Hp1].
  destruct Hh as ([Hoff _] & _ & [Hfs _] & _). rewrite Hr.
  assert (len (slice file (p_offset h) (p_offset h + p_filesz h)) = p_filesz h) as Ht by (rewrite slice_length; lia).
  split; cbn [loader elf_bytes text_section_range entry_pc function_registry ro_section or_default_range r_start r_end];
    [done|done|lia| |intros _; apply funs_below_default|done].
  intros _. unfold text_bytes. cbn [elf_bytes text_section_range r_start r_end]. lia.
Qed.

Lemma strict_ok alloc :
  enable_symbol_and_section_labels config = false ->
  exists r, load_with_strict_parser alloc file env = Some r /\ forall ex, r = Ok ex -> loaded_ok env file ex.
Proof.
  intros Hlabels. unfold load_with_strict_parser. cbv zeta. set (bs := memory_from_slice alloc file).
  destruct (parse_file_header bs) as [[fr h]|] eqn:Ef; [|failed].
  destruct (parse_file_header_ok bs _ _ Hbytes Ef) as [He [Hp0 Hp1]].
  cbn [r_end]. set (stop := saturating_add _ (size_of Elf64Ehdr)).
  assert (stop = 56 * e_phnum h + 64) as Hstop
    by (unfold stop, saturating_add, saturating_mul; cbn [size_of Elf64Phdr_layout Elf64Ehdr_layout]; lia).
  destruct (strict_header_invalid h stop (len file)) eqn:Eh; [failed|].
  apply strict_header_ok in Eh as [Hnum Hend].
  destruct (slice_from_bytes bs _) as [table|] eqn:Et; [|failed].
  pose proof (slice_from_bytes_ok (P := phdr_ok) bs _ _ Hbytes Et) as Hphdrs.
  apply slice_from_bytes_length in Et. unfold range_len in Et. cbn [r_start r_end size_of Elf64Phdr_layout Elf64Ehdr_layout] in Et.
  rewrite Hstop, (proj2 (Z.ltb_lt _ _)) in Et by lia.
  replace (56 * e_phnum h + 64 - 64) with (e_phnum h * 56) in Et by lia. rewrite Z.div_mul in Et by lia.
  destruct table as [|h0 table]; [cbn in Et; lia|]. cbn [lookup list_lookup]. apply Forall_cons in Hphdrs as [Hh0 Hphdrs].
  rewrite Hconfig, Hlabels. destruct (Z.eqb_spec (p_flags h0) PF_R) as [Hro|Hro]; cbn [negb andb].
  - destruct (Z.ltb_spec (e_phnum h) 2); [failed|].
    destruct table as [|h1 table]; [cbn in Et; lia|]. apply Forall_cons in Hphdrs as [Hh1 _].
    cbn [check_strict_segments EXPECTED_PROGRAM_HEADERS].
    destruct (strict_segment_invalid _ h0 _ _ _) eqn:E0; [failed|].
    destruct (strict_segment_invalid _ h1 _ _ _) eqn:E1; [failed|].
    rewrite check_strict_nil.
    cbn [lookup list_lookup]. destruct (strict_entry_invalid h h1) eqn:Ee; [failed|].
    eexists. split; [done|]. intros ex [= <-]. eapply strict_executable; [done|done| |done|done].
    destruct (strict_segment_ok _ _ _ _ _ Hh0 (conj (len_nonneg file) Hlen) E0) as (-> & Hr & _).
    destruct Hh0 as ([? _] & _ & [? _] & _). cbn. lia.
  - cbn [check_strict_segments EXPECTED_PROGRAM_HEADERS drop].
    destruct (strict_segment_invalid _ h0 _ _ _) eqn:E0; [failed|].
    rewrite check_strict_nil.
    destruct (strict_entry_invalid h h0) eqn:Ee; [failed|].
    eexists. split; [done|]. intros ex [= <-]. eapply strict_executable; [done|done| |done|done]. cbn. lia.
Qed.

(** Labels are read only by the lenient parser. *)
Definition labels_lenient : Prop :=
  enable_symbol_and_section_labels config = true -> version_leb V3 (enabled_sbpf_versions config).2 = false.

Lemma version_leb_trans u v w : version_leb u v = true -> version_leb v w = true -> version_leb u w = true.
Proof. destruct u, v, w; done. Qed.

Lemma load_ok alloc ptr :
  labels_lenient ->
  exists r, load hash alloc ptr file env = Some r /\ forall ex, r = Ok ex -> loaded_ok env file ex.
Proof.
  intros Hlab. unfold load. destruct (get_slice file _) as [flags|] eqn:Eg; cbn [ok_or]; [|failed].
  apply get_slice_len in Eg; [|done]. change (len flags = 4) in Eg.
  destruct (read_le_Some 4 flags 0) as (fb & _ & -> & _); [done|lia|]. set (x := le_combine fb). rewrite Hconfig. cbv zeta.
  destruct (version_enabled config (version_of_flags x)) eqn:Ev; cbn [negb]; [|failed].
  assert (exists r, (if enable_stricter_elf_headers (version_of_flags x)
      then option_map (map_err elf_error) (load_with_strict_parser alloc file env)
      else load_with_lenient_parser hash alloc ptr file env) = Some r /\
    forall ex, r = Ok ex -> loaded_ok env file ex) as (r & -> & Hr).
  { destruct (enable_stricter_elf_headers _) eqn:Es.
    - destruct (strict_ok alloc) as (r & -> & Hr).
      { destruct (enable_symbol_and_section_labels config) eqn:El; [|done].
        apply andb_true_iff in Ev as [_ Ev]. rewrite <- (Hlab El). symmetry. by eapply version_leb_trans. }
      exists (map_err elf_error r). split; [done|]. intros ex. destruct r; [|done]. intros [= <-]. by apply Hr.
    - destruct (lenient_ok alloc ptr) as (r & -> & Hr). exists r. split; [done|]. intros ex ->. by apply Hr. }
  destruct r as [ex|]; [|failed]. eexists. split; [done|]. intros ex' [= <-].
  destruct (Hr ex eq_refl). by split.
Qed.

(** The read-only sections, through the region that the guest reads. *)
Lemma ro_region_shows (ex : Executable C) ro_ptr x b :
  0 <= ro_ptr -> ro_ptr + len (get_ro_section ex) <= u64_MAX -> len (get_ro_section ex) <= i64_MAX ->
  shows (elf_bytes ex) (ro_section ex) x b ->
  exists o, vm_to_host (get_ro_region ro_ptr ex) Load (MM_REGION_SIZE + x) 1 = Some (ro_ptr + o) /\
    get_ro_section ex !! Z.to_nat o = Some b.
Proof.
  intros H0 Hp Hl [Ho Hb]. change (section_bytes (elf_bytes ex) (ro_section ex)) with (get_ro_section ex) in Hb.
  set (o := MM_REGION_SIZE + x - section_offset (ro_section ex)) in *. exists o.
  pose proof (lookup_lt_Some _ _ _ Hb) as Hlt.
  assert (o < len (get_ro_section ex)) as Hlt' by (unfold len; lia).
  split; [|done]. unfold vm_to_host. change (vm_addr (get_ro_region ro_ptr ex)) with (section_offset (ro_section ex)).
  change (vm_gap_shift (get_ro_region ro_ptr ex)) with 63. change (host_addr (get_ro_region ro_ptr ex)) with ro_ptr.
  change (region_len (get_ro_region ro_ptr ex)) with (len (get_ro_section ex)).
  rewrite bool_decide_false by done. cbn [andb]. destruct (Z.ltb_spec (MM_REGION_SIZE + x) (section_offset (ro_section ex))); [lia|].
  replace (saturating_sub (MM_REGION_SIZE + x) (section_offset (ro_section ex))) with o by (unfold saturating_sub; lia).
  change (63 =? 63) with true. unfold checked_add. cbv iota.
  rewrite (proj2 (Z.leb_le _ _)) by lia. rewrite (proj2 (Z.leb_le _ _)) by lia.
  f_equal. unfold saturating_add. lia.
Qed.

End loading.
