(* ===== verification/ElfLoad.v ===== *)
(** The theorems of the ELF loader: a file that loads and verifies is a program
    that runs, the guest sees its read-only sections, and its relative calls
    resolve. An encoder of the headers gives the image of a program for the
    strict parser, which loading takes back to the program, and the example
    files that the theorems are applied to. *)

From Stdlib Require Import ZArith Lia Bool.
From stdpp Require Import strings pretty gmap.
From S2P Require Import Prelude.
From S2P Require Import Runtime.
From S2P Require Import SbpfTypes.
From S2P Require Import Ebpf.
From S2P Require Import MemoryRegion.
From S2P Require Import Mapping.
From S2P Require Import Verifier.
From S2P Require Import Vm.
From S2P Require Import Interp.
From S2P Require Import InterpSafe.
From S2P Require Import Meter.
From S2P Require Import Exec.
From S2P Require Import ElfParser.
From S2P Require Import Elf.
From S2P Require Import ElfSafe.

#[local] Open Scope Z_scope.

(** ** Encoding *)

Definition sbpf_ident : ElfIdent :=
  mkIdent ELFMAG ELFCLASS64 ELFDATA2LSB EV_CURRENT ELFOSABI_NONE 0 (replicate 7 0).

Definition encode_ident (i : ElfIdent) : list Z :=
  ei_mag i ++ [ei_class i; ei_data i; ei_version i; ei_osabi i; ei_abiversion i] ++ ei_pad i.

Definition encode_ehdr (h : Elf64Ehdr) : list Z :=
  encode_ident (e_ident h) ++ le_split 2 (e_type h) ++ le_split 2 (e_machine h) ++ le_split 4 (e_version h)
  ++ le_split 8 (e_entry h) ++ le_split 8 (e_phoff h) ++ le_split 8 (e_shoff h) ++ le_split 4 (e_flags h)
  ++ le_split 2 (e_ehsize h) ++ le_split 2 (e_phentsize h) ++ le_split 2 (e_phnum h)
  ++ le_split 2 (e_shentsize h) ++ le_split 2 (e_shnum h) ++ le_split 2 (e_shstrndx h).

Definition encode_phdr (h : Elf64Phdr) : list Z :=
  le_split 4 (p_type h) ++ le_split 4 (p_flags h) ++ le_split 8 (p_offset h) ++ le_split 8 (p_vaddr h)
  ++ le_split 8 (p_paddr h) ++ le_split 8 (p_filesz h) ++ le_split 8 (p_memsz h) ++ le_split 8 (p_align h).

Definition encode_shdr (h : Elf64Shdr) : list Z :=
  le_split 4 (sh_name h) ++ le_split 4 (sh_type h) ++ le_split 8 (sh_flags h) ++ le_split 8 (sh_addr h)
  ++ le_split 8 (sh_offset h) ++ le_split 8 (sh_size h) ++ le_split 4 (sh_link h) ++ le_split 4 (sh_info h)
  ++ le_split 8 (sh_addralign h) ++ le_split 8 (sh_entsize h).

Definition ehdr_range (h : Elf64Ehdr) : Prop :=
  e_ident h = sbpf_ident /\ is_u 16 (e_type h) /\ is_u 16 (e_machine h) /\ is_u32 (e_version h) /\
  is_u64 (e_entry h) /\ is_u64 (e_phoff h) /\ is_u64 (e_shoff h) /\ is_u32 (e_flags h) /\
  is_u 16 (e_ehsize h) /\ is_u 16 (e_phentsize h) /\ is_u 16 (e_phnum h) /\ is_u 16 (e_shentsize h) /\
  is_u 16 (e_shnum h) /\ is_u 16 (e_shstrndx h).

Definition phdr_range (h : Elf64Phdr) : Prop :=
  is_u32 (p_type h) /\ is_u32 (p_flags h) /\ is_u64 (p_offset h) /\ is_u64 (p_vaddr h) /\ is_u64 (p_paddr h) /\
  is_u64 (p_filesz h) /\ is_u64 (p_memsz h) /\ is_u64 (p_align h).

(** The field whose bytes are those of [x]. *)
Lemma field_split bs o n k x :
  slice bs o (o + n) = le_split k x -> is_u (8 * Z.of_nat k) x -> field bs o n = x.
Proof.
  intros E Hx. unfold field. rewrite E, le_combine_split.
  replace (256 ^ Z.of_nat k) with (2 ^ (8 * Z.of_nat k)) by (rewrite Z.pow_mul_r; [done|lia..]).
  by apply cast_u_id.
Qed.

(** A field of an encoded structure. *)
Ltac encoded := first [by apply (field_split _ _ _ 2) | by apply (field_split _ _ _ 4) | by apply (field_split _ _ _ 8)].

Lemma decode_encode_ehdr h : ehdr_range h -> decode (encode_ehdr h) = h.
Proof.
  intros (Ei & H1 & H2 & H3 & H4 & H5 & H6 & H7 & H8 & H9 & H10 & H11 & H12 & H13).
  destruct h as [ident ty machine version entry phoff shoff flags ehsize phentsize phnum shentsize shnum shstrndx].
  cbn [e_ident e_type e_machine e_version e_entry e_phoff e_shoff e_flags e_ehsize e_phentsize e_phnum
    e_shentsize e_shnum e_shstrndx] in *. subst ident.
  cbn [decode Elf64Ehdr_layout]. f_equal; encoded.
Qed.

Lemma decode_encode_phdr h : phdr_range h -> decode (encode_phdr h) = h.
Proof.
  intros (H1 & H2 & H3 & H4 & H5 & H6 & H7 & H8).
  destruct h as [ty flags offset vaddr paddr filesz memsz align].
  cbn [p_type p_flags p_offset p_vaddr p_paddr p_filesz p_memsz p_align] in *.
  cbn [decode Elf64Phdr_layout]. f_equal; encoded.
Qed.

(** ** Strict images *)

Definition strict_header (v : SBPFVersion) (pc : Z) : Elf64Ehdr :=
  mkEhdr sbpf_ident ET_DYN EM_BPF EV_CURRENT (MM_BYTECODE_START + INSN_SIZE * pc) 64 0 (version_index v) 64 56 2 0 0 0.

Definition strict_segment (flags vaddr offset size : Z) : Elf64Phdr :=
  mkPhdr PT_LOAD flags offset vaddr vaddr size size INSN_SIZE.

(** A file with read-only data and byte code, that starts at instruction [pc]. *)
Definition strict_image (v : SBPFVersion) (rodata text : list Z) (pc : Z) : list Z :=
  encode_ehdr (strict_header v pc)
  ++ (encode_phdr (strict_segment PF_R MM_RODATA_START 176 (len rodata))
      ++ encode_phdr (strict_segment PF_X MM_BYTECODE_START (176 + len rodata) (len text)))
  ++ rodata ++ text.

Lemma get_slice_app {A} (l1 l2 l3 : list A) a b :
  a = len l1 -> b = len l1 + len l2 -> get_slice (l1 ++ l2 ++ l3) (mkRange a b) = Some l2.
Proof.
  intros -> ->. unfold get_slice. cbn [r_start r_end]. rewrite !len_app.
  pose proof (len_nonneg l2). pose proof (len_nonneg l3).
  rewrite !(proj2 (Z.leb_le _ _)) by lia. cbn [andb]. f_equal. unfold slice, len.
  rewrite drop_app_length' by lia. rewrite take_app_length' by lia. done.
Qed.

(** What a program must satisfy to have an image: sizes that fit, and an entry
    point in the text. *)
Record image_ok (rodata text : list Z) (pc : Z) : Prop := {
  im_rodata : len rodata mod INSN_SIZE = 0 /\ len rodata < MM_REGION_SIZE;
  im_text : len text mod INSN_SIZE = 0 /\ len text < MM_REGION_SIZE;
  im_pc : 0 <= pc < num_insns text
}.

Lemma decode_two h0 h1 :
  decode_all (T := Elf64Phdr) (Z.to_nat 2) (encode_phdr h0 ++ encode_phdr h1) =
  [decode (encode_phdr h0); decode (encode_phdr h1)].
Proof. done. Qed.

Section image.
Context (v : SBPFVersion) (Hv : v = V3 \/ v = V4) (rodata text : list Z) (pc : Z) (Hok : image_ok rodata text pc).

Abbreviation file := (strict_image v rodata text pc).

Lemma image_len : len file = 176 + len rodata + len text.
Proof.
  unfold strict_image. rewrite !len_app.
  change (len (encode_ehdr _)) with 64. change (len (encode_phdr _)) with 56. lia.
Qed.

Lemma image_bounds : 0 <= pc /\ 8 * pc + 8 <= len text /\ 0 <= len rodata < 4294967296 /\ len text < 4294967296 /\
  len rodata mod 8 = 0 /\ len text mod 8 = 0.
Proof.
  destruct Hok as [[? ?] [? ?] ?]. pose proof (len_nonneg rodata). pose proof (len_nonneg text).
  change MM_REGION_SIZE with 4294967296 in *. unfold num_insns, INSN_SIZE in *.
  repeat split; try lia. Z.to_euclidean_division_equations; lia.
Qed.

Lemma image_header alloc :
  alloc mod HOST_ALIGN = 0 ->
  parse_file_header (memory_from_slice alloc file) = Ok (mkRange 0 64, strict_header v pc).
Proof.
  intros Ha. unfold parse_file_header. change (b_data (memory_from_slice alloc file)) with file.
  change (size_of Elf64Ehdr) with 64.
  assert (get_slice file (mkRange 0 64) = Some (encode_ehdr (strict_header v pc))) as ->.
  { apply (get_slice_app [] (encode_ehdr (strict_header v pc))); done. }
  cbn [ok_or]. change (b_ptr (memory_from_slice alloc file)) with alloc. change (align_of Elf64Ehdr) with 8.
  unfold HOST_ALIGN in Ha. replace (alloc mod 8) with 0 by (Z.to_euclidean_division_equations; lia).
  rewrite decode_encode_ehdr; [done|]. pose proof image_bounds.
  unfold strict_header. repeat split; try done; cbn; change MM_BYTECODE_START with 4294967296; unfold INSN_SIZE; try lia.
  all: by destruct Hv as [->| ->].
Qed.

Lemma image_segments alloc :
  alloc mod HOST_ALIGN = 0 ->
  slice_from_bytes (memory_from_slice alloc file) (mkRange 64 176) =
  Ok [strict_segment PF_R MM_RODATA_START 176 (len rodata);
      strict_segment PF_X MM_BYTECODE_START (176 + len rodata) (len text)].
Proof.
  intros Ha. unfold slice_from_bytes. change (b_data (memory_from_slice alloc file)) with file.
  change (negb (range_len (mkRange 64 176) mod size_of Elf64Phdr =? 0)) with false. cbv iota.
  unfold strict_image. rewrite get_slice_app by done. cbn [ok_or].
  change (align_of Elf64Phdr) with 8. cbn [r_start]. unfold HOST_ALIGN in Ha.
  change (b_ptr _) with alloc.
  replace ((alloc + 64) mod 8) with 0 by (Z.to_euclidean_division_equations; lia).
  change (range_len (mkRange 64 176) / size_of Elf64Phdr) with 2.
  change (negb (0 =? 0)) with false. cbv iota. f_equal. pose proof image_bounds.
  rewrite decode_two.
  assert (forall f va o n, is_u32 f -> is_u64 va -> is_u64 o -> is_u64 n -> phdr_range (strict_segment f va o n)) as Hr
    by (intros; repeat match goal with |- _ /\ _ => split end; done).
  rewrite !decode_encode_phdr; [done|apply Hr..]; try done; unfold is_u; lia.
Qed.

Lemma image_flags : get_slice file (mkRange 48 52) = Some (le_split 4 (version_index v)).
Proof.
  unfold strict_image.
  change (encode_ehdr (strict_header v pc)) with
    (take 48 (encode_ehdr (strict_header v pc)) ++ le_split 4 (version_index v) ++ drop 52 (encode_ehdr (strict_header v pc))).
  rewrite <- !(app_assoc (take 48 _)), <- !(app_assoc (le_split 4 _)). apply get_slice_app; done.
Qed.

(** Neither header is rejected. *)
Lemma segment_accepted flags vaddr offset size :
  offset mod 8 = 0 -> size mod 8 = 0 -> 0 <= size < 4294967296 -> 0 <= offset < len file ->
  offset + size <= len file ->
  strict_segment_invalid (len file) (strict_segment flags vaddr offset size) flags vaddr offset = false.
Proof.
  intros H1 H2 H3 H4 H5. unfold strict_segment_invalid, strict_segment.
  cbn [p_type p_flags p_offset p_vaddr p_paddr p_filesz p_memsz]. rewrite !Z.eqb_refl.
  change MM_REGION_SIZE with 4294967296. unfold saturating_sub, INSN_SIZE. rewrite H1, H2, !Z.eqb_refl. cbn [negb orb].
  rewrite !(proj2 (Z.leb_gt _ _)), (proj2 (Z.ltb_ge _ _)) by lia. done.
Qed.

Lemma entry_accepted offset :
  strict_entry_invalid (strict_header v pc) (strict_segment PF_X MM_BYTECODE_START offset (len text)) = false.
Proof.
  pose proof image_bounds. unfold strict_entry_invalid, range_contains, p_vm_range, strict_segment, strict_header.
  cbn [e_entry p_vaddr p_memsz r_start r_end]. change MM_BYTECODE_START with 4294967296.
  unfold saturating_sub, saturating_add, INSN_SIZE.
  rewrite (proj2 (Z.leb_le _ _)), (proj2 (Z.ltb_lt _ _)) by lia.
  replace ((4294967296 + 8 * pc) mod 8) with 0 by (Z.to_euclidean_division_equations; lia). done.
Qed.

Lemma image_loads {C} (env : BuiltinProgram C) (config : Config) alloc :
  bp_config env = Some config -> enable_symbol_and_section_labels config = false -> alloc mod HOST_ALIGN = 0 ->
  load_with_strict_parser alloc file env =
  Some (Ok (mkExecutable file Reserved (Borrowed MM_RODATA_START (mkRange 176 (176 + len rodata))) MM_BYTECODE_START
    (mkRange (176 + len rodata) (176 + len rodata + len text)) pc registry_default env)).
Proof.
  intros Hc Hlab Ha. pose proof image_bounds as Hb. pose proof image_len as Hlen.
  unfold load_with_strict_parser. rewrite image_header by done. cbv zeta.
  change (saturating_add (saturating_mul (size_of Elf64Phdr) (e_phnum (strict_header v pc))) (size_of Elf64Ehdr)) with 176.
  change (size_of Elf64Ehdr) with 64. cbn [r_end].
  change (strict_header_invalid (strict_header v pc) 176 (len file)) with (len file <? 176).
  rewrite (proj2 (Z.ltb_ge _ _)) by lia. rewrite image_segments by done.
  cbn [lookup list_lookup]. change (negb (p_flags (strict_segment PF_R _ _ _) =? PF_R)) with false.
  change (e_phnum (strict_header v pc) <? 2) with false. cbn [negb andb check_strict_segments EXPECTED_PROGRAM_HEADERS].
  rewrite segment_accepted; [|done|lia..].
  replace (saturating_add 176 (p_filesz (strict_segment PF_R MM_RODATA_START 176 (len rodata)))) with (176 + len rodata)
    by (cbn; unfold saturating_add; lia).
  rewrite segment_accepted; [|Z.to_euclidean_division_equations; lia|lia..].
  rewrite entry_accepted, Hc, Hlab.
  change (p_file_range (strict_segment ?f ?va ?o ?n)) with (Some (mkRange o (saturating_add o n))).
  cbn [or_default_range].
  replace (saturating_add 176 (len rodata)) with (176 + len rodata) by (unfold saturating_add; lia).
  replace (saturating_add (176 + len rodata) (len text)) with (176 + len rodata + len text)
    by (unfold saturating_add; lia).
  do 3 f_equal. change (p_vaddr _) with MM_BYTECODE_START. unfold strict_header, INSN_SIZE. cbn [e_entry]. change MM_BYTECODE_START with 4294967296.
  unfold saturating_sub. Z.to_euclidean_division_equations; lia.
Qed.

End image.

(** Loading gives back what an image was made of. For every program of a
    strict version (read-only data, byte code and entry point of admissible
    sizes), loading its image succeeds, and the executable has that text, those
    read-only bytes, that entry point and version, at the addresses of the
    format. *)
Theorem strict_image_loads {C} (hash : list Z -> Z) (env : BuiltinProgram C) (config : Config)
    (v : SBPFVersion) (rodata text : list Z) (pc alloc ptr : Z) :
  v = V3 \/ v = V4 -> image_ok rodata text pc -> alloc mod HOST_ALIGN = 0 ->
  bp_config env = Some config -> enable_symbol_and_section_labels config = false ->
  version_enabled config v = true ->
  exists ex, load hash alloc ptr (strict_image v rodata text pc) env = Some (Ok ex) /\
    text_bytes ex = text /\ get_ro_section ex = rodata /\ entry_pc ex = pc /\ sbpf_version ex = v /\
    text_section_vaddr ex = MM_BYTECODE_START /\ section_offset (ro_section ex) = MM_RODATA_START.
Proof.
  intros Hv Hok Ha Hc Hlab Hen. unfold load. change (mkRange E_FLAGS_OFFSET _) with (mkRange 48 52).
  rewrite image_flags. cbn [ok_or].
  assert (read_le 4 (le_split 4 (version_index v)) 0 = Some (version_index v)) as -> by (by destruct Hv as [->| ->]).
  rewrite Hc. cbv zeta.
  assert (version_of_flags (version_index v) = v /\ enable_stricter_elf_headers v = true) as [-> ->]
    by (by destruct Hv as [->| ->]).
  rewrite Hen. cbn [negb]. rewrite (image_loads v Hv rodata text pc Hok env config) by done. cbn [option_map map_err].
  eexists. split; [done|]. pose proof (len_nonneg rodata). pose proof (len_nonneg text).
  unfold text_bytes, get_ro_section, set_sbpf_version.
  cbn [elf_bytes text_section_range ro_section r_start r_end entry_pc sbpf_version text_section_vaddr section_offset].
  assert (forall l1 l2 l3 : list Z, slice (l1 ++ l2 ++ l3) (len l1) (len l1 + len l2) = l2) as Hslice.
  { intros. unfold slice, len. rewrite drop_app_length' by lia. rewrite take_app_length' by lia. done. }
  unfold strict_image. set (p := _ ++ encode_phdr _).
  assert (len (encode_ehdr (strict_header v pc) ++ p) = 176) as Hp by done.
  split; [|split; [|done]].
  - pose proof (Hslice ((encode_ehdr (strict_header v pc) ++ p) ++ rodata) text []) as E.
    rewrite len_app, Hp in E. by rewrite app_nil_r, <- !app_assoc in E.
  - pose proof (Hslice (encode_ehdr (strict_header v pc) ++ p) rodata text) as E. rewrite Hp in E.
    by rewrite <- app_assoc in E.
Qed.

(** ** Theorems *)

Section loading.
Context {C : Type} `{HO : ContextObject C, Inv : ContextInvariant C, Laws : !ContextLaws C}.
Context (hash : list Z -> Z) (env : BuiltinProgram C) (config : Config) (file : list Z) (alloc ptr : Z).
Context (Hhash : forall name, is_u32 (hash name)) (Hconfig : bp_config env = Some config) (Hlabels : labels_lenient config).
Context (Hdepth : 1 <= max_call_depth config < 2 ^ 63).
Context (Hlen : rust_len file) (Hbytes : bytes file).

Lemma loaded_executable :
  (forall key name f, lookup_by_key (sparse_registry env) key = Some (name, f) -> BuiltinOk config f) ->
  exists r, new_internal hash alloc ptr file env false = Some r /\
  forall ex, r = Ok ex ->
    loader ex = env /\ executable_ok ex config /\ 0 <= entry_pc ex < num_insns (text_bytes ex) /\
    (forall key name pc, lookup_by_key (function_registry ex) key = Some (name, pc) ->
       0 <= pc < num_insns (text_bytes ex)).
Proof using Hhash Hconfig Hlabels Hdepth Hlen Hbytes.
  intros Hbuiltins. unfold new_internal.
  destruct (load_ok hash Hhash env config Hconfig file Hlen Hbytes alloc ptr Hlabels) as (r & -> & Hr).
  destruct r as [ex|]; cbn [option_map map_err negb]; [|failed].
  destruct (Hr ex eq_refl) as [Hld [Hel Heb] Htx Hen Hfu Hro].
  assert (get_text_bytes ex = Some (text_section_vaddr ex, text_bytes ex)) as Hget.
  { unfold get_text_bytes, get_slice, text_bytes. by rewrite !(proj2 (Z.leb_le _ _)) by lia. }
  assert (rust_len (text_bytes ex)) as Hlt.
  { unfold text_bytes, rust_len in *. rewrite slice_length; lia. }
  unfold executable_verify. rewrite Hget. destruct (verify_total (text_bytes ex) (sbpf_version ex) Hlt) as [v Ev].
  rewrite Ev. destruct v as [[]|]; cbn [map_err]; [|failed]. eexists. split; [done|]. intros ex' [= <-].
  destruct (verify_slots _ _ Hlt Ev) as (Hmul & Hpos & _).
  assert (text_bytes ex <> []) as Hne by (intros E; rewrite E in Hpos; by vm_compute in Hpos).
  assert (forall pc, 0 <= pc /\ pc * 8 < len (text_bytes ex) -> 0 <= pc < num_insns (text_bytes ex)) as Hin
    by (unfold INSN_SIZE in Hmul; lia).
  split; [done|]. split; [|split; [by apply Hin, Hen|intros key name pc Hk; by apply Hin, (Hfu Hne key name pc)]].
  split; [by unfold get_config; rewrite Hld|done|by apply bytes_slice|done|done| |].
  - intros key name pc Hk. apply (Hfu Hne) in Hk. unfold is_u, rust_len in *. lia.
  - rewrite Hld. intros key name f Hf. by apply (Hbuiltins key name f).
Qed.
End loading.



(** Calls relative to the program counter survive relocation. After the
    first pass over the text, every instruction is as it was, except that a
    call with a relative target carries a key; the key resolves to that target,
    which is an instruction of the text, and no builtin answers to it. *)
Theorem relative_calls_resolved {C} (hash : list Z -> Z) (env : BuiltinProgram C) (config : Config)
    (reg reg' : FunctionRegistry Z) (text text' : list Z) (i : Z) (insn : Insn) :
  (forall name, is_u32 (hash name)) -> bp_config env = Some config -> rust_len text -> bytes text ->
  relocate_calls hash config env (num_insns text) (Z.to_nat (num_insns text)) 0 reg text = Some (Ok (reg', text')) ->
  0 <= i < num_insns text -> get_insn text i = Some insn ->
  exists insn', get_insn text' i = Some insn' /\
  if decide (opc insn = CALL_IMM /\ imm insn <> -1) then
    insn' = with_imm insn (imm insn') /\
    0 <= i + 1 + imm insn < num_insns text /\
    lookup_by_key (sparse_registry env) (as_u32 (imm insn')) = None /\
    exists name, lookup_by_key reg' (as_u32 (imm insn')) = Some (name, i + 1 + imm insn)
  else insn' = insn.
Proof.
  intros Hh Hconfig Hl Hb Hrel Hi Hg.
  destruct (relocate_calls_ok hash Hh env config Hconfig (Z.to_nat (num_insns text)) 0 reg text Hl Hb) as (r & E & Hr);
    [lia..|].
  rewrite Hrel in E. injection E as <-. destruct (Hr reg' text' eq_refl) as (_ & _ & _ & _ & Hres).
  apply (Hres i insn); [lia|done].
Qed.

(** ** Examples *)

Definition example_hash (name : list Z) : Z := as_u32 (le_combine name).

Lemma example_hash_u32 name : is_u32 (example_hash name).
Proof. apply cast_u_range. lia. Qed.

(** Returns five. *)
Definition example_five : list Z := concat (map to_array [mkInsn 0 MOV64_IMM 0 0 0 5; mkInsn 0 EXIT 0 0 0 0]).

Definition example_strict_file : list Z := strict_image V3 [1; 2; 3; 4; 5; 6; 7; 8] example_five 0.

Lemma strict_image_loads_witness :
  exists ex, load example_hash 0x10000 0x20000 example_strict_file example_loader = Some (Ok ex) /\
    text_bytes ex = example_five /\ get_ro_section ex = [1; 2; 3; 4; 5; 6; 7; 8].
Proof.
  destruct (strict_image_loads example_hash example_loader example_config V3 [1; 2; 3; 4; 5; 6; 7; 8] example_five 0
    0x10000 0x20000 ltac:(by left) ltac:(by split; vm_compute) eq_refl eq_refl eq_refl eq_refl)
    as (ex & E & Ht & Hr & _). exists ex. split; [exact E|]. split; [exact Ht|exact Hr].
Defined.

Lemma example_builtins key name f :
  lookup_by_key (sparse_registry example_loader) key = Some (name, f) ->
  BuiltinOk example_config f /\ BuiltinMetered f.
Proof.
  intros Hf. apply (example_registry key name) in Hf as ->.
  split; [apply builtin_vm_ok, example_rust_ok|apply builtin_vm_metered; [done|exact example_rust_metered]].
Qed.


(** A call of the next instruction, then the exit; read-only data; section
    names. *)
Definition example_call_text : list Z := concat (map to_array [mkInsn 0 CALL_IMM 0 0 0 0; mkInsn 0 EXIT 0 0 0 0]).

Definition example_names : list Z := [0] ++ bstr ".text" ++ [0] ++ bstr ".rodata" ++ [0] ++ bstr ".shstrtab" ++ [0].

Definition example_lenient_file : list Z :=
  encode_ehdr (mkEhdr sbpf_ident ET_DYN EM_BPF EV_CURRENT 64 0 120 0 64 56 0 64 4 3)
  ++ example_call_text ++ [11; 12; 13; 14; 15; 16; 17; 18] ++ example_names ++ replicate 7 0
  ++ encode_shdr (mkShdr 0 SHT_NULL 0 0 0 0 0 0 0 0)
  ++ encode_shdr (mkShdr 1 1 0 64 64 16 0 0 0 0)
  ++ encode_shdr (mkShdr 7 1 0 80 80 8 0 0 0 0)
  ++ encode_shdr (mkShdr 15 SHT_STRTAB 0 0 88 25 0 0 0 0).

Lemma example_lenient_loads :
  match load_with_lenient_parser example_hash 0x10000 0x20008 example_lenient_file example_loader,
        parse (unrelocated 0x10000 0x20008 example_lenient_file) with
  | Some (Ok ex), Ok elf =>
      byte_at (ro_contents (elf_bytes ex) (named_sections elf)) 82 = Some 13 /\
      get_insn (text_bytes ex) 0 = Some (mkInsn 0 CALL_IMM 0 0 0 1)
  | _, _ => False
  end.
Proof. by vm_compute. Qed.


Lemma relative_calls_resolved_witness :
  exists reg' text' insn',
    relocate_calls example_hash example_config example_loader (num_insns example_call_text)
      (Z.to_nat (num_insns example_call_text)) 0 registry_default example_call_text = Some (Ok (reg', text')) /\
    get_insn text' 0 = Some insn' /\
    exists name, lookup_by_key reg' (as_u32 (imm insn')) = Some (name, 1).
Proof.
  assert (rust_len example_call_text) as Hl by by vm_compute.
  assert (bytes example_call_text) as Hb by (vm_compute; repeat constructor; discriminate).
  assert (0 <= 0 < num_insns example_call_text) as Hi by by vm_compute.
  assert (get_insn example_call_text 0 = Some (mkInsn 0 CALL_IMM 0 0 0 0)) as Hg0 by by vm_compute.
  assert (bp_config example_loader = Some example_config) as Hc by reflexivity.
  destruct (relocate_calls example_hash example_config example_loader (num_insns example_call_text)
    (Z.to_nat (num_insns example_call_text)) 0 registry_default example_call_text)
    as [[[reg' text']|]|] eqn:E; [|vm_compute in E; discriminate..].
  destruct (relative_calls_resolved example_hash example_loader example_config registry_default reg'
    example_call_text text' 0 (mkInsn 0 CALL_IMM 0 0 0 0) example_hash_u32 Hc Hl Hb E Hi Hg0)
    as (insn' & Hg & Hres). exists reg', text', insn'. split; [reflexivity|]. split; [exact Hg|].
  clear E. rewrite decide_True in Hres by done. destruct Hres as (_ & _ & _ & H). exact H.
Defined.
