(* ===== verification/SyscallTable.v ===== *)
(** The environment in which programs run: which syscalls are registered under which names and
    features, and the configuration of the machine (create_program_runtime_environment_v1 and _v2
    of agave/syscalls/src/lib.rs).

    The hash of names is a parameter, and so is cross-program invocation, whose two syscalls run
    other programs. Function pointers are compared by name of the syscall. *)

From Stdlib Require Import ZArith Lia Bool.
From stdpp Require Import strings.
From S2P Require Import Prelude.
From S2P Require Import SbpfTypes.
From S2P Require Import MemoryRegion.
From S2P Require Import Mapping.
From S2P Require Import Vm.
From S2P Require Import ElfParser.
From S2P Require Import TxAccounts.
From S2P Require Import InvokeContext.
From S2P Require Import ExecutionCost.
From S2P Require Import SysvarCache.
From S2P Require Import Features.
From S2P Require Import MemOps.
From S2P Require Import Syscalls.
From S2P Require Import CurveSyscalls.

#[local] Open Scope Z_scope.

(** The syscalls whose bodies are modelled, and all of them. *)
Inductive PlainSyscall :=
| CallAbort | CallPanic | CallLog | CallLogU64 | CallLogPubkey | CallLogComputeUnits | CallLogData
| CallCreateProgramAddress | CallTryFindProgramAddress
| CallHash (h : Hasher) | CallSecp256k1Recover
| CallCurveValidate | CallCurveGroupOps | CallCurveMultiscalar | CallCurveDecompress | CallCurvePairing
| CallGetSysvarOf (v : Sysvar) | CallGetSysvar
| CallMem (op : MemOp)
| CallSibling | CallStackHeight | CallSetReturnData | CallGetReturnData
| CallAllocFree | CallAltBn128 | CallBigModExp | CallPoseidon | CallRemainingComputeUnits
| CallAltBn128Compression | CallGetEpochStake.

Inductive Syscall := Plain (call : PlainSyscall) | CallInvokeSignedC | CallInvokeSignedRust.

Coercion Plain : PlainSyscall >-> Syscall.

#[export] Instance PlainSyscall_eq_dec : EqDecision PlainSyscall.
Proof. solve_decision. Defined.

#[export] Instance Syscall_eq_dec : EqDecision Syscall.
Proof. solve_decision. Defined.

Section table.
Variable env : SyscallEnvironment.
Variable curves : CurveEnvironment.
Variable hash_symbol_name : list Z -> Z.
Variables invoke_signed_c invoke_signed_rust : RustBuiltin InvokeContext.

(** ** Dispatch *)

Definition syscall_body (call : PlainSyscall) (a1 a2 a3 a4 a5 : Z) : SysM Z :=
  match call with
  | CallAbort => SyscallAbort
  | CallPanic => SyscallPanic env a1 a2 a3 a4
  | CallLog => SyscallLog env a1 a2
  | CallLogU64 => SyscallLogU64 env a1 a2 a3 a4 a5
  | CallLogPubkey => SyscallLogPubkey env a1
  | CallLogComputeUnits => SyscallLogBpfComputeUnits env
  | CallLogData => SyscallLogData env a1 a2
  | CallCreateProgramAddress => SyscallCreateProgramAddress env a1 a2 a3 a4
  | CallTryFindProgramAddress => SyscallTryFindProgramAddress env a1 a2 a3 a4 a5
  | CallHash h => SyscallHash env h a1 a2 a3
  | CallSecp256k1Recover => SyscallSecp256k1Recover env a1 a2 a3 a4
  | CallCurveValidate => SyscallCurvePointValidation env curves a1 a2
  | CallCurveGroupOps => SyscallCurveGroupOps env curves a1 a2 a3 a4 a5
  | CallCurveMultiscalar => SyscallCurveMultiscalarMultiplication env curves a1 a2 a3 a4 a5
  | CallCurveDecompress => SyscallCurveDecompress env curves a1 a2 a3
  | CallCurvePairing => SyscallCurvePairingMap env curves a1 a2 a3 a4 a5
  | CallGetSysvarOf v => get_sysvar env v a1
  | CallGetSysvar => SyscallGetSysvar env a1 a2 a3 a4
  | CallMem op => sys_mem env op a1 a2 a3 a4
  | CallSibling => SyscallGetProcessedSiblingInstruction env a1 a2 a3 a4 a5
  | CallStackHeight => SyscallGetStackHeight env
  | CallSetReturnData => SyscallSetReturnData env a1 a2
  | CallGetReturnData => SyscallGetReturnData env a1 a2 a3
  | CallAllocFree => SyscallAllocFree env a1 a2
  | CallAltBn128 => SyscallAltBn128 env curves a1 a2 a3 a4
  | CallBigModExp => SyscallBigModExp env a1 a2
  | CallPoseidon => SyscallPoseidon env curves a1 a2 a3 a4 a5
  | CallRemainingComputeUnits => SyscallRemainingComputeUnits env
  | CallAltBn128Compression => SyscallAltBn128Compression env curves a1 a2 a3 a4
  | CallGetEpochStake => SyscallGetEpochStake env a1
  end.

(** The Rust half of a builtin, without a log. Arguments are registers. A panic ends the process,
    which no builtin survives; as a value it is an error. *)
Definition rust_of (body : Z -> Z -> Z -> Z -> Z -> SysM Z) : RustBuiltin InvokeContext :=
  fun ic a1 a2 a3 a4 a5 m host =>
    match body (as_u64 a1) (as_u64 a2) (as_u64 a3) (as_u64 a4) (as_u64 a5) (mkSysState ic m host None) with
    | Some (s, r) => (sys_context s, sys_mapping s, sys_host s, r)
    | None => (ic, m, host, Err (BoxOther "panic"))
    end.

Definition syscall_rust (call : Syscall) : RustBuiltin InvokeContext :=
  match call with
  | CallInvokeSignedC => invoke_signed_c
  | CallInvokeSignedRust => invoke_signed_rust
  | Plain call => rust_of (syscall_body call)
  end.

(** ** Registration *)

(** [register_feature_gated_function!] and [register_function]. *)
Definition gated (is_feature_active : bool) (name : string) (call : Syscall) : bool * string * Syscall :=
  (is_feature_active, name, call).
Definition always : string -> Syscall -> bool * string * Syscall := gated true.

(** In the order of the source. *)
Definition registrations (feature_set : FeatureSet) (reject_deployment_of_broken_elfs : bool)
    : list (bool * string * Syscall) :=
  let disable_deploy_of_alloc_free_syscall :=
    reject_deployment_of_broken_elfs && disable_deploy_of_alloc_free_syscall feature_set in
  [ always "abort" CallAbort;
    always "sol_panic_" CallPanic;
    always "sol_log_" CallLog;
    always "sol_log_64_" CallLogU64;
    always "sol_log_pubkey" CallLogPubkey;
    always "sol_log_compute_units_" CallLogComputeUnits;
    always "sol_create_program_address" CallCreateProgramAddress;
    always "sol_try_find_program_address" CallTryFindProgramAddress;
    always "sol_sha256" (CallHash Sha256Hasher);
    always "sol_keccak256" (CallHash Keccak256Hasher);
    always "sol_secp256k1_recover" CallSecp256k1Recover;
    gated (blake3_syscall_enabled feature_set) "sol_blake3" (CallHash Blake3Hasher);
    gated (curve25519_syscall_enabled feature_set) "sol_curve_validate_point" CallCurveValidate;
    gated (curve25519_syscall_enabled feature_set) "sol_curve_group_op" CallCurveGroupOps;
    gated (curve25519_syscall_enabled feature_set) "sol_curve_multiscalar_mul" CallCurveMultiscalar;
    gated (enable_bls12_381_syscall feature_set) "sol_curve_decompress" CallCurveDecompress;
    gated (enable_bls12_381_syscall feature_set) "sol_curve_pairing_map" CallCurvePairing;
    always "sol_get_clock_sysvar" (CallGetSysvarOf Clock);
    always "sol_get_epoch_schedule_sysvar" (CallGetSysvarOf EpochSchedule);
    gated (negb (disable_fees_sysvar feature_set)) "sol_get_fees_sysvar" (CallGetSysvarOf Fees);
    always "sol_get_rent_sysvar" (CallGetSysvarOf Rent);
    gated (last_restart_slot_sysvar feature_set) "sol_get_last_restart_slot" (CallGetSysvarOf LastRestartSlot);
    always "sol_get_epoch_rewards_sysvar" (CallGetSysvarOf EpochRewards);
    always "sol_memcpy_" (CallMem Memcpy);
    always "sol_memmove_" (CallMem Memmove);
    always "sol_memset_" (CallMem Memset);
    always "sol_memcmp_" (CallMem Memcmp);
    always "sol_get_processed_sibling_instruction" CallSibling;
    always "sol_get_stack_height" CallStackHeight;
    always "sol_set_return_data" CallSetReturnData;
    always "sol_get_return_data" CallGetReturnData;
    always "sol_invoke_signed_c" CallInvokeSignedC;
    always "sol_invoke_signed_rust" CallInvokeSignedRust;
    gated (negb disable_deploy_of_alloc_free_syscall) "sol_alloc_free_" CallAllocFree;
    gated (enable_alt_bn128_syscall feature_set) "sol_alt_bn128_group_op" CallAltBn128;
    gated (enable_big_mod_exp_syscall feature_set) "sol_big_mod_exp" CallBigModExp;
    gated (enable_poseidon_syscall feature_set) "sol_poseidon" CallPoseidon;
    gated (remaining_compute_units_syscall_enabled feature_set) "sol_remaining_compute_units" CallRemainingComputeUnits;
    gated (enable_alt_bn128_compression_syscall feature_set) "sol_alt_bn128_compression" CallAltBn128Compression;
    gated (get_sysvar_syscall_enabled feature_set) "sol_get_sysvar" CallGetSysvar;
    gated (enable_get_epoch_stake_syscall feature_set) "sol_get_epoch_stake" CallGetEpochStake;
    always "sol_log_data" CallLogData ].

Fixpoint register_all (l : list (bool * string * Syscall)) (reg : FunctionRegistry Syscall)
    : Result (FunctionRegistry Syscall) ElfError :=
  match l with
  | [] => Ok reg
  | (is_feature_active, name, call) :: l =>
      let? reg :=
        (if is_feature_active : bool then register_function reg (hash_symbol_name (bstr name)) (bstr name) call
         else Ok reg) in
      register_all l reg
  end.

Definition min_sbpf_version (f : FeatureSet) : SBPFVersion :=
  if negb (disable_sbpf_v0_execution f) || reenable_sbpf_v0_execution f then V0 else V3.
Definition max_sbpf_version (f : FeatureSet) : SBPFVersion :=
  if enable_sbpf_v3_deployment_and_execution f then V3
  else if enable_sbpf_v2_deployment_and_execution f then V2
  else if enable_sbpf_v1_deployment_and_execution f then V1
  else V0.

Definition runtime_config (f : FeatureSet) (max_call_depth stack_frame_size : Z)
    (reject_deployment_of_broken_elfs debugging_features : bool) : Config := {|
  max_call_depth := max_call_depth;
  stack_frame_size := stack_frame_size;
  enable_address_translation := true;
  enable_stack_frame_gaps := true;
  instruction_meter_checkpoint_distance := 10000;
  enable_instruction_meter := true;
  enable_register_tracing := debugging_features;
  enable_symbol_and_section_labels := debugging_features;
  reject_broken_elfs := reject_deployment_of_broken_elfs;
  noop_instruction_rate := 256;
  sanitize_user_provided_values := true;
  enabled_sbpf_versions := (min_sbpf_version f, max_sbpf_version f);
  optimize_rodata := false;
  aligned_memory_mapping := negb (stricter_abi_and_runtime_constraints f);
  allow_memory_region_zero := enable_sbpf_v3_deployment_and_execution f
|}.

(** The functions behind the registered syscalls. *)
Definition builtins_of (config : Config) (reg : FunctionRegistry Syscall)
    : FunctionRegistry (BuiltinFunction InvokeContext) :=
  mkRegistry ((fun e => (e.1, builtin_vm config (syscall_rust e.2))) <$> fr_map reg).

Definition create_program_runtime_environment_v1 (feature_set : FeatureSet) (max_call_depth stack_frame_size : Z)
    (reject_deployment_of_broken_elfs debugging_features : bool)
    : option (Result (BuiltinProgram InvokeContext) ElfError) :=
  if version_index (max_sbpf_version feature_set) <? version_index (min_sbpf_version feature_set) then None
  else
    let config :=
      runtime_config feature_set max_call_depth stack_frame_size reject_deployment_of_broken_elfs debugging_features in
    Some (let? reg := register_all (registrations feature_set reject_deployment_of_broken_elfs) registry_default in
          Ok (mkBuiltinProgram (Some config) (builtins_of config reg))).

Definition create_program_runtime_environment_v2 (max_call_depth stack_frame_size : Z) (debugging_features : bool)
    : BuiltinProgram InvokeContext :=
  new_loader {|
    max_call_depth := max_call_depth;
    stack_frame_size := stack_frame_size;
    enable_address_translation := true;
    enable_stack_frame_gaps := false;
    instruction_meter_checkpoint_distance := 10000;
    enable_instruction_meter := true;
    enable_register_tracing := debugging_features;
    enable_symbol_and_section_labels := debugging_features;
    reject_broken_elfs := true;
    noop_instruction_rate := 256;
    sanitize_user_provided_values := true;
    enabled_sbpf_versions := (Reserved, Reserved);
    optimize_rodata := true;
    aligned_memory_mapping := true;
    allow_memory_region_zero := true
  |}.

End table.
