(* ===== verification/SyscallRuns.v ===== *)
(** Programs that call syscalls: every registered function is a builtin that the machine can call,
    so that what holds of whole executions holds in the environment the runtime creates. *)

From Stdlib Require Import ZArith Lia Bool.
From stdpp Require Import strings.
From S2P Require Import Prelude.
From S2P Require Import SbpfTypes.
From S2P Require Import Ebpf.
From S2P Require Import Tracker.
From S2P Require Import MemoryRegion.
From S2P Require Import Mapping.
From S2P Require Import MappingSafe.
From S2P Require Import Vm.
From S2P Require Import Interp.
From S2P Require Import InterpSafe.
From S2P Require Import Meter.
From S2P Require Import Exec.
From S2P Require Import Detect.
From S2P Require Import TxAccounts.
From S2P Require Import TxContext.
From S2P Require Import TxSafe.
From S2P Require Import InvokeContext.
From S2P Require Import InvokeSafe.
From S2P Require Import ExecutionCost.
From S2P Require Import SysvarCache.
From S2P Require Import Features.
From S2P Require Import MemOps.
From S2P Require Import MemOpsSafe.
From S2P Require Import Syscalls.
From S2P Require Import CurveSyscalls.
From S2P Require Import SyscallLaws.
From S2P Require Import SyscallsTrace.
From S2P Require Import SyscallsSafe.
From S2P Require Import SyscallSpecs.
From S2P Require Import ElfParser.
From S2P Require Import Elf.
From S2P Require Import ElfSafe.
From S2P Require Import ElfLoad.
From S2P Require Import SyscallTable.

#[local] Open Scope Z_scope.

(** ** Every syscall *)

Section bodies.
Context (env : SyscallEnvironment) {Laws : EnvironmentLaws env} (curves : CurveEnvironment) {CLaws : CurveLaws curves}.
Context (a1 a2 a3 a4 a5 : Z) (H1 : is_u64 a1) (H2 : is_u64 a2) (H3 : is_u64 a3) (H4 : is_u64 a4) (H5 : is_u64 a5).

Lemma body_polite call : polite (syscall_body env curves call a1 a2 a3 a4 a5).
Proof using H1 H2 H3 H4 H5 Laws CLaws.
  destruct call; cbn [syscall_body].
  - apply polite_throw.
  - by apply polite_panic.
  - by apply polite_log_string.
  - by apply polite_log_numbers.
  - by apply polite_log_pubkey.
  - by apply polite_log_units.
  - by apply polite_log_data.
  - by apply polite_create_address.
  - by apply polite_find_address.
  - by apply polite_hash.
  - by apply polite_recover.
  - by apply polite_curve_validate.
  - by apply polite_curve_group_ops.
  - by apply polite_curve_multiscalar.
  - by apply polite_curve_decompress.
  - by apply polite_curve_pairing.
  - by apply polite_sysvar.
  - by apply polite_get_sysvar.
  - by apply polite_mem.
  - by apply polite_sibling.
  - by apply polite_stack_height.
  - by apply polite_set_return_data.
  - by apply polite_get_return_data.
  - by apply polite_alloc.
  - by apply polite_alt_bn128.
  - by apply polite_big_mod_exp.
  - by apply polite_poseidon.
  - by apply polite_remaining.
  - by apply polite_alt_bn128_compression.
  - by apply polite_epoch_stake.
Qed.

Lemma body_safe call : safe env (syscall_body env curves call a1 a2 a3 a4 a5).
Proof using H1 H2 H3 H4 H5 Laws CLaws.
  destruct call; cbn [syscall_body].
  - apply safe_abort.
  - by apply safe_panic.
  - by apply safe_log_string.
  - by apply safe_log_numbers.
  - by apply safe_log_pubkey.
  - by apply safe_log_units.
  - by apply safe_log_data.
  - by apply safe_create_address.
  - by apply safe_find_address.
  - by apply safe_hash.
  - by apply safe_recover.
  - by apply safe_curve_validate.
  - by apply safe_curve_group_ops.
  - by apply safe_curve_multiscalar.
  - by apply safe_curve_decompress.
  - by apply safe_curve_pairing.
  - by apply safe_sysvar.
  - by apply safe_get_sysvar.
  - by apply safe_mem.
  - by apply safe_sibling.
  - by apply safe_stack_height.
  - by apply safe_set_return_data.
  - by apply safe_get_return_data.
  - by apply safe_alloc.
  - by apply safe_alt_bn128.
  - by apply safe_big_mod_exp.
  - by apply safe_poseidon.
  - by apply safe_remaining.
  - by apply safe_alt_bn128_compression.
  - by apply safe_epoch_stake.
Qed.

End bodies.

(** ** Builtins *)

(** What the tracker sees of the Rust half of a builtin. *)
Definition RustTraced (rust : RustBuiltin InvokeContext) : Prop :=
  forall c a1 a2 a3 a4 a5 m host,
    (exists loads, Forall Tracker.load_ok loads /\ forall t,
       rust c a1 a2 a3 a4 a5 (put_tracker t m) host =
       let '(c', m', host', r) := rust c a1 a2 a3 a4 a5 m host in (c', put_tracker (track loads t) m', host', r)) /\
    (is_Some (get_access_tracker m) -> is_Some (get_access_tracker (rust c a1 a2 a3 a4 a5 m host).1.1.2)).

(** A builtin of the runtime. *)
Class RustLaws (env : SyscallEnvironment) (rust : RustBuiltin InvokeContext) : Prop := {
  rust_ok : @RustOk _ (InvokeContext_Invariant env) rust;
  rust_metered : RustMetered rust;
  rust_traced : RustTraced rust
}.

Lemma u64_any x : is_u64 (as_u64 x).
Proof. apply cast_u_range. lia. Qed.

Lemma body_rust env curves call : EnvironmentLaws env -> CurveLaws curves -> RustLaws env (rust_of (syscall_body env curves call)).
Proof.
  intros Laws CLaws. split.
  - intros c a1 a2 a3 a4 a5 m host c' m' host' x Hc Hm Hh Hb. unfold rust_of.
    destruct (body_safe env curves (as_u64 a1) (as_u64 a2) (as_u64 a3) (as_u64 a4) (as_u64 a5) ltac:(apply u64_any)
      ltac:(apply u64_any) ltac:(apply u64_any) ltac:(apply u64_any) ltac:(apply u64_any) call (mkSysState c m host None))
      as (s' & r & -> & Hok); [by split|]. intros [= <- <- <- ->]. destruct (Hok x eq_refl) as [[[? ? ?] ?] ?]. done.
  - intros c a1 a2 a3 a4 a5 m host. unfold rust_of.
    destruct (body_polite env curves (as_u64 a1) (as_u64 a2) (as_u64 a3) (as_u64 a4) (as_u64 a5) ltac:(apply u64_any)
      ltac:(apply u64_any) ltac:(apply u64_any) ltac:(apply u64_any) ltac:(apply u64_any) call) as [_ Hm].
    destruct (syscall_body _ _ _ _ _ _ _ _ _) as [[s' r]|] eqn:E; [|done]. by apply Hm in E as [? _].
  - intros c a1 a2 a3 a4 a5 m host. unfold rust_of.
    destruct (body_polite env curves (as_u64 a1) (as_u64 a2) (as_u64 a3) (as_u64 a4) (as_u64 a5) ltac:(apply u64_any)
      ltac:(apply u64_any) ltac:(apply u64_any) ltac:(apply u64_any) ltac:(apply u64_any) call) as [Ht Hm].
    destruct (Ht (mkSysState c m host None)) as (loads & Hl & Hp).
    destruct (syscall_body env curves call _ _ _ _ _ (mkSysState c m host None)) as [[s' r]|] eqn:E.
    + split; [|by apply Hm in E as [_ ?]]. exists loads. split; [done|]. intros t.
      specialize (Hp t). change (put t (mkSysState c m host None)) with (mkSysState c (put_tracker t m) host None) in Hp.
      by rewrite Hp.
    + split; [|done]. exists []. split; [constructor|]. intros t. specialize (Hp t).
      change (put t (mkSysState c m host None)) with (mkSysState c (put_tracker t m) host None) in Hp. by rewrite Hp.
Qed.

(** ** What a builtin reads *)

(** A tracker that watches everything. *)
Definition spy : MemoryAccessTracker := mkTracker [mkRange 0 (2 ^ 64)] [] true.

(** The reads that it is shown. *)
Definition spied (f : BuiltinFunction InvokeContext) (m : EbpfVm InvokeContext) : list (Z * Z) :=
  match get_access_tracker (memory_mapping (invoke_function
          (set_memory (put_tracker spy (memory_mapping m)) (host_memory m) m) f)) with
  | Some t => forbidden_accesses t
  | None => []
  end.

Lemma spy_sees loads seen :
  Forall Tracker.load_ok loads ->
  track loads (mkTracker [mkRange 0 (2 ^ 64)] seen true) = mkTracker [mkRange 0 (2 ^ 64)] (seen ++ loads) true.
Proof.
  intros Hl. revert seen. induction Hl as [|[a n] loads (Ha & Hn & Hp) _ IH]; intros seen; cbn [track fold_left].
  { by rewrite app_nil_r. }
  unfold track in IH. cbn [fst snd] in *. unfold check_access. cbn [negb enabled watched_ranges forbidden_accesses].
  cbn [check_ranges]. unfold overlaps. cbn [r_start r_end].
  rewrite (proj2 (Z.ltb_lt a (2 ^ 64))) by apply Ha.
  rewrite (proj2 (Z.ltb_lt 0 (saturating_add a n))) by (unfold is_u, saturating_add in *; lia).
  cbn [andb]. rewrite cast_u_id by done. rewrite IH. by rewrite <- app_assoc.
Qed.

Lemma track_new loads : track loads tracker_new = tracker_new.
Proof. induction loads; [done|]. by cbn [track fold_left]. Qed.

Lemma put_put t u m : put_tracker t (put_tracker u m) = put_tracker t m.
Proof. by destruct m. Qed.

Lemma put_same m t : get_access_tracker m = Some t -> put_tracker t m = m.
Proof. destruct m as [|a|u]; cbn; [done| |]; intros [= <-]; [by destruct a as [[]]|by destruct u as [[]]]. Qed.

Lemma get_put t m : is_Some (get_access_tracker m) -> get_access_tracker (put_tracker t m) = Some t.
Proof. unfold put_tracker. rewrite get_tracker_with. by intros [u ->]. Qed.

(** The machine with another tracker. *)
Definition put_vm (t : MemoryAccessTracker) (m : EbpfVm InvokeContext) : EbpfVm InvokeContext :=
  set_memory (put_tracker t (memory_mapping m)) (host_memory m) m.

(** [builtin_vm] calls the Rust half with a context, and stores what it returns. *)
Definition calling (config : Config) (vm : EbpfVm InvokeContext) : InvokeContext :=
  if enable_instruction_meter config
  then consume (context_object_pointer vm) (wrapping_sub (previous_instruction_meter vm) (due_insn_count vm))
  else context_object_pointer vm.
Definition returned (config : Config) (vm : EbpfVm InvokeContext)
    (r : InvokeContext * MemoryMapping * HostMemory * Result Z BoxError) : EbpfVm InvokeContext :=
  let '(ctx, m, host, result) := r in
  let vm := set_program_result (map_err SyscallError result) (set_memory m host (set_context ctx vm)) in
  if enable_instruction_meter config then set_previous_instruction_meter (get_remaining (context_object_pointer vm)) vm
  else vm.

Lemma builtin_vm_returned config rust vm a b c d e :
  builtin_vm config rust vm a b c d e =
  returned config vm (rust (calling config vm) a b c d e (memory_mapping vm) (host_memory vm)).
Proof.
  unfold builtin_vm, calling, returned. destruct (enable_instruction_meter config); cbn [context_object_pointer];
    by destruct (rust _ _ _ _ _ _ _ _) as [[[c' m'] host'] r].
Qed.

Lemma builtin_put config rust (m : EbpfVm InvokeContext) a b c d e :
  RustTraced rust -> let f := builtin_vm config rust in
  (exists loads, Forall Tracker.load_ok loads /\ forall t, f (put_vm t m) a b c d e = put_vm (track loads t) (f m a b c d e)) /\
  (is_Some (get_access_tracker (memory_mapping m)) -> is_Some (get_access_tracker (memory_mapping (f m a b c d e)))).
Proof.
  intros Hr. cbv zeta. rewrite builtin_vm_returned.
  destruct (Hr (calling config m) a b c d e (memory_mapping m) (host_memory m)) as [(loads & Hl & Ht) Hs]. split.
  - exists loads. split; [done|]. intros t. rewrite builtin_vm_returned. change (calling config (put_vm t m)) with (calling config m).
    change (memory_mapping (put_vm t m)) with (put_tracker t (memory_mapping m)).
    change (host_memory (put_vm t m)) with (host_memory m). rewrite Ht.
    destruct (rust _ _ _ _ _ _ _ _) as [[[c' m'] host'] r]. unfold returned. by destruct (enable_instruction_meter config).
  - intros Hm. specialize (Hs Hm). destruct (rust _ _ _ _ _ _ _ _) as [[[c' m'] host'] r]. cbn in Hs.
    unfold returned. by destruct (enable_instruction_meter config).
Qed.

Lemma builtin_loads config rust : RustTraced rust -> BuiltinLoads (builtin_vm config rust) (spied (builtin_vm config rust)).
Proof.
  intros Hr. assert (forall m, memory_mapping (invoke_function m (builtin_vm config rust)) = memory_mapping (builtin_vm config rust m
    (registers m !!! 1%nat) (registers m !!! 2%nat) (registers m !!! 3%nat) (registers m !!! 4%nat) (registers m !!! 5%nat)))
    as Hinv by done.
  assert (forall m, exists loads, Forall Tracker.load_ok loads /\
    (forall t, memory_mapping (invoke_function (put_vm t m) (builtin_vm config rust)) =
      put_tracker (track loads t) (memory_mapping (invoke_function m (builtin_vm config rust)))) /\
    (is_Some (get_access_tracker (memory_mapping m)) ->
       is_Some (get_access_tracker (memory_mapping (invoke_function m (builtin_vm config rust)))))) as H.
  { intros m. destruct (builtin_put config rust m (registers m !!! 1%nat) (registers m !!! 2%nat) (registers m !!! 3%nat)
      (registers m !!! 4%nat) (registers m !!! 5%nat) Hr) as [(loads & Hl & Ht) Hs].
    exists loads. split; [done|]. split; [|done]. intros t. unfold invoke_function.
    change (registers (put_vm t m)) with (registers m). by rewrite Ht. }
  split.
  - intros m a b c d e. destruct (builtin_put config rust m a b c d e Hr) as [(loads & _ & Ht) _].
    specialize (Ht tracker_new). rewrite track_new in Ht. exact Ht.
  - intros m. unfold spied. change (memory_mapping (erase_vm m)) with (put_tracker tracker_new (memory_mapping m)).
    by rewrite put_put.
  - intros m. unfold spied. destruct (H m) as (loads & Hl & Ht & _). specialize (Ht spy). unfold put_vm in Ht. rewrite Ht.
    unfold put_tracker. rewrite get_tracker_with. destruct (get_access_tracker _); cbn; [|constructor].
    unfold spy. by rewrite spy_sees.
  - intros m. unfold spied. destruct (H m) as (loads & Hl & Ht & Hs). pose proof (Ht spy) as Hspy. unfold put_vm in Hspy.
    rewrite Hspy. destruct (get_access_tracker (memory_mapping m)) as [t|] eqn:Et.
    + specialize (Hs ltac:(by eexists)). rewrite get_put by done. unfold spy. rewrite spy_sees by done. cbn.
      specialize (Ht t). replace (put_vm t m) with m in Ht.
      * rewrite Ht at 1. by rewrite get_put.
      * unfold put_vm. rewrite (put_same _ t Et). by destruct m.
    + destruct (get_access_tracker (memory_mapping (invoke_function m _))) as [u|] eqn:Eu; [|done]. exfalso.
      assert (forall t, put_vm t m = m) as Hid.
      { intros t. unfold put_vm. destruct (memory_mapping m) eqn:Em; [|done..]. destruct m. cbn in *. by subst. }
      assert (forall t, u = track loads t) as Hu.
      { intros t. specialize (Ht t). rewrite Hid in Ht. apply (inj Some). rewrite <- Eu, Ht at 1. by apply get_put. }
      pose proof (Hu tracker_new) as E1. pose proof (Hu spy) as E2. rewrite track_new in E1.
      unfold spy in E2. rewrite spy_sees in E2 by done. by rewrite E1 in E2.
Qed.

(** ** The environment *)

Section environment.
Context (env : SyscallEnvironment) {Laws : EnvironmentLaws env} (curves : CurveEnvironment) {CLaws : CurveLaws curves}.
Context (hash_symbol_name : list Z -> Z) (invoke_signed_c invoke_signed_rust : RustBuiltin InvokeContext).
Context {LawsC : RustLaws env invoke_signed_c} {LawsR : RustLaws env invoke_signed_rust}.

#[local] Instance environment_invariant : ContextInvariant InvokeContext := InvokeContext_Invariant env.
#[local] Instance environment_laws : ContextLaws InvokeContext := InvokeContext_Laws env.

Abbreviation rust_of_call := (syscall_rust env curves invoke_signed_c invoke_signed_rust).
Abbreviation create_v1 := (create_program_runtime_environment_v1 env curves hash_symbol_name invoke_signed_c invoke_signed_rust).

Lemma call_rust call : RustLaws env (rust_of_call call).
Proof using Laws CLaws LawsC LawsR. destruct call; [by apply body_rust|done..]. Qed.

Lemma environment_created f depth frame reject debug prog :
  create_v1 f depth frame reject debug = Some (Ok prog) ->
  let config := runtime_config f depth frame reject debug in
  bp_config prog = Some config /\
  exists reg, register_all hash_symbol_name (registrations f reject) registry_default = Ok reg /\
    sparse_registry prog = builtins_of env curves invoke_signed_c invoke_signed_rust config reg.
Proof.
  unfold create_program_runtime_environment_v1. destruct (_ <? _); [done|]. cbv zeta.
  destruct (register_all _ _ _) as [reg|]; [|done]. intros [= <-]. split; [done|]. by exists reg.
Qed.

(** Every function of the environment is that of a syscall. *)
Lemma environment_builtin f depth frame reject debug prog key name g :
  create_v1 f depth frame reject debug = Some (Ok prog) -> lookup_by_key (sparse_registry prog) key = Some (name, g) ->
  exists call, g = builtin_vm (runtime_config f depth frame reject debug) (rust_of_call call).
Proof.
  intros E. apply environment_created in E as (_ & reg & _ & ->). unfold lookup_by_key, builtins_of. cbn.
  rewrite lookup_fmap. destruct (fr_map reg !! key) as [[n call]|]; [|done]. intros [= _ <-]. by exists call.
Qed.

Lemma environment_ok f depth frame reject debug prog key name g :
  create_v1 f depth frame reject debug = Some (Ok prog) -> lookup_by_key (sparse_registry prog) key = Some (name, g) ->
  BuiltinOk (runtime_config f depth frame reject debug) g /\ BuiltinMetered g /\ BuiltinLoads g (spied g).
Proof using Laws CLaws LawsC LawsR.
  intros E Hg. destruct (environment_builtin _ _ _ _ _ _ _ _ _ E Hg) as [call ->]. destruct (call_rust call) as [H1 H2 H3].
  split; [by apply builtin_vm_ok|]. split; [by apply builtin_vm_metered|]. by apply builtin_loads.
Qed.

(** ** Registration *)

Abbreviation hash_of name := (hash_symbol_name (bstr name)).

Lemma register_all_spec l reg :
  NoDup (map (fun e => hash_of e.1.2) l) -> (forall e, e ∈ l -> fr_map reg !! hash_of e.1.2 = None) ->
  exists reg', register_all hash_symbol_name l reg = Ok reg' /\
    (forall active name call, (active, name, call) ∈ l ->
       fr_map reg' !! hash_of name = if active : bool then Some (bstr name, call) else None) /\
    (forall key, key ∉ map (fun e => hash_of e.1.2) l -> fr_map reg' !! key = fr_map reg !! key).
Proof.
  revert reg. induction l as [|[[active name] call] l IH]; intros reg Hnd Hfree; cbn [register_all map].
  { exists reg. split; [done|]. split; [|done]. intros ? ? ? Hin. by apply elem_of_nil in Hin. }
  apply NoDup_cons in Hnd as [Hnot Hnd]. cbn [fst snd] in Hnot.
  assert (fr_map reg !! hash_of name = None) as Hn by (apply (Hfree (active, name, call)); left).
  set (reg1 := if active then mkRegistry (<[hash_of name := (bstr name, call)]> (fr_map reg)) else reg).
  assert ((if active then register_function reg (hash_of name) (bstr name) call else Ok reg) = Ok reg1) as ->.
  { unfold reg1, register_function. destruct active; [|done]. by rewrite Hn. }
  assert (forall key, key <> hash_of name -> fr_map reg1 !! key = fr_map reg !! key) as Hother.
  { intros key Hk. unfold reg1. destruct active; [|done]. cbn. by rewrite lookup_insert_ne. }
  destruct (IH reg1 Hnd) as (reg' & E & Hin & Hout).
  { intros e He. rewrite Hother; [apply Hfree; by right|]. intros Heq. apply Hnot. rewrite <- Heq.
    apply (list_elem_of_fmap_2 (fun e => hash_of e.1.2)), He. }
  exists reg'. split; [done|]. split.
  - intros active' name' call' Hmem. apply elem_of_cons in Hmem as [[= -> -> ->]|Hmem]; [|by apply Hin].
    rewrite Hout by done. unfold reg1. destruct active; cbn; [by rewrite lookup_insert_eq|done].
  - intros key Hk. apply not_elem_of_cons in Hk as [Hk1 Hk2]. by rewrite Hout, Hother.
Qed.


(** ** Running programs *)

Lemma watched_vm_ok config (machine : EbpfVm InvokeContext) ranges :
  Forall u64_range ranges -> vm_ok config machine -> vm_ok config (add_watched_memory_ranges machine ranges).
Proof.
  intros Hr [? ? ? ? Hm Hh Hb ?].
  destruct (with_tracker_spec (fun t => add_watched_ranges t ranges) (memory_mapping machine)) as (H1 & H2 & _ & _ & H3);
    [intros t Ht; by apply tracker_ok_add|done|].
  split; try done; unfold add_watched_memory_ranges, on_access_tracker; cbn; [by eapply mapping_handler_ok_eq|by rewrite H2].
Qed.

End environment.

(** ** Examples *)

(** A hash without collisions on the names of the syscalls. *)
Definition example_name_hash (name : list Z) : Z := as_u32 (fold_left (fun h b => as_u32 (h * 31 + b)) name 7).

Lemma example_name_hash_u32 name : is_u32 (example_name_hash name).
Proof. apply cast_u_range. lia. Qed.

(** An invocation that always fails. *)
Definition example_invoke_fails : RustBuiltin InvokeContext :=
  fun c _ _ _ _ _ m host => (c, m, host, Err (BoxOther "no such program")).

#[export] Instance example_invoke_laws env : RustLaws env example_invoke_fails.
Proof.
  split; [done|intros c a1 a2 a3 a4 a5 m host; cbn; lia|]. intros c a1 a2 a3 a4 a5 m host. split; [|done]. by exists [].
Qed.


Abbreviation example_v1 :=
  (create_program_runtime_environment_v1 example_env example_curves example_name_hash example_invoke_fails example_invoke_fails).
Abbreviation example_runtime_config := (runtime_config Features.all_enabled 4 64 false false).


(** A program that logs the first eight bytes of its input. *)
Definition example_logger : list Z :=
  strict_image V3 [] (concat (map to_array
    [mkInsn 0 MOV64_IMM 2 0 0 8; mkInsn 0 CALL_IMM 0 0 0 (as_i32 (example_name_hash (bstr "sol_log_"))); mkInsn 0 EXIT 0 0 0 0])) 0.

Definition example_runtime_mapping : MemoryMapping :=
  match mapping_new 1 example_vm_regions example_runtime_config V3 with Ok m => m | Err _ => Identity end.

Definition example_runtime_machine : EbpfVm InvokeContext :=
  let m := vm_new example_runtime_config V3 example_level0 example_runtime_mapping example_vm_host 256 in
  set_registers (<[1%nat := MM_INPUT_START]> (registers m)) m.

Lemma example_runtime_machine_ok : @vm_ok _ (InvokeContext_Invariant example_env) example_runtime_config example_runtime_machine.
Proof.
  assert (mapping_new 1 example_vm_regions example_runtime_config V3 = Ok example_runtime_mapping) as E by (vm_compute; reflexivity).
  apply mapping_new_ok in E as (Hm & _ & _ & Hc); [|by vm_compute|exact example_vm_regions_ok].
  assert (mapping_handler_ok example_runtime_mapping) as Hh
    by (intros c Ec; rewrite Ec in Hc; injection Hc as ->; apply default_handler_ok).
  assert (backed (get_regions example_runtime_mapping) example_vm_host) as Hb by (apply backedb_sound; by vm_compute).
  destruct (@vm_new_ok _ (InvokeContext_Invariant example_env) example_runtime_config V3 example_level0 example_runtime_mapping
    example_vm_host 256 ltac:(by vm_compute) eq_refl ltac:(by vm_compute) ltac:(by vm_compute) Hm Hh Hb
    example_level0_ok) as [Hr Hd Hfl Hf _ _ _ Hcx].
  split; try done. apply regs_insert; [done|by vm_compute].
Qed.

(** Loading and running it, as a value. *)
Definition example_logger_run (prog : BuiltinProgram InvokeContext) : option (Z * ProgramResult * list (Z * Z)) :=
  match new_internal example_name_hash 0 0x100 example_logger prog false with
  | Some (Ok ex) =>
      match execute_program 1001 ex (add_watched_memory_ranges example_runtime_machine example_watched) with
      | Some (Some (count, result, watched)) => Some (count, result, get_forbidden_memory_accesses watched)
      | _ => None
      end
  | _ => None
  end.

Lemma example_logger_runs :
  match example_v1 Features.all_enabled 4 64 false false with Some (Ok prog) => example_logger_run prog | _ => None end =
  Some (103, Ok 0, [(MM_INPUT_START, 8)]).
Proof. vm_compute. reflexivity. Qed.

Lemma example_logger_bytes : rust_len example_logger /\ bytes example_logger.
Proof. split; [by vm_compute|]. vm_compute. repeat constructor; discriminate. Qed.

Lemma example_watched_u64 : Forall u64_range example_watched.
Proof. by repeat constructor; vm_compute. Qed.

