(* ===== verification/ProgramCache.v ===== *)
(** The cache of loaded programs (agave/program-runtime/src/loaded_programs.rs): versions of each
    program by slot and fork, the view of a batch of transactions, cooperative loading, pruning
    when the root moves, and eviction.

    Entries are shared by reference counts, so the counters in them are cells of a memory: an
    entry holds their addresses. An environment is compared by address only and is its address;
    executables and built-in programs are parameters. Failed debug assertions and unwraps are
    panics, [None]; whether debug assertions are compiled in is a parameter, as are the iteration
    order of hash maps, thread identifiers and random numbers. *)

From Stdlib Require Import ZArith Lia Bool.
From stdpp Require Import gmap sorting.
From S2P Require Import Prelude.
From S2P Require Import SbpfTypes.
From S2P Require Import TxAccounts.

#[local] Open Scope Z_scope.

Definition MAX_LOADED_ENTRY_COUNT : Z := 512.
Definition DELAY_VISIBILITY_SLOT_OFFSET : Z := 1.

(** ** The standard library *)

(** [slice::binary_search_by]: the range is halved until one element is left. *)
Definition compare_at {A} (f : A -> comparison) (l : list A) (i : nat) : comparison :=
  match l !! i with Some x => f x | None => Gt end.

Fixpoint binary_search_loop {A} (f : A -> comparison) (l : list A) (fuel base size : nat) : nat :=
  match fuel with
  | O => base
  | S fuel =>
      if (size <=? 1)%nat then base
      else
        let half := (size / 2)%nat in
        let mid := (base + half)%nat in
        let base := match compare_at f l mid with Gt => base | _ => mid end in
        binary_search_loop f l fuel base (size - half)
  end.

Definition binary_search_by {A} (f : A -> comparison) (l : list A) : Result nat nat :=
  if is_nil l then Err O
  else
    let base := binary_search_loop f l (length l) 0 (length l) in
    match compare_at f l base with
    | Eq => Ok base
    | Lt => Err (S base)
    | Gt => Err base
    end.

(** [Vec::insert], [Vec::swap_remove] and a stable sort by a key. *)
Definition vec_insert {A} (i : nat) (x : A) (l : list A) : list A := take i l ++ x :: drop i l.

Definition swap_remove {A} (i : nat) (l : list A) : option (A * list A) :=
  let! x := l !! i in
  let! y := last l in
  Some (x, removelast (<[i := y]> l)).

Fixpoint insert_by_key {A} (key : A -> Z) (x : A) (l : list A) : list A :=
  match l with
  | [] => [x]
  | y :: l => if key x <=? key y then x :: y :: l else y :: insert_by_key key x l
  end.
Definition sort_by_key {A} (key : A -> Z) (l : list A) : list A := foldr (insert_by_key key) [] l.

(** ** Forks *)

Inductive BlockRelation := Ancestor | EqualBlock | Descendant | Unrelated | UnknownRelation.

(** [ForkGraph::relationship]. *)
Abbreviation ForkGraph := (Z -> Z -> BlockRelation).

(** [Option<Weak<RwLock<FG>>>]. *)
Inductive ForkGraphRef := NoForkGraph | DroppedForkGraph | LiveForkGraph (fg : ForkGraph).

Definition is_equal_or_ancestor (r : BlockRelation) : bool :=
  match r with EqualBlock | Ancestor => true | _ => false end.
Definition is_equal_or_descendant (r : BlockRelation) : bool :=
  match r with EqualBlock | Descendant => true | _ => false end.

(** ** Shared counters *)

Record Cells := mkCells { cells : gmap Z Z; next_cell : Z }.

Definition cell_load (a : Z) (m : Cells) : Z := default 0 (cells m !! a).
Definition cell_store (a x : Z) (m : Cells) : Cells := mkCells (<[a := x]> (cells m)) (next_cell m).
Definition cell_fetch_add (a n : Z) (m : Cells) : Cells := cell_store a (cast_u 64 (cell_load a m + n)) m.
Definition cell_fetch_max (a n : Z) (m : Cells) : Cells := cell_store a (Z.max (cell_load a m) n) m.
Definition cell_new (x : Z) (m : Cells) : Cells * Z :=
  (mkCells (<[next_cell m := x]> (cells m)) (next_cell m + 1), next_cell m).

(** ** Entries *)

Inductive ProgramCacheEntryOwner := NativeLoader | LoaderV1 | LoaderV2 | LoaderV3 | LoaderV4.

#[global] Instance owner_eq_dec : EqDecision ProgramCacheEntryOwner.
Proof. solve_decision. Defined.

Record LoaderIds := mkLoaderIds {
  id_native_loader : Pubkey;
  id_bpf_loader_deprecated : Pubkey;
  id_bpf_loader : Pubkey;
  id_bpf_loader_upgradeable : Pubkey;
  id_loader_v4 : Pubkey
}.

Definition owner_try_from (ids : LoaderIds) (loader_key : Pubkey) : option ProgramCacheEntryOwner :=
  if bool_decide (loader_key = id_native_loader ids) then Some NativeLoader
  else if bool_decide (loader_key = id_bpf_loader_deprecated ids) then Some LoaderV1
  else if bool_decide (loader_key = id_bpf_loader ids) then Some LoaderV2
  else if bool_decide (loader_key = id_bpf_loader_upgradeable ids) then Some LoaderV3
  else if bool_decide (loader_key = id_loader_v4 ids) then Some LoaderV4
  else None.

Definition owner_into (ids : LoaderIds) (owner : ProgramCacheEntryOwner) : Pubkey :=
  match owner with
  | NativeLoader => id_native_loader ids
  | LoaderV1 => id_bpf_loader_deprecated ids
  | LoaderV2 => id_bpf_loader ids
  | LoaderV3 => id_bpf_loader_upgradeable ids
  | LoaderV4 => id_loader_v4 ids
  end.

Section cache.
Context {Executable BuiltinProgram : Type} (get_loader : Executable -> Z).

Inductive ProgramCacheEntryType :=
| FailedVerification (environment : Z)
| Closed
| DelayVisibility
| Unloaded (environment : Z)
| Loaded (executable : Executable)
| Builtin (program : BuiltinProgram).

Definition get_environment (t : ProgramCacheEntryType) : option Z :=
  match t with
  | Loaded executable => Some (get_loader executable)
  | FailedVerification env | Unloaded env => Some env
  | _ => None
  end.

Record ProgramCacheEntry := mkEntry {
  program : ProgramCacheEntryType;
  account_owner : ProgramCacheEntryOwner;
  account_size : Z;
  deployment_slot : Z;
  effective_slot : Z;
  tx_usage_counter : Z;
  latest_access_slot : Z
}.

Definition is_tombstone (e : ProgramCacheEntry) : bool :=
  match program e with FailedVerification _ | Closed | DelayVisibility => true | _ => false end.

(** [PartialEq]. *)
Definition entry_eqb (e e' : ProgramCacheEntry) : bool :=
  (effective_slot e =? effective_slot e') && (deployment_slot e =? deployment_slot e')
  && Bool.eqb (is_tombstone e) (is_tombstone e').

Definition is_builtin (e : ProgramCacheEntry) : bool :=
  match program e with Builtin _ => true | _ => false end.
Definition is_loaded (e : ProgramCacheEntry) : bool :=
  match program e with Loaded _ => true | _ => false end.
Definition is_unloaded (e : ProgramCacheEntry) : bool :=
  match program e with Unloaded _ => true | _ => false end.

(** A new entry, with counters of its own. *)
Definition new_entry (p : ProgramCacheEntryType) (owner : ProgramCacheEntryOwner) (size deployment effective : Z)
    (m : Cells) : Cells * ProgramCacheEntry :=
  let '(m, usage) := cell_new 0 m in
  let '(m, access) := cell_new 0 m in
  (m, mkEntry p owner size deployment effective usage access).

(** [ProgramCacheEntry::new] and [reload]: the loading, the verification and the compilation are
    parameters; [unwrap] of an unknown loader panics. *)
Definition new_internal {E : Type} (ids : LoaderIds) (load : list Z -> Z -> Result Executable E)
    (verify jit_compile : Executable -> Result Executable E) (loader_key : Pubkey) (environment deployment effective : Z)
    (elf_bytes : list Z) (size : Z) (reloading : bool) (m : Cells)
    : option (Cells * Result ProgramCacheEntry E) :=
  match (let? executable := load elf_bytes environment in
         let? executable := if negb reloading then verify executable else Ok executable in
         jit_compile executable) with
  | Err e => Some (m, Err e)
  | Ok executable =>
      let! owner := owner_try_from ids loader_key in
      let '(m, e) := new_entry (Loaded executable) owner size deployment effective m in
      Some (m, Ok e)
  end.

(** [register_function] of a fresh program cannot fail. *)
Definition new_builtin (deployment size : Z) (p : BuiltinProgram) (m : Cells) : Cells * ProgramCacheEntry :=
  new_entry (Builtin p) NativeLoader size deployment deployment m.

(** Shares the usage counter, copies the access slot. *)
Definition to_unloaded (e : ProgramCacheEntry) (m : Cells) : Cells * option ProgramCacheEntry :=
  match program e with
  | Loaded executable =>
      let '(m, access) := cell_new (cell_load (latest_access_slot e) m) m in
      (m, Some (mkEntry (Unloaded (get_loader executable)) (account_owner e) (account_size e)
                  (deployment_slot e) (effective_slot e) (tx_usage_counter e) access))
  | _ => (m, None)
  end.

Definition new_tombstone_with_usage_counter (slot : Z) (owner : ProgramCacheEntryOwner)
    (reason : ProgramCacheEntryType) (usage : Z) (m : Cells) : Cells * ProgramCacheEntry :=
  let '(m, access) := cell_new 0 m in
  (m, mkEntry reason owner 0 slot slot usage access).

Definition new_tombstone (slot : Z) (owner : ProgramCacheEntryOwner) (reason : ProgramCacheEntryType) (m : Cells)
    : Cells * ProgramCacheEntry :=
  let '(m, usage) := cell_new 0 m in new_tombstone_with_usage_counter slot owner reason usage m.

Definition is_implicit_delay_visibility_tombstone (slot : Z) (e : ProgramCacheEntry) : bool :=
  negb (is_builtin e)
  && (saturating_sub (effective_slot e) (deployment_slot e) =? DELAY_VISIBILITY_SLOT_OFFSET)
  && (deployment_slot e <=? slot) && (slot <? effective_slot e).

(** The tombstone that stands for an entry that is not effective yet. *)
Definition delay_tombstone (e : ProgramCacheEntry) (m : Cells) : Cells * ProgramCacheEntry :=
  new_tombstone_with_usage_counter (deployment_slot e) (account_owner e) DelayVisibility (tx_usage_counter e) m.

Definition update_access_slot (slot : Z) (e : ProgramCacheEntry) (m : Cells) : Cells :=
  cell_fetch_max (latest_access_slot e) slot m.

Definition decayed_usage_counter (now : Z) (e : ProgramCacheEntry) (m : Cells) : Z :=
  let last_access := cell_load (latest_access_slot e) m in
  let decaying_for := Z.min 63 (saturating_sub now last_access) in
  Z.shiftr (cell_load (tx_usage_counter e) m) decaying_for.

(** ** Environments *)

Record ProgramRuntimeEnvironments := mkEnvironments { program_runtime_v1 : Z; program_runtime_v2 : Z }.

(** [is_current_env] and [matches_environment]. *)
Definition is_current_env (environments : ProgramRuntimeEnvironments) (env : option Z) : bool :=
  match env with
  | Some env => (env =? program_runtime_v1 environments) || (env =? program_runtime_v2 environments)
  | None => true
  end.

Definition matches_environment (e : ProgramCacheEntry) (environments : ProgramRuntimeEnvironments) : bool :=
  match get_environment (program e) with
  | None => true
  | Some environment =>
      (environment =? program_runtime_v1 environments) || (environment =? program_runtime_v2 environments)
  end.

Record EpochBoundaryPreparation := mkPreparation {
  upcoming_epoch : Z;
  upcoming_environments : option ProgramRuntimeEnvironments;
  programs_to_recompile : list (Pubkey * ProgramCacheEntry)
}.

Definition preparation_new (epoch : Z) : EpochBoundaryPreparation := mkPreparation epoch None [].

Definition get_upcoming_environments_for_epoch (p : EpochBoundaryPreparation) (epoch : Z)
    : option ProgramRuntimeEnvironments :=
  if epoch =? upcoming_epoch p then upcoming_environments p else None.

Definition reroot (p : EpochBoundaryPreparation) (epoch : Z)
    : EpochBoundaryPreparation * option ProgramRuntimeEnvironments :=
  if epoch =? upcoming_epoch p then
    match upcoming_environments p with
    | Some environments => (mkPreparation (upcoming_epoch p) None [], Some environments)
    | None => (p, None)
    end
  else (p, None).

(** ** The view of a batch *)

Record ProgramCacheForTxBatch := mkBatch {
  batch_entries : gmap Pubkey ProgramCacheEntry;
  modified_entries : gmap Pubkey ProgramCacheEntry;
  batch_slot : Z;
  hit_max_limit : bool;
  loaded_missing : bool;
  merged_modified : bool
}.

Definition batch_new (slot : Z) : ProgramCacheForTxBatch := mkBatch ∅ ∅ slot false false false.

Definition set_batch_entries (l : gmap Pubkey ProgramCacheEntry) (b : ProgramCacheForTxBatch) : ProgramCacheForTxBatch :=
  mkBatch l (modified_entries b) (batch_slot b) (hit_max_limit b) (loaded_missing b) (merged_modified b).

Definition replenish (b : ProgramCacheForTxBatch) (key : Pubkey) (e : ProgramCacheEntry)
    : ProgramCacheForTxBatch * (bool * ProgramCacheEntry) :=
  (set_batch_entries (<[key := e]> (batch_entries b)) b, (bool_decide (is_Some (batch_entries b !! key)), e)).

Definition store_modified_entry (b : ProgramCacheForTxBatch) (key : Pubkey) (e : ProgramCacheEntry)
    : ProgramCacheForTxBatch :=
  mkBatch (batch_entries b) (<[key := e]> (modified_entries b)) (batch_slot b) (hit_max_limit b)
    (loaded_missing b) (merged_modified b).

Definition drain_modified_entries (b : ProgramCacheForTxBatch)
    : ProgramCacheForTxBatch * gmap Pubkey ProgramCacheEntry :=
  (mkBatch (batch_entries b) ∅ (batch_slot b) (hit_max_limit b) (loaded_missing b) (merged_modified b),
   modified_entries b).

Definition find (b : ProgramCacheForTxBatch) (key : Pubkey) (m : Cells) : Cells * option ProgramCacheEntry :=
  let found := match modified_entries b !! key with Some e => Some e | None => batch_entries b !! key end in
  match found with
  | None => (m, None)
  | Some e =>
      if is_implicit_delay_visibility_tombstone (batch_slot b) e
      then let '(m, e) := delay_tombstone e m in (m, Some e)
      else (m, Some e)
  end.

(** The entries are those of the argument where it has one. *)
Definition batch_merge (b : ProgramCacheForTxBatch) (modified : gmap Pubkey ProgramCacheEntry) : ProgramCacheForTxBatch :=
  mkBatch (modified ∪ batch_entries b) (modified_entries b) (batch_slot b) (hit_max_limit b) (loaded_missing b)
    (merged_modified b || negb (bool_decide (modified = ∅))).

Inductive ProgramCacheMatchCriteria := DeployedOnOrAfterSlot (slot : Z) | Tombstone | NoCriteria.

Definition matches_criteria (e : ProgramCacheEntry) (criteria : ProgramCacheMatchCriteria) : bool :=
  match criteria with
  | DeployedOnOrAfterSlot slot => slot <=? deployment_slot e
  | Tombstone => is_tombstone e
  | NoCriteria => true
  end.

(** ** The cache *)

Record ProgramCacheStats := mkStats {
  hits : Z;
  misses : Z;
  evictions : gmap Pubkey Z;
  reloads : Z;
  insertions : Z;
  lost_insertions : Z;
  replacements : Z;
  one_hit_wonders : Z;
  prunes_orphan : Z;
  prunes_environment : Z;
  empty_entries : Z;
  water_level : Z
}.

Definition stats_default : ProgramCacheStats := mkStats 0 0 ∅ 0 0 0 0 0 0 0 0 0.

Definition bump_hits (n : Z) (s : ProgramCacheStats) : ProgramCacheStats :=
  mkStats (wrapping_add (hits s) n) (misses s) (evictions s) (reloads s) (insertions s) (lost_insertions s)
    (replacements s) (one_hit_wonders s) (prunes_orphan s) (prunes_environment s) (empty_entries s) (water_level s).
Definition bump_misses (n : Z) (s : ProgramCacheStats) : ProgramCacheStats :=
  mkStats (hits s) (wrapping_add (misses s) n) (evictions s) (reloads s) (insertions s) (lost_insertions s)
    (replacements s) (one_hit_wonders s) (prunes_orphan s) (prunes_environment s) (empty_entries s) (water_level s).
Definition bump_evictions (id : Pubkey) (s : ProgramCacheStats) : ProgramCacheStats :=
  mkStats (hits s) (misses s)
    (<[id := match evictions s !! id with Some c => saturating_add c 1 | None => 1 end]> (evictions s))
    (reloads s) (insertions s) (lost_insertions s) (replacements s) (one_hit_wonders s) (prunes_orphan s)
    (prunes_environment s) (empty_entries s) (water_level s).
Definition bump_reloads (s : ProgramCacheStats) : ProgramCacheStats :=
  mkStats (hits s) (misses s) (evictions s) (wrapping_add (reloads s) 1) (insertions s) (lost_insertions s)
    (replacements s) (one_hit_wonders s) (prunes_orphan s) (prunes_environment s) (empty_entries s) (water_level s).
Definition bump_insertions (s : ProgramCacheStats) : ProgramCacheStats :=
  mkStats (hits s) (misses s) (evictions s) (reloads s) (wrapping_add (insertions s) 1) (lost_insertions s)
    (replacements s) (one_hit_wonders s) (prunes_orphan s) (prunes_environment s) (empty_entries s) (water_level s).
Definition bump_lost_insertions (s : ProgramCacheStats) : ProgramCacheStats :=
  mkStats (hits s) (misses s) (evictions s) (reloads s) (insertions s) (wrapping_add (lost_insertions s) 1)
    (replacements s) (one_hit_wonders s) (prunes_orphan s) (prunes_environment s) (empty_entries s) (water_level s).
Definition bump_replacements (s : ProgramCacheStats) : ProgramCacheStats :=
  mkStats (hits s) (misses s) (evictions s) (reloads s) (insertions s) (lost_insertions s)
    (wrapping_add (replacements s) 1) (one_hit_wonders s) (prunes_orphan s) (prunes_environment s)
    (empty_entries s) (water_level s).
Definition bump_one_hit_wonders (s : ProgramCacheStats) : ProgramCacheStats :=
  mkStats (hits s) (misses s) (evictions s) (reloads s) (insertions s) (lost_insertions s)
    (replacements s) (wrapping_add (one_hit_wonders s) 1) (prunes_orphan s) (prunes_environment s)
    (empty_entries s) (water_level s).
Definition bump_prunes (orphan environment : Z) (s : ProgramCacheStats) : ProgramCacheStats :=
  mkStats (hits s) (misses s) (evictions s) (reloads s) (insertions s) (lost_insertions s)
    (replacements s) (one_hit_wonders s) (wrapping_add (prunes_orphan s) orphan)
    (wrapping_add (prunes_environment s) environment) (empty_entries s) (water_level s).
Definition bump_empty_entries (n : Z) (s : ProgramCacheStats) : ProgramCacheStats :=
  mkStats (hits s) (misses s) (evictions s) (reloads s) (insertions s) (lost_insertions s)
    (replacements s) (one_hit_wonders s) (prunes_orphan s) (prunes_environment s)
    (wrapping_add (empty_entries s) n) (water_level s).
Definition set_water_level (n : Z) (s : ProgramCacheStats) : ProgramCacheStats :=
  mkStats (hits s) (misses s) (evictions s) (reloads s) (insertions s) (lost_insertions s)
    (replacements s) (one_hit_wonders s) (prunes_orphan s) (prunes_environment s) (empty_entries s) n.

(** [loading_entries] holds the slot and the thread of each loading task; the cookie is that of
    the [LoadingTaskWaiter]. *)
Record ProgramCache := mkCache {
  entries : gmap Pubkey (list ProgramCacheEntry);
  loading_entries : gmap Pubkey (Z * Z);
  latest_root_slot : Z;
  stats : ProgramCacheStats;
  fork_graph : ForkGraphRef;
  waiter_cookie : Z
}.

Definition set_entries (l : gmap Pubkey (list ProgramCacheEntry)) (c : ProgramCache) : ProgramCache :=
  mkCache l (loading_entries c) (latest_root_slot c) (stats c) (fork_graph c) (waiter_cookie c).
Definition set_loading_entries (l : gmap Pubkey (Z * Z)) (c : ProgramCache) : ProgramCache :=
  mkCache (entries c) l (latest_root_slot c) (stats c) (fork_graph c) (waiter_cookie c).
Definition set_latest_root_slot (slot : Z) (c : ProgramCache) : ProgramCache :=
  mkCache (entries c) (loading_entries c) slot (stats c) (fork_graph c) (waiter_cookie c).
Definition map_stats (f : ProgramCacheStats -> ProgramCacheStats) (c : ProgramCache) : ProgramCache :=
  mkCache (entries c) (loading_entries c) (latest_root_slot c) (f (stats c)) (fork_graph c) (waiter_cookie c).
Definition set_fork_graph (fg : ForkGraphRef) (c : ProgramCache) : ProgramCache :=
  mkCache (entries c) (loading_entries c) (latest_root_slot c) (stats c) fg (waiter_cookie c).

Definition cache_new (root_slot : Z) : ProgramCache := mkCache ∅ ∅ root_slot stats_default NoForkGraph 0.

(** [LoadingTaskWaiter::notify]: the cookie changes, and every waiting thread looks at it. *)
Definition notify (c : ProgramCache) : ProgramCache :=
  mkCache (entries c) (loading_entries c) (latest_root_slot c) (stats c) (fork_graph c)
    (cast_u 64 (waiter_cookie c + 1)).

(** ** Assigning *)

Definition bool_compare (b b' : bool) : comparison :=
  match b, b' with true, false => Gt | false, true => Lt | _, _ => Eq end.
Definition then_compare (c c' : comparison) : comparison := match c with Eq => c' | _ => c end.

(** The order of the versions of a program. *)
Definition compare_versions (environments : ProgramRuntimeEnvironments) (at_ e : ProgramCacheEntry) : comparison :=
  then_compare (effective_slot at_ ?= effective_slot e)
    (then_compare (deployment_slot at_ ?= deployment_slot e)
       (bool_compare (is_current_env environments (get_environment (program at_)))
          (is_current_env environments (get_environment (program e))))).

(** What may replace an entry in the same place. *)
Definition may_replace (existing e : ProgramCacheEntry) : bool :=
  match program existing, program e with
  | Builtin _, Builtin _ => true
  | Unloaded _, Loaded _ => true
  | Closed, Closed => negb (bool_decide (account_owner existing = account_owner e))
  | _, _ => false
  end.

(** The versions that stay beside a new one: other deployments, other environments, and itself. *)
Definition retained_with (e existing : ProgramCacheEntry) : bool :=
  negb (deployment_slot existing =? deployment_slot e)
  || match get_environment (program existing), get_environment (program e) with
     | Some a, Some b => negb (a =? b)
     | _, _ => false
     end
  || entry_eqb existing e.

Context (debug_assertions : bool).

(** The result is [true] when an entry was replaced that should not have been. *)
Definition assign_program (environments : ProgramRuntimeEnvironments) (key : Pubkey) (e : ProgramCacheEntry)
    (m : Cells) (c : ProgramCache) : option (Cells * ProgramCache * bool) :=
  if debug_assertions && match program e with DelayVisibility => true | _ => false end then None
  else
    let slot_versions := default [] (entries c !! key) in
    let finish m c versions :=
      Some (m, set_entries (<[key := filter (fun x => retained_with e x = true) versions]> (entries c)) c, false) in
    match binary_search_by (fun at_ => compare_versions environments at_ e) slot_versions with
    | Ok index =>
        let! existing := slot_versions !! index in
        if may_replace existing e then
          let m := cell_fetch_add (tx_usage_counter e) (cell_load (tx_usage_counter existing) m) m in
          finish m (map_stats bump_reloads c) (<[index := e]> slot_versions)
        else if debug_assertions then None
        else Some (m, map_stats bump_replacements (set_entries (<[key := slot_versions]> (entries c)) c), true)
    | Err index => finish m (map_stats bump_insertions c) (vec_insert index e slot_versions)
    end.

(** In the order in which the map is iterated. *)
Fixpoint merge_entries (environments : ProgramRuntimeEnvironments) (modified : list (Pubkey * ProgramCacheEntry))
    (m : Cells) (c : ProgramCache) : option (Cells * ProgramCache) :=
  match modified with
  | [] => Some (m, c)
  | (key, e) :: modified =>
      let! (m, c, _) := assign_program environments key e m c in
      merge_entries environments modified m c
  end.

(** ** Pruning *)

Definition remove_programs_with_no_entries (c : ProgramCache) : ProgramCache :=
  let before := Z.of_nat (size (entries c)) in
  let l := filter (fun kv => kv.2 <> []) (entries c) in
  let after := Z.of_nat (size l) in
  let c := set_entries l c in
  if after <? before then map_stats (bump_empty_entries (saturating_sub before after)) c else c.

Definition prune_by_deployment_slot (slot : Z) (c : ProgramCache) : ProgramCache :=
  remove_programs_with_no_entries
    (set_entries (filter (fun e => deployment_slot e <> slot) <$> entries c) c).

(** The closures of [prune] share these variables; the last two are counts of statistics. *)
Record PruneState := mkPruneState {
  first_ancestor_found : bool;
  first_ancestor_env : option Z;
  pruned_orphans : Z;
  pruned_environments : Z
}.

(** Whether an entry is on a fork that stays, and is not overshadowed there. *)
Definition prune_fork (fg : ForkGraph) (new_root latest_root : Z) (st : PruneState) (e : ProgramCacheEntry)
    : PruneState * bool :=
  let relation := fg (deployment_slot e) new_root in
  let orphan := mkPruneState (first_ancestor_found st) (first_ancestor_env st) (pruned_orphans st + 1)
                  (pruned_environments st) in
  if new_root <=? deployment_slot e then (st, is_equal_or_descendant relation)
  else if match relation with Ancestor => true | _ => false end || (deployment_slot e <=? latest_root) then
    if negb (first_ancestor_found st)
    then (mkPruneState true (get_environment (program e)) (pruned_orphans st) (pruned_environments st), true)
    else
      match get_environment (program e), first_ancestor_env st with
      | Some entry_env, Some env => if negb (entry_env =? env) then (st, true) else (orphan, false)
      | _, _ => (orphan, false)
      end
  else (orphan, false).

Definition prune_entry (fg : ForkGraph) (new_root latest_root : Z) (upcoming : option ProgramRuntimeEnvironments)
    (st : PruneState) (e : ProgramCacheEntry) : PruneState * bool :=
  let '(st, keep) := prune_fork fg new_root latest_root st e in
  match upcoming with
  | Some environments =>
      if keep && negb (matches_environment e environments)
      then (mkPruneState (first_ancestor_found st) (first_ancestor_env st) (pruned_orphans st)
              (pruned_environments st + 1), false)
      else (st, keep)
  | None => (st, keep)
  end.

(** From the last version to the first. *)
Fixpoint prune_loop (fg : ForkGraph) (new_root latest_root : Z) (upcoming : option ProgramRuntimeEnvironments)
    (st : PruneState) (l : list ProgramCacheEntry) : PruneState * list ProgramCacheEntry :=
  match l with
  | [] => (st, [])
  | e :: l =>
      let '(st, keep) := prune_entry fg new_root latest_root upcoming st e in
      let '(st, l) := prune_loop fg new_root latest_root upcoming st l in
      (st, if keep then e :: l else l)
  end.

Definition prune_versions (fg : ForkGraph) (new_root latest_root : Z) (upcoming : option ProgramRuntimeEnvironments)
    (l : list ProgramCacheEntry) : PruneState * list ProgramCacheEntry :=
  let '(st, l) := prune_loop fg new_root latest_root upcoming (mkPruneState false None 0 0) (rev l) in
  (st, rev l).

Definition prune (new_root : Z) (upcoming : option ProgramRuntimeEnvironments) (c : ProgramCache)
    : option ProgramCache :=
  match fork_graph c with
  | NoForkGraph => Some c
  | DroppedForkGraph => None
  | LiveForkGraph fg =>
      let pruned := prune_versions fg new_root (latest_root_slot c) upcoming <$> entries c in
      let sum f := map_fold (fun _ (x : PruneState * list ProgramCacheEntry) n => f x.1 + n) 0 pruned in
      let c := map_stats (bump_prunes (sum pruned_orphans) (sum pruned_environments))
                 (set_entries (snd <$> pruned) c) in
      let c := remove_programs_with_no_entries c in
      if debug_assertions && (new_root <? latest_root_slot c) then None
      else Some (set_latest_root_slot new_root c)
  end.

(** ** Extracting *)

Section extract.
Context (fg : ForkGraph) (root slot : Z) (environments : ProgramRuntimeEnvironments).

(** On the fork of the batch. *)
Definition on_fork (e : ProgramCacheEntry) : bool :=
  (deployment_slot e <=? root) || is_equal_or_ancestor (fg (deployment_slot e) slot).

Inductive Extracted := NotFound | FoundEntry (e : ProgramCacheEntry) | FoundDelayed (e : ProgramCacheEntry).

(** The loop over the versions, from the last to the first; [NotFound] is both the end of the
    loop and a [break]. *)
Fixpoint extract_version (criteria : ProgramCacheMatchCriteria) (filter_by_deployment_slot : option Z)
    (l : list ProgramCacheEntry) : Extracted :=
  match l with
  | [] => NotFound
  | e :: l =>
      if match filter_by_deployment_slot with Some slot => negb (slot =? deployment_slot e) | None => false end
      then extract_version criteria filter_by_deployment_slot l
      else if on_fork e then
        if effective_slot e <=? slot then
          if negb (matches_environment e environments) then
            extract_version criteria
              (match filter_by_deployment_slot with Some slot => Some slot | None => Some (deployment_slot e) end) l
          else if negb (matches_criteria e criteria) then NotFound
          else if is_unloaded e then NotFound
          else FoundEntry e
        else if is_implicit_delay_visibility_tombstone slot e then FoundDelayed e
        else extract_version criteria filter_by_deployment_slot l
      else extract_version criteria filter_by_deployment_slot l
  end.

(** The entry that is returned, with its counters. *)
Definition extract_entry (increment_usage_counter : bool) (found : Extracted) (m : Cells)
    : Cells * option ProgramCacheEntry :=
  let used e m :=
    let m := update_access_slot slot e m in
    (if increment_usage_counter then cell_fetch_add (tx_usage_counter e) 1 m else m, Some e) in
  match found with
  | NotFound => (m, None)
  | FoundEntry e => used e m
  | FoundDelayed e => let '(m, e) := delay_tombstone e m in used e m
  end.

(** [search_for.retain(..)]. *)
Fixpoint extract_loop (thread : Z) (increment_usage_counter : bool) (versions : gmap Pubkey (list ProgramCacheEntry))
    (search_for : list (Pubkey * ProgramCacheMatchCriteria * Z))
    (m : Cells) (found : gmap Pubkey ProgramCacheEntry) (loading : gmap Pubkey (Z * Z)) (task : option Pubkey)
    : Cells * gmap Pubkey ProgramCacheEntry * gmap Pubkey (Z * Z) * option Pubkey
      * list (Pubkey * ProgramCacheMatchCriteria * Z) :=
  match search_for with
  | [] => (m, found, loading, task, [])
  | (key, criteria, modified) :: search_for =>
      let '(m, r) :=
        extract_entry increment_usage_counter
          (extract_version criteria None (rev (default [] (versions !! key)))) m in
      match r with
      | Some e =>
          extract_loop thread increment_usage_counter versions search_for m (<[key := e]> found) loading task
      | None =>
          let '(loading, task) :=
            match task, loading !! key with
            | None, None => (<[key := (slot, thread)]> loading, Some key)
            | _, _ => (loading, task)
            end in
          let '(m, found, loading, task, rest) :=
            extract_loop thread increment_usage_counter versions search_for m found loading task in
          (m, found, loading, task, (key, criteria, modified) :: rest)
      end
  end.

End extract.

Definition extract (thread : Z) (environments : ProgramRuntimeEnvironments)
    (increment_usage_counter count_hits_and_misses : bool)
    (search_for : list (Pubkey * ProgramCacheMatchCriteria * Z)) (b : ProgramCacheForTxBatch)
    (m : Cells) (c : ProgramCache)
    : option (Cells * ProgramCache * ProgramCacheForTxBatch * list (Pubkey * ProgramCacheMatchCriteria * Z)
              * option Pubkey) :=
  match fork_graph c with
  | NoForkGraph | DroppedForkGraph => None
  | LiveForkGraph fg =>
      let '(m, found, loading, task, search_for) :=
        extract_loop fg (latest_root_slot c) (batch_slot b) environments thread increment_usage_counter
          (entries c) search_for m (batch_entries b) (loading_entries c) None in
      let c := set_loading_entries loading c in
      let b := set_batch_entries found b in
      let c :=
        if count_hits_and_misses
        then map_stats (fun s => bump_hits (Z.of_nat (size (batch_entries b))) (bump_misses (len search_for) s)) c
        else c in
      Some (m, c, b, search_for, task)
  end.

Definition finish_cooperative_loading_task (thread : Z) (environments : ProgramRuntimeEnvironments)
    (current_slot : Z) (key : Pubkey) (loaded_program : ProgramCacheEntry) (m : Cells) (c : ProgramCache)
    : option (Cells * ProgramCache * bool) :=
  let loading_thread := loading_entries c !! key in
  let c := set_loading_entries (delete key (loading_entries c)) c in
  if debug_assertions && negb (bool_decide (loading_thread = Some (current_slot, thread))) then None
  else
    let! c :=
      (if latest_root_slot c <? deployment_slot loaded_program then
         match fork_graph c with
         | NoForkGraph | DroppedForkGraph => None
         | LiveForkGraph fg =>
             Some (if is_equal_or_ancestor (fg (deployment_slot loaded_program) current_slot) then c
                   else map_stats bump_lost_insertions c)
         end
       else Some c) in
    let! (m, c, was_occupied) := assign_program environments key loaded_program m c in
    Some (m, notify c, was_occupied).

(** ** Evicting *)

(** A hash map as a list, in some order. *)
Context (iter_entries : gmap Pubkey (list ProgramCacheEntry) -> list (Pubkey * list ProgramCacheEntry)).

Definition get_flattened_entries (include_program_runtime_v1 : bool) (c : ProgramCache)
    : list (Pubkey * Z * ProgramCacheEntry) :=
  flat_map (fun '(id, second_level) =>
    omap (fun e => if is_loaded e && include_program_runtime_v1 then Some (id, 0, e) else None) second_level)
    (iter_entries (entries c)).

(** The first entry that is equal, with its position. *)
Fixpoint find_entry (e : ProgramCacheEntry) (l : list ProgramCacheEntry) (i : nat) : option (nat * ProgramCacheEntry) :=
  match l with
  | [] => None
  | x :: l => if entry_eqb x e then Some (i, x) else find_entry e l (S i)
  end.

Definition unload_program_entry (id : Pubkey) (remove_entry : ProgramCacheEntry) (m : Cells) (c : ProgramCache)
    : option (Cells * ProgramCache) :=
  let! second_level := entries c !! id in
  let! (i, candidate) := find_entry remove_entry second_level 0 in
  let '(m', r) := to_unloaded candidate m in
  match r with
  | Some unloaded =>
      let c := if cell_load (tx_usage_counter candidate) m =? 1 then map_stats bump_one_hit_wonders c else c in
      let c := map_stats (bump_evictions id) c in
      Some (m', set_entries (<[id := <[i := unloaded]> second_level]> (entries c)) c)
  | None => Some (m, c)
  end.

Fixpoint unload_all (l : list (Pubkey * Z * ProgramCacheEntry)) (m : Cells) (c : ProgramCache)
    : option (Cells * ProgramCache) :=
  match l with
  | [] => Some (m, c)
  | (id, _, e) :: l =>
      let! (m, c) := unload_program_entry id e m c in
      unload_all l m c
  end.

(** [apply_to] is that of the percentage. *)
Definition sort_and_unload (apply_to : Z -> Z) (m : Cells) (c : ProgramCache) : option (Cells * ProgramCache) :=
  let sorted_candidates := sort_by_key (fun x => cell_load (tx_usage_counter x.2) m) (get_flattened_entries true c) in
  let num_to_unload := saturating_sub (len sorted_candidates) (apply_to MAX_LOADED_ENTRY_COUNT) in
  unload_all (take (Z.to_nat num_to_unload) sorted_candidates) m c.

(** [random k n] is the number below [n] that the [k]th call draws; an empty range panics. *)
Fixpoint evict_loop (random : nat -> Z -> Z) (now : Z) (n k : nat) (candidates : list (Pubkey * Z * ProgramCacheEntry))
    (m : Cells) (c : ProgramCache) : option (Cells * ProgramCache) :=
  match n with
  | O => Some (m, c)
  | S n =>
      if is_nil candidates then None
      else
        let index1 := Z.to_nat (random k (len candidates)) in
        let! e1 := candidates !! index1 in
        let index2 := Z.to_nat (random (S k) (len candidates)) in
        let! e2 := candidates !! index2 in
        let usage_counter1 := decayed_usage_counter now e1.2 m in
        let usage_counter2 := decayed_usage_counter now e2.2 m in
        let! (x, candidates) := swap_remove (if usage_counter1 <? usage_counter2 then index1 else index2) candidates in
        let '(id, _, e) := x in
        let! (m, c) := unload_program_entry id e m c in
        evict_loop random now n (S (S k)) candidates m c
  end.

Definition evict_using_2s_random_selection (apply_to : Z -> Z) (random : nat -> Z -> Z) (now : Z)
    (m : Cells) (c : ProgramCache) : option (Cells * ProgramCache) :=
  let candidates := get_flattened_entries true c in
  let c := map_stats (set_water_level (len candidates)) c in
  let num_to_unload := saturating_sub (len candidates) (apply_to MAX_LOADED_ENTRY_COUNT) in
  evict_loop random now (Z.to_nat num_to_unload) 0 candidates m c.

Definition remove_programs (keys : list Pubkey) (c : ProgramCache) : ProgramCache :=
  set_entries (foldl (fun l k => delete k l) (entries c) keys) c.

End cache.

Arguments ProgramCacheEntryType : clear implicits.
Arguments ProgramCacheEntry : clear implicits.
Arguments ProgramCache : clear implicits.
Arguments ProgramCacheForTxBatch : clear implicits.
