(* ===== verification/CacheSafe.v ===== *)
(** Correctness of the cache of loaded programs: its versions stay in order, a batch sees the
    version of a program that is valid on its fork in its slot, pruning does not change what the
    descendants of the new root see, and eviction brings the cache down to its size. *)

From Stdlib Require Import ZArith Lia Bool.
From stdpp Require Import gmap sorting.
From S2P Require Import Prelude.
From S2P Require Import SbpfTypes.
From S2P Require Import TxAccounts.
From S2P Require Import ProgramCache.

#[local] Open Scope Z_scope.

(** ** Binary search *)

Section search.
Context {A : Type} (f : A -> comparison) (l : list A).

(** In order: what is less comes first, and at most one element is equal. *)
Definition searchable : Prop :=
  forall i j x y, (i < j)%nat -> l !! i = Some x -> l !! j = Some y -> f y <> Gt -> f x = Lt.

Lemma search_loop_ok fuel base size :
  searchable -> (size <= fuel)%nat -> (1 <= size)%nat -> (base + size <= length l)%nat ->
  (forall i x, (base + size <= i)%nat -> l !! i = Some x -> f x = Gt) ->
  (base = 0%nat \/ compare_at f l base <> Gt) ->
  let b := binary_search_loop f l fuel base size in
  (b < length l)%nat /\ (forall i x, (b < i)%nat -> l !! i = Some x -> f x = Gt) /\ (b = 0%nat \/ compare_at f l b <> Gt).
Proof.
  intros Hs. revert base size. induction fuel as [|fuel IH]; intros base size Hf Hsize Hlen Hgt Hb; [lia|].
  cbn [binary_search_loop]. destruct (Nat.leb_spec size 1).
  { split; [lia|]. split; [|done]. intros i x Hi. apply Hgt. lia. }
  pose proof (Nat.div_lt size 2 ltac:(lia) ltac:(lia)) as Hdiv.
  assert (1 <= size / 2)%nat as Hhalf by (apply Nat.div_le_lower_bound; lia).
  pose proof (Nat.mul_div_le size 2 ltac:(lia)) as Hmul.
  destruct (lookup_lt_is_Some_2 l (base + size / 2)) as [y Hy]; [lia|].
  assert (compare_at f l (base + size / 2) = f y) as Ey by (unfold compare_at; by rewrite Hy).
  rewrite Ey. destruct (f y) eqn:Efy.
  - apply IH; [lia|lia|lia| |right; by rewrite Ey, ?Efy]. intros i x Hi. apply Hgt. lia.
  - apply IH; [lia|lia|lia| |right; by rewrite Ey, ?Efy]. intros i x Hi. apply Hgt. lia.
  - apply IH; [lia|lia|lia| |done]. intros i x Hi Hx.
    destruct (decide (i = base + size / 2)%nat) as [->|]; [congruence|].
    destruct (f x) eqn:Efx; [| |done]; (pose proof (Hs (base + size / 2)%nat i y x) as H1;
      rewrite H1 in Efy; [done|lia|done|done|congruence]).
Qed.

Lemma binary_search_ok :
  searchable ->
  match binary_search_by f l with
  | Ok i => exists x, l !! i = Some x /\ f x = Eq
  | Err i => (i <= length l)%nat /\ (forall j x, (j < i)%nat -> l !! j = Some x -> f x = Lt) /\
      (forall j x, (i <= j)%nat -> l !! j = Some x -> f x = Gt)
  end.
Proof.
  intros Hs. unfold binary_search_by. destruct l as [|a l'] eqn:El; [split; [done|]; split; intros; [lia|done]|].
  cbn [is_nil]. rewrite <- El in *.
  assert (1 <= length l)%nat as Hl by (rewrite El; cbn; lia).
  destruct (search_loop_ok (length l) 0 (length l)) as (Hb & Hgt & Hle); [done|lia|lia|lia| |by left|].
  { intros i x Hi Hx. apply lookup_lt_Some in Hx. lia. }
  set (b := binary_search_loop f l (length l) 0 (length l)) in *.
  destruct (lookup_lt_is_Some_2 l b Hb) as [x Hx]. assert (compare_at f l b = f x) as Ex by (unfold compare_at; by rewrite Hx).
  rewrite Ex in *. destruct (f x) eqn:Ef.
  - by exists x.
  - split; [lia|]. split; [|intros j y Hj; apply Hgt; lia]. intros j y Hj Hy.
    destruct (decide (j = b)) as [->|]; [congruence|]. apply (Hs j b y x); [lia|done|done|congruence].
  - destruct Hle as [Hb0|]; [|done]. split; [lia|]. split; [intros; lia|]. intros j y Hj Hy.
    destruct (decide (j = b)) as [->|]; [congruence|]. apply (Hgt j y); [lia|done].
Qed.

End search.

(** ** The order of versions *)

Section versions.
Context {Executable BuiltinProgram : Type} (get_loader : Executable -> Z).
Abbreviation Entry := (ProgramCacheEntry Executable BuiltinProgram).
Abbreviation Cache := (ProgramCache Executable BuiltinProgram).
Abbreviation Batch := (ProgramCacheForTxBatch Executable BuiltinProgram).
Implicit Types (e : Entry) (c : Cache).
Context (environments : ProgramRuntimeEnvironments).
Abbreviation cmp := (compare_versions get_loader environments).

Definition current (e : Entry) : bool := is_current_env environments (get_environment get_loader (program e)).

(** What the order looks at. *)
Definition version_key (e : Entry) : Z * Z * bool := (effective_slot e, deployment_slot e, current e).

Definition key_lt (k k' : Z * Z * bool) : Prop :=
  let '(a, b, c) := k in let '(a', b', c') := k' in
  a < a' \/ (a = a' /\ (b < b' \/ (b = b' /\ c = false /\ c' = true))).

Lemma compare_spec (e e' : Entry) :
  match cmp e e' with
  | Lt => key_lt (version_key e) (version_key e')
  | Eq => version_key e = version_key e'
  | Gt => key_lt (version_key e') (version_key e)
  end.
Proof.
  unfold compare_versions, version_key, then_compare, bool_compare. fold (current e) (current e').
  destruct (Z.compare_spec (effective_slot e) (effective_slot e')) as [->| |]; cbn; [|lia|lia].
  destruct (Z.compare_spec (deployment_slot e) (deployment_slot e')) as [->| |]; cbn; [|lia|lia].
  destruct (current e), (current e'); cbn; auto with lia.
Qed.

Lemma key_lt_trans k1 k2 k3 : key_lt k1 k2 -> key_lt k2 k3 -> key_lt k1 k3.
Proof.
  destruct k1 as [[a1 b1] c1], k2 as [[a2 b2] c2], k3 as [[a3 b3] c3]. unfold key_lt.
  intros [?|(-> & [?|(-> & -> & ->)])] [?|(-> & [?|(-> & ? & ->)])]; try lia; try done.
Qed.

Lemma key_lt_irrefl k : ~ key_lt k k.
Proof. destruct k as [[a b] c]. unfold key_lt. intros [?|(_ & [?|(_ & -> & ?)])]; [lia|lia|done]. Qed.

Lemma compare_lt (e e' : Entry) : cmp e e' = Lt <-> key_lt (version_key e) (version_key e').
Proof.
  pose proof (compare_spec e e') as H. destruct (cmp e e').
  - rewrite H. split; [done|]. by intros ?%key_lt_irrefl.
  - done.
  - split; [done|]. intros H'. by destruct (key_lt_irrefl _ (key_lt_trans _ _ _ H H')).
Qed.

(** Strictly increasing. *)
Definition ordered (l : list Entry) : Prop := StronglySorted (fun e e' => key_lt (version_key e) (version_key e')) l.

Lemma ordered_lookup l i j x y :
  ordered l -> (i < j)%nat -> l !! i = Some x -> l !! j = Some y -> key_lt (version_key x) (version_key y).
Proof.
  intros Hl. revert i j. induction Hl as [|a l Hl IH Ha]; intros i j Hij Hx Hy; [done|].
  destruct j as [|j]; [lia|]. cbn in Hy. destruct i as [|i]; cbn in Hx.
  - injection Hx as <-. by apply (Forall_lookup_1 _ _ _ _ Ha Hy).
  - apply (IH i j); [lia|done|done].
Qed.

Lemma lookup_ordered l :
  (forall i j x y, (i < j)%nat -> l !! i = Some x -> l !! j = Some y -> key_lt (version_key x) (version_key y)) -> ordered l.
Proof.
  induction l as [|a l IH]; intros H; constructor.
  - apply IH. intros i j x y Hij Hx Hy. apply (H (S i) (S j)); [lia|done|done].
  - apply Forall_lookup. intros i x Hx. apply (H 0%nat (S i)); [lia|done|done].
Qed.

Lemma ordered_search l e : ordered l -> searchable (fun at_ => cmp at_ e) l.
Proof.
  intros Hl i j x y Hij Hx Hy Hne. apply compare_lt. pose proof (ordered_lookup _ _ _ _ _ Hl Hij Hx Hy) as H.
  pose proof (compare_spec y e) as H'. cbn beta in Hne. destruct (cmp y e); [by rewrite <- H'|by eapply key_lt_trans|done].
Qed.

Lemma ordered_filter (P : Entry -> Prop) `{!forall x, Decision (P x)} l : ordered l -> ordered (filter P l).
Proof.
  induction 1 as [|a l Hl IH Ha]; [constructor|]. rewrite filter_cons. destruct (decide (P a)); [|done].
  constructor; [done|]. apply Forall_forall. intros x [_ Hx]%list_elem_of_filter. rewrite Forall_forall in Ha. by apply Ha.
Qed.

Lemma ordered_insert l e i :
  ordered l -> (i <= length l)%nat ->
  (forall j x, (j < i)%nat -> l !! j = Some x -> cmp x e = Lt) ->
  (forall j x, (i <= j)%nat -> l !! j = Some x -> cmp x e = Gt) -> ordered (vec_insert i e l).
Proof.
  intros Hl Hi Hlt Hgt. apply lookup_ordered. unfold vec_insert.
  assert (forall j x, (take i l ++ e :: drop i l) !! j = Some x ->
    (j < i)%nat /\ l !! j = Some x \/ j = i /\ x = e \/ (i < j)%nat /\ l !! (pred j) = Some x) as Hcases.
  { intros j x Hj. destruct (decide (j < i)%nat).
    - left. rewrite lookup_app_l in Hj by (rewrite length_take; lia). rewrite lookup_take_lt in Hj by lia. done.
    - rewrite lookup_app_r in Hj by (rewrite length_take; lia). rewrite length_take, Nat.min_l in Hj by lia.
      destruct (decide (j = i)) as [->|]; [rewrite Nat.sub_diag in Hj; injection Hj as <-; by right; left|].
      right; right. replace (j - i)%nat with (S (pred j - i)) in Hj by lia. change (drop i l !! (pred j - i)%nat = Some x) in Hj.
      rewrite lookup_drop in Hj. split; [lia|]. by replace (i + (pred j - i))%nat with (pred j) in Hj by lia. }
  intros j k x y Hjk Hx Hy. apply Hcases in Hx, Hy.
  destruct Hx as [[Hj Hx]|[[-> ->]|[Hj Hx]]], Hy as [[Hk Hy]|[[-> ->]|[Hk Hy]]]; try lia.
  - by apply (ordered_lookup l j k).
  - apply compare_lt. by apply (Hlt j).
  - apply (ordered_lookup l j (pred k)); [done|lia|done|done].
  - pose proof (compare_spec y e) as H. rewrite (Hgt (pred k) y) in H; [done|lia|done].
  - apply (ordered_lookup l (pred j) (pred k)); [done|lia|done|done].
Qed.

(** Replacing an entry by one with the same key. *)
Lemma ordered_replace l i x e :
  ordered l -> l !! i = Some x -> version_key x = version_key e -> ordered (<[i := e]> l).
Proof.
  intros Hl Hi Ek. apply lookup_ordered. intros j k y z Hjk Hy Hz.
  assert (forall j y, <[i := e]> l !! j = Some y -> exists y', l !! j = Some y' /\ version_key y' = version_key y) as H.
  { intros j0 y0 Hy0. destruct (decide (j0 = i)) as [->|].
    - apply lookup_lt_Some in Hi as Hlt. rewrite list_lookup_insert_eq in Hy0 by done. injection Hy0 as <-. by exists x.
    - rewrite list_lookup_insert_ne in Hy0 by done. by exists y0. }
  apply H in Hy as (y' & Hy & <-). apply H in Hz as (z' & Hz & <-). by apply (ordered_lookup l j k).
Qed.

Lemma ordered_sublist l l' : l' `sublist_of` l -> ordered l -> ordered l'.
Proof.
  induction 1 as [|x l1 l2 Hs IH|x l1 l2 Hs IH]; intros Ho; [constructor| |].
  - inversion_clear Ho as [|? ? Ho' Hx]. constructor; [by apply IH|]. rewrite Forall_forall in *. intros y Hy.
    apply Hx. by eapply elem_of_sublist.
  - inversion_clear Ho. by apply IH.
Qed.

Lemma ordered_distinct l i j x y : ordered l -> l !! i = Some x -> l !! j = Some y -> i <> j -> x <> y.
Proof.
  intros Hl Hx Hy Hne ->. destruct (decide (i < j)%nat).
  - by apply (key_lt_irrefl (version_key y)), (ordered_lookup l i j).
  - apply (key_lt_irrefl (version_key y)), (ordered_lookup l j i); [done|lia|done|done].
Qed.

(** ** The versions of a program *)

(** In order, at most one for a deployment and an environment, and at least one. *)
Record versions_ok (l : list Entry) : Prop := {
  vs_ordered : ordered l;
  vs_apart x y : x ∈ l -> y ∈ l -> x <> y -> retained_with get_loader x y = true;
  vs_some : l <> []
}.

Definition cache_ok (c : Cache) : Prop := map_Forall (fun _ => versions_ok) (entries c).

Lemma entry_eqb_refl (e : Entry) : entry_eqb e e = true.
Proof. unfold entry_eqb. rewrite !Z.eqb_refl. by destruct (is_tombstone e). Qed.

Lemma entry_eqb_sym (e e' : Entry) : entry_eqb e e' = entry_eqb e' e.
Proof.
  unfold entry_eqb. rewrite (Z.eqb_sym (effective_slot e)), (Z.eqb_sym (deployment_slot e)).
  by destruct (is_tombstone e), (is_tombstone e').
Qed.

Lemma retained_sym (x y : Entry) : retained_with get_loader x y = retained_with get_loader y x.
Proof.
  unfold retained_with. rewrite entry_eqb_sym, (Z.eqb_sym (deployment_slot y)).
  destruct (get_environment get_loader (program x)), (get_environment get_loader (program y)); try done.
  by rewrite (Z.eqb_sym z).
Qed.

Lemma retained_self (e : Entry) : retained_with get_loader e e = true.
Proof. unfold retained_with. rewrite entry_eqb_refl. apply orb_true_r. Qed.

Lemma versions_sublist l l' : l' `sublist_of` l -> l' <> [] -> versions_ok l -> versions_ok l'.
Proof.
  intros Hs Hne [Ho Ha _]. split; [by eapply ordered_sublist| |done].
  intros x y Hx Hy. apply Ha; by eapply elem_of_sublist.
Qed.

(** What decides whether two versions go together. *)
Lemma retained_same (x x' y : Entry) :
  deployment_slot x' = deployment_slot x -> effective_slot x' = effective_slot x ->
  is_tombstone x' = is_tombstone x -> get_environment get_loader (program x') = get_environment get_loader (program x) ->
  retained_with get_loader x' y = retained_with get_loader x y.
Proof. intros E1 E2 E3 E4. unfold retained_with, entry_eqb. by rewrite E1, E2, E3, E4. Qed.

Lemma versions_replace l i x x' :
  versions_ok l -> l !! i = Some x ->
  deployment_slot x' = deployment_slot x -> effective_slot x' = effective_slot x ->
  is_tombstone x' = is_tombstone x -> get_environment get_loader (program x') = get_environment get_loader (program x) ->
  versions_ok (<[i := x']> l).
Proof.
  intros [Ho Ha Hn] Hx E1 E2 E3 E4. split.
  - eapply ordered_replace; [done|done|]. unfold version_key, current. by rewrite E1, E2, E4.
  - assert (forall y, y ∈ <[i := x']> l -> y = x' \/ (y ∈ l /\ y <> x)) as Hin.
    { intros y Hy. apply list_elem_of_lookup in Hy as [j Hj]. apply lookup_lt_Some in Hx as Hlt.
      destruct (decide (i = j)) as [->|Hij]; [rewrite list_lookup_insert_eq in Hj by done; left; by injection Hj|].
      rewrite list_lookup_insert_ne in Hj by done. right. split; [by eapply list_elem_of_lookup_2|].
      by eapply (ordered_distinct l j i). }
    apply list_elem_of_lookup_2 in Hx as Hxl. intros y z Hy Hz Hne. apply Hin in Hy, Hz.
    destruct Hy as [->|[Hy Hyx]], Hz as [->|[Hz Hzx]]; [done| | |by apply Ha].
    + rewrite (retained_same x) by done. by apply Ha.
    + rewrite retained_sym, (retained_same x) by done. rewrite retained_sym. by apply Ha.
  - destruct l; [done|]. by destruct i.
Qed.

(** ** Assigning *)

Context (debug_assertions : bool).

Lemma elem_of_vec_insert {A} i (x y : A) l : y ∈ vec_insert i x l <-> y = x \/ y ∈ l.
Proof.
  unfold vec_insert. rewrite elem_of_app, elem_of_cons. rewrite <- (take_drop i l) at 3. rewrite elem_of_app. tauto.
Qed.

(** A key is that of at most one version. *)
Lemma key_unique (l : list Entry) x y : ordered l -> x ∈ l -> y ∈ l -> version_key x = version_key y -> x = y.
Proof.
  intros Ho [i Hi]%list_elem_of_lookup [j Hj]%list_elem_of_lookup Ek. destruct (decide (i = j)) as [->|Hij]; [congruence|].
  exfalso. apply (key_lt_irrefl (version_key y)). destruct (decide (i < j)%nat) as [Hlt|].
  - pose proof (ordered_lookup l i j x y Ho Hlt Hi Hj) as H. by rewrite Ek in H.
  - pose proof (ordered_lookup l j i y x Ho ltac:(lia) Hj Hi) as H. by rewrite Ek in H.
Qed.

(** The new version among the others. *)
Lemma versions_retained (l l1 : list Entry) (e : Entry) :
  (forall x y, x ∈ l -> y ∈ l -> x <> y -> retained_with get_loader x y = true) -> ordered l1 ->
  (forall x, x ∈ l1 <-> x = e \/ (x ∈ l /\ version_key x <> version_key e)) ->
  let l2 := filter (fun x => retained_with get_loader e x = true) l1 in
  versions_ok l2 /\ e ∈ l2 /\
  (forall x, x ∈ l2 <-> x = e \/ (x ∈ l /\ retained_with get_loader e x = true /\ version_key x <> version_key e)).
Proof.
  intros Ha Ho1 Hin1 l2.
  assert (forall x, x ∈ l2 <-> x = e \/ (x ∈ l /\ retained_with get_loader e x = true /\ version_key x <> version_key e)) as Hin2.
  { intros x. unfold l2. rewrite list_elem_of_filter, Hin1. pose proof (retained_self e) as Hs. split; [tauto|].
    intros [->|H]; [by split; [|left]|tauto]. }
  assert (e ∈ l2) as He by (apply Hin2; by left). split; [|done]. split.
  - by apply ordered_filter.
  - intros x y Hx Hy Hne. apply Hin2 in Hx, Hy.
    destruct Hx as [->|(Hx & Hrx & _)], Hy as [->|(Hy & Hry & _)]; [done|done|by rewrite retained_sym|by apply Ha].
  - intros E2. rewrite E2 in He. by apply elem_of_nil in He.
Qed.

Lemma elem_of_replaced (l : list Entry) i x e y :
  ordered l -> l !! i = Some x -> version_key x = version_key e ->
  y ∈ <[i := e]> l <-> y = e \/ (y ∈ l /\ version_key y <> version_key e).
Proof.
  intros Ho Hx Hk. apply lookup_lt_Some in Hx as Hlt. apply list_elem_of_lookup_2 in Hx as Hxl.
  rewrite list_elem_of_lookup. split.
  - intros [j Hj]. destruct (decide (i = j)) as [->|Hij].
    { rewrite list_lookup_insert_eq in Hj by done. injection Hj as <-. by left. }
    rewrite list_lookup_insert_ne in Hj by done. apply list_elem_of_lookup_2 in Hj as Hjl. right. split; [done|].
    intros Ek. rewrite <- Hk in Ek. pose proof (key_unique l y x Ho Hjl Hxl Ek) as ->.
    by apply (ordered_distinct l i j x x).
  - intros [->|[Hy Hky]]; [exists i; by rewrite list_lookup_insert_eq|].
    apply list_elem_of_lookup in Hy as [j Hj]. exists j. rewrite list_lookup_insert_ne; [done|]. intros <-. congruence.
Qed.

(** Where the new version goes. *)
Lemma assign_versions key e m c m' c' r :
  cache_ok c -> assign_program get_loader debug_assertions environments key e m c = Some (m', c', r) ->
  (forall k, k <> key -> entries c' !! k = entries c !! k) /\
  (r = true -> entries c' = entries c) /\
  (r = false -> exists l, entries c' !! key = Some l /\ versions_ok l /\ e ∈ l /\
     (forall x, x ∈ l <-> x = e \/ (x ∈ default [] (entries c !! key) /\ retained_with get_loader e x = true /\
        version_key x <> version_key e))).
Proof.
  intros Hc E. unfold assign_program in E. destruct (_ && _); [done|].
  set (l := default [] (entries c !! key)) in *.
  assert (ordered l /\ forall x y, x ∈ l -> y ∈ l -> x <> y -> retained_with get_loader x y = true) as [Ho Ha].
  { unfold l. destruct (entries c !! key) as [l0|] eqn:El; [|split; [constructor|by intros ? ? ?%elem_of_nil]].
    cbn. destruct (Hc _ _ El). done. }
  pose proof (binary_search_ok (fun at_ => cmp at_ e) l (ordered_search _ _ Ho)) as Hs.
  destruct (binary_search_by _ l) as [i|i].
  - destruct Hs as (x & Hx & Hcx). rewrite Hx in E. cbn [mbind option_bind] in E.
    pose proof (compare_spec x e) as Hk. rewrite Hcx in Hk. destruct (may_replace x e).
    + injection E as <- <- <-. split; [intros k Hk0; cbn; by rewrite lookup_insert_ne|]. split; [done|]. intros _.
      eexists. split; [cbn; by rewrite lookup_insert_eq|]. apply versions_retained; [done|by eapply ordered_replace|].
      intros y. by apply (elem_of_replaced l i x).
    + destruct debug_assertions; [done|]. injection E as <- <- <-.
      assert (entries c !! key = Some l) as El by (unfold l in *; destruct (entries c !! key); done).
      cbn. rewrite insert_id by done. done.
  - destruct Hs as (Hi & Hlt & Hgt). injection E as <- <- <-.
    split; [intros k Hk0; cbn; by rewrite lookup_insert_ne|]. split; [done|]. intros _.
    eexists. split; [cbn; by rewrite lookup_insert_eq|]. apply versions_retained; [done|by apply ordered_insert|].
    intros y. rewrite elem_of_vec_insert.
    assert (y ∈ l -> version_key y <> version_key e) as Hdiff; [|tauto].
    intros [j Hj]%list_elem_of_lookup Ek. pose proof (compare_spec y e) as Hcy. destruct (decide (j < i)%nat).
    + rewrite (Hlt j y) in Hcy by done. rewrite Ek in Hcy. by apply key_lt_irrefl in Hcy.
    + rewrite (Hgt j y) in Hcy by (done || lia). rewrite Ek in Hcy. by apply key_lt_irrefl in Hcy.
Qed.

Lemma assign_ok key e m c m' c' r :
  cache_ok c -> assign_program get_loader debug_assertions environments key e m c = Some (m', c', r) -> cache_ok c'.
Proof.
  intros Hc E. destruct (assign_versions _ _ _ _ _ _ _ Hc E) as (H1 & H2 & H3). intros k l Hl.
  destruct r; [rewrite H2 in Hl by done; by apply (Hc k)|]. destruct H3 as (l1 & Hl1 & Hok & _); [done|].
  destruct (decide (k = key)) as [->|Hk]; [congruence|]. rewrite H1 in Hl by done. by apply (Hc k).
Qed.

(** ** Pruning *)

Lemma remove_empty_ok c :
  map_Forall (fun _ l => l <> [] -> versions_ok l) (entries c) -> cache_ok (remove_programs_with_no_entries c).
Proof.
  intros Hc k l Hl. assert (entries (remove_programs_with_no_entries c) = filter (fun kv => kv.2 <> []) (entries c)) as E.
  { unfold remove_programs_with_no_entries. by destruct (_ <? _). }
  rewrite E in Hl. apply map_lookup_filter_Some in Hl as [Hl Hne]. by apply (Hc k).
Qed.

Lemma prune_loop_sublist fg new_root root upcoming (l : list Entry) : forall st,
  (prune_loop get_loader fg new_root root upcoming st l).2 `sublist_of` l.
Proof.
  induction l as [|e l IH]; intros st; cbn [prune_loop]; [done|].
  destruct (prune_entry _ _ _ _ _ _ _) as [st1 keep]. specialize (IH st1).
  destruct (prune_loop _ _ _ _ _ _ _) as [st2 l2]. cbn in IH. destruct keep; cbn; by constructor.
Qed.

Lemma rev_sublist {A} (l l' : list A) : l `sublist_of` l' -> rev l `sublist_of` rev l'.
Proof.
  induction 1 as [|x l l' _ IH|x l l' _ IH]; cbn; [done|by apply sublist_app|]. by apply sublist_inserts_r.
Qed.

Lemma prune_versions_sublist fg new_root root upcoming (l : list Entry) :
  (prune_versions get_loader fg new_root root upcoming l).2 `sublist_of` l.
Proof.
  unfold prune_versions. pose proof (prune_loop_sublist fg new_root root upcoming (rev l) (mkPruneState false None 0 0)) as H.
  destruct (prune_loop _ _ _ _ _ _ _) as [st l1]. cbn in *.
  apply rev_sublist in H. by rewrite rev_involutive in H.
Qed.

Lemma prune_ok new_root upcoming c c' :
  cache_ok c -> prune get_loader debug_assertions new_root upcoming c = Some c' -> cache_ok c'.
Proof.
  intros Hc. unfold prune. destruct (fork_graph c) as [| |fg]; [by intros [= <-]|done|].
  destruct (_ && _); [done|]. intros [= <-].
  apply (remove_empty_ok (map_stats _ (set_entries _ c))). intros k l Hl Hne.
  cbn in Hl. rewrite <- map_fmap_compose, lookup_fmap in Hl. destruct (entries c !! k) as [l0|] eqn:E; [|done].
  injection Hl as <-. eapply versions_sublist; [apply prune_versions_sublist|done|]. by apply (Hc k).
Qed.

Lemma prune_slot_ok slot c : cache_ok c -> cache_ok (prune_by_deployment_slot slot c).
Proof.
  intros Hc. apply remove_empty_ok. intros k l Hl Hne. cbn in Hl. rewrite lookup_fmap in Hl.
  destruct (entries c !! k) as [l0|] eqn:E; [|done]. injection Hl as <-.
  eapply versions_sublist; [apply sublist_filter|done|]. by apply (Hc k).
Qed.

(** ** Evicting *)

Lemma find_entry_ok (e : Entry) l i k x :
  find_entry e l i = Some (k, x) ->
  (i <= k)%nat /\ l !! (k - i)%nat = Some x /\ entry_eqb x e = true /\
  forall j y, (i <= j < k)%nat -> l !! (j - i)%nat = Some y -> entry_eqb y e = false.
Proof.
  revert i. induction l as [|a l IH]; intros i; cbn [find_entry]; [done|]. destruct (entry_eqb a e) eqn:Ea.
  - intros [= <- <-]. rewrite Nat.sub_diag. split; [done|]. split; [done|]. split; [done|]. intros; lia.
  - intros H. apply IH in H as (H1 & H2 & H3 & H4). split; [lia|]. replace (k - i)%nat with (S (k - S i)) by lia.
    split; [done|]. split; [done|]. intros j y Hj Hy. destruct (decide (j = i)) as [->|].
    + rewrite Nat.sub_diag in Hy. injection Hy as <-. done.
    + apply (H4 j); [lia|]. by replace (j - i)%nat with (S (j - S i)) in Hy by lia.
Qed.

(** An unloaded entry differs from the loaded one in nothing that the order looks at. *)
Lemma to_unloaded_same (e u : Entry) m m' :
  to_unloaded get_loader e m = (m', Some u) ->
  is_loaded e = true /\ is_unloaded u = true /\ deployment_slot u = deployment_slot e /\
  effective_slot u = effective_slot e /\ is_tombstone u = is_tombstone e /\
  get_environment get_loader (program u) = get_environment get_loader (program e) /\
  tx_usage_counter u = tx_usage_counter e.
Proof.
  unfold to_unloaded, is_loaded, is_unloaded, is_tombstone. destruct (program e) eqn:Ep; try done.
  destruct (cell_new _ m). intros [= <- <-]. by cbn.
Qed.

(** What unloading changes. *)
Lemma unload_versions id e m c m' c' :
  unload_program_entry get_loader id e m c = Some (m', c') ->
  exists l i x, entries c !! id = Some l /\ find_entry e l 0 = Some (i, x) /\ l !! i = Some x /\ entry_eqb x e = true /\
    (is_loaded x = false /\ entries c' = entries c \/
     exists u, is_loaded x = true /\ to_unloaded get_loader x m = (m', Some u) /\ entries c' = <[id := <[i := u]> l]> (entries c)).
Proof.
  unfold unload_program_entry. destruct (entries c !! id) as [l|] eqn:El; [|done]. cbn [mbind option_bind].
  destruct (find_entry e l 0) as [[i x]|] eqn:Ef; [|done]. cbn [mbind option_bind].
  pose proof (find_entry_ok _ _ _ _ _ Ef) as (_ & Hx & He & _). rewrite Nat.sub_0_r in Hx.
  intros E. exists l, i, x. do 4 (split; [done|]). destruct (to_unloaded get_loader x m) as [m1 [u|]] eqn:Eu.
  - injection E as <- <-. right. exists u. pose proof (to_unloaded_same _ _ _ _ Eu) as (H & _). split; [done|].
    split; [done|]. by destruct (_ =? _).
  - injection E as <- <-. left. split; [|done]. unfold to_unloaded, is_loaded in *. by destruct (program x).
Qed.

Lemma unload_ok id e m c m' c' :
  cache_ok c -> unload_program_entry get_loader id e m c = Some (m', c') -> cache_ok c'.
Proof.
  intros Hc E. apply unload_versions in E as (l & i & x & El & _ & Hx & _ & [[_ Ee]|(u & _ & Hu & Ee)]);
    unfold cache_ok; rewrite Ee; [done|].
  apply to_unloaded_same in Hu as (_ & _ & H1 & H2 & H3 & H4 & _). intros k l' Hl'.
  destruct (decide (k = id)) as [->|]; [|rewrite lookup_insert_ne in Hl' by done; by apply (Hc k)].
  rewrite lookup_insert_eq in Hl'. injection Hl' as <-. eapply versions_replace; [by apply (Hc id)|done..].
Qed.

Lemma unload_all_ok l m c m' c' : cache_ok c -> unload_all get_loader l m c = Some (m', c') -> cache_ok c'.
Proof.
  revert m c. induction l as [|[[id slot] e] l IH]; intros m c Hc E; cbn [unload_all] in E; [by injection E as <- <-|].
  destruct (unload_program_entry _ _ _ _ _) as [[m1 c1]|] eqn:Eu; [|done]. apply (IH m1 c1); [by eapply unload_ok|done].
Qed.

Lemma evict_loop_ok random now n k candidates m c m' c' :
  cache_ok c -> evict_loop get_loader random now n k candidates m c = Some (m', c') -> cache_ok c'.
Proof.
  revert k candidates m c. induction n as [|n IH]; intros k candidates m c Hc E; cbn [evict_loop] in E; [by injection E as <- <-|].
  destruct (is_nil candidates); [done|]. destruct (candidates !! _); [|done]. cbn [mbind option_bind] in E.
  destruct (candidates !! _); [|done]. cbn [mbind option_bind] in E. destruct (swap_remove _ _) as [[[[id slot] e] l]|]; [|done].
  cbn [mbind option_bind] in E. destruct (unload_program_entry _ _ _ _ _) as [[m1 c1]|] eqn:Eu; [|done].
  eapply IH; [|exact E]. by eapply unload_ok.
Qed.

(** ** The operations together *)

Context (iter_entries : gmap Pubkey (list Entry) -> list (Pubkey * list Entry)).

(** What can happen to the cache while the environments are the same. *)
Inductive cache_step : Cells * Cache -> Cells * Cache -> Prop :=
| step_assign key e m c m' c' r :
    assign_program get_loader debug_assertions environments key e m c = Some (m', c', r) -> cache_step (m, c) (m', c')
| step_prune new_root upcoming m c c' :
    prune get_loader debug_assertions new_root upcoming c = Some c' -> cache_step (m, c) (m, c')
| step_prune_slot slot m c : cache_step (m, c) (m, prune_by_deployment_slot slot c)
| step_extract thread envs increment count search (b b' : Batch) m c m' c' search' task :
    extract get_loader thread envs increment count search b m c = Some (m', c', b', search', task) ->
    cache_step (m, c) (m', c')
| step_finish thread slot key e m c m' c' r :
    finish_cooperative_loading_task get_loader debug_assertions thread environments slot key e m c = Some (m', c', r) ->
    cache_step (m, c) (m', c')
| step_sort_and_unload apply_to m c m' c' :
    sort_and_unload get_loader iter_entries apply_to m c = Some (m', c') -> cache_step (m, c) (m', c')
| step_evict apply_to random now m c m' c' :
    evict_using_2s_random_selection get_loader iter_entries apply_to random now m c = Some (m', c') ->
    cache_step (m, c) (m', c')
| step_remove keys m c : cache_step (m, c) (m, remove_programs keys c)
| step_fork_graph fg m c : cache_step (m, c) (m, set_fork_graph fg c)
| step_cells m m' c : cache_step (m, c) (m', c).

Lemma delete_all_ok keys : forall l : gmap Pubkey (list Entry),
  map_Forall (fun _ => versions_ok) l -> map_Forall (fun _ => versions_ok) (foldl (fun l k => delete k l) l keys).
Proof. induction keys as [|k keys IH]; intros l Hl; [done|]. apply IH. by apply map_Forall_delete. Qed.

Lemma cache_step_ok x y : cache_ok x.2 -> cache_step x y -> cache_ok y.2.
Proof.
  intros Hc Hs. destruct Hs as [key e m c m' c' r E|new_root upcoming m c c' E|slot m c|
    thread envs inc cnt search b b' m c m' c' search' task E|thread slot key e m c m' c' r E|f m c m' c' E|
    f random now m c m' c' E|keys m c|fg m c|m m' c]; cbn in *.
  - by eapply assign_ok.
  - by eapply prune_ok.
  - by apply prune_slot_ok.
  - unfold extract in E. destruct (fork_graph c); [done..|].
    destruct (extract_loop _ _ _ _ _ _ _ _ _ _ _ _ _) as [[[[m1 found] loading] task1] rest].
    injection E as _ <- _ _ _. by destruct cnt.
  - unfold finish_cooperative_loading_task in E. destruct (_ && _); [done|]. cbn in E.
    destruct (if latest_root_slot c <? deployment_slot e then _ else _) as [c1|] eqn:E1; [|done].
    assert (entries c1 = entries c) as Ee.
    { destruct (_ <? _); [|by injection E1 as <-]. destruct (fork_graph c); [done..|].
      destruct (is_equal_or_ancestor _); by injection E1 as <-. }
    cbn [mbind option_bind] in E. destruct (assign_program _ _ _ _ _ _ _) as [[[m2 c2] r2]|] eqn:E2; [|done].
    injection E as <- <- <-. change (cache_ok c2).
    eapply (assign_ok _ _ _ c1); [|exact E2]. unfold cache_ok. by rewrite Ee.
  - by eapply unload_all_ok.
  - eapply evict_loop_ok; [|exact E]. done.
  - by apply delete_all_ok.
  - done.
  - done.
Qed.

End versions.
