(* ===== verification/CacheView.v ===== *)
(** What a batch of transactions sees of the cache of loaded programs: the newest deployment on
    its fork, and that pruning does not change it. *)

From Stdlib Require Import ZArith Lia Bool.
From stdpp Require Import gmap sorting.
From S2P Require Import Prelude.
From S2P Require Import SbpfTypes.
From S2P Require Import TxAccounts.
From S2P Require Import ProgramCache.
From S2P Require Import CacheSafe.

#[local] Open Scope Z_scope.

(** ** Forks *)

(** What the cache relies on in a fork graph: ancestors come earlier and form a line. *)
Class ForkGraphLaws (fg : ForkGraph) : Prop := {
  fork_equal a b : fg a b = EqualBlock -> a = b;
  fork_before a b : fg a b = Ancestor -> a < b;
  fork_inverse a b : fg a b = Descendant <-> fg b a = Ancestor;
  fork_known a b : fg a b = Ancestor -> fg a a = EqualBlock /\ fg b b = EqualBlock;
  fork_trans a b c : fg a b = Ancestor -> fg b c = Ancestor -> fg a c = Ancestor;
  fork_line a b c : fg a c = Ancestor -> fg b c = Ancestor -> a < b -> fg a b = Ancestor
}.

Section view.
Context {Executable BuiltinProgram : Type} (get_loader : Executable -> Z).
Abbreviation Entry := (ProgramCacheEntry Executable BuiltinProgram).
Implicit Types (e x y : Entry) (l : list Entry).

(** The slots of an entry: it is effective in the slot of its deployment or in the next one. *)
Definition slots_ok (e : Entry) : Prop :=
  0 <= deployment_slot e /\ deployment_slot e <= effective_slot e <= deployment_slot e + DELAY_VISIBILITY_SLOT_OFFSET /\
  (is_builtin e = true -> effective_slot e = deployment_slot e).

(** From the last version to the first. *)
Definition descending (l : list Entry) : Prop :=
  StronglySorted (fun x y => effective_slot y < effective_slot x \/
    (effective_slot y = effective_slot x /\ deployment_slot y <= deployment_slot x)) l.

Lemma rev_descending environments l : ordered get_loader environments l -> descending (rev l).
Proof.
  intros Ho. unfold descending. induction Ho as [|a l Ho IH Ha]; cbn; [constructor|].
  apply StronglySorted_app_2; [|done|by repeat constructor].
  intros x y Hx Hy%list_elem_of_singleton. subst y. apply list_elem_of_In, in_rev, list_elem_of_In in Hx.
  rewrite Forall_forall in Ha. specialize (Ha x Hx). unfold version_key, key_lt in Ha. lia.
Qed.

(** ** Extracting *)

Section extract.
Context (fg : ForkGraph) `{!ForkGraphLaws fg} (root slot : Z) (Hroot : root <= slot).
Context (environments : ProgramRuntimeEnvironments).
Abbreviation visible := (on_fork fg root slot).
Abbreviation ext := (extract_version get_loader fg root slot environments).

Lemma visible_before e : visible e = true -> deployment_slot e <= slot.
Proof.
  unfold on_fork. intros [H|H]%orb_prop; [lia|]. destruct (fg (deployment_slot e) slot) eqn:E; try done.
  - apply fork_before in E. lia.
  - apply fork_equal in E. lia.
Qed.

(** On the fork, what is not effective yet is delayed. *)
Lemma visible_delayed e :
  slots_ok e -> visible e = true -> slot < effective_slot e -> is_implicit_delay_visibility_tombstone slot e = true.
Proof.
  intros (H0 & H1 & H2) Hv Hs. apply visible_before in Hv. unfold is_implicit_delay_visibility_tombstone, DELAY_VISIBILITY_SLOT_OFFSET in *.
  destruct (is_builtin e); [specialize (H2 eq_refl); lia|]. cbn [negb andb].
  unfold saturating_sub. lia.
Qed.

(** Whether an entry can be the answer. *)
Definition candidate (e : Entry) : bool :=
  visible e && (effective_slot e <=? slot) && matches_environment get_loader e environments.
Definition accepted (criteria : ProgramCacheMatchCriteria) (e : Entry) : bool :=
  matches_criteria e criteria && negb (is_unloaded e).

Lemma extract_sound criteria f l :
  match ext criteria f l with
  | FoundEntry e => e ∈ l /\ (forall d, f = Some d -> deployment_slot e = d) /\ candidate e = true /\ accepted criteria e = true
  | FoundDelayed e => e ∈ l /\ (forall d, f = Some d -> deployment_slot e = d) /\ visible e = true /\
      is_implicit_delay_visibility_tombstone slot e = true
  | NotFound => True
  end.
Proof.
  revert f. induction l as [|a l IH]; intros f; cbn [extract_version]; [done|].
  assert (forall f', (forall d, f = Some d -> f' = Some d) ->
    match ext criteria f' l with
    | FoundEntry e => e ∈ a :: l /\ (forall d, f = Some d -> deployment_slot e = d) /\ candidate e = true /\ accepted criteria e = true
    | FoundDelayed e => e ∈ a :: l /\ (forall d, f = Some d -> deployment_slot e = d) /\ visible e = true /\
        is_implicit_delay_visibility_tombstone slot e = true
    | NotFound => True
    end) as Hrec.
  { intros f' Hf. specialize (IH f'). destruct (ext criteria f' l) as [|e|e]; [done| |];
      destruct IH as (H1 & H2 & H3 & H4); (split; [by right|]); (split; [auto|done]). }
  destruct (match f with Some s => negb (s =? deployment_slot a) | None => false end) eqn:Ef; [by apply Hrec|].
  assert (forall d, f = Some d -> deployment_slot a = d) as Hd.
  { intros d ->. apply negb_false_iff, Z.eqb_eq in Ef. done. }
  destruct (visible a) eqn:Ev; [|by apply Hrec]. destruct (effective_slot a <=? slot) eqn:Ee.
  - destruct (matches_environment get_loader a environments) eqn:Em; cbn [negb]; [|by apply Hrec; destruct f; naive_solver].
    destruct (matches_criteria a criteria) eqn:Ec; cbn [negb]; [|done]. destruct (is_unloaded a) eqn:Eu; [done|].
    split; [by left|]. split; [done|]. unfold candidate, accepted. by rewrite Ev, Ee, Em, Ec, Eu.
  - destruct (is_implicit_delay_visibility_tombstone slot a) eqn:Ei; [|by apply Hrec]. split; [by left|]. done.
Qed.

(** Versions on other forks are passed over. *)
Lemma extract_skip criteria l1 l2 : Forall (fun x => visible x = false) l1 -> ext criteria None (l1 ++ l2) = ext criteria None l2.
Proof. induction 1 as [|x l1 Hx _ IH]; [done|]. cbn [app extract_version]. by rewrite Hx. Qed.

(** The first version on the fork. *)
Lemma first_visible l :
  (Forall (fun x => visible x = false) l) \/
  exists l1 y l2, l = l1 ++ y :: l2 /\ Forall (fun x => visible x = false) l1 /\ visible y = true.
Proof.
  induction l as [|a l IH]; [by left|]. destruct (visible a) eqn:Ea; [right; by exists [], a, l|].
  destruct IH as [H|(l1 & y & l2 & -> & H1 & Hy)]; [left; by constructor|].
  right. exists (a :: l1), y, l2. split; [done|]. split; [by constructor|done].
Qed.

Lemma first_newest l l1 y l2 x :
  descending l -> Forall slots_ok l -> l = l1 ++ y :: l2 -> Forall (fun x => visible x = false) l1 ->
  x ∈ l -> visible x = true -> deployment_slot x <= deployment_slot y /\ (x = y \/ x ∈ l2).
Proof.
  intros Hd Hs -> H1 Hx Hv. apply elem_of_app in Hx as [Hx|Hx].
  { rewrite Forall_forall in H1. by rewrite H1 in Hv. }
  apply elem_of_cons in Hx as [->|Hx]; [split; [done|by left]|]. split; [|by right].
  apply StronglySorted_app in Hd as (_ & _ & Hd). apply StronglySorted_inv in Hd as [_ Hd].
  rewrite Forall_forall in Hd. specialize (Hd x Hx). rewrite Forall_forall in Hs.
  assert (slots_ok x /\ slots_ok y) as [(_ & Hx1 & _) (_ & Hy1 & _)].
  { split; apply Hs; rewrite elem_of_app, elem_of_cons; tauto. }
  unfold DELAY_VISIBILITY_SLOT_OFFSET in *. lia.
Qed.

(** The search among the versions of one deployment. *)
Lemma extract_deployment criteria d l :
  Forall (fun x => deployment_slot x = d -> visible x = true -> effective_slot x <= slot) l ->
  match ext criteria (Some d) l with
  | FoundEntry _ => True
  | FoundDelayed _ => False
  | NotFound => forall e, e ∈ l -> deployment_slot e = d -> candidate e = true ->
      exists x, x ∈ l /\ deployment_slot x = d /\ candidate x = true /\ accepted criteria x = false
  end.
Proof.
  induction 1 as [|a l Ha Hl IH]; cbn [extract_version]; [by intros e ?%elem_of_nil|].
  assert ((deployment_slot a = d -> candidate a = false) ->
    match ext criteria (Some d) l with
    | FoundEntry _ => True
    | FoundDelayed _ => False
    | NotFound => forall e, e ∈ a :: l -> deployment_slot e = d -> candidate e = true ->
      exists x, x ∈ a :: l /\ deployment_slot x = d /\ candidate x = true /\ accepted criteria x = false
    end) as Hrec.
  { intros Hna. destruct (ext criteria (Some d) l); [|done|done]. intros e [->|He]%elem_of_cons Hd Hc.
    - by rewrite Hna in Hc.
    - destruct (IH e He Hd Hc) as (x & Hx & H). exists x. split; [by right|done]. }
  destruct (Z.eqb_spec d (deployment_slot a)) as [Ed|Ed]; cbn [negb]; [|apply Hrec; congruence].
  destruct (visible a) eqn:Ev; [|apply Hrec; intros _; unfold candidate; by rewrite Ev].
  destruct (effective_slot a <=? slot) eqn:Ee; [|specialize (Ha (eq_sym Ed) eq_refl); lia].
  destruct (matches_environment get_loader a environments) eqn:Em; cbn [negb].
  2:{ apply Hrec. intros _. unfold candidate. by rewrite Ev, Ee, Em. }
  assert (candidate a = true) as Hca by (unfold candidate; by rewrite Ev, Ee, Em).
  destruct (matches_criteria a criteria) eqn:Ec; cbn [negb]; [destruct (is_unloaded a) eqn:Eu; [|done]|].
  - intros e _ _ _. exists a. split; [by left|]. split; [done|]. split; [done|]. unfold accepted. by rewrite Ec, Eu.
  - intros e _ _ _. exists a. split; [by left|]. split; [done|]. split; [done|]. unfold accepted. by rewrite Ec.
Qed.

(** The answer when the first version on the fork is effective. *)
Lemma extract_effective criteria y l :
  visible y = true -> effective_slot y <= slot ->
  Forall (fun x => deployment_slot x = deployment_slot y -> visible x = true -> effective_slot x <= slot) l ->
  match ext criteria None (y :: l) with
  | FoundEntry e => e ∈ y :: l /\ candidate e = true /\ accepted criteria e = true /\ deployment_slot e = deployment_slot y
  | FoundDelayed _ => False
  | NotFound => forall e, e ∈ y :: l -> candidate e = true -> deployment_slot e = deployment_slot y ->
      exists x, x ∈ y :: l /\ deployment_slot x = deployment_slot y /\ candidate x = true /\ accepted criteria x = false
  end.
Proof.
  intros Hy Hle Hl. apply Z.leb_le in Hle. cbn [extract_version]. rewrite Hy, Hle.
  assert (candidate y = matches_environment get_loader y environments) as Hcy by (unfold candidate; by rewrite Hy, Hle).
  destruct (matches_environment get_loader y environments) eqn:Em; cbn [negb].
  - destruct (accepted criteria y) eqn:Ea; unfold accepted in Ea.
    + apply andb_prop in Ea as [E1 E2]. rewrite E1. cbn [negb]. apply negb_true_iff in E2. rewrite E2.
      split; [by left|]. split; [done|]. split; [unfold accepted; by rewrite E1, E2|done].
    + assert ((if negb (matches_criteria y criteria) then NotFound else if is_unloaded y then NotFound else FoundEntry y) = NotFound)
        as -> by (revert Ea; by destruct (matches_criteria y criteria), (is_unloaded y)).
      intros e He Hc Hd. exists y. split; [by left|]. done.
  - pose proof (extract_deployment criteria (deployment_slot y) l Hl) as Hdep.
    pose proof (extract_sound criteria (Some (deployment_slot y)) l) as Hs.
    destruct (ext criteria (Some (deployment_slot y)) l) as [|e|e]; [|split; [right; apply Hs|]|done].
    + intros e [->|He]%elem_of_cons Hc Hd; [congruence|]. destruct (Hdep e He Hd Hc) as (x & Hx & H).
      exists x. split; [by right|done].
    + destruct Hs as (_ & Hde & Hce & Hae). split; [done|]. split; [done|]. by apply Hde.
Qed.

(** The answer, in terms of the newest deployment on the fork. *)
Lemma extract_newest criteria l :
  descending l -> Forall slots_ok l ->
  match ext criteria None l with
  | FoundEntry e => e ∈ l /\ candidate e = true /\ accepted criteria e = true /\
      forall x, x ∈ l -> visible x = true -> deployment_slot x <= deployment_slot e
  | FoundDelayed e => e ∈ l /\ visible e = true /\ deployment_slot e <= slot < effective_slot e /\
      forall x, x ∈ l -> visible x = true -> deployment_slot x <= deployment_slot e
  | NotFound => forall e, e ∈ l -> visible e = true ->
      (forall x, x ∈ l -> visible x = true -> deployment_slot x <= deployment_slot e) ->
      effective_slot e <= slot /\
      (candidate e = true -> exists x, x ∈ l /\ deployment_slot x = deployment_slot e /\ candidate x = true /\ accepted criteria x = false)
  end.
Proof.
  intros Hd Hs. destruct (first_visible l) as [Hnone|(l1 & y & l2 & El & H1 & Hy)].
  { rewrite <- (app_nil_r l), (extract_skip _ _ [] Hnone). cbn. rewrite app_nil_r. intros e He Hv _.
    rewrite Forall_forall in Hnone. specialize (Hnone e He). congruence. }
  assert (forall x, x ∈ l -> visible x = true -> deployment_slot x <= deployment_slot y /\ (x = y \/ x ∈ l2)) as Hmax
    by (intros x; by apply (first_newest l l1 y l2)).
  assert (forall x, x ∈ y :: l2 -> x ∈ l) as Hin by (intros x; rewrite El, elem_of_app; tauto).
  assert (slots_ok y) as Hys by (rewrite Forall_forall in Hs; apply Hs, Hin; by left).
  assert (Forall (fun x => effective_slot x <= effective_slot y) l2) as Hl2.
  { rewrite El in Hd. apply StronglySorted_app in Hd as (_ & _ & Hd). apply StronglySorted_inv in Hd as [_ Hd].
    eapply Forall_impl; [exact Hd|]. intros x Hx. cbv beta in Hx. lia. }
  assert (ext criteria None l = ext criteria None (y :: l2)) as -> by (by rewrite El, extract_skip).
  destruct (Z.le_gt_cases (effective_slot y) slot) as [Hle|Hgt].
  2:{ cbn [extract_version]. rewrite Hy. destruct (Z.leb_spec (effective_slot y) slot); [lia|]. rewrite visible_delayed by done.
      split; [apply Hin; by left|]. split; [done|]. split; [apply visible_before in Hy; lia|]. intros x Hx Hv. by apply Hmax. }
  pose proof (extract_effective criteria y l2 Hy Hle) as He.
  assert (Forall (fun x => deployment_slot x = deployment_slot y -> visible x = true -> effective_slot x <= slot) l2) as Hl2'
    by (eapply Forall_impl; [exact Hl2|]; intros x Hx _ _; cbv beta in Hx; lia).
  specialize (He Hl2'). destruct (ext criteria None (y :: l2)) as [|e|e]; [|split|done].
  - intros e Hel Hv Hm. destruct (Hmax e Hel Hv) as [_ Hor]. rewrite Forall_forall in Hl2.
    assert (deployment_slot e = deployment_slot y) as Ed.
    { apply Z.le_antisymm; [by apply Hmax|]. apply Hm; [apply Hin; by left|done]. }
    split; [destruct Hor as [->|Hor]; [done|]; specialize (Hl2 e Hor); lia|]. intros Hc.
    destruct (He e) as (x & Hx & Hxd & Hxc); [apply elem_of_cons; tauto|done|done|]. exists x.
    split; [by apply Hin|]. by rewrite Ed.
  - by apply Hin, He.
  - destruct He as (_ & Hc & Ha & Ed). split; [done|]. split; [done|]. intros x Hx Hv. rewrite Ed. by apply Hmax.
Qed.

End extract.

(** ** Pruning *)

Section prune.
Context (fg : ForkGraph) `{!ForkGraphLaws fg} (root new_root slot : Z) (Hroot : root <= new_root).
Context (Hslot : is_equal_or_ancestor (fg new_root slot) = true).
Context (environments : ProgramRuntimeEnvironments).

Abbreviation before := (on_fork (Executable := Executable) (BuiltinProgram := BuiltinProgram) fg root slot).
Abbreviation after := (on_fork (Executable := Executable) (BuiltinProgram := BuiltinProgram) fg new_root slot).

(** Before the new root, on its fork. *)
Definition in_past (e : Entry) : bool :=
  negb (new_root <=? deployment_slot e) &&
  (match fg (deployment_slot e) new_root with Ancestor => true | _ => false end || (deployment_slot e <=? root)).
(** At the new root or after it. *)
Definition in_future (e : Entry) : bool :=
  (new_root <=? deployment_slot e) && is_equal_or_descendant (fg (deployment_slot e) new_root).

Lemma slot_after : new_root = slot /\ fg new_root new_root = EqualBlock \/ new_root < slot /\ fg new_root slot = Ancestor.
Proof.
  destruct (fg new_root slot) eqn:E; try done.
  - right. split; [by apply fork_before|done].
  - left. pose proof (fork_equal _ _ E) as ->. done.
Qed.

Lemma new_root_known : fg new_root new_root = EqualBlock.
Proof. destruct slot_after as [[_ H]|[_ H]]; [done|]. by apply fork_known in H as [H _]. Qed.

(** What the descendants of the new root see is kept. *)
Lemma before_kept e : before e = true -> in_past e = true \/ in_future e = true.
Proof.
  intros Hb. unfold in_past, in_future. pose proof new_root_known as Hk.
  destruct (Z.leb_spec new_root (deployment_slot e)) as [Hle|Hlt]; cbn [negb andb]; [right|left].
  - apply orb_prop in Hb as [Hb|Hb].
    { replace (deployment_slot e) with new_root by lia. by rewrite Hk. }
    destruct (decide (deployment_slot e = new_root)) as [->|Hne]; [by rewrite Hk|].
    enough (fg (deployment_slot e) new_root = Descendant) as -> by done. apply fork_inverse.
    destruct (fg (deployment_slot e) slot) eqn:E; try done.
    + apply fork_before in E as Hlt. destruct slot_after as [[? _]|[_ Ha]]; [lia|].
      by apply (fork_line new_root (deployment_slot e) slot); [..|lia].
    + apply fork_equal in E as Ee. rewrite Ee in *. destruct slot_after as [[? _]|[_ Ha]]; [lia|done].
  - apply orb_prop in Hb as [Hb|Hb]; [by rewrite Hb, orb_true_r|].
    enough (fg (deployment_slot e) new_root = Ancestor) as -> by done.
    destruct (fg (deployment_slot e) slot) eqn:E; try done.
    + destruct slot_after as [[-> _]|[_ Ha]]; [done|]. by apply (fork_line _ new_root slot).
    + apply fork_equal in E. destruct slot_after as [[? _]|[? _]]; lia.
Qed.

Lemma past_before e : in_past e = true -> before e = true.
Proof.
  unfold in_past, on_fork. intros [_ [H|H]%orb_prop]%andb_prop; [|by rewrite H].
  destruct (fg (deployment_slot e) new_root) eqn:E; try done. apply orb_true_intro. right.
  destruct slot_after as [[<- _]|[_ Ha]]; [by rewrite E|]. by rewrite (fork_trans _ _ _ E Ha).
Qed.

(** The new root does not make anything visible that stays. *)
Lemma kept_same e : in_past e = true \/ in_future e = true -> after e = before e.
Proof.
  intros H. unfold on_fork. destruct (is_equal_or_ancestor (fg (deployment_slot e) slot)) eqn:Es; [by rewrite !orb_true_r|].
  rewrite !orb_false_r. destruct (Z.leb_spec (deployment_slot e) root) as [|Hr].
  { destruct (Z.leb_spec (deployment_slot e) new_root); [done|lia]. }
  destruct (Z.leb_spec (deployment_slot e) new_root) as [Hn|]; [|done]. exfalso. destruct H as [H|H].
  - apply past_before in H. unfold on_fork in H. rewrite Es in H. lia.
  - unfold in_future in H. apply andb_prop in H as [H _]. assert (deployment_slot e = new_root) as E by lia.
    rewrite E in Es. by rewrite Es in Hslot.
Qed.

Abbreviation loop := (prune_loop get_loader fg new_root root None).

Lemma prune_loop_app st l1 l2 :
  (loop st (l1 ++ l2)).2 = (loop st l1).2 ++ (loop (loop st l1).1 l2).2.
Proof.
  revert st. induction l1 as [|e l1 IH]; intros st; [done|]. cbn [app prune_loop].
  destruct (prune_entry _ _ _ _ _ _ _) as [st1 keep]. specialize (IH st1).
  destruct (loop st1 (l1 ++ l2)) as [st2 k2], (loop st1 l1) as [st3 k3]. cbn in *. destruct keep; [|done]. by rewrite IH.
Qed.

Lemma prune_kept st l x : x ∈ (loop st l).2 -> in_past x = true \/ in_future x = true.
Proof.
  revert st. induction l as [|e l IH]; intros st; cbn [prune_loop]; [by intros ?%elem_of_nil|].
  unfold prune_entry. destruct (prune_fork _ _ _ _ st e) as [st1 keep] eqn:Ep. specialize (IH st1).
  destruct (loop st1 l) as [st2 k]. cbn in *. destruct keep; [|exact IH]. intros [->|Hx]%elem_of_cons; [|by apply IH].
  unfold prune_fork in Ep. unfold in_past, in_future. destruct (new_root <=? deployment_slot e); cbn [negb andb].
  - right. by injection Ep as _ ->.
  - left. destruct (_ || _); [done|]. by injection Ep.
Qed.

(** Without a version in the past, none has been found. *)
Lemma prune_no_past st l :
  Forall (fun x => in_past x = false) l -> first_ancestor_found st = false -> first_ancestor_found (loop st l).1 = false.
Proof.
  intros Hl. revert st. induction Hl as [|e l He Hl IH]; intros st Hst; cbn [prune_loop]; [done|].
  unfold prune_entry. destruct (prune_fork _ _ _ _ st e) as [st1 keep] eqn:Ep.
  assert (first_ancestor_found st1 = false) as H1.
  { unfold prune_fork in Ep. unfold in_past in He. destruct (new_root <=? deployment_slot e); [by injection Ep as <- _|].
    cbn [negb andb] in He. rewrite He in Ep. by injection Ep as <- _. }
  specialize (IH st1 H1). by destruct (loop st1 l).
Qed.

(** The first version that was visible stays. *)
Lemma prune_keeps_first st l y :
  first_ancestor_found st = false -> before y = true -> exists st' k, loop st (y :: l) = (st', y :: k).
Proof.
  intros Hst Hy. cbn [prune_loop]. unfold prune_entry.
  assert (exists st1, prune_fork get_loader fg new_root root st y = (st1, true)) as [st1 ->].
  { unfold prune_fork. apply before_kept in Hy. unfold in_past, in_future in Hy.
    destruct (new_root <=? deployment_slot y); cbn [negb andb] in Hy.
    - destruct Hy as [|Hy]; [done|]. rewrite Hy. by eexists.
    - destruct Hy as [Hy|]; [|done]. rewrite Hy, Hst. by eexists. }
  destruct (loop st1 l) as [st2 k]. by exists st2, k.
Qed.

(** When every version is for the environment, the first visible one decides. *)
Definition answer (criteria : ProgramCacheMatchCriteria) (y : Entry) : Extracted :=
  if effective_slot y <=? slot then if accepted criteria y then FoundEntry y else NotFound else FoundDelayed y.

Lemma extract_first r criteria l1 y l2 :
  r <= slot -> slots_ok y -> matches_environment get_loader y environments = true ->
  Forall (fun x => on_fork fg r slot x = false) l1 -> on_fork fg r slot y = true ->
  extract_version get_loader fg r slot environments criteria None (l1 ++ y :: l2) = answer criteria y.
Proof.
  intros Hr Hys Hm H1 Hy. rewrite extract_skip by done. cbn [extract_version]. rewrite Hy, Hm. unfold answer, accepted.
  destruct (Z.leb_spec (effective_slot y) slot) as [|Hlt].
  - cbn [negb]. destruct (matches_criteria y criteria), (is_unloaded y); done.
  - by rewrite (visible_delayed fg r slot Hr) by done.
Qed.

Lemma prune_same criteria l :
  Forall slots_ok l -> Forall (fun x => matches_environment get_loader x environments = true) l ->
  extract_version get_loader fg new_root slot environments criteria None
    (rev (prune_versions get_loader fg new_root root None l).2) =
  extract_version get_loader fg root slot environments criteria None (rev l).
Proof.
  intros Hs Hm. unfold prune_versions. destruct (loop (mkPruneState false None 0 0) (rev l)) as [st k] eqn:El.
  cbn [snd]. rewrite rev_involutive. assert (k = (loop (mkPruneState false None 0 0) (rev l)).2) as -> by (by rewrite El).
  clear El st. assert (Forall slots_ok (rev l)) as Hs' by (by apply List.Forall_rev).
  assert (Forall (fun x => matches_environment get_loader x environments = true) (rev l)) as Hm' by (by apply List.Forall_rev).
  generalize dependent (rev l). clear l Hs Hm. intros l Hs Hm.
  assert (new_root <= slot) as Hns by (destruct slot_after as [[? _]|[? _]]; lia).
  assert (forall st l, Forall (fun x => before x = false) l -> Forall (fun x => after x = false) (loop st l).2) as Hinv.
  { intros st l0 H0. apply Forall_forall. intros x Hx. rewrite (kept_same x) by by eapply prune_kept.
    rewrite Forall_forall in H0. apply H0. eapply elem_of_sublist; [exact Hx|]. apply prune_loop_sublist. }
  destruct (first_visible fg root slot l) as [Hnone|(l1 & y & l2 & -> & H1 & Hy)].
  - rewrite <- (app_nil_r l) at 2. rewrite (extract_skip fg root slot environments criteria l []) by done.
    rewrite <- (app_nil_r (loop _ l).2). by rewrite extract_skip by by apply Hinv.
  - apply Forall_app in Hs as [_ [Hys _]%Forall_cons]. apply Forall_app in Hm as [_ [Hym _]%Forall_cons].
    rewrite (extract_first root) by (done || lia). rewrite prune_loop_app.
    destruct (prune_keeps_first (loop (mkPruneState false None 0 0) l1).1 l2 y) as (st' & k & ->); [|done|].
    { apply prune_no_past; [|done]. eapply Forall_impl; [exact H1|]. intros x Hx. cbv beta in Hx.
      destruct (in_past x) eqn:E; [|done]. apply past_before in E. congruence. }
    cbn [snd]. apply extract_first; [done..|by apply Hinv|]. rewrite kept_same; [done|]. by apply before_kept.
Qed.

End prune.

(** ** A batch *)

Abbreviation Cache := (ProgramCache Executable BuiltinProgram).
Abbreviation Batch := (ProgramCacheForTxBatch Executable BuiltinProgram).

(** The search depends only on the answers. *)
Lemma extract_loop_same (fg fg' : ForkGraph) (root root' slot : Z) (environments : ProgramRuntimeEnvironments) (thread : Z) (inc : bool) (vs vs' : gmap Pubkey (list Entry)) (search : list (Pubkey * ProgramCacheMatchCriteria * Z)) :
  (forall key criteria,
     extract_version get_loader fg' root' slot environments criteria None (rev (default [] (vs' !! key))) =
     extract_version get_loader fg root slot environments criteria None (rev (default [] (vs !! key)))) ->
  forall m found loading task,
  extract_loop get_loader fg' root' slot environments thread inc vs' search m found loading task =
  extract_loop get_loader fg root slot environments thread inc vs search m found loading task.
Proof.
  intros Hsame. induction search as [|[[key criteria] modified] search IH]; intros m found loading task; cbn [extract_loop]; [done|].
  rewrite Hsame. destruct (extract_entry slot inc _ m) as [m1 [e|]]; [by apply IH|].
  destruct (match task with Some _ => _ | None => _ end) as [loading1 task1]. by rewrite IH.
Qed.

(** The task that the thread is given: the first program that nobody loads. *)
Definition task_given (slot thread : Z) (rest : list (Pubkey * ProgramCacheMatchCriteria * Z))
    (loading loading' : gmap Pubkey (Z * Z)) (task' : option Pubkey) : Prop :=
  match task' with
  | Some key => loading !! key = None /\ loading' = <[key := (slot, thread)]> loading /\ key ∈ rest.*1.*1
  | None => loading' = loading /\ Forall (fun item => is_Some (loading !! item.1.1)) rest
  end.

Lemma extract_entry_none slot inc (r : Extracted) m m' :
  extract_entry (Executable := Executable) (BuiltinProgram := BuiltinProgram) slot inc r m = (m', None) -> r = NotFound.
Proof.
  destruct r as [|e|e]; cbn; [done|done|]. unfold delay_tombstone, new_tombstone_with_usage_counter.
  by destruct (cell_new 0 m).
Qed.

(** What is left is what is not found. *)
Lemma extract_loop_rest (fg : ForkGraph) (root slot : Z) (environments : ProgramRuntimeEnvironments) (thread : Z) (inc : bool) (vs : gmap Pubkey (list Entry))
    search m found loading task m' found' loading' task' rest :
  extract_loop get_loader fg root slot environments thread inc vs search m found loading task =
    (m', found', loading', task', rest) ->
  rest `sublist_of` search /\
  (forall item, item ∈ search -> item ∈ rest \/ is_Some (found' !! item.1.1)) /\
  (forall key, is_Some (found !! key) -> is_Some (found' !! key)) /\
  Forall (fun item => extract_version get_loader fg root slot environments item.1.2 None
    (rev (default [] (vs !! item.1.1))) = NotFound) rest /\
  match task with Some t => task' = Some t /\ loading' = loading | None => task_given slot thread rest loading loading' task' end.
Proof.
  revert m found loading task rest. induction search as [|[[key criteria] modified] search IH];
    intros m found loading task rest; cbn [extract_loop].
  { intros [= <- <- <- <- <-]. split; [done|]. split; [by intros ? ?%elem_of_nil|]. split; [done|]. split; [done|].
    by destruct task. }
  destruct (extract_entry slot inc _ m) as [m1 [e|]] eqn:Ee.
  - intros E. apply IH in E as (H2 & H3 & H4 & H5). split; [by constructor|]. split; [|split; [|done]].
    { intros item [->|Hi]%elem_of_cons; [right; apply H4; cbn; by rewrite lookup_insert_eq|by apply H3]. }
    intros k Hk. apply H4. destruct (decide (k = key)) as [->|]; [by rewrite lookup_insert_eq|by rewrite lookup_insert_ne].
  - destruct (match task with Some _ => _ | None => _ end) as [loading1 task1] eqn:Et.
    destruct (extract_loop _ _ _ _ _ _ _ _ search _ _ _ _) as [[[[m2 f2] l2] t2] rest2] eqn:El.
    intros [= <- <- <- <- <-]. apply IH in El as (H2 & H3 & H4 & H6 & H5).
    split; [by constructor|]. split; [|split; [done|]].
    { intros item [->|Hi]%elem_of_cons; [left; by left|]. destruct (H3 item Hi); [left; by right|by right]. }
    split; [constructor; [by eapply extract_entry_none|done]|].
    destruct task as [t|]; [|destruct (loading !! key) as [v|] eqn:Ev]; injection Et as <- <-.
    + done.
    + unfold task_given in *. destruct t2 as [k|].
      * destruct H5 as (A1 & A2 & A3). split; [done|]. split; [done|]. by right.
      * destruct H5 as (A1 & A2). split; [done|]. constructor; [by eexists|done].
    + destruct H5 as [-> ->]. split; [done|]. split; [done|]. by left.
Qed.

(** What a batch may be given for a program, among its versions. *)
Definition newest (fg : ForkGraph) (root slot : Z) (l : list Entry) (e : Entry) : Prop :=
  e ∈ l /\ on_fork fg root slot e = true /\
  forall x, x ∈ l -> on_fork fg root slot x = true -> deployment_slot x <= deployment_slot e.

Definition given (fg : ForkGraph) (root slot : Z) (environments : ProgramRuntimeEnvironments) (l : list Entry) (e : Entry) : Prop :=
  exists e0, newest fg root slot l e0 /\
    ((e = e0 /\ effective_slot e0 <= slot /\ matches_environment get_loader e0 environments = true /\ is_unloaded e0 = false) \/
     (slot < effective_slot e0 /\ program e = DelayVisibility /\ deployment_slot e = deployment_slot e0)).

Section batch.
Context (fg : ForkGraph) `{!ForkGraphLaws fg} (root slot : Z) (Hroot : root <= slot).
Context (environments current_environments : ProgramRuntimeEnvironments).
Context (vs : gmap Pubkey (list Entry)).
Context (Hvs : map_Forall (fun _ l => ordered get_loader current_environments l /\ Forall slots_ok l) vs).

Lemma versions_found key :
  ordered get_loader current_environments (default [] (vs !! key)) /\ Forall slots_ok (default [] (vs !! key)).
Proof. destruct (vs !! key) as [l|] eqn:E; [by apply (Hvs key)|]. split; [constructor|done]. Qed.

Lemma extract_entry_given criteria (inc : bool) (key : Pubkey) (m m' : Cells) e :
  extract_entry slot inc (extract_version get_loader fg root slot environments criteria None (rev (default [] (vs !! key)))) m =
    (m', Some e) -> exists l, vs !! key = Some l /\ given fg root slot environments l e.
Proof.
  destruct (versions_found key) as [Ho Hs]. apply rev_descending in Ho.
  pose proof (extract_newest fg root slot Hroot environments criteria (rev (default [] (vs !! key))) Ho (List.Forall_rev Hs)) as H.
  assert (forall x, x ∈ rev (default [] (vs !! key)) <-> x ∈ default [] (vs !! key)) as Hrev.
  { intros x. by rewrite !list_elem_of_In, <- in_rev. }
  destruct (extract_version _ _ _ _ _ _ _ _) as [|e0|e0]; intros E; cbn in E; [done| |].
  - destruct H as (H1 & H2 & H3 & H4). injection E as _ <-. apply Hrev in H1.
    destruct (vs !! key) as [l|]; [|by apply elem_of_nil in H1]. exists l. split; [done|]. exists e0.
    unfold candidate in H2. apply andb_prop in H2 as [[H2 H5]%andb_prop H6]. unfold accepted in H3. apply andb_prop in H3 as [_ H3].
    split; [|left; split; [done|]; split; [lia|]; split; [done|]; by apply negb_true_iff].
    split; [done|]. split; [done|]. intros x Hx. by apply H4, Hrev.
  - destruct H as (H1 & H2 & H3 & H4). unfold delay_tombstone, new_tombstone_with_usage_counter in E.
    destruct (cell_new 0 m) as [m1 a]. injection E as _ <-. apply Hrev in H1.
    destruct (vs !! key) as [l|]; [|by apply elem_of_nil in H1]. exists l. split; [done|]. exists e0.
    split; [|right; split; [lia|done]]. split; [done|]. split; [done|]. intros x Hx. by apply H4, Hrev.
Qed.

Lemma extract_loop_given (thread : Z) (inc : bool) search m found loading task m' found' loading' task' rest :
  extract_loop get_loader fg root slot environments thread inc vs search m found loading task =
    (m', found', loading', task', rest) ->
  forall key e, found' !! key = Some e -> found !! key = Some e \/
     exists l, vs !! key = Some l /\ given fg root slot environments l e.
Proof.
  revert m found loading task rest. induction search as [|[[key criteria] modified] search IH];
    intros m found loading task rest; cbn [extract_loop].
  { intros [= <- <- <- <- <-]. by left. }
  destruct (extract_entry slot inc _ m) as [m1 [e|]] eqn:Ee.
  - intros E k e' He'. destruct (IH _ _ _ _ _ E k e' He') as [Hk|Hk]; [|by right]. destruct (decide (k = key)) as [->|].
    + rewrite lookup_insert_eq in Hk. injection Hk as <-. right. by eapply extract_entry_given.
    + rewrite lookup_insert_ne in Hk by done. by left.
  - destruct (match task with Some _ => _ | None => _ end) as [loading1 task1] eqn:Et.
    destruct (extract_loop _ _ _ _ _ _ _ _ search _ _ _ _) as [[[[m2 f2] l2] t2] rest2] eqn:El.
    intros [= <- <- <- <- <-]. by eapply IH.
Qed.

End batch.

(** ** A program that has been loaded is found *)

Lemma assigned_found debug environments key (e : Entry) m (c : Cache) m' c' fg slot criteria :
  cache_ok get_loader environments c ->
  assign_program get_loader debug environments key e m c = Some (m', c', false) ->
  ForkGraphLaws fg -> latest_root_slot c <= slot ->
  Forall slots_ok (default [] (entries c !! key)) -> slots_ok e ->
  on_fork fg (latest_root_slot c) slot e = true -> matches_environment get_loader e environments = true ->
  accepted criteria e = true ->
  (forall x, x ∈ default [] (entries c !! key) -> on_fork fg (latest_root_slot c) slot x = true ->
     deployment_slot x <= deployment_slot e /\
     (deployment_slot x = deployment_slot e ->
        get_environment get_loader (program x) = get_environment get_loader (program e))) ->
  extract_version get_loader fg (latest_root_slot c) slot environments criteria None (rev (default [] (entries c' !! key))) =
    if effective_slot e <=? slot then FoundEntry e else FoundDelayed e.
Proof.
  intros Hc E Hfg Hr Hs Hes Hv Hm Ha Hold.
  destruct (assign_versions get_loader environments debug _ _ _ _ _ _ _ Hc E) as (_ & _ & H).
  destruct (H eq_refl) as (l & El & Hok & He & Hin). rewrite El. cbn [default option_bind from_option id].
  assert (forall x, x ∈ rev l <-> x ∈ l) as Hrev by (intros x; by rewrite !list_elem_of_In, <- in_rev).
  assert (descending (rev l)) as Hd by by eapply rev_descending, vs_ordered.
  assert (Forall slots_ok (rev l)) as Hsl.
  { apply List.Forall_rev, Forall_forall. intros x Hx. apply Hin in Hx as [->|(Hx & _)]; [done|]. rewrite Forall_forall in Hs. by apply Hs. }
  assert (forall x, x ∈ l -> on_fork fg (latest_root_slot c) slot x = true -> deployment_slot x <= deployment_slot e) as Hmax.
  { intros x Hx Hxv. apply Hin in Hx as [->|(Hx & _)]; [done|]. by apply Hold. }
  assert (forall x, x ∈ l -> on_fork fg (latest_root_slot c) slot x = true -> deployment_slot e <= deployment_slot x -> x = e) as Huniq.
  { intros x Hx Hxv Hle. apply Hin in Hx as Hx'. destruct Hx' as [->|(Hxo & Hret & Hkey)]; [done|]. exfalso. apply Hkey.
    destruct (Hold x Hxo Hxv) as [Hle' Henv]. assert (deployment_slot x = deployment_slot e) as Ed by lia. specialize (Henv Ed).
    unfold retained_with in Hret. rewrite Ed, Z.eqb_refl, Henv in Hret. cbn [negb orb] in Hret.
    assert (match get_environment get_loader (program e) with Some a => negb (a =? a) | None => false end = false) as Hn
      by (destruct (get_environment get_loader (program e)); [by rewrite Z.eqb_refl|done]).
    assert (entry_eqb x e = true) as Heq.
    { destruct (get_environment get_loader (program e)); [|done]. by rewrite Z.eqb_refl in Hret. }
    unfold entry_eqb in Heq. apply andb_prop in Heq as [[Heff _]%andb_prop _]. apply Z.eqb_eq in Heff.
    unfold version_key, current. by rewrite Heff, Ed, Henv. }
  pose proof (extract_newest fg (latest_root_slot c) slot Hr environments criteria (rev l) Hd Hsl) as Hext.
  destruct (extract_version _ _ _ _ _ _ _ _) as [|e0|e0].
  - destruct (Hext e) as [Heff Hcand]; [by apply Hrev|done|intros x Hx; by apply Hmax, Hrev|].
    destruct Hcand as (x & Hx & Hxd & Hxc & Hxa).
    { unfold candidate. rewrite Hv, Hm. apply Z.leb_le in Heff. by rewrite Heff. }
    rewrite (Huniq x) in Hxa; [congruence|by apply Hrev| |lia]. unfold candidate in Hxc. by destruct (on_fork _ _ _ x).
  - destruct Hext as (H1 & H2 & H3 & H4). unfold candidate in H2. apply andb_prop in H2 as [[H2 H5]%andb_prop _].
    assert (e0 = e) as -> by (apply Huniq; [by apply Hrev|done|]; apply H4; [by apply Hrev|done]). by rewrite H5.
  - destruct Hext as (H1 & H2 & H3 & H4).
    assert (e0 = e) as -> by (apply Huniq; [by apply Hrev|done|]; apply H4; [by apply Hrev|done]).
    destruct (Z.leb_spec (effective_slot e) slot); [lia|done].
Qed.

End view.
