(* ===== verification/CacheEvict.v ===== *)
(** Eviction from the cache of loaded programs: it does not fail, and unloads exactly the number
    of programs that brings the cache to its size. *)

From Stdlib Require Import ZArith Lia Bool.
From stdpp Require Import gmap sorting.
From S2P Require Import Prelude.
From S2P Require Import SbpfTypes.
From S2P Require Import TxAccounts.
From S2P Require Import ProgramCache.
From S2P Require Import CacheSafe.

#[local] Open Scope Z_scope.

(** ** Sorting and removing *)

Lemma insert_by_key_perm {A} (key : A -> Z) (x : A) (l : list A) : insert_by_key key x l ≡ₚ x :: l.
Proof. induction l as [|y l IH]; cbn; [done|]. destruct (_ <=? _); [done|]. rewrite IH. apply perm_swap. Qed.

Lemma sort_by_key_perm {A} (key : A -> Z) (l : list A) : sort_by_key key l ≡ₚ l.
Proof. induction l as [|x l IH]; cbn; [done|]. rewrite insert_by_key_perm. by constructor. Qed.

Lemma swap_remove_perm {A} i (x : A) (l : list A) :
  l !! i = Some x -> exists l', swap_remove i l = Some (x, l') /\ l ≡ₚ x :: l'.
Proof.
  intros Hx. unfold swap_remove. rewrite Hx. cbn [mbind option_bind].
  destruct l as [|z l0 _] using rev_ind; [done|]. rewrite last_snoc. cbn [mbind option_bind].
  eexists. split; [done|]. destruct (decide (i < length l0)%nat) as [Hlt|Hge].
  - rewrite lookup_app_l in Hx by done. rewrite insert_app_l by done. rewrite removelast_last.
    rewrite <- (take_drop_middle l0 i x Hx) at 1. rewrite insert_take_drop by done. solve_Permutation.
  - apply lookup_lt_Some in Hx as Hlt. rewrite length_app in Hlt. cbn in Hlt. assert (i = length l0) as -> by lia.
    rewrite lookup_app_r, Nat.sub_diag in Hx by lia. injection Hx as <-.
    rewrite insert_app_r_alt by lia. rewrite Nat.sub_diag. cbn. rewrite removelast_last. solve_Permutation.
Qed.

Section evict.
Context {Executable BuiltinProgram : Type} (get_loader : Executable -> Z).
Abbreviation Entry := (ProgramCacheEntry Executable BuiltinProgram).
Abbreviation Cache := (ProgramCache Executable BuiltinProgram).
Implicit Types (e x y : Entry) (l : list Entry) (c : Cache).

(** ** Counting *)

Abbreviation loaded_in l := (length (filter (fun x => is_loaded x = true) l)).

Definition loaded_total (m : gmap Pubkey (list Entry)) : nat :=
  map_fold (fun _ l n => (loaded_in l + n)%nat) 0%nat m.

Lemma loaded_total_delete m id l :
  m !! id = Some l -> loaded_total m = (loaded_in l + loaded_total (delete id m))%nat.
Proof.
  intros H. unfold loaded_total. apply (map_fold_delete_L (fun _ l n => (loaded_in l + n)%nat) _ id l); [|done]. intros. lia.
Qed.

Lemma loaded_total_insert m id l l' :
  m !! id = Some l -> (loaded_total (<[id := l']> m) + loaded_in l = loaded_total m + loaded_in l')%nat.
Proof.
  intros H. rewrite (loaded_total_delete m id l H), (loaded_total_delete (<[id := l']> m) id l') by apply lookup_insert_eq.
  rewrite delete_insert_eq. lia.
Qed.

Lemma loaded_replace l i x u :
  l !! i = Some x -> is_loaded x = true -> is_loaded u = false -> (S (loaded_in (<[i := u]> l)) = loaded_in l)%nat.
Proof.
  intros Hx Hlx Hlu. apply lookup_lt_Some in Hx as Hlt. rewrite <- (take_drop_middle l i x Hx) at 2.
  rewrite insert_take_drop by done. rewrite !filter_app, !filter_cons, !length_app.
  destruct (decide (is_loaded x = true)); [|done]. destruct (decide (is_loaded u = true)); [congruence|]. cbn. lia.
Qed.

(** The candidates, for a map that is iterated in some order. *)
Context (iter_entries : gmap Pubkey (list Entry) -> list (Pubkey * list Entry)).

Class IterationLaw : Prop := iterates m : iter_entries m ≡ₚ map_to_list m.
Context {Hiter : IterationLaw}.

Definition flatten_one (kv : Pubkey * list Entry) : list (Pubkey * Z * Entry) :=
  omap (fun e => if is_loaded e && true then Some (kv.1, 0, e) else None) kv.2.

Lemma flatten_one_spec kv : flatten_one kv = map (fun e => (kv.1, 0, e)) (filter (fun x => is_loaded x = true) kv.2).
Proof.
  destruct kv as [k l]. unfold flatten_one. cbn [fst snd]. induction l as [|e l IH]; [done|]. rewrite filter_cons.
  cbn [omap list_omap] in *. rewrite andb_true_r. destruct (decide (is_loaded e = true)) as [->|Hn]; [by rewrite IH|].
  destruct (is_loaded e); [done|by rewrite IH].
Qed.

Lemma flattened_length c : length (get_flattened_entries iter_entries true c) = loaded_total (entries c).
Proof.
  unfold get_flattened_entries.
  assert (forall L : list (Pubkey * list Entry), length (flat_map (fun '(id, l) => omap (fun e => if is_loaded e && true then Some (id, 0, e) else None) l) L) =
    foldr (fun kv n => (loaded_in kv.2 + n)%nat) 0%nat L) as Hfold.
  { induction L as [|[k l] L IH]; [done|]. cbn [flat_map foldr]. rewrite length_app, IH. f_equal.
    change (length (flatten_one (k, l)) = loaded_in l). by rewrite flatten_one_spec, length_map. }
  rewrite Hfold. unfold loaded_total. rewrite map_fold_foldr.
  transitivity (foldr (fun kv n => (loaded_in kv.2 + n)%nat) 0%nat (map_to_list (entries c))).
  - apply (foldr_permutation (=) _ 0%nat); [|apply iterates]. intros j1 a1 j2 a2 n. lia.
  - induction (map_to_list (entries c)) as [|[k l] L IH]; [done|]. cbn. by rewrite IH.
Qed.

(** ** Candidates that are still there *)

(** An entry is found at its own place. *)
Definition apart (m : gmap Pubkey (list Entry)) : Prop :=
  forall id l i j x y, m !! id = Some l -> l !! i = Some x -> l !! j = Some y -> entry_eqb x y = true -> i = j.

Definition live (m : gmap Pubkey (list Entry)) (a : Pubkey * Z * Entry) : Prop :=
  exists l, m !! a.1.1 = Some l /\ a.2 ∈ l /\ is_loaded a.2 = true /\ a.1.2 = 0.

Lemma flattened_live c : Forall (live (entries c)) (get_flattened_entries iter_entries true c).
Proof.
  apply Forall_forall. intros [[id z] e] H. unfold get_flattened_entries in H.
  apply list_elem_of_In, in_flat_map in H as ([k l] & Hk & He).
  change (In (id, z, e) (flatten_one (k, l))) in He. rewrite flatten_one_spec in He.
  apply in_map_iff in He as (e' & [= <- <- <-] & He). apply list_elem_of_In, list_elem_of_filter in He as [Hl He].
  exists l. split; [|done]. apply list_elem_of_In in Hk. rewrite iterates in Hk. by apply elem_of_map_to_list.
Qed.

Lemma flattened_nodup c : apart (entries c) -> NoDup (get_flattened_entries iter_entries true c).
Proof.
  intros Ha. unfold get_flattened_entries.
  assert (NoDup (iter_entries (entries c)).*1) as Hn by (rewrite iterates; apply NoDup_fst_map_to_list).
  assert (forall kv, kv ∈ iter_entries (entries c) -> NoDup kv.2) as Hl.
  { intros [k l] Hk. rewrite iterates in Hk. apply elem_of_map_to_list in Hk. apply NoDup_alt. intros i j x Hi Hj.
    apply (Ha k l i j x x Hk Hi Hj), entry_eqb_refl. }
  induction (iter_entries (entries c)) as [|[k l] L IH]; cbn [flat_map]; [constructor|].
  apply NoDup_cons in Hn as [Hk Hn]. apply NoDup_app. split; [|split].
  - change (NoDup (flatten_one (k, l))). rewrite flatten_one_spec. apply (NoDup_fmap_2 (fun e => (k, 0, e))).
    apply NoDup_filter. apply (Hl (k, l)). by left.
  - intros [[id z] e] H1 H2. change ((id, z, e) ∈ flatten_one (k, l)) in H1. rewrite flatten_one_spec in H1.
    apply list_elem_of_In, in_map_iff in H1 as (e' & [= <- <- <-] & _).
    apply list_elem_of_In, in_flat_map in H2 as ([k' l'] & Hk' & He).
    change (In (k, 0, e') (flatten_one (k', l'))) in He. rewrite flatten_one_spec in He.
    apply in_map_iff in He as (e2 & [= -> _] & _). apply Hk. apply list_elem_of_fmap. exists (k, l').
    split; [done|]. by apply list_elem_of_In.
  - apply IH; [done|]. intros kv Hkv. apply Hl. by right.
Qed.

Lemma find_entry_live e l i j :
  (forall a b x y, l !! a = Some x -> l !! b = Some y -> entry_eqb x y = true -> a = b) ->
  l !! j = Some e -> find_entry e l i = Some ((i + j)%nat, e).
Proof.
  revert i j. induction l as [|a l IH]; intros i j Ha Hj; [done|]. cbn [find_entry]. destruct j as [|j].
  - injection Hj as ->. rewrite entry_eqb_refl. by rewrite Nat.add_0_r.
  - destruct (entry_eqb a e) eqn:Ee; [by specialize (Ha 0%nat (S j) a e eq_refl Hj Ee)|].
    rewrite (IH (S i) j); [f_equal; f_equal; lia| |done]. intros b d x y Hx Hy Hxy.
    assert (S b = S d) by by apply (Ha (S b) (S d) x y). lia.
Qed.

(** Unloading one of them. *)
Lemma unload_live id e m c :
  apart (entries c) -> live (entries c) (id, 0, e) ->
  exists m' c', unload_program_entry get_loader id e m c = Some (m', c') /\ apart (entries c') /\
    (S (loaded_total (entries c')) = loaded_total (entries c))%nat /\
    forall a, live (entries c) a -> a <> (id, 0, e) -> live (entries c') a.
Proof.
  intros Ha (l & Hl & He & Hle & _). cbn in Hl, He, Hle. apply list_elem_of_lookup in He as [j Hj].
  assert (forall a b x y, l !! a = Some x -> l !! b = Some y -> entry_eqb x y = true -> a = b) as Hal
    by (intros a b x y; by apply (Ha id)).
  pose proof (find_entry_live e l 0 j Hal Hj) as Hf.
  destruct (unload_program_entry get_loader id e m c) as [[m' c']|] eqn:E.
  2:{ unfold unload_program_entry in E. rewrite Hl in E. cbn [mbind option_bind] in E. rewrite Hf in E. cbn in E.
      by destruct (to_unloaded _ _ _) as [? [|]]. }
  exists m', c'. split; [done|].
  apply unload_versions in E as (l0 & i & x & El & Ef & Hx & _ & Hr). rewrite Hl in El. injection El as <-.
  rewrite Hf in Ef. injection Ef as <- <-. cbn in Hx. destruct Hr as [[? _]|(u & _ & Hu & Ee)]; [congruence|].
  apply to_unloaded_same in Hu as (_ & Hu & H1 & H2 & H3 & _). cbn in Ee. rewrite Ee.
  assert (is_loaded u = false) as Hlu by (unfold is_loaded, is_unloaded in *; by destruct (program u)).
  split; [|split].
  - intros id' l' a b x y Hid Hxa Hyb Hxy. destruct (decide (id' = id)) as [->|]; [|rewrite lookup_insert_ne in Hid by done; by apply (Ha id' l' a b x y)].
    rewrite lookup_insert_eq in Hid. injection Hid as <-. apply lookup_lt_Some in Hj as Hlt.
    assert (forall a x, <[j := u]> l !! a = Some x -> exists x0, l !! a = Some x0 /\ forall y, entry_eqb x0 y = entry_eqb x y) as Hold.
    { intros a0 x0 Hx0. destruct (decide (a0 = j)) as [->|].
      - rewrite list_lookup_insert_eq in Hx0 by done. injection Hx0 as <-. exists e. split; [done|]. intros z.
        unfold entry_eqb. by rewrite H1, H2, H3.
      - rewrite list_lookup_insert_ne in Hx0 by done. by exists x0. }
    apply Hold in Hxa as (x0 & Hx0 & Ex). apply Hold in Hyb as (y0 & Hy0 & Ey).
    apply (Hal a b x0 y0); [done|done|]. by rewrite Ex, entry_eqb_sym, Ey, entry_eqb_sym.
  - pose proof (loaded_total_insert (entries c) id l (<[j := u]> l) Hl) as Ht.
    pose proof (loaded_replace l j e u Hj Hle Hlu). lia.
  - intros [[id' z] e'] (l' & Hl' & He' & Hle' & Hz) Hne. cbn in *. subst z.
    destruct (decide (id' = id)) as [->|Hid]; [|exists l'; rewrite lookup_insert_ne by done; done].
    exists (<[j := u]> l). cbn. rewrite lookup_insert_eq. split; [done|]. rewrite Hl in Hl'. injection Hl' as <-.
    split; [|done]. apply list_elem_of_lookup in He' as [k Hk]. apply list_elem_of_lookup. exists k.
    rewrite list_lookup_insert_ne; [done|]. intros <-. apply Hne. congruence.
Qed.

Lemma unload_all_live L m c :
  apart (entries c) -> NoDup L -> Forall (live (entries c)) L ->
  exists m' c', unload_all get_loader L m c = Some (m', c') /\
    (loaded_total (entries c') + length L = loaded_total (entries c))%nat.
Proof.
  revert m c. induction L as [|[[id z] e] L IH]; intros m c Ha Hn Hl; cbn [unload_all].
  { exists m, c. split; [done|]. cbn. lia. }
  apply NoDup_cons in Hn as [Hx Hn]. apply Forall_cons in Hl as [He Hl].
  assert (z = 0) as -> by (destruct He as (l & _ & _ & _ & ?); done).
  destruct (unload_live id e m c Ha He) as (m1 & c1 & -> & Ha1 & Ht & Hl1). cbn [mbind option_bind].
  destruct (IH m1 c1 Ha1 Hn) as (m' & c' & -> & Ht').
  { rewrite Forall_forall in Hl |- *. intros a Hin. apply Hl1; [by apply Hl|]. by intros ->. }
  exists m', c'. split; [done|]. cbn. lia.
Qed.

(** ** Drawing *)

Lemma evict_loop_live random now n : forall k L m c,
  (forall k n, 0 < n -> 0 <= random k n < n) ->
  apart (entries c) -> NoDup L -> Forall (live (entries c)) L -> (n <= length L)%nat ->
  exists m' c', evict_loop get_loader random now n k L m c = Some (m', c') /\
    (loaded_total (entries c') + n = loaded_total (entries c))%nat.
Proof.
  induction n as [|n IH]; intros k L m c Hrand Ha Hn Hl Hlen; cbn [evict_loop].
  { exists m, c. split; [done|lia]. }
  assert (0 < len L) as Hpos by (unfold len; lia). assert (is_nil L = false) as -> by (by destruct L).
  assert (forall k, exists a, L !! Z.to_nat (random k (len L)) = Some a) as Hdraw.
  { intros k0. apply lookup_lt_is_Some_2. specialize (Hrand k0 (len L) Hpos). unfold len in *. lia. }
  destruct (Hdraw k) as [e1 E1], (Hdraw (S k)) as [e2 E2]. rewrite E1. cbn [mbind option_bind]. rewrite E2. cbn [mbind option_bind].
  set (i := if _ <? _ then _ else _). assert (exists a, L !! i = Some a) as [x Hx] by (unfold i; destruct (_ <? _); by eexists).
  destruct (swap_remove_perm i x L Hx) as (L' & -> & Hp). cbn [mbind option_bind]. destruct x as [[id z] e].
  rewrite Hp in Hn, Hl, Hlen. apply NoDup_cons in Hn as [Hx' Hn]. apply Forall_cons in Hl as [He Hl].
  assert (z = 0) as -> by (destruct He as (l & _ & _ & _ & ?); done).
  destruct (unload_live id e m c Ha He) as (m1 & c1 & -> & Ha1 & Ht & Hl1). cbn [mbind option_bind].
  destruct (IH (S (S k)) L' m1 c1 Hrand Ha1 Hn) as (m' & c' & -> & Ht').
  { rewrite Forall_forall in Hl |- *. intros a Hin. apply Hl1; [by apply Hl|]. by intros ->. }
  { cbn in Hlen. lia. }
  exists m', c'. split; [done|]. lia.
Qed.

End evict.
