(* ===== verification/CacheLoad.v ===== *)
(** Cooperative loading of programs (replenish_program_cache in
    agave/svm/src/transaction_processor.rs): threads of one bank look for the programs of their
    batches in the shared cache; a program that is missing is loaded by one of them, while the
    others load something else or wait.

    A search holds the read lock of the cache and the submission of a program the write lock, so
    each is one step. Searches of several threads can overlap; each takes at most one task, under
    the lock of the tasks, so they are as if one after the other. *)

From Stdlib Require Import ZArith Lia Bool.
From stdpp Require Import gmap sorting.
From S2P Require Import Prelude.
From S2P Require Import SbpfTypes.
From S2P Require Import TxAccounts.
From S2P Require Import ProgramCache.
From S2P Require Import CacheSafe.
From S2P Require Import CacheView.

#[local] Open Scope Z_scope.

Section replenish.
Context {Executable BuiltinProgram : Type} (get_loader : Executable -> Z).
Abbreviation Entry := (ProgramCacheEntry Executable BuiltinProgram).
Abbreviation Cache := (ProgramCache Executable BuiltinProgram).
Abbreviation Batch := (ProgramCacheForTxBatch Executable BuiltinProgram).
Abbreviation Missing := (list (Pubkey * ProgramCacheMatchCriteria * Z)).

Context (debug_assertions : bool) (environments : ProgramRuntimeEnvironments) (bank_slot : Z).
Context (limit_to_load_programs increment_usage_counter : bool).
(** [load_program_with_pubkey]. *)
Context (load_program : Pubkey -> Cells -> option (Cells * Entry)).

(** [missing_programs]: the programs and what they must match. *)
Definition missing_programs (check_program_deployment_slot : bool) (get_program_deployment_slot : Pubkey -> option Z)
    (program_accounts_set : list (Pubkey * Z)) : Missing :=
  map (fun '(pubkey, last_modification_slot) =>
    let match_criteria :=
      if check_program_deployment_slot then
        match get_program_deployment_slot pubkey with
        | Some slot => DeployedOnOrAfterSlot slot
        | None => Tombstone
        end
      else NoCriteria in
    (pubkey, match_criteria, last_modification_slot)) program_accounts_set.

(** Where a thread is in the loop. *)
Inductive Phase :=
| Searching (count_hits_and_misses : bool)
| Loading (key : Pubkey)
| Waiting (task_cookie : Z)
| Finished.

Record Thread := mkThread { phase : Phase; missing : Missing; batch : Batch }.

Definition set_loaded_missing (b : Batch) : Batch :=
  mkBatch (batch_entries b) (modified_entries b) (batch_slot b) (hit_max_limit b) true (merged_modified b).
Definition set_hit_max_limit (b : Batch) : Batch :=
  mkBatch (batch_entries b) (modified_entries b) (batch_slot b) true (loaded_missing b) (merged_modified b).

(** Extract, and read the cookie under the same lock. *)
Definition replenish_search (thread : Z) (count : bool) (t : Thread) (m : Cells) (c : Cache)
    : option (Cells * Cache * Thread) :=
  let! (m, c, b, rest, task) :=
    extract get_loader thread environments increment_usage_counter count (missing t) (batch t) m c in
  Some (m, c,
    mkThread
      (match task with
       | Some key => Loading key
       | None => if is_nil rest then Finished else Waiting (waiter_cookie c)
       end) rest b).

(** Load one program and submit it. *)
Definition replenish_submit (thread : Z) (key : Pubkey) (t : Thread) (m : Cells) (c : Cache)
    : option (Cells * Cache * Thread) :=
  let! (m, e) := load_program key m in
  let b := set_loaded_missing (batch t) in
  let! (m, c, was_occupied) :=
    finish_cooperative_loading_task get_loader debug_assertions thread environments bank_slot key e m c in
  Some (m, c,
    if was_occupied && limit_to_load_programs
    then mkThread Finished (missing t) (set_hit_max_limit (batch_new bank_slot))
    else mkThread (Searching false) (missing t) b).

(** The next step of a thread; [None] when it waits, has finished or panics. *)
Definition thread_step (thread : Z) (t : Thread) (m : Cells) (c : Cache) : option (Cells * Cache * Thread) :=
  match phase t with
  | Searching count => replenish_search thread count t m c
  | Loading key => replenish_submit thread key t m c
  | Waiting cookie =>
      if waiter_cookie c =? cookie then None else Some (m, c, mkThread (Searching false) (missing t) (batch t))
  | Finished => None
  end.

(** Threads, identified by their positions. *)
Definition System : Type := Cells * Cache * list Thread.

Inductive system_step : System -> System -> Prop :=
| step_thread i t m c m' c' t' ts :
    ts !! i = Some t -> thread_step (Z.of_nat i) t m c = Some (m', c', t') ->
    system_step (m, c, ts) (m', c', <[i := t']> ts).

(** ** Frames *)

(** Assigning and submitting change the versions of one program. *)
Lemma assign_frame key (e : Entry) m (c : Cache) m' c' r :
  assign_program get_loader debug_assertions environments key e m c = Some (m', c', r) ->
  loading_entries c' = loading_entries c /\ latest_root_slot c' = latest_root_slot c /\
  fork_graph c' = fork_graph c /\ waiter_cookie c' = waiter_cookie c /\
  forall k, k <> key -> entries c' !! k = entries c !! k.
Proof.
  unfold assign_program. destruct (_ && _); [done|]. destruct (binary_search_by _ _) as [i|i].
  - destruct (_ !! i) as [x|]; [|done]. cbn [mbind option_bind]. destruct (may_replace x e).
    + intros [= <- <- <-]. do 4 (split; [done|]). intros k Hk. cbn. by rewrite lookup_insert_ne.
    + destruct debug_assertions; [done|]. intros [= <- <- <-]. do 4 (split; [done|]). intros k Hk. cbn. by rewrite lookup_insert_ne.
  - intros [= <- <- <-]. do 4 (split; [done|]). intros k Hk. cbn. by rewrite lookup_insert_ne.
Qed.

(** ** Completion *)

Section completion.
Context (fg : ForkGraph) `{!ForkGraphLaws fg} (m0 : Cells) (c0 : Cache) (threads0 : list Thread).
Context (criteria : Pubkey -> ProgramCacheMatchCriteria) (keys : list Pubkey).
Abbreviation root := (latest_root_slot c0).

(** Whether a batch finds a program. *)
Definition found (c : Cache) (key : Pubkey) : bool :=
  match extract_version get_loader fg root bank_slot environments (criteria key) None (rev (default [] (entries c !! key))) with
  | NotFound => false
  | _ => true
  end.

(** What the threads rely on: a program that they load goes into the cache, and is found there. *)
Class LoadLaw : Prop :=
  loads key m : key ∈ keys ->
    exists m1 e, load_program key m = Some (m1, e) /\
      forall c, entries c !! key = entries c0 !! key ->
        exists m2 c2, assign_program get_loader debug_assertions environments key e m1 c = Some (m2, c2, false) /\
          found c2 key = true.
Context {Hload : LoadLaw}.

(** How the threads start. *)
Record start_ok : Prop := {
  start_fork : fork_graph c0 = LiveForkGraph fg;
  start_loading : loading_entries c0 = ∅;
  start_keys : NoDup keys;
  start_cookie : 0 <= waiter_cookie c0 /\ waiter_cookie c0 + len keys <= u64_MAX;
  start_threads : Forall (fun t => (exists count, phase t = Searching count) /\ batch_slot (batch t) = bank_slot /\
    Forall (fun item => item.1.2 = criteria item.1.1 /\ item.1.1 ∈ keys) (missing t)) threads0
}.
Context (Hstart : start_ok).

(** How many programs are still to be loaded. *)
Definition to_load (c : Cache) : nat := length (filter (fun k => found c k = false) keys).

(** What holds of a thread that started with [t0]. *)
Record thread_ok (c : Cache) (i : nat) (t0 t : Thread) : Prop := {
  th_slot : batch_slot (batch t) = bank_slot;
  th_missing : missing t `sublist_of` missing t0;
  th_found : forall item, item ∈ missing t0 -> item ∈ missing t \/ is_Some (batch_entries (batch t) !! item.1.1);
  th_phase :
    match phase t with
    | Searching _ => True
    | Loading key => key ∈ keys /\ loading_entries c !! key = Some (bank_slot, Z.of_nat i)
    | Waiting cookie => cookie <= waiter_cookie c /\
        (cookie = waiter_cookie c -> missing t <> [] /\ Forall (fun item => is_Some (loading_entries c !! item.1.1)) (missing t))
    | Finished => missing t = []
    end
}.

Record system_ok (c : Cache) (ts : list Thread) : Prop := {
  sys_fork : fork_graph c = LiveForkGraph fg;
  sys_root : latest_root_slot c = root;
  sys_threads : Forall2 (fun i_t0 t => thread_ok c i_t0.1 i_t0.2 t) (imap pair threads0) ts;
  sys_loading key v : loading_entries c !! key = Some v ->
    found c key = false /\ exists i t, ts !! i = Some t /\ phase t = Loading key /\ v = (bank_slot, Z.of_nat i);
  sys_entries key : found c key = false -> entries c !! key = entries c0 !! key;
  sys_cookie : 0 <= waiter_cookie c /\ waiter_cookie c + Z.of_nat (to_load c) <= u64_MAX
}.

Lemma to_load_bound c : (to_load c <= length keys)%nat.
Proof. unfold to_load. apply length_filter. Qed.

Lemma start_system_ok : system_ok c0 threads0.
Proof.
  destruct Hstart as [H1 H2 H3 [H4 H5] H6]. split; [done|done| |by rewrite H2|done|].
  - apply Forall2_same_length_lookup. split; [by rewrite length_imap|]. intros i [j t0] t Hi Ht.
    rewrite list_lookup_imap in Hi. destruct (threads0 !! i) as [t1|] eqn:E; [|done]. cbn in Hi. injection Hi as <- <-.
    injection Ht as <-. destruct (Forall_lookup_1 _ _ _ _ H6 E) as ((cnt & Ep) & Hs & _).
    split; [done|done|by left|]. by rewrite Ep.
  - split; [done|]. pose proof (to_load_bound c0). unfold len in *. lia.
Qed.

Lemma thread_lookup c ts i t :
  system_ok c ts -> ts !! i = Some t -> exists t0, threads0 !! i = Some t0 /\ thread_ok c i t0 t.
Proof.
  intros Hs Ht. destruct (Forall2_lookup_r _ _ _ _ _ (sys_threads _ _ Hs) Ht) as ([j t0] & Hj & Hok).
  rewrite list_lookup_imap in Hj. destruct (threads0 !! i) as [t1|] eqn:E; [|done]. cbn in Hj. injection Hj as <- <-. by exists t1.
Qed.

(** The other threads after a step of thread [i]. *)
Lemma threads_insert c c' ts i t0 t' :
  system_ok c ts -> threads0 !! i = Some t0 -> thread_ok c' i t0 t' ->
  (forall j t1 t, j <> i -> threads0 !! j = Some t1 -> ts !! j = Some t -> thread_ok c j t1 t -> thread_ok c' j t1 t) ->
  Forall2 (fun i_t0 t => thread_ok c' i_t0.1 i_t0.2 t) (imap pair threads0) (<[i := t']> ts).
Proof.
  intros Hs Ht0 Hok Hother. pose proof (Forall2_length _ _ _ (sys_threads _ _ Hs)) as Hl. rewrite length_imap in Hl.
  apply Forall2_same_length_lookup. split; [by rewrite length_imap, length_insert|]. intros j [k t1] t Hj Ht.
  rewrite list_lookup_imap in Hj. destruct (threads0 !! j) as [t2|] eqn:E; [|done]. cbn in Hj. injection Hj as <- <-. cbn.
  destruct (decide (i = j)) as [->|Hne].
  - rewrite list_lookup_insert_eq in Ht by (apply lookup_lt_Some in E; lia). injection Ht as <-. congruence.
  - rewrite list_lookup_insert_ne in Ht by done. apply (Hother j t2 t); [done..|].
    destruct (thread_lookup c ts j t Hs Ht) as (t3 & E3 & ?). congruence.
Qed.

(** Ranks: a thread that can go on counts more than one that waits. *)
Definition rank (c : Cache) (t : Thread) : nat :=
  match phase t with
  | Searching _ => 2
  | Loading _ => 1
  | Waiting cookie => if waiter_cookie c =? cookie then 1 else 3
  | Finished => 0
  end.
Definition ranks (c : Cache) (ts : list Thread) : nat := sum_list_with (rank c) ts.

Definition potential (c : Cache) (ts : list Thread) : nat := (to_load c * (3 * length ts + 1) + ranks c ts)%nat.

Lemma ranks_bound c ts : (ranks c ts <= 3 * length ts)%nat.
Proof.
  unfold ranks. induction ts as [|t ts IH]; [done|]. cbn. assert (rank c t <= 3)%nat; [|lia].
  unfold rank. destruct (phase t); [lia..| |lia]. destruct (_ =? _); lia.
Qed.

Lemma ranks_insert c ts i t t' :
  ts !! i = Some t -> (ranks c (<[i := t']> ts) + rank c t = ranks c ts + rank c t')%nat.
Proof.
  unfold ranks. revert i. induction ts as [|a ts IH]; intros i Hi; [done|]. destruct i as [|i].
  - injection Hi as ->. change (<[0%nat := t']> (t :: ts)) with (t' :: ts). cbn [sum_list_with]. lia.
  - specialize (IH i Hi). change (<[S i := t']> (a :: ts)) with (a :: <[i := t']> ts). cbn [sum_list_with]. lia.
Qed.

Lemma ranks_same c c' ts : waiter_cookie c' = waiter_cookie c -> ranks c' ts = ranks c ts.
Proof. intros E. unfold ranks, rank. by rewrite E. Qed.

(** ** Steps *)

Lemma found_same c c' key : entries c' !! key = entries c !! key -> found c' key = found c key.
Proof. intros E. unfold found. by rewrite E. Qed.

Lemma to_load_same c c' : entries c' = entries c -> to_load c' = to_load c.
Proof.
  intros E. unfold to_load. f_equal. apply list_filter_iff. intros k. by rewrite (found_same c c' k) by (by rewrite E).
Qed.

Lemma search_ok m c ts i t count :
  system_ok c ts -> ts !! i = Some t -> phase t = Searching count ->
  exists m' c' t', replenish_search (Z.of_nat i) count t m c = Some (m', c', t') /\
    system_ok c' (<[i := t']> ts) /\ (potential c' (<[i := t']> ts) < potential c ts)%nat.
Proof.
  intros Hs Ht Ep. destruct (thread_lookup c ts i t Hs Ht) as (t0 & Ht0 & [T1 T2 T3 T4]).
  unfold replenish_search, extract. rewrite (sys_fork _ _ Hs).
  destruct (extract_loop _ _ _ _ _ _ _ _ _ _ _ _ _) as [[[[m1 f1] l1] task] rest] eqn:El.
  apply extract_loop_rest in El as (R1 & R2 & R3 & R4 & R5). rewrite T1 in R4, R5. rewrite (sys_root _ _ Hs) in R4.
  cbn [mbind option_bind]. set (c' := if count then _ else _).
  assert (fork_graph c' = fork_graph c /\ latest_root_slot c' = latest_root_slot c /\ entries c' = entries c /\
    waiter_cookie c' = waiter_cookie c /\ loading_entries c' = l1) as (C1 & C2 & C3 & C4 & C5) by (by unfold c'; destruct count).
  set (ph := match task with Some _ => _ | None => _ end). set (t' := mkThread ph rest _).
  exists m1, c', t'. split; [done|].
  assert (forall item, item ∈ rest -> found c item.1.1 = false /\ item.1.1 ∈ keys) as Hrest.
  { intros item Hi. assert (item ∈ missing t0) as Hi0 by (eapply elem_of_sublist; [|exact T2]; by eapply elem_of_sublist).
    destruct Hstart as [_ _ _ _ Hth]. destruct (Forall_lookup_1 _ _ _ _ Hth Ht0) as (_ & _ & Hm).
    rewrite Forall_forall in Hm. destruct (Hm item Hi0) as [Hc Hk]. split; [|done]. rewrite Forall_forall in R4.
    specialize (R4 item Hi). unfold found. rewrite <- Hc. by rewrite R4. }
  assert (forall k v, loading_entries c !! k = Some v -> l1 !! k = Some v) as Hmono.
  { intros k v Hk. unfold task_given in R5. destruct task as [key|]; [|by destruct R5 as [-> _]].
    destruct R5 as (A1 & -> & _). rewrite lookup_insert_ne; [done|]. congruence. }
  assert (rank c' t' <= 1)%nat as Hrank.
  { unfold rank, t', ph. cbn. destruct task; [done|]. destruct (is_nil rest); [lia|]. by rewrite Z.eqb_refl. }
  split.
  - split; [by rewrite C1, (sys_fork _ _ Hs)|by rewrite C2, (sys_root _ _ Hs)| | | |].
    + apply (threads_insert c c' ts i t0 t' Hs Ht0).
      * split; cbn; [done|by etrans| |].
        { intros item Hi. destruct (T3 item Hi) as [Hi'|Hi']; [by apply R2|right; by apply R3]. }
        unfold ph. rewrite C4, C5. unfold task_given in R5. destruct task as [key|].
        { destruct R5 as (A1 & -> & A3). split; [|by rewrite lookup_insert_eq].
          apply list_elem_of_fmap in A3 as ([k cr] & -> & A3). apply list_elem_of_fmap in A3 as ([[k' cr'] md] & [= -> ->] & A3).
          by apply (Hrest _ A3). }
        destruct R5 as [-> A2]. destruct rest as [|item rest]; [done|]. split; [lia|]. intros _. by split.
      * intros j t1 t2 Hj _ _ [U1 U2 U3 U4]. split; [done..|]. rewrite C4, C5. destruct (phase t2) as [|key|cookie|]; [done| |split; [apply U4|]|done].
        { destruct U4 as [? ?]. split; [done|]. by apply Hmono. }
        intros E. destruct U4 as [_ U4]. destruct (U4 E) as [? Hf]. split; [done|]. eapply Forall_impl; [exact Hf|].
        intros item [v Hv]. exists v. by apply Hmono.
    + intros k v Hk. rewrite C5 in Hk. rewrite (found_same c c' k) by (by rewrite C3). unfold task_given in R5.
      assert (loading_entries c !! k = Some v -> found c k = false /\
        exists i0 t1, <[i := t']> ts !! i0 = Some t1 /\ phase t1 = Loading k /\ v = (bank_slot, Z.of_nat i0)) as Hold.
      { intros Ho. destruct (sys_loading _ _ Hs k v Ho) as (B1 & j & t1 & B2 & B3 & B4). split; [done|]. exists j, t1.
        split; [|done]. rewrite list_lookup_insert_ne; [done|]. intros <-. congruence. }
      destruct task as [key|]; [|destruct R5 as [-> _]; by apply Hold]. destruct R5 as (A1 & -> & A3).
      destruct (decide (k = key)) as [->|Hne]; [|rewrite lookup_insert_ne in Hk by done; by apply Hold].
      rewrite lookup_insert_eq in Hk. injection Hk as <-.
      apply list_elem_of_fmap in A3 as ([k cr] & -> & A3). apply list_elem_of_fmap in A3 as ([[k' cr'] md] & [= -> ->] & A3).
      split; [by apply (Hrest _ A3)|]. exists i, t'. split; [|done].
      apply list_lookup_insert_eq. by eapply lookup_lt_Some.
    + intros k Hk. rewrite C3. rewrite (found_same c c' k) in Hk by (by rewrite C3). by apply (sys_entries _ _ Hs).
    + rewrite C4, (to_load_same c c' C3). apply (sys_cookie _ _ Hs).
  - unfold potential. rewrite (to_load_same c c' C3), length_insert.
    pose proof (ranks_insert c' ts i t t' Ht) as Hr. rewrite (ranks_same c c' ts C4) in Hr.
    assert (rank c' t = 2%nat) as E2 by (unfold rank; by rewrite Ep). lia.
Qed.

Lemma wake_ok c ts i t cookie :
  system_ok c ts -> ts !! i = Some t -> phase t = Waiting cookie -> waiter_cookie c <> cookie ->
  let t' := mkThread (Searching false) (missing t) (batch t) in
  system_ok c (<[i := t']> ts) /\ (potential c (<[i := t']> ts) < potential c ts)%nat.
Proof.
  intros Hs Ht Ep Hne t'. destruct (thread_lookup c ts i t Hs Ht) as (t0 & Ht0 & [T1 T2 T3 T4]). split.
  - destruct (Hs) as [S1 S2 S3 S4 S5 S6]. split; [done|done| | |done|done].
    + apply (threads_insert c c ts i t0 t' Hs Ht0); [by split|done].
    + intros k v Hk. destruct (S4 k v Hk) as (B1 & j & t1 & B2 & B3 & B4). split; [done|]. exists j, t1.
      split; [|done]. rewrite list_lookup_insert_ne; [done|]. intros <-. congruence.
  - unfold potential. rewrite length_insert. pose proof (ranks_insert c ts i t t' Ht) as Hr.
    assert (rank c t = 3%nat) as E3. { unfold rank. rewrite Ep. by destruct (Z.eqb_spec (waiter_cookie c) cookie). }
    assert (rank c t' = 2%nat) as E2 by done. lia.
Qed.

Lemma filter_ext_in {A} (P Q : A -> Prop) `{!forall x, Decision (P x), !forall x, Decision (Q x)} (l : list A) :
  (forall x, x ∈ l -> P x <-> Q x) -> filter P l = filter Q l.
Proof.
  induction l as [|x l IH]; intros Hx; [done|]. rewrite !filter_cons, IH by (intros; apply Hx; by right).
  pose proof (Hx x ltac:(by left)). destruct (decide (P x)), (decide (Q x)); tauto.
Qed.

(** A program fewer is to be loaded. *)
Lemma to_load_less c c' key :
  NoDup keys -> key ∈ keys -> found c key = false -> found c' key = true ->
  (forall k, k <> key -> entries c' !! k = entries c !! k) -> (to_load c' < to_load c)%nat.
Proof.
  intros Hn Hk Hf Hf' Hsame. unfold to_load. revert Hn Hk. induction keys as [|k l IH]; intros Hn Hk; [by apply elem_of_nil in Hk|].
  apply NoDup_cons in Hn as [Hkl Hn]. rewrite !filter_cons. destruct (decide (k = key)) as [->|Hne].
  - destruct (decide (found c' key = false)); [congruence|]. destruct (decide (found c key = false)); [|congruence].
    cbn [length]. assert (filter (fun k => found c' k = false) l = filter (fun k => found c k = false) l) as ->; [|lia].
    apply filter_ext_in. intros k Hkin. rewrite (found_same c c' k); [done|]. apply Hsame. by intros ->.
  - apply elem_of_cons in Hk as [|Hk]; [congruence|]. specialize (IH Hn Hk). rewrite (found_same c c' k) by by apply Hsame.
    destruct (decide (found c k = false)); cbn; lia.
Qed.

Lemma submit_ok m c ts i t key :
  system_ok c ts -> ts !! i = Some t -> phase t = Loading key ->
  exists m' c' t', replenish_submit (Z.of_nat i) key t m c = Some (m', c', t') /\
    system_ok c' (<[i := t']> ts) /\ (potential c' (<[i := t']> ts) < potential c ts)%nat.
Proof.
  intros Hs Ht Ep. destruct (thread_lookup c ts i t Hs Ht) as (t0 & Ht0 & [T1 T2 T3 T4]). rewrite Ep in T4. destruct T4 as [Hk Hl].
  destruct (sys_loading _ _ Hs key _ Hl) as [Hnf _]. destruct (loads key m Hk) as (m1 & e & E1 & Hassign).
  unfold replenish_submit. rewrite E1. cbn [mbind option_bind]. unfold finish_cooperative_loading_task.
  rewrite Hl. rewrite bool_decide_eq_true_2 by done. cbn [negb]. rewrite andb_false_r.
  set (c1 := set_loading_entries (delete key (loading_entries c)) c).
  assert (exists c2, (if latest_root_slot c1 <? deployment_slot e then
         match fork_graph c1 with
         | NoForkGraph | DroppedForkGraph => None
         | LiveForkGraph fg =>
             Some (if is_equal_or_ancestor (fg (deployment_slot e) bank_slot) then c1
                   else map_stats bump_lost_insertions c1)
         end else Some c1) = Some c2 /\ entries c2 = entries c /\ loading_entries c2 = delete key (loading_entries c) /\
      latest_root_slot c2 = latest_root_slot c /\ fork_graph c2 = fork_graph c /\ waiter_cookie c2 = waiter_cookie c)
    as (c2 & -> & D1 & D2 & D3 & D4 & D5).
  { destruct (_ <? _); [|by exists c1]. cbn. rewrite (sys_fork _ _ Hs). eexists. split; [done|].
    pose proof (sys_fork _ _ Hs). by destruct (is_equal_or_ancestor _). }
  cbn [mbind option_bind]. destruct (Hassign c2) as (m2 & c3 & E3 & Hf3); [rewrite D1; by apply (sys_entries _ _ Hs)|].
  rewrite E3. cbn [mbind option_bind andb]. set (t' := mkThread (Searching false) _ _). exists m2, (notify c3), t'. split; [done|].
  apply assign_frame in E3 as (F1 & F2 & F3 & F4 & F5). rewrite D1 in F5. rewrite D2 in F1. rewrite D3 in F2. rewrite D4 in F3. rewrite D5 in F4.
  assert (to_load (notify c3) < to_load c)%nat as Hless.
  { apply (to_load_less c (notify c3) key); [apply Hstart|done..]. }
  destruct (sys_cookie _ _ Hs) as [K1 K2].
  assert (waiter_cookie (notify c3) = waiter_cookie c + 1) as Hcookie.
  { cbn. rewrite F4. apply cast_u_id. unfold is_u. lia. }
  split.
  - split; [cbn; by rewrite F3, (sys_fork _ _ Hs)|cbn; by rewrite F2, (sys_root _ _ Hs)| | | |].
    + apply (threads_insert c (notify c3) ts i t0 t' Hs Ht0); [by split|].
      intros j t1 t2 Hj _ Hj2 [U1 U2 U3 U4]. split; [done..|]. destruct (phase t2) as [|k|cookie|]; [done| | |done].
      * destruct U4 as [U4 U5]. split; [done|]. cbn. rewrite F1, lookup_delete_ne; [done|]. intros <-. rewrite U5 in Hl.
        injection Hl as Hl. lia.
      * rewrite Hcookie. destruct U4 as [U4 _]. split; [lia|]. lia.
    + intros k v Hkv. cbn in Hkv. rewrite F1 in Hkv. destruct (decide (k = key)) as [->|Hne]; [by rewrite lookup_delete_eq in Hkv|].
      rewrite lookup_delete_ne in Hkv by done. destruct (sys_loading _ _ Hs k v Hkv) as (B1 & j & t1 & B2 & B3 & B4).
      rewrite (found_same c (notify c3) k) by by apply F5. split; [done|]. exists j, t1. split; [|done].
      rewrite list_lookup_insert_ne; [done|]. intros <-. congruence.
    + intros k Hkf. destruct (decide (k = key)) as [->|Hne]; [change (found c3 key = false) in Hkf; congruence|].
      cbn. rewrite F5 by done. apply (sys_entries _ _ Hs). by rewrite (found_same c (notify c3) k) in Hkf by by apply F5.
    + rewrite Hcookie. lia.
  - unfold potential. rewrite length_insert. pose proof (ranks_bound (notify c3) (<[i := t']> ts)) as Hb. rewrite length_insert in Hb.
    nia.
Qed.

Lemma system_step_ok s s' :
  system_ok s.1.2 s.2 -> system_step s s' ->
  system_ok s'.1.2 s'.2 /\ (potential s'.1.2 s'.2 < potential s.1.2 s.2)%nat.
Proof.
  intros Hs Hstep. destruct Hstep as [i t m c m' c' t' ts Ht E]. cbn in *. unfold thread_step in E.
  destruct (phase t) as [count|key|cookie|] eqn:Ep; [| | |done].
  - destruct (search_ok m c ts i t count Hs Ht Ep) as (m1 & c1 & t1 & E1 & H). rewrite E1 in E. by injection E as <- <- <-.
  - destruct (submit_ok m c ts i t key Hs Ht Ep) as (m1 & c1 & t1 & E1 & H). rewrite E1 in E. by injection E as <- <- <-.
  - destruct (Z.eqb_spec (waiter_cookie c) cookie); [done|]. injection E as <- <- <-. by apply (wake_ok c ts i t cookie).
Qed.

Lemma steps_ok n s s' :
  system_ok s.1.2 s.2 -> nsteps system_step n s s' ->
  system_ok s'.1.2 s'.2 /\ (n + potential s'.1.2 s'.2 <= potential s.1.2 s.2)%nat.
Proof.
  intros Hs Hn. induction Hn as [s|n s s1 s2 H1 Hn IH]; [split; [done|lia]|].
  destruct (system_step_ok s s1 Hs H1) as [Hs1 Hp]. destruct (IH Hs1) as [Hs2 Hp2]. split; [done|lia].
Qed.

(** As long as a thread has not finished, some thread can go on. *)
Lemma some_thread_goes m c ts i t :
  system_ok c ts -> ts !! i = Some t -> phase t <> Finished -> exists s', system_step (m, c, ts) s'.
Proof.
  intros Hs Ht Hp.
  assert (forall j t key, ts !! j = Some t -> phase t = Loading key -> exists s', system_step (m, c, ts) s') as Hload'.
  { intros j t1 key Hj Ej. destruct (submit_ok m c ts j t1 key Hs Hj Ej) as (m1 & c1 & t2 & E1 & _).
    eexists. apply (step_thread j t1 m c m1 c1 t2 ts Hj). unfold thread_step. by rewrite Ej. }
  destruct (phase t) as [count|key|cookie|] eqn:Ep; [| | |done].
  - destruct (search_ok m c ts i t count Hs Ht Ep) as (m1 & c1 & t1 & E1 & _).
    eexists. apply (step_thread i t m c m1 c1 t1 ts Ht). unfold thread_step. by rewrite Ep.
  - by apply (Hload' i t key).
  - destruct (thread_lookup c ts i t Hs Ht) as (t0 & Ht0 & [_ _ _ T4]). rewrite Ep in T4. destruct T4 as [_ T4].
    destruct (Z.eqb_spec (waiter_cookie c) cookie) as [E|E].
    + destruct (T4 (eq_sym E)) as [Hne Hf]. destruct (missing t) as [|item l]; [done|]. apply Forall_cons in Hf as [[v Hv] _].
      destruct (sys_loading _ _ Hs _ _ Hv) as (_ & j & t1 & Hj & Ej & _). by apply (Hload' j t1 item.1.1).
    + eexists. eapply (step_thread i t m c m c _ ts Ht). unfold thread_step. rewrite Ep.
      destruct (Z.eqb_spec (waiter_cookie c) cookie); [done|reflexivity].
Qed.

End completion.

End replenish.

(** C12. Cooperative loading completes. Threads of a bank look for the programs of their batches;
    what they load goes into the cache and is found there. Then no run of theirs goes on forever,
    and none gets stuck before the end: when no thread can go on, every thread has finished and
    its batch has all its programs. At every moment a program is loaded by at most one thread. *)
Theorem loading_completes {Executable BuiltinProgram : Type} (get_loader : Executable -> Z)
    (debug_assertions : bool) (environments : ProgramRuntimeEnvironments) (bank_slot : Z) (limit increment : bool)
    (load_program : Pubkey -> Cells -> option (Cells * ProgramCacheEntry Executable BuiltinProgram))
    (fg : ForkGraph) (m0 : Cells) (c0 : ProgramCache Executable BuiltinProgram) (threads0 : list Thread)
    (criteria : Pubkey -> ProgramCacheMatchCriteria) (keys : list Pubkey) :
  start_ok bank_slot fg c0 threads0 criteria keys ->
  LoadLaw get_loader debug_assertions environments bank_slot load_program fg c0 criteria keys ->
  let step := system_step get_loader debug_assertions environments bank_slot limit increment load_program in
  (forall n s, nsteps step n (m0, c0, threads0) s ->
     (n <= length keys * (3 * length threads0 + 1) + 3 * length threads0)%nat) /\
  (forall s, rtc step (m0, c0, threads0) s ->
     (forall i j t u key, s.2 !! i = Some t -> s.2 !! j = Some u -> phase t = Loading key -> phase u = Loading key -> i = j) /\
     ((forall s', ~ step s s') ->
        Forall2 (fun t0 t => phase t = Finished /\
          forall item, item ∈ missing t0 -> is_Some (batch_entries (batch t) !! item.1.1)) threads0 s.2)).
Proof.
  intros Hstart Hload step.
  pose proof (start_system_ok get_loader environments bank_slot fg c0 threads0 criteria keys Hstart) as H0. split.
  - intros n s Hn.
    destruct (steps_ok get_loader debug_assertions environments bank_slot limit increment load_program fg c0 threads0 criteria
      keys Hstart n (m0, c0, threads0) s H0 Hn) as [_ Hp]. cbn [fst snd] in Hp.
    unfold potential in Hp. pose proof (ranks_bound c0 threads0). pose proof (to_load_bound get_loader environments bank_slot fg c0 criteria keys c0).
    nia.
  - intros s Hs. apply rtc_nsteps in Hs as [n Hn].
    destruct (steps_ok get_loader debug_assertions environments bank_slot limit increment load_program fg c0 threads0 criteria
      keys Hstart n (m0, c0, threads0) s H0 Hn) as [Hok _]. destruct s as [[m c] ts]. cbn [fst snd] in *. split.
    + intros i j t u key Hi Hj Et Eu.
      destruct (thread_lookup _ _ _ _ _ _ _ _ c ts i t Hok Hi) as (t0 & _ & [_ _ _ T]). rewrite Et in T.
      destruct (thread_lookup _ _ _ _ _ _ _ _ c ts j u Hok Hj) as (u0 & _ & [_ _ _ U]). rewrite Eu in U.
      destruct T as [_ T], U as [_ U]. rewrite T in U. injection U as U. lia.
    + intros Hstuck. pose proof (Forall2_length _ _ _ (sys_threads _ _ _ _ _ _ _ _ _ _ Hok)) as Hl. rewrite length_imap in Hl.
      apply Forall2_same_length_lookup. split; [done|]. intros i t0 t Ht0 Ht.
      assert (phase t = Finished \/ phase t <> Finished) as [Ef|Hne] by (destruct (phase t); [by right..|by left]).
      2:{ exfalso. destruct (some_thread_goes get_loader debug_assertions environments bank_slot limit increment load_program
            fg c0 threads0 criteria keys Hstart m c ts i t Hok Ht Hne) as [s' Hs']. by apply (Hstuck s'). }
      split; [done|]. destruct (thread_lookup _ _ _ _ _ _ _ _ c ts i t Hok Ht) as (t1 & Ht1 & [_ _ T3 T4]).
      rewrite Ef in T4. rewrite Ht0 in Ht1. injection Ht1 as <-. intros item Hi. destruct (T3 item Hi) as [Hm|]; [|done].
      rewrite T4 in Hm. by apply elem_of_nil in Hm.
Qed.
