(* ===== verification/CacheRuns.v ===== *)
(** What the cache of loaded programs promises, over its runs: versions stay in order, a batch
    sees the newest deployment on its fork, what is loaded is found, eviction shrinks the cache, and
    cooperative loading ends. Each promise is shown on a cache of two programs. *)

From Stdlib Require Import ZArith Lia Bool.
From stdpp Require Import gmap sorting relations.
From S2P Require Import Prelude.
From S2P Require Import SbpfTypes.
From S2P Require Import TxAccounts.
From S2P Require Import ProgramCache.
From S2P Require Import CacheSafe.
From S2P Require Import CacheView.
From S2P Require Import CacheEvict.
From S2P Require Import CacheLoad.

#[local] Open Scope Z_scope.

(** ** A fork without branches, and versions of programs *)

Definition one_fork (a b : Z) : BlockRelation :=
  if a =? b then EqualBlock else if a <? b then Ancestor else Descendant.

Lemma one_fork_spec a b :
  (one_fork a b = Ancestor <-> a < b) /\ (one_fork a b = EqualBlock <-> a = b) /\ (one_fork a b = Descendant <-> b < a).
Proof. unfold one_fork. destruct (Z.eqb_spec a b); [|destruct (Z.ltb_spec a b)]; split_and!; split; (done || lia). Qed.

#[global] Instance one_fork_laws : ForkGraphLaws one_fork.
Proof.
  constructor; intros *; rewrite ?(proj1 (one_fork_spec _ _)), ?(proj1 (proj2 (one_fork_spec _ _))), ?(proj2 (proj2 (one_fork_spec _ _))); lia.
Qed.

(** An executable is its environment. *)
Definition version (env deployed : Z) (usage : Z) : ProgramCacheEntry Z unit :=
  mkEntry (Loaded env) LoaderV3 100 deployed (deployed + 1) usage (usage + 1).
Definition env7 : ProgramRuntimeEnvironments := mkEnvironments 7 7.
Definition no_cells : Cells := mkCells ∅ 100.
Definition key1 : Pubkey := [1].
Definition key2 : Pubkey := [2].

(** Two deployments of the first program and one of the second. *)
Definition two_programs : ProgramCache Z unit :=
  mkCache {[key1 := [version 7 3 0; version 7 5 2]; key2 := [version 7 4 4]]} ∅ 2 stats_default (LiveForkGraph one_fork) 0.

(** ** Order *)

Lemma sorted_weaken {A} (R S : A -> A -> Prop) (l : list A) :
  (forall x y, R x y -> S x y) -> StronglySorted R l -> StronglySorted S l.
Proof. intros H. induction 1 as [|x l _ IH Hx]; constructor; [done|]. eapply Forall_impl; [exact Hx|]. auto. Qed.



(** ** What a batch sees *)


Definition batch6 : ProgramCacheForTxBatch Z unit := batch_new 6.
Definition wanted (keys : list Pubkey) : list (Pubkey * ProgramCacheMatchCriteria * Z) := map (fun k => (k, NoCriteria, 0)) keys.

Lemma two_programs_ok :
  map_Forall (fun _ l => ordered (fun e : Z => e) env7 l /\ Forall slots_ok l) (entries two_programs).
Proof.
  unfold two_programs. cbn [entries]. apply map_Forall_insert_2; [|apply map_Forall_singleton].
  all: split; [repeat constructor; vm_compute; lia|repeat constructor; vm_compute; intuition discriminate].
Qed.


(** A program that has just been assigned is found: a batch that searches for it, at a slot
    where it is the newest deployment on the fork and meets the criteria, is given that very entry,
    or a delay tombstone when it is not effective yet, and nothing is left to load. *)
Theorem assigned_program_found {Executable BuiltinProgram : Type} (get_loader : Executable -> Z) (debug_assertions : bool)
    (fg : ForkGraph) (environments : ProgramRuntimeEnvironments) (key : Pubkey) (e : ProgramCacheEntry Executable BuiltinProgram)
    (criteria : ProgramCacheMatchCriteria) (modified thread : Z) (increment count : bool)
    (b : ProgramCacheForTxBatch Executable BuiltinProgram) (m m1 : Cells) (c c1 : ProgramCache Executable BuiltinProgram) :
  cache_ok get_loader environments c -> ForkGraphLaws fg -> fork_graph c = LiveForkGraph fg ->
  assign_program get_loader debug_assertions environments key e m c = Some (m1, c1, false) ->
  latest_root_slot c <= batch_slot b -> Forall slots_ok (e :: default [] (entries c !! key)) ->
  on_fork fg (latest_root_slot c) (batch_slot b) e = true -> matches_environment get_loader e environments = true ->
  accepted criteria e = true ->
  (forall x, x ∈ default [] (entries c !! key) -> on_fork fg (latest_root_slot c) (batch_slot b) x = true ->
     deployment_slot x <= deployment_slot e /\
     (deployment_slot x = deployment_slot e ->
        get_environment get_loader (program x) = get_environment get_loader (program e))) ->
  exists m2 c2 b2, extract get_loader thread environments increment count [(key, criteria, modified)] b m1 c1 = Some (m2, c2, b2, [], None) /\
    if effective_slot e <=? batch_slot b then batch_entries b2 !! key = Some e
    else exists t, batch_entries b2 !! key = Some t /\ program t = DelayVisibility /\ deployment_slot t = deployment_slot e.
Proof.
  intros Hc Hfg Ef Ea Hr [Hes Hs]%Forall_cons Hv Hm Hacc Hold.
  pose proof (assigned_found get_loader debug_assertions environments key e m c m1 c1 fg (batch_slot b) criteria
    Hc Ea Hfg Hr Hs Hes Hv Hm Hacc Hold) as Hx.
  destruct (assign_frame get_loader debug_assertions environments key e m c m1 c1 false Ea) as (H1 & H2 & H3 & _).
  unfold extract. rewrite H3, Ef, H2. cbn [extract_loop]. rewrite Hx.
  destruct (effective_slot e <=? batch_slot b); cbn [extract_entry].
  - eexists _, _, _. split; [reflexivity|]. apply lookup_insert_eq.
  - unfold delay_tombstone, new_tombstone_with_usage_counter. destruct (cell_new 0 m1) as [m2 access].
    eexists _, _, _. split; [reflexivity|]. eexists. split; [apply lookup_insert_eq|done].
Qed.

Lemma two_programs_versions : cache_ok (fun e : Z => e) env7 two_programs.
Proof.
  intros key l Hl. destruct (two_programs_ok key l Hl) as [Ho _]. split; [done|..].
  - unfold two_programs in Hl. cbn [entries] in Hl. apply lookup_insert_Some in Hl as [[_ <-]|[_ [_ <-]%lookup_singleton_Some]];
      intros x y Hx Hy Hne; rewrite ?elem_of_cons, elem_of_nil in Hx, Hy; destruct_or?; subst; done.
  - unfold two_programs in Hl. cbn [entries] in Hl. by apply lookup_insert_Some in Hl as [[_ <-]|[_ [_ <-]%lookup_singleton_Some]].
Qed.

Lemma assigned_program_found_witness :
  exists m1 c1 m2 c2 b2,
    assign_program (fun e : Z => e) true env7 key2 (version 7 5 6) no_cells two_programs = Some (m1, c1, false) /\
    extract (fun e : Z => e) 0 env7 true true [(key2, NoCriteria, 0)] batch6 m1 c1 = Some (m2, c2, b2, [], None) /\
    batch_entries b2 !! key2 = Some (version 7 5 6).
Proof.
  destruct (assign_program (fun e : Z => e) true env7 key2 (version 7 5 6) no_cells two_programs) as [[[m1 c1] r]|] eqn:E; [|discriminate].
  assert (r = false) as -> by (injection E as _ _ <-; reflexivity).
  destruct (assigned_program_found (fun e : Z => e) true one_fork env7 key2 (version 7 5 6) NoCriteria 0 0 true true batch6
    no_cells m1 two_programs c1) as (m2 & c2 & b2 & H1 & H2).
  - exact two_programs_versions.
  - exact one_fork_laws.
  - reflexivity.
  - exact E.
  - discriminate.
  - repeat constructor; vm_compute; intuition discriminate.
  - reflexivity.
  - reflexivity.
  - reflexivity.
  - intros x Hx _. change (default [] (entries two_programs !! key2)) with [version 7 4 4] in Hx.
    apply list_elem_of_singleton in Hx as ->. split; [discriminate|reflexivity].
  - exists m1, c1, m2, c2, b2. split; [reflexivity|]. split; [exact H1|exact H2].
Defined.

(** ** Evicting *)

(** C30. Eviction always succeeds and leaves exactly as many loaded programs as the limit allows,
    or all of them when they are fewer, whether the least used ones go or the less used of two
    random ones, as long as no two versions of a program are equal. *)
Theorem eviction_shrinks {Executable BuiltinProgram : Type} (get_loader : Executable -> Z)
    (iter_entries : gmap Pubkey (list (ProgramCacheEntry Executable BuiltinProgram)) ->
       list (Pubkey * list (ProgramCacheEntry Executable BuiltinProgram)))
    (apply_to : Z -> Z) (random : nat -> Z -> Z) (now : Z) (m : Cells) (c : ProgramCache Executable BuiltinProgram) :
  IterationLaw iter_entries -> (forall k n, 0 < n -> 0 <= random k n < n) -> 0 <= apply_to MAX_LOADED_ENTRY_COUNT ->
  apart (entries c) ->
  let left c' := Z.of_nat (loaded_total (entries c')) = Z.min (Z.of_nat (loaded_total (entries c))) (apply_to MAX_LOADED_ENTRY_COUNT) in
  (exists m' c', evict_using_2s_random_selection get_loader iter_entries apply_to random now m c = Some (m', c') /\ left c') /\
  (exists m' c', sort_and_unload get_loader iter_entries apply_to m c = Some (m', c') /\ left c').
Proof.
  intros Hiter Hrandom Hlimit Ha left. split.
  - unfold evict_using_2s_random_selection. set (candidates := get_flattened_entries iter_entries true c).
    assert (length candidates = loaded_total (entries c)) as Hlen by by apply flattened_length.
    destruct (evict_loop_live get_loader random now (Z.to_nat (saturating_sub (len candidates) (apply_to MAX_LOADED_ENTRY_COUNT))) 0 candidates m
      (map_stats (set_water_level (len candidates)) c)) as (m' & c' & E & H); [done|done|by apply flattened_nodup|by apply (flattened_live iter_entries c)| |].
    { unfold len, saturating_sub. lia. }
    exists m', c'. split; [done|]. unfold left. cbn in H. unfold len, saturating_sub in H. lia.
  - unfold sort_and_unload. set (candidates := sort_by_key _ _).
    assert (candidates ≡ₚ get_flattened_entries iter_entries true c) as Hp by apply sort_by_key_perm.
    assert (length candidates = loaded_total (entries c)) as Hlen by (rewrite Hp; by apply flattened_length).
    set (n := Z.to_nat (saturating_sub (len candidates) (apply_to MAX_LOADED_ENTRY_COUNT))).
    destruct (unload_all_live get_loader (take n candidates) m c Ha) as (m' & c' & E & H).
    { eapply sublist_NoDup; [|apply sublist_take]. rewrite Hp. by apply flattened_nodup. }
    { apply Forall_take. rewrite Hp. by apply flattened_live. }
    exists m', c'. split; [done|]. unfold left. rewrite length_take in H. subst n. unfold len, saturating_sub in *. lia.
Qed.

Lemma eviction_shrinks_witness :
  exists m' c', evict_using_2s_random_selection (fun e : Z => e) map_to_list (fun _ => 2) (fun _ _ => 0) 9 no_cells two_programs = Some (m', c') /\
    loaded_total (entries two_programs) = 3%nat /\ Z.of_nat (loaded_total (entries c')) = 2.
Proof.
  destruct (eviction_shrinks (fun e : Z => e) map_to_list (fun _ => 2) (fun _ _ => 0) 9 no_cells two_programs) as [(m' & c' & H1 & H2) _].
  - by intros m.
  - lia.
  - lia.
  - intros id l i j x y Hl Hx Hy He. unfold two_programs in Hl. cbn [entries] in Hl.
    apply lookup_insert_Some in Hl as [[_ <-]|[_ [_ <-]%lookup_singleton_Some]];
      destruct i as [|[|i]], j as [|[|j]]; cbn in Hx, Hy; simplify_eq; (done || by vm_compute in He).
  - exists m', c'. split; [exact H1|]. split; [vm_compute; reflexivity|]. rewrite H2. vm_compute. reflexivity.
Defined.

(** When the next epoch's environment is being prepared, a program has two versions of one
    deployment, one for each environment, which compare as equal. Evicting the one for the current
    environment then unloads the one for the next; evicting that one too does nothing, and the
    first one stays loaded. *)
Theorem unload_confuses_environments :
  let next_epoch := version 8 5 0 in
  let current := version 7 5 2 in
  let c := set_entries {[key1 := [next_epoch; current]]} two_programs in
  let evicted := unload_program_entry (fun e : Z => e) key1 current no_cells c in
  let evicted_both := let! (m, c) := evicted in unload_program_entry (fun e : Z => e) key1 next_epoch m c in
  let loaded r := option_map (fun mc => option_map (map is_loaded) (entries mc.2 !! key1)) r in
  loaded evicted = Some (Some [false; true]) /\ loaded evicted_both = Some (Some [false; true]).
Proof. split; vm_compute; reflexivity. Qed.

(** ** Cooperative loading *)

Definition fresh_cache : ProgramCache Z unit := set_fork_graph (LiveForkGraph one_fork) (cache_new 2).
Definition two_threads : list Thread := replicate 2 (mkThread (Searching true) (wanted [key1; key2]) batch6).
Definition load_version (key : Pubkey) (m : Cells) : option (Cells * ProgramCacheEntry Z unit) := Some (m, version 7 5 0).

Lemma loading_completes_witness :
  start_ok 6 one_fork fresh_cache two_threads (fun _ => NoCriteria) [key1; key2] /\
  forall n s, nsteps (system_step (fun e : Z => e) true env7 6 true true load_version) n (no_cells, fresh_cache, two_threads) s ->
    (n <= 20)%nat.
Proof.
  assert (start_ok 6 one_fork fresh_cache two_threads (fun _ => NoCriteria) [key1; key2]) as Hs.
  { constructor; [reflexivity|reflexivity| |vm_compute; intuition discriminate|].
    - apply NoDup_cons. split; [|apply NoDup_singleton]. intros H%list_elem_of_singleton. discriminate.
    - repeat constructor; cbn; try (by eexists); apply list_elem_of_In; cbn; tauto. }
  split; [exact Hs|]. intros n s Hn.
  refine (proj1 (loading_completes (fun e : Z => e) true env7 6 true true load_version one_fork no_cells fresh_cache two_threads
    (fun _ => NoCriteria) [key1; key2] Hs _) n s Hn).
  intros key m _. exists m, (version 7 5 0). split; [reflexivity|]. intros c Hc.
  change (entries fresh_cache !! key) with (@None (list (ProgramCacheEntry Z unit))) in Hc.
  eexists m, _. unfold assign_program. rewrite Hc. split; [reflexivity|].
  unfold found. cbn [entries set_entries map_stats default]. rewrite lookup_insert_eq. reflexivity.
Defined.
