(* ===== verification/RollingBitField.v ===== *)
(** The bit field that holds the ancestors of a bank (agave/accounts-db/src/rolling_bit_field.rs
    and ancestors.rs): a ring of bits for a window of slots, with a set beside it for what falls
    below the window.

    Additions wrap, as they do without overflow checks; a failed assertion is a panic, [None].
    The iteration order of the hash set is a parameter. *)

From Stdlib Require Import ZArith Lia Bool.
From stdpp Require Import gmap list sorting.
From S2P Require Import Prelude.

#[local] Open Scope Z_scope.

Record RollingBitField := mkRolling {
  max_width : Z;
  rb_min : Z;
  max_exclusive : Z;
  rb_bits : list bool;
  rb_count : Z;
  rb_excess : gset Z
}.

(** The fields that [&mut self] methods assign. *)
Definition set_min (m : Z) (r : RollingBitField) : RollingBitField :=
  mkRolling (max_width r) m (max_exclusive r) (rb_bits r) (rb_count r) (rb_excess r).
Definition set_window (lo hi : Z) (r : RollingBitField) : RollingBitField :=
  mkRolling (max_width r) lo hi (rb_bits r) (rb_count r) (rb_excess r).
Definition set_count (n : Z) (r : RollingBitField) : RollingBitField :=
  mkRolling (max_width r) (rb_min r) (max_exclusive r) (rb_bits r) n (rb_excess r).
Definition set_excess (s : gset Z) (r : RollingBitField) : RollingBitField :=
  mkRolling (max_width r) (rb_min r) (max_exclusive r) (rb_bits r) (rb_count r) s.

(** [RollingBitField::new]; the width is positive and a power of two. *)
Definition rolling_new (width : Z) : option RollingBitField :=
  if (0 <? width) && (2 ^ Z.log2 width =? width)
  then Some (mkRolling width 0 0 (replicate (Z.to_nat width) false) 0 ∅)
  else None.

Definition get_address (r : RollingBitField) (key : Z) : Z := key mod max_width r.

(** [bits.get] and [bits.set] at the address of a key; the vector has [max_width] bits, so the
    address is one of them. *)
Definition contains_assume_in_range (r : RollingBitField) (key : Z) : bool :=
  default false (rb_bits r !! Z.to_nat (get_address r key)).

Definition set_bit (key : Z) (b : bool) (r : RollingBitField) : RollingBitField :=
  mkRolling (max_width r) (rb_min r) (max_exclusive r)
    (<[Z.to_nat (get_address r key) := b]> (rb_bits r)) (rb_count r) (rb_excess r).

Definition range_width (r : RollingBitField) : Z := max_exclusive r - rb_min r.
Definition rolling_len (r : RollingBitField) : Z := rb_count r.
Definition rolling_is_empty (r : RollingBitField) : bool := rolling_len r =? 0.
Definition max_inclusive (r : RollingBitField) : Z := saturating_sub (max_exclusive r) 1.

Definition all_items_in_excess (r : RollingBitField) : bool :=
  Z.of_nat (size (rb_excess r)) =? rb_count r.

Definition rolling_contains (r : RollingBitField) (key : Z) : bool :=
  if key <? max_exclusive r then
    if rb_min r <=? key then contains_assume_in_range r key
    else bool_decide (key ∈ rb_excess r)
  else false.

(** The [for key in start..max_exclusive] search of [purge]. *)
Fixpoint first_set (r : RollingBitField) (n : nat) (key : Z) : option Z :=
  match n with
  | O => None
  | S n => if contains_assume_in_range r key then Some key else first_set r n (key + 1)
  end.

Definition rolling_purge (key : Z) (r : RollingBitField) : RollingBitField :=
  if (0 <? rb_count r) && negb (all_items_in_excess r) then
    if key =? rb_min r then
      let start := wrapping_add (rb_min r) 1 in
      match first_set r (Z.to_nat (max_exclusive r - start)) start with
      | Some k => set_min k r
      | None => r
      end
    else r
  else set_min (max_exclusive r) r.

(** The [loop] of [insert]: the lowest keys move to the excess until the new key fits. The flag
    is [bits_empty]. *)
Fixpoint make_room (fuel : nat) (new_max : Z) (r : RollingBitField) : option (RollingBitField * bool) :=
  match fuel with
  | O => None
  | S fuel =>
      let new_width := saturating_sub new_max (rb_min r) in
      if new_width <=? max_width r then Some (r, false)
      else if bool_decide (rb_min r ∈ rb_excess r) then None
      else
        let key := rb_min r in
        let r := set_excess ({[key]} ∪ rb_excess r) r in
        let r := set_bit key false r in
        let r := rolling_purge key r in
        if all_items_in_excess r then Some (r, true) else make_room fuel new_max r
  end.

(** The part of [insert] under [if update_bits]. *)
Definition update_bits (key : Z) (bits_empty : bool) (r : RollingBitField) : option RollingBitField :=
  if contains_assume_in_range r key then Some r
  else
    let r := set_bit key true r in
    let! r :=
      if bits_empty then Some (set_window key (wrapping_add key 1) r)
      else
        let r := set_window (Z.min (rb_min r) key) (Z.max (max_exclusive r) (wrapping_add key 1)) r in
        if max_exclusive r <=? wrapping_add (rb_min r) (max_width r) then Some r else None in
    Some (set_count (rb_count r + 1) r).

Definition rolling_insert (key : Z) (r : RollingBitField) : option RollingBitField :=
  let bits_empty := (rb_count r =? 0) || all_items_in_excess r in
  if bits_empty then update_bits key true r
  else if key <? rb_min r then
    Some (if bool_decide (key ∈ rb_excess r) then r
          else set_count (rb_count r + 1) (set_excess ({[key]} ∪ rb_excess r) r))
  else if key <? max_exclusive r then update_bits key false r
  else
    let! (r, bits_empty) := make_room (S (Z.to_nat (rb_count r))) (wrapping_add key 1) r in
    update_bits key bits_empty r.

Definition rolling_remove (key : Z) (r : RollingBitField) : RollingBitField * bool :=
  if rb_min r <=? key then
    if key <? max_exclusive r then
      let get := contains_assume_in_range r key in
      (if get then rolling_purge key (set_bit key false (set_count (rb_count r - 1) r)) else r, get)
    else (r, false)
  else if bool_decide (key ∈ rb_excess r)
       then (set_count (rb_count r - 1) (set_excess (rb_excess r ∖ {[key]}) r), true)
       else (r, false).

Section iteration.
Context (iter : gset Z -> list Z).

(** [self.excess.iter().min().copied()]. *)
Definition min_of (l : list Z) : option Z :=
  match l with
  | [] => None
  | x :: l => Some (foldr Z.min x l)
  end.

Definition rolling_min (r : RollingBitField) : option Z :=
  if rolling_is_empty r then None
  else if bool_decide (rb_excess r = ∅) then Some (rb_min r)
  else
    let excess_min := min_of (iter (rb_excess r)) in
    if all_items_in_excess r then excess_min
    else Some (Z.min (rb_min r) (default u64_MAX excess_min)).

(** [for key in min..max_exclusive]. *)
Definition keys_in_range (r : RollingBitField) : list Z :=
  seqZ (rb_min r) (max_exclusive r - rb_min r).

Definition get_all (r : RollingBitField) : list Z :=
  iter (rb_excess r) ++ filter (fun key => contains_assume_in_range r key = true) (keys_in_range r).

Fixpoint take_below (limit : Z) (l : list Z) : list Z :=
  match l with
  | [] => []
  | key :: l => if limit <=? key then [] else key :: take_below limit l
  end.

Definition get_all_less_than (max_slot_exclusive : Z) (r : RollingBitField) : list Z :=
  filter (fun slot => slot < max_slot_exclusive) (iter (rb_excess r)) ++
  filter (fun key => contains_assume_in_range r key = true) (take_below max_slot_exclusive (keys_in_range r)).

(** The [loop] of [get_prior], down from [slot]. *)
Fixpoint prior_loop (fuel : nat) (r : RollingBitField) (low slot : Z) : option (option Z) :=
  match fuel with
  | O => None
  | S fuel =>
      if rolling_contains r slot then Some (Some slot)
      else
        let slot := saturating_sub slot 1 in
        if (slot =? 0) || (slot <? low) then Some None else prior_loop fuel r low slot
  end.

Definition get_prior (max_slot_exclusive : Z) (r : RollingBitField) : option (option Z) :=
  let slot := saturating_sub max_slot_exclusive 1 in
  match rolling_min r with
  | None => Some None
  | Some m => prior_loop (S (Z.to_nat slot)) r m slot
  end.

(** [PartialEq]. *)
Definition rolling_eqb (r other : RollingBitField) : bool :=
  (rolling_len r =? rolling_len other) && forallb (rolling_contains other) (get_all r).

(** [RollingBitFieldOnesIter]: its state and [next]. *)
Record OnesIter := mkOnesIter { excess_iter : list Z; bit_range : Range }.

Definition iter_ones (r : RollingBitField) : OnesIter :=
  mkOnesIter (iter (rb_excess r)) (mkRange (rb_min r) (max_exclusive r)).

Fixpoint next_bit (r : RollingBitField) (n : nat) (range : Range) : option Z * Range :=
  match n with
  | O => (None, range)
  | S n =>
      let bit := r_start range in
      let range := mkRange (bit + 1) (r_end range) in
      if contains_assume_in_range r bit then (Some bit, range) else next_bit r n range
  end.

Definition ones_next (r : RollingBitField) (it : OnesIter) : option Z * OnesIter :=
  match excess_iter it with
  | excess :: rest => (Some excess, mkOnesIter rest (bit_range it))
  | [] =>
      let range := bit_range it in
      let (bit, range) := next_bit r (Z.to_nat (r_end range - r_start range)) range in
      (bit, mkOnesIter [] range)
  end.

(** ** [Ancestors] *)

Definition ANCESTORS_HASH_MAP_SIZE : Z := 8192.
Definition ancestors_default : option RollingBitField := rolling_new ANCESTORS_HASH_MAP_SIZE.

Fixpoint insert_all (slots : list Z) (r : RollingBitField) : option RollingBitField :=
  match slots with
  | [] => Some r
  | slot :: slots => let! r := rolling_insert slot r in insert_all slots r
  end.

(** [Ancestors::from(Vec<Slot>)]: sorted, then inserted one by one. *)
Definition ancestors_from (source : list Z) : option RollingBitField :=
  let! r := ancestors_default in
  insert_all (merge_sort Z.le source) r.

Definition ancestors_keys (a : RollingBitField) : list Z := get_all a.
Definition contains_key (a : RollingBitField) (slot : Z) : bool := rolling_contains a slot.
Definition ancestors_remove (slot : Z) (a : RollingBitField) : RollingBitField := (rolling_remove slot a).1.
Definition ancestors_len (a : RollingBitField) : Z := rolling_len a.
Definition ancestors_is_empty (a : RollingBitField) : bool := ancestors_len a =? 0.
Definition min_slot (a : RollingBitField) : Z := default 0 (rolling_min a).
Definition max_slot (a : RollingBitField) : Z := saturating_sub (max_exclusive a) 1.
End iteration.
