(* ===== verification/RollingSafe.v ===== *)
(** The rolling bit field behaves as a set of slots, as long as what is inserted into an empty
    window lies above the excess. *)

From Stdlib Require Import ZArith Lia Bool.
From stdpp Require Import gmap list sorting.
From S2P Require Import Prelude.
From S2P Require Import RollingBitField.

#[local] Open Scope Z_scope.

Implicit Types (r : RollingBitField) (k key : Z).

(** ** The keys of the window *)

Definition held (r : RollingBitField) : gset Z :=
  filter (fun key => contains_assume_in_range r key = true) (list_to_set (keys_in_range r)).

(** The set that the field stands for. *)
Definition members (r : RollingBitField) : gset Z := rb_excess r ∪ held r.

Lemma elem_of_held r k :
  k ∈ held r <-> rb_min r <= k < max_exclusive r /\ contains_assume_in_range r k = true.
Proof.
  unfold held, keys_in_range. rewrite elem_of_filter, elem_of_list_to_set, elem_of_seqZ.
  split; intros [? ?]; (split; [first [done|lia]..]); first [done|lia].
Qed.

Lemma elem_of_members r k :
  k ∈ members r <-> k ∈ rb_excess r \/ (rb_min r <= k < max_exclusive r /\ contains_assume_in_range r k = true).
Proof. unfold members. by rewrite elem_of_union, elem_of_held. Qed.

(** The shape that holds at every point: the ring has its width and a set bit stands for a key of
    the window. *)
Record ring_ok (r : RollingBitField) : Prop := {
  ring_width : 0 < max_width r <= 2 ^ 63;
  ring_bits : length (rb_bits r) = Z.to_nat (max_width r);
  ring_min : 0 <= rb_min r;
  ring_range : rb_min r <= max_exclusive r <= rb_min r + max_width r;
  ring_max : max_exclusive r + max_width r <= u64_MAX;
  ring_in a : contains_assume_in_range r a = true ->
    exists k, rb_min r <= k < max_exclusive r /\ k mod max_width r = a mod max_width r;
  ring_count : rb_count r = Z.of_nat (size (rb_excess r)) + Z.of_nat (size (held r))
}.

(** The invariant between operations: the excess is below the window, and the window starts at a
    key unless it is empty. *)
Record rolling_ok (r : RollingBitField) : Prop := {
  rolling_ring : ring_ok r;
  rolling_excess k : k ∈ rb_excess r -> 0 <= k < rb_min r;
  rolling_least : rb_min r < max_exclusive r -> contains_assume_in_range r (rb_min r) = true
}.

(** Two keys of a window of the width with the same address are the same. *)
Lemma address_inj w k k' : 0 < w -> Z.abs (k - k') < w -> k mod w = k' mod w -> k = k'.
Proof.
  intros Hw Hd E. pose proof (Z.div_mod k w ltac:(lia)) as H1. pose proof (Z.div_mod k' w ltac:(lia)) as H2.
  assert (k / w = k' / w) by nia. lia.
Qed.

Lemma bit_set r key b k :
  ring_ok r -> contains_assume_in_range (set_bit key b r) k =
    if bool_decide (k mod max_width r = key mod max_width r) then b else contains_assume_in_range r k.
Proof.
  intros [Hw Hb _ _ _ _ _]. unfold contains_assume_in_range, set_bit, get_address. cbn [rb_bits max_width].
  pose proof (Z.mod_pos_bound k (max_width r) ltac:(lia)). pose proof (Z.mod_pos_bound key (max_width r) ltac:(lia)).
  case_bool_decide as E.
  - rewrite E, list_lookup_insert_eq; [done|]. lia.
  - rewrite list_lookup_insert_ne; [done|]. lia.
Qed.

Lemma bit_set_window r key b k :
  ring_ok r -> Z.abs (k - key) < max_width r ->
  contains_assume_in_range (set_bit key b r) k = if bool_decide (k = key) then b else contains_assume_in_range r k.
Proof.
  intros Hr Hk. rewrite bit_set by done. destruct (ring_width r Hr).
  case_bool_decide as E; case_bool_decide as E'; try done; [|by subst].
  apply address_inj in E; [done|lia..].
Qed.

(** ** Counting *)

Lemma held_nonempty r k : k ∈ held r -> 0 < Z.of_nat (size (held r)).
Proof.
  intros H. destruct (decide (size (held r) = 0%nat)) as [E|E]; [|lia].
  apply size_empty_inv in E. set_solver.
Qed.

Lemma all_in_excess_spec r : ring_ok r -> all_items_in_excess r = bool_decide (held r = ∅).
Proof.
  intros [_ _ _ _ _ _ Hc]. unfold all_items_in_excess. rewrite Hc. case_bool_decide as E.
  - rewrite E, size_empty. apply Z.eqb_eq. lia.
  - apply Z.eqb_neq. intros H. apply E. apply leibniz_equiv, size_empty_inv. lia.
Qed.

Lemma rolling_empty_window r : rolling_ok r -> held r = ∅ <-> rb_min r = max_exclusive r.
Proof.
  intros [[_ _ _ ? _ _ _] _ Hl]. split.
  - intros E. destruct (decide (rb_min r < max_exclusive r)) as [Hlt|]; [|lia].
    specialize (Hl Hlt). assert (rb_min r ∈ held r) by (apply elem_of_held; split; [lia|done]). set_solver.
  - intros E. apply leibniz_equiv, equiv_empty. intros k Hk%elem_of_held. lia.
Qed.

Lemma empty_bits r k : ring_ok r -> held r = ∅ -> contains_assume_in_range r k = false.
Proof.
  intros Hr E. destruct (contains_assume_in_range r k) eqn:Ek; [|done].
  destruct (ring_in r Hr k Ek) as (k' & Hk' & Em).
  assert (k' ∈ held r) as H; [|rewrite E in H; set_solver].
  apply elem_of_held. split; [done|]. unfold contains_assume_in_range, get_address in *. by rewrite Em.
Qed.

Lemma members_size r : rolling_ok r -> rb_count r = Z.of_nat (size (members r)).
Proof.
  intros [[_ _ _ _ _ _ Hc] He _]. unfold members. rewrite size_union; [lia|].
  intros k H1 H2%elem_of_held. specialize (He k H1). lia.
Qed.

(** ** Looking up *)

Lemma contains_spec r k : rolling_ok r -> rolling_contains r k = bool_decide (k ∈ members r).
Proof.
  intros [[_ _ _ ? _ _ _] He _]. unfold rolling_contains. symmetry.
  destruct (k <? max_exclusive r) eqn:E1; [destruct (rb_min r <=? k) eqn:E2|].
  - destruct (contains_assume_in_range r k) eqn:Ek.
    + apply bool_decide_eq_true, elem_of_members. right. split; [lia|done].
    + apply bool_decide_eq_false. rewrite elem_of_members. intros [H|[_ H]]; [|congruence].
      specialize (He k H). lia.
  - apply bool_decide_ext. rewrite elem_of_members. split; [intros [?|?]; [done|lia]|by left].
  - apply bool_decide_eq_false. rewrite elem_of_members. intros [H|[H _]]; [specialize (He k H)|]; lia.
Qed.

(** ** Removing the lowest key *)

Lemma first_set_spec r n key :
  match first_set r n key with
  | Some k => key <= k < key + Z.of_nat n /\ contains_assume_in_range r k = true /\
              forall j, key <= j < k -> contains_assume_in_range r j = false
  | None => forall j, key <= j < key + Z.of_nat n -> contains_assume_in_range r j = false
  end.
Proof.
  revert key. induction n as [|n IH]; intros key; cbn [first_set]; [lia|].
  destruct (contains_assume_in_range r key) eqn:E; [repeat split; [lia..|done|lia]|].
  specialize (IH (key + 1)). destruct (first_set r n (key + 1)) as [k|].
  - destruct IH as (H1 & H2 & H3). repeat split; [lia..|done|]. intros j Hj.
    destruct (decide (j = key)) as [->|]; [done|]. apply H3. lia.
  - intros j Hj. destruct (decide (j = key)) as [->|]; [done|]. apply IH. lia.
Qed.

(** The window may start later when nothing is skipped. *)
Lemma set_min_ring r m :
  ring_ok r -> rb_min r <= m <= max_exclusive r ->
  (forall j, rb_min r <= j < m -> contains_assume_in_range r j = false) ->
  ring_ok (set_min m r) /\ held (set_min m r) = held r.
Proof.
  intros Hr Hm Hs. assert (held (set_min m r) = held r) as Eh.
  { apply leibniz_equiv. intros k. rewrite !elem_of_held. cbn. change (contains_assume_in_range (set_min m r) k) with (contains_assume_in_range r k).
    split; intros [? Hk]; (split; [|done]); [lia|]. destruct (decide (k < m)); [|lia].
    rewrite Hs in Hk by lia. done. }
  split; [|done]. destruct Hr as [? ? ? ? ? Hin Hc]. constructor; cbn; try done; [lia..| |by rewrite Eh].
  intros a Ha. destruct (Hin a Ha) as (k & Hk & Ek). exists k. split; [|done].
  destruct (decide (k < m)); [|lia]. specialize (Hs k ltac:(lia)).
  unfold contains_assume_in_range, get_address in *. cbn in Ha. rewrite Ek in Hs. congruence.
Qed.

Lemma purge_min r :
  ring_ok r -> rb_min r < max_exclusive r -> contains_assume_in_range r (rb_min r) = false ->
  (forall k, k ∈ rb_excess r -> 0 <= k <= rb_min r) ->
  exists m, rolling_purge (rb_min r) r = set_min m r /\ rolling_ok (set_min m r) /\ held (set_min m r) = held r.
Proof.
  intros Hr Hlt Hb He. unfold rolling_purge. rewrite all_in_excess_spec, Z.eqb_refl by done.
  assert (wrapping_add (rb_min r) 1 = rb_min r + 1) as ->.
  { destruct Hr. unfold wrapping_add, cast_u. apply Z.mod_small. lia. }
  case_bool_decide as E.
  - rewrite andb_false_r. exists (max_exclusive r). split; [done|].
    destruct (set_min_ring r (max_exclusive r) Hr) as [H1 H2]; [lia|intros; by apply empty_bits|].
    split; [|done]. constructor; cbn; [done| |lia]. intros k Hk. specialize (He k Hk). lia.
  - assert (0 <? rb_count r = true) as ->.
    { destruct (set_choose_L (held r) E) as [k Hk]. pose proof (held_nonempty r k Hk).
      destruct Hr. apply Z.ltb_lt. lia. }
    cbn [andb negb]. pose proof (first_set_spec r (Z.to_nat (max_exclusive r - (rb_min r + 1))) (rb_min r + 1)) as Hf.
    destruct (first_set _ _ _) as [m|].
    + destruct Hf as (H1 & H2 & H3). exists m. split; [done|].
      destruct (set_min_ring r m Hr) as [H4 H5]; [lia| |].
      { intros j Hj. destruct (decide (j = rb_min r)) as [->|]; [done|]. apply H3. lia. }
      split; [|done]. constructor; cbn; [done| |by intros _].
      intros k Hk. specialize (He k Hk). lia.
    + exfalso. destruct (set_choose_L (held r) E) as [k [Hk1 Hk2]%elem_of_held].
      destruct (decide (k = rb_min r)) as [->|]; [congruence|]. rewrite Hf in Hk2 by lia. done.
Qed.

(** A bit is cleared, whatever becomes of the excess. *)
Lemma clear_ring r k e n :
  ring_ok r -> k ∈ held r -> n = Z.of_nat (size e) + Z.of_nat (size (held r)) - 1 ->
  let r' := set_bit k false (set_count n (set_excess e r)) in
  ring_ok r' /\ held r' = held r ∖ {[k]}.
Proof.
  intros Hr Hk En r'. pose proof (held_nonempty r k Hk) as Hpos.
  assert (forall j, Z.abs (j - k) < max_width r ->
    contains_assume_in_range r' j = if bool_decide (j = k) then false else contains_assume_in_range r j) as Hw.
  { intros j Hj. by apply (bit_set_window r k false j). }
  assert (held r' = held r ∖ {[k]}) as Eh.
  { apply leibniz_equiv. intros j. rewrite elem_of_difference, elem_of_singleton, !elem_of_held.
    apply elem_of_held in Hk. cbn. destruct Hr. destruct (decide (rb_min r <= j < max_exclusive r)) as [Hj|Hj]; [|naive_solver].
    rewrite Hw by lia. case_bool_decide; naive_solver. }
  split; [|done]. pose proof Hr as [? ? ? ? ? Hin _]. constructor; cbn; try done.
  - by rewrite length_insert.
  - intros a Ha. pose proof (bit_set r k false a Hr) as Hs. change (contains_assume_in_range (set_bit k false r) a) with (contains_assume_in_range r' a) in Hs.
    rewrite Hs in Ha. case_bool_decide; [done|]. by apply Hin.
  - rewrite Eh, size_difference by set_solver. rewrite size_singleton. lia.
Qed.

(** The lowest key moves to the excess. *)
Lemma move_min r :
  rolling_ok r -> held r <> ∅ ->
  let r' := rolling_purge (rb_min r) (set_bit (rb_min r) false (set_excess ({[rb_min r]} ∪ rb_excess r) r)) in
  rb_min r ∉ rb_excess r /\ rolling_ok r' /\ members r' = members r /\ held r' = held r ∖ {[rb_min r]} /\
  rb_min r ∈ held r /\ max_exclusive r' = max_exclusive r /\ max_width r' = max_width r.
Proof.
  intros Hr Hne r'. pose proof Hr as [Hring He Hl].
  assert (rb_min r < max_exclusive r) as Hlt.
  { destruct Hring. rewrite rolling_empty_window in Hne by done. lia. }
  assert (rb_min r ∉ rb_excess r) as Hn by (intros H; specialize (He _ H); lia).
  assert (rb_min r ∈ held r) as Hm by (apply elem_of_held; split; [lia|auto]).
  destruct (clear_ring r (rb_min r) ({[rb_min r]} ∪ rb_excess r) (rb_count r) Hring Hm) as [H1 H2].
  { rewrite size_union, size_singleton by set_solver. destruct Hring. lia. }
  set (r1 := set_bit (rb_min r) false (set_count (rb_count r) (set_excess ({[rb_min r]} ∪ rb_excess r) r))) in *.
  destruct (purge_min r1) as (m & E & H3 & H4); [done..| | |].
  { change (rb_min r1) with (rb_min r). assert (rb_min r ∉ held r1) as H by (rewrite H2; set_solver).
    rewrite elem_of_held in H. change (rb_min r1) with (rb_min r) in H. change (max_exclusive r1) with (max_exclusive r) in H.
    destruct (contains_assume_in_range r1 (rb_min r)); [exfalso; apply H; split; [lia|done]|done]. }
  { intros k Hk. change (rb_excess r1) with ({[rb_min r]} ∪ rb_excess r) in Hk. change (rb_min r1) with (rb_min r).
    apply elem_of_union in Hk as [->%elem_of_singleton|Hk]; [destruct Hring; lia|]. specialize (He k Hk). lia. }
  change (rolling_purge (rb_min r1) r1) with r' in E. rewrite E.
  split_and!; [done|done| |by rewrite H4|done|done|done].
  unfold members. rewrite H4, H2. change (rb_excess (set_min m r1)) with ({[rb_min r]} ∪ rb_excess r).
  apply leibniz_equiv. intros k. destruct (decide (k = rb_min r)) as [->|]; set_solver.
Qed.

(** Room is made for a key above the window, always within as many rounds as there are keys. *)
Lemma make_room_spec fuel key r :
  rolling_ok r -> held r <> ∅ -> max_exclusive r <= key -> (size (held r) < fuel)%nat ->
  exists r' empty, make_room fuel (key + 1) r = Some (r', empty) /\ rolling_ok r' /\ members r' = members r /\
    max_exclusive r' = max_exclusive r /\ max_width r' = max_width r /\
    if empty : bool then held r' = ∅ else held r' <> ∅ /\ key + 1 - rb_min r' <= max_width r'.
Proof.
  revert r. induction fuel as [|fuel IH]; intros r Hr Hne Hk Hf; [lia|]. cbn [make_room].
  assert (saturating_sub (key + 1) (rb_min r) = key + 1 - rb_min r) as ->.
  { destruct Hr as [[]]. unfold saturating_sub. lia. }
  destruct (Z.leb_spec (key + 1 - rb_min r) (max_width r)) as [Hle|_]; [by exists r, false|].
  destruct (move_min r Hr Hne) as (H1 & H2 & H3 & H4 & H5 & H6 & H7). rewrite bool_decide_eq_false_2 by done.
  set (r' := rolling_purge _ _) in *. rewrite all_in_excess_spec by apply H2. case_bool_decide as E; [by exists r', true|].
  destruct (IH r' H2 E) as (r2 & empty & H8 & H9 & H10 & H11 & H12 & H13); [lia| |].
  { rewrite H4, size_difference, size_singleton by set_solver. pose proof (held_nonempty _ _ H5). lia. }
  exists r2, empty. split_and!; [done..|congruence|congruence|congruence|done].
Qed.

(** A key is set, in an empty window or in the one there is. *)
Lemma update_bits_empty key r :
  rolling_ok r -> 0 <= key -> key + 1 + max_width r <= u64_MAX ->
  held r = ∅ -> (forall k, k ∈ rb_excess r -> k < key) ->
  exists r', update_bits key true r = Some r' /\ rolling_ok r' /\ members r' = {[key]} ∪ members r /\
    max_width r' = max_width r /\ key ∈ held r'.
Proof.
  intros Hr H0 Hmax Hc Hbelow. unfold update_bits. pose proof Hr as [Hring He Hl].
  assert (wrapping_add key 1 = key + 1) as ->.
  { destruct Hring. unfold wrapping_add, cast_u. apply Z.mod_small. lia. }
  rewrite empty_bits by done. pose proof (fun j => bit_set r key true j Hring) as Hs.
  eexists. split; [reflexivity|]. cbn.
  set (r' := set_count _ _).
  assert (forall j, contains_assume_in_range r' j = bool_decide (j mod max_width r = key mod max_width r)) as Hb.
  { intros j. change (contains_assume_in_range r' j) with (contains_assume_in_range (set_bit key true r) j).
    rewrite Hs, empty_bits by done. by case_bool_decide. }
  assert (held r' = {[key]}) as Eh.
  { apply leibniz_equiv. intros j. rewrite elem_of_held, Hb, elem_of_singleton. cbn. rewrite bool_decide_eq_true.
    split; [lia|]. intros ->. split; [lia|done]. }
  split_and!; [|unfold members; rewrite Eh, Hc; set_solver|done|rewrite Eh; set_solver].
  pose proof Hring as [? ? ? ? ? Hin Hcnt]. constructor; [constructor|..]; cbn; try done; try lia.
  - by rewrite length_insert.
  - intros a Ha. rewrite Hb in Ha. apply bool_decide_eq_true in Ha. exists key. split; [lia|done].
  - rewrite Eh, Hcnt, Hc, size_singleton, size_empty. lia.
  - intros k Hk. specialize (He k Hk). specialize (Hbelow k Hk). lia.
  - intros _. rewrite Hb. by apply bool_decide_eq_true.
Qed.

Lemma update_bits_window key r :
  rolling_ok r -> 0 <= key -> key + 1 + max_width r <= u64_MAX ->
  held r <> ∅ -> rb_min r <= key < rb_min r + max_width r ->
  exists r', update_bits key false r = Some r' /\ rolling_ok r' /\ members r' = {[key]} ∪ members r /\
    max_width r' = max_width r /\ key ∈ held r'.
Proof.
  intros Hr H0 Hmax Hc Hkey. unfold update_bits. pose proof Hr as [Hring He Hl].
  assert (wrapping_add key 1 = key + 1) as ->.
  { destruct Hring. unfold wrapping_add, cast_u. apply Z.mod_small. lia. }
  destruct (contains_assume_in_range r key) eqn:Ek.
  { exists r. enough (key ∈ held r) by (split_and!; [done..| |done|done]; unfold members; set_solver).
    apply elem_of_held. split; [|done]. destruct (ring_in r Hring key Ek) as (k & Hk & Em). destruct Hring.
    apply address_inj in Em; [lia..]. }
  pose proof (fun j => bit_set r key true j Hring) as Hs. cbn.
  assert (rb_min r < max_exclusive r) as Hlt.
  { destruct Hring. rewrite rolling_empty_window in Hc by done. lia. }
  assert (Z.max (max_exclusive r) (key + 1) <=? wrapping_add (Z.min (rb_min r) key) (max_width r) = true) as ->.
  { destruct Hring. unfold wrapping_add, cast_u. rewrite Z.mod_small by lia. lia. }
  eexists. split; [reflexivity|]. set (r' := set_count _ _).
  assert (forall j, Z.abs (j - key) < max_width r ->
    contains_assume_in_range r' j = if bool_decide (j = key) then true else contains_assume_in_range r j) as Hb.
  { intros j Hj. by apply (bit_set_window r key true j). }
  assert (rb_min r' = rb_min r) as Emin by (cbn; lia).
  assert (max_exclusive r' = Z.max (max_exclusive r) (key + 1)) as Emax by done.
  assert (held r' = {[key]} ∪ held r) as Eh.
  { apply leibniz_equiv. intros j. rewrite elem_of_union, elem_of_singleton, !elem_of_held, Emin, Emax.
    destruct Hring. destruct (decide (rb_min r <= j < Z.max (max_exclusive r) (key + 1))) as [Hj|Hj]; [|lia].
    rewrite Hb by lia. case_bool_decide as Ej; [naive_solver lia|].
    split; [|naive_solver]. intros [_ Hbit]. right. split; [|done].
    destruct (ring_in0 j Hbit) as (k & Hk & Em). apply address_inj in Em; lia. }
  assert (key ∉ held r) as Hnew by (rewrite elem_of_held; intros [_ ?]; congruence).
  split_and!; [|unfold members; rewrite Eh; set_solver|done|rewrite Eh; set_solver].
  pose proof Hring as [? ? ? ? ? Hin Hcnt]. constructor; [constructor|..]; rewrite ?Emin, ?Emax; cbn; try done; try lia.
  - by rewrite length_insert.
  - intros a Ha. change (contains_assume_in_range r' a) with (contains_assume_in_range (set_bit key true r) a) in Ha.
    rewrite Hs in Ha. case_bool_decide as Ea; [exists key; split; [lia|done]|].
    destruct (Hin a Ha) as (k & ? & ?). exists k. split; [lia|done].
  - rewrite Eh, size_union, size_singleton, Hcnt by set_solver. lia.
  - intros _. rewrite Hb by lia. case_bool_decide; [done|]. by apply Hl.
Qed.

(** ** The operations as set operations *)

(** A key that may be inserted: it does not overflow, and in an empty window it is above the
    excess. *)
Definition insertable (r : RollingBitField) (key : Z) : Prop :=
  0 <= key /\ key + 1 + max_width r <= u64_MAX /\ (held r = ∅ -> forall k, k ∈ rb_excess r -> k < key).

Lemma new_spec width :
  0 < width <= 2 ^ 63 -> 2 ^ Z.log2 width = width ->
  exists r, rolling_new width = Some r /\ rolling_ok r /\ members r = ∅ /\ max_width r = width.
Proof.
  intros Hw Hp. unfold rolling_new. rewrite Hp, Z.eqb_refl. rewrite (proj2 (Z.ltb_lt 0 width)) by lia. cbn [andb].
  eexists. split; [done|]. set (r := mkRolling _ _ _ _ _ _).
  assert (forall a, contains_assume_in_range r a = false) as Hb.
  { intros a. unfold contains_assume_in_range. cbn. destruct (replicate _ _ !! _) eqn:E; [|done].
    apply lookup_replicate in E as [-> _]. done. }
  assert (held r = ∅) as Eh by (apply leibniz_equiv, equiv_empty; intros k [Hk _]%elem_of_held; cbn in Hk; lia).
  split_and!; [|unfold members; rewrite Eh; by cbn|done].
  constructor; [constructor|..]; cbn; try done; try lia.
  - by rewrite length_replicate.
  - intros a Ha. rewrite Hb in Ha. done.
Qed.

Lemma insert_spec key r :
  rolling_ok r -> insertable r key ->
  exists r', rolling_insert key r = Some r' /\ rolling_ok r' /\ members r' = {[key]} ∪ members r /\
    max_width r' = max_width r /\ held r' <> ∅.
Proof.
  intros Hr (H0 & Hmax & Hbelow). pose proof Hr as [Hring He Hl].
  unfold rolling_insert. rewrite all_in_excess_spec by done.
  assert ((rb_count r =? 0) || bool_decide (held r = ∅) = bool_decide (held r = ∅)) as ->.
  { case_bool_decide as E; [apply orb_true_r|]. rewrite orb_false_r. destruct (set_choose_L _ E) as [k Hk].
    pose proof (held_nonempty r k Hk). destruct Hring. lia. }
  case_bool_decide as E.
  { destruct (update_bits_empty key r) as (r' & H1 & H2 & H3 & H4 & H5); [naive_solver..|].
    exists r'. split_and!; [done..|]. set_solver. }
  destruct (Z.ltb_spec key (rb_min r)) as [Hlt|Hge]; [|destruct (Z.ltb_spec key (max_exclusive r)) as [Hlt|Hmx]].
  - case_bool_decide as Ek.
    { exists r. split_and!; [done..| |done|done]. unfold members. set_solver. }
    eexists. split; [done|]. set (r' := set_count _ _). change (held r') with (held r).
    split_and!; [|unfold members; cbn; set_solver|done|done].
    destruct Hring as [? ? ? ? ? Hin Hcnt]. constructor; [constructor|..]; try done.
    + cbn. change (held r') with (held r). rewrite size_union, size_singleton by set_solver. lia.
    + cbn. intros k [->%elem_of_singleton|Hk]%elem_of_union; [lia|by apply He].
  - destruct (update_bits_window key r) as (r' & H1 & H2 & H3 & H4 & H5); [naive_solver..|destruct Hring; lia|].
    exists r'. split_and!; [done..|]. set_solver.
  - assert (wrapping_add key 1 = key + 1) as ->.
    { destruct Hring. unfold wrapping_add, cast_u. apply Z.mod_small. lia. }
    destruct (make_room_spec (S (Z.to_nat (rb_count r))) key r) as (r1 & empty & E1 & Hr1 & Em & Ex & Ew & Hcase); [done..|destruct Hring; lia|].
    rewrite E1. pose proof Hr1 as [Hring1 He1 Hl1].
    assert (exists r', update_bits key empty r1 = Some r' /\ rolling_ok r' /\ members r' = {[key]} ∪ members r1 /\
      max_width r' = max_width r1 /\ key ∈ held r') as (r' & H1 & H2 & H3 & H4 & H5).
    { destruct empty.
      - apply update_bits_empty; [done..|lia|done|]. intros k Hk. specialize (He1 k Hk). destruct Hring1. lia.
      - destruct Hcase. apply update_bits_window; [done..|lia|done|]. destruct Hring1. lia. }
    exists r'. split_and!; [done..|congruence|congruence|]. set_solver.
Qed.

Lemma remove_held key r :
  rolling_ok r -> key ∈ held r ->
  let r' := rolling_purge key (set_bit key false (set_count (rb_count r - 1) r)) in
  rolling_ok r' /\ members r' = members r ∖ {[key]} /\ max_width r' = max_width r.
Proof.
  intros Hr Hk. pose proof Hr as [Hring He Hl]. pose proof Hk as [Hin _]%elem_of_held.
  destruct (clear_ring r key (rb_excess r) (rb_count r - 1) Hring Hk) as [H1 H2]; [destruct Hring; lia|].
  set (r1 := set_bit key false (set_count _ _)) in *. change (set_bit _ _ _) with r1.
  assert (key ∉ rb_excess r) as Hex by (intros H; specialize (He _ H); lia).
  destruct (decide (key = rb_min r)) as [->|Hne]; cbn zeta.
  - destruct (purge_min r1) as (m & E & H3 & H4); [done|cbn; lia| | |].
    { assert (rb_min r ∉ held r1) as H by (rewrite H2; set_solver). rewrite elem_of_held in H.
      change (rb_min r1) with (rb_min r) in *. change (max_exclusive r1) with (max_exclusive r) in H.
      destruct (contains_assume_in_range r1 (rb_min r)); [exfalso; apply H; split; [lia|done]|done]. }
    { intros k Hk'. specialize (He k Hk'). change (rb_min r1) with (rb_min r). lia. }
    change (rb_min r1) with (rb_min r) in E. rewrite E. split_and!; [done| |done].
    unfold members. rewrite H4, H2. change (rb_excess (set_min m r1)) with (rb_excess r). set_solver.
  - assert (rb_min r ∈ held r1) as Hmin.
    { rewrite H2. apply elem_of_difference. split; [|set_solver]. apply elem_of_held. split; [lia|]. apply Hl. lia. }
    assert (rolling_purge key r1 = r1) as ->.
    { unfold rolling_purge. rewrite all_in_excess_spec, bool_decide_eq_false_2 by (done || set_solver).
      pose proof (held_nonempty _ _ Hmin). pose proof (ring_count r1 H1). rewrite (proj2 (Z.ltb_lt 0 (rb_count r1))) by lia.
      cbn [andb negb]. change (rb_min r1) with (rb_min r). rewrite (proj2 (Z.eqb_neq key (rb_min r))) by done. done. }
    split_and!; [|unfold members; rewrite H2|done].
    + constructor; [done|done|]. intros _. change (rb_min r1) with (rb_min r). apply elem_of_held in Hmin. apply Hmin.
    + change (rb_excess r1) with (rb_excess r). set_solver.
Qed.

Lemma remove_spec key r :
  rolling_ok r ->
  rolling_ok (rolling_remove key r).1 /\ members (rolling_remove key r).1 = members r ∖ {[key]} /\
  (rolling_remove key r).2 = bool_decide (key ∈ members r) /\ max_width (rolling_remove key r).1 = max_width r.
Proof.
  intros Hr. pose proof Hr as [Hring He Hl]. pose proof (elem_of_members r key) as Hm.
  assert (key ∉ members r -> rolling_ok r /\ members r = members r ∖ {[key]} /\
    false = bool_decide (key ∈ members r) /\ max_width r = max_width r) as Hnone.
  { intros Hn. rewrite bool_decide_eq_false_2 by done. split_and!; [done|set_solver|done|done]. }
  unfold rolling_remove.
  destruct (Z.leb_spec (rb_min r) key) as [Hle|Hlt]; [destruct (Z.ltb_spec key (max_exclusive r)) as [Hlt|Hge]|].
  - destruct (contains_assume_in_range r key) eqn:Ek; cbn [fst snd].
    + destruct (remove_held key r Hr) as (H1 & H2 & H3); [by apply elem_of_held|].
      rewrite bool_decide_eq_true_2 by (apply Hm; right; split; [lia|done]). by split_and!.
    + apply Hnone. intros [H|[_ H]]%Hm; [specialize (He _ H); lia|done].
  - apply Hnone. intros [H|[H _]]%Hm; [specialize (He _ H); destruct Hring; lia|lia].
  - destruct (decide (key ∈ rb_excess r)) as [Ek|Ek];
      [rewrite (bool_decide_eq_true_2 (key ∈ rb_excess r)) by done
      |rewrite (bool_decide_eq_false_2 (key ∈ rb_excess r)) by done; apply Hnone; intros [H|[H _]]%Hm; [done|lia]].
    rewrite bool_decide_eq_true_2 by (apply Hm; by left). cbn [fst snd]. set (r' := set_count _ _).
    assert (key ∉ held r) as Hh by (rewrite elem_of_held; lia).
    split_and!; [|unfold members; change (held r') with (held r); cbn; set_solver|done|done].
    pose proof Hring as [? ? ? ? ? Hin Hcnt]. constructor; [constructor|..]; try done.
    + cbn. change (held r') with (held r). rewrite size_difference, size_singleton by set_solver.
      assert (size {[key]} <= size (rb_excess r))%nat as Hs by (apply subseteq_size; set_solver). rewrite size_singleton in Hs. lia.
    + cbn. intros k [Hk _]%elem_of_difference. by apply He.
Qed.

(** What may be inserted, told from the set: right after an insertion the window is not empty. *)
Lemma insertable_above r key :
  0 <= key -> key + 1 + max_width r <= u64_MAX -> held r <> ∅ \/ (forall k, k ∈ members r -> k < key) -> insertable r key.
Proof. intros ? ? [?|H]; (split_and!; [done..|]); [done|]. intros _ k Hk. apply H. unfold members. set_solver. Qed.

(** ** Enumerating *)

(** The iteration of a hash set lists its elements. *)
Definition SetIteration (iter : gset Z -> list Z) : Prop := forall s, iter s ≡ₚ elements s.

Section iteration.
Context (iter : gset Z -> list Z) (Hiter : SetIteration iter).

Lemma keys_filter_held r :
  filter (fun key => contains_assume_in_range r key = true) (keys_in_range r) ≡ₚ elements (held r).
Proof.
  unfold held, keys_in_range. apply NoDup_Permutation; [apply NoDup_filter, NoDup_seqZ|apply NoDup_elements|].
  intros k. by rewrite elem_of_elements, elem_of_filter, list_elem_of_filter, elem_of_list_to_set.
Qed.

Lemma get_all_spec r : rolling_ok r -> get_all iter r ≡ₚ elements (members r).
Proof.
  intros [_ He _]. unfold get_all, members. rewrite keys_filter_held, (Hiter (rb_excess r) : iter _ ≡ₚ _), elements_disj_union; [done|].
  intros k H1 H2%elem_of_held. specialize (He k H1). lia.
Qed.

Lemma take_below_spec limit lo n :
  take_below limit (seqZ lo n) = filter (fun key => key < limit) (seqZ lo n).
Proof.
  destruct (decide (0 <= n)) as [Hn|Hn]; [|rewrite seqZ_nil by lia; done].
  revert lo. pattern n. apply natlike_ind; [|clear n Hn|done]; [intros lo; rewrite seqZ_nil by lia; done|].
  intros n Hn IH lo. rewrite seqZ_cons by lia. cbn [take_below]. replace (Z.pred (Z.succ n)) with n by lia.
  rewrite filter_cons. destruct (Z.leb_spec limit lo).
  - rewrite decide_False by lia. destruct (filter _ _) as [|k l] eqn:E; [done|].
    assert (k ∈ filter (fun key => key < limit) (seqZ (Z.succ lo) n)) as [? ?%elem_of_seqZ]%list_elem_of_filter by (rewrite E; left). lia.
  - rewrite decide_True by lia. by rewrite IH.
Qed.

Lemma get_all_less_than_spec limit r :
  rolling_ok r -> get_all_less_than iter limit r ≡ₚ elements (filter (fun k => k < limit) (members r)).
Proof.
  intros Hr. unfold get_all_less_than, keys_in_range. rewrite take_below_spec. apply NoDup_Permutation; [|apply NoDup_elements|].
  - apply NoDup_app. split_and!; [apply NoDup_filter; rewrite (Hiter _ : iter _ ≡ₚ _); apply NoDup_elements| |do 2 apply NoDup_filter; apply NoDup_seqZ].
    intros k [_ Hk]%list_elem_of_filter H2. apply list_elem_of_filter in H2 as [_ [_ H2%elem_of_seqZ]%list_elem_of_filter].
    rewrite (Hiter _ : iter _ ≡ₚ _), elem_of_elements in Hk. apply (rolling_excess r Hr) in Hk. lia.
  - intros k. rewrite elem_of_app, !list_elem_of_filter, elem_of_seqZ, elem_of_elements, elem_of_filter, elem_of_members.
    rewrite (Hiter _ : iter _ ≡ₚ _), elem_of_elements.
    replace (rb_min r + (max_exclusive r - rb_min r)) with (max_exclusive r) by lia. naive_solver.
Qed.

Lemma min_of_spec x l : exists m, min_of (x :: l) = Some m /\ m ∈ x :: l /\ forall y, y ∈ x :: l -> m <= y.
Proof.
  cbn [min_of]. eexists. split; [done|]. induction l as [|z l (IH1 & IH2)]; cbn [foldr].
  - split; [left|]. intros y Hy%list_elem_of_singleton. lia.
  - split.
    + destruct (Z.min_spec z (foldr Z.min x l)) as [[_ ->]|[_ ->]]; [right; left|].
      apply elem_of_cons in IH1 as [->|]; [left|do 2 right; done].
    + intros y [->|[->|Hy]%elem_of_cons]%elem_of_cons; [|lia|]; [specialize (IH2 x ltac:(left))|specialize (IH2 y ltac:(by right))]; lia.
Qed.

(** The least slot. *)
Lemma rolling_min_spec r :
  rolling_ok r ->
  match rolling_min iter r with
  | Some m => m ∈ members r /\ forall k, k ∈ members r -> m <= k
  | None => members r = ∅
  end.
Proof.
  intros Hr. pose proof Hr as [Hring He Hl]. unfold rolling_min, rolling_is_empty, rolling_len. rewrite members_size by done.
  destruct (Z.eqb_spec (Z.of_nat (size (members r))) 0) as [E|E]; [apply leibniz_equiv, size_empty_inv; lia|].
  assert (held r <> ∅ -> rb_min r ∈ held r) as Hmin.
  { intros H. rewrite rolling_empty_window in H by done. apply elem_of_held. destruct Hring. split; [lia|]. apply Hl. lia. }
  case_bool_decide as Ex.
  - assert (members r = held r) as -> by (unfold members; rewrite Ex; set_solver).
    split; [|intros k Hk%elem_of_held; lia]. apply Hmin. intros Eh. apply E. unfold members. by rewrite Ex, Eh.
  - destruct (iter (rb_excess r)) as [|x l] eqn:El.
    { exfalso. apply Ex. apply leibniz_equiv, elements_empty_iff, Permutation_nil. rewrite <-El. apply (Hiter (rb_excess r)). }
    destruct (min_of_spec x l) as (m & -> & H1 & H2).
    assert (forall y, y ∈ x :: l <-> y ∈ rb_excess r) as Hel.
    { intros y. rewrite <-El, <-elem_of_elements. by rewrite (Hiter _ : iter _ ≡ₚ _). }
    apply Hel in H1. specialize (He m H1) as Hm. rewrite all_in_excess_spec by done. change (default u64_MAX (Some m)) with m. case_bool_decide as Eh.
    + unfold members. rewrite Eh. split; [set_solver|]. intros k Hk. apply H2, Hel. set_solver.
    + rewrite Z.min_r by lia. split; [unfold members; set_solver|]. intros k [Hk|[Hk _]]%elem_of_members; [apply H2, Hel, Hk|lia].
Qed.

(** [get_prior] finds the highest slot below the limit when that slot is not 0. *)
Lemma prior_loop_spec r low slot fuel :
  rolling_ok r -> 0 <= slot -> (Z.to_nat slot < fuel)%nat ->
  (forall k, k ∈ members r -> low <= k) ->
  exists res, prior_loop fuel r low slot = Some res /\
    match res with
    | Some k => k ∈ members r /\ k <= slot /\ forall j, j ∈ members r -> j <= slot -> j <= k
    | None => forall j, j ∈ members r -> j <= slot -> j = 0
    end.
Proof.
  intros Hr H0 Hf Hlow. revert slot H0 Hf. induction fuel as [|fuel IH]; intros slot H0 Hf; [lia|]. cbn [prior_loop].
  assert (forall j, j ∈ members r -> 0 <= j) as Hpos.
  { intros j [Hj|[Hj _]]%elem_of_members; [apply (rolling_excess r Hr) in Hj; lia|]. pose proof (ring_min r (rolling_ring r Hr)). lia. }
  rewrite contains_spec by done. case_bool_decide as E; [by exists (Some slot)|].
  destruct (orb (saturating_sub slot 1 =? 0) (saturating_sub slot 1 <? low)) eqn:Eb.
  - exists None. split; [done|]. intros j Hj Hle. specialize (Hlow j Hj). specialize (Hpos j Hj).
    assert (j <> slot) by congruence. unfold saturating_sub in Eb. lia.
  - destruct (IH (saturating_sub slot 1)) as (res & E1 & E2); [unfold saturating_sub in *; lia..|]. exists res. split; [done|].
    assert (forall j, j ∈ members r -> j <= slot -> j <= saturating_sub slot 1) as Hdown.
    { intros j Hj Hle. assert (j <> slot) by congruence. unfold saturating_sub. lia. }
    destruct res as [k|]; [|naive_solver]. destruct E2 as (? & ? & ?). split_and!; [done|unfold saturating_sub in *; lia|auto].
Qed.


Lemma get_prior_spec r limit :
  rolling_ok r -> 0 < limit ->
  exists prior, get_prior iter limit r = Some prior /\
    match prior with
    | Some k => k ∈ members r /\ k < limit /\ forall j, j ∈ members r -> j < limit -> j <= k
    | None => forall j, j ∈ members r -> j < limit -> j = 0
    end.
Proof.
  intros Hr Hl. unfold get_prior. pose proof (rolling_min_spec r Hr) as Hm.
  destruct (rolling_min iter r) as [m|]; [|exists None; split; [done|]; rewrite Hm; set_solver].
  assert (saturating_sub limit 1 = limit - 1) as -> by (unfold saturating_sub; lia).
  destruct (prior_loop_spec r m (limit - 1) (S (Z.to_nat (limit - 1)))) as (res & E & Hres); [done|lia|lia|apply Hm|].
  exists res. split; [done|]. destruct res as [k|]; [destruct Hres as (H1 & H2 & H3); split_and!; [done|lia|]|];
    intros j Hj Hlt; [apply H3|apply Hres]; (done || lia).
Qed.
End iteration.

(** ** The iterator *)

(** The calls of [next] until the iterator is exhausted. *)
Fixpoint drain (fuel : nat) (r : RollingBitField) (it : OnesIter) : list Z :=
  match fuel with
  | O => []
  | S fuel => match ones_next r it with
              | (Some k, it) => k :: drain fuel r it
              | (None, _) => []
              end
  end.

Lemma next_bit_spec r n lo hi :
  n = Z.to_nat (hi - lo) ->
  filter (fun key => contains_assume_in_range r key = true) (seqZ lo (hi - lo)) =
    match next_bit r n (mkRange lo hi) with
    | (Some k, range) =>
        k :: filter (fun key => contains_assume_in_range r key = true) (seqZ (r_start range) (r_end range - r_start range))
    | (None, _) => []
    end /\
  (forall k range, next_bit r n (mkRange lo hi) = (Some k, range) -> lo < r_start range <= hi /\ r_end range = hi).
Proof.
  revert lo. induction n as [|n IH]; intros lo Hn; cbn [next_bit].
  { rewrite seqZ_nil by lia. by split. }
  rewrite seqZ_cons by lia. cbn [r_start r_end].
  replace (Z.succ lo) with (lo + 1) by lia. replace (Z.pred (hi - lo)) with (hi - (lo + 1)) by lia.
  rewrite filter_cons. destruct (contains_assume_in_range r lo) eqn:E.
  - rewrite decide_True by done. split; [done|]. intros k range [= <- <-]. cbn. lia.
  - rewrite decide_False by congruence. destruct (IH (lo + 1) ltac:(lia)) as [-> H2]. split; [done|].
    intros k range H. specialize (H2 k range H). lia.
Qed.

Lemma drain_bits fuel r lo hi :
  (Z.to_nat (hi - lo) < fuel)%nat ->
  drain fuel r (mkOnesIter [] (mkRange lo hi)) =
    filter (fun key => contains_assume_in_range r key = true) (seqZ lo (hi - lo)).
Proof.
  revert lo. induction fuel as [|fuel IH]; intros lo Hf; [lia|]. cbn [drain ones_next excess_iter bit_range r_start r_end].
  destruct (next_bit_spec r _ lo hi eq_refl) as [-> H2].
  destruct (next_bit r _ (mkRange lo hi)) as [[k|] [lo' hi']]; [|done]. cbn [r_start r_end] in *.
  destruct (H2 k _ eq_refl) as [H3 E]. cbn [r_start r_end] in H3, E. subst hi'. by rewrite IH by lia.
Qed.

Lemma drain_get_all iter r fuel :
  rb_min r <= max_exclusive r ->
  (length (iter (rb_excess r)) + Z.to_nat (max_exclusive r - rb_min r) < fuel)%nat ->
  drain fuel r (iter_ones iter r) = get_all iter r.
Proof.
  intros Hle. unfold iter_ones, get_all, keys_in_range. generalize (iter (rb_excess r)) as l. intros l. revert fuel.
  induction l as [|x l IH]; intros fuel Hf; [by apply drain_bits|].
  destruct fuel as [|fuel]; [cbn in Hf; lia|]. cbn [drain ones_next excess_iter bit_range app]. f_equal. apply IH. cbn in Hf. lia.
Qed.

(** ** [Ancestors] *)

Lemma insert_all_spec slots r :
  rolling_ok r -> (forall k, k ∈ slots -> 0 <= k /\ k + 1 + max_width r <= u64_MAX) ->
  held r <> ∅ \/ members r = ∅ ->
  exists r', insert_all slots r = Some r' /\ rolling_ok r' /\ members r' = list_to_set slots ∪ members r /\
    max_width r' = max_width r.
Proof.
  revert r. induction slots as [|k slots IH]; intros r Hr Hs Hh; cbn [insert_all].
  { exists r. split_and!; [done..| |done]. set_solver. }
  destruct (insert_spec k r Hr) as (r1 & -> & H1 & H2 & H3 & H4).
  { destruct (Hs k); [left|]. apply insertable_above; [done..|]. destruct Hh as [?|E]; [by left|right]. set_solver. }
  destruct (IH r1 H1) as (r' & E & H5 & H6 & H7); [rewrite H3; intros; apply Hs; by right|by left|].
  exists r'. split_and!; [done..| |congruence]. rewrite H6, H2. cbn [list_to_set]. set_solver.
Qed.

(** The slots for which the bit field of the ancestors does not overflow. *)
Definition slot_ok (k : Z) : Prop := 0 <= k /\ k + 1 + ANCESTORS_HASH_MAP_SIZE <= u64_MAX.

Lemma ancestors_from_spec source :
  Forall slot_ok source ->
  exists a, ancestors_from source = Some a /\ rolling_ok a /\ members a = list_to_set source.
Proof.
  intros Hs. unfold ancestors_from, ancestors_default.
  destruct (new_spec ANCESTORS_HASH_MAP_SIZE) as (r & -> & H1 & H2 & H3); [done..|].
  destruct (insert_all_spec (merge_sort Z.le source) r H1) as (a & -> & H4 & H5 & _).
  { intros k Hk. rewrite merge_sort_Permutation in Hk. rewrite Forall_forall in Hs. rewrite H3. by apply Hs. }
  { by right. }
  exists a. split_and!; [done..|]. rewrite H5, H2, merge_sort_Permutation. set_solver.
Qed.

(** ** A set of slots *)

Inductive RollingOp := Insert (key : Z) | Remove (key : Z).

Definition run_op (op : RollingOp) (r : RollingBitField) : option RollingBitField :=
  match op with Insert key => rolling_insert key r | Remove key => Some (rolling_remove key r).1 end.
Definition set_op (op : RollingOp) (s : gset Z) : gset Z :=
  match op with Insert key => {[key]} ∪ s | Remove key => s ∖ {[key]} end.

Fixpoint run_ops (ops : list RollingOp) (r : RollingBitField) : option RollingBitField :=
  match ops with
  | [] => Some r
  | op :: ops => let! field := run_op op r in run_ops ops field
  end.

(** The sliding window that the structure relies on: after a removal, what is inserted next is
    above all that is left. *)
Fixpoint sliding (width : Z) (s : gset Z) (inserted : bool) (ops : list RollingOp) : Prop :=
  match ops with
  | [] => True
  | Insert key :: ops =>
      0 <= key /\ key + 1 + width <= u64_MAX /\ (inserted = true \/ set_Forall (fun k => k < key) s) /\
      sliding width ({[key]} ∪ s) true ops
  | Remove key :: ops => sliding width (s ∖ {[key]}) (inserted && bool_decide (key ∉ s)) ops
  end.

Lemma run_ops_spec ops r inserted :
  rolling_ok r -> (inserted = true -> held r <> ∅) -> sliding (max_width r) (members r) inserted ops ->
  exists r', run_ops ops r = Some r' /\ rolling_ok r' /\ members r' = fold_left (fun s op => set_op op s) ops (members r).
Proof.
  revert r inserted. induction ops as [|[key|key] ops IH]; intros r inserted Hr Hi Hs; cbn [run_ops fold_left set_op run_op].
  - by exists r.
  - destruct Hs as (H0 & Hmax & Hab & Hs).
    destruct (insert_spec key r Hr) as (r1 & -> & H1 & H2 & H3 & H4).
    { apply insertable_above; [done..|]. destruct Hab as [?|Hab]; [left; auto|right]. apply Hab. }
    rewrite <-H2, <-H3 in Hs. destruct (IH r1 true H1 (fun _ => H4) Hs) as (r' & E & H5 & H6).
    exists r'. by rewrite H6, H2.
  - destruct (remove_spec key r Hr) as (H1 & H2 & _ & H3). cbn [sliding] in Hs. rewrite <-H2, <-H3 in Hs.
    edestruct (IH (rolling_remove key r).1) as (r' & E & H5 & H6); [done| |exact Hs|exists r'; by rewrite H6, H2].
    intros [Hin Hk]%andb_true_iff. apply bool_decide_eq_true in Hk. intros Eh.
    (* nothing was removed *)
    unfold rolling_remove in Eh. rewrite elem_of_members in Hk.
    destruct (Z.leb_spec (rb_min r) key); [destruct (Z.ltb_spec key (max_exclusive r))|];
      [destruct (contains_assume_in_range r key) eqn:Ek| |rewrite bool_decide_eq_false_2 in Eh by naive_solver];
      cbn [fst] in Eh; naive_solver lia.
Qed.

(** C31. Whatever slots are inserted and removed, as long as the slot inserted after a removal is
    above those left, no operation panics and the bit field answers as a set does: membership, the
    number of slots, all of them in some order without duplicates, those below a limit, the least
    one, the highest one below a limit unless it is slot 0, and the ones iterator. *)
Theorem rolling_field_is_a_set (iter : gset Z -> list Z) (width : Z) (ops : list RollingOp) :
  SetIteration iter -> 0 < width <= 2 ^ 63 -> 2 ^ Z.log2 width = width -> sliding width ∅ false ops ->
  exists r0 r, rolling_new width = Some r0 /\ run_ops ops r0 = Some r /\
    let s := fold_left (fun s op => set_op op s) ops ∅ in
    (forall key, rolling_contains r key = bool_decide (key ∈ s)) /\
    rolling_len r = Z.of_nat (size s) /\
    get_all iter r ≡ₚ elements s /\
    (forall limit, get_all_less_than iter limit r ≡ₚ elements (filter (fun k => k < limit) s)) /\
    (forall m, rolling_min iter r = Some m <-> m ∈ s /\ forall k, k ∈ s -> m <= k) /\
    (forall limit, 0 < limit -> exists prior, get_prior iter limit r = Some prior /\
       match prior with
       | Some k => k ∈ s /\ k < limit /\ forall j, j ∈ s -> j < limit -> j <= k
       | None => forall j, j ∈ s -> j < limit -> j = 0
       end) /\
    exists fuel, drain fuel r (iter_ones iter r) = get_all iter r.
Proof.
  intros Hi Hw Hp Hs. destruct (new_spec width Hw Hp) as (r0 & -> & H1 & H2 & H3).
  rewrite <-H2, <-H3 in Hs. destruct (run_ops_spec ops r0 false H1 ltac:(done) Hs) as (r & E & Hr & Em).
  rewrite H2 in Em. exists r0, r. split; [done|]. split; [done|]. cbn zeta. rewrite <-Em. split_and!.
  - intros key. by apply contains_spec.
  - by apply members_size.
  - by apply get_all_spec.
  - intros limit. by apply get_all_less_than_spec.
  - intros m. pose proof (rolling_min_spec iter Hi r Hr) as Hm. destruct (rolling_min iter r) as [m'|]; [|set_solver].
    destruct Hm as [Hm1 Hm2]. split; [by intros [= <-]|]. intros [Hm3 Hm4]. f_equal.
    specialize (Hm2 m Hm3). specialize (Hm4 m' Hm1). lia.
  - intros limit Hl. by apply get_prior_spec.
  - eexists. apply drain_get_all; [apply Hr|]. apply Nat.lt_succ_diag_r.
Qed.

Lemma rolling_field_is_a_set_witness :
  exists r0 r, rolling_new 4 = Some r0 /\
    run_ops [Insert 3; Insert 5; Insert 9; Insert 1; Remove 9; Insert 12; Insert 2] r0 = Some r /\
    rolling_contains r 3 = true /\ rolling_contains r 9 = false /\ rolling_len r = 5.
Proof.
  destruct (rolling_field_is_a_set elements 4 [Insert 3; Insert 5; Insert 9; Insert 1; Remove 9; Insert 12; Insert 2])
    as (r0 & r & H1 & H2 & H3 & H4 & _).
  - by intros s.
  - lia.
  - reflexivity.
  - cbn [sliding]. unfold set_Forall. split_and!; try lia; try (by left); right; intros k Hk;
      rewrite ?elem_of_difference, ?elem_of_union, ?elem_of_singleton, ?elem_of_empty in Hk; lia.
  - exists r0, r. split; [exact H1|]. split; [exact H2|]. rewrite !H3, H4. vm_compute. by split_and!.
Defined.


