(* ===== verification/BankForks.v ===== *)
(** The tree of banks (agave/runtime/src/bank_forks.rs, with the parent links and ancestors of
    bank.rs, snapshot_controller.rs and set_bank_forks_root of votor/src/root_utils.rs): banks are
    inserted below a parent, dumped, and pruned when the root moves; the cache of loaded programs
    asks it how two slots are related.

    A bank is shared and its parent link is cut in place, so banks live in a store and are named by
    their index. A failed assertion, [expect] or index is a panic, [None]. The iteration orders of
    the hash sets and maps are parameters. *)

From Stdlib Require Import ZArith Lia Bool.
From stdpp Require Import gmap list.
From S2P Require Import Prelude.
From S2P Require Import SbpfTypes.
From S2P Require Import TxAccounts.
From S2P Require Import ProgramCache.
From S2P Require Import RollingBitField.

#[local] Open Scope Z_scope.

Record Bank := mkBank {
  bank_slot : Z;
  bank_parent : option nat;
  bank_ancestors : RollingBitField;
  bank_block_height : Z;
  bank_epoch : Z;
  check_program_deployment_slot : bool
}.

Abbreviation BankStore := (list Bank).

Definition set_parent (p : option nat) (b : Bank) : Bank :=
  mkBank (bank_slot b) p (bank_ancestors b) (bank_block_height b) (bank_epoch b) (check_program_deployment_slot b).
Definition set_check_program_deployment_slot (check : bool) (b : Bank) : Bank :=
  mkBank (bank_slot b) (bank_parent b) (bank_ancestors b) (bank_block_height b) (bank_epoch b) check.

(** [Bank::parents]: up the links until there is none. A parent is in the store before its
    children, so the length of the store bounds the walk. *)
Fixpoint follow (fuel : nat) (h : BankStore) (link : option nat) : option (list nat) :=
  match link, fuel with
  | None, _ => Some []
  | Some _, O => None
  | Some i, S fuel =>
      let! b := h !! i in
      let! rest := follow fuel h (bank_parent b) in
      Some (i :: rest)
  end.

Definition parents (h : BankStore) (b : Bank) : option (list nat) := follow (length h) h (bank_parent b).

Definition slot_of (h : BankStore) (i : nat) : Z := match h !! i with Some b => bank_slot b | None => 0 end.

(** [Bank::new_from_parent]: the parent link, the block height and the ancestors. *)
Definition new_from_parent (h : BankStore) (parent : nat) (slot epoch : Z) : option Bank :=
  let! p := h !! parent in
  if slot =? bank_slot p then None
  else
    let! block_height := checked_add (bank_block_height p) 1 in
    let! up := follow (length h) h (Some parent) in
    let! ancestors := ancestors_from (slot :: map (slot_of h) up) in
    Some (mkBank slot (Some parent) ancestors block_height epoch false).

(** [Bank::squash], of the parent links. *)
Definition squash (i : nat) (h : BankStore) : BankStore := alter (set_parent None) i h.

(** ** [SnapshotController] *)

Record SnapshotController := mkSnapshots {
  full_snapshot_interval : option Z;
  incremental_snapshot_interval : option Z;
  latest_abs_request_slot : Z;
  request_fastboot_snapshot : bool
}.

(** The first bank of which a snapshot is due. *)
Definition snapshot_due (s : SnapshotController) (b : Bank) : bool :=
  let due interval := match interval with Some n => bank_block_height b mod n =? 0 | None => false end in
  if bank_slot b <=? latest_abs_request_slot s then false
  else due (full_snapshot_interval s) || due (incremental_snapshot_interval s) || request_fastboot_snapshot s.

Fixpoint find_bank (f : Bank -> bool) (h : BankStore) (ids : list nat) : option nat :=
  match ids with
  | [] => None
  | i :: ids => match h !! i with
               | Some b => if f b then Some i else find_bank f h ids
               | None => find_bank f h ids
               end
  end.

Definition handle_new_roots (s : SnapshotController) (root : Z) (new_roots : list nat) (h : BankStore)
    : SnapshotController * BankStore * bool :=
  let taken latest := mkSnapshots (full_snapshot_interval s) (incremental_snapshot_interval s) latest false in
  match find_bank (snapshot_due s) h new_roots with
  | Some i => (taken (slot_of h i), squash i h, slot_of h i =? root)
  | None => (taken (latest_abs_request_slot s), h, false)
  end.

(** ** [BankForks] *)

Record BankForks := mkForks {
  banks : gmap Z nat;
  descendants : gmap Z (gset Z);
  forks_root : Z;
  working_slot : Z;
  root_bank : nat;
  working_bank : nat;
  highest_slot_at_startup : Z
}.

Section forks.
Context (iter : gset Z -> list Z) (iter_banks : gmap Z nat -> list Z).

Definition proper_ancestors (b : Bank) : list Z :=
  filter (fun slot => slot <> bank_slot b) (ancestors_keys iter (bank_ancestors b)).

(** [descendants.entry(slot).or_default()] and [descendants.entry(parent).or_default().insert(slot)]. *)
Definition or_default (slot : Z) (d : gmap Z (gset Z)) : gmap Z (gset Z) :=
  <[slot := default ∅ (d !! slot)]> d.
Definition add_descendant (slot : Z) (d : gmap Z (gset Z)) (parent : Z) : gmap Z (gset Z) :=
  <[parent := {[slot]} ∪ default ∅ (d !! parent)]> d.
Definition record_descendant (b : Bank) (d : gmap Z (gset Z)) : gmap Z (gset Z) :=
  fold_left (add_descendant (bank_slot b)) (proper_ancestors b) (or_default (bank_slot b) d).

(** The parents of the first root, until one is there already. *)
Fixpoint insert_parents (h : BankStore) (ps : list nat) (bs : gmap Z nat) : gmap Z nat :=
  match ps with
  | [] => bs
  | p :: ps =>
      let slot := slot_of h p in
      let present := bs !! slot in
      let bs := <[slot := p]> bs in
      if present then bs else insert_parents h ps bs
  end.

(** [BankForks::new_rw_arc]. *)
Definition forks_new (b : Bank) (h : BankStore) : option (BankStore * BankForks) :=
  let root_slot := bank_slot b in
  let i := length h in
  let h := h ++ [b] in
  let! ps := parents h b in
  let bs := insert_parents h ps {[root_slot := i]} in
  Some (h, mkForks bs (record_descendant b ∅) root_slot root_slot i i 0).

(** [self.banks.values().map(|bank| bank.slot()).max().unwrap()]. *)
Definition find_highest_slot (h : BankStore) (bs : gmap Z nat) : option Z :=
  match map (fun e => slot_of h e.2) (map_to_list bs) with
  | [] => None
  | s :: l => Some (foldr Z.max s l)
  end.

(** The update of the working bank that ends [insert] and [remove]. *)
Definition update_working (h : BankStore) (f : BankForks) : option BankForks :=
  let! slot := find_highest_slot h (banks f) in
  let! bank := banks f !! slot in
  Some (mkForks (banks f) (descendants f) (forks_root f) slot (root_bank f) bank (highest_slot_at_startup f)).

(** [insert_with_scheduling_mode], without the scheduler. *)
Definition forks_insert (b : Bank) (h : BankStore) (f : BankForks) : option (BankStore * BankForks) :=
  let b := if forks_root f <? highest_slot_at_startup f then set_check_program_deployment_slot true b else b in
  let i := length h in
  let h := h ++ [b] in
  match banks f !! bank_slot b with
  | Some _ => None
  | None =>
      let! f := update_working h
        (mkForks (<[bank_slot b := i]> (banks f)) (record_descendant b (descendants f)) (forks_root f)
           (working_slot f) (root_bank f) (working_bank f) (highest_slot_at_startup f)) in
      Some (h, f)
  end.

Definition insert_from_ledger (b : Bank) (h : BankStore) (f : BankForks) : option (BankStore * BankForks) :=
  forks_insert b h
    (mkForks (banks f) (descendants f) (forks_root f) (working_slot f) (root_bank f) (working_bank f)
       (Z.max (highest_slot_at_startup f) (bank_slot b))).

(** The loop of [remove] over the proper ancestors. *)
Fixpoint forget_descendant (bs : gmap Z nat) (slot : Z) (ps : list Z) (d : gmap Z (gset Z))
    : option (gmap Z (gset Z)) :=
  match ps with
  | [] => Some d
  | p :: ps =>
      let! ds := d !! p in
      let ds := ds ∖ {[slot]} in
      forget_descendant bs slot ps
        (if bool_decide (ds = ∅) && bool_decide (bs !! p = None) then delete p d else <[p := ds]> d)
  end.

Definition forks_remove (slot : Z) (h : BankStore) (f : BankForks) : option (BankForks * option nat) :=
  match banks f !! slot with
  | None => Some (f, None)
  | Some i =>
      let! b := h !! i in
      let bs := delete slot (banks f) in
      let! d := forget_descendant bs slot (proper_ancestors b) (descendants f) in
      let! ds := d !! slot in
      let d := if bool_decide (ds = ∅) then delete slot d else d in
      let! f := update_working h
        (mkForks bs d (forks_root f) (working_slot f) (root_bank f) (working_bank f) (highest_slot_at_startup f)) in
      Some (f, Some i)
  end.

(** [dump_slots]: the slots are all there. *)
Fixpoint dump_slots (slots : list Z) (h : BankStore) (f : BankForks) : option (BankForks * list nat) :=
  match slots with
  | [] => Some (f, [])
  | slot :: slots =>
      let! (f, removed) := forks_remove slot h f in
      let! i := removed in
      let! (f, rest) := dump_slots slots h f in
      Some (f, i :: rest)
  end.

(** [ReplayStage::purge_unconfirmed_slot], of the banks: the slot and all that descends from it. *)
Definition purge_unconfirmed_slot (slot : Z) (h : BankStore) (f : BankForks) : option (BankForks * list nat) :=
  match descendants f !! slot with
  | None => Some (f, [])
  | Some ds => dump_slots (iter ds ++ [slot]) h f
  end.

(** The removals of [prune_non_rooted]. *)
Fixpoint remove_slots (slots : list Z) (h : BankStore) (f : BankForks) : option (BankForks * list nat) :=
  match slots with
  | [] => Some (f, [])
  | slot :: slots =>
      let! (f, removed) := forks_remove slot h f in
      let! (f, rest) := remove_slots slots h f in
      Some (f, match removed with Some i => i :: rest | None => rest end)
  end.

(** [keep] of [prune_non_rooted]; indexing panics. *)
Definition keep_slot (root highest_super_majority_root : Z) (d : gmap Z (gset Z)) (slot : Z) : option bool :=
  if slot =? root then Some true
  else
    let! ds := d !! root in
    if bool_decide (slot ∈ ds) then Some true
    else if (slot <? root) && (highest_super_majority_root <=? slot) then
      let! ds := d !! slot in
      Some (bool_decide (root ∈ ds))
    else Some false.

Fixpoint slots_to_prune (root highest_super_majority_root : Z) (d : gmap Z (gset Z)) (slots : list Z)
    : option (list Z) :=
  match slots with
  | [] => Some []
  | slot :: slots =>
      let! keep := keep_slot root highest_super_majority_root d slot in
      let! rest := slots_to_prune root highest_super_majority_root d slots in
      Some (if keep : bool then rest else slot :: rest)
  end.

Definition prune_non_rooted (root : Z) (highest_super_majority_root : option Z) (h : BankStore) (f : BankForks)
    : option (BankForks * list nat) :=
  let! slots := slots_to_prune root (default root highest_super_majority_root) (descendants f) (iter_banks (banks f)) in
  remove_slots slots h f.

(** [set_root]; the banks that are removed are returned. *)
Definition set_root (root : Z) (snapshots : option SnapshotController) (highest_super_majority_root : option Z)
    (h : BankStore) (f : BankForks)
    : option (option SnapshotController * BankStore * BankForks * list nat) :=
  let! i := banks f !! root in
  let! b := h !! i in
  let f := mkForks (banks f) (descendants f) root (working_slot f) i (working_bank f) (highest_slot_at_startup f) in
  let! ps := parents h b in
  let '(snapshots, h, is_root_bank_squashed) :=
    match snapshots with
    | Some s => let '(s, h, squashed) := handle_new_roots s root (i :: ps) h in (Some s, h, squashed)
    | None => (None, h, false)
    end in
  let h := if is_root_bank_squashed : bool then h else squash i h in
  let! (f, removed) := prune_non_rooted root highest_super_majority_root h f in
  Some (snapshots, h, f, removed).

(** [ForkGraph::relationship]. *)
Definition relationship (h : BankStore) (f : BankForks) (a b : Z) : BlockRelation :=
  let known s := (forks_root f <=? s) && (s <=? working_slot f) in
  if known a && known b then
    if a =? b then EqualBlock
    else if match banks f !! b with
            | Some i => match h !! i with Some bank => contains_key (bank_ancestors bank) a | None => false end
            | None => false
            end then Ancestor
    else if match descendants f !! b with Some slots => bool_decide (a ∈ slots) | None => false end then Descendant
    else Unrelated
  else UnknownRelation.
End forks.

(** ** The tree and the cache of programs *)

Section with_cache.
Context {Executable BuiltinProgram : Type} (get_loader : Executable -> Z) (debug_assertions : bool).
Context (iter : gset Z -> list Z) (iter_banks : gmap Z nat -> list Z).
Abbreviation Cache := (ProgramCache Executable BuiltinProgram).
Abbreviation Preparation := (@EpochBoundaryPreparation Executable BuiltinProgram).

(** The cache asks the tree as it is. *)
Definition with_forks (h : BankStore) (f : BankForks) (c : Cache) : Cache :=
  set_fork_graph (LiveForkGraph (relationship h f)) c.

(** [BankForks::prune_program_cache] and [Bank::prune_program_cache]. *)
Definition prune_program_cache (root : Z) (h : BankStore) (f : BankForks) (prep : Preparation) (c : Cache)
    : option (Preparation * Cache) :=
  match banks f !! root with
  | None => Some (prep, c)
  | Some i =>
      let! b := h !! i in
      let '(prep, upcoming_environments) := reroot prep (bank_epoch b) in
      let! c := prune get_loader debug_assertions root upcoming_environments (with_forks h f c) in
      Some (prep, c)
  end.

(** [set_bank_forks_root]: the cache is pruned, then the tree. *)
Definition set_bank_forks_root (root : Z) (snapshots : option SnapshotController) (highest_super_majority_root : option Z)
    (h : BankStore) (f : BankForks) (prep : Preparation) (c : Cache)
    : option (option SnapshotController * BankStore * BankForks * Preparation * Cache) :=
  let! (prep, c) := prune_program_cache root h f prep c in
  let! (snapshots, h, f, _) := set_root iter iter_banks root snapshots highest_super_majority_root h f in
  Some (snapshots, h, f, prep, with_forks h f c).
End with_cache.
