(* ===== verification/ForksSafe.v ===== *)
(** The tree of banks stays a tree, no operation on it panics, and it is a fork graph: what
    [ForkGraphLaws] asks of the relation between slots holds of every tree that insertions, dumps
    and moves of the root produce. *)

From Stdlib Require Import ZArith Lia Bool.
From stdpp Require Import gmap list.
From S2P Require Import Prelude.
From S2P Require Import SbpfTypes.
From S2P Require Import TxAccounts.
From S2P Require Import ProgramCache.
From S2P Require Import CacheView.
From S2P Require Import RollingBitField.
From S2P Require Import RollingSafe.
From S2P Require Import BankForks.

#[local] Open Scope Z_scope.

Implicit Types (h : BankStore) (f : BankForks) (i j : nat) (s p a x y : Z).

(** ** Invariants *)

(** The ancestors of a bank of the store. *)
Definition anc (h : BankStore) (i : nat) : gset Z :=
  match h !! i with Some b => members (bank_ancestors b) | None => ∅ end.

(** The descendants recorded for a slot. *)
Definition desc (f : BankForks) (p : Z) : gset Z := default ∅ (descendants f !! p).

(** A parent is older than its children. *)
Definition store_ok (h : BankStore) : Prop :=
  forall i b j, h !! i = Some b -> bank_parent b = Some j -> (j < i)%nat.

Record bank_ok (s : Z) (b : Bank) : Prop := {
  bank_has_slot : bank_slot b = s;
  bank_slot_ok : slot_ok s;
  bank_field : rolling_ok (bank_ancestors b);
  bank_self : s ∈ members (bank_ancestors b);
  bank_before x : x ∈ members (bank_ancestors b) -> 0 <= x <= s
}.

(** What holds at every point, also between the removals of a prune: the descendants are the
    inverse of the ancestors. *)
Record tree_ok (h : BankStore) (f : BankForks) : Prop := {
  tree_store : store_ok h;
  tree_bank s i : banks f !! s = Some i -> exists b, h !! i = Some b /\ bank_ok s b;
  tree_desc p a : a ∈ desc f p <-> p <> a /\ exists i, banks f !! a = Some i /\ p ∈ anc h i;
  tree_dom p : is_Some (descendants f !! p) <-> is_Some (banks f !! p) \/ desc f p <> ∅;
  tree_high : is_Some (banks f !! working_slot f);
  tree_highest s : is_Some (banks f !! s) -> s <= working_slot f
}.

(** Between operations: above the root, the ancestors of a bank are its slot and the ancestors of
    its parent, which is a bank of the tree. *)
Record forks_ok (h : BankStore) (f : BankForks) : Prop := {
  forks_tree : tree_ok h f;
  forks_rooted : exists b, banks f !! forks_root f = Some (root_bank f) /\ h !! root_bank f = Some b /\ bank_parent b = None;
  forks_link s i b : banks f !! s = Some i -> h !! i = Some b -> forks_root f < s ->
    exists t j, bank_parent b = Some j /\ banks f !! t = Some j /\ forks_root f <= t < s /\
      forall x, forks_root f <= x -> x ∈ anc h i <-> x = s \/ x ∈ anc h j
}.

(** ** Up the tree *)

Section tree.
Context (h : BankStore) (f : BankForks) (Hf : forks_ok h f).

Lemma live_anc s i x : banks f !! s = Some i -> x ∈ anc h i -> 0 <= x <= s.
Proof.
  intros Hs Hx. destruct (tree_bank h f (forks_tree h f Hf) s i Hs) as (b & Hb & Ho).
  unfold anc in Hx. rewrite Hb in Hx. by apply (bank_before s b).
Qed.

Lemma live_self s i : banks f !! s = Some i -> s ∈ anc h i.
Proof.
  intros Hs. destruct (tree_bank h f (forks_tree h f Hf) s i Hs) as (b & Hb & Ho).
  unfold anc. rewrite Hb. apply Ho.
Qed.

(** Induction from the root to the leaves. *)
Lemma live_ind (P : Z -> nat -> Prop) :
  P (forks_root f) (root_bank f) ->
  (forall s i b t j, banks f !! s = Some i -> h !! i = Some b -> bank_parent b = Some j -> banks f !! t = Some j ->
     forks_root f <= t < s -> (forall x, forks_root f <= x -> x ∈ anc h i <-> x = s \/ x ∈ anc h j) -> P t j -> P s i) ->
  forall s i, banks f !! s = Some i -> forks_root f <= s -> P s i.
Proof.
  intros Hroot Hstep s. destruct (forks_rooted h f Hf) as (rb & Hr & _).
  assert (forall n s i, Z.to_nat (s - forks_root f) = n -> banks f !! s = Some i -> forks_root f <= s -> P s i) as H; [|by eauto].
  clear s. induction n as [n IH] using lt_wf_ind. intros s i Hn Hs Hge.
  destruct (decide (s = forks_root f)) as [->|Hne]; [by simplify_eq|].
  destruct (tree_bank h f (forks_tree h f Hf) s i Hs) as (b & Hb & _).
  destruct (forks_link h f Hf s i b Hs Hb ltac:(lia)) as (t & j & H1 & H2 & H3 & H4).
  eapply Hstep; try done. eapply (IH (Z.to_nat (t - forks_root f))); [lia|done|done|lia].
Qed.

(** The ancestors from the root on are banks of the tree, and theirs are those below them. *)
Lemma live_chain s i x :
  banks f !! s = Some i -> forks_root f <= s -> x ∈ anc h i -> forks_root f <= x ->
  exists j, banks f !! x = Some j /\ forall y, forks_root f <= y <= x -> y ∈ anc h i <-> y ∈ anc h j.
Proof.
  intros Hs Hge. revert x. pattern s, i. revert s i Hs Hge. apply live_ind.
  - intros x Hx Hr. destruct (forks_rooted h f Hf) as (rb & Hroot & _).
    pose proof (live_anc _ _ _ Hroot Hx). assert (x = forks_root f) as -> by lia. by exists (root_bank f).
  - intros s i b t j Hs Hb _ Ht Hlt Hanc IH x Hx Hr. apply Hanc in Hx as [->|Hx]; [by exists i| |done].
    destruct (IH x Hx Hr) as (k & Hk & Hy). exists k. split; [done|]. intros y Hle. rewrite Hanc, <-Hy by lia.
    pose proof (live_anc _ _ _ Ht Hx). split; [intros [->|]; [lia|done]|by right].
Qed.

Lemma live_root s i : banks f !! s = Some i -> forks_root f <= s -> forks_root f ∈ anc h i.
Proof.
  intros Hs Hge. pattern s, i. revert s i Hs Hge. apply live_ind.
  - destruct (forks_rooted h f Hf) as (rb & Hroot & _). by apply live_self.
  - intros s i b t j _ _ _ _ Hlt Hanc IH. apply Hanc; [lia|]. by right.
Qed.

(** The walk up the links, from the root on, meets the ancestors. *)
Lemma live_follow s i fuel :
  banks f !! s = Some i -> forks_root f <= s -> (i < fuel)%nat ->
  exists up, follow fuel h (Some i) = Some up /\
    (forall x, x ∈ map (slot_of h) up -> slot_ok x /\ x <= s) /\
    forall x, forks_root f <= x -> x ∈ map (slot_of h) up <-> x ∈ anc h i.
Proof.
  intros Hs Hge. revert fuel. pattern s, i. revert s i Hs Hge. apply live_ind.
  - intros fuel Hfuel. destruct fuel as [|fuel]; [lia|]. destruct (forks_rooted h f Hf) as (rb & Hroot & Hrb & Hp).
    destruct (tree_bank h f (forks_tree h f Hf) _ _ Hroot) as (b & Hb & Ho). simplify_eq.
    assert (slot_of h (root_bank f) = forks_root f) as Eslot by (unfold slot_of; rewrite Hrb; apply Ho).
    cbn [follow]. rewrite Hrb, Hp. exists [root_bank f]. destruct fuel; (split; [done|]); cbn [map]; rewrite Eslot; (split;
      [intros x ->%list_elem_of_singleton; split; [apply Ho|lia]|]); intros x Hx; rewrite list_elem_of_singleton;
      (split; [intros ->; by apply live_self|]); intros Ha; pose proof (live_anc _ _ _ Hroot Ha); lia.
  - intros s i b t j Hs Hb Hp Ht Hlt Hanc IH fuel Hfuel. destruct fuel as [|fuel]; [lia|]. cbn [follow]. rewrite Hb, Hp.
    destruct (IH fuel) as (up & Hup & H1 & H2).
    { pose proof (tree_store h f (forks_tree h f Hf) i b j Hb Hp). lia. }
    destruct (tree_bank h f (forks_tree h f Hf) s i Hs) as (b' & Hb' & Ho). simplify_eq.
    assert (slot_of h i = s) as Eslot by (unfold slot_of; rewrite Hb; apply Ho).
    rewrite Hup. exists (i :: up). split; [done|]. cbn [map]. rewrite Eslot. split.
    + intros x [->|Hx]%elem_of_cons; [split; [apply Ho|lia]|]. destruct (H1 x Hx). split; [done|lia].
    + intros x Hx. rewrite elem_of_cons, H2, Hanc by done. done.
Qed.
End tree.

(** ** The fork graph *)

Section relation.
Context (h : BankStore) (f : BankForks) (Hf : forks_ok h f).

(** [a] is below [b] on the same branch. *)
Definition above (a b : Z) : Prop :=
  forks_root f <= a /\ a <> b /\ exists i, banks f !! b = Some i /\ a ∈ anc h i.

Lemma above_lt a b : above a b -> forks_root f <= a < b /\ b <= working_slot f.
Proof.
  intros (H1 & H2 & i & Hi & Ha). pose proof (live_anc h f Hf b i a Hi Ha).
  pose proof (tree_highest h f (forks_tree h f Hf) b ltac:(eauto)). lia.
Qed.

Lemma contains_anc b i a bank : banks f !! b = Some i -> h !! i = Some bank ->
  contains_key (bank_ancestors bank) a = bool_decide (a ∈ anc h i).
Proof.
  intros Hi Hb. destruct (tree_bank h f (forks_tree h f Hf) b i Hi) as (bank' & Hb' & Ho). simplify_eq.
  unfold contains_key, anc. rewrite Hb. apply contains_spec, Ho.
Qed.

Lemma related_anc a b :
  (match banks f !! b with
   | Some i => match h !! i with Some bank => contains_key (bank_ancestors bank) a | None => false end
   | None => false
   end) = true <-> exists i, banks f !! b = Some i /\ a ∈ anc h i.
Proof.
  destruct (banks f !! b) as [i|] eqn:Hi; [|naive_solver].
  destruct (tree_bank h f (forks_tree h f Hf) b i Hi) as (bank & Hb & Ho).
  rewrite Hb, (contains_anc b i a bank Hi Hb), bool_decide_eq_true. naive_solver.
Qed.

Lemma related_desc a b :
  (match descendants f !! b with Some slots => bool_decide (a ∈ slots) | None => false end) = true <-> a ∈ desc f b.
Proof. unfold desc. destruct (descendants f !! b); cbn; [by rewrite bool_decide_eq_true|set_solver]. Qed.

Lemma relationship_cases a b :
  (relationship h f a b = Ancestor <-> above a b) /\ (relationship h f a b = Descendant <-> above b a) /\
  (relationship h f a b = EqualBlock <-> a = b /\ forks_root f <= a <= working_slot f).
Proof.
  pose proof (above_lt a b) as Hab. pose proof (above_lt b a) as Hba. pose proof (related_anc a b) as Ha.
  pose proof (related_desc a b) as Hd. rewrite (tree_desc h f (forks_tree h f Hf)) in Hd.
  unfold relationship. set (ta := match banks f !! b with Some _ => _ | None => _ end) in *.
  set (td := match descendants f !! b with Some _ => _ | None => _ end) in *.
  assert (above a b <-> forks_root f <= a /\ a <> b /\ ta = true) as Ea by (unfold above; by rewrite Ha).
  assert (above b a <-> forks_root f <= b /\ td = true) as Ed.
  { unfold above. rewrite Hd. split; [intros (? & ? & ?)|intros (? & ? & ?)]; by split_and!. }
  rewrite Ea in *. rewrite Ed in *. clear Ea Ed Ha Hd. clearbody ta td.
  destruct (andb (andb _ _) (andb _ _)) eqn:Eknown.
  - destruct (Z.eqb_spec a b) as [->|Hne]; [|destruct ta; [|destruct td]];
      (split_and!; split; intros H; first [done|lia|exfalso; specialize (Hba H); lia]).
  - split_and!; split; intros H; try done; exfalso; [apply Hab in H|apply Hba in H|]; lia.
Qed.

#[global] Instance forks_fork_graph : ForkGraphLaws (relationship h f).
Proof.
  assert (forall a b c, above a c -> above b c -> a < b -> above a b) as Hline.
  { intros a b c (H1 & H2 & i & Hi & Ha) (H3 & H4 & i' & Hi' & Hb) Hlt. simplify_eq.
    pose proof (live_anc h f Hf c i b Hi Hb).
    destruct (live_chain h f Hf c i b Hi ltac:(lia) Hb H3) as (j & Hj & Hy).
    split; [done|]. split; [lia|]. exists j. split; [done|]. apply Hy; [lia|done]. }
  constructor.
  - intros a b H. by apply relationship_cases in H as [-> _].
  - intros a b H. apply relationship_cases, above_lt in H. lia.
  - intros a b. pose proof (relationship_cases a b) as (_ & -> & _). pose proof (relationship_cases b a) as (-> & _ & _). done.
  - intros a b H. apply relationship_cases, above_lt in H.
    split; apply relationship_cases; (split; [done|lia]).
  - intros a b c H1 H2. apply relationship_cases in H1, H2. apply relationship_cases.
    pose proof (above_lt a b H1). pose proof (above_lt b c H2).
    destruct H1 as (? & ? & j & Hj & Ha), H2 as (? & ? & i & Hi & Hb).
    split; [done|]. split; [lia|]. exists i. split; [done|].
    destruct (live_chain h f Hf c i b Hi ltac:(lia) Hb ltac:(lia)) as (j' & Hj' & Hy). simplify_eq. apply Hy; [lia|done].
  - intros a b c H1 H2 Hlt. apply relationship_cases in H1, H2. apply relationship_cases. by apply (Hline a b c).
Qed.
End relation.

(** ** Operations *)

(** The keys of a map, in the order of its iteration. *)
Definition KeyIteration (iter_banks : gmap Z nat -> list Z) : Prop :=
  forall m, NoDup (iter_banks m) /\ forall s, s ∈ iter_banks m <-> is_Some (m !! s).

Section operations.
Context (iter : gset Z -> list Z) (Hiter : SetIteration iter).

Lemma proper_ancestors_spec b :
  rolling_ok (bank_ancestors b) ->
  NoDup (proper_ancestors iter b) /\
  forall p, p ∈ proper_ancestors iter b <-> p ∈ members (bank_ancestors b) /\ p <> bank_slot b.
Proof.
  intros Hr. unfold proper_ancestors, ancestors_keys. pose proof (get_all_spec iter Hiter _ Hr) as E. split.
  - apply NoDup_filter. rewrite E. apply NoDup_elements.
  - intros p. rewrite list_elem_of_filter, E, elem_of_elements. tauto.
Qed.

Lemma add_descendants_spec slot ps (d : gmap Z (gset Z)) q :
  (forall a, a ∈ default ∅ (fold_left (add_descendant slot) ps d !! q) <-> a ∈ default ∅ (d !! q) \/ (a = slot /\ q ∈ ps)) /\
  (is_Some (fold_left (add_descendant slot) ps d !! q) <-> is_Some (d !! q) \/ q ∈ ps).
Proof.
  revert d. induction ps as [|p ps IH]; intros d; cbn [fold_left]; [split; [set_solver|set_solver]|].
  destruct (IH (add_descendant slot d p)) as [H1 H2]. unfold add_descendant in *.
  destruct (decide (p = q)) as [->|Hne].
  - rewrite lookup_insert_eq in H1, H2. split; [|rewrite H2; split; [right; left|left; eauto]].
    intros a. rewrite H1. cbn. set_solver.
  - rewrite lookup_insert_ne in H1, H2 by done. split; [intros a; rewrite H1|rewrite H2]; set_solver.
Qed.

Lemma foldr_max_spec s l : foldr Z.max s l ∈ s :: l /\ forall x, x ∈ s :: l -> x <= foldr Z.max s l.
Proof.
  induction l as [|y l [IH1 IH2]]; cbn [foldr].
  - split; [left|]. intros x ->%list_elem_of_singleton. lia.
  - split.
    + destruct (Z.max_spec y (foldr Z.max s l)) as [[_ ->]|[_ ->]]; [|right; left].
      apply elem_of_cons in IH1 as [->|]; [left|do 2 right; done].
    + intros x [->|[->|Hx]%elem_of_cons]%elem_of_cons; [|lia|]; [specialize (IH2 s ltac:(left))|specialize (IH2 x ltac:(by right))]; lia.
Qed.

Lemma find_highest_spec h (bs : gmap Z nat) :
  (forall s i, bs !! s = Some i -> slot_of h i = s) -> (exists s, is_Some (bs !! s)) ->
  exists m, find_highest_slot h bs = Some m /\ is_Some (bs !! m) /\ forall s, is_Some (bs !! s) -> s <= m.
Proof.
  intros Hs Hne. unfold find_highest_slot. set (l := map _ _).
  assert (forall s, s ∈ l <-> is_Some (bs !! s)) as Hl.
  { intros s. unfold l. rewrite list_elem_of_fmap. split.
    - intros ([s' i] & -> & Hi%elem_of_map_to_list). cbn. rewrite (Hs s' i Hi). eauto.
    - intros [i Hi]. exists (s, i). cbn. split; [by rewrite (Hs s i Hi)|by apply elem_of_map_to_list]. }
  clearbody l. destruct Hne as [s0 H0%Hl]. destruct l as [|s l]; [set_solver|].
  destruct (foldr_max_spec s l) as [H1 H2]. eexists. split; [done|]. split; [by apply Hl|]. intros x Hx. apply H2. by apply Hl.
Qed.

(** The working bank is found again. *)
Lemma update_working_spec h f :
  (forall s i, banks f !! s = Some i -> slot_of h i = s) -> (exists s, is_Some (banks f !! s)) ->
  exists f', update_working h f = Some f' /\ banks f' = banks f /\ descendants f' = descendants f /\
    forks_root f' = forks_root f /\ root_bank f' = root_bank f /\
    is_Some (banks f !! working_slot f') /\ (forall s, is_Some (banks f !! s) -> s <= working_slot f').
Proof.
  intros Hs Hne. destruct (find_highest_spec h (banks f) Hs Hne) as (m & E & [i Hi] & Hm).
  unfold update_working. rewrite E, Hi. eexists. split; [done|]. cbn. rewrite Hi. split_and!; eauto.
Qed.

Lemma tree_slot_of h f s i : tree_ok h f -> banks f !! s = Some i -> slot_of h i = s.
Proof. intros Ht Hi. destruct (tree_bank h f Ht s i Hi) as (b & Hb & Ho). unfold slot_of. rewrite Hb. apply Ho. Qed.

(** *** Inserting *)

Lemma new_from_parent_spec h f t (p : nat) slot epoch :
  forks_ok h f -> banks f !! t = Some p -> forks_root f <= t < slot -> slot_ok slot ->
  (forall b, h !! p = Some b -> bank_block_height b < u64_MAX) ->
  exists b, new_from_parent h p slot epoch = Some b /\ bank_slot b = slot /\ bank_parent b = Some p /\ bank_ok slot b /\
    forall x, forks_root f <= x -> x ∈ members (bank_ancestors b) <-> x = slot \/ x ∈ anc h p.
Proof.
  intros Hf Hp Hlt Hslot Hheight. destruct (tree_bank h f (forks_tree h f Hf) t p Hp) as (bp & Hbp & Ho).
  destruct (live_follow h f Hf t p (length h) Hp ltac:(lia)) as (up & Hup & H1 & H2); [by eapply lookup_lt_Some|].
  unfold new_from_parent. rewrite Hbp. destruct (Z.eqb_spec slot (bank_slot bp)) as [E|_]; [rewrite (bank_has_slot t bp Ho) in E; lia|].
  specialize (Hheight bp Hbp). unfold checked_add. rewrite (proj2 (Z.leb_le (bank_block_height bp + 1) u64_MAX)) by lia. rewrite Hup.
  destruct (ancestors_from_spec (slot :: map (slot_of h) up)) as (a & Ea & Ha & Em).
  { apply Forall_forall. intros x [->|Hx]%elem_of_cons; [done|]. by apply H1. }
  rewrite Ea. eexists. split; [done|]. cbn. split_and!; [done..| |].
  - constructor; cbn; [done..|rewrite Em; set_solver|].
    intros x. rewrite Em, elem_of_list_to_set, elem_of_cons. intros [->|Hx]; [destruct Hslot; lia|].
    destruct (H1 x Hx) as [[? ?] ?]. lia.
  - intros x Hx. rewrite Em, elem_of_list_to_set, elem_of_cons, H2 by done. done.
Qed.

Lemma anc_app h b i : (i < length h)%nat -> anc (h ++ [b]) i = anc h i.
Proof. intros Hi. unfold anc. by rewrite lookup_app_l. Qed.

Lemma anc_new h b : anc (h ++ [b]) (length h) = members (bank_ancestors b).
Proof. unfold anc. by rewrite list_lookup_middle. Qed.

Lemma record_descendant_spec b (d : gmap Z (gset Z)) q :
  bank_ok (bank_slot b) b ->
  (forall a, a ∈ default ∅ (record_descendant iter b d !! q) <->
     a ∈ default ∅ (d !! q) \/ (a = bank_slot b /\ q <> a /\ q ∈ members (bank_ancestors b))) /\
  (is_Some (record_descendant iter b d !! q) <-> is_Some (d !! q) \/ q ∈ members (bank_ancestors b)).
Proof.
  intros Hb. destruct (proper_ancestors_spec b (bank_field _ _ Hb)) as [_ Hpa]. unfold record_descendant.
  destruct (add_descendants_spec (bank_slot b) (proper_ancestors iter b) (or_default (bank_slot b) d) q) as [Ha Hd].
  assert (default ∅ (or_default (bank_slot b) d !! q) = default ∅ (d !! q)) as Eq.
  { unfold or_default. destruct (decide (bank_slot b = q)) as [->|]; [by rewrite lookup_insert_eq|by rewrite lookup_insert_ne]. }
  rewrite Eq in Ha. split; [intros a; rewrite Ha, Hpa; naive_solver|]. rewrite Hd, Hpa. unfold or_default.
  pose proof (bank_self _ _ Hb) as Hself. clear - Hself. destruct (decide (bank_slot b = q)) as [<-|].
  - rewrite lookup_insert_eq. split; [by right|]. left. eauto.
  - rewrite lookup_insert_ne by done. naive_solver.
Qed.

(** A bank is added to the tree, and its slot to what its ancestors have below them. *)
Lemma add_bank_tree h f b bs d working :
  tree_ok h f -> bank_ok (bank_slot b) b -> banks f !! bank_slot b = None ->
  (forall j, bank_parent b = Some j -> (j < length h)%nat) ->
  bs = <[bank_slot b := length h]> (banks f) -> d = record_descendant iter b (descendants f) ->
  is_Some (bs !! working_slot working) -> (forall s, is_Some (bs !! s) -> s <= working_slot working) ->
  banks working = bs -> descendants working = d -> tree_ok (h ++ [b]) working.
Proof.
  intros Ht Hb Hnone Hp Ebs Ed Hw1 Hw2 E1 E2.
  assert (forall s i, banks f !! s = Some i -> (i < length h)%nat) as Hlt.
  { intros s i Hi. destruct (tree_bank h f Ht s i Hi) as (bank & Hbank & _). by eapply lookup_lt_Some. }
  assert (forall a p, (exists i, bs !! a = Some i /\ p ∈ anc (h ++ [b]) i) <->
    (a = bank_slot b /\ p ∈ members (bank_ancestors b)) \/ exists i, banks f !! a = Some i /\ p ∈ anc h i) as Hanc.
  { intros a p. rewrite Ebs. destruct (decide (bank_slot b = a)) as [<-|Hne].
    - rewrite lookup_insert_eq, Hnone. split.
      + intros (i & [= <-] & H). rewrite anc_new in H. auto.
      + intros [[_ H]|(i & ? & _)]; [|done]. exists (length h). by rewrite anc_new.
    - rewrite lookup_insert_ne by done. split.
      + intros (i & Hi & H). rewrite anc_app in H by eauto. eauto.
      + intros [[? _]|(i & Hi & H)]; [congruence|]. exists i. rewrite anc_app by eauto. auto. }
  constructor.
  - intros i bank j [Hi|[Hi Eb]]%lookup_app_Some Hj; [by eapply (tree_store h f Ht)|].
    apply list_lookup_singleton_Some in Eb as [Ei ->]. specialize (Hp j Hj). lia.
  - rewrite E1, Ebs. intros s i [[<- <-]|[_ Hi]]%lookup_insert_Some.
    + exists b. split; [by apply list_lookup_middle|done].
    + destruct (tree_bank h f Ht s i Hi) as (bank & Hbank & Ho). exists bank. split; [by apply lookup_app_l_Some|done].
  - intros p a. unfold desc. rewrite E1, E2, Ed, Hanc. destruct (record_descendant_spec b (descendants f) p Hb) as [-> _].
    fold (desc f p). rewrite (tree_desc h f Ht). naive_solver.
  - intros p. unfold desc. rewrite E1, E2, Ed. destruct (record_descendant_spec b (descendants f) p Hb) as [Ha ->].
    pose proof (bank_self _ _ Hb) as Hself. rewrite (tree_dom h f Ht), Ebs. unfold desc. split.
    + intros [[Hs|Hd]|Hm].
      * left. rewrite lookup_insert_is_Some'. by right.
      * right. intros E. destruct (set_choose_L _ Hd) as [x Hx]. assert (x ∈ default ∅ (record_descendant iter b (descendants f) !! p)) as H by (apply Ha; by left). set_solver.
      * destruct (decide (p = bank_slot b)) as [->|Hne]; [left; rewrite lookup_insert_eq; eauto|right]. intros E.
        assert (bank_slot b ∈ default ∅ (record_descendant iter b (descendants f) !! p)) as H by (apply Ha; right; done). set_solver.
    + intros [[<-|Hs]%lookup_insert_is_Some'|Hd]; [by right|by left; left|].
      destruct (set_choose_L _ Hd) as [x [Hx|(-> & _ & Hx)]%Ha]; [left; right; set_solver|by right].
  - by rewrite E1.
  - by rewrite E1.
Qed.

(** A bank that fits below the tree is inserted. *)
Lemma forks_insert_tree h f b :
  tree_ok h f -> bank_ok (bank_slot b) b -> banks f !! bank_slot b = None ->
  (forall j, bank_parent b = Some j -> (j < length h)%nat) ->
  exists b' f', forks_insert iter b h f = Some (h ++ [b'], f') /\ tree_ok (h ++ [b']) f' /\
    forks_root f' = forks_root f /\ root_bank f' = root_bank f /\ banks f' = <[bank_slot b := length h]> (banks f) /\
    bank_parent b' = bank_parent b /\ bank_ancestors b' = bank_ancestors b.
Proof.
  intros Ht Hb Hnone Hp. unfold forks_insert.
  set (b' := if forks_root f <? highest_slot_at_startup f then set_check_program_deployment_slot true b else b).
  assert (bank_slot b' = bank_slot b /\ bank_parent b' = bank_parent b /\ bank_ancestors b' = bank_ancestors b) as (Es & Ep & Ean)
    by (unfold b'; by destruct (_ <? _)).
  assert (bank_ok (bank_slot b') b') as Hb' by (rewrite Es; destruct Hb; constructor; rewrite ?Es, ?Ean; done).
  rewrite <-Es in *. rewrite <-Ep in *. clearbody b'. clear Hb. rewrite Hnone.
  destruct (update_working_spec (h ++ [b']) (mkForks (<[bank_slot b' := length h]> (banks f)) (record_descendant iter b' (descendants f))
    (forks_root f) (working_slot f) (root_bank f) (working_bank f) (highest_slot_at_startup f)))
    as (f' & -> & H1 & H2 & H3 & H4 & H5 & H6).
  { cbn. intros s i [[<- <-]|[_ Hi]]%lookup_insert_Some; unfold slot_of; [by rewrite list_lookup_middle|].
    destruct (tree_bank h f Ht s i Hi) as (bank & Hbank & Ho). rewrite (lookup_app_l_Some _ _ _ _ Hbank). apply Ho. }
  { cbn. exists (bank_slot b'). rewrite lookup_insert_eq. eauto. }
  cbn in H1, H2, H3, H4, H5, H6. exists b', f'. split_and!; try done.
  apply (add_bank_tree h f b' (banks f') (descendants f')); rewrite ?H1; done.
Qed.

(** A child of a bank of the tree is inserted. *)
Lemma forks_insert_ok h f t (p : nat) slot epoch :
  forks_ok h f -> banks f !! t = Some p -> forks_root f <= t < slot -> slot_ok slot -> banks f !! slot = None ->
  (forall b, h !! p = Some b -> bank_block_height b < u64_MAX) ->
  exists b h' f', new_from_parent h p slot epoch = Some b /\ forks_insert iter b h f = Some (h', f') /\ forks_ok h' f' /\
    forks_root f' = forks_root f /\ banks f' = <[slot := length h]> (banks f) /\ t ∈ anc h' (length h).
Proof.
  intros Hf Hp Hlt Hslot Hnone Hheight. pose proof (forks_tree h f Hf) as Ht.
  destruct (new_from_parent_spec h f t p slot epoch Hf Hp Hlt Hslot Hheight) as (b & Eb & Es & Epar & Hb & Hanc).
  assert (forall s i, banks f !! s = Some i -> (i < length h)%nat) as Hlen.
  { intros s i Hi. destruct (tree_bank h f Ht s i Hi) as (bank & Hbank & _). by eapply lookup_lt_Some. }
  destruct (forks_insert_tree h f b) as (b' & f' & E & Ht' & Hr & Hrb & Hbs & Ep & Ea); [done|by rewrite Es|by rewrite Es| |].
  { rewrite Epar. intros j [= <-]. eauto. }
  rewrite Es in Hbs. exists b, (h ++ [b']), f'.
  split_and!; [done..| |done|done|rewrite anc_new, Ea; apply Hanc; [lia|right; by eapply live_self]]. constructor; [done|..].
  - destruct (forks_rooted h f Hf) as (rb & H1 & H2 & H3). exists rb. rewrite Hr, Hrb, Hbs.
    rewrite lookup_insert_ne by congruence. split_and!; [done|by apply lookup_app_l_Some|done].
  - rewrite Hr, Hbs. intros s i bank [[<- <-]|[Hne Hi]]%lookup_insert_Some Hbank Hgt.
    + rewrite list_lookup_middle in Hbank by done. injection Hbank as <-. exists t, p.
      rewrite lookup_insert_ne by congruence. split_and!; [congruence|done|lia|lia|].
      intros x Hx. rewrite anc_new, anc_app, Ea by eauto. by apply Hanc.
    + rewrite lookup_app_l in Hbank by eauto.
      destruct (forks_link h f Hf s i bank Hi Hbank Hgt) as (t' & j & H1 & H2 & H3 & H4).
      exists t', j. rewrite lookup_insert_ne by congruence. split_and!; [done|done|lia|lia|].
      intros x Hx. rewrite !anc_app by eauto. by apply H4.
Qed.

(** *** The first root *)

Lemma forks_new_ok b h :
  store_ok h -> bank_ok (bank_slot b) b -> bank_parent b = None ->
  exists f, forks_new iter b h = Some (h ++ [b], f) /\ forks_ok (h ++ [b]) f /\ forks_root f = bank_slot b.
Proof.
  intros Hstore Hb Hp. unfold forks_new, parents. rewrite Hp.
  assert (follow (length (h ++ [b])) (h ++ [b]) None = Some []) as -> by by destruct (length _). cbn [insert_parents].
  eexists. split; [done|]. split; [|done]. set (f := mkForks _ _ _ _ _ _ _).
  assert (forall s i, banks f !! s = Some i -> s = bank_slot b /\ i = length h) as Hone.
  { cbn. intros s i [-> <-]%lookup_singleton_Some. done. }
  assert (banks f !! bank_slot b = Some (length h)) as Hroot by apply lookup_singleton_eq.
  pose proof (list_lookup_middle h [] b (length h) eq_refl) as Hbk.
  pose proof (fun p => record_descendant_spec b ∅ p Hb) as Hrec.
  constructor; [constructor|..].
  - intros i bank j [Hi|[Hi Eb]]%lookup_app_Some Hj; [by eapply Hstore|].
    apply list_lookup_singleton_Some in Eb as [_ ->]. congruence.
  - intros s i [-> ->]%Hone. by exists b.
  - intros p a. unfold desc. cbn. destruct (Hrec p) as [-> _]. rewrite lookup_empty. cbn. split.
    + intros [?|(-> & ? & ?)]; [set_solver|]. split; [done|]. exists (length h). by rewrite anc_new.
    + intros (Hne & i & [-> ->]%Hone & Ha). rewrite anc_new in Ha. right. done.
  - intros p. unfold desc. cbn. destruct (Hrec p) as [Ha ->]. rewrite lookup_empty in *. split.
    + intros [[? ?]|Hm]; [done|]. destruct (decide (p = bank_slot b)) as [->|Hne]; [left; eauto|right]. intros E.
      assert (bank_slot b ∈ default ∅ (record_descendant iter b ∅ !! p)) as H by (apply Ha; right; done). set_solver.
    + intros [[i [-> _]%Hone]|Hd]; [right; apply Hb|]. destruct (set_choose_L _ Hd) as [x [Hx|(-> & _ & Hx)]%Ha]; [cbn in Hx; set_solver|by right].
  - eauto.
  - intros s [i [-> _]%Hone]. cbn. lia.
  - by exists b.
  - intros s i bank [-> ->]%Hone _ Hgt. cbn in Hgt. lia.
Qed.

(** *** Removing *)

Lemma forget_descendant_spec (bs : gmap Z nat) slot ps (d : gmap Z (gset Z)) :
  NoDup ps -> (forall p, p ∈ ps -> is_Some (d !! p)) ->
  exists d', forget_descendant bs slot ps d = Some d' /\
    (forall q, q ∉ ps -> d' !! q = d !! q) /\
    (forall q, q ∈ ps -> default ∅ (d' !! q) = default ∅ (d !! q) ∖ {[slot]} /\
       (is_Some (d' !! q) <-> is_Some (bs !! q) \/ default ∅ (d' !! q) <> ∅)).
Proof.
  revert d. induction ps as [|p ps IH]; intros d Hnd Hd; cbn [forget_descendant].
  { exists d. split_and!; [done|done|]. intros q Hq. set_solver. }
  apply NoDup_cons in Hnd as [Hp Hnd]. destruct (Hd p ltac:(left)) as [ds Eds]. rewrite Eds.
  set (d1 := if bool_decide (ds ∖ {[slot]} = ∅) && bool_decide (bs !! p = None) then delete p d else <[p := ds ∖ {[slot]}]> d).
  assert (forall q, q <> p -> d1 !! q = d !! q) as Hq1.
  { intros q Hq. unfold d1. destruct (_ && _); [by rewrite lookup_delete_ne|by rewrite lookup_insert_ne]. }
  destruct (IH d1 Hnd) as (d' & -> & H1 & H2).
  { intros q Hq. rewrite Hq1 by set_solver. apply Hd. by right. }
  exists d'. split_and!; [done|intros q Hq; rewrite H1, Hq1 by set_solver; done|].
  intros q [->|Hq]%elem_of_cons; [|assert (q <> p) by set_solver; rewrite <-(Hq1 q) by done; by apply H2].
  rewrite H1 by done. unfold d1. rewrite Eds. cbn.
  case_bool_decide as E1; [case_bool_decide as E2|]; cbn [andb].
  - rewrite lookup_delete_eq, E2. cbn. split; [by rewrite E1|]. naive_solver.
  - rewrite lookup_insert_eq. cbn. split; [done|]. split; [left; by apply not_eq_None_Some|eauto].
  - rewrite lookup_insert_eq. cbn. split; [done|]. split; [by right|eauto].
Qed.

(** A bank is removed, whatever its place, as long as another one is left. *)
Lemma forks_remove_tree h f s i s' :
  tree_ok h f -> banks f !! s = Some i -> s' <> s -> is_Some (banks f !! s') ->
  exists f', forks_remove iter s h f = Some (f', Some i) /\ tree_ok h f' /\ banks f' = delete s (banks f) /\
    forks_root f' = forks_root f /\ root_bank f' = root_bank f.
Proof.
  intros Ht Hi Hne Hs'. destruct (tree_bank h f Ht s i Hi) as (b & Hb & Ho). unfold forks_remove. rewrite Hi, Hb.
  destruct (proper_ancestors_spec b (bank_field _ _ Ho)) as [Hnd Hpa]. rewrite (bank_has_slot s b Ho) in Hpa.
  assert (forall p, p ∈ proper_ancestors iter b <-> s ∈ desc f p) as Hps.
  { intros p. rewrite Hpa, (tree_desc h f Ht). split.
    - intros [? ?]. split; [done|]. exists i. split; [done|]. unfold anc. by rewrite Hb.
    - intros (? & j & ? & Hj). simplify_eq. unfold anc in Hj. by rewrite Hb in Hj. }
  destruct (forget_descendant_spec (delete s (banks f)) s (proper_ancestors iter b) (descendants f) Hnd) as (d & -> & H1 & H2).
  { intros p Hp%Hps. apply (tree_dom h f Ht). right. set_solver. }
  assert (s ∉ proper_ancestors iter b) as Hself by (rewrite Hpa; tauto).
  destruct (proj2 (tree_dom h f Ht s)) as [ds Eds]; [left; eauto|]. rewrite (H1 s Hself), Eds.
  set (d' := if bool_decide (ds = ∅) then delete s d else d).
  assert (forall q, default ∅ (d' !! q) = desc f q ∖ {[s]} /\
    (is_Some (d' !! q) <-> is_Some (delete s (banks f) !! q) \/ default ∅ (d' !! q) <> ∅)) as Hd'.
  { intros q. unfold desc. destruct (decide (q = s)) as [->|Hq].
    - assert (s ∉ ds) as Hnot. { intros H. assert (s ∈ desc f s) as [? _]%(tree_desc h f Ht) by (unfold desc; by rewrite Eds). done. }
      rewrite lookup_delete_eq, Eds. unfold d'. case_bool_decide as E; [rewrite lookup_delete_eq|rewrite (H1 s Hself), Eds]; cbn;
        (split; [set_solver|]); naive_solver eauto.
    - assert (d' !! q = d !! q) as -> by (unfold d'; case_bool_decide; [by rewrite lookup_delete_ne|done]).
      destruct (decide (q ∈ proper_ancestors iter b)) as [Hin|Hin]; [by apply H2|].
      rewrite H1, lookup_delete_ne by done. fold (desc f q). split; [rewrite Hps in Hin; set_solver|]. apply (tree_dom h f Ht). }
  destruct (update_working_spec h (mkForks (delete s (banks f)) d' (forks_root f) (working_slot f) (root_bank f) (working_bank f)
    (highest_slot_at_startup f))) as (f' & -> & E1 & E2 & E3 & E4 & E5 & E6).
  { cbn. intros x j [_ Hj]%lookup_delete_Some. by eapply tree_slot_of. }
  { cbn. exists s'. by rewrite lookup_delete_ne. }
  cbn in *. exists f'. split_and!; try done. constructor.
  - apply Ht.
  - rewrite E1. intros x j [_ Hj]%lookup_delete_Some. by eapply tree_bank.
  - intros p a. unfold desc. rewrite E2, E1. destruct (Hd' p) as [-> _]. rewrite elem_of_difference, (tree_desc h f Ht), elem_of_singleton.
    setoid_rewrite lookup_delete_Some. naive_solver.
  - intros p. unfold desc. rewrite E2, E1. apply Hd'.
  - by rewrite E1.
  - by rewrite E1.
Qed.

(** Any number of banks, in any order. *)
Lemma remove_slots_tree h f slots s' :
  tree_ok h f -> NoDup slots -> (forall s, s ∈ slots -> is_Some (banks f !! s)) -> s' ∉ slots -> is_Some (banks f !! s') ->
  exists f' removed, remove_slots iter slots h f = Some (f', removed) /\ dump_slots iter slots h f = Some (f', removed) /\
    tree_ok h f' /\ forks_root f' = forks_root f /\ root_bank f' = root_bank f /\
    forall s, banks f' !! s = if decide (s ∈ slots) then None else banks f !! s.
Proof.
  revert f. induction slots as [|s slots IH]; intros f Ht Hnd Hin Hs' Hl; cbn [remove_slots dump_slots].
  { exists f, []. by split_and!. }
  apply NoDup_cons in Hnd as [Hs Hnd]. destruct (Hin s ltac:(left)) as [i Hi].
  destruct (forks_remove_tree h f s i s' Ht Hi ltac:(set_solver) Hl) as (f1 & -> & Ht1 & Hb1 & Hr1 & Hrb1).
  destruct (IH f1 Ht1 Hnd) as (f' & removed & E1 & E2 & Ht' & Hr' & Hrb' & Hb').
  { intros x Hx. rewrite Hb1, lookup_delete_ne by set_solver. apply Hin. by right. }
  { set_solver. }
  { by rewrite Hb1, lookup_delete_ne by set_solver. }
  rewrite E1, E2. exists f', (i :: removed). split_and!; try done; [congruence..|].
  intros x. rewrite Hb', Hb1. destruct (decide (x = s)) as [->|Hx].
  - rewrite lookup_delete_eq, (decide_False (P := s ∈ slots)), decide_True by set_solver. done.
  - rewrite lookup_delete_ne by done. destruct (decide (x ∈ slots)); [rewrite decide_True by set_solver|rewrite decide_False by set_solver]; done.
Qed.

(** *** Purging a slot with its descendants *)

Lemma purge_unconfirmed_slot_ok h f slot :
  forks_ok h f -> forks_root f < slot ->
  exists f' removed, purge_unconfirmed_slot iter slot h f = Some (f', removed) /\ forks_ok h f' /\ forks_root f' = forks_root f /\
    forall s, banks f' !! s = if decide (s = slot \/ s ∈ desc f slot) then None else banks f !! s.
Proof.
  intros Hf Hgt. pose proof (forks_tree h f Hf) as Ht. destruct (forks_rooted h f Hf) as (rb & Hroot & Hrb & Hpar).
  assert (forall s, s ∈ desc f slot -> slot < s) as Hdesc.
  { intros s (Hne & i & Hi & Ha)%(tree_desc h f Ht). pose proof (live_anc h f Hf s i slot Hi Ha). lia. }
  unfold purge_unconfirmed_slot. destruct (descendants f !! slot) as [ds|] eqn:Eds.
  2: { exists f, []. split_and!; try done. intros s. assert (~ is_Some (descendants f !! slot)) as Hn by (rewrite Eds; intros [? ?]; done).
       rewrite (tree_dom h f Ht) in Hn. destruct (decide _) as [[->|Hs]|]; [|exfalso; apply Hn; right; set_solver|done].
       apply eq_None_not_Some. tauto. }
  assert (desc f slot = ds) as Ed by (unfold desc; by rewrite Eds). rewrite Ed in *.
  destruct (decide (is_Some (banks f !! slot))) as [Hlive|Hdead].
  2: { exfalso. destruct (proj1 (tree_dom h f Ht slot)) as [H|H]; [eauto|done|]. rewrite Ed in H. destruct (set_choose_L _ H) as [s Hs].
       rewrite <-Ed in Hs. pose proof Hs as Hs'. apply (tree_desc h f Ht) in Hs as (Hne & i & Hi & Ha).
       destruct (live_chain h f Hf s i slot Hi) as (j & Hj & _); [pose proof (Hdesc s ltac:(by rewrite <-Ed)); lia|done|lia|]. apply Hdead. eauto. }
  assert (forall s, s ∈ iter ds ++ [slot] <-> s = slot \/ s ∈ ds) as Hel.
  { intros s. rewrite elem_of_app, (Hiter ds : iter _ ≡ₚ _), elem_of_elements, list_elem_of_singleton. tauto. }
  destruct (remove_slots_tree h f (iter ds ++ [slot]) (forks_root f) Ht) as (f' & removed & _ & -> & Ht' & Hr & Hrb' & Hb').
  { apply NoDup_app. split_and!; [rewrite (Hiter ds : iter _ ≡ₚ _); apply NoDup_elements| |apply NoDup_singleton].
    intros s Hs ->%list_elem_of_singleton. rewrite (Hiter ds : iter _ ≡ₚ _), elem_of_elements in Hs. specialize (Hdesc _ Hs). lia. }
  { intros s [->|Hs]%Hel; [done|]. rewrite <-Ed in Hs. apply (tree_desc h f Ht) in Hs as (_ & i & Hi & _). eauto. }
  { rewrite Hel. intros [?|Hs]; [lia|]. specialize (Hdesc _ Hs). lia. }
  { eauto. }
  assert (forall s, banks f' !! s = if decide (s = slot \/ s ∈ ds) then None else banks f !! s) as Hb.
  { intros s. rewrite Hb'. destruct (decide (s ∈ iter ds ++ [slot])) as [E|E]; rewrite Hel in E;
      [by rewrite decide_True|by rewrite decide_False]. }
  exists f', removed. split_and!; [done| |done|done]. constructor; [done|..].
  - exists rb. rewrite Hr, Hrb', Hb, decide_False; [done|]. intros [?|Hs]; [lia|]. specialize (Hdesc _ Hs). lia.
  - rewrite Hr. intros s i b Hi Hbk Hgt'. rewrite Hb in Hi. destruct (decide _) as [|Hns] in Hi; [done|].
    destruct (forks_link h f Hf s i b Hi Hbk Hgt') as (t & j & H1 & H2 & H3 & H4). exists t, j. split_and!; try done; [|lia..].
    rewrite Hb, decide_False; [done|]. intros Hcase. apply Hns. right. rewrite <-Ed. apply (tree_desc h f Ht).
    assert (slot ∈ anc h j) as Hin.
    { destruct Hcase as [->|Hs]; [by eapply live_self|]. rewrite <-Ed in Hs. apply (tree_desc h f Ht) in Hs as (_ & j' & Hj' & Ha). by simplify_eq. }
    split; [intros ->; apply Hns; by left|]. exists i. split; [done|]. apply H4; [lia|by right].
Qed.

(** *** Moving the root *)

Lemma squash_spec i h j :
  anc (squash i h) j = anc h j /\ slot_of (squash i h) j = slot_of h j /\
  squash i h !! j = (if decide (i = j) then set_parent None <$> h !! j else h !! j).
Proof.
  assert (squash i h !! j = (if decide (i = j) then set_parent None <$> h !! j else h !! j)) as E.
  { unfold squash. destruct (decide (i = j)) as [->|]; [by rewrite list_lookup_alter_eq|by rewrite list_lookup_alter_ne]. }
  unfold anc, slot_of. rewrite E. destruct (decide (i = j)); [|done]. by destruct (h !! j).
Qed.

Lemma squash_tree i h f : tree_ok h f -> tree_ok (squash i h) f.
Proof.
  intros Ht. constructor.
  - intros j b k Hj Hk. destruct (squash_spec i h j) as (_ & _ & E). rewrite E in Hj.
    destruct (decide (i = j)); [|by eapply (tree_store h f Ht)]. apply fmap_Some in Hj as (b' & _ & ->). done.
  - intros s j Hj. destruct (tree_bank h f Ht s j Hj) as (b & Hb & Ho). destruct (squash_spec i h j) as (_ & _ & E). rewrite E, Hb.
    destruct (decide (i = j)); [|by exists b]. exists (set_parent None b). split; [done|]. destruct Ho. by constructor.
  - intros p a. rewrite (tree_desc h f Ht). setoid_rewrite (fun j => proj1 (squash_spec i h j)). done.
  - apply Ht.
  - apply Ht.
  - apply Ht.
Qed.

Lemma parents_live h f s i b :
  forks_ok h f -> banks f !! s = Some i -> h !! i = Some b -> forks_root f <= s ->
  exists ps, parents h b = Some ps /\ forall k, k ∈ ps -> slot_of h k < s.
Proof.
  intros Hf Hi Hb Hge. unfold parents. destruct (decide (s = forks_root f)) as [->|Hne].
  - destruct (forks_rooted h f Hf) as (rb & H1 & H2 & H3). simplify_eq. rewrite H3. exists []. destruct (length h); (split; [done|set_solver]).
  - destruct (forks_link h f Hf s i b Hi Hb ltac:(lia)) as (t & j & H1 & H2 & H3 & _). rewrite H1.
    destruct (tree_bank h f (forks_tree h f Hf) t j H2) as (bj & Hbj & _).
    destruct (live_follow h f Hf t j (length h) H2 ltac:(lia)) as (up & Hup & H4 & _); [by eapply lookup_lt_Some|].
    exists up. split; [done|]. intros k Hk. destruct (H4 (slot_of h k)); [|lia]. apply list_elem_of_fmap. by exists k.
Qed.

Lemma find_bank_in (due : Bank -> bool) h ids k : find_bank due h ids = Some k -> k ∈ ids.
Proof.
  induction ids as [|i ids IH]; cbn [find_bank]; [done|]. destruct (h !! i) as [b|]; [destruct (due b)|].
  - intros [= ->]. left.
  - intros H. right. auto.
  - intros H. right. auto.
Qed.

(** Whatever snapshots are taken, the new root is cut off from its parents, and no bank above
    it is. *)
Lemma squashed_store root snapshots i ps h h' (s' : option SnapshotController) sq :
  slot_of h i = root -> (forall k, k ∈ ps -> slot_of h k < root) ->
  match snapshots with
  | Some s => let '(s, h, squashed) := handle_new_roots s root (i :: ps) h in (Some s, h, squashed)
  | None => (None, h, false)
  end = (s', h', sq) ->
  let h2 := if sq : bool then h' else squash i h' in
  (forall f, tree_ok h f -> tree_ok h2 f) /\ (forall j, anc h2 j = anc h j) /\
  (forall b, h2 !! i = Some b -> bank_parent b = None) /\
  (forall j b, h2 !! j = Some b -> root < slot_of h j -> h !! j = Some b).
Proof.
  intros Hroot Hps E. assert (exists k, (k = i /\ sq = true \/ k ∈ i :: ps /\ sq = false) /\ (h' = h /\ sq = false \/ h' = squash k h)) as (k & Hk & Eh).
  { destruct snapshots as [sn|]; [|exists i; injection E as _ <- <-; split; [right; split; [left|done]|by left]].
    unfold handle_new_roots in E. destruct (find_bank _ _ _) as [k|] eqn:Ef; [|exists i; injection E as _ <- <-; split; [right; split; [left|done]|by left]].
    apply find_bank_in in Ef. injection E as _ <- <-. exists k. split; [|by right].
    destruct (Z.eqb_spec (slot_of h k) root) as [Ek|]; [left|by right]. apply elem_of_cons in Ef as [->|Hin]; [done|].
    specialize (Hps k Hin). lia. }
  assert (forall j, k = j -> ~ root < slot_of h j) as Hlow.
  { intros j <-. destruct Hk as [[-> _]|[[->|Hin]%elem_of_cons _]]; [lia..|specialize (Hps k Hin); lia]. }
  intros h2. assert (h2 = squash k h /\ k = i \/ h2 = squash i h \/ h2 = squash i (squash k h)) as E2.
  { unfold h2. destruct Hk as [[-> ->]|[_ ->]], Eh as [[-> ?]| ->]; try done; tauto. }
  clearbody h2. pose proof (fun f => squash_tree i h f). pose proof (fun f => squash_tree k h f). pose proof (fun f => squash_tree i (squash k h) f).
  split; [destruct E2 as [[-> ->]|[->| ->]]; auto|]. split; [intros j; destruct E2 as [[-> ->]|[->| ->]]; by rewrite ?(proj1 (squash_spec _ _ _))|].
  split.
  - intros b Hb. assert (h2 !! i = set_parent None <$> h !! i \/ exists h1, h2 !! i = set_parent None <$> h1 !! i) as [Ei|[h1 Ei]];
      [|rewrite Ei in Hb; by apply fmap_Some in Hb as (? & _ & ->)..].
    right. destruct E2 as [[-> ->]|[->| ->]]; eexists; by rewrite (proj2 (proj2 (squash_spec _ _ _))), decide_True.
  - intros j b Hb Hgt. assert (i <> j) by (intros <-; lia). assert (k <> j) by (intros Ekj; by apply (Hlow j Ekj)).
    destruct E2 as [[-> ->]|[->| ->]]; rewrite ?(proj2 (proj2 (squash_spec _ _ _))), ?decide_False in Hb by done; done.
Qed.

(** What stays when the root moves: the root, its descendants, and its ancestors from the highest
    confirmed root on. *)
Definition kept (f : BankForks) (root confirmed s : Z) : Prop :=
  s = root \/ s ∈ desc f root \/ (confirmed <= s < root /\ root ∈ desc f s).

#[global] Instance kept_dec f root confirmed s : Decision (kept f root confirmed s).
Proof. apply _. Defined.

Lemma keep_slot_spec h f root confirmed s :
  tree_ok h f -> is_Some (banks f !! root) -> is_Some (banks f !! s) ->
  keep_slot root confirmed (descendants f) s = Some (bool_decide (kept f root confirmed s)).
Proof.
  intros Ht Hr Hs. unfold keep_slot.
  destruct (proj2 (tree_dom h f Ht root) (or_introl Hr)) as [dr Edr]. destruct (proj2 (tree_dom h f Ht s) (or_introl Hs)) as [ds Eds].
  assert (kept f root confirmed s <-> s = root \/ s ∈ dr \/ (confirmed <= s < root /\ root ∈ ds)) as Hk.
  { unfold kept, desc. by rewrite Edr, Eds. }
  rewrite Edr, Eds. destruct (Z.eqb_spec s root) as [->|Hne]; [rewrite bool_decide_eq_true_2; [done|apply Hk; by left]|].
  case_bool_decide as E1; [rewrite bool_decide_eq_true_2; [done|tauto]|].
  destruct ((s <? root) && (confirmed <=? s)) eqn:E; f_equal.
  - apply bool_decide_ext. rewrite Hk. split; [intros ?; right; right; split; [lia|done]|]. intros [?|[?|[_ ?]]]; done.
  - symmetry. apply bool_decide_eq_false. rewrite Hk. intros [?|[?|?]]; [done|done|lia].
Qed.

Lemma slots_to_prune_spec h f root confirmed slots :
  tree_ok h f -> is_Some (banks f !! root) -> (forall s, s ∈ slots -> is_Some (banks f !! s)) ->
  slots_to_prune root confirmed (descendants f) slots = Some (filter (fun s => ~ kept f root confirmed s) slots).
Proof.
  intros Ht Hr. induction slots as [|s slots IH]; intros Hs; cbn [slots_to_prune]; [done|].
  rewrite (keep_slot_spec h f) by (done || apply Hs; left). rewrite IH by (intros; apply Hs; by right). rewrite filter_cons.
  case_bool_decide; [rewrite decide_False by tauto|rewrite decide_True by tauto]; done.
Qed.

Context (iter_banks : gmap Z nat -> list Z) (Hkeys : KeyIteration iter_banks).

Lemma set_root_ok h f root i snapshots highest_super_majority_root :
  forks_ok h f -> banks f !! root = Some i -> forks_root f <= root ->
  exists snapshots' h' f' removed,
    set_root iter iter_banks root snapshots highest_super_majority_root h f = Some (snapshots', h', f', removed) /\
    forks_ok h' f' /\ forks_root f' = root /\ (forall j, anc h' j = anc h j) /\
    forall s, banks f' !! s = if decide (kept f root (default root highest_super_majority_root) s) then banks f !! s else None.
Proof.
  intros Hf Hi Hge. pose proof (forks_tree h f Hf) as Ht. destruct (tree_bank h f Ht root i Hi) as (b & Hb & Ho).
  unfold set_root. rewrite Hi, Hb. destruct (parents_live h f root i b Hf Hi Hb Hge) as (ps & -> & Hps).
  set (hs := default root highest_super_majority_root).
  destruct (match snapshots with Some _ => _ | None => _ end) as [[s' h1] sq] eqn:E.
  assert (slot_of h i = root) as Eslot by by eapply tree_slot_of.
  destruct (squashed_store root snapshots i ps h h1 s' sq Eslot Hps E) as (Htree & Hanc & Hcut & Hsame). clear E Hps.
  set (h2 := if sq then h1 else squash i h1) in *. clearbody h2.
  set (f1 := mkForks (banks f) (descendants f) root (working_slot f) i (working_bank f) (highest_slot_at_startup f)).
  assert (tree_ok h2 f1) as Ht1. { apply Htree in Ht. destruct Ht. by constructor. }
  unfold prune_non_rooted. destruct (Hkeys (banks f1)) as [Hnd Hkeys1].
  rewrite (slots_to_prune_spec h2 f1) by (done || eauto || (intros s Hs; by apply Hkeys1)).
  change (kept f1) with (kept f). fold hs. set (slots := filter _ _).
  assert (forall s, s ∈ slots <-> ~ kept f root hs s /\ is_Some (banks f !! s)) as Hel.
  { intros s. unfold slots. by rewrite list_elem_of_filter, Hkeys1. }
  destruct (remove_slots_tree h2 f1 slots root Ht1) as (f' & removed & -> & _ & Ht' & Hr & Hrb & Hb').
  { by apply NoDup_filter. }
  { intros s [_ Hs]%Hel. done. }
  { rewrite Hel. intros [Hn _]. apply Hn. by left. }
  { cbn. eauto. }
  assert (forall s, banks f' !! s = if decide (kept f root hs s) then banks f !! s else None) as Hbs.
  { intros s. rewrite Hb'. cbn. destruct (decide (s ∈ slots)) as [Hin|Hin]; rewrite Hel in Hin; [by rewrite decide_False by tauto|].
    destruct (decide (kept f root hs s)) as [|Hk]; [done|]. apply eq_None_not_Some. tauto. }
  exists s', h2, f', removed. split_and!; try done. constructor; [done|..].
  - destruct (tree_bank h2 f1 Ht1 root i Hi) as (b2 & Hb2 & _). exists b2. rewrite Hr, Hrb, Hbs, decide_True by by left.
    split_and!; [done|done|]. by apply Hcut.
  - rewrite Hr. cbn. intros s j bank Hj Hbank Hgt. rewrite Hbs in Hj. destruct (decide _) as [Hk|] in Hj; [|done].
    assert (h !! j = Some bank) as Hold by (apply Hsame; [done|]; by erewrite tree_slot_of by done).
    destruct (forks_link h f Hf s j bank Hj Hold ltac:(lia)) as (t & k & H1 & H2 & H3 & H4).
    assert (root ∈ anc h j) as Hroot.
    { destruct Hk as [->|[Hs|Hs]]; [lia| |lia]. apply (tree_desc h f Ht) in Hs as (_ & j' & Hj' & Ha). by simplify_eq. }
    apply H4 in Hroot as Hin; [|done]. destruct Hin as [->|Hin]; [lia|]. pose proof (live_anc h f Hf t k root H2 Hin).
    exists t, k. rewrite Hbs, decide_True; [|destruct (decide (t = root)) as [->|]; [by left|right; left; apply (tree_desc h f Ht); eauto]].
    split_and!; [done|done|lia|lia|]. intros x Hx. rewrite !Hanc. apply H4. lia.
Qed.

End operations.
