(* ===== verification/ForksRun.v ===== *)
(** Runs of the tree of banks: whatever is inserted, purged and rooted, the tree is a fork graph
    and no operation panics; moving the root, with the pruning of the cache of programs that goes
    with it, changes nothing that a batch on a surviving bank sees. *)

From Stdlib Require Import ZArith Lia Bool.
From stdpp Require Import gmap list relations.
From S2P Require Import Prelude.
From S2P Require Import SbpfTypes.
From S2P Require Import TxAccounts.
From S2P Require Import ProgramCache.
From S2P Require Import CacheSafe.
From S2P Require Import CacheView.
From S2P Require Import CacheRuns.
From S2P Require Import RollingBitField.
From S2P Require Import RollingSafe.
From S2P Require Import BankForks.
From S2P Require Import ForksSafe.

#[local] Open Scope Z_scope.

(** ** Steps *)

Section runs.
Context (iter : gset Z -> list Z) (iter_banks : gmap Z nat -> list Z).

(** What replay does: a child of a bank of the tree, a slot purged with its descendants, a bank
    of the tree rooted. *)
Inductive forks_step : BankStore * BankForks -> BankStore * BankForks -> Prop :=
| step_insert h f t parent slot epoch b h' f' :
    banks f !! t = Some parent -> forks_root f <= t < slot -> slot_ok slot -> banks f !! slot = None ->
    new_from_parent h parent slot epoch = Some b -> forks_insert iter b h f = Some (h', f') ->
    forks_step (h, f) (h', f')
| step_purge h f slot f' removed :
    forks_root f < slot -> purge_unconfirmed_slot iter slot h f = Some (f', removed) -> forks_step (h, f) (h, f')
| step_set_root h f root snapshots confirmed snapshots' h' f' removed :
    is_Some (banks f !! root) -> forks_root f <= root ->
    set_root iter iter_banks root snapshots confirmed h f = Some (snapshots', h', f', removed) ->
    forks_step (h, f) (h', f').

(** The first root: a bank without parent, of which the ancestors are the slot itself and slots
    before it. *)
Definition started (b : Bank) (x : BankStore * BankForks) : Prop :=
  bank_ok (bank_slot b) b /\ bank_parent b = None /\ forks_new iter b [] = Some x.

Context (Hiter : SetIteration iter) (Hkeys : KeyIteration iter_banks).

Lemma forks_step_ok x y : forks_ok x.1 x.2 -> forks_step x y -> forks_ok y.1 y.2.
Proof.
  intros Hf Hs. destruct Hs as [h f t parent slot epoch b h' f' Ht Hlt Hslot Hnone Eb E|h f slot f' removed Hgt E|
    h f root snapshots confirmed snapshots' h' f' removed [i Hi] Hge E]; cbn in *.
  - destruct (forks_insert_ok iter Hiter h f t parent slot epoch Hf Ht Hlt Hslot Hnone) as (b1 & h1 & f1 & E1 & E2 & Hok & _); [|congruence].
    intros p Hp. unfold new_from_parent in Eb. rewrite Hp in Eb. destruct (_ =? _); [done|].
    unfold checked_add in Eb. destruct (Z.leb_spec (bank_block_height p + 1) u64_MAX); [lia|done].
  - destruct (purge_unconfirmed_slot_ok iter Hiter h f slot Hf Hgt) as (f1 & r1 & E1 & Hok & _). congruence.
  - destruct (set_root_ok iter Hiter iter_banks Hkeys h f root i snapshots confirmed Hf Hi Hge) as (s1 & h1 & f1 & r1 & E1 & Hok & _). congruence.
Qed.

Lemma forks_run_ok b x y : started b x -> rtc forks_step x y -> forks_ok y.1 y.2.
Proof.
  intros (Hb & Hp & E) Hrun. destruct (forks_new_ok iter Hiter b []) as (f & E' & Hok & _); [by intros ? ? ?|done|done|].
  assert (forks_ok x.1 x.2) as Hx by (rewrite E in E'; by injection E' as ->). clear E E' Hok Hb Hp.
  induction Hrun as [x|x y z Hs _ IH]; [done|]. apply IH. by eapply forks_step_ok.
Qed.
End runs.

(** C19. However banks are inserted below banks of the tree, purged with their descendants, and
    rooted, with any snapshots taken on the way, the relation that the tree tells between slots
    obeys the laws that the cache of programs relies on: ancestors come earlier, are known, form a
    line, and descendants are their inverse. *)
Theorem bank_forks_is_fork_graph (iter : gset Z -> list Z) (iter_banks : gmap Z nat -> list Z)
    (b : Bank) (x : BankStore * BankForks) (h : BankStore) (f : BankForks) :
  SetIteration iter -> KeyIteration iter_banks ->
  started iter b x -> rtc (forks_step iter iter_banks) x (h, f) -> ForkGraphLaws (relationship h f).
Proof.
  intros Hi Hk Hs Hr. apply forks_fork_graph. exact (forks_run_ok iter iter_banks Hi Hk b x (h, f) Hs Hr).
Qed.

(** C20. In every such tree no assertion, unwrap or index fails: a child of any bank from the root
    on is inserted, any slot after the root is purged together with exactly its descendants, and
    any bank from the root on becomes the root, which leaves exactly that bank, its descendants,
    and its ancestors from the highest confirmed root on. *)
Theorem bank_forks_never_panics (iter : gset Z -> list Z) (iter_banks : gmap Z nat -> list Z)
    (b : Bank) (x : BankStore * BankForks) (h : BankStore) (f : BankForks) :
  SetIteration iter -> KeyIteration iter_banks -> started iter b x -> rtc (forks_step iter iter_banks) x (h, f) ->
  (forall t parent p slot epoch, banks f !! t = Some parent -> h !! parent = Some p -> bank_block_height p < u64_MAX ->
     forks_root f <= t < slot -> slot_ok slot -> banks f !! slot = None ->
     exists child h' f', new_from_parent h parent slot epoch = Some child /\ forks_insert iter child h f = Some (h', f') /\
       banks f' = <[slot := length h]> (banks f) /\ relationship h' f' t slot = Ancestor) /\
  (forall slot, forks_root f < slot ->
     exists f' removed, purge_unconfirmed_slot iter slot h f = Some (f', removed) /\
       forall s, is_Some (banks f' !! s) <-> is_Some (banks f !! s) /\ s <> slot /\ s ∉ desc f slot) /\
  (forall root snapshots confirmed, is_Some (banks f !! root) -> forks_root f <= root ->
     exists snapshots' h' f' removed, set_root iter iter_banks root snapshots confirmed h f = Some (snapshots', h', f', removed) /\
       forall s, is_Some (banks f' !! s) <-> is_Some (banks f !! s) /\
         (s = root \/ s ∈ desc f root \/ (default root confirmed <= s < root /\ root ∈ desc f s))).
Proof.
  intros Hi Hk Hs Hr. pose proof (forks_run_ok iter iter_banks Hi Hk b x (h, f) Hs Hr) as Hf. cbn in Hf. split_and!.
  - intros t parent p slot epoch Ht Hp Hh Hlt Hslot Hnone.
    destruct (forks_insert_ok iter Hi h f t parent slot epoch Hf Ht Hlt Hslot Hnone) as (c & h' & f' & E1 & E2 & Hf' & Hroot & Hb & Ha).
    { intros p' Hp'. congruence. }
    exists c, h', f'. split_and!; try done. apply relationship_cases; [done|]. split; [lia|]. split; [lia|].
    exists (length h). rewrite Hb, lookup_insert_eq. split; [done|].
    done.
  - intros slot Hgt. destruct (purge_unconfirmed_slot_ok iter Hi h f slot Hf Hgt) as (f' & removed & E & _ & _ & Hb).
    exists f', removed. split; [done|]. intros s. rewrite Hb. destruct (decide _) as [Hd|Hd]; [|tauto].
    split; [intros [? ?]; done|tauto].
  - intros root snapshots confirmed [i Hroot] Hge.
    destruct (set_root_ok iter Hi iter_banks Hk h f root i snapshots confirmed Hf Hroot Hge) as (s' & h' & f' & removed & E & _ & _ & _ & Hb).
    exists s', h', f', removed. split; [done|]. intros s. rewrite Hb. unfold kept. destruct (decide _) as [Hd|Hd]; [tauto|].
    split; [intros [? ?]; done|tauto].
Qed.

(** ** The cache of programs when the root moves *)

Section unseen.
Context {Executable BuiltinProgram : Type} (get_loader : Executable -> Z) (debug_assertions : bool).
Abbreviation Entry := (ProgramCacheEntry Executable BuiltinProgram).
Abbreviation Cache := (ProgramCache Executable BuiltinProgram).

(** The search asks the fork graph only whether a version is on the fork of the batch. *)
Lemma extract_version_fork (fg fg' : ForkGraph) (root slot : Z) (environments : ProgramRuntimeEnvironments)
    (criteria : ProgramCacheMatchCriteria) (filter_slot : option Z) (l : list Entry) :
  (forall e : Entry, on_fork fg' root slot e = on_fork fg root slot e) ->
  extract_version get_loader fg' root slot environments criteria filter_slot l =
  extract_version get_loader fg root slot environments criteria filter_slot l.
Proof.
  intros Hs. revert filter_slot. induction l as [|e l IH]; intros filter_slot; cbn [extract_version]; [done|].
  by rewrite Hs, !IH.
Qed.

Lemma prune_none_spec (fg : ForkGraph) (new_root : Z) (c : Cache) :
  fork_graph c = LiveForkGraph fg -> latest_root_slot c <= new_root ->
  exists c', prune get_loader debug_assertions new_root None c = Some c' /\ latest_root_slot c' = new_root /\
    loading_entries c' = loading_entries c /\
    forall key, default [] (entries c' !! key) =
      (prune_versions get_loader fg new_root (latest_root_slot c) None (default [] (entries c !! key))).2.
Proof.
  intros Ef Hle. unfold prune. rewrite Ef. set (pruned := prune_versions _ _ _ _ _ <$> _).
  set (c1 := map_stats _ _). set (c2 := remove_programs_with_no_entries c1).
  assert (latest_root_slot c2 = latest_root_slot c /\ loading_entries c2 = loading_entries c /\
    entries c2 = filter (fun kv => kv.2 <> []) (snd <$> pruned)) as (H1 & H2 & H3).
  { unfold c2, remove_programs_with_no_entries. by destruct (_ <? _). }
  rewrite H1, (proj2 (Z.ltb_ge new_root (latest_root_slot c))), andb_false_r by done.
  exists (set_latest_root_slot new_root c2). split_and!; [done..|]. intros key. cbn. rewrite H3.
  rewrite map_lookup_filter, lookup_fmap. unfold pruned. rewrite lookup_fmap. destruct (entries c !! key) as [l|]; [|done].
  cbn. destruct (prune_versions _ _ _ _ _ l).2 as [|e l'] eqn:E; [by rewrite option_guard_False by tauto|by rewrite option_guard_True].
Qed.
End unseen.

(** A slot of the tree after the root has moved is related to its ancestors as it was. *)
Lemma on_fork_kept {Executable BuiltinProgram : Type} (h h' : BankStore) (f f' : BankForks)
    (root confirmed slot : Z) :
  forks_ok h f -> forks_ok h' f' -> forks_root f <= root -> forks_root f' = root -> (forall j, anc h' j = anc h j) ->
  (forall s, banks f' !! s = if decide (kept f root confirmed s) then banks f !! s else None) ->
  is_Some (banks f' !! slot) -> root <= slot ->
  is_equal_or_ancestor (relationship h f root slot) = true /\
  forall e : ProgramCacheEntry Executable BuiltinProgram,
    on_fork (relationship h' f') root slot e = on_fork (relationship h f) root slot e.
Proof.
  intros Hf Hf' Hge Hr Hanc Hb [i Hi] Hle. pose proof Hi as Hi0. rewrite Hb in Hi0. destruct (decide _) as [Hk|] in Hi0; [|done].
  pose proof (tree_highest h f (forks_tree h f Hf) slot ltac:(eauto)). pose proof (tree_highest h' f' (forks_tree h' f' Hf') slot ltac:(eauto)).
  assert (forall a, above h f a slot <-> forks_root f <= a /\ a <> slot /\ a ∈ anc h i) as H1.
  { intros a. unfold above. split; [intros (? & ? & j & ? & ?); by simplify_eq|intros (? & ? & ?); eauto]. }
  assert (forall a, above h' f' a slot <-> root <= a /\ a <> slot /\ a ∈ anc h i) as H2.
  { intros a. unfold above. rewrite Hr. setoid_rewrite Hanc. split; [intros (? & ? & j & ? & ?); by simplify_eq|intros (? & ? & ?); eauto]. }
  assert (forall a, root <= a -> is_equal_or_ancestor (relationship h' f' a slot) = is_equal_or_ancestor (relationship h f a slot)) as Hrel.
  { intros a Ha. destruct (relationship_cases h f Hf a slot) as (A1 & _ & A2). destruct (relationship_cases h' f' Hf' a slot) as (B1 & _ & B2).
    rewrite H1 in A1. rewrite H2 in B1. rewrite Hr in B2.
    destruct (decide (a = slot)) as [->|Hne]; [by rewrite (proj2 A2), (proj2 B2) by lia|].
    destruct (decide (a ∈ anc h i)) as [Hin|Hin]; [by rewrite (proj2 A1), (proj2 B1) by (split_and!; done || lia)|].
    destruct (relationship h f a slot), (relationship h' f' a slot); try done; exfalso; naive_solver. }
  split.
  - destruct (relationship_cases h f Hf root slot) as (A1 & _ & A2). rewrite H1 in A1.
    destruct (decide (slot = root)) as [->|Hne]; [by rewrite (proj2 A2) by lia|]. rewrite (proj2 A1); [done|].
    split; [lia|]. split; [lia|]. destruct Hk as [?|[Hd|[? _]]]; [lia| |lia].
    apply (tree_desc h f (forks_tree h f Hf)) in Hd as (_ & j & Hj & Ha). by simplify_eq.
  - intros e. unfold on_fork. destruct (Z.leb_spec (deployment_slot e) root); [done|]. cbn [orb]. apply Hrel. lia.
Qed.


(** ** A tree: slot 0, its children 1 and 2, and a child 3 of slot 1 *)

Definition map_keys (m : gmap Z nat) : list Z := (map_to_list m).*1.

Lemma elements_iteration : SetIteration elements.
Proof. by intros s. Qed.

Lemma map_keys_iteration : KeyIteration map_keys.
Proof.
  intros m. split; [apply NoDup_fst_map_to_list|]. intros s. unfold map_keys. rewrite list_elem_of_fmap. split.
  - intros ([s' i] & -> & Hi%elem_of_map_to_list). eauto.
  - intros [i Hi]. exists (s, i). split; [done|]. by apply elem_of_map_to_list.
Qed.

Definition no_ancestors : RollingBitField := mkRolling 1 0 0 [false] 0 ∅.
Definition genesis : Bank := mkBank 0 None (default no_ancestors (ancestors_from [0])) 0 0 false.

Lemma genesis_ok : bank_ok (bank_slot genesis) genesis.
Proof.
  destruct (ancestors_from_spec [0]) as (a & E & Hr & Hm); [by repeat constructor|].
  assert (bank_ancestors genesis = a) as Ea by (unfold genesis; cbn [bank_ancestors]; by rewrite E).
  constructor; [reflexivity|by split|rewrite Ea; exact Hr|rewrite Ea, Hm; by apply elem_of_list_to_set, list_elem_of_singleton|].
  intros y. rewrite Ea, Hm, elem_of_list_to_set, list_elem_of_singleton. intros ->. by split.
Qed.

Definition grow (slot : Z) (parent : nat) (x : option (BankStore * BankForks)) : option (BankStore * BankForks) :=
  let! (h, f) := x in
  let! b := new_from_parent h parent slot 0 in
  forks_insert elements b h f.

Definition tree0 : option (BankStore * BankForks) := forks_new elements genesis [].
Definition tree3 : option (BankStore * BankForks) := grow 3 1 (grow 2 0 (grow 1 0 tree0)).

Lemma grow_step (y : option (BankStore * BankForks)) x slot (parent : nat) t :
  (exists z, y = Some z /\ rtc (forks_step elements map_keys) x z) ->
  option_map (fun z => (banks z.2 !! t, forks_root z.2, banks z.2 !! slot)) y = Some (Some parent, 0, None) ->
  0 <= t < slot -> slot_ok slot -> option_map (fun _ => tt) (grow slot parent y) = Some tt ->
  exists z, grow slot parent y = Some z /\ rtc (forks_step elements map_keys) x z.
Proof.
  intros ([h f] & -> & Hr) E Hlt Hs Ez. destruct (grow slot parent (Some (h, f))) as [z|] eqn:Eg; [|done]. clear Ez. rename Eg into Ez. cbn in E. injection E as E1 E2 E3. exists z. split; [done|].
  unfold grow in Ez. destruct (new_from_parent h parent slot 0) as [b|] eqn:Eb; [|done].
  eapply rtc_r; [exact Hr|]. destruct z as [h' f']. by eapply step_insert; [..|rewrite E2| | |exact Eb|].
Qed.

Lemma tree3_run : exists x h f, started elements genesis x /\ tree3 = Some (h, f) /\ rtc (forks_step elements map_keys) x (h, f).
Proof.
  destruct (forks_new_ok elements elements_iteration genesis []) as (f0 & E0 & _); [by intros ? ? ?|apply genesis_ok|done|].
  exists (([] ++ [genesis])%list, f0).
  assert (exists z, tree3 = Some z /\ rtc (forks_step elements map_keys) (([] ++ [genesis])%list, f0) z) as ([h f] & E & Hr).
  { apply (grow_step _ _ 3 1 1); [|vm_compute; reflexivity|lia|by split|vm_compute; reflexivity].
    apply (grow_step _ _ 2 0 0); [|vm_compute; reflexivity|lia|by split|vm_compute; reflexivity].
    apply (grow_step _ _ 1 0 0); [|vm_compute; reflexivity|lia|by split|vm_compute; reflexivity].
    exists (([] ++ [genesis])%list, f0). split; [exact E0|apply rtc_refl]. }
  exists h, f. split; [|split; [exact E|exact Hr]]. split; [apply genesis_ok|]. split; [reflexivity|exact E0].
Qed.

(** A fact of the tree that is computed. *)
Lemma tree3_fact {A} (fact : BankStore * BankForks -> A) (h : BankStore) (f : BankForks) (a : A) :
  tree3 = Some (h, f) -> option_map fact tree3 = Some a -> fact (h, f) = a.
Proof. intros ->. by intros [= ->]. Qed.

Lemma bank_forks_is_fork_graph_witness :
  exists h f, tree3 = Some (h, f) /\ ForkGraphLaws (relationship h f) /\
    relationship h f 1 3 = Ancestor /\ relationship h f 3 0 = Descendant /\ relationship h f 2 3 = Unrelated.
Proof.
  destruct tree3_run as (x & h & f & Hs & E & Hr). exists h, f. split; [exact E|]. split.
  - exact (bank_forks_is_fork_graph elements map_keys genesis x h f elements_iteration map_keys_iteration Hs Hr).
  - split; [|split].
    + exact (tree3_fact (fun z => relationship z.1 z.2 1 3) h f Ancestor E ltac:(vm_compute; reflexivity)).
    + exact (tree3_fact (fun z => relationship z.1 z.2 3 0) h f Descendant E ltac:(vm_compute; reflexivity)).
    + exact (tree3_fact (fun z => relationship z.1 z.2 2 3) h f Unrelated E ltac:(vm_compute; reflexivity)).
Defined.

Lemma bank_forks_never_panics_witness :
  exists h f, tree3 = Some (h, f) /\ exists snapshots' h' f' removed, set_root elements map_keys 1 None None h f = Some (snapshots', h', f', removed) /\
    is_Some (banks f' !! 3) /\ ~ is_Some (banks f' !! 2).
Proof.
  destruct tree3_run as (x & h & f & Hs & E & Hr). exists h, f. split; [exact E|].
  assert (banks f !! 1 = Some 1%nat) as H1 by exact (tree3_fact (fun z => banks z.2 !! 1) h f _ E ltac:(vm_compute; reflexivity)).
  assert (banks f !! 3 = Some 3%nat) as H3 by exact (tree3_fact (fun z => banks z.2 !! 3) h f _ E ltac:(vm_compute; reflexivity)).
  assert (forks_root f = 0) as H0 by exact (tree3_fact (fun z => forks_root z.2) h f _ E ltac:(vm_compute; reflexivity)).
  assert (descendants f !! 1 = Some {[3]}) as Hd by exact (tree3_fact (fun z => descendants z.2 !! 1) h f _ E ltac:(vm_compute; reflexivity)).
  destruct (bank_forks_never_panics elements map_keys genesis x h f elements_iteration map_keys_iteration Hs Hr) as (_ & _ & H).
  destruct (H 1 None None) as (s' & h' & f' & removed & Es & Hb); [by exists 1%nat|rewrite H0; discriminate|].
  exists s', h', f', removed. split; [exact Es|]. rewrite !Hb.
  assert (desc f 1 = {[3]}) as -> by (unfold desc; rewrite Hd; reflexivity). clear E. split.
  - split; [by exists 3%nat|]. right. left. by apply elem_of_singleton.
  - intros [_ [?|[Hin%elem_of_singleton|[[_ ?] _]]]]; discriminate.
Defined.

